(* ===== verification/_CoqProject ===== *)
-Q . S2P
Prelude.v
Payout.v
Js.v
Calendar.v
DemoMoney.v
DemoClient.v
DemoLedger.v
DemoProps.v
Euclid.v
Annual.v
AnnualIndex.v
AnnualLedger.v
AnnualProps.v
TxBytes.v
TxArith.v
TxQuotes.v
TxProps.v
Utf8.v
TxAccounts.v
TxAccountProps.v
TxIdentity.v
TxInstructions.v
TxTransactions.v
Json.v
RpcPolicy.v
CasStore.v
Programs.v
Credits.v
Processes.v
IsoTime.v
DevnetLedger.v
DevnetProps.v
DevnetService.v
DevnetServiceProps.v
BrokerLedger.v
BrokerProps.v
SessionBroker.v
SessionBrokerProps.v
Gateway.v
GatewayProps.v
Base58.v
DevnetSteps.v
DevnetStepsProps.v
WalletAmounts.v
ProductClient.v
ProductProps.v
AmmAccounting.v
GuidedDemo.v
GuidedRuntime.v
GuidedServer.v
GuidedWork.v
GuidedProps.v
GuidedStore.v
GuidedExamples.v
IssuerSchema.v
IssuerTransport.v
IssuerXstocks.v
IssuerBackpack.v
IssuerOndo.v
IssuerXstocksProps.v
IssuerReader.v
IssuerReaderProps.v
OndoChecker.v
OndoCheckerProps.v
AmmGuards.v
AmmFlow.v
AmmFlowProps.v
AmmFlowExamples.v
IssuerExamples.v
QualificationSchema.v
Qualification.v
QualificationProps.v
QualificationExamples.v
