(* ===== verification/Prelude.v ===== *)
(** * DivX (dividendx-stocklana): verification library

    DivX splits the tokens of a stock into two claims for one year: a principal
    token (PT) and a dividend-right token (DR).  The repository holds the
    reference models of that split, the client library for the on-chain
    program, the web product, the services of a hosted test network, and the
    readers of what stock issuers publish.  This library translates their core
    logic to Rocq and proves what makes it correct.  Paths below are under
    [src/].

    ** Parts, and the files that model them

    - Rehearsal SDK, [packages/sdk/src/index.ts]: DemoMoney (decimal amounts,
      display/raw conversion, allocation between PT and DR), DemoClient
      ([createDemoClient]: fixtures, wallets, every operation), DemoLedger (the
      invariant of its ledger), DemoProps (theorems and a concrete run).
    - Annual reference model, [packages/sdk/src/annual-reference.ts]: Annual
      ([AnnualReferenceModel], every method), AnnualIndex (the rational index),
      AnnualLedger (the invariant), AnnualProps (theorems).
    - Transaction SDK, [packages/transaction-sdk/src]: TxBytes ([bytes.ts],
      [constants.ts], [errors.ts]), TxArith ([arithmetic.ts]), TxQuotes
      ([types.ts], [quotes.ts]), TxProps (their theorems), TxAccounts
      ([accounts.ts], [token-profile.ts]), TxAccountProps, TxIdentity
      ([identity.ts], [pdas.ts], [discovery.ts]), TxInstructions
      ([instructions.ts]), TxTransactions ([transactions.ts]).
    - Hosted broker, [packages/hosted-broker/src]: CasStore ([json-store.ts]:
      the conditional-write store and [mutateJson]), BrokerLedger
      ([contract.ts], [ledger.ts]: sessions, quotas, meters), BrokerProps,
      SessionBroker ([broker.ts]: sessions over a provider of sandboxes, every
      route), SessionBrokerProps.
    - Hosted sandboxes: RpcPolicy (the JSON-RPC policies of the broker and of
      the gateway), Gateway ([packages/hosted-gateway/src/server.mjs]: what a
      sandbox answers and lets through), GatewayProps.
    - Hosted devnet, [packages/hosted-devnet/src]: DevnetLedger ([contract.ts],
      [ledger.ts]: the durable journal), DevnetProps, DevnetService
      ([service.ts]: funding and observation), DevnetServiceProps.
    - Devnet runtime, [packages/devnet-runtime/src/transactions.ts]:
      DevnetSteps (provisioning steps that survive crashes), DevnetStepsProps.
    - Guided runtime, [packages/guided-runtime/src]: GuidedDemo ([contract.ts],
      the checks of each step), GuidedRuntime ([runtime.ts]: jobs, steps, the
      state and its file), GuidedServer ([server.ts]), GuidedWork (what every
      step spends of an abstract account), GuidedProps and GuidedStore
      (theorems), GuidedExamples (runs).
    - Issuer readers, [packages/issuer-readers/src]: IssuerSchema ([schema.ts],
      [catalog.ts], [types.ts]), IssuerTransport ([transport.ts]: one public
      request, the events of the readers), IssuerXstocks ([xstocks.ts]),
      IssuerBackpack ([backpack.ts]), IssuerOndo ([ondo.ts]),
      IssuerXstocksProps, IssuerReader ([reader.ts]: all issuers),
      IssuerReaderProps, IssuerExamples; OndoChecker
      ([scripts/issuers/ondo-readonly.mjs]: Ondo's transport, and the program
      that observes its endpoints), OndoCheckerProps; QualificationSchema
      ([qualification-schema.ts]), Qualification ([qualification.ts]),
      QualificationProps, QualificationExamples.
    - Web product, [apps/web/src]: ProductClient
      ([annual-product-client.ts]), ProductProps, WalletAmounts
      ([wallet/amounts.ts]: what the wallet shows and accepts).
    - AMM integration, [packages/amm-integration/src]: AmmAccounting
      ([accounting.ts], [quote.ts]), AmmGuards ([guards.ts], [manifest.ts],
      [constants.ts], [transactions.ts]: the manifest, the programs' code, the
      market's configuration, one transaction), AmmFlow ([flow.ts]: the whole
      run, and what it publishes on the way), AmmFlowProps, AmmFlowExamples.
    - Shared: Prelude (results, the state-and-error monad, insertion-ordered
      maps, tactics), Payout (the abstract redemption pool), Euclid (the [gcd]
      loop and lowest terms), Js (texts and numbers), Calendar ([Date.UTC] and
      its readers), IsoTime ([toISOString] texts), Utf8 ([TextEncoder]), Json
      (parsed values), Base58, Programs (asynchronous calls as trees of events,
      alone, interleaved, or judged by what was answered so far), Credits (a logic of budgets that programs
      spend), Processes (processes that crash and start again).

    ** How they interact

    ProductClient owns one Annual model per session and calls its methods.
    The redemption rule of DemoClient, Annual and TxArith is one rule, stated
    once as the abstract pool of Payout; each component refines it.  TxQuotes
    computes on the snapshots that TxAccounts reads, and TxInstructions builds
    the instructions its quotes describe.  DevnetLedger and BrokerLedger are
    updated through the retry loop of CasStore; CasStore is stated against the
    interface [JsonCasStore] and its laws, which a document in memory
    implements, and a blob whose creation may be reported as refused although
    it took place.  DevnetService and SessionBroker run over these journals
    through Programs, one update as one event, which is true of every write of
    a document but possibly its first; SessionBroker and Gateway share
    RpcPolicy.  The steps of
    the guided runtime obey the interface [Account] of GuidedWork, which
    GuidedProps and GuidedStore instantiate with tokens and with tickets.
    IssuerReader runs the three readers of issuers one after the other over
    the events of IssuerTransport, and asks Ondo for the endpoints OndoChecker
    lists; Qualification reads the reports they
    describe, with the account readers of TxAccounts.  AmmFlow takes its
    addresses from TxIdentity and its quotes from TxQuotes and AmmAccounting,
    whose checks decide at each checkpoint whether the run goes on.

    ** Modelling

    A synchronous method is a function of its state in the monad [M]: it
    returns a value or throws a code, and a throw keeps the mutations made
    before it.  A call that awaits is a tree of events (Programs); other calls
    run between its events, and what the outside world answers is arbitrary.
    [bigint]s are [Z]; numbers the code checks with [Number.isSafeInteger] are
    [Z]; 64-bit quantities are checked against their width where the code
    checks them; the binary64 value of a decimal text is its bits.  Error texts
    are left out, error codes kept.  [Map]s and objects whose order matters are
    association lists in insertion order ([om_get], [om_set]), the others finite
    maps.

    ** What the theorems show

    Conservation and backing (annual, demo, product); redemptions as steps of
    the abstract pool, for every order and split, with nothing left unpaid;
    exactness and order-independence of the dividend index and of the binary64
    multipliers; atomicity of failing calls; freezing of finalized series;
    coherence of what the SDK reads and quotes; linearizability of concurrent
    updates, each applied at most once unless the creation of the document was
    reported as refused; budgets, quotas, fencing and single use of transactions in the
    hosted services under any interleaving, crash or lost reply; requests that
    go to the domain the provider showed for their own session's sandbox and
    answers that hide it; a gateway whose queue, a chain of promises, sends
    mutations one at a time in order, and whose end is final; provisioning
    steps that are not sent twice unless an error was reported, and return only
    what was found done and took effect; guided
    jobs that exclude each other, follow their order and write their file in
    order; a run on a market that sends only what was simulated on the cluster
    and against the programs it names, and whose receipt has backed
    checkpoints joined by steps of the market; issuers that are not asked again once they refuse, with reports of
    all selected assets and of exactly the requests made; a key that leaves
    for listed addresses only and is never written; issuer histories
    that are complete when they say so, reduced independently of their order;
    and dossiers that carry every blocker and
    flag every announcement used twice.  The manifest lists them in order.

    ** Bounds and fuel

    [toString_fuel] gets as many steps as the number has bits plus one; the
    [gcd] loop gets one step per bit of its operand, twice over
    ([gcd_loop_spec] proves it enough); [mutateJson] and the loops of the
    broker take the number of attempts as the code bounds them (8 and 12); the
    polls of a transaction and the rounds of the guided set-up are bounded by
    the code's own deadlines, 17 and 301; base-58 texts get 34 bytes and two
    digits a byte; the history of an issuer has at most the 100 pages of
    [XSTOCKS_MAX_PAGES]; the opening of a pool is polled 120 times, as in
    [waitForPoolOpen].  Everything else is structural.

    ** Parameters

    SHA-256, NFC, the Solana libraries (public keys, derived addresses, the
    Anchor coder, SPL unpackers, signature bytes and statuses), the wallet, the
    RPC connection, the chain adapter of the devnet service, the provider of
    sandboxes, hashes of tokens, the file system (whose writes may fail),
    Raydium's client, and, for the issuer readers, what [fetch] answers, what
    files hold, [path.resolve], [Date.parse], [localeCompare] and the parsers of
    URLs and of JSON.  Where a theorem relies on one of them its hypothesis says
    on what.

    ** Not modelled

    The React user interface, the wallet's inventory and its chain reads, HTTP
    routing and rendering, the Vercel Blob and Sandbox adapters, the devnet
    chain adapter and registry bootstrap, the AMM integration's files of keys
    and progress and the text of its receipt, the local runtime, the files of the issuer readers, other
    command-line programs and deployment scripts: they move data between the
    parts above and services that are not in the repository.  The on-chain
    program (Rust) is outside this library. *)
From stdpp Require Export base option list gmap strings fin_maps sets.
From Stdlib Require Export ZArith Lia.

Set Default Goal Selector "!".
Open Scope Z_scope.

(** ** Results: a call returns a value or throws an error code *)

Inductive result (E A : Type) : Type :=
  | Ok (a : A)
  | Err (e : E).
Arguments Ok {E A} a.
Arguments Err {E A} e.

#[global] Instance result_ret E : MRet (result E) := fun A a => Ok a.
#[global] Instance result_bind E : MBind (result E) :=
  fun A B f m => match m with Ok a => f a | Err e => Err e end.

#[global] Instance result_eq_dec `{EqDecision E, EqDecision A} : EqDecision (result E A).
Proof. solve_decision. Defined.

Definition is_ok {E A} (r : result E A) : bool :=
  match r with Ok _ => true | Err _ => false end.

(** [require b e] is the source's [if (!b) fail(e)] and [invariant(b, e)]. *)
Definition require {E} (b : bool) (e : E) : result E unit :=
  if b then Ok tt else Err e.

(** A loop that may throw: [for (const b of l) a = f(a, b)]. *)
Fixpoint foldM {E A B} (f : A -> B -> result E A) (a : A) (l : list B) : result E A :=
  match l with
  | [] => Ok a
  | b :: l' => a' ← f a b; foldM f a' l'
  end.

Section result_lemmas.
Context {E : Type}.

Lemma foldM_inv {A B} (f : A -> B -> result E A) (P : list B -> A -> Prop) a0 l a :
  P [] a0 ->
  (forall l1 a1 b a2, P l1 a1 -> f a1 b = Ok a2 -> P (l1 ++ [b]) a2) ->
  foldM f a0 l = Ok a -> P l a.
Proof.
  intros H0 Hs. enough (forall l1 a1, P l1 a1 -> foldM f a1 l = Ok a -> P (l1 ++ l) a) as H.
  { intros. by eapply (H [] a0). }
  induction l as [|b l IH]; simpl; intros l1 a1 H1 Hf.
  - injection Hf as <-. by rewrite app_nil_r.
  - destruct (f a1 b) as [a2|] eqn:E1; [|done]. cbn in Hf.
    rewrite cons_middle, app_assoc. eapply IH; [|done]. by eapply Hs.
Qed.

Lemma foldM_Forall {A B} (f : A -> B -> result E A) a0 l a :
  foldM f a0 l = Ok a -> Forall (fun b => exists a1 a2, f a1 b = Ok a2) l.
Proof.
  revert a0. induction l as [|b l IH]; intros a0; simpl; [constructor|].
  destruct (f a0 b) as [a1|] eqn:E1; [|done]. cbn. intros H. constructor; eauto.
Qed.

Lemma bind_Ok_inv {A B} (m : result E A) (f : A -> result E B) b :
  (m ≫= f) = Ok b -> exists a, m = Ok a /\ f a = Ok b.
Proof. destruct m as [a|e]; [by eauto|done]. Qed.

Lemma bind_Ok_intro {A B} (m : result E A) (f : A -> result E B) a b :
  m = Ok a -> f a = Ok b -> (m ≫= f) = Ok b.
Proof. by intros ->. Qed.

Lemma Ok_inj {A} (a b : A) : @Ok E A a = Ok b -> a = b.
Proof. by intros [= ->]. Qed.

Lemma require_Ok_inv (b : bool) (e : E) u : require b e = Ok u -> b = true.
Proof. by destruct b. Qed.

Lemma require_true (e : E) : require true e = Ok tt.
Proof. done. Qed.

Lemma bind_Ok {A B} (a : A) (f : A -> result E B) : (Ok a ≫= f) = f a.
Proof. done. Qed.
End result_lemmas.

(** ** Stateful calls: JavaScript methods that mutate an object and may throw.
    The state reached when an exception is thrown is kept, as in the source:
    nothing rolls back a mutation made before a [throw]. *)

Definition M (S E A : Type) : Type := S -> result E A * S.

#[global] Instance M_ret S E : MRet (M S E) := fun A a s => (Ok a, s).
#[global] Instance M_bind S E : MBind (M S E) :=
  fun A B f m s =>
    match m s with
    | (Ok a, s') => f a s'
    | (Err e, s') => (Err e, s')
    end.

Definition throw {S E A} (e : E) : M S E A := fun s => (Err e, s).
Definition lift {S E A} (r : result E A) : M S E A := fun s => (r, s).
Definition ensure {S E} (b : bool) (e : E) : M S E unit := lift (require b e).
Definition get {S E} : M S E S := fun s => (Ok s, s).
Definition put {S E} (s : S) : M S E unit := fun _ => (Ok tt, s).
Definition modify {S E} (f : S -> S) : M S E unit := fun s => (Ok tt, f s).

Section M_lemmas.
Context {S E : Type}.

Lemma M_bind_Ok_inv {A B} (m : M S E A) (f : A -> M S E B) s b s' :
  (m ≫= f) s = (Ok b, s') ->
  exists a s1, m s = (Ok a, s1) /\ f a s1 = (Ok b, s').
Proof.
  unfold mbind, M_bind. destruct (m s) as [[a|e] s1]; [by eauto|done].
Qed.

Lemma M_bind_Err_inv {A B} (m : M S E A) (f : A -> M S E B) s e s' :
  (m ≫= f) s = (Err e, s') ->
  m s = (Err e, s') \/
  exists a s1, m s = (Ok a, s1) /\ f a s1 = (Err e, s').
Proof.
  unfold mbind, M_bind. destruct (m s) as [[a|e1] s1]; [by eauto|].
  intros [= -> ->]. by left.
Qed.

Lemma lift_inv {A} (r : result E A) (s : S) x s' :
  lift r s = (x, s') -> r = x /\ s' = s.
Proof. by intros [= -> ->]. Qed.

Lemma ensure_Ok_inv (b : bool) (e : E) (s : S) u s' :
  ensure b e s = (Ok u, s') -> b = true /\ s' = s.
Proof. unfold ensure, lift. by destruct b; intros [= <-]. Qed.
End M_lemmas.

Lemma M_bind_run {S E A B} (m : M S E A) (f : A -> M S E B) s a s1 :
  m s = (Ok a, s1) -> (m ≫= f) s = f a s1.
Proof. intros H. unfold mbind, M_bind. by rewrite H. Qed.
Lemma M_bind_stop {S E A B} (m : M S E A) (f : A -> M S E B) s e s1 :
  m s = (Err e, s1) -> (m ≫= f) s = (Err e, s1).
Proof. intros H. unfold mbind, M_bind. by rewrite H. Qed.

Lemma ensure_run {S E} (b : bool) (e : E) (s : S) : b = true -> ensure b e s = (Ok tt, s).
Proof. by intros ->. Qed.

(** ** Atomicity of failing calls

    [obs] is the part of the state a caller can observe.  A call is [atomic]
    when a thrown error leaves it unchanged; the usual shape is a prefix of
    guards, each of which [keeps] the state, followed by mutations, which
    [succeed]. *)

Section atomicity.
Context {S E P : Type} (obs : S -> P).

Definition keeps {A} (m : M S E A) : Prop := forall s, obs (m s).2 = obs s.
Definition atomic {A} (m : M S E A) : Prop :=
  forall s e s', m s = (Err e, s') -> obs s' = obs s.

Lemma keeps_atomic {A} (m : M S E A) : keeps m -> atomic m.
Proof. intros H s e s' Hm. specialize (H s). by rewrite Hm in H. Qed.

Lemma keeps_bind {A B} (m : M S E A) (f : A -> M S E B) :
  keeps m -> (forall a, keeps (f a)) -> keeps (m ≫= f).
Proof.
  intros Hm Hf s. unfold mbind, M_bind. specialize (Hm s).
  destruct (m s) as [[a|e] s']; [|done]. simpl in *. by rewrite Hf.
Qed.

Lemma atomic_bind {A B} (m : M S E A) (f : A -> M S E B) :
  keeps m -> (forall a, atomic (f a)) -> atomic (m ≫= f).
Proof.
  intros Hm Hf s e s' [H|(a & s1 & H1 & H2)]%M_bind_Err_inv.
  - specialize (Hm s). by rewrite H in Hm.
  - rewrite (Hf _ _ _ _ H2). specialize (Hm s). by rewrite H1 in Hm.
Qed.

Lemma keeps_ret {A} (a : A) : keeps (mret a). Proof. done. Qed.
Lemma keeps_throw {A} (e : E) : keeps (throw (A:=A) e). Proof. done. Qed.
Lemma keeps_lift {A} (r : result E A) : keeps (lift r). Proof. done. Qed.
Lemma keeps_ensure (b : bool) (e : E) : keeps (ensure b e). Proof. done. Qed.
Lemma keeps_get : keeps get. Proof. done. Qed.
End atomicity.

(** A call whose every run, failed or not, relates the state before and after. *)
Definition respects {S E A} (R : relation S) (m : M S E A) : Prop := forall s, R s (m s).2.

Lemma respects_bind {S E A B} (R : relation S) `{!Transitive R} (m : M S E A) (f : A -> M S E B) :
  respects R m -> (forall a, respects R (f a)) -> respects R (m ≫= f).
Proof.
  intros Hm Hf s. unfold mbind, M_bind. specialize (Hm s).
  destruct (m s) as [[a|e] s']; [|done]. simpl in *. etrans; [done|]. apply Hf.
Qed.

Lemma respects_same {S E A} (R : relation S) `{!Reflexive R} (m : M S E A) :
  (forall s, (m s).2 = s) -> respects R m.
Proof. intros H s. by rewrite H. Qed.

(** A call that cannot fail. *)
Definition succeeds {S E A} (m : M S E A) : Prop := forall s, is_ok (m s).1 = true.

Lemma succeeds_atomic {S E A P} (obs : S -> P) (m : M S E A) : succeeds m -> atomic obs m.
Proof. intros H s e s' Hm. specialize (H s). by rewrite Hm in H. Qed.
Lemma succeeds_bind {S E A B} (m : M S E A) (f : A -> M S E B) :
  succeeds m -> (forall a, succeeds (f a)) -> succeeds (m ≫= f).
Proof.
  intros Hm Hf s. unfold mbind, M_bind. specialize (Hm s).
  destruct (m s) as [[a|e] s']; [apply Hf|done].
Qed.
Lemma succeeds_ret {S E A} (a : A) : succeeds (S:=S) (E:=E) (mret a). Proof. done. Qed.
Lemma succeeds_modify {S E} (f : S -> S) : succeeds (E:=E) (modify f). Proof. done. Qed.

Create HintDb atomic discriminated.
#[export] Hint Resolve keeps_ret keeps_throw keeps_lift keeps_ensure keeps_get
  succeeds_ret succeeds_modify : atomic.

(** Proves [atomic obs m] for a method written as guards then mutations. *)
Ltac solve_atomic :=
  repeat first
    [ solve [apply succeeds_atomic; repeat first
        [ solve [eauto with atomic nocore] | apply succeeds_bind; [|intros ?] ]]
    | solve [apply keeps_atomic; repeat first
        [ solve [eauto with atomic nocore] | apply keeps_bind; [|intros ?] ]]
    | apply atomic_bind; [solve [repeat first
        [ solve [eauto with atomic nocore] | apply keeps_bind; [|intros ?] | case_match ]]|intros ?]
    | case_match ].

(** [minv H] takes apart a successful run [H : m s = (Ok a, s')] into the
    runs of its parts, turning each passed guard into a hypothesis. *)
Ltac minv_step H :=
  lazymatch type of H with
  | (mbind _ _) _ = (Ok _, _) =>
      let a := fresh "a" in let s1 := fresh "s" in
      let H1 := fresh "R" in let H2 := fresh "R" in
      apply M_bind_Ok_inv in H as (a & s1 & H1 & H2);
      minv_step H1; minv_step H2
  | mbind _ _ = Ok _ =>
      let a := fresh "a" in let H1 := fresh "R" in let H2 := fresh "R" in
      apply bind_Ok_inv in H as (a & H1 & H2);
      minv_step H1; minv_step H2
  | ensure _ _ _ = (Ok _, _) =>
      apply ensure_Ok_inv in H as [H ->]
  | require _ _ = Ok _ => apply require_Ok_inv in H
  | lift _ _ = (Ok _, _) =>
      let H1 := fresh "R" in
      apply lift_inv in H as [H1 ->]; minv_step H1
  | get _ = (Ok _, _) => injection H as <- <-
  | put _ _ = (Ok _, _) => injection H as _ <-
  | modify _ _ = (Ok _, _) => injection H as _ <-
  | mret _ _ = (Ok _, _) => injection H as <- <-
  | mret _ = Ok _ => injection H as <-
  | Ok _ = Ok _ => first [apply Ok_inj in H as <- | injection H as <-]
  | context [match ?x with pair _ _ => _ end] =>
      tryif is_var x then (destruct x; minv_step H) else idtac
  | _ => idtac
  end.
Ltac minv H := minv_step H.

(** [found lem as p]: applies [lem] forward to the hypothesis it fits. *)
Tactic Notation "found" uconstr(lem) "as" simple_intropattern(p) :=
  match goal with H : _ |- _ => apply lem in H as p end.

(** Turns the boolean guards in the context into arithmetic facts. *)
Ltac breflect :=
  repeat match goal with
  | H : context [bool_decide _] |- _ =>
      first [ apply bool_decide_eq_true in H | apply bool_decide_eq_false in H ]
  | H : (_ && _) = true |- _ => apply andb_prop in H as [? ?]
  | H : (_ || _) = false |- _ => apply orb_false_elim in H as [? ?]
  | H : negb _ = true |- _ => apply negb_true_iff in H
  | H : negb _ = false |- _ => apply negb_false_iff in H
  | H : (_ =? _) = true |- _ => apply Z.eqb_eq in H
  | H : (_ =? _) = false |- _ => apply Z.eqb_neq in H
  | H : (_ <=? _) = true |- _ => apply Z.leb_le in H
  | H : (_ <=? _) = false |- _ => apply Z.leb_gt in H
  | H : (_ <? _) = true |- _ => apply Z.ltb_lt in H
  | H : (_ <? _) = false |- _ => apply Z.ltb_ge in H
  end.

(** ** Machine widths *)

Definition U64_MAX : Z := 18446744073709551615.
Definition MAX_SAFE_INTEGER : Z := 9007199254740991.

(** [Number.isSafeInteger] on a number that is an integer. *)
Definition isSafeInteger (n : Z) : bool :=
  (- MAX_SAFE_INTEGER <=? n) && (n <=? MAX_SAFE_INTEGER).

(** ** Sums and products *)

Fixpoint sumZ (l : list Z) : Z := match l with [] => 0 | a :: l' => a + sumZ l' end.

Lemma sumZ_app l k : sumZ (l ++ k) = sumZ l + sumZ k.
Proof. induction l; simpl; lia. Qed.

Lemma sumZ_nonneg l : Forall (Z.le 0) l -> 0 <= sumZ l.
Proof. induction 1; simpl; lia. Qed.

Fixpoint prodZ (l : list Z) : Z := match l with [] => 1 | a :: l' => a * prodZ l' end.

Lemma prodZ_app l k : prodZ (l ++ k) = prodZ l * prodZ k.
Proof. induction l as [|a l IH]; simpl; [lia|rewrite IH; ring]. Qed.

Lemma prodZ_perm l k : Permutation l k -> prodZ l = prodZ k.
Proof. induction 1; simpl; [done|congruence|ring|congruence]. Qed.

Lemma prodZ_pos l : Forall (Z.lt 0) l -> 0 < prodZ l.
Proof. induction 1; simpl; [done|by apply Z.mul_pos_pos]. Qed.

(** Two lists without repeated keys that say the same of the same keys. *)
Lemma keyed_perm {A K B} (key : A -> K) (f : A -> B) (l l' : list A) :
  NoDup (key <$> l) -> NoDup (key <$> l') ->
  (forall a, a ∈ l -> exists a', a' ∈ l' /\ key a' = key a /\ f a' = f a) ->
  (forall a, a ∈ l' -> exists a', a' ∈ l /\ key a' = key a /\ f a' = f a) -> f <$> l ≡ₚ f <$> l'.
Proof.
  intros Hl Hl' H H'.
  assert (forall l, f <$> l = ((fun a => (key a, f a)) <$> l).*2) as Hpairs.
  { intros k. rewrite <- list_fmap_compose. done. }
  assert (forall l, NoDup (key <$> l) -> NoDup ((fun a => (key a, f a)) <$> l)) as Hnd.
  { intros k Hk. apply (NoDup_fmap_1 fst). rewrite <- list_fmap_compose. exact Hk. }
  rewrite !Hpairs. apply fmap_Permutation, NoDup_Permutation; [by apply Hnd..|].
  intros [k b]. rewrite !list_elem_of_fmap. split; intros (a & [= -> ->] & Ha).
  - destruct (H a Ha) as (a' & Ha' & <- & <-). by exists a'.
  - destruct (H' a Ha) as (a' & Ha' & <- & <-). by exists a'.
Qed.

(** ** Insertion-ordered maps: JavaScript's [Map], whose iteration order is the
    order in which keys were first set. *)

Section omap.
Context {K : Type} `{!EqDecision K} {V : Type}.
Implicit Types (m : list (K * V)) (k : K) (v : V).

Fixpoint om_get m k : option V :=
  match m with
  | [] => None
  | (k', v) :: m' => if bool_decide (k' = k) then Some v else om_get m' k
  end.

Fixpoint om_set m k v : list (K * V) :=
  match m with
  | [] => [(k, v)]
  | (k', v') :: m' =>
      if bool_decide (k' = k) then (k', v) :: m' else (k', v') :: om_set m' k v
  end.

Definition om_has m k : bool := match om_get m k with Some _ => true | None => false end.

Fixpoint om_sum (f : V -> Z) m : Z :=
  match m with [] => 0 | (_, v) :: m' => f v + om_sum f m' end.

Lemma om_get_set_eq m k v : om_get (om_set m k v) k = Some v.
Proof.
  induction m as [|[k' v'] m IH]; simpl; [by rewrite bool_decide_true|].
  case_bool_decide; simpl; [by rewrite bool_decide_true|].
  by rewrite bool_decide_false.
Qed.

Lemma om_get_set_ne m k k' v : k <> k' -> om_get (om_set m k v) k' = om_get m k'.
Proof.
  intros Hne. induction m as [|[k1 v1] m IH]; simpl.
  - by rewrite bool_decide_false.
  - case_bool_decide; simpl; case_bool_decide; congruence.
Qed.

Lemma om_set_set m k v v' : om_set (om_set m k v) k v' = om_set m k v'.
Proof.
  induction m as [|[k1 v1] m IH]; simpl.
  - by rewrite bool_decide_true.
  - case_bool_decide; simpl; case_bool_decide; congruence.
Qed.

Lemma om_sum_set_Some f m k v v' :
  om_get m k = Some v' -> om_sum f (om_set m k v) = om_sum f m - f v' + f v.
Proof.
  induction m as [|[k1 v1] m IH]; simpl; [done|].
  case_bool_decide; simpl; [intros [= ->]; lia|intros; rewrite IH; [lia|done]].
Qed.

Lemma om_sum_set_None f m k v :
  om_get m k = None -> om_sum f (om_set m k v) = om_sum f m + f v.
Proof.
  induction m as [|[k1 v1] m IH]; simpl; [lia|].
  case_bool_decide; simpl; [done|intros; rewrite IH; [lia|done]].
Qed.

Lemma om_length_set m k v :
  length (om_set m k v) = (length m + if om_has m k then 0 else 1)%nat.
Proof.
  unfold om_has. induction m as [|[k1 v1] m IH]; simpl.
  - done.
  - case_bool_decide; simpl; [by rewrite Nat.add_0_r|]. by rewrite IH.
Qed.

Lemma om_get_In m k v : om_get m k = Some v -> In (k, v) m.
Proof.
  induction m as [|[k1 v1] m IH]; simpl; [done|].
  case_bool_decide; [intros [= ->]; left; congruence|auto].
Qed.

Lemma om_set_In m k v k' v' :
  In (k', v') (om_set m k v) -> (k' = k /\ v' = v) \/ In (k', v') m.
Proof.
  induction m as [|[k1 v1] m IH]; simpl.
  - intros [[= -> ->]|[]]. by left.
  - case_bool_decide; simpl; intros [[= -> ->]|H']; auto.
    destruct (IH H') as [?|?]; auto.
Qed.

Lemma om_set_keys m k v :
  (om_set m k v).*1 = if om_has m k then m.*1 else m.*1 ++ [k].
Proof.
  unfold om_has. induction m as [|[k1 v1] m IH]; csimpl.
  - done.
  - case_bool_decide; csimpl; [done|].
    rewrite IH. by destruct (om_get m k).
Qed.

Lemma om_get_None_keys m k : om_get m k = None <-> k ∉ m.*1.
Proof.
  induction m as [|[k1 v1] m IH]; csimpl.
  - split; [intros _; apply not_elem_of_nil|done].
  - rewrite not_elem_of_cons. case_bool_decide as Hk.
    + split; [done|]. intros [Hne _]. by subst.
    + rewrite IH. split; [intros ?; split; congruence|by intros []].
Qed.

Lemma om_set_NoDup m k v : NoDup (m.*1) -> NoDup ((om_set m k v).*1).
Proof.
  intros Hnd.
  rewrite om_set_keys. unfold om_has. destruct (om_get m k) eqn:Hs; [done|].
  apply NoDup_app. split; [done|]. split; [|apply NoDup_singleton].
  intros x Hx ->%list_elem_of_singleton. apply om_get_None_keys in Hs. auto.
Qed.

Lemma om_In_get m k v : NoDup (m.*1) -> In (k, v) m -> om_get m k = Some v.
Proof.
  induction m as [|[k1 v1] m IH]; csimpl; [done|].
  intros [Hni Hnd]%NoDup_cons [[= -> ->]|Hin]; [by rewrite bool_decide_true|].
  case_bool_decide as Heq; [|auto]. subst. exfalso. apply Hni.
  apply list_elem_of_fmap. exists (k, v). by rewrite list_elem_of_In.
Qed.

Lemma om_sum_nonneg f m : (forall k v, In (k, v) m -> 0 <= f v) -> 0 <= om_sum f m.
Proof.
  induction m as [|[k1 v1] m IH]; simpl; intros H; [done|].
  pose proof (H k1 v1 (or_introl eq_refl)).
  assert (0 <= om_sum f m) by (apply IH; eauto). lia.
Qed.

Lemma om_sum_ge f m k v :
  (forall k v, In (k, v) m -> 0 <= f v) -> om_get m k = Some v -> f v <= om_sum f m.
Proof.
  induction m as [|[k1 v1] m IH]; simpl; intros H; [done|].
  pose proof (H k1 v1 (or_introl eq_refl)).
  assert (0 <= om_sum f m) by (apply om_sum_nonneg; eauto).
  case_bool_decide; [intros [= ->]; lia|].
  intros Hg. assert (f v <= om_sum f m) by (apply IH; eauto). lia.
Qed.

Lemma om_values_get m v : NoDup (m.*1) -> v ∈ m.*2 <-> exists k, om_get m k = Some v.
Proof.
  intros Hnd. rewrite list_elem_of_fmap. split.
  - intros ([k v'] & -> & Hin%list_elem_of_In). exists k. by apply om_In_get.
  - intros [k Hg]. exists (k, v). split; [done|]. by apply list_elem_of_In, om_get_In.
Qed.
End omap.

Create HintDb divx discriminated.
#[export] Hint Resolve om_set_NoDup om_get_In : divx.
