(* ===== verification/Payout.v ===== *)
(** * Cumulative floor-difference payouts

    Every component that pays a frozen pool out to claim holders uses the same
    rule: with [den] claims in all and [burned] of them already redeemed,
    redeeming [amount] more pays
    [floor((burned + amount) * pool / den) - floor(burned * pool / den)].
    The rule occurs in [packages/sdk/src/index.ts] ([previewRedemption]),
    [packages/sdk/src/annual-reference.ts] ([previewRedemption]) and
    [packages/transaction-sdk/src/arithmetic.ts] ([cumulativeRedemptionPayout]).
    This file states the rule once, as an abstract pool with its laws, and
    proves the arithmetic that those components share. *)
From S2P Require Import Prelude.
Open Scope Z_scope.

(** JavaScript's [BigInt] division truncates; on the non-negative operands of
    this program it is the floor. *)
Definition floor_share (pool den n : Z) : Z := n * pool ÷ den.

Definition payout (pool den burned amount : Z) : Z :=
  floor_share pool den (burned + amount) - floor_share pool den burned.

(** The specification of a redemption pool: an abstract account that has paid
    exactly the floor share of what was redeemed. *)
Record pool_state := Pool {
  p_pool : Z;      (** collateral frozen for this side *)
  p_den : Z;       (** claims among which it is shared *)
  p_redeemed : Z;  (** claims redeemed so far *)
  p_paid : Z;      (** collateral paid so far *)
}.

Definition pool_ok (p : pool_state) : Prop :=
  0 < p_den p /\ 0 <= p_pool p /\ 0 <= p_redeemed p <= p_den p /\
  p_paid p = floor_share (p_pool p) (p_den p) (p_redeemed p).

Definition pool_redeem (p : pool_state) (amount : Z) : Z * pool_state :=
  let pay := payout (p_pool p) (p_den p) (p_redeemed p) amount in
  (pay, Pool (p_pool p) (p_den p) (p_redeemed p + amount) (p_paid p + pay)).

Fixpoint pool_redeem_all (p : pool_state) (amounts : list Z) : Z * pool_state :=
  match amounts with
  | [] => (0, p)
  | a :: rest =>
      let '(pay, p1) := pool_redeem p a in
      let '(total, p2) := pool_redeem_all p1 rest in
      (pay + total, p2)
  end.

Lemma floor_share_zero pool den : floor_share pool den 0 = 0.
Proof. unfold floor_share. rewrite Z.mul_0_l. by destruct den. Qed.

(** An empty series ([BigInt] division by zero never happens: the source
    returns before it) owes nothing. *)
Lemma floor_share_empty n : floor_share 0 0 n = 0.
Proof. unfold floor_share. by rewrite Z.mul_0_r. Qed.

Section floor_share.
Context (pool den : Z) (Hden : 0 < den) (Hpool : 0 <= pool).
Implicit Types n burned amount : Z.

Lemma floor_share_div n : 0 <= n -> floor_share pool den n = n * pool / den.
Proof. intros. unfold floor_share. apply Z.quot_div_nonneg; nia. Qed.

Lemma floor_share_0 : floor_share pool den 0 = 0.
Proof. by rewrite floor_share_div, Z.mul_0_l, Z.div_0_l by lia. Qed.

Lemma floor_share_full : floor_share pool den den = pool.
Proof. rewrite floor_share_div by lia. rewrite Z.mul_comm. apply Z.div_mul. lia. Qed.

Lemma floor_share_bounds n :
  0 <= n -> den * floor_share pool den n <= n * pool < den * floor_share pool den n + den.
Proof.
  intros. rewrite floor_share_div by done.
  pose proof (Z.mul_div_le (n * pool) den Hden).
  pose proof (Z.mul_succ_div_gt (n * pool) den Hden). lia.
Qed.

Lemma floor_share_mono n m :
  0 <= n <= m -> floor_share pool den n <= floor_share pool den m.
Proof. intros. rewrite !floor_share_div by lia. apply Z.div_le_mono; nia. Qed.

Lemma floor_share_nonneg n : 0 <= n -> 0 <= floor_share pool den n.
Proof. intros. rewrite <- floor_share_0. apply floor_share_mono. lia. Qed.

Lemma floor_share_le_pool n : 0 <= n <= den -> floor_share pool den n <= pool.
Proof. intros. rewrite <- floor_share_full at 2. by apply floor_share_mono. Qed.

Lemma floor_share_le_n n : pool <= den -> 0 <= n -> floor_share pool den n <= n.
Proof. intros. pose proof (floor_share_bounds n ltac:(done)). nia. Qed.

Lemma payout_nonneg burned amount :
  0 <= burned -> 0 <= amount -> 0 <= payout pool den burned amount.
Proof.
  intros. unfold payout.
  pose proof (floor_share_mono burned (burned + amount)). lia.
Qed.

Lemma payout_le_remaining burned amount :
  0 <= burned -> burned + amount <= den -> 0 <= amount ->
  payout pool den burned amount <= pool - floor_share pool den burned.
Proof.
  intros. unfold payout.
  pose proof (floor_share_le_pool (burned + amount)). lia.
Qed.

Lemma payout_split burned a b :
  payout pool den burned (a + b)
  = payout pool den burned a + payout pool den (burned + a) b.
Proof. unfold payout. rewrite Z.add_assoc. lia. Qed.

(** A payout differs from the exact pro-rata share by less than one unit. *)
Lemma payout_pro_rata burned amount :
  0 <= burned -> 0 <= amount ->
  amount * pool - den < den * payout pool den burned amount < amount * pool + den.
Proof.
  intros. unfold payout.
  pose proof (floor_share_bounds burned). pose proof (floor_share_bounds (burned + amount)).
  nia.
Qed.

Lemma payout_le_amount burned amount :
  pool <= den -> 0 <= burned -> 0 <= amount ->
  payout pool den burned amount <= amount.
Proof.
  intros. pose proof (payout_pro_rata burned amount ltac:(done) ltac:(done)). nia.
Qed.
End floor_share.

#[export] Hint Resolve floor_share_nonneg payout_nonneg : divx.

(** The two sides of a series together never owe more than the claims that
    remain: the floors of two complementary pools add up to at most [n]. *)
Lemma floor_share_complement p q den n :
  0 < den -> 0 <= p -> 0 <= q -> p + q = den -> 0 <= n ->
  n - 1 <= floor_share p den n + floor_share q den n <= n.
Proof.
  intros. pose proof (floor_share_bounds p den ltac:(done) ltac:(done) n ltac:(done)).
  pose proof (floor_share_bounds q den ltac:(done) ltac:(done) n ltac:(done)). nia.
Qed.

(** ** Laws of the abstract pool *)

Section pool_laws.
Implicit Types p : pool_state.

Lemma pool_redeem_ok p a :
  pool_ok p -> 0 <= a -> p_redeemed p + a <= p_den p -> pool_ok (pool_redeem p a).2.
Proof.
  intros (Hd & Hp & Hr & Hpaid) Ha Hle. unfold pool_ok; simpl.
  repeat split; [lia..|]. rewrite Hpaid. unfold payout. lia.
Qed.

Lemma pool_redeem_all_paid p l :
  p_redeemed (pool_redeem_all p l).2 = p_redeemed p + sumZ l /\
  p_paid (pool_redeem_all p l).2 = p_paid p + (pool_redeem_all p l).1.
Proof.
  revert p. induction l as [|a l IH]; intros p; simpl; [lia|].
  destruct (IH (pool_redeem p a).2) as [H1 H2].
  destruct (pool_redeem_all _ l) as [t p2]. simpl in *. lia.
Qed.

Lemma pool_redeem_all_ok p l :
  pool_ok p -> Forall (Z.le 0) l -> p_redeemed p + sumZ l <= p_den p ->
  pool_ok (pool_redeem_all p l).2.
Proof.
  revert p. induction l as [|a l IH]; intros p Hok Hl Hsum; [done|].
  apply Forall_cons in Hl as [Ha Hl]. simpl in *.
  pose proof (sumZ_nonneg l Hl).
  assert (pool_ok (pool_redeem p a).2) as Hok1 by (apply pool_redeem_ok; [done|lia|lia]).
  specialize (IH _ Hok1 Hl). simpl in IH.
  destruct (pool_redeem_all _ l) as [t p2]. simpl in *. apply IH. lia.
Qed.

(** However the redemptions are split and ordered, redeeming every claim
    that is left pays out exactly what is left of the pool. *)
Lemma pool_redeem_all_exact p l :
  pool_ok p -> Forall (Z.le 0) l -> p_redeemed p + sumZ l = p_den p ->
  (pool_redeem_all p l).1 = p_pool p - p_paid p.
Proof.
  intros Hok Hl Hsum. pose proof (pool_redeem_all_ok p l Hok Hl ltac:(lia)) as Hok'.
  destruct (pool_redeem_all_paid p l) as [Hr Hp].
  assert (p_den (pool_redeem_all p l).2 = p_den p /\
          p_pool (pool_redeem_all p l).2 = p_pool p) as [Hd Hpl].
  { clear. revert p. induction l as [|a l IH]; intros p; [done|]. simpl.
    destruct (IH (pool_redeem p a).2) as [H1 H2].
    by destruct (pool_redeem_all _ l). }
  destruct Hok' as (H1 & H2 & H3 & H4).
  rewrite Hd, Hpl, Hr, Hsum, floor_share_full in H4 by lia. lia.
Qed.
End pool_laws.
