(* ===== verification/Js.v ===== *)
(** * The JavaScript strings, decimals and dates the source uses

    [BigInt(text)], [bigint.toString()], [padStart], [split('.')], the plain
    decimal regular expression [/^\d+(?:\.\d+)?$/], and [Date.UTC] with the
    [getUTC*] readers, written after the ECMAScript definitions.  Strings are
    sequences of 8-bit characters: the texts the program parses (amounts,
    multipliers, dates) are ASCII. *)
From Stdlib Require Ascii String.
From Stdlib Require Export Ascii.
From S2P Require Import Prelude.
Open Scope Z_scope.

Abbreviation chars := String.list_ascii_of_string.
Abbreviation unchars := String.string_of_list_ascii.

(** ** Decimal digits *)

Definition ascii_Z (c : ascii) : Z := Z.of_N (N_of_ascii c).
Definition is_digit (c : ascii) : bool := (48 <=? ascii_Z c) && (ascii_Z c <=? 57).
Definition digit_val (c : ascii) : Z := ascii_Z c - 48.
Definition digit_char (d : Z) : ascii := ascii_of_N (Z.to_N (d + 48)).
Definition is_dot (c : ascii) : bool := bool_decide (c = "."%char).
Definition zero_char : ascii := "0"%char.

(** [/^\d+$/] *)
Definition all_digits (l : list ascii) : bool :=
  negb (bool_decide (l = [])) && forallb is_digit l.

(** [BigInt(l)] of a string of digits; [BigInt('')] is [0n]. *)
Definition BigInt_from (acc : Z) (l : list ascii) : Z :=
  fold_left (fun acc c => acc * 10 + digit_val c) l acc.
Definition BigInt (l : list ascii) : Z := BigInt_from 0 l.

(** [n.toString()] for a non-negative bigint; a number has no more decimal
    digits than bits, so the fuel [log2 n + 1] always suffices
    ([BigInt_toString]). *)
Fixpoint toString_fuel (fuel : nat) (n : Z) (acc : list ascii) : list ascii :=
  match fuel with
  | O => acc
  | S fuel' =>
      let acc' := digit_char (n mod 10) :: acc in
      if n <? 10 then acc' else toString_fuel fuel' (n / 10) acc'
  end.
Definition toString (n : Z) : list ascii :=
  toString_fuel (S (Z.to_nat (Z.log2 n))) n [].

(** [s.padStart(n, '0')] and [s.padEnd(n, '0')] *)
Definition padStart0 (n : nat) (l : list ascii) : list ascii :=
  replicate (n - length l) zero_char ++ l.
Definition padEnd0 (n : nat) (l : list ascii) : list ascii :=
  l ++ replicate (n - length l) zero_char.

(** [s.replace(/0+$/, '')] *)
Fixpoint trimEnd0 (l : list ascii) : list ascii :=
  match l with
  | [] => []
  | c :: l' =>
      match trimEnd0 l' with
      | [] => if bool_decide (c = zero_char) then [] else [c]
      | t => c :: t
      end
  end.

(** The text before the first ['.'], and what follows it if there is one:
    [s.indexOf('.')] and the two halves of [s.split('.')] when there is at
    most one dot. *)
Fixpoint split_dot (l : list ascii) : list ascii * option (list ascii) :=
  match l with
  | [] => ([], None)
  | c :: l' =>
      if is_dot c then ([], Some l')
      else let '(w, f) := split_dot l' in (c :: w, f)
  end.

(** [/^\d+(?:\.\d+)?$/] followed by [const [whole, fraction = ''] = s.split('.')]. *)
Definition plain_decimal (l : list ascii) : option (list ascii * list ascii) :=
  match split_dot l with
  | (w, None) => if all_digits w then Some (w, []) else None
  | (w, Some f) => if all_digits w && all_digits f then Some (w, f) else None
  end.

(** ** [JSON.stringify] of strings: quotation marks, reverse solidus and control
    characters are escaped, every other character stands for itself *)

Definition hex_char (d : Z) : ascii :=
  if d <? 10 then ascii_of_N (Z.to_N (48 + d)) else ascii_of_N (Z.to_N (87 + d)).

Definition quote_char : ascii := ascii_of_N 34.
Definition backslash : ascii := ascii_of_N 92.

Definition json_char (c : ascii) : list ascii :=
  let n := ascii_Z c in
  if n =? 34 then [backslash; quote_char]
  else if n =? 92 then [backslash; backslash]
  else if n =? 8 then [backslash; "b"%char]
  else if n =? 9 then [backslash; "t"%char]
  else if n =? 10 then [backslash; "n"%char]
  else if n =? 12 then [backslash; "f"%char]
  else if n =? 13 then [backslash; "r"%char]
  else if n <? 32 then
    [backslash; "u"%char; "0"%char; "0"%char; hex_char (n / 16); hex_char (n mod 16)]
  else [c].

Definition json_string (l : list ascii) : list ascii :=
  quote_char :: (l ≫= json_char) ++ [quote_char].

(** ** Lemmas on strings *)

Lemma chars_app a b : chars (a +:+ b) = chars a ++ chars b.
Proof. induction a as [|c a IH]; [done|]. unfold chars in *. simpl. by rewrite IH. Qed.
Lemma chars_unchars l : chars (unchars l) = l.
Proof. apply String.list_ascii_of_string_of_list_ascii. Qed.
Lemma unchars_chars s : unchars (chars s) = s.
Proof. apply String.string_of_list_ascii_of_string. Qed.
Lemma chars_inj a b : chars a = chars b -> a = b.
Proof. intros H. by rewrite <- (unchars_chars a), H, unchars_chars. Qed.

(** ** Lemmas on digits *)

Section digits.
Implicit Types (l : list ascii) (d : Z).

Lemma digit_val_char d : 0 <= d < 10 -> digit_val (digit_char d) = d.
Proof.
  intros. unfold digit_val, digit_char, ascii_Z.
  rewrite N_ascii_embedding by lia. lia.
Qed.

Lemma is_digit_char d : 0 <= d < 10 -> is_digit (digit_char d) = true.
Proof.
  intros. unfold is_digit, digit_char, ascii_Z.
  rewrite N_ascii_embedding by lia. apply andb_true_iff. rewrite !Z.leb_le. lia.
Qed.

Lemma is_digit_not_dot c : is_digit c = true -> is_dot c = false.
Proof.
  intros H. unfold is_dot. apply bool_decide_eq_false. intros ->. vm_compute in H. done.
Qed.

Lemma digit_val_bounds c : is_digit c = true -> 0 <= digit_val c < 10.
Proof. unfold is_digit, digit_val. intros. breflect. lia. Qed.

Lemma BigInt_from_app acc l (k : list ascii) : BigInt_from acc (l ++ k) = BigInt_from (BigInt_from acc l) k.
Proof. unfold BigInt_from. apply fold_left_app. Qed.

Lemma BigInt_from_acc acc l : BigInt_from acc l = acc * 10 ^ Z.of_nat (length l) + BigInt l.
Proof.
  unfold BigInt, BigInt_from. revert acc. induction l as [|c l IH]; intros acc; cbn [fold_left length]; [lia|].
  rewrite (IH (acc * 10 + digit_val c)), (IH (0 * 10 + digit_val c)).
  rewrite Nat2Z.inj_succ, Z.pow_succ_r by lia. lia.
Qed.

Lemma BigInt_app l (k : list ascii) : BigInt (l ++ k) = BigInt l * 10 ^ Z.of_nat (length k) + BigInt k.
Proof. unfold BigInt at 1. rewrite BigInt_from_app, BigInt_from_acc. done. Qed.

Lemma BigInt_cons c l : BigInt (c :: l) = digit_val c * 10 ^ Z.of_nat (length l) + BigInt l.
Proof. change (c :: l) with ([c] ++ l). rewrite BigInt_app. done. Qed.

Lemma BigInt_zeros n : BigInt (replicate n zero_char) = 0.
Proof. induction n as [|n IH]; [done|]. simpl. rewrite BigInt_cons, IH. done. Qed.

Lemma BigInt_bounds l :
  forallb is_digit l = true -> 0 <= BigInt l < 10 ^ Z.of_nat (length l).
Proof.
  induction l as [|c l IH]; intros H; [done|]. simpl in H. apply andb_prop in H as [Hc Hl].
  rewrite BigInt_cons. simpl length. rewrite Nat2Z.inj_succ, Z.pow_succ_r by lia.
  pose proof (digit_val_bounds c Hc). specialize (IH Hl). nia.
Qed.

Lemma BigInt_padStart0 n l : BigInt (padStart0 n l) = BigInt l.
Proof. unfold padStart0. rewrite BigInt_app, BigInt_zeros. lia. Qed.

Lemma length_padStart0 n l : (length l <= n)%nat -> length (padStart0 n l) = n.
Proof. intros. unfold padStart0. rewrite length_app, length_replicate. lia. Qed.

Lemma toString_fuel_spec fuel n acc :
  0 <= n < 2 ^ Z.of_nat fuel -> (0 < fuel)%nat ->
  exists l, toString_fuel fuel n acc = l ++ acc /\ BigInt l = n /\ all_digits l = true.
Proof.
  revert n acc. induction fuel as [|fuel IH]; intros n acc Hn Hf; [lia|].
  cbn [toString_fuel].
  pose proof (Z.mod_pos_bound n 10 ltac:(lia)).
  assert (Hc : is_digit (digit_char (n mod 10)) = true) by (apply is_digit_char; lia).
  destruct (n <? 10) eqn:E; breflect.
  - exists [digit_char (n mod 10)]. split; [done|]. split.
    + rewrite BigInt_cons. simpl. rewrite digit_val_char by lia.
      unfold BigInt. simpl. rewrite Z.mod_small by lia. lia.
    + unfold all_digits. simpl. by rewrite Hc.
  - rewrite Nat2Z.inj_succ, Z.pow_succ_r in Hn by lia.
    assert (n / 10 < 2 ^ Z.of_nat fuel) by (apply Z.div_lt_upper_bound; lia).
    assert (0 < fuel)%nat.
    { destruct fuel; [|lia]. simpl in Hn. lia. }
    destruct (IH (n / 10) (digit_char (n mod 10) :: acc)) as (l & Hl & Hv & Hd);
      [split; [apply Z.div_pos; lia|done]|done|].
    exists (l ++ [digit_char (n mod 10)]). split; [by rewrite Hl, <- app_assoc|]. split.
    + rewrite BigInt_app, Hv, BigInt_cons. simpl. rewrite digit_val_char by lia.
      unfold BigInt at 1. simpl. pose proof (Z.div_mod n 10). lia.
    + unfold all_digits in *. apply andb_prop in Hd as [Hne Hd]. apply andb_true_iff. split.
      * apply negb_true_iff, bool_decide_eq_false. by destruct l.
      * rewrite forallb_app, Hd. simpl. by rewrite Hc.
Qed.

Lemma toString_spec n : 0 <= n -> BigInt (toString n) = n /\ all_digits (toString n) = true.
Proof.
  intros Hn. unfold toString.
  destruct (toString_fuel_spec (S (Z.to_nat (Z.log2 n))) n []) as (l & Hl & Hv & Hd); [|lia|].
  - split; [done|]. rewrite Nat2Z.inj_succ, Z2Nat.id by apply Z.log2_nonneg.
    destruct (Z.eq_dec n 0) as [->|]; [done|]. apply Z.log2_spec. lia.
  - rewrite Hl, app_nil_r. done.
Qed.

Lemma toString_fuel_length fuel n acc k :
  (0 < k)%nat -> 0 <= n < 10 ^ Z.of_nat k ->
  (length (toString_fuel fuel n acc) <= k + length acc)%nat.
Proof.
  revert n acc k. induction fuel as [|fuel IH]; intros n acc k Hk Hn; simpl; [lia|].
  destruct (n <? 10) eqn:E; simpl; [lia|]. breflect.
  destruct k as [|[|k]]; [lia|simpl in Hn; lia|].
  rewrite Nat2Z.inj_succ, Z.pow_succ_r in Hn by lia.
  specialize (IH (n / 10) (digit_char (n mod 10) :: acc) (S k)). simpl in IH.
  assert (0 <= n / 10 < 10 ^ Z.of_nat (S k)) by
    (split; [apply Z.div_pos; lia|apply Z.div_lt_upper_bound; lia]).
  lia.
Qed.

Lemma toString_length n k :
  (0 < k)%nat -> 0 <= n < 10 ^ Z.of_nat k -> (length (toString n) <= k)%nat.
Proof. intros. unfold toString. pose proof (toString_fuel_length (S (Z.to_nat (Z.log2 n))) n [] k). simpl in *. lia. Qed.

Lemma trimEnd0_spec l :
  exists z, l = trimEnd0 l ++ replicate z zero_char.
Proof.
  induction l as [|c l [z IH]]; [by exists 0%nat|]. simpl.
  destruct (trimEnd0 l) as [|c' t] eqn:E.
  - case_bool_decide as Hc.
    + exists (S z). subst. simpl in *. by f_equal.
    + exists z. simpl in *. by f_equal.
  - exists z. simpl. f_equal. done.
Qed.

Lemma trimEnd0_digits l : forallb is_digit l = true -> forallb is_digit (trimEnd0 l) = true.
Proof.
  intros H. destruct (trimEnd0_spec l) as [z Hz]. rewrite Hz, forallb_app in H.
  by apply andb_prop in H as [? _].
Qed.

(** Trimming zeros scales the value of a fraction by a power of ten. *)
Lemma trimEnd0_value l :
  BigInt l = BigInt (trimEnd0 l) * 10 ^ (Z.of_nat (length l) - Z.of_nat (length (trimEnd0 l))) /\
  (length (trimEnd0 l) <= length l)%nat.
Proof.
  destruct (trimEnd0_spec l) as [z Hz]. split.
  - rewrite Hz at 1. rewrite BigInt_app, BigInt_zeros, length_replicate.
    replace (Z.of_nat (length l)) with (Z.of_nat (length (trimEnd0 l)) + Z.of_nat z);
      [|rewrite Hz at 2; rewrite length_app, length_replicate; lia].
    rewrite Z.add_0_r. f_equal. f_equal. lia.
  - rewrite Hz at 2. rewrite length_app. lia.
Qed.

Lemma split_dot_digits w f :
  forallb is_digit w = true -> split_dot (w ++ "."%char :: f) = (w, Some f).
Proof.
  induction w as [|c w IH]; simpl; intros H; [done|]. apply andb_prop in H as [Hc Hw].
  by rewrite (is_digit_not_dot c Hc), (IH Hw).
Qed.

Lemma split_dot_no_dot w : forallb is_digit w = true -> split_dot w = (w, None).
Proof.
  induction w as [|c w IH]; simpl; intros H; [done|]. apply andb_prop in H as [Hc Hw].
  by rewrite (is_digit_not_dot c Hc), (IH Hw).
Qed.

Lemma all_digits_forallb l : all_digits l = true -> forallb is_digit l = true.
Proof. unfold all_digits. intros H. by apply andb_prop in H as [_ ?]. Qed.

Lemma plain_decimal_digits l w f :
  plain_decimal l = Some (w, f) -> all_digits w = true /\ forallb is_digit f = true.
Proof.
  unfold plain_decimal. destruct (split_dot l) as [w' [f'|]].
  - destruct (all_digits w' && all_digits f') eqn:E; [|done]. intros [= -> ->].
    apply andb_prop in E as [? ?]. split; [done|by apply all_digits_forallb].
  - destruct (all_digits w') eqn:E; [|done]. by intros [= -> <-].
Qed.
End digits.

(** ** The quoting of [JSON.stringify] loses nothing *)

(** Reads back one quoted character. *)
Definition json_unchar (l : list ascii) : option (ascii * list ascii) :=
  match l with
  | [] => None
  | c :: l1 =>
      if ascii_Z c =? 34 then None
      else if ascii_Z c =? 92 then
        match l1 with
        | d :: l2 =>
            if bool_decide (d = "u"%char) then
              match l2 with
              | _ :: _ :: a :: b :: l3 =>
                  find (fun c => bool_decide (json_char c = [backslash; "u"%char; "0"%char; "0"%char; a; b]))
                    (map (fun n => ascii_of_nat n) (seq 0 32)) ≫= fun c => Some (c, l3)
              | _ => None
              end
            else find (fun c => bool_decide (json_char c = [backslash; d]))
                   (map (fun n => ascii_of_nat n) (seq 0 128)) ≫= fun c => Some (c, l2)
        | [] => None
        end
      else Some (c, l1)
  end.

Lemma json_unchar_char c l : json_unchar (json_char c ++ l) = Some (c, l).
Proof. destruct c as [[] [] [] [] [] [] [] []]; reflexivity. Qed.

Lemma json_body_inj a b l k :
  (a ≫= json_char) ++ quote_char :: l = (b ≫= json_char) ++ quote_char :: k -> a = b /\ l = k.
Proof.
  revert b. induction a as [|c a IH]; intros [|d b] H; csimpl in H.
  - by injection H.
  - apply (f_equal json_unchar) in H. rewrite <- !app_assoc, json_unchar_char in H. done.
  - apply (f_equal json_unchar) in H. rewrite <- !app_assoc, json_unchar_char in H. done.
  - apply (f_equal json_unchar) in H. rewrite <- !app_assoc, !json_unchar_char in H.
    injection H as -> H. by destruct (IH _ H) as [-> ->].
Qed.

Lemma json_string_inj_app a b l k :
  json_string a ++ l = json_string b ++ k -> a = b /\ l = k.
Proof.
  unfold json_string. simpl. intros [= H]. rewrite <- !app_assoc in H. by apply json_body_inj in H.
Qed.
