(* ===== verification/Calendar.v ===== *)
(** * ECMAScript calendar arithmetic

    [Date.UTC] and the [getUTCFullYear], [getUTCMonth], [getUTCDate] readers,
    after the time-value definitions of the language standard (days counted
    from 1970-01-01, proleptic Gregorian calendar).  The source uses them to
    check civil dates ([validCivilDate] in [annual-reference.ts] and
    [instructions.ts]) and to compute the bounds of an annual series. *)
From S2P Require Import Prelude.
Open Scope Z_scope.

Definition msPerDay : Z := 86400000.

(** [DayFromYear(y)]: the day number of January 1 of year [y]. *)
Definition DayFromYear (y : Z) : Z :=
  365 * (y - 1970) + (y - 1969) / 4 - (y - 1901) / 100 + (y - 1601) / 400.

Definition is_leap (y : Z) : bool :=
  (y mod 4 =? 0) && (negb (y mod 100 =? 0) || (y mod 400 =? 0)).
Definition DaysInYear (y : Z) : Z := if is_leap y then 366 else 365.

(** [YearFromTime]: the year whose days include day [d]; the mean year length
    gives an estimate that is off by at most one ([YearFromDay_spec]). *)
Definition YearFromDay (d : Z) : Z :=
  let est := 1970 + d * 400 / 146097 in
  if d <? DayFromYear est then est - 1
  else if DayFromYear (est + 1) <=? d then est + 1 else est.

(** The day of the year on which month [m] (0 to 11) starts. *)
Definition month_start (leap : bool) (m : Z) : Z :=
  let x := if leap then 1 else 0 in
  match m with
  | 0 => 0 | 1 => 31 | 2 => 59 + x | 3 => 90 + x | 4 => 120 + x | 5 => 151 + x
  | 6 => 181 + x | 7 => 212 + x | 8 => 243 + x | 9 => 273 + x | 10 => 304 + x
  | 11 => 334 + x | _ => 365 + x
  end.
Definition days_in_month (leap : bool) (m : Z) : Z :=
  month_start leap (m + 1) - month_start leap m.

(** [MonthFromTime] for day-of-year [dy]. *)
Definition MonthFromDayOfYear (leap : bool) (dy : Z) : Z :=
  if dy <? month_start leap 1 then 0 else if dy <? month_start leap 2 then 1
  else if dy <? month_start leap 3 then 2 else if dy <? month_start leap 4 then 3
  else if dy <? month_start leap 5 then 4 else if dy <? month_start leap 6 then 5
  else if dy <? month_start leap 7 then 6 else if dy <? month_start leap 8 then 7
  else if dy <? month_start leap 9 then 8 else if dy <? month_start leap 10 then 9
  else if dy <? month_start leap 11 then 10 else 11.

(** [MakeDay(year, month, date)] *)
Definition MakeDay (year month date : Z) : Z :=
  let ym := year + month / 12 in
  let mn := month mod 12 in
  DayFromYear ym + month_start (is_leap ym) mn + date - 1.

(** [Date.UTC(year, month, date)] in milliseconds: years 0 to 99 denote 1900
    to 1999.  The limit of the time range (about 275,000 years) is out of
    reach of the four-digit years of the program. *)
Definition Date_UTC (year month date : Z) : Z :=
  let yr := if (0 <=? year) && (year <=? 99) then 1900 + year else year in
  MakeDay yr month date * msPerDay.

Definition Day (t : Z) : Z := t / msPerDay.
Definition getUTCFullYear (t : Z) : Z := YearFromDay (Day t).
Definition getUTCMonth (t : Z) : Z :=
  let y := YearFromDay (Day t) in MonthFromDayOfYear (is_leap y) (Day t - DayFromYear y).
Definition getUTCDate (t : Z) : Z :=
  let y := YearFromDay (Day t) in
  let dy := Day t - DayFromYear y in
  dy - month_start (is_leap y) (MonthFromDayOfYear (is_leap y) dy) + 1.

(** A date exists in the calendar. *)
Definition civil_ok (y m d : Z) : bool :=
  (1 <=? m) && (m <=? 12) && (1 <=? d) && (d <=? days_in_month (is_leap y) (m - 1)).

(** ** The calendar is sound *)

Lemma DaysInYear_spec y : DayFromYear (y + 1) = DayFromYear y + DaysInYear y.
Proof.
  unfold DayFromYear, DaysInYear, is_leap.
  destruct (y mod 4 =? 0) eqn:E4, (y mod 100 =? 0) eqn:E100, (y mod 400 =? 0) eqn:E400;
    cbn [andb orb negb]; breflect; Z.to_euclidean_division_equations; lia.
Qed.

Lemma DaysInYear_pos y : 365 <= DaysInYear y <= 366.
Proof. unfold DaysInYear. destruct (is_leap y); lia. Qed.

Lemma DayFromYear_mono y z : y <= z -> DayFromYear y <= DayFromYear z.
Proof.
  intros H. replace z with (y + Z.of_nat (Z.to_nat (z - y))) by lia.
  induction (Z.to_nat (z - y)) as [|n IH]; [rewrite Z.add_0_r; lia|].
  rewrite Nat2Z.inj_succ. replace (y + Z.succ (Z.of_nat n)) with (y + Z.of_nat n + 1) by lia.
  rewrite DaysInYear_spec. pose proof (DaysInYear_pos (y + Z.of_nat n)). lia.
Qed.

Lemma DayFromYear_bounds y :
  146097 * (y - 1970) - 800 <= 400 * DayFromYear y <= 146097 * (y - 1970) + 800.
Proof. unfold DayFromYear. Z.to_euclidean_division_equations. lia. Qed.

Lemma YearFromDay_spec d :
  DayFromYear (YearFromDay d) <= d < DayFromYear (YearFromDay d + 1).
Proof.
  unfold YearFromDay. set (est := 1970 + d * 400 / 146097).
  assert (146097 * (est - 1970) <= d * 400 < 146097 * (est - 1970) + 146097) as Hest
    by (unfold est; Z.to_euclidean_division_equations; lia).
  pose proof (DayFromYear_bounds est). pose proof (DayFromYear_bounds (est + 1)).
  pose proof (DayFromYear_bounds (est - 1)). pose proof (DayFromYear_bounds (est + 2)).
  destruct (d <? DayFromYear est) eqn:E; breflect.
  - replace (est - 1 + 1) with est by lia. lia.
  - destruct (DayFromYear (est + 1) <=? d) eqn:E2; breflect; [|lia].
    replace (est + 1 + 1) with (est + 2) by lia. lia.
Qed.

Lemma YearFromDay_unique y d :
  DayFromYear y <= d < DayFromYear (y + 1) -> YearFromDay d = y.
Proof.
  intros H. pose proof (YearFromDay_spec d) as H'.
  destruct (Z.lt_trichotomy (YearFromDay d) y) as [Hlt|[?|Hlt]]; [|done|].
  - pose proof (DayFromYear_mono (YearFromDay d + 1) y ltac:(lia)). lia.
  - pose proof (DayFromYear_mono (y + 1) (YearFromDay d) ltac:(lia)). lia.
Qed.

Lemma Day_mul d : Day (d * msPerDay) = d.
Proof. unfold Day. apply Z.div_mul. done. Qed.

(** Enumerates the twelve months. *)
Ltac each_month m H :=
  let Hc := fresh in
  assert (m = 0 \/ m = 1 \/ m = 2 \/ m = 3 \/ m = 4 \/ m = 5 \/ m = 6 \/ m = 7 \/
          m = 8 \/ m = 9 \/ m = 10 \/ m = 11) as Hc by (clear -H; lia);
  clear H; destruct_or! Hc; subst m.

Lemma MonthFromDayOfYear_spec leap m dy :
  0 <= m < 12 -> month_start leap m <= dy < month_start leap (m + 1) ->
  MonthFromDayOfYear leap dy = m.
Proof.
  intros Hm. each_month m Hm; unfold MonthFromDayOfYear; destruct leap; simpl;
    intros; repeat case_match; breflect; lia.
Qed.

Lemma month_start_bounds leap m :
  0 <= m < 12 ->
  0 <= month_start leap m /\ 28 <= days_in_month leap m <= 31 /\
  month_start leap (m + 1) <= (if leap then 366 else 365).
Proof.
  intros Hm. each_month m Hm; unfold days_in_month; destruct leap; simpl; lia.
Qed.

(** Reading back the fields of a date that exists gives the date. *)
Lemma Date_UTC_roundtrip y m d :
  100 <= y -> civil_ok y m d = true ->
  let t := Date_UTC y (m - 1) d in
  getUTCFullYear t = y /\ getUTCMonth t = m - 1 /\ getUTCDate t = d.
Proof.
  intros Hy Hok. unfold civil_ok in Hok. breflect.
  unfold Date_UTC, MakeDay.
  destruct ((0 <=? y) && (y <=? 99)) eqn:E; [breflect; lia|].
  rewrite Z.div_small, Z.mod_small, Z.add_0_r by lia. cbv zeta.
  set (dy := month_start (is_leap y) (m - 1) + d - 1).
  assert (Hdy : month_start (is_leap y) (m - 1) <= dy < month_start (is_leap y) (m - 1 + 1))
    by (unfold days_in_month in *; lia).
  destruct (month_start_bounds (is_leap y) (m - 1)) as (Hb1 & Hb2 & Hb3); [lia|].
  pose proof (DaysInYear_spec y) as HD. unfold DaysInYear in HD.
  assert (HY : YearFromDay (DayFromYear y + dy) = y) by (apply YearFromDay_unique; lia).
  replace (DayFromYear y + month_start (is_leap y) (m - 1) + d - 1)
    with (DayFromYear y + dy) by lia.
  unfold getUTCFullYear, getUTCMonth, getUTCDate. rewrite Day_mul, HY. cbv zeta.
  replace (DayFromYear y + dy - DayFromYear y) with dy by lia.
  rewrite (MonthFromDayOfYear_spec _ (m - 1)) by (done || lia). lia.
Qed.

(** The fields read from any time value form a date that exists. *)
Lemma getUTC_civil_ok t :
  civil_ok (getUTCFullYear t) (getUTCMonth t + 1) (getUTCDate t) = true.
Proof.
  unfold getUTCFullYear, getUTCMonth, getUTCDate. cbv zeta.
  pose proof (YearFromDay_spec (Day t)) as H.
  set (y := YearFromDay (Day t)) in *. rewrite DaysInYear_spec in H. unfold DaysInYear in H.
  set (dy := Day t - DayFromYear y).
  assert (0 <= dy < if is_leap y then 366 else 365) as Hdy by lia. clearbody dy. clear H.
  unfold civil_ok, days_in_month, MonthFromDayOfYear.
  destruct (is_leap y); simpl in *; repeat case_match; breflect; simpl; lia.
Qed.
