(* ===== verification/DemoMoney.v ===== *)
(** * Rehearsal SDK: decimal amounts and allocation

    The pure part of [packages/sdk/src/index.ts]: parsing and printing of
    decimal amounts, conversion between display amounts and raw units under a
    token multiplier, and the split of a raw amount between the principal (PT)
    and dividend-right (DR) pools.  Errors keep their code; message texts are
    not modelled.  A JavaScript number that the source checks with
    [Number.isSafeInteger] is a [Z]. *)
From S2P Require Import Prelude Js.
Open Scope Z_scope.

Inductive DemoErrorCode :=
  | INVALID_AMOUNT | MISSING_ASSET | MISSING_EVENT | INVALID_FIXTURE
  | INSUFFICIENT_BALANCE | STALE_DATA | PAUSED_COLLATERAL
  | REJECTED_EVENT | DEPOSITS_CLOSED | WRONG_PHASE
  | STALE_QUOTE | EXPIRED_QUOTE | MISSING_QUOTE | USER_REJECTED
  | ZERO_PAYOUT | ALREADY_SETTLED
  | JS_RANGE_ERROR (** the native exception of a [BigInt] division by zero *).

#[global] Instance DemoErrorCode_eq_dec : EqDecision DemoErrorCode.
Proof. solve_decision. Defined.

Abbreviation res := (result DemoErrorCode).

Definition FACTOR_MAX_LENGTH : Z := 64.
Definition QUOTE_TTL_MS : Z := 60000.

Definition pow10 (exponent : Z) : res Z :=
  if negb (isSafeInteger exponent) || (exponent <? 0) || (36 <? exponent)
  then Err INVALID_AMOUNT
  else Ok (10 ^ exponent).

Definition assertRaw (value : Z) (allowZero : bool) : res unit :=
  require (negb ((value <? 0) || (negb allowZero && (value =? 0)) || (U64_MAX <? value)))
    INVALID_AMOUNT.

Record rational := Rational { numerator : Z; denominator : Z }.

Definition js_length (l : list ascii) : Z := Z.of_nat (length l).

Definition parseDecimal (value : string) : res rational :=
  let l := chars value in
  match plain_decimal l with
  | Some (whole, fraction) =>
      if (js_length l =? 0) || (FACTOR_MAX_LENGTH <? js_length l) then Err INVALID_AMOUNT
      else
        require (js_length fraction <=? 18) INVALID_AMOUNT ;;
        denominator ← pow10 (js_length fraction);
        Ok (Rational (BigInt (whole ++ fraction)) denominator)
  | None => Err INVALID_AMOUNT
  end.

Definition factor (value : string) : res rational :=
  parsed ← parseDecimal value;
  require (negb (numerator parsed =? 0)) INVALID_AMOUNT ;;
  Ok parsed.

Definition valid_decimals (decimals : Z) : bool :=
  isSafeInteger decimals && (0 <=? decimals) && (decimals <=? 18).

(** [display.includes('.') ? display.length - display.indexOf('.') - 1 : 0] *)
Definition fractionLength (l : list ascii) : Z :=
  match (split_dot l).2 with Some f => js_length f | None => 0 end.

Definition toRawAmount (display : string) (decimals : Z) (multiplier : string) : res Z :=
  require (valid_decimals decimals) INVALID_AMOUNT ;;
  require (fractionLength (chars display) <=? decimals) INVALID_AMOUNT ;;
  amount ← parseDecimal display;
  scale ← factor multiplier;
  unit ← pow10 decimals;
  let raw := numerator amount * unit * denominator scale
             ÷ (denominator amount * numerator scale) in
  assertRaw raw true ;;
  Ok raw.

Definition formatRounded (numerator denominator places : Z) (trim : bool) : res (list ascii) :=
  require (isSafeInteger places && (0 <=? places) && (places <=? 36)) INVALID_AMOUNT ;;
  unit ← pow10 places;
  let rounded := (numerator * unit * 2 + denominator) ÷ (denominator * 2) in
  let whole := rounded ÷ unit in
  if places =? 0 then Ok (toString whole)
  else
    let padded := padStart0 (Z.to_nat places) (toString (Z.rem rounded unit)) in
    let fraction := if trim then trimEnd0 padded else padded in
    Ok (if bool_decide (fraction = []) then toString whole
        else toString whole ++ "."%char :: fraction).

Definition formatUnits (raw decimals : Z) (places : option Z) : res string :=
  assertRaw raw true ;;
  require (valid_decimals decimals) INVALID_AMOUNT ;;
  unit ← pow10 decimals;
  text ← formatRounded raw unit (default decimals places) (bool_decide (places = None));
  Ok (unchars text).

Definition formatScaled (raw decimals : Z) (multiplier : string) (places : option Z) : res string :=
  assertRaw raw true ;;
  require (valid_decimals decimals) INVALID_AMOUNT ;;
  scale ← factor multiplier;
  unit ← pow10 decimals;
  text ← formatRounded (raw * numerator scale) (unit * denominator scale)
           (default decimals places) (bool_decide (places = None));
  Ok (unchars text).

Record pools := Pools { ptPoolRaw : Z; drPoolRaw : Z }.

Definition allocate (raw : Z) (m0 m1 : string) : res pools :=
  assertRaw raw true ;;
  before ← factor m0;
  after ← factor m1;
  let increaseNumerator :=
    numerator after * denominator before - numerator before * denominator after in
  require (negb (increaseNumerator <? 0)) INVALID_FIXTURE ;;
  let drPoolRaw := raw * increaseNumerator ÷ (numerator after * denominator before) in
  Ok (Pools (raw - drPoolRaw) drPoolRaw).

Definition parseUsdc (display : string) : res Z := toRawAmount display 6 "1".
Definition formatUsdc (raw : Z) (places : option Z) : res string := formatUnits raw 6 places.

(** ** Lemmas *)

Definition u64 (n : Z) : Prop := 0 <= n <= U64_MAX.

Lemma assertRaw_Ok v z u :
  assertRaw v z = Ok u -> u64 v /\ (z = false -> 0 < v).
Proof.
  unfold assertRaw, u64. intros H. apply require_Ok_inv in H. breflect.
  destruct z; simpl in *; breflect; lia.
Qed.

Lemma assertRaw_true v z : u64 v -> (z = false -> 0 < v) -> assertRaw v z = Ok tt.
Proof.
  unfold u64, assertRaw. intros Hv Hz.
  destruct (v <? 0) eqn:E1; [breflect; lia|]. destruct (U64_MAX <? v) eqn:E2; [breflect; lia|].
  destruct z; [done|]. destruct (v =? 0) eqn:E3; [|done]. breflect. lia.
Qed.

Lemma pow10_small e : 0 <= e <= 36 -> pow10 e = Ok (10 ^ e).
Proof.
  intros. unfold pow10, isSafeInteger, MAX_SAFE_INTEGER.
  destruct (negb _ || _ || _) eqn:E; [|done].
  apply orb_true_iff in E as [[E|E]%orb_true_iff|E]; breflect; [|lia|lia].
  apply andb_false_iff in E as [E|E]; breflect; lia.
Qed.

Lemma pow10_Ok e v : pow10 e = Ok v -> v = 10 ^ e /\ 0 <= e.
Proof.
  unfold pow10. destruct (_ || _) eqn:E; [done|]. intros [= <-].
  breflect. lia.
Qed.

Lemma parseDecimal_Ok value r :
  parseDecimal value = Ok r ->
  exists w f, plain_decimal (chars value) = Some (w, f) /\
    numerator r = BigInt (w ++ f) /\ denominator r = 10 ^ js_length f /\
    0 <= numerator r /\ 0 < denominator r.
Proof.
  unfold parseDecimal. destruct (plain_decimal (chars value)) as [[w f]|] eqn:E; [|done].
  case_match; [done|]. intros H0. minv H0. exists w, f.
  apply pow10_Ok in R1 as [-> Hf]. simpl.
  apply plain_decimal_digits in E as [Hw%all_digits_forallb Hfd].
  repeat split; [|by apply Z.pow_pos_nonneg].
  apply BigInt_bounds. by rewrite forallb_app, Hw, Hfd.
Qed.

Lemma factor_Ok value r :
  factor value = Ok r -> parseDecimal value = Ok r /\ 0 < numerator r /\ 0 < denominator r.
Proof.
  unfold factor. intros H. minv H. breflect.
  destruct (parseDecimal_Ok _ _ R) as (? & ? & _ & _ & _ & ? & ?).
  split; [done|]. lia.
Qed.

Lemma valid_decimals_true d : valid_decimals d = true -> 0 <= d <= 18.
Proof. unfold valid_decimals. intros. breflect. lia. Qed.

Lemma valid_decimals_intro d : 0 <= d <= 18 -> valid_decimals d = true.
Proof.
  intros. unfold valid_decimals, isSafeInteger, MAX_SAFE_INTEGER.
  repeat (apply andb_true_iff; split); apply Z.leb_le; lia.
Qed.

#[export] Hint Resolve valid_decimals_true valid_decimals_intro : divx.

(** What [toRawAmount] computes: the floor of [display * 10^decimals / multiplier]. *)
Lemma toRawAmount_floor display decimals multiplier raw :
  toRawAmount display decimals multiplier = Ok raw ->
  exists a s, parseDecimal display = Ok a /\ factor multiplier = Ok s /\
    raw = (numerator a * 10 ^ decimals * denominator s) / (denominator a * numerator s) /\
    u64 raw /\ 0 <= decimals <= 18.
Proof.
  unfold toRawAmount. intros H. minv H.
  found valid_decimals_true as Hd. found pow10_Ok as [-> _].
  found assertRaw_Ok as [Hr _].
  do 2 eexists. split; [done|]. split; [done|].
  found parseDecimal_Ok as (? & ? & _ & _ & _ & ? & ?). found factor_Ok as (_ & ? & ?).
  assert (0 < 10 ^ decimals) by (apply Z.pow_pos_nonneg; lia).
  split; [|done]. apply Z.quot_div_nonneg; nia.
Qed.

Lemma allocate_Ok raw m0 m1 p :
  allocate raw m0 m1 = Ok p ->
  exists b a, factor m0 = Ok b /\ factor m1 = Ok a /\ u64 raw /\
    let up := numerator a * denominator b in
    let down := numerator b * denominator a in
    0 < down <= up /\
    drPoolRaw p = raw * (up - down) / up /\ ptPoolRaw p = raw - drPoolRaw p /\
    0 <= drPoolRaw p <= raw.
Proof.
  unfold allocate. intros H. minv H.
  found assertRaw_Ok as [Hr _]. breflect.
  match goal with Hb : factor m0 = Ok ?b, Ha : factor m1 = Ok ?a |- _ =>
    exists b, a; do 3 (split; [done|]); cbv zeta;
    set (up := numerator a * denominator b) in *;
    set (down := numerator b * denominator a) in *
  end.
  do 2 found factor_Ok as (_ & ? & ?).
  assert (0 < down) by (unfold down; nia).
  unfold u64 in Hr. simpl. rewrite Z.quot_div_nonneg by nia.
  split; [lia|]. split; [done|]. split; [done|]. split; [apply Z.div_pos; nia|].
  apply Z.div_le_upper_bound; nia.
Qed.

(** A larger raw amount never gets a smaller dividend pool. *)
Lemma allocate_mono raw raw' m0 m1 p p' :
  allocate raw m0 m1 = Ok p -> allocate raw' m0 m1 = Ok p' -> raw <= raw' ->
  drPoolRaw p <= drPoolRaw p'.
Proof.
  intros (b & a & Hb & Ha & Hr & Hu & Hd & _)%allocate_Ok
         (b' & a' & Hb' & Ha' & Hr' & Hu' & Hd' & _)%allocate_Ok Hle.
  rewrite Hb in Hb'. rewrite Ha in Ha'. simplify_eq. cbv zeta in *. rewrite Hd, Hd'. apply Z.div_le_mono; nia.
Qed.

(** [allocate] succeeds on every raw amount once it succeeded on one. *)
Lemma allocate_total raw raw' m0 m1 p :
  allocate raw m0 m1 = Ok p -> u64 raw' -> exists p', allocate raw' m0 m1 = Ok p'.
Proof.
  unfold allocate. intros H Hu. minv H. rewrite (assertRaw_true raw' true) by done.
  repeat match goal with H : factor _ = Ok _ |- _ => rewrite H; clear H end.
  cbn. match goal with H : negb _ = true |- _ => rewrite H end. simpl. eauto.
Qed.

(** ** Properties of the money functions *)

Section roundtrip.
Lemma formatRounded_exact raw d :
  0 <= raw -> 1 <= d <= 18 ->
  exists t, formatRounded raw (10 ^ d) d true = Ok t /\
    t = let whole := toString (raw / 10 ^ d) in
        let fraction := trimEnd0 (padStart0 (Z.to_nat d) (toString (raw mod 10 ^ d))) in
        if bool_decide (fraction = []) then whole else whole ++ "."%char :: fraction.
Proof.
  intros Hraw Hd. unfold formatRounded.
  assert (isSafeInteger d = true) as Hs
    by (unfold isSafeInteger, MAX_SAFE_INTEGER; apply andb_true_iff; rewrite !Z.leb_le; lia).
  rewrite Hs. replace (0 <=? d) with true by (symmetry; apply Z.leb_le; lia).
  replace (d <=? 36) with true by (symmetry; apply Z.leb_le; lia). cbn [andb].
  rewrite require_true, bind_Ok, pow10_small, bind_Ok by lia.
  destruct (d =? 0) eqn:E; breflect; [lia|].
  assert (0 < 10 ^ d) by (apply Z.pow_pos_nonneg; lia).
  assert ((raw * 10 ^ d * 2 + 10 ^ d) ÷ (10 ^ d * 2) = raw) as ->.
  { rewrite Z.quot_div_nonneg by nia. symmetry. apply (Z.div_unique _ _ _ (10 ^ d)); lia. }
  rewrite Z.quot_div_nonneg, Z.rem_mod_nonneg by lia. eexists. split; done.
Qed.

Lemma formatRounded_integer raw :
  0 <= raw -> formatRounded raw (10 ^ 0) 0 true = Ok (toString raw).
Proof.
  intros. change (formatRounded raw (10 ^ 0) 0 true)
    with (@Ok DemoErrorCode _ (toString ((raw * 1 * 2 + 1) ÷ (1 * 2) ÷ 1))).
  do 2 f_equal. rewrite Z.quot_1_r, Z.quot_div_nonneg by lia.
  symmetry. apply (Z.div_unique _ _ _ 1); lia.
Qed.

Lemma parse_formatted whole fraction d :
  0 <= whole < 10 ^ 20 -> forallb is_digit fraction = true -> fraction <> [] ->
  (length fraction <= d)%nat -> (d <= 18)%nat ->
  parseDecimal (unchars (toString whole ++ "."%char :: fraction)) =
    Ok (Rational (BigInt (toString whole ++ fraction)) (10 ^ js_length fraction)).
Proof.
  intros Hw Hf Hne Hl Hd. unfold parseDecimal. rewrite String.list_ascii_of_string_of_list_ascii.
  destruct (toString_spec whole) as [_ Hwd]; [lia|].
  unfold plain_decimal. rewrite split_dot_digits by by apply all_digits_forallb.
  rewrite Hwd. unfold all_digits. rewrite Hf, bool_decide_false by done. cbn [andb negb].
  pose proof (toString_length whole 20 ltac:(lia) ltac:(lia)).
  unfold js_length, FACTOR_MAX_LENGTH. rewrite length_app. simpl length.
  destruct (_ =? 0) eqn:E1; breflect; [lia|].
  destruct (64 <? _) eqn:E2; breflect; [lia|]. cbn [orb].
  replace (Z.of_nat (length fraction) <=? 18) with true by (symmetry; apply Z.leb_le; lia).
  rewrite require_true, bind_Ok, pow10_small, bind_Ok by lia. done.
Qed.

Lemma parse_integer whole :
  0 <= whole < 10 ^ 20 ->
  parseDecimal (unchars (toString whole)) = Ok (Rational whole 1).
Proof.
  intros Hw. unfold parseDecimal. rewrite String.list_ascii_of_string_of_list_ascii.
  destruct (toString_spec whole) as [Hv Hwd]; [lia|].
  unfold plain_decimal. rewrite split_dot_no_dot by by apply all_digits_forallb.
  rewrite Hwd. pose proof (toString_length whole 20 ltac:(lia) ltac:(lia)).
  unfold js_length, FACTOR_MAX_LENGTH.
  destruct (_ =? 0) eqn:E1; breflect.
  { destruct (toString whole); [vm_compute in Hwd; done|simpl in E1; lia]. }
  destruct (64 <? _) eqn:E2; breflect; [lia|]. cbn [orb].
  rewrite app_nil_r, Hv. reflexivity.
Qed.

(** The rational parsed back from a formatted amount is the amount. *)
Lemma parse_formatUnits raw d :
  u64 raw -> 0 <= d <= 18 ->
  exists text q, formatUnits raw d None = Ok text /\ parseDecimal text = Ok q /\
    fractionLength (chars text) <= d /\
    numerator q * 10 ^ d = raw * denominator q /\ 0 < denominator q.
Proof.
  unfold u64, U64_MAX. intros Hraw Hd. unfold formatUnits.
  rewrite assertRaw_true by done. rewrite (valid_decimals_intro d Hd).
  rewrite require_true, !bind_Ok, pow10_small, bind_Ok by lia. simpl default.
  change (bool_decide (@None Z = None)) with true.
  destruct (Z.eq_dec d 0) as [->|Hd0].
  { rewrite formatRounded_integer, bind_Ok by lia.
    do 2 eexists. split; [done|]. split; [apply parse_integer; lia|].
    destruct (toString_spec raw) as [_ Hwd]; [lia|]. unfold fractionLength.
    rewrite String.list_ascii_of_string_of_list_ascii, split_dot_no_dot by by apply all_digits_forallb.
    simpl. lia. }
  assert (0 < 10 ^ d) as Hpos by (apply Z.pow_pos_nonneg; lia).
  destruct (formatRounded_exact raw d) as (t & -> & ->); [lia..|]. rewrite bind_Ok. cbv zeta.
  pose proof (Z.div_pos raw (10 ^ d) ltac:(lia) ltac:(lia)) as Hq.
  assert (raw / 10 ^ d < 10 ^ 20) as Hq'.
  { apply Z.div_lt_upper_bound; nia. }
  pose proof (Z.mod_pos_bound raw (10 ^ d) Hpos) as Hm.
  set (padded := padStart0 (Z.to_nat d) (toString (raw mod 10 ^ d))).
  assert (forallb is_digit padded = true) as Hpad.
  { unfold padded, padStart0. rewrite forallb_app.
    destruct (toString_spec (raw mod 10 ^ d)) as [_ Ht]; [lia|].
    rewrite (all_digits_forallb _ Ht), andb_true_r.
    induction (Z.to_nat d - _)%nat as [|n IH]; simpl; [done|done]. }
  assert (length padded = Z.to_nat d) as Hlen.
  { apply length_padStart0. apply toString_length; [lia|]. rewrite Z2Nat.id; lia. }
  destruct (trimEnd0_value padded) as [Hval Htl].
  assert (BigInt padded = raw mod 10 ^ d) as Hpv.
  { unfold padded. rewrite BigInt_padStart0. apply toString_spec. lia. }
  rewrite Hlen, Z2Nat.id in Hval by lia.
  pose proof (Z.div_mod raw (10 ^ d) ltac:(lia)) as Hdm.
  case_bool_decide as Hfr.
  - do 2 eexists. split; [done|]. split; [apply parse_integer; lia|].
    destruct (toString_spec (raw / 10 ^ d)) as [_ Hwd]; [lia|]. unfold fractionLength.
    rewrite String.list_ascii_of_string_of_list_ascii, split_dot_no_dot by by apply all_digits_forallb.
    simpl. rewrite Hfr in Hval. unfold BigInt in Hval at 2. simpl in Hval. lia.
  - do 2 eexists. split; [done|].
    split; [apply (parse_formatted _ _ (Z.to_nat d)); [lia|by apply trimEnd0_digits|done|lia|lia]|].
    destruct (toString_spec (raw / 10 ^ d)) as [Hwv Hwd]; [lia|]. unfold fractionLength.
    rewrite String.list_ascii_of_string_of_list_ascii, split_dot_digits by by apply all_digits_forallb.
    simpl. unfold js_length. rewrite BigInt_app, Hwv.
    set (k := Z.of_nat (length (trimEnd0 padded))) in *.
    assert (10 ^ d = 10 ^ k * 10 ^ (d - k)) as Hsplit by (rewrite <- Z.pow_add_r; [f_equal; lia|lia|lia]).
    split; [lia|]. split; [|apply Z.pow_pos_nonneg; lia].
    rewrite <- Hpv, Hval in Hdm. set (T := BigInt (trimEnd0 padded)) in *.
    set (Q := raw / 10 ^ d) in *. clearbody Q T k. rewrite Hdm, Hsplit. ring.
Qed.
End roundtrip.

Lemma factor_one : factor "1" = Ok (Rational 1 1).
Proof. reflexivity. Qed.

(** Printing an amount and reading it back loses nothing. *)
Lemma formatUnits_roundtrip_aux raw d text :
  formatUnits raw d None = Ok text -> toRawAmount text d "1" = Ok raw.
Proof.
  intros H. assert (u64 raw /\ 0 <= d <= 18) as [Hraw Hd].
  { unfold formatUnits in H. minv H. found assertRaw_Ok as [? _].
    found valid_decimals_true as ?. done. }
  destruct (parse_formatUnits raw d Hraw Hd) as (text' & q & Hf & Hp & Hfl & Hq & Hden).
  rewrite H in Hf. injection Hf as <-.
  unfold toRawAmount. rewrite (valid_decimals_intro d Hd).
  replace (fractionLength (chars text) <=? d) with true by (symmetry; by apply Z.leb_le).
  rewrite !require_true, !bind_Ok, Hp, bind_Ok, factor_one, bind_Ok, pow10_small, bind_Ok by lia.
  simpl numerator. simpl denominator. cbv zeta.
  assert (numerator q * 10 ^ d * 1 ÷ (denominator q * 1) = raw) as ->.
  { rewrite !Z.mul_1_r, Hq. apply Z.quot_mul. lia. }
  by rewrite assertRaw_true.
Qed.
