(* ===== verification/DemoClient.v ===== *)
(** * Rehearsal SDK: the in-memory demo client

    [createDemoClient] of [packages/sdk/src/index.ts]: fixture validation, the
    two-wallet ledger state, and every operation of the returned object.
    An operation is a state-passing computation over [Client], the variables
    the closure captures; a thrown error keeps the state reached so far.
    The [async] operations contain no [await], so each one runs to its end
    before any other starts.  [Record<string, _>] objects are finite maps. *)
From S2P Require Import Prelude Js DemoMoney.
Open Scope Z_scope.

(** ** Data *)

Inductive WalletId := seller | buyer.
Inductive ClaimSide := pt_side | dr_side.
Inductive SeriesPhase := open | closed | settled | complete | cancelled.
Inductive DemoCondition := ready | stale | paused | rejected_event.
Inductive ReplayClockStatus := before_event | at_event.
Inductive DemoAction :=
  | deposit_action | sale_action | close_deposits_action | settle_action
  | redeem_action | recombine_action.
Inductive ChangeField := f_collateral | f_usdc | f_pt | f_dr | f_accounted_collateral.

#[global] Instance WalletId_eq_dec : EqDecision WalletId. Proof. solve_decision. Defined.
#[global] Instance SeriesPhase_eq_dec : EqDecision SeriesPhase. Proof. solve_decision. Defined.
#[global] Instance DemoCondition_eq_dec : EqDecision DemoCondition. Proof. solve_decision. Defined.
#[global] Instance ChangeField_eq_dec : EqDecision ChangeField. Proof. solve_decision. Defined.

Record AssetDescriptor := {
  asset_id : string; issuerId : string; mint : string; decimals : Z;
  effectiveMultiplier : string; eventFixtureId : option string;
}.

Record EventDescriptor := {
  event_id : string; event_assetId : string; kind : string;
  m0 : string; m1 : string;
  sourceUrls : list string; evidencePaths : list string;
  sourceDigest : string; finality : string;
}.

Record ClaimBalance := Claims { pt : Z; dr : Z }.
Record DemoWallet := Wallet {
  collateral : gmap string Z; usdc : Z; claims : gmap string ClaimBalance;
}.

Record DemoSeries := Series {
  series_id : string; series_assetId : string; series_eventId : string;
  phase : SeriesPhase;
  accountedCollateralRaw : Z;
  originalSupplyRaw : Z; originalPtPoolRaw : Z; originalDrPoolRaw : Z;
  s_ptPoolRaw : Z; s_drPoolRaw : Z;
  ptSupplyRaw : Z; drSupplyRaw : Z;
  cumulativePtBurnedRaw : Z; cumulativeDrBurnedRaw : Z;
  replayClock : ReplayClockStatus;
}.

Record AmountChange := Change {
  ch_wallet : option WalletId; ch_asset : option string; ch_series : option string;
  ch_field : ChangeField; ch_delta : Z;
}.

Record DemoReceipt := Receipt {
  r_generation : Z; r_number : Z; (** the id [demo-<generation>-<number>] *)
  r_action : DemoAction; r_series : string; r_timestamp : Z; r_changes : list AmountChange;
}.

Record DemoState := State {
  version : Z; condition : DemoCondition;
  w_seller : DemoWallet; w_buyer : DemoWallet;
  series : gmap string DemoSeries; receipts : list DemoReceipt;
}.

Record AllocationPreview := Preview {
  ap_assetId : string; ap_eventId : string; ap_input : string;
  ap_collateralRaw : Z; ap_ptPoolRaw : Z; ap_drPoolRaw : Z; ap_pairedClaimRaw : Z;
}.

Record SaleQuote := Quote {
  q_id : string; q_seriesId : string; q_drRaw : Z; q_usdcTotalRaw : Z;
  q_version : Z; q_expiresAt : Z;
}.

(** ** Fixture validation *)

Definition known_issuer (s : string) : bool :=
  bool_decide (s = "xstocks") || bool_decide (s = "backpack") || bool_decide (s = "ondo").

Definition has {A} (m : gmap string A) (k : string) : bool :=
  match m !! k with Some _ => true | None => false end.

Definition validate_asset (byId : gmap string AssetDescriptor) (asset : AssetDescriptor)
    : res (gmap string AssetDescriptor) :=
  require (negb (bool_decide (asset_id asset = "") || has byId (asset_id asset))) INVALID_FIXTURE ;;
  require (known_issuer (issuerId asset)) INVALID_FIXTURE ;;
  require (bool_decide (asset_id asset = issuerId asset +:+ ":" +:+ mint asset)) INVALID_FIXTURE ;;
  require (valid_decimals (decimals asset)) INVALID_FIXTURE ;;
  _ ← factor (effectiveMultiplier asset);
  Ok (<[asset_id asset := asset]> byId).

Definition is_empty {A} (l : list A) : bool := match l with [] => true | _ => false end.

Definition validate_event (assetsById : gmap string AssetDescriptor)
    (acc : gmap string EventDescriptor * gmap string Z) (event : EventDescriptor)
    : res (gmap string EventDescriptor * gmap string Z) :=
  let '(eventsById, counts) := acc in
  require (negb (bool_decide (event_id event = "") || has eventsById (event_id event))) INVALID_FIXTURE ;;
  match assetsById !! event_assetId event with
  | None => Err INVALID_FIXTURE
  | Some asset =>
      require (bool_decide (eventFixtureId asset = Some (event_id event))) INVALID_FIXTURE ;;
      require (bool_decide (kind event = "cash_dividend")) INVALID_FIXTURE ;;
      require (bool_decide (finality event = "trusted_frozen_replay")) INVALID_FIXTURE ;;
      require (negb (bool_decide (sourceDigest event = "") || is_empty (sourceUrls event)
                     || is_empty (evidencePaths event))) INVALID_FIXTURE ;;
      p ← allocate 1000000000000 (m0 event) (m1 event);
      require (negb (drPoolRaw p =? 0)) INVALID_FIXTURE ;;
      Ok (<[event_id event := event]> eventsById,
          <[event_assetId event := default 0 (counts !! event_assetId event) + 1]> counts)
  end.

Definition validate_pin (eventsById : gmap string EventDescriptor) (counts : gmap string Z)
    (_ : unit) (asset : AssetDescriptor) : res unit :=
  require (match eventFixtureId asset with Some e => has eventsById e | None => true end) INVALID_FIXTURE ;;
  require (negb (1 <? default 0 (counts !! asset_id asset))) INVALID_FIXTURE.

Definition validateFixtures (assets : list AssetDescriptor) (events : list EventDescriptor) : res unit :=
  assetsById ← foldM validate_asset ∅ assets;
  '(eventsById, counts) ← foldM (validate_event assetsById) (∅, ∅) events;
  foldM (validate_pin eventsById counts) tt assets.

(** The copies the closure keeps: [assets], [events] and [eventForAsset]. *)
Record Fixtures := {
  fx_assets : gmap string AssetDescriptor;
  fx_events : gmap string EventDescriptor;
  fx_eventForAsset : gmap string string;
}.

(** [new Map(entries)]: a later entry replaces an earlier one. *)
Definition map_of {A V} (key : A -> string) (val : A -> V) (l : list A) : gmap string V :=
  foldl (fun m a => <[key a := val a]> m) ∅ l.

Definition make_fixtures (assets : list AssetDescriptor) (events : list EventDescriptor) : res Fixtures :=
  validateFixtures assets events ;;
  Ok {| fx_assets := map_of asset_id id assets;
        fx_events := map_of event_id id events;
        fx_eventForAsset := map_of event_assetId event_id events |}.

(** ** Client state *)

Record Client := {
  c_state : DemoState;
  quotes : gmap string SaleQuote;
  generation : Z;
  quoteCounter : Z;
  receiptCounter : Z;
  clock_reads : nat; (** how often the injected [now()] was called *)
}.

Definition with_state (st : DemoState) (c : Client) : Client :=
  {| c_state := st; quotes := quotes c; generation := generation c;
     quoteCounter := quoteCounter c; receiptCounter := receiptCounter c;
     clock_reads := clock_reads c |}.
Definition with_quotes (q : gmap string SaleQuote) (c : Client) : Client :=
  {| c_state := c_state c; quotes := q; generation := generation c;
     quoteCounter := quoteCounter c; receiptCounter := receiptCounter c;
     clock_reads := clock_reads c |}.

Abbreviation Op := (M Client DemoErrorCode).

Definition wallet_of (st : DemoState) (w : WalletId) : DemoWallet :=
  match w with seller => w_seller st | buyer => w_buyer st end.

Definition set_wallet (w : WalletId) (x : DemoWallet) (st : DemoState) : DemoState :=
  match w with
  | seller => State (version st) (condition st) x (w_buyer st) (series st) (receipts st)
  | buyer => State (version st) (condition st) (w_seller st) x (series st) (receipts st)
  end.
Definition set_series (k : string) (s : DemoSeries) (st : DemoState) : DemoState :=
  State (version st) (condition st) (w_seller st) (w_buyer st) (<[k := s]> (series st)) (receipts st).
Definition bump_version (st : DemoState) : DemoState :=
  State (version st + 1) (condition st) (w_seller st) (w_buyer st) (series st) (receipts st).
Definition push_receipt (r : DemoReceipt) (st : DemoState) : DemoState :=
  State (version st) (condition st) (w_seller st) (w_buyer st) (series st) (receipts st ++ [r]).
Definition set_condition (x : DemoCondition) (st : DemoState) : DemoState :=
  State (version st) x (w_seller st) (w_buyer st) (series st) (receipts st).

Definition set_claims (k : string) (b : ClaimBalance) (w : DemoWallet) : DemoWallet :=
  Wallet (collateral w) (usdc w) (<[k := b]> (claims w)).
Definition set_collateral (a : string) (n : Z) (w : DemoWallet) : DemoWallet :=
  Wallet (<[a := n]> (collateral w)) (usdc w) (claims w).
Definition set_usdc (n : Z) (w : DemoWallet) : DemoWallet :=
  Wallet (collateral w) n (claims w).

Definition with_phase (p : SeriesPhase) (s : DemoSeries) : DemoSeries :=
  Series (series_id s) (series_assetId s) (series_eventId s) p (accountedCollateralRaw s)
    (originalSupplyRaw s) (originalPtPoolRaw s) (originalDrPoolRaw s) (s_ptPoolRaw s) (s_drPoolRaw s)
    (ptSupplyRaw s) (drSupplyRaw s) (cumulativePtBurnedRaw s) (cumulativeDrBurnedRaw s) (replayClock s).
Definition with_replayClock (r : ReplayClockStatus) (s : DemoSeries) : DemoSeries :=
  Series (series_id s) (series_assetId s) (series_eventId s) (phase s) (accountedCollateralRaw s)
    (originalSupplyRaw s) (originalPtPoolRaw s) (originalDrPoolRaw s) (s_ptPoolRaw s) (s_drPoolRaw s)
    (ptSupplyRaw s) (drSupplyRaw s) (cumulativePtBurnedRaw s) (cumulativeDrBurnedRaw s) r.
(** Sets the accounted collateral and both supplies. *)
Definition with_backing (accounted ptS drS : Z) (s : DemoSeries) : DemoSeries :=
  Series (series_id s) (series_assetId s) (series_eventId s) (phase s) accounted
    (originalSupplyRaw s) (originalPtPoolRaw s) (originalDrPoolRaw s) (s_ptPoolRaw s) (s_drPoolRaw s)
    ptS drS (cumulativePtBurnedRaw s) (cumulativeDrBurnedRaw s) (replayClock s).
Definition with_frozen_pools (supply : Z) (p : pools) (s : DemoSeries) : DemoSeries :=
  Series (series_id s) (series_assetId s) (series_eventId s) (phase s) (accountedCollateralRaw s)
    supply (ptPoolRaw p) (drPoolRaw p) (ptPoolRaw p) (drPoolRaw p)
    (ptSupplyRaw s) (drSupplyRaw s) (cumulativePtBurnedRaw s) (cumulativeDrBurnedRaw s) (replayClock s).
(** Burns [claim] on one side and takes [pay] out of its pool and the backing. *)
Definition with_redeemed (side : ClaimSide) (claim pay : Z) (s : DemoSeries) : DemoSeries :=
  match side with
  | pt_side =>
      Series (series_id s) (series_assetId s) (series_eventId s) (phase s)
        (accountedCollateralRaw s - pay)
        (originalSupplyRaw s) (originalPtPoolRaw s) (originalDrPoolRaw s)
        (s_ptPoolRaw s - pay) (s_drPoolRaw s) (ptSupplyRaw s - claim) (drSupplyRaw s)
        (cumulativePtBurnedRaw s + claim) (cumulativeDrBurnedRaw s) (replayClock s)
  | dr_side =>
      Series (series_id s) (series_assetId s) (series_eventId s) (phase s)
        (accountedCollateralRaw s - pay)
        (originalSupplyRaw s) (originalPtPoolRaw s) (originalDrPoolRaw s)
        (s_ptPoolRaw s) (s_drPoolRaw s - pay) (ptSupplyRaw s) (drSupplyRaw s - claim)
        (cumulativePtBurnedRaw s) (cumulativeDrBurnedRaw s + claim) (replayClock s)
  end.

Definition new_series (eventId assetId : string) : DemoSeries :=
  Series eventId assetId eventId open 0 0 0 0 0 0 0 0 0 0 before_event.

Definition empty_wallet : DemoWallet := Wallet ∅ 0 ∅.

Definition side_balance (side : ClaimSide) (b : ClaimBalance) : Z :=
  match side with pt_side => pt b | dr_side => dr b end.
Definition side_debit (side : ClaimSide) (n : Z) (b : ClaimBalance) : ClaimBalance :=
  match side with pt_side => Claims (pt b - n) (dr b) | dr_side => Claims (pt b) (dr b - n) end.
Definition side_field (side : ClaimSide) : ChangeField :=
  match side with pt_side => f_pt | dr_side => f_dr end.

(** [state.wallets[walletId].claims[seriesId] ?? { pt: 0n, dr: 0n }] *)
Definition claimsFor (st : DemoState) (w : WalletId) (seriesId : string) : ClaimBalance :=
  default (Claims 0 0) (claims (wallet_of st w) !! seriesId).
(** [state.wallets[walletId].collateral[assetId] ?? 0n] *)
Definition collateralOf (st : DemoState) (w : WalletId) (assetId : string) : Z :=
  default 0 (collateral (wallet_of st w) !! assetId).

(** [`quote-${generation}-${n}`] and [/^quote-(\d+)-\d+$/.exec(id)?.[1]]. *)
Definition quote_id (gen n : Z) : string :=
  "quote-" +:+ unchars (toString gen) +:+ "-" +:+ unchars (toString n).

Definition is_dash (c : ascii) : bool := bool_decide (c = "-"%char).
Fixpoint split_dash (l : list ascii) : list ascii * option (list ascii) :=
  match l with
  | [] => ([], None)
  | c :: l' =>
      if is_dash c then ([], Some l')
      else let '(w, f) := split_dash l' in (c :: w, f)
  end.
Definition quote_generation (id : string) : option Z :=
  match chars id with
  | "q" :: "u" :: "o" :: "t" :: "e" :: "-" :: rest =>
      match split_dash rest with
      | (g, Some n) => if all_digits g && all_digits n then Some (BigInt g) else None
      | (_, None) => None
      end
  | _ => None
  end%char.

Section client.
(** The validated fixtures and the injected clock: [clk n] is what the
    [n]-th call of [now()] returns. *)
Context (fx : Fixtures) (clk : nat -> Z).

Definition initial_collateral (asset : AssetDescriptor) : res Z :=
  match fx_eventForAsset fx !! asset_id asset with
  | Some eventId =>
      match fx_events fx !! eventId with
      | Some event => toRawAmount "1000" (decimals asset) (m0 event)
      | None => Err JS_RANGE_ERROR (* not reached: the id comes from [events] *)
      end
  | None => Ok 0
  end.

Definition makeInitialState : res DemoState :=
  sellerCollateral ← foldM (fun m '(k, asset) => n ← initial_collateral asset; Ok (<[k := n]> m))
                       ∅ (map_to_list (fx_assets fx));
  buyerUsdc ← parseUsdc "1000";
  Ok {| version := 0; condition := ready;
        w_seller := Wallet sellerCollateral 0 ∅;
        w_buyer := Wallet (const 0 <$> fx_assets fx) buyerUsdc ∅;
        series := ∅; receipts := [] |}.

Definition initial_client : res Client :=
  st ← makeInitialState;
  Ok {| c_state := st; quotes := ∅; generation := 1; quoteCounter := 0;
        receiptCounter := 0; clock_reads := 0 |}.

(** *** Shared steps *)

Definition snapshot (c : Client) : DemoState := c_state c.

Definition now : Op Z := fun c =>
  (Ok (clk (clock_reads c)),
   {| c_state := c_state c; quotes := quotes c; generation := generation c;
      quoteCounter := quoteCounter c; receiptCounter := receiptCounter c;
      clock_reads := S (clock_reads c) |}).

Definition requireAssetEvent (assetId : string) : res (AssetDescriptor * EventDescriptor) :=
  match fx_assets fx !! assetId with
  | None => Err MISSING_ASSET
  | Some asset =>
      match fx_eventForAsset fx !! assetId with
      | None => Err MISSING_EVENT
      | Some eventId =>
          match fx_events fx !! eventId with
          | Some event => Ok (asset, event)
          | None => Err JS_RANGE_ERROR (* not reached: the id comes from [events] *)
          end
      end
  end.

Definition requireSeries (seriesId : string) : Op DemoSeries := fun c =>
  match series (c_state c) !! seriesId with
  | Some s => (Ok s, c)
  | None => (Err MISSING_EVENT, c)
  end.

Definition requireReady : Op unit := fun c =>
  match condition (c_state c) with
  | stale => (Err STALE_DATA, c)
  | paused => (Err PAUSED_COLLATERAL, c)
  | rejected_event => (Err REJECTED_EVENT, c)
  | ready => (Ok tt, c)
  end.

Definition receipt (action : DemoAction) (seriesId : string) (changes : list AmountChange)
    : Op DemoReceipt := fun c =>
  let value := {| r_generation := generation c; r_number := receiptCounter c + 1;
                  r_action := action; r_series := seriesId;
                  r_timestamp := clk (clock_reads c); r_changes := changes |} in
  (Ok value,
   {| c_state := push_receipt value (c_state c); quotes := quotes c;
      generation := generation c; quoteCounter := quoteCounter c;
      receiptCounter := receiptCounter c + 1; clock_reads := S (clock_reads c) |}).

Definition update_state (f : DemoState -> DemoState) : Op unit :=
  modify (fun c => with_state (f (c_state c)) c).

(** *** Operations *)

Definition preview (assetId stockAmount : string) : res AllocationPreview :=
  '(asset, event) ← requireAssetEvent assetId;
  collateralRaw ← toRawAmount stockAmount (decimals asset) (m0 event);
  p ← allocate collateralRaw (m0 event) (m1 event);
  Ok {| ap_assetId := assetId; ap_eventId := event_id event; ap_input := stockAmount;
        ap_collateralRaw := collateralRaw; ap_ptPoolRaw := ptPoolRaw p;
        ap_drPoolRaw := drPoolRaw p; ap_pairedClaimRaw := collateralRaw |}.

Definition previewRedemption (seriesId : string) (w : WalletId) (side : ClaimSide) (claimRaw : Z)
    : Op Z :=
  lift (assertRaw claimRaw false) ;;
  s ← requireSeries seriesId;
  ensure (bool_decide (phase s = settled)) WRONG_PHASE ;;
  c ← get;
  let balance := side_balance side (claimsFor (c_state c) w seriesId) in
  ensure (negb (balance <? claimRaw)) INSUFFICIENT_BALANCE ;;
  let burned := match side with pt_side => cumulativePtBurnedRaw s | dr_side => cumulativeDrBurnedRaw s end in
  let pool := match side with pt_side => originalPtPoolRaw s | dr_side => originalDrPoolRaw s end in
  ensure (negb (originalSupplyRaw s =? 0)) JS_RANGE_ERROR ;;
  let pay := (burned + claimRaw) * pool ÷ originalSupplyRaw s - burned * pool ÷ originalSupplyRaw s in
  ensure (negb (pay =? 0)) ZERO_PAYOUT ;;
  mret pay.

Definition deposit (assetId stockAmount : string) : Op DemoReceipt :=
  requireReady ;;
  allocation ← lift (preview assetId stockAmount);
  let raw := ap_collateralRaw allocation in
  let eventId := ap_eventId allocation in
  ensure (negb (raw =? 0)) INVALID_AMOUNT ;;
  c ← get;
  let st := c_state c in
  ensure (negb (collateralOf st seller assetId <? raw)) INSUFFICIENT_BALANCE ;;
  let existing := series st !! eventId in
  ensure (match existing with Some s => bool_decide (phase s = open) | None => true end)
    DEPOSITS_CLOSED ;;
  let nextAccounted := from_option accountedCollateralRaw 0 existing + raw in
  lift (assertRaw nextAccounted true) ;;
  '(_, event) ← lift (requireAssetEvent assetId);
  p ← lift (allocate nextAccounted (m0 event) (m1 event));
  ensure (negb (drPoolRaw p =? 0)) INVALID_AMOUNT ;;
  let priorClaims := claimsFor st seller eventId in
  let nextPt := pt priorClaims + raw in
  let nextDr := dr priorClaims + raw in
  lift (assertRaw nextPt true) ;;
  lift (assertRaw nextDr true) ;;
  let s := default (new_series eventId assetId) existing in
  update_state (fun st =>
    bump_version
      (set_series eventId (with_backing nextAccounted (ptSupplyRaw s + raw) (drSupplyRaw s + raw) s)
        (set_wallet seller
          (set_claims eventId (Claims nextPt nextDr)
            (set_collateral assetId (collateralOf st seller assetId - raw) (w_seller st))) st))) ;;
  receipt deposit_action eventId
    [Change (Some seller) (Some assetId) None f_collateral (- raw);
     Change (Some seller) None (Some eventId) f_pt raw;
     Change (Some seller) None (Some eventId) f_dr raw;
     Change None None (Some eventId) f_accounted_collateral raw].

Definition quoteSale (seriesId : string) (drRaw usdcTotalRaw : Z) : Op SaleQuote :=
  requireReady ;;
  lift (assertRaw drRaw false) ;;
  lift (assertRaw usdcTotalRaw false) ;;
  s ← requireSeries seriesId;
  ensure (bool_decide (phase s = open)) WRONG_PHASE ;;
  c ← get;
  ensure (negb (dr (claimsFor (c_state c) seller seriesId) <? drRaw)) INSUFFICIENT_BALANCE ;;
  ensure (negb (usdc (w_buyer (c_state c)) <? usdcTotalRaw)) INSUFFICIENT_BALANCE ;;
  t ← now;
  let value := {| q_id := quote_id (generation c) (quoteCounter c + 1); q_seriesId := seriesId;
                  q_drRaw := drRaw; q_usdcTotalRaw := usdcTotalRaw;
                  q_version := version (c_state c); q_expiresAt := t + QUOTE_TTL_MS |} in
  modify (fun c => {| c_state := c_state c; quotes := <[q_id value := value]> (quotes c);
                      generation := generation c; quoteCounter := quoteCounter c + 1;
                      receiptCounter := receiptCounter c; clock_reads := clock_reads c |}) ;;
  mret value.

Definition acceptSale (quoteId : string) (reject : bool) : Op DemoReceipt :=
  if reject then
    modify (fun c => with_quotes (delete quoteId (quotes c)) c) ;;
    throw USER_REJECTED
  else
  c ← get;
  ensure (match quote_generation quoteId with Some g => g =? generation c | None => true end)
    STALE_QUOTE ;;
  quote ← lift (match quotes c !! quoteId with Some q => Ok q | None => Err MISSING_QUOTE end);
  requireReady ;;
  t ← now;
  ensure (negb (q_expiresAt quote <=? t)) EXPIRED_QUOTE ;;
  let st := c_state c in
  ensure (q_version quote =? version st) STALE_QUOTE ;;
  let seriesId := q_seriesId quote in
  s ← requireSeries seriesId;
  ensure (bool_decide (phase s = open)) WRONG_PHASE ;;
  let sellerClaims := claimsFor st seller seriesId in
  let buyerClaims := claimsFor st buyer seriesId in
  ensure (negb (dr sellerClaims <? q_drRaw quote)) INSUFFICIENT_BALANCE ;;
  ensure (negb (usdc (w_buyer st) <? q_usdcTotalRaw quote)) INSUFFICIENT_BALANCE ;;
  let nextBuyerDr := dr buyerClaims + q_drRaw quote in
  let nextSellerUsdc := usdc (w_seller st) + q_usdcTotalRaw quote in
  lift (assertRaw nextBuyerDr true) ;;
  lift (assertRaw nextSellerUsdc true) ;;
  update_state (fun st =>
    let ws := set_claims seriesId (Claims (pt sellerClaims) (dr sellerClaims - q_drRaw quote)) (w_seller st) in
    let wb := set_claims seriesId (Claims (pt buyerClaims) nextBuyerDr) (w_buyer st) in
    set_wallet seller (set_usdc (usdc (w_seller st) + q_usdcTotalRaw quote) ws)
      (set_wallet buyer (set_usdc (usdc (w_buyer st) - q_usdcTotalRaw quote) wb) st)) ;;
  modify (fun c => with_quotes (delete quoteId (quotes c)) c) ;;
  update_state bump_version ;;
  receipt sale_action seriesId
    [Change (Some seller) None (Some seriesId) f_dr (- q_drRaw quote);
     Change (Some buyer) None (Some seriesId) f_dr (q_drRaw quote);
     Change (Some buyer) None None f_usdc (- q_usdcTotalRaw quote);
     Change (Some seller) None None f_usdc (q_usdcTotalRaw quote)].

Definition closeDeposits (seriesId : string) : Op DemoReceipt :=
  s ← requireSeries seriesId;
  ensure (bool_decide (phase s = open)) WRONG_PHASE ;;
  update_state (fun st => bump_version
    (set_series seriesId (with_replayClock at_event (with_phase closed s)) st)) ;;
  receipt close_deposits_action seriesId [].

Definition settle (seriesId : string) : Op DemoReceipt :=
  requireReady ;;
  s ← requireSeries seriesId;
  ensure (negb (bool_decide (phase s = settled) || bool_decide (phase s = complete))) ALREADY_SETTLED ;;
  ensure (bool_decide (phase s = closed)) WRONG_PHASE ;;
  event ← lift (match fx_events fx !! series_eventId s, fx_assets fx !! series_assetId s with
                | Some event, Some asset =>
                    require (bool_decide (eventFixtureId asset = Some (series_eventId s)) &&
                             bool_decide (event_assetId event = series_assetId s)) INVALID_FIXTURE ;;
                    Ok event
                | _, _ => Err INVALID_FIXTURE
                end);
  p ← lift (allocate (accountedCollateralRaw s) (m0 event) (m1 event));
  ensure (negb (drPoolRaw p =? 0)) INVALID_FIXTURE ;;
  ensure ((ptSupplyRaw s =? accountedCollateralRaw s) && (drSupplyRaw s =? accountedCollateralRaw s))
    INVALID_FIXTURE ;;
  update_state (fun st => bump_version
    (set_series seriesId (with_phase settled (with_frozen_pools (accountedCollateralRaw s) p s)) st)) ;;
  receipt settle_action seriesId [].

Definition requireNotPaused : Op unit := fun c =>
  match condition (c_state c) with paused => (Err PAUSED_COLLATERAL, c) | _ => (Ok tt, c) end.

(** The phase after a redemption: complete once nothing is left. *)
Definition complete_if_empty (s : DemoSeries) : DemoSeries :=
  if (ptSupplyRaw s =? 0) && (drSupplyRaw s =? 0) && (s_ptPoolRaw s =? 0) && (s_drPoolRaw s =? 0)
  then with_phase complete s else s.

Definition redeem (seriesId : string) (w : WalletId) (side : ClaimSide) (claimRaw : Z) : Op DemoReceipt :=
  requireNotPaused ;;
  pay ← previewRedemption seriesId w side claimRaw;
  s ← requireSeries seriesId;
  c ← get;
  let st := c_state c in
  let balance := claimsFor st w seriesId in
  let remainingPool := match side with pt_side => s_ptPoolRaw s | dr_side => s_drPoolRaw s end in
  ensure (negb (remainingPool <? pay)) INVALID_FIXTURE ;;
  let nextCollateral := collateralOf st w (series_assetId s) + pay in
  lift (assertRaw nextCollateral true) ;;
  update_state (fun st => bump_version
    (set_series seriesId (complete_if_empty (with_redeemed side claimRaw pay s))
      (set_wallet w
        (set_collateral (series_assetId s) nextCollateral
          (set_claims seriesId (side_debit side claimRaw balance) (wallet_of st w))) st))) ;;
  receipt redeem_action seriesId
    [Change (Some w) None (Some seriesId) (side_field side) (- claimRaw);
     Change (Some w) (Some (series_assetId s)) None f_collateral pay;
     Change None None (Some seriesId) f_accounted_collateral (- pay)].

Definition cancel_if_empty (s : DemoSeries) : DemoSeries :=
  if accountedCollateralRaw s =? 0 then with_phase cancelled s else s.

Definition recombine (seriesId : string) (w : WalletId) (claimRaw : Z) : Op DemoReceipt :=
  requireNotPaused ;;
  lift (assertRaw claimRaw false) ;;
  s ← requireSeries seriesId;
  ensure (bool_decide (phase s = open) || bool_decide (phase s = closed)) WRONG_PHASE ;;
  c ← get;
  let st := c_state c in
  let balance := claimsFor st w seriesId in
  ensure (negb ((pt balance <? claimRaw) || (dr balance <? claimRaw))) INSUFFICIENT_BALANCE ;;
  let remainingAccounted := accountedCollateralRaw s - claimRaw in
  let nextCollateral := collateralOf st w (series_assetId s) + claimRaw in
  lift (assertRaw nextCollateral true) ;;
  lift (if 0 <? remainingAccounted then
          match fx_events fx !! series_eventId s with
          | Some event =>
              p ← allocate remainingAccounted (m0 event) (m1 event);
              require (negb (drPoolRaw p =? 0)) INVALID_AMOUNT
          | None => Err JS_RANGE_ERROR (* not reached: series are created for known events *)
          end
        else Ok tt) ;;
  update_state (fun st => bump_version
    (set_series seriesId
      (cancel_if_empty
        (with_backing remainingAccounted (ptSupplyRaw s - claimRaw) (drSupplyRaw s - claimRaw) s))
      (set_wallet w
        (set_collateral (series_assetId s) nextCollateral
          (set_claims seriesId (Claims (pt balance - claimRaw) (dr balance - claimRaw)) (wallet_of st w)))
        st))) ;;
  receipt recombine_action seriesId
    [Change (Some w) None (Some seriesId) f_pt (- claimRaw);
     Change (Some w) None (Some seriesId) f_dr (- claimRaw);
     Change (Some w) (Some (series_assetId s)) None f_collateral claimRaw;
     Change None None (Some seriesId) f_accounted_collateral (- claimRaw)].

Definition setCondition (x : DemoCondition) : Op unit :=
  update_state (fun st => bump_version (set_condition x st)).

Definition reset : Op unit :=
  modify (fun c => {| c_state := c_state c; quotes := ∅; generation := generation c + 1;
                      quoteCounter := quoteCounter c; receiptCounter := receiptCounter c;
                      clock_reads := clock_reads c |}) ;;
  st ← lift makeInitialState;
  modify (with_state st).

(** *** The public surface as one step relation *)

Inductive Command :=
  | CDeposit (assetId amount : string)
  | CQuoteSale (seriesId : string) (drRaw usdcRaw : Z)
  | CAcceptSale (quoteId : string) (reject : bool)
  | CCloseDeposits (seriesId : string)
  | CSettle (seriesId : string)
  | CRedeem (seriesId : string) (w : WalletId) (side : ClaimSide) (claimRaw : Z)
  | CRecombine (seriesId : string) (w : WalletId) (claimRaw : Z)
  | CSetCondition (x : DemoCondition)
  | CReset.

Definition discard {A} (m : Op A) : Op unit := m ;; mret tt.

Definition exec (cmd : Command) : Op unit :=
  match cmd with
  | CDeposit a n => discard (deposit a n)
  | CQuoteSale k d u => discard (quoteSale k d u)
  | CAcceptSale q r => discard (acceptSale q r)
  | CCloseDeposits k => discard (closeDeposits k)
  | CSettle k => discard (settle k)
  | CRedeem k w side n => discard (redeem k w side n)
  | CRecombine k w n => discard (recombine k w n)
  | CSetCondition x => setCondition x
  | CReset => reset
  end.

(** Every state a caller can observe: any sequence of calls, failed ones
    included, from the freshly created client. *)
Inductive reachable : Client -> Prop :=
  | reach_init c : initial_client = Ok c -> reachable c
  | reach_step c cmd : reachable c -> reachable (exec cmd c).2.

Definition run (cmds : list Command) (c : Client) : Client :=
  foldl (fun c cmd => (exec cmd c).2) c cmds.
End client.
