(* ===== verification/DemoLedger.v ===== *)
(** * Rehearsal SDK: correctness of the demo ledger

    The invariant of [DemoClient.Client] and the theorems it gives: failed
    calls change nothing, collateral and cash are conserved, claims are always
    backed, a settled series refines the abstract redemption pools of
    [Payout], and the receipt list explains every balance. *)
From S2P Require Import Prelude Js Payout DemoMoney DemoClient.
Open Scope Z_scope.

(** ** The invariant *)

Section invariant.
Context (fx : Fixtures).

(** Collateral accounted in the series of an asset, if there is one. *)
Definition backing (st : DemoState) (assetId : string) : Z :=
  match fx_eventForAsset fx !! assetId with
  | Some e => from_option accountedCollateralRaw 0 (series st !! e)
  | None => 0
  end.

(** All collateral of an asset: both wallets and the series backing. *)
Definition total_collateral (st : DemoState) (assetId : string) : Z :=
  collateralOf st seller assetId + collateralOf st buyer assetId + backing st assetId.

Definition total_usdc (st : DemoState) : Z := usdc (w_seller st) + usdc (w_buyer st).

Definition total_pt (st : DemoState) (k : string) : Z :=
  pt (claimsFor st seller k) + pt (claimsFor st buyer k).
Definition total_dr (st : DemoState) (k : string) : Z :=
  dr (claimsFor st seller k) + dr (claimsFor st buyer k).

(** The abstract redemption pool each side of a settled series stands for. *)
Definition pt_pool_of (s : DemoSeries) : pool_state :=
  Pool (originalPtPoolRaw s) (originalSupplyRaw s) (cumulativePtBurnedRaw s)
    (originalPtPoolRaw s - s_ptPoolRaw s).
Definition dr_pool_of (s : DemoSeries) : pool_state :=
  Pool (originalDrPoolRaw s) (originalSupplyRaw s) (cumulativeDrBurnedRaw s)
    (originalDrPoolRaw s - s_drPoolRaw s).

Definition unsettled_ok (s : DemoSeries) : Prop :=
  ptSupplyRaw s = accountedCollateralRaw s /\ drSupplyRaw s = accountedCollateralRaw s /\
  cumulativePtBurnedRaw s = 0 /\ cumulativeDrBurnedRaw s = 0.

Definition settled_ok (s : DemoSeries) : Prop :=
  pool_ok (pt_pool_of s) /\ pool_ok (dr_pool_of s) /\
  originalPtPoolRaw s + originalDrPoolRaw s = originalSupplyRaw s /\
  ptSupplyRaw s = originalSupplyRaw s - cumulativePtBurnedRaw s /\
  drSupplyRaw s = originalSupplyRaw s - cumulativeDrBurnedRaw s /\
  accountedCollateralRaw s = s_ptPoolRaw s + s_drPoolRaw s.

Definition drained (s : DemoSeries) : Prop :=
  ptSupplyRaw s = 0 /\ drSupplyRaw s = 0 /\ s_ptPoolRaw s = 0 /\ s_drPoolRaw s = 0.

(** What each phase promises about the numbers of a series. *)
Definition phase_ok (s : DemoSeries) : Prop :=
  match phase s with
  | open | closed => unsettled_ok s /\ 0 < accountedCollateralRaw s
  | cancelled => unsettled_ok s /\ accountedCollateralRaw s = 0
  | settled => settled_ok s /\ ~ drained s
  | complete => settled_ok s /\ drained s
  end.

(** A series and the claims both wallets hold on it. *)
Record series_ok (st : DemoState) (k : string) (s : DemoSeries) : Prop := {
  so_id : series_id s = k /\ series_eventId s = k;
  so_asset : fx_eventForAsset fx !! series_assetId s = Some k;
  so_pt : total_pt st k = ptSupplyRaw s;
  so_dr : total_dr st k = drSupplyRaw s;
  so_phase : phase_ok s;
}.

Record ledger_ok (st0 st : DemoState) : Prop := {
  lo_series k s : series st !! k = Some s -> series_ok st k s;
  lo_none k w : series st !! k = None -> claimsFor st w k = Claims 0 0;
  lo_claims w k : 0 <= pt (claimsFor st w k) /\ 0 <= dr (claimsFor st w k);
  lo_coll w a : 0 <= collateralOf st w a;
  lo_total a : total_collateral st a = total_collateral st0 a;
  lo_bound a : u64 (total_collateral st0 a);
  lo_usdc : 0 <= usdc (w_seller st) /\ 0 <= usdc (w_buyer st) /\
            total_usdc st = total_usdc st0 /\ u64 (total_usdc st0);
}.

(** What validation guarantees about the fixtures of a client. *)
Record fixtures_ok : Prop := {
  fo_event a e : fx_eventForAsset fx !! a = Some e ->
    exists ev asset, fx_events fx !! e = Some ev /\ event_id ev = e /\ event_assetId ev = a /\
      fx_assets fx !! a = Some asset /\ asset_id asset = a /\ eventFixtureId asset = Some e /\
      exists p, allocate 1000000000000 (m0 ev) (m1 ev) = Ok p /\ drPoolRaw p <> 0;
  fo_asset a asset : fx_assets fx !! a = Some asset -> asset_id asset = a;
}.
End invariant.

(** ** Receipts as a journal of balance changes *)

Fixpoint delta_of (p : AmountChange -> bool) (l : list AmountChange) : Z :=
  match l with [] => 0 | c :: l' => (if p c then ch_delta c else 0) + delta_of p l' end.

Definition journal_delta (p : AmountChange -> bool) (rs : list DemoReceipt) : Z :=
  sumZ ((fun r => delta_of p (r_changes r)) <$> rs).

Definition on_collateral (w : WalletId) (a : string) (c : AmountChange) : bool :=
  bool_decide (ch_field c = f_collateral) && bool_decide (ch_wallet c = Some w)
  && bool_decide (ch_asset c = Some a).
Definition on_usdc (w : WalletId) (c : AmountChange) : bool :=
  bool_decide (ch_field c = f_usdc) && bool_decide (ch_wallet c = Some w).
Definition on_claim (f : ChangeField) (w : WalletId) (k : string) (c : AmountChange) : bool :=
  bool_decide (ch_field c = f) && bool_decide (ch_wallet c = Some w)
  && bool_decide (ch_series c = Some k).
Definition on_accounted (k : string) (c : AmountChange) : bool :=
  bool_decide (ch_field c = f_accounted_collateral) && bool_decide (ch_series c = Some k).

Definition accountedOf (st : DemoState) (k : string) : Z :=
  from_option accountedCollateralRaw 0 (series st !! k).

(** Every balance of [st'] is the balance of [st] plus the changes [d] sums up. *)
Record explained_by (d : (AmountChange -> bool) -> Z) (st st' : DemoState) : Prop := {
  ex_coll w a : collateralOf st' w a = collateralOf st w a + d (on_collateral w a);
  ex_usdc w : usdc (wallet_of st' w) = usdc (wallet_of st w) + d (on_usdc w);
  ex_pt w k : pt (claimsFor st' w k) = pt (claimsFor st w k) + d (on_claim f_pt w k);
  ex_dr w k : dr (claimsFor st' w k) = dr (claimsFor st w k) + d (on_claim f_dr w k);
  ex_acc k : accountedOf st' k = accountedOf st k + d (on_accounted k);
}.

(** ** Failed calls *)

Section failures.
Context (fx : Fixtures) (clk : nat -> Z).

Lemma keeps_requireSeries k : keeps c_state (requireSeries k).
Proof. intros c. unfold requireSeries. by case_match. Qed.
Lemma keeps_requireReady : keeps c_state requireReady.
Proof. intros c. unfold requireReady. by case_match. Qed.
Lemma keeps_requireNotPaused : keeps c_state requireNotPaused.
Proof. intros c. unfold requireNotPaused. by case_match. Qed.
Lemma keeps_now : keeps c_state (now clk).
Proof. done. Qed.
Lemma succeeds_receipt a k l : succeeds (receipt clk a k l).
Proof. done. Qed.
Lemma succeeds_update f : succeeds (update_state f).
Proof. done. Qed.

#[local] Hint Resolve keeps_requireSeries keeps_requireReady keeps_requireNotPaused
  keeps_now succeeds_receipt succeeds_update : atomic.

Lemma keeps_previewRedemption k w side n : keeps c_state (previewRedemption k w side n).
Proof.
  unfold previewRedemption.
  repeat first [ solve [eauto with atomic nocore] | apply keeps_bind; [|intros ?] ].
Qed.

Lemma discard_atomic {A} (m : Op A) : atomic c_state m -> atomic c_state (discard m).
Proof.
  intros Hm c e c' [H|(a & s1 & H1 & H2)]%M_bind_Err_inv; [by eapply Hm|done].
Qed.

#[local] Hint Resolve keeps_previewRedemption : atomic.

Lemma quoteSale_keeps k d u : keeps c_state (quoteSale clk k d u).
Proof.
  unfold quoteSale.
  repeat first [ solve [eauto with atomic nocore] | apply keeps_bind; [|intros ?] ]; done.
Qed.

Lemma exec_atomic cmd : atomic c_state (exec fx clk cmd).
Proof.
  destruct cmd; simpl; try apply discard_atomic.
  - unfold deposit. solve_atomic.
  - apply keeps_atomic, quoteSale_keeps.
  - unfold acceptSale. destruct reject; [by apply keeps_atomic; intros c|]. solve_atomic.
  - unfold closeDeposits. solve_atomic.
  - unfold settle. solve_atomic.
  - unfold redeem. solve_atomic.
  - unfold recombine. solve_atomic.
  - unfold setCondition. solve_atomic.
  - unfold reset. apply atomic_bind; [done|intros _]. solve_atomic.
Qed.
End failures.

(** ** Reading the state after an update *)

Section accessors.
Implicit Types (st : DemoState).

Lemma claimsFor_set_series st w k k' s : claimsFor (set_series k s st) w k' = claimsFor st w k'.
Proof. by destruct w. Qed.
Lemma collateralOf_set_series st w a k s :
  collateralOf (set_series k s st) w a = collateralOf st w a.
Proof. by destruct w. Qed.
Lemma claimsFor_bump st w k : claimsFor (bump_version st) w k = claimsFor st w k.
Proof. by destruct w. Qed.
Lemma collateralOf_bump st w a : collateralOf (bump_version st) w a = collateralOf st w a.
Proof. by destruct w. Qed.
Lemma claimsFor_push st w k r : claimsFor (push_receipt r st) w k = claimsFor st w k.
Proof. by destruct w. Qed.
Lemma collateralOf_push st w a r : collateralOf (push_receipt r st) w a = collateralOf st w a.
Proof. by destruct w. Qed.
Lemma wallet_of_set st w w' x :
  wallet_of (set_wallet w x st) w' = if decide (w = w') then x else wallet_of st w'.
Proof. by destruct w, w'. Qed.
Lemma series_set_wallet st w x : series (set_wallet w x st) = series st.
Proof. by destruct w. Qed.
Lemma claimsFor_set_wallet st w w' x k :
  claimsFor (set_wallet w x st) w' k =
    if decide (w = w') then default (Claims 0 0) (claims x !! k) else claimsFor st w' k.
Proof. by destruct w, w'. Qed.
Lemma collateralOf_set_wallet st w w' x a :
  collateralOf (set_wallet w x st) w' a =
    if decide (w = w') then default 0 (collateral x !! a) else collateralOf st w' a.
Proof. by destruct w, w'. Qed.
Lemma wallet_of_bump st w : wallet_of (bump_version st) w = wallet_of st w.
Proof. by destruct w. Qed.
Lemma wallet_of_set_series st w k s : wallet_of (set_series k s st) w = wallet_of st w.
Proof. by destruct w. Qed.
Lemma fold_collateral st w a :
  default 0 (collateral (wallet_of st w) !! a) = collateralOf st w a.
Proof. done. Qed.
Lemma fold_collateral_seller st a : default 0 (collateral (w_seller st) !! a) = collateralOf st seller a.
Proof. done. Qed.
Lemma fold_collateral_buyer st a : default 0 (collateral (w_buyer st) !! a) = collateralOf st buyer a.
Proof. done. Qed.
Lemma fold_claims st w k : default (Claims 0 0) (claims (wallet_of st w) !! k) = claimsFor st w k.
Proof. done. Qed.
Lemma fold_claims_seller st k : default (Claims 0 0) (claims (w_seller st) !! k) = claimsFor st seller k.
Proof. done. Qed.
Lemma fold_claims_buyer st k : default (Claims 0 0) (claims (w_buyer st) !! k) = claimsFor st buyer k.
Proof. done. Qed.
End accessors.

Create Rewrite HintDb demo.
#[export] Hint Rewrite claimsFor_set_series collateralOf_set_series claimsFor_bump
  collateralOf_bump claimsFor_push collateralOf_push series_set_wallet
  claimsFor_set_wallet collateralOf_set_wallet wallet_of_set wallet_of_bump wallet_of_set_series
  fold_collateral fold_collateral_seller fold_collateral_buyer
  fold_claims fold_claims_seller fold_claims_buyer : demo.

(** ** Validated fixtures *)

Section fixtures.
Lemma map_of_snoc {A V} (key : A -> string) (val : A -> V) l a :
  map_of key val (l ++ [a]) = <[key a := val a]> (map_of key val l).
Proof. unfold map_of. by rewrite foldl_app. Qed.

Lemma validate_assets_ok assets byId :
  foldM validate_asset ∅ assets = Ok byId ->
  byId = map_of asset_id id assets /\
  (forall a asset, byId !! a = Some asset -> asset_id asset = a).
Proof.
  apply (foldM_inv validate_asset (fun l m => m = map_of asset_id id l /\
    (forall a asset, m !! a = Some asset -> asset_id asset = a))); [done|].
  intros l m asset m' [-> Hid] Hv. unfold validate_asset in Hv. minv Hv.
  rewrite map_of_snoc. split; [done|]. intros k x.
  rewrite lookup_insert. destruct (decide _); [by intros [= <-]|apply Hid].
Qed.

Lemma validate_events_ok byId evs r :
  foldM (validate_event byId) (∅, ∅) evs = Ok r ->
  r.1 = map_of event_id id evs /\
  (forall a e, map_of event_assetId event_id evs !! a = Some e ->
    exists ev asset, r.1 !! e = Some ev /\ event_id ev = e /\ event_assetId ev = a /\
      byId !! a = Some asset /\ eventFixtureId asset = Some e /\
      exists p, allocate 1000000000000 (m0 ev) (m1 ev) = Ok p /\ drPoolRaw p <> 0).
Proof.
  apply (foldM_inv (validate_event byId) (fun l (r : gmap string EventDescriptor * gmap string Z) =>
    r.1 = map_of event_id id l /\
    (forall a e, map_of event_assetId event_id l !! a = Some e ->
      exists ev asset, r.1 !! e = Some ev /\ event_id ev = e /\ event_assetId ev = a /\
        byId !! a = Some asset /\ eventFixtureId asset = Some e /\
        exists p, allocate 1000000000000 (m0 ev) (m1 ev) = Ok p /\ drPoolRaw p <> 0)));
    [done|].
  intros l [em cm] ev r' [Hem IH] Hv. simpl in Hem, IH. unfold validate_event in Hv.
  destruct (bool_decide (event_id ev = "") || has em (event_id ev)) eqn:Hfresh; [done|].
  destruct (byId !! event_assetId ev) as [asset|] eqn:Has; [|done].
  minv Hv. breflect. cbn [fst]. rewrite !map_of_snoc. split; [by rewrite <- Hem|].
  intros k e. rewrite lookup_insert. destruct (decide _) as [Ha|Ha].
  - intros [= <-]. subst k. exists ev, asset. rewrite lookup_insert_eq. eauto 10.
  - intros He. destruct (IH _ _ He) as (ev' & asset' & Hev & ?). exists ev', asset'.
    rewrite lookup_insert_ne; [done|]. intros Heq.
    match goal with H : has em (event_id ev) = false |- _ => unfold has in H; rewrite Heq, Hev in H; done end.
Qed.

Lemma make_fixtures_ok assets events fx : make_fixtures assets events = Ok fx -> fixtures_ok fx.
Proof.
  unfold make_fixtures, validateFixtures. intros H. minv H.
  found validate_assets_ok as [-> Hid].
  found validate_events_ok as [Hem Hefa]. simpl in *. subst g.
  split; simpl; [|done].
  intros k e He. destruct (Hefa k e He) as (ev & asset & H1 & H2 & H3 & H4 & H5 & H6).
  exists ev, asset. eauto 10.
Qed.
End fixtures.

(** ** The invariant holds initially *)

Section initial.
Context (fx : Fixtures).

Lemma initial_collateral_u64 asset n : initial_collateral fx asset = Ok n -> u64 n.
Proof.
  unfold initial_collateral. intros H. repeat case_match; simplify_eq; [|done].
  by apply toRawAmount_floor in H as (? & ? & ? & ? & ? & ? & ?).
Qed.

Lemma initial_ledger st0 : makeInitialState fx = Ok st0 -> ledger_ok fx st0 st0.
Proof.
  unfold makeInitialState. intros H. minv H.
  assert (forall k n, a !! k = Some n -> u64 n) as Hu.
  { refine (foldM_inv _ (fun _ m => forall k n, m !! k = Some n -> u64 n) _ _ _ _ _ R); [done|].
    intros l m [k asset] m' IH Hs k' n. minv Hs. rewrite lookup_insert.
    destruct (decide _); [|apply IH]. intros [= <-]. by eapply initial_collateral_u64. }
  assert (a0 = 1000000000) as -> by (vm_compute in R1; congruence).
  assert (forall k, u64 (default 0 (a !! k))) as Hd.
  { intros k. destruct (a !! k) eqn:E; [by eapply Hu|done]. }
  assert (forall k, default 0 ((const 0 <$> fx_assets fx) !! k) = 0) as Hz.
  { intros k. rewrite lookup_fmap. by destruct (fx_assets fx !! k). }
  split; simpl; try done; try lia.
  - intros k w _. unfold claimsFor. destruct w; simpl; by rewrite lookup_empty.
  - intros w k. unfold claimsFor. destruct w; simpl; rewrite lookup_empty; simpl; lia.
  - intros w k. unfold collateralOf. destruct w; simpl; [apply Hd|by rewrite Hz].
  - intros k. unfold total_collateral, collateralOf, backing. simpl. rewrite Hz.
    specialize (Hd k). unfold u64 in *. destruct (fx_eventForAsset fx !! k); simpl; rewrite ?lookup_empty; simpl; lia.
Qed.
End initial.

(** ** One update of one series *)

Section update.
Context (fx : Fixtures) (Hfx : fixtures_ok fx) (st0 : DemoState).

Lemma eventForAsset_inj a a' e :
  fx_eventForAsset fx !! a = Some e -> fx_eventForAsset fx !! a' = Some e -> a = a'.
Proof.
  intros H H'. destruct (fo_event fx Hfx _ _ H) as (ev & ? & He & _ & <- & _).
  destruct (fo_event fx Hfx _ _ H') as (ev' & ? & He' & _ & <- & _). congruence.
Qed.

(** An update that touches only series [k] (of asset [a]) and the wallets'
    entries for it keeps the ledger sound when the touched entries add up. *)
Lemma ledger_update st st' k a s' :
  ledger_ok fx st0 st ->
  fx_eventForAsset fx !! a = Some k ->
  (forall k', k' <> k -> series st' !! k' = series st !! k') ->
  series st' !! k = Some s' ->
  (forall w k', k' <> k -> claimsFor st' w k' = claimsFor st w k') ->
  (forall w a', a' <> a -> collateralOf st' w a' = collateralOf st w a') ->
  series_id s' = k -> series_eventId s' = k -> series_assetId s' = a ->
  total_pt st' k = ptSupplyRaw s' -> total_dr st' k = drSupplyRaw s' -> phase_ok s' ->
  (forall w, 0 <= pt (claimsFor st' w k) /\ 0 <= dr (claimsFor st' w k)) ->
  (forall w, 0 <= collateralOf st' w a) ->
  collateralOf st' seller a + collateralOf st' buyer a + accountedCollateralRaw s'
    = total_collateral fx st a ->
  0 <= usdc (w_seller st') /\ 0 <= usdc (w_buyer st') /\ total_usdc st' = total_usdc st ->
  ledger_ok fx st0 st'.
Proof.
  intros [Hser Hnone Hcl Hco Htot Hbd Hus] Ha Hne Hs' Hclne Hcone Hid Heid Haid Hpt Hdr Hph Hclk Hcok Hsum Hu.
  split.
  - intros k' s Hk'. destruct (decide (k' = k)) as [->|Hk].
    + rewrite Hs' in Hk'. injection Hk' as <-. by split; rewrite ?Haid.
    + rewrite Hne in Hk' by done. destruct (Hser _ _ Hk') as [? ? Hp Hd ?].
      split; [done|done| | |done]; unfold total_pt, total_dr in *; by rewrite !Hclne.
  - intros k' w. destruct (decide (k' = k)) as [->|Hk]; [congruence|].
    rewrite Hne, Hclne by done. apply Hnone.
  - intros w k'. destruct (decide (k' = k)) as [->|Hk]; [done|]. by rewrite Hclne.
  - intros w a'. destruct (decide (a' = a)) as [->|Hk]; [done|]. by rewrite Hcone.
  - intros a'. rewrite <- Htot. destruct (decide (a' = a)) as [->|Hk].
    + rewrite <- Hsum. unfold total_collateral, backing. by rewrite Ha, Hs'.
    + unfold total_collateral, backing. rewrite !Hcone by done.
      destruct (fx_eventForAsset fx !! a') as [e|] eqn:Ee; [|done].
      rewrite Hne; [done|]. intros ->. by apply Hk, (eventForAsset_inj _ _ k).
  - done.
  - destruct Hus as (? & ? & Ht & ?), Hu as (? & ? & Hu'). by rewrite Hu'.
Qed.
End update.

(** ** Reading the parts of a successful operation *)

Section decode.
Context (clk : nat -> Z).

Lemma requireReady_Ok c u c' : requireReady c = (Ok u, c') -> c' = c.
Proof. unfold requireReady. case_match; congruence. Qed.
Lemma requireNotPaused_Ok c u c' : requireNotPaused c = (Ok u, c') -> c' = c.
Proof. unfold requireNotPaused. case_match; congruence. Qed.
Lemma requireSeries_Ok k c s c' :
  requireSeries k c = (Ok s, c') -> c' = c /\ series (c_state c) !! k = Some s.
Proof. unfold requireSeries. case_match; intros; simplify_eq; done. Qed.

Lemma receipt_Ok act k l c r c' :
  receipt clk act k l c = (Ok r, c') ->
  c_state c' = push_receipt r (c_state c) /\ r_changes r = l /\ quotes c' = quotes c /\
  generation c' = generation c.
Proof. intros [= <- <-]. done. Qed.
Lemma update_state_Ok f c u c' :
  update_state f c = (Ok u, c') -> c_state c' = f (c_state c) /\ quotes c' = quotes c /\
  generation c' = generation c.
Proof. intros [= _ <-]. done. Qed.
End decode.

(** Reads the parts of a successful operation. *)
Ltac op_inv H :=
  minv H;
  repeat first
    [ found requireReady_Ok as -> | found requireNotPaused_Ok as ->
    | found requireSeries_Ok as [-> ?]
    | found receipt_Ok as (? & ? & ? & ?)
    | found update_state_Ok as (? & ? & ?) ].

(** ** Every operation preserves the invariant *)

Section preservation.
Context (fx : Fixtures) (Hfx : fixtures_ok fx) (clk : nat -> Z) (st0 : DemoState).
Abbreviation inv := (ledger_ok fx st0).

(** The version, the condition and the receipts are not part of the invariant. *)
Lemma ledger_frame st st' :
  inv st -> w_seller st' = w_seller st -> w_buyer st' = w_buyer st -> series st' = series st ->
  inv st'.
Proof.
  destruct st, st'. simpl. intros [H1 H2 H3 H4 H5 H6 H7] -> -> ->.
  split; [|exact H2|exact H3|exact H4|exact H5|exact H6|exact H7].
  intros k s Hk. destruct (H1 k s Hk). by split.
Qed.

Lemma ledger_push_bump st r : inv st -> inv (push_receipt r (bump_version st)).
Proof. intros. by eapply ledger_frame. Qed.

Lemma requireAssetEvent_Ok a asset ev :
  requireAssetEvent fx a = Ok (asset, ev) ->
  fx_assets fx !! a = Some asset /\ fx_eventForAsset fx !! a = Some (event_id ev) /\
  fx_events fx !! event_id ev = Some ev /\ event_assetId ev = a.
Proof.
  unfold requireAssetEvent. intros H. repeat case_match; simplify_eq.
  match goal with He : fx_eventForAsset fx !! a = Some ?e |- _ =>
    destruct (fo_event fx Hfx a e He) as (ev' & asset' & ? & ? & ? & ?) end.
  simplify_eq. done.
Qed.

Lemma preview_Ok a n p :
  preview fx a n = Ok p ->
  exists asset ev, requireAssetEvent fx a = Ok (asset, ev) /\
    ap_eventId p = event_id ev /\ u64 (ap_collateralRaw p).
Proof.
  unfold preview. intros H. minv H.
  found toRawAmount_floor as (? & ? & ? & ? & ? & ? & ?).
  eauto.
Qed.

(** What a successful state change owes: a sound ledger and a receipt that
    accounts for every balance. *)
Definition good_step (st st' : DemoState) (r : DemoReceipt) : Prop :=
  inv st' /\ receipts st' = receipts st ++ [r] /\
  explained_by (fun p => delta_of p (r_changes r)) st st'.

Lemma explained_push st st' r d :
  explained_by d st (bump_version st') -> explained_by d st (push_receipt r (bump_version st')).
Proof. intros [H1 H2 H3 H4 H5]. split; [exact H1|exact H2|exact H3|exact H4|exact H5]. Qed.

(** Compares balances before and after an update, entry by entry. *)
Ltac balances :=
  unfold accountedOf, on_collateral, on_usdc, on_claim, on_accounted;
  repeat first
    [ progress autorewrite with demo | progress simpl
    | rewrite lookup_insert
    | match goal with
      | |- context [decide ?P] => destruct (decide P); simplify_eq
      | |- context [bool_decide ?P] => destruct (decide P);
          [rewrite (bool_decide_true P) by done|rewrite (bool_decide_false P) by done]; simplify_eq
      end ];
  try done; try lia.

Lemma backing_eq st a k : fx_eventForAsset fx !! a = Some k -> backing fx st a = accountedOf st k.
Proof. intros H. unfold backing, accountedOf. by rewrite H. Qed.

(** The series a deposit adds to: the open one, or the one it creates. *)
Lemma open_or_new st a k :
  inv st -> fx_eventForAsset fx !! a = Some k ->
  match series st !! k with Some s => bool_decide (phase s = open) | None => true end = true ->
  let s := default (new_series k a) (series st !! k) in
  series_id s = k /\ series_eventId s = k /\ series_assetId s = a /\ phase s = open /\
  unsettled_ok s /\ 0 <= accountedCollateralRaw s /\ accountedOf st k = accountedCollateralRaw s /\
  total_pt st k = ptSupplyRaw s /\ total_dr st k = drSupplyRaw s.
Proof.
  intros Hinv Ha Hph. unfold accountedOf. destruct (series st !! k) as [s|] eqn:Es; simpl.
  - destruct (lo_series _ _ _ Hinv _ _ Es) as [[? ?] Has ? ? Hp].
    apply bool_decide_eq_true in Hph. unfold phase_ok in Hp. rewrite Hph in Hp. destruct Hp.
    repeat split; try done; try lia; try apply H1. by eapply eventForAsset_inj.
  - unfold total_pt, total_dr. rewrite !(lo_none _ _ _ Hinv) by done.
    repeat split; done.
Qed.

Lemma phase_ok_unsettled s :
  phase s = open \/ phase s = closed -> unsettled_ok s -> 0 < accountedCollateralRaw s -> phase_ok s.
Proof. intros [H|H]; unfold phase_ok; by rewrite H. Qed.

Lemma good_step_intro st X r :
  inv X -> receipts X = receipts st ->
  explained_by (fun p => delta_of p (r_changes r)) st (bump_version X) ->
  good_step st (push_receipt r (bump_version X)) r.
Proof.
  intros H1 H2 H3. split; [by apply ledger_push_bump|]. split; [simpl; by rewrite H2|].
  by apply explained_push.
Qed.

#[local] Arguments set_wallet : simpl never.

(** The update the three collateral movements share: series [k] becomes
    [s'], wallet [w] ends with claims [b] on it and [nc] of its asset [a]. *)
Lemma single_wallet_inv st w k a b nc s' :
  inv st -> fx_eventForAsset fx !! a = Some k ->
  series_id s' = k /\ series_eventId s' = k /\ series_assetId s' = a ->
  ptSupplyRaw s' = total_pt st k + pt b - pt (claimsFor st w k) ->
  drSupplyRaw s' = total_dr st k + dr b - dr (claimsFor st w k) ->
  0 <= pt b /\ 0 <= dr b /\ 0 <= nc ->
  nc + accountedCollateralRaw s' = collateralOf st w a + accountedOf st k ->
  phase_ok s' ->
  inv (set_series k s' (set_wallet w (set_collateral a nc (set_claims k b (wallet_of st w))) st)).
Proof.
  intros Hinv Ha (Hid & Heid & Haid) Hpt Hdr (Hb1 & Hb2 & Hnc) Hsum Hph.
  pose proof (lo_claims _ _ _ Hinv) as Hcl. pose proof (lo_coll _ _ _ Hinv) as Hco.
  pose proof (lo_usdc _ _ _ Hinv) as (? & ? & ? & ?).
  unfold total_pt, total_dr, accountedOf in *.
  eapply (ledger_update fx Hfx st0 st _ k a); [done|done| |apply lookup_insert_eq|..]; try done.
  - intros k' Hk. destruct w; simpl; by rewrite lookup_insert_ne.
  - intros w' k' Hk. balances.
  - intros w' a' Hk. balances.
  - unfold total_pt. destruct w; balances.
  - unfold total_dr. destruct w; balances.
  - intros w'. specialize (Hcl w' k). balances.
  - intros w'. specialize (Hco w' a). balances.
  - unfold total_collateral. rewrite (backing_eq st a k) by done. destruct w; balances.
  - unfold total_usdc. destruct w; simpl; done.
Qed.

Lemma deposit_preserves a n c r c' :
  inv (c_state c) -> deposit fx clk a n c = (Ok r, c') -> good_step (c_state c) (c_state c') r.
Proof.
  intros Hinv H. unfold deposit in H. op_inv H.
  found preview_Ok as (asset & ev & Hae & Hek & Hraw).
  match goal with H1 : requireAssetEvent fx a = Ok (?x, ?e) |- _ =>
    lazymatch e with ev => fail | _ => rewrite Hae in H1; injection H1 as <- <- end end.
  apply requireAssetEvent_Ok in Hae as (Has & Hea & Hev & _).
  match goal with p : AllocationPreview |- _ => 
    rewrite Hek in *; set (raw := ap_collateralRaw p) in *; clearbody raw; clear p Hek end.
  set (k := event_id ev) in *. set (st := c_state c) in *.
  match goal with H : c_state c' = _ |- _ => rewrite H; clear H end.
  match goal with H : c_state _ = _ |- _ => rewrite H; clear H end.
  match goal with H : r_changes r = _ |- _ => rename H into Hr end. breflect.

  pose proof (open_or_new st a k Hinv Hea ltac:(done)) as Hs. cbv zeta in Hs.
  fold (accountedOf st k) in *.
  set (s := default (new_series k a) (series st !! k)) in *. clearbody s.
  destruct Hs as (Hid & Heid & Haid & Hph & (Hp1 & Hp2 & Hp3 & Hp4) & Hacc & HaccS & Htp & Htd).
  pose proof (lo_claims _ _ _ Hinv seller k) as Hcl. unfold u64 in Hraw.
  apply good_step_intro; [|done|rewrite Hr; split; intros; balances].
  apply (single_wallet_inv st seller k a (Claims _ _)); simpl;
    rewrite ?HaccS, ?Htp, ?Htd; try done; try lia.
  apply phase_ok_unsettled; [by left|repeat split; simpl; lia|simpl; lia].
Qed.
Lemma with_quotes_state q c : c_state (with_quotes q c) = c_state c.
Proof. done. Qed.

Lemma acceptSale_preserves q b c r c' :
  inv (c_state c) -> acceptSale clk q b c = (Ok r, c') -> good_step (c_state c) (c_state c') r.
Proof.
  intros Hinv H. unfold acceptSale in H. destruct b; [by minv H|]. op_inv H.
  match goal with H : now clk c = _ |- _ => injection H as <- <- end. simpl in *.
  repeat match goal with H : c_state ?x = _ |- context [c_state ?x] => rewrite H; clear H; simpl end.
  match goal with H : r_changes r = _ |- _ => rename H into Hr end. breflect.
  match goal with x : SaleQuote |- _ => rename x into quote end.
  set (k := q_seriesId quote) in *. set (st := c_state c) in *.
  match goal with H : series _ !! k = Some ?x |- _ => rename H into Hs; rename x into s end.
  repeat found assertRaw_Ok as [[? ?] _].
  destruct (lo_series _ _ _ Hinv _ _ Hs) as [[? ?] Hea Htp Htd Hph].
  pose proof (lo_claims _ _ _ Hinv) as Hcl. pose proof (lo_coll _ _ _ Hinv) as Hco.
  unfold total_pt, total_dr in *. pose proof (lo_usdc _ _ _ Hinv) as (? & ? & ? & ?).
  apply good_step_intro; [|done|rewrite Hr; split; intros; balances].
  - eapply (ledger_update fx Hfx st0 st _ k (series_assetId s)); [done|done|done|exact Hs|..]; try done.
    + intros. balances.
    + intros. balances.
    + unfold total_pt. balances.
    + unfold total_dr. balances.
    + intros w. pose proof (Hcl seller k). pose proof (Hcl buyer k). balances.
    + intros w. specialize (Hco w (series_assetId s)). balances.
    + unfold total_collateral. rewrite (backing_eq st _ k) by done.
      unfold accountedOf. rewrite Hs. balances.
    + unfold total_usdc. unfold set_wallet. simpl. lia.
Qed.

(** Names the parts of a decoded operation: the receipt's changes [Hr], the
    series [s] with its lookup [Hs], and the facts the invariant gives. *)
Ltac op_facts Hinv :=
  repeat match goal with H : c_state ?x = _ |- context [c_state ?x] => rewrite H; clear H; simpl end;
  match goal with H : r_changes _ = _ |- _ => rename H into Hr end; breflect;
  match goal with H : series _ !! _ = Some ?x |- _ => 
    destruct (lo_series _ _ _ Hinv _ _ H) as [[? ?] Hea Htp Htd Hph];
    rename H into Hs; rename x into s end;
  pose proof (lo_claims _ _ _ Hinv) as Hcl; pose proof (lo_coll _ _ _ Hinv) as Hco;
  unfold total_pt, total_dr in *;
  pose proof (lo_usdc _ _ _ Hinv) as (? & ? & ? & ?).

(** Closes the entry-by-entry side conditions of [ledger_update] for an
    update of series [s] with key [k] and the entries of the wallets. *)
Ltac update_entries st k s :=
  eapply (ledger_update fx Hfx st0 st _ k (series_assetId s));
    [done|done| |apply lookup_insert_eq|..]; try done;
  [ intros; balances | try (intros; balances).. ].

Lemma phase_ok_open_closed s :
  phase_ok s -> phase s = open \/ phase s = closed ->
  unsettled_ok s /\ 0 < accountedCollateralRaw s.
Proof. unfold phase_ok. by intros H [Hp|Hp]; rewrite Hp in H. Qed.

(** Fields that the closing phase changes do not touch. *)
Lemma cancel_fields s :
  series_id (cancel_if_empty s) = series_id s /\ series_eventId (cancel_if_empty s) = series_eventId s /\
  series_assetId (cancel_if_empty s) = series_assetId s /\
  ptSupplyRaw (cancel_if_empty s) = ptSupplyRaw s /\ drSupplyRaw (cancel_if_empty s) = drSupplyRaw s /\
  accountedCollateralRaw (cancel_if_empty s) = accountedCollateralRaw s.
Proof. unfold cancel_if_empty. by case_match. Qed.
Lemma complete_fields s :
  series_id (complete_if_empty s) = series_id s /\
  series_eventId (complete_if_empty s) = series_eventId s /\
  series_assetId (complete_if_empty s) = series_assetId s /\
  ptSupplyRaw (complete_if_empty s) = ptSupplyRaw s /\ drSupplyRaw (complete_if_empty s) = drSupplyRaw s /\
  accountedCollateralRaw (complete_if_empty s) = accountedCollateralRaw s.
Proof. unfold complete_if_empty. by case_match. Qed.
Lemma redeemed_fields side claim pay s :
  let s' := with_redeemed side claim pay s in
  series_id s' = series_id s /\ series_eventId s' = series_eventId s /\
  series_assetId s' = series_assetId s /\
  ptSupplyRaw s' = ptSupplyRaw s - (match side with pt_side => claim | dr_side => 0 end) /\
  drSupplyRaw s' = drSupplyRaw s - (match side with pt_side => 0 | dr_side => claim end) /\
  accountedCollateralRaw s' = accountedCollateralRaw s - pay.
Proof. destruct side; simpl; repeat split; lia. Qed.

Lemma total_split st a k s :
  fx_eventForAsset fx !! a = Some k -> series st !! k = Some s ->
  total_collateral fx st a =
    collateralOf st seller a + collateralOf st buyer a + accountedCollateralRaw s.
Proof.
  intros H Hs. unfold total_collateral. rewrite (backing_eq _ _ k) by done.
  unfold accountedOf. by rewrite Hs.
Qed.

Lemma settled_intro s p :
  0 < accountedCollateralRaw s -> unsettled_ok s ->
  0 <= drPoolRaw p <= accountedCollateralRaw s ->
  ptPoolRaw p = accountedCollateralRaw s - drPoolRaw p ->
  phase_ok (with_phase settled (with_frozen_pools (accountedCollateralRaw s) p s)).
Proof.
  intros Hpos (Hp & Hd & Hcp & Hcd) Hdr Hpt.
  unfold phase_ok, settled_ok, drained, pool_ok, pt_pool_of, dr_pool_of. simpl.
  rewrite Hcp, Hcd, !floor_share_0 by lia. lia.
Qed.

(** Burning claims on one side of a settled series is a step of the abstract
    pool of that side, and leaves the other one alone. *)
Lemma redeemed_phase_ok s side claim pay :
  phase s = settled -> settled_ok s -> 0 < claim ->
  claim <= match side with pt_side => ptSupplyRaw s | dr_side => drSupplyRaw s end ->
  pay = (match side with
         | pt_side => payout (originalPtPoolRaw s) (originalSupplyRaw s) (cumulativePtBurnedRaw s) claim
         | dr_side => payout (originalDrPoolRaw s) (originalSupplyRaw s) (cumulativeDrBurnedRaw s) claim
         end) ->
  phase_ok (complete_if_empty (with_redeemed side claim pay s)).
Proof.
  intros Hph (Hpt & Hdr & Hsum & Hps & Hds & Hacc) Hcl Hle Hpay.
  assert (settled_ok (with_redeemed side claim pay s)) as Hs.
  { unfold settled_ok. destruct side; simpl in *.
    - split; [|split; [exact Hdr|simpl; lia]].
      pose proof (pool_redeem_ok _ claim Hpt ltac:(lia)) as H. simpl in H.
      specialize (H ltac:(lia)). rewrite Hpay. destruct H as (? & ? & ? & H).
      repeat split; simpl in *; try lia. 
    - split; [exact Hpt|]. split; [|simpl; lia].
      pose proof (pool_redeem_ok _ claim Hdr ltac:(lia)) as H. simpl in H.
      specialize (H ltac:(lia)). rewrite Hpay. destruct H as (? & ? & ? & H).
      repeat split; simpl in *; try lia. }
  unfold complete_if_empty.
  destruct ((ptSupplyRaw _ =? 0) && _ && _ && _) eqn:E; breflect.
  - split; [|done]. destruct Hs as (? & ? & ?). split; [done|]. by split.
  - unfold phase_ok. replace (phase (with_redeemed side claim pay s)) with settled by (by destruct side).
    split; [done|]. intros (H1 & H2 & H3 & H4). by rewrite H1, H2, H3, H4 in E.
Qed.

Lemma recombined_phase_ok s claim :
  phase s = open \/ phase s = closed -> unsettled_ok s ->
  0 <= accountedCollateralRaw s - claim ->
  phase_ok (cancel_if_empty (with_backing (accountedCollateralRaw s - claim)
    (ptSupplyRaw s - claim) (drSupplyRaw s - claim) s)).
Proof.
  intros Hph (Hp & Hd & Hcp & Hcd) Hle. unfold cancel_if_empty. simpl.
  destruct (_ =? 0) eqn:E; breflect.
  - unfold phase_ok, unsettled_ok. simpl. lia.
  - apply phase_ok_unsettled; [by destruct Hph; [left|right]| |simpl; lia].
    unfold unsettled_ok. simpl. lia.
Qed.

Lemma closeDeposits_preserves k c r c' :
  inv (c_state c) -> closeDeposits clk k c = (Ok r, c') -> good_step (c_state c) (c_state c') r.
Proof.
  intros Hinv H. unfold closeDeposits in H. op_inv H. op_facts Hinv.
  destruct (phase_ok_open_closed s) as [Hun Hpos]; [done|by left|].
  apply good_step_intro; [|done|rewrite Hr; split; intros; balances].
  - update_entries (c_state c) k s. by rewrite (total_split _ _ k s).
  - rewrite Hs. simpl. lia.
Qed.

Lemma settle_preserves k c r c' :
  inv (c_state c) -> settle fx clk k c = (Ok r, c') -> good_step (c_state c) (c_state c') r.
Proof.
  intros Hinv H. unfold settle in H. op_inv H. op_facts Hinv.
  destruct (phase_ok_open_closed s) as [Hun Hpos]; [done|by right|].
  found allocate_Ok as (? & ? & ? & ? & ? & ? & ? & ? & ?).
  apply good_step_intro; [|done|rewrite Hr; split; intros; balances].
  - update_entries (c_state c) k s; [|by rewrite (total_split _ _ k s)].
    by apply settled_intro.
  - rewrite Hs. simpl. lia.
Qed.

Lemma recombine_preserves k w n c r c' :
  inv (c_state c) -> recombine fx clk k w n c = (Ok r, c') -> good_step (c_state c) (c_state c') r.
Proof.
  intros Hinv H. unfold recombine in H. op_inv H. op_facts Hinv.
  match goal with H : (bool_decide _ || _) = true |- _ => apply orb_true_iff in H as Hph' end.
  rewrite !bool_decide_eq_true in Hph'.
  destruct (phase_ok_open_closed s) as [Hun Hpos]; [done..|].
  set (s' := with_backing _ _ _ s). destruct (cancel_fields s') as (F1 & F2 & F3 & F4 & F5 & F6).
  pose proof (Hcl seller k). pose proof (Hcl buyer k). destruct Hun as (Hu1 & Hu2 & Hu3).
  assert (0 <= accountedCollateralRaw s - n) by (destruct w; lia).
  repeat found assertRaw_Ok as [[? ?] ?].
  apply good_step_intro; [|by destruct w|rewrite Hr; split; intros; balances; rewrite ?F6, ?Hs; simpl; balances].
  apply single_wallet_inv; rewrite ?F1, ?F2, ?F3, ?F4, ?F5, ?F6; unfold total_pt, total_dr; simpl;
    try done; try lia.
  - unfold accountedOf. rewrite Hs. simpl. lia.
  - by apply recombined_phase_ok.
Qed.

Lemma previewRedemption_Ok k w side n c pay c' :
  previewRedemption k w side n c = (Ok pay, c') ->
  c' = c /\ exists s, series (c_state c) !! k = Some s /\ phase s = settled /\ 0 < n /\
    n <= side_balance side (claimsFor (c_state c) w k) /\ pay <> 0 /\
    pay = match side with
          | pt_side => payout (originalPtPoolRaw s) (originalSupplyRaw s) (cumulativePtBurnedRaw s) n
          | dr_side => payout (originalDrPoolRaw s) (originalSupplyRaw s) (cumulativeDrBurnedRaw s) n
          end.
Proof.
  intros H. unfold previewRedemption in H. op_inv H. breflect. found assertRaw_Ok as [? Hn].
  split; [done|]. eexists. split; [done|]. split; [done|]. split; [by apply Hn|].
  split; [lia|]. split; [done|]. by destruct side.
Qed.

(** A redemption in a settled series passes every remaining check: the pool
    it draws from can pay it. *)
Lemma redemption_fits s side n :
  settled_ok s -> 0 < n ->
  n <= match side with pt_side => ptSupplyRaw s | dr_side => drSupplyRaw s end ->
  let pay := match side with
    | pt_side => payout (originalPtPoolRaw s) (originalSupplyRaw s) (cumulativePtBurnedRaw s) n
    | dr_side => payout (originalDrPoolRaw s) (originalSupplyRaw s) (cumulativeDrBurnedRaw s) n
    end in
  0 <= pay <= match side with pt_side => s_ptPoolRaw s | dr_side => s_drPoolRaw s end.
Proof.
  intros ((Hd & Hp & Hr & Hpp) & (Hd' & Hp' & Hr' & Hpp') & Hsum & Hps & Hds & Hacc) Hn Hle.
  destruct side; simpl in *.
  - split; [apply payout_nonneg; lia|].
    pose proof (payout_le_remaining (originalPtPoolRaw s) (originalSupplyRaw s) Hd Hp
                  (cumulativePtBurnedRaw s) n). lia.
  - split; [apply payout_nonneg; lia|].
    pose proof (payout_le_remaining (originalDrPoolRaw s) (originalSupplyRaw s) Hd' Hp'
                  (cumulativeDrBurnedRaw s) n). lia.
Qed.

Lemma redeem_preserves k w side n c r c' :
  inv (c_state c) -> redeem clk k w side n c = (Ok r, c') -> good_step (c_state c) (c_state c') r.
Proof.
  intros Hinv H. unfold redeem in H. op_inv H.
  found previewRedemption_Ok as (-> & sx & Hsx & Hph' & Hn & Hbal & Hpay0 & Hpay).
  op_facts Hinv. assert (sx = s) as -> by congruence.
  match type of Hpay with ?p = _ => rename p into pay end.
  destruct (complete_fields (with_redeemed side n pay s)) as (F1 & F2 & F3 & F4 & F5 & F6).
  destruct (redeemed_fields side n pay s) as (G1 & G2 & G3 & G4 & G5 & G6).
  assert (settled_ok s) as Hset by (unfold phase_ok in Hph; rewrite Hph' in Hph; apply Hph).
  pose proof (Hcl seller k). pose proof (Hcl buyer k). repeat found assertRaw_Ok as [[? ?] ?].
  assert (n <= match side with pt_side => ptSupplyRaw s | dr_side => drSupplyRaw s end) as Hle
    by (destruct side, w; simpl in *; lia).
  assert (phase_ok (complete_if_empty (with_redeemed side n pay s))) as Hph2
    by by apply redeemed_phase_ok.
  rewrite G1 in F1. rewrite G2 in F2. rewrite G3 in F3. rewrite G4 in F4. rewrite G5 in F5.
  rewrite G6 in F6. clear G1 G2 G3 G4 G5 G6.
  set (s' := complete_if_empty _) in *. clearbody s'.
  apply good_step_intro; [|by destruct w|rewrite Hr; split; intros;
    destruct side; balances; rewrite ?F6, ?Hsx; simpl; balances; rewrite ?Hsx; simpl; lia].
  apply single_wallet_inv; rewrite ?F1, ?F2, ?F3, ?F4, ?F5, ?F6; unfold total_pt, total_dr;
    try done; try (destruct side; simpl in *; lia).
  - destruct side; simpl in *; specialize (Hcl w k); lia.
  - unfold accountedOf. rewrite Hs. simpl. lia.
Qed.

(** The three commands that issue no receipt, and the general step. *)
Definition receipted (cmd : Command) : bool :=
  match cmd with CQuoteSale _ _ _ | CSetCondition _ | CReset => false | _ => true end.

Lemma exec_receipted cmd c c' u :
  receipted cmd = true -> inv (c_state c) -> exec fx clk cmd c = (Ok u, c') ->
  exists r, good_step (c_state c) (c_state c') r.
Proof.
  intros Hr Hinv H. destruct cmd; try done; simpl in H; unfold discard in H; minv H.
  - eexists. by eapply deposit_preserves.
  - eexists. by eapply acceptSale_preserves.
  - eexists. by eapply closeDeposits_preserves.
  - eexists. by eapply settle_preserves.
  - eexists. by eapply redeem_preserves.
  - eexists. by eapply recombine_preserves.
Qed.

Lemma exec_unreceipted cmd c c' u :
  receipted cmd = false -> exec fx clk cmd c = (Ok u, c') ->
  (w_seller (c_state c') = w_seller (c_state c) /\ w_buyer (c_state c') = w_buyer (c_state c) /\
   series (c_state c') = series (c_state c) /\ receipts (c_state c') = receipts (c_state c)) \/
  makeInitialState fx = Ok (c_state c').
Proof.
  intros Hr H. destruct cmd; try done; simpl in H.
  - left. pose proof (quoteSale_keeps clk seriesId drRaw usdcRaw c) as Hk.
    unfold discard in H. minv H.
    match goal with H : quoteSale _ _ _ _ _ = _ |- _ => rewrite H in Hk end. simpl in Hk. by rewrite Hk.
  - left. unfold setCondition in H. found update_state_Ok as (-> & _). done.
  - right. unfold reset in H. minv H. done.
Qed.
End preservation.

(** ** Reachable states *)

Section reachable.
Context (assets : list AssetDescriptor) (events : list EventDescriptor).
Context (fx : Fixtures) (Hmk : make_fixtures assets events = Ok fx) (clk : nat -> Z).
Context (st0 : DemoState) (Hst0 : makeInitialState fx = Ok st0).

Lemma explained_refl st d : (forall p, d p = 0) -> explained_by d st st.
Proof. intros Hd. split; intros; rewrite Hd; lia. Qed.

Lemma journal_snoc p rs r : journal_delta p (rs ++ [r]) = journal_delta p rs + delta_of p (r_changes r).
Proof. unfold journal_delta. rewrite fmap_app, sumZ_app. simpl. lia. Qed.

Lemma explained_step st st' r :
  explained_by (fun p => journal_delta p (receipts st)) st0 st ->
  receipts st' = receipts st ++ [r] ->
  explained_by (fun p => delta_of p (r_changes r)) st st' ->
  explained_by (fun p => journal_delta p (receipts st')) st0 st'.
Proof.
  intros [A1 A2 A3 A4 A5] Hr [B1 B2 B3 B4 B5].
  split; intros; rewrite Hr, journal_snoc; rewrite ?B1, ?B2, ?B3, ?B4, ?B5, ?A1, ?A2, ?A3, ?A4, ?A5; lia.
Qed.

Lemma reachable_inv c :
  reachable fx clk c ->
  ledger_ok fx st0 (c_state c) /\
  explained_by (fun p => journal_delta p (receipts (c_state c))) st0 (c_state c).
Proof.
  pose proof (make_fixtures_ok _ _ _ Hmk) as Hfx.
  assert (ledger_ok fx st0 st0 /\ explained_by (fun p => journal_delta p (receipts st0)) st0 st0) as H0.
  { split; [by apply initial_ledger|]. apply explained_refl. intros p.
    unfold makeInitialState in Hst0. pose proof Hst0 as Hi. minv Hi. done. }
  induction 1 as [c Hc|c cmd Hreach [IH1 IH2]].
  - unfold initial_client in Hc. rewrite Hst0 in Hc. injection Hc as <-. done.
  - destruct (exec fx clk cmd c) as [[u|e] c'] eqn:E; simpl.
    + destruct (receipted cmd) eqn:Er.
      * destruct (exec_receipted fx Hfx clk st0 cmd c c' u Er IH1 E) as (r & Hi & Hr & Hx).
        split; [done|]. by eapply explained_step.
      * destruct (exec_unreceipted fx clk cmd c c' u Er E) as [(Hs & Hb & Hse & Hrc)|Hi].
        -- split; [by eapply ledger_frame|]. rewrite Hrc. destruct (c_state c), (c_state c').
           simpl in *. subst. destruct IH2 as [A1 A2 A3 A4 A5].
           split; [exact A1|exact A2|exact A3|exact A4|exact A5].
        -- rewrite Hst0 in Hi. injection Hi as <-. done.
    + pose proof (exec_atomic fx clk cmd _ _ _ E) as ->. done.
Qed.
End reachable.
