(* ===== verification/DemoProps.v ===== *)
(** * Rehearsal SDK: the theorems

    What the demo client of [packages/sdk/src/index.ts] guarantees in every
    state a caller can reach, with a concrete run as the witness. *)
From S2P Require Import Prelude Js Payout DemoMoney DemoClient DemoLedger.
Open Scope Z_scope.

(** ** A concrete run: one asset, one dividend of a quarter *)

Definition ex_asset : AssetDescriptor :=
  {| asset_id := "xstocks:M"; issuerId := "xstocks"; mint := "M"; decimals := 2;
     effectiveMultiplier := "1.0"; eventFixtureId := Some "ev" |}.
Definition ex_event : EventDescriptor :=
  {| event_id := "ev"; event_assetId := "xstocks:M"; kind := "cash_dividend";
     m0 := "1"; m1 := "1.25"; sourceUrls := ["u"]; evidencePaths := ["p"];
     sourceDigest := "d"; finality := "trusted_frozen_replay" |}.
Definition ex_fx : Fixtures :=
  match make_fixtures [ex_asset] [ex_event] with
  | Ok fx => fx
  | Err _ => {| fx_assets := ∅; fx_events := ∅; fx_eventForAsset := ∅ |}
  end.
Definition ex_clock (n : nat) : Z := 1000.
Definition ex_st0 : DemoState :=
  match makeInitialState ex_fx with
  | Ok st => st
  | Err _ => State 0 ready empty_wallet empty_wallet ∅ []
  end.
Definition ex_c0 : Client :=
  {| c_state := ex_st0; quotes := ∅; generation := 1; quoteCounter := 0;
     receiptCounter := 0; clock_reads := 0 |}.
Definition ex_run (cmds : list Command) : Client := run ex_fx ex_clock cmds ex_c0.
(** Deposit 10.01, sell 4 DR, close and settle the series. *)
Definition ex_settled : Client :=
  ex_run [CDeposit "xstocks:M" "10.01"; CQuoteSale "ev" 400 5000000;
          CAcceptSale "quote-1-1" false; CCloseDeposits "ev"; CSettle "ev"].
(** Then everybody redeems everything. *)
Definition ex_complete : Client :=
  run ex_fx ex_clock [CRedeem "ev" seller pt_side 1001; CRedeem "ev" seller dr_side 601;
                      CRedeem "ev" buyer dr_side 400] ex_settled.

(** The phases a series may move through. *)
Inductive phase_step : SeriesPhase -> SeriesPhase -> Prop :=
  | ps_same p : phase_step p p
  | ps_close : phase_step open closed
  | ps_cancel_open : phase_step open cancelled
  | ps_cancel_closed : phase_step closed cancelled
  | ps_settle : phase_step closed settled
  | ps_complete : phase_step settled complete.

Section helpers.
Lemma reachable_run fx clk cmds c : reachable fx clk c -> reachable fx clk (run fx clk cmds c).
Proof.
  revert c. induction cmds as [|cmd cmds IH]; intros c Hc; [done|].
  simpl. apply IH. by apply reach_step.
Qed.

Lemma ex_c0_reachable : reachable ex_fx ex_clock ex_c0.
Proof. apply reach_init. vm_compute. reflexivity. Qed.
Lemma ex_settled_reachable : reachable ex_fx ex_clock ex_settled.
Proof. apply reachable_run, ex_c0_reachable. Qed.
Lemma ex_complete_reachable : reachable ex_fx ex_clock ex_complete.
Proof. apply reachable_run, ex_settled_reachable. Qed.
Lemma ex_make : make_fixtures [ex_asset] [ex_event] = Ok ex_fx.
Proof. vm_compute. reflexivity. Qed.
Lemma ex_init : makeInitialState ex_fx = Ok ex_st0.
Proof. vm_compute. reflexivity. Qed.
End helpers.

(** The run does what its comment says. *)
Example ex_settled_series :
  (fun s => (phase s, accountedCollateralRaw s, s_ptPoolRaw s, s_drPoolRaw s))
    <$> series (c_state ex_settled) !! "ev" = Some (settled, 1001, 801, 200).
Proof. vm_compute. reflexivity. Qed.
Example ex_complete_series :
  (fun s => (phase s, accountedCollateralRaw s)) <$> series (c_state ex_complete) !! "ev"
    = Some (complete, 0).
Proof. vm_compute. reflexivity. Qed.

Section phases.
Context (fx : Fixtures) (clk : nat -> Z).

Lemma lookup_set_series st k s k' s' :
  series (set_series k s st) !! k' = Some s' ->
  (k' = k /\ s' = s) \/ (k' <> k /\ series st !! k' = Some s').
Proof.
  unfold set_series. simpl. rewrite lookup_insert. destruct (decide (k = k')) as [->|].
  - intros [= <-]. by left.
  - intros. right. split; congruence.
Qed.

#[local] Arguments set_wallet : simpl never.

(** Rewrites the state reached, splits on whether the series asked about is
    the updated one, and closes the case in which it is not. *)
Ltac series_after :=
  repeat match goal with H : c_state ?x = _ |- _ => rewrite H; clear H; simpl end;
  rewrite ?series_set_wallet, ?lookup_insert;
  try match goal with |- context [decide ?P] => destruct (decide P) end;
  intros; simplify_eq/=; try apply ps_same;
  repeat match goal with
  | H : ?m = Some _, H' : ?m = Some _ |- _ => rewrite H in H'; simplify_eq/=
  | H : ?m = Some _ |- context [?m] => rewrite H; simpl
  | H : phase _ = _ |- _ => rewrite H
  end; try constructor.

Lemma complete_phase_step s : phase s = settled -> phase_step settled (phase (complete_if_empty s)).
Proof. intros H. unfold complete_if_empty. case_match; simpl; [constructor|rewrite H; constructor]. Qed.
Lemma cancel_phase_step s :
  phase s = open \/ phase s = closed -> phase_step (phase s) (phase (cancel_if_empty s)).
Proof. intros [H|H]; unfold cancel_if_empty; case_match; simpl; rewrite H; constructor. Qed.

Lemma exec_phase_step cmd c c' u k s s' :
  receipted cmd = true -> exec fx clk cmd c = (Ok u, c') ->
  series (c_state c) !! k = Some s -> series (c_state c') !! k = Some s' ->
  phase_step (phase s) (phase s').
Proof.
  intros Hr H Hs. destruct cmd; try done; simpl in H; unfold discard in H; minv H.
  - unfold deposit in *. op_inv R. breflect. series_after.
  - unfold acceptSale in *. destruct reject; [by minv R|]. op_inv R.
    match goal with H : now clk c = _ |- _ => injection H as <- <- end. simpl in *. series_after.
  - unfold closeDeposits in *. op_inv R. breflect. series_after.
  - unfold settle in *. op_inv R. breflect. series_after.
  - unfold redeem in *. op_inv R. found previewRedemption_Ok as (-> & sx & ? & Hph & _). breflect.
    assert (forall q s, phase (with_redeemed side claimRaw q s) = phase s) as Hwr by (by destruct side).
    series_after. apply complete_phase_step. by rewrite Hwr.
  - unfold recombine in *. op_inv R. breflect.
    match goal with H : (bool_decide _ || _) = true |- _ => apply orb_true_iff in H as Hph end.
    rewrite !bool_decide_eq_true in Hph. series_after.
    by apply (cancel_phase_step (with_backing _ _ _ _)).
Qed.
End phases.

(** ** Redemption in a settled series *)

Definition side_pool (side : ClaimSide) (s : DemoSeries) : pool_state :=
  match side with pt_side => pt_pool_of s | dr_side => dr_pool_of s end.
Definition other_side (side : ClaimSide) : ClaimSide :=
  match side with pt_side => dr_side | dr_side => pt_side end.

Section redemption.
Context (fx : Fixtures) (clk : nat -> Z).

Lemma previewRedemption_run c k s w side n :
  series (c_state c) !! k = Some s -> phase s = settled -> originalSupplyRaw s <> 0 ->
  0 < n <= U64_MAX -> n <= side_balance side (claimsFor (c_state c) w k) ->
  let pay := (pool_redeem (side_pool side s) n).1 in
  previewRedemption k w side n c =
    if pay =? 0 then (Err ZERO_PAYOUT, c) else (Ok pay, c).
Proof.
  intros Hs Hph Hd Hn Hbal. unfold previewRedemption.
  erewrite M_bind_run by (unfold lift; rewrite assertRaw_true; [done|unfold u64; lia|lia]).
  erewrite M_bind_run by (unfold requireSeries; by rewrite Hs).
  erewrite M_bind_run by (apply ensure_run; by apply bool_decide_eq_true).
  erewrite M_bind_run by done. cbv zeta.
  erewrite M_bind_run by (apply ensure_run; apply negb_true_iff, Z.ltb_ge; lia).
  erewrite M_bind_run by (apply ensure_run; apply negb_true_iff, Z.eqb_neq; done).
  assert ((pool_redeem (side_pool side s) n).1 =
    ((match side with pt_side => cumulativePtBurnedRaw s | dr_side => cumulativeDrBurnedRaw s end) + n) *
      (match side with pt_side => originalPtPoolRaw s | dr_side => originalDrPoolRaw s end)
      ÷ originalSupplyRaw s -
    (match side with pt_side => cumulativePtBurnedRaw s | dr_side => cumulativeDrBurnedRaw s end) *
      (match side with pt_side => originalPtPoolRaw s | dr_side => originalDrPoolRaw s end)
      ÷ originalSupplyRaw s) as -> by (by destruct side).
  unfold mbind at 1, M_bind, ensure, lift, require. by destruct (_ =? 0).
Qed.

Context (Hfx : fixtures_ok fx) (st0 : DemoState).

(** A holder's claims are backed on the side they are on. *)
Lemma settled_claims_backed st k s w side :
  ledger_ok fx st0 st -> series st !! k = Some s -> phase s = settled ->
  settled_ok s /\ fx_eventForAsset fx !! series_assetId s = Some k /\
  side_balance side (claimsFor st w k) <=
    match side with pt_side => ptSupplyRaw s | dr_side => drSupplyRaw s end.
Proof.
  intros Hinv Hs Hph. destruct (lo_series _ _ _ Hinv _ _ Hs) as [_ Ha Hp Hd Hpo].
  unfold phase_ok in Hpo. rewrite Hph in Hpo. destruct Hpo as [Hset _].
  split; [done|]. split; [done|]. unfold total_pt, total_dr in *.
  pose proof (lo_claims _ _ _ Hinv seller k). pose proof (lo_claims _ _ _ Hinv buyer k).
  destruct side, w; simpl; lia.
Qed.

(** What a redemption pays always fits next to what the wallet holds. *)
Lemma redeem_credit_fits st k s w side n :
  ledger_ok fx st0 st -> series st !! k = Some s -> phase s = settled -> 0 < n ->
  n <= side_balance side (claimsFor st w k) ->
  let pay := (pool_redeem (side_pool side s) n).1 in
  0 <= pay <= match side with pt_side => s_ptPoolRaw s | dr_side => s_drPoolRaw s end /\
  u64 (collateralOf st w (series_assetId s) + pay).
Proof.
  intros Hinv Hs Hph Hn Hbal.
  destruct (settled_claims_backed st k s w side Hinv Hs Hph) as (Hset & Ha & Hle).
  pose proof (redemption_fits s side n Hset Hn ltac:(lia)) as Hfit.
  assert (0 <= (pool_redeem (side_pool side s) n).1 <=
    match side with pt_side => s_ptPoolRaw s | dr_side => s_drPoolRaw s end) as Hpay
    by (by destruct side).
  split; [done|].
  pose proof (lo_total _ _ _ Hinv (series_assetId s)) as Ht.
  pose proof (lo_bound _ _ _ Hinv (series_assetId s)) as [_ Hb].
  rewrite (total_split fx st _ k s Ha Hs) in Ht.
  pose proof (lo_coll _ _ _ Hinv seller (series_assetId s)).
  pose proof (lo_coll _ _ _ Hinv buyer (series_assetId s)).
  destruct Hset as ((? & ? & ? & Hpp) & (_ & ? & ? & Hdd) & Hsum & ? & ? & Hacc). simpl in *.
  pose proof (floor_share_le_pool (originalPtPoolRaw s) (originalSupplyRaw s)
    ltac:(lia) ltac:(lia) (cumulativePtBurnedRaw s) ltac:(lia)).
  pose proof (floor_share_le_pool (originalDrPoolRaw s) (originalSupplyRaw s)
    ltac:(lia) ltac:(lia) (cumulativeDrBurnedRaw s) ltac:(lia)).
  unfold u64. destruct side, w; simpl in *; lia.
Qed.

(** The state a successful redemption leaves. *)
Definition redeemed_state (c : Client) (k : string) (s : DemoSeries) (w : WalletId) (side : ClaimSide)
    (n pay : Z) : DemoState :=
  let st := c_state c in
  set_series k (complete_if_empty (with_redeemed side n pay s))
    (set_wallet w (set_collateral (series_assetId s) (collateralOf st w (series_assetId s) + pay)
      (set_claims k (side_debit side n (claimsFor st w k)) (wallet_of st w))) st).

Lemma redeem_run c k s w side n :
  ledger_ok fx st0 (c_state c) -> series (c_state c) !! k = Some s -> phase s = settled ->
  condition (c_state c) <> paused -> 0 < n <= U64_MAX ->
  n <= side_balance side (claimsFor (c_state c) w k) ->
  let pay := (pool_redeem (side_pool side s) n).1 in
  if pay =? 0 then redeem clk k w side n c = (Err ZERO_PAYOUT, c)
  else exists r c', redeem clk k w side n c = (Ok r, c') /\
    c_state c' = push_receipt r (bump_version (redeemed_state c k s w side n pay)).
Proof.
  intros Hinv Hs Hph Hcond Hn Hbal pay.
  destruct (redeem_credit_fits _ k s w side n Hinv Hs Hph ltac:(lia) Hbal) as [Hpay Hu].
  destruct (settled_claims_backed _ k s w side Hinv Hs Hph) as (Hset & _ & _).
  pose proof (previewRedemption_run c k s w side n Hs Hph
    ltac:(destruct Hset as ((? & _) & _); simpl in *; lia) Hn Hbal) as Hprev.
  cbv zeta in Hprev, Hpay, Hu. fold pay in Hprev, Hpay, Hu. unfold redeem.
  assert (requireNotPaused c = (Ok tt, c)) as Hnp
    by (unfold requireNotPaused; by destruct (condition (c_state c))).
  rewrite (M_bind_run _ _ _ _ _ Hnp).
  destruct (pay =? 0) eqn:E0.
  { unfold mbind, M_bind. by rewrite Hprev. }
  rewrite (M_bind_run _ _ _ _ _ Hprev).
  erewrite M_bind_run by (unfold requireSeries; by rewrite Hs).
  erewrite M_bind_run by done. cbv zeta.
  erewrite M_bind_run by (apply ensure_run; apply negb_true_iff, Z.ltb_ge; destruct side; lia).
  erewrite M_bind_run by (unfold lift; rewrite assertRaw_true; done).
  erewrite M_bind_run by done. do 2 eexists. split; done.
Qed.

Lemma redeemed_completion s side n pay :
  phase s = settled ->
  let s' := complete_if_empty (with_redeemed side n pay s) in
  side_pool side s' = Pool (p_pool (side_pool side s)) (p_den (side_pool side s))
    (p_redeemed (side_pool side s) + n) (p_paid (side_pool side s) + pay) /\
  side_pool (other_side side) s' = side_pool (other_side side) s /\
  accountedCollateralRaw s' = accountedCollateralRaw s - pay /\
  (phase s' = complete <-> drained s').
Proof.
  intros Hph. unfold complete_if_empty, drained.
  destruct ((_ =? 0) && _ && _ && _) eqn:E; breflect; destruct side;
    simpl in *; unfold pt_pool_of, dr_pool_of; simpl; split_and!; try done; try (f_equal; lia).
  - rewrite Hph. split; [done|]. intros (H1 & H2 & H3 & H4). by rewrite H1, H2, H3, H4 in E.
  - rewrite Hph. split; [done|]. intros (H1 & H2 & H3 & H4). by rewrite H1, H2, H3, H4 in E.
Qed.
End redemption.

(** ** Quote identifiers are spent at most once *)

Section quotes.
Context (fx : Fixtures) (clk : nat -> Z).

Lemma split_dash_digits g rest :
  forallb is_digit g = true -> split_dash (g ++ "-"%char :: rest) = (g, Some rest).
Proof.
  induction g as [|c g IH]; simpl; [done|]. intros [Hc Hg]%andb_prop.
  unfold is_dash. rewrite bool_decide_false, IH by first [done|by intros ->]. done.
Qed.

Lemma quote_id_inj g n g' n' :
  0 <= g -> 0 <= n -> 0 <= g' -> 0 <= n' -> quote_id g n = quote_id g' n' -> g = g' /\ n = n'.
Proof.
  intros Hg Hn Hg' Hn' H.
  assert (forall a b, chars (quote_id a b) = chars "quote-" ++ toString a ++ "-"%char :: toString b) as Hc.
  { intros a b. unfold quote_id. by rewrite !chars_app, !chars_unchars. }
  apply (f_equal chars) in H. rewrite !Hc in H. apply app_inv_head in H.
  destruct (toString_spec g Hg) as [Eg Dg]. destruct (toString_spec g' Hg') as [Eg' Dg'].
  destruct (toString_spec n Hn) as [En _]. destruct (toString_spec n' Hn') as [En' _].
  apply all_digits_forallb in Dg, Dg'.
  apply (f_equal split_dash) in H. rewrite !split_dash_digits in H by done.
  injection H as H1 H2. split; congruence.
Qed.

(** [quote_step c c']: the identifiers on offer in [c'] were on offer in [c]
    or have been minted since with a fresh counter value. *)
Record quote_step (c c' : Client) : Prop := {
  qs_counter : 0 <= generation c -> 0 <= quoteCounter c ->
    0 <= generation c' /\ quoteCounter c <= quoteCounter c';
  qs_quotes id : 0 <= generation c -> 0 <= quoteCounter c -> quotes c' !! id <> None ->
    quotes c !! id <> None \/
    exists g n, id = quote_id g n /\ 0 <= g /\ quoteCounter c < n <= quoteCounter c';
}.

#[local] Instance quote_step_refl : Reflexive quote_step.
Proof. intros c. split; [lia|]. by left. Qed.
#[local] Instance quote_step_trans : Transitive quote_step.
Proof.
  intros c1 c2 c3 [A1 A2] [B1 B2]. split.
  - intros Hg Hn. destruct (A1 Hg Hn). destruct (B1 ltac:(done) ltac:(lia)). lia.
  - intros id Hg Hn H3. destruct (A1 Hg Hn) as [Hg2 Hn2].
    destruct (B1 ltac:(done) ltac:(lia)) as [Hg3 Hn3].
    destruct (B2 id ltac:(done) ltac:(lia) H3) as [H2|(g & n & -> & ? & ?)].
    + destruct (A2 id Hg Hn H2) as [H1|(g & n & -> & ? & ?)]; [by left|].
      right. exists g, n. split; [done|]. lia.
    + right. exists g, n. split; [done|]. lia.
Qed.

Abbreviation quote_safe := (respects (E:=DemoErrorCode) quote_step).

Create HintDb quote_step discriminated.
Lemma qs_same {A} (m : Op A) : (forall c, (m c).2 = c) -> quote_safe m.
Proof. intros H c. by rewrite H. Qed.
Lemma qs_ensure b e : quote_safe (ensure b e).
Proof. by apply qs_same. Qed.
Lemma qs_lift {A} (r : res A) : quote_safe (lift r).
Proof. by apply qs_same. Qed.
Lemma qs_ret {A} (a : A) : quote_safe (mret a).
Proof. by apply qs_same. Qed.
Lemma qs_get : quote_safe get.
Proof. by apply qs_same. Qed.
Lemma qs_throw e : quote_safe (throw (A:=unit) e).
Proof. by apply qs_same. Qed.
Lemma qs_series k : quote_safe (requireSeries k).
Proof. apply qs_same. intros c. unfold requireSeries. by case_match. Qed.
Lemma qs_ready : quote_safe requireReady.
Proof. apply qs_same. intros c. unfold requireReady. by case_match. Qed.
Lemma qs_paused : quote_safe requireNotPaused.
Proof. apply qs_same. intros c. unfold requireNotPaused. by case_match. Qed.
Lemma qs_frame (m : Op unit) : (forall c, quotes (m c).2 = quotes c /\
  quoteCounter (m c).2 = quoteCounter c /\ generation (m c).2 = generation c) -> quote_safe m.
Proof. intros H c. destruct (H c) as (Hq & Hn & Hg). split; rewrite ?Hq, ?Hn, ?Hg; [lia|by left]. Qed.
Lemma qs_update f : quote_safe (update_state f).
Proof. by apply qs_frame. Qed.
Lemma qs_now : quote_safe (now clk).
Proof. intros c. split; simpl; [lia|by left]. Qed.
Lemma qs_receipt a k l : quote_safe (receipt clk a k l).
Proof. intros c. split; simpl; [lia|by left]. Qed.
Lemma qs_delete q : quote_safe (modify (fun c => with_quotes (delete q (quotes c)) c)).
Proof.
  intros c. split; simpl; [lia|]. intros id _ _ Hq. left. intros Hn. apply Hq.
  rewrite lookup_delete. by case_decide.
Qed.
#[local] Hint Resolve qs_ensure qs_lift qs_ret qs_get qs_throw qs_series qs_ready qs_paused qs_update
  qs_now qs_receipt qs_delete : quote_step.

Ltac solve_quotes :=
  repeat first [ solve [eauto with quote_step nocore] | apply respects_bind; [apply _|..]; [|intros ?]
               | case_match ].

Lemma qs_preview k w side n : quote_safe (previewRedemption k w side n).
Proof. unfold previewRedemption. solve_quotes. Qed.
#[local] Hint Resolve qs_preview : quote_step.

Lemma qs_quoteSale k d u : quote_safe (quoteSale clk k d u).
Proof.
  intros c. unfold quoteSale, mbind, M_bind, requireReady, requireSeries, ensure, lift, get, now, modify.
  repeat (case_match; cbn -[quote_id] in *; simplify_eq; try reflexivity). split; cbn -[quote_id]; [lia|].
  intros id Hg Hn. rewrite lookup_insert. destruct (decide (quote_id _ _ = id)) as [Hid|]; [|by left]. intros _. right.
  eexists _, _. split; [by rewrite <- Hid|]. lia.
Qed.

Lemma qs_acceptSale q b : quote_safe (acceptSale clk q b).
Proof. unfold acceptSale. destruct b; solve_quotes. Qed.

Lemma qs_exec cmd : quote_safe (exec fx clk cmd).
Proof.
  destruct cmd; simpl; unfold discard; try (apply respects_bind; [apply _| |intros; apply qs_ret]).
  - unfold deposit. solve_quotes.
  - apply qs_quoteSale.
  - apply qs_acceptSale.
  - unfold closeDeposits. solve_quotes.
  - unfold settle. solve_quotes.
  - unfold redeem. solve_quotes.
  - unfold recombine. solve_quotes.
  - unfold setCondition. solve_quotes.
  - unfold reset. apply respects_bind; [apply _| |intros ?; solve_quotes].
    + intros c. split; simpl; [lia|]. intros id _ _ H. by rewrite lookup_empty in H.
    + by apply qs_frame.
Qed.

#[local] Existing Instances quote_step_refl quote_step_trans.

Lemma qs_run cmds c : quote_step c (run fx clk cmds c).
Proof.
  revert c. induction cmds as [|cmd cmds IH]; intros c; [reflexivity|].
  simpl. etrans; [apply qs_exec|apply IH].
Qed.

(** In a reachable state every identifier on offer was minted by the counter. *)
Lemma reachable_quotes c :
  reachable fx clk c ->
  0 <= generation c /\ 0 <= quoteCounter c /\
  forall id, quotes c !! id <> None ->
    exists g n, id = quote_id g n /\ 0 <= g /\ 0 <= n <= quoteCounter c.
Proof.
  induction 1 as [c Hc|c cmd Hreach (Hg & Hn & IH)].
  - unfold initial_client in Hc. minv Hc. simpl. split_and!; [done..|].
    intros id H. by rewrite lookup_empty in H.
  - destruct (qs_exec cmd c) as [A1 A2]. destruct (A1 Hg Hn) as [Hg' Hn'].
    split_and!; [done|lia|]. intros id Hq.
    destruct (A2 id Hg Hn Hq) as [H1|(g & n & -> & ? & ?)].
    + destruct (IH id H1) as (g & n & -> & ? & ?). exists g, n. split; [done|]. lia.
    + exists g, n. split; [done|]. lia.
Qed.

(** An identifier that is off the table after having been minted stays off. *)
Lemma spent_forever c id g n cmds :
  0 <= generation c -> 0 <= n <= quoteCounter c -> 0 <= g -> id = quote_id g n ->
  quotes c !! id = None -> quotes (run fx clk cmds c) !! id = None.
Proof.
  intros Hg Hn Hg0 -> Hq. destruct (qs_run cmds c) as [_ B].
  destruct (quotes (run fx clk cmds c) !! quote_id g n) as [q|] eqn:E; [|done].
  destruct (B (quote_id g n) Hg ltac:(lia) ltac:(by rewrite E)) as [H|(g' & n' & He & ? & ?)]; [done|].
  apply quote_id_inj in He; lia.
Qed.

Lemma acceptSale_spent q c :
  quotes c !! q = None ->
  acceptSale clk q false c = (Err STALE_QUOTE, c) \/ acceptSale clk q false c = (Err MISSING_QUOTE, c).
Proof.
  intros Hq. unfold acceptSale, mbind, M_bind, ensure, lift, require, get.
  destruct (quote_generation q) as [g|]; [destruct (g =? generation c)|]; [|by left|].
  - right. by rewrite Hq.
  - right. by rewrite Hq.
Qed.

Lemma acceptSale_spends q c r c' :
  acceptSale clk q false c = (Ok r, c') -> quotes c !! q <> None /\ quotes c' !! q = None.
Proof.
  intros H. unfold acceptSale in H. op_inv H.
  match goal with H : now clk c = _ |- _ => injection H as <- <- end. simpl in *.
  destruct (quotes c !! q) eqn:E; [|done]. split; [done|].
  repeat match goal with H : quotes ?x = _ |- context [quotes ?x] => rewrite H end.
  apply lookup_delete_eq.
Qed.

Lemma accepted_is_spent q c r c' cmds :
  reachable fx clk c -> acceptSale clk q false c = (Ok r, c') ->
  quotes (run fx clk cmds c') !! q = None.
Proof.
  intros Hc H. destruct (reachable_quotes c Hc) as (Hg & Hn & Hall).
  destruct (acceptSale_spends q c r c' H) as [H1 H2]. destruct (Hall q H1) as (g & n & Hq & ? & ?).
  pose proof (qs_acceptSale q false c) as [A1 _]. rewrite H in A1. cbn [snd] in A1. destruct (A1 Hg Hn).
  apply (spent_forever c' q g n); (done || lia).
Qed.
End quotes.

(** ** What the demo client guarantees *)

Section guarantees.
Context (assets : list AssetDescriptor) (events : list EventDescriptor).
Context (fx : Fixtures) (clk : nat -> Z) (st0 : DemoState).

(** C9: in every state a caller can reach, whatever calls failed or succeeded
    on the way, the collateral of each asset (both wallets plus what its
    series accounts for) and the cash of both wallets are exactly what the
    client started with, and no balance is negative. *)
Theorem demo_conservation c :
  make_fixtures assets events = Ok fx -> makeInitialState fx = Ok st0 -> reachable fx clk c ->
  (forall a, total_collateral fx (c_state c) a = total_collateral fx st0 a) /\
  total_usdc (c_state c) = total_usdc st0 /\
  (forall w a, 0 <= collateralOf (c_state c) w a) /\ (forall w, 0 <= usdc (wallet_of (c_state c) w)) /\
  (forall w k, 0 <= pt (claimsFor (c_state c) w k) /\ 0 <= dr (claimsFor (c_state c) w k)).
Proof.
  intros Hmk Hst Hc. destruct (reachable_inv assets events fx Hmk clk st0 Hst c Hc) as [[] _].
  destruct lo_usdc as (? & ? & ? & ?). split_and!; try done. by intros [].
Qed.

(** C10: every series is backed: the claims the wallets hold are exactly its
    supplies; before settlement both supplies equal the collateral it
    accounts for; afterwards each side refines an abstract redemption pool
    that has paid exactly the floor share of what was burned, the two frozen
    pools split the frozen supply, and the collateral accounted is exactly
    what the two pools still owe. *)
Theorem demo_claims_backed c k s :
  make_fixtures assets events = Ok fx -> makeInitialState fx = Ok st0 -> reachable fx clk c ->
  series (c_state c) !! k = Some s ->
  total_pt (c_state c) k = ptSupplyRaw s /\ total_dr (c_state c) k = drSupplyRaw s /\
  match phase s with
  | open | closed | cancelled =>
      ptSupplyRaw s = accountedCollateralRaw s /\ drSupplyRaw s = accountedCollateralRaw s
  | settled | complete =>
      pool_ok (pt_pool_of s) /\ pool_ok (dr_pool_of s) /\
      originalPtPoolRaw s + originalDrPoolRaw s = originalSupplyRaw s /\
      ptSupplyRaw s = originalSupplyRaw s - cumulativePtBurnedRaw s /\
      drSupplyRaw s = originalSupplyRaw s - cumulativeDrBurnedRaw s /\
      accountedCollateralRaw s = s_ptPoolRaw s + s_drPoolRaw s
  end.
Proof.
  intros Hmk Hst Hc Hs. destruct (reachable_inv assets events fx Hmk clk st0 Hst c Hc) as [Hinv _].
  destruct (lo_series _ _ _ Hinv _ _ Hs) as [_ _ ? ? Hph]. split; [done|]. split; [done|].
  unfold phase_ok, unsettled_ok, settled_ok in Hph. destruct (phase s); tauto.
Qed.

(** The receipts are a complete journal: replaying the changes of all
    receipts issued since the client was created or last reset, on top of
    the initial state, gives every current balance and every series'
    accounted collateral. *)
Theorem demo_journal_complete c :
  make_fixtures assets events = Ok fx -> makeInitialState fx = Ok st0 -> reachable fx clk c ->
  explained_by (fun p => journal_delta p (receipts (c_state c))) st0 (c_state c).
Proof. intros Hmk Hst Hc. by destruct (reachable_inv assets events fx Hmk clk st0 Hst c Hc). Qed.

(** A call that throws leaves the ledger (wallets, series, receipts,
    version and condition) exactly as it found it. *)
Theorem demo_failed_call_atomic cmd c e c' :
  exec fx clk cmd c = (Err e, c') -> snapshot c' = snapshot c.
Proof. apply exec_atomic. Qed.

(** C11: in a reachable settled series, redeeming [n] claims a holder holds
    has one of three outcomes.  While collateral is paused the call throws
    PAUSED_COLLATERAL and changes nothing.  Otherwise it pays exactly the
    step of the abstract pool of that side, or throws ZERO_PAYOUT when that
    step pays nothing: it is never refused for lack of pool, for overflow or
    by a native exception.  The other side's pool is untouched, and a series
    whose last pool and last claim are gone becomes complete. *)
Theorem demo_redeem_pays_pool_share c k s w side n :
  make_fixtures assets events = Ok fx -> makeInitialState fx = Ok st0 -> reachable fx clk c ->
  series (c_state c) !! k = Some s -> phase s = settled ->
  0 < n <= U64_MAX -> n <= side_balance side (claimsFor (c_state c) w k) ->
  let '(pay, pool') := pool_redeem (side_pool side s) n in
  let is_paused := condition (c_state c) = paused in
  (is_paused -> redeem clk k w side n c = (Err PAUSED_COLLATERAL, c)) /\
  (~ is_paused -> pay = 0 -> redeem clk k w side n c = (Err ZERO_PAYOUT, c)) /\
  (~ is_paused -> pay <> 0 -> exists r c' s', redeem clk k w side n c = (Ok r, c') /\
    series (c_state c') !! k = Some s' /\
    side_pool side s' = pool' /\ side_pool (other_side side) s' = side_pool (other_side side) s /\
    collateralOf (c_state c') w (series_assetId s) = collateralOf (c_state c) w (series_assetId s) + pay /\
    side_balance side (claimsFor (c_state c') w k) = side_balance side (claimsFor (c_state c) w k) - n /\
    accountedCollateralRaw s' = accountedCollateralRaw s - pay /\
    (phase s' = complete <-> drained s')).
Proof.
  intros Hmk Hst Hc Hs Hph Hn Hbal.
  destruct (reachable_inv assets events fx Hmk clk st0 Hst c Hc) as [Hinv _].
  pose proof (fun Hcond => redeem_run fx clk st0 c k s w side n Hinv Hs Hph Hcond Hn Hbal) as Hrun.
  destruct (pool_redeem (side_pool side s) n) as [pay pool'] eqn:Ep. cbn [fst] in Hrun.
  split; [|split; intros Hcond; specialize (Hrun Hcond)].
  - intros Hcond. apply M_bind_stop. unfold requireNotPaused. by rewrite Hcond.
  - intros ->. exact Hrun.
  - intros Hp. rewrite (proj2 (Z.eqb_neq _ _) Hp) in Hrun. destruct Hrun as (r & c' & Hrun & Hst').
    exists r, c', (complete_if_empty (with_redeemed side n pay s)). rewrite Hst'.
    split; [done|]. unfold redeemed_state. simpl. rewrite lookup_insert_eq. split; [done|].
    autorewrite with demo. rewrite !decide_True by done. simpl. rewrite !lookup_insert_eq. simpl.
    destruct (redeemed_completion s side n pay Hph) as (E1 & E2 & E3 & E4).
    rewrite E1, E2, E3. injection Ep as <- <-. destruct side; simpl; split_and!; try done; f_equal; lia.
Qed.

(** A sale quote is single-use: once a quote has been accepted, no
    sequence of later calls - new quotes and resets included - makes the same
    identifier acceptable again: it is refused as stale or missing, and the
    client is left unchanged. *)
Theorem demo_quote_single_use c q r c' cmds :
  reachable fx clk c -> acceptSale clk q false c = (Ok r, c') ->
  let c'' := run fx clk cmds c' in
  acceptSale clk q false c'' = (Err STALE_QUOTE, c'') \/
  acceptSale clk q false c'' = (Err MISSING_QUOTE, c'').
Proof. intros Hc H. apply acceptSale_spent. by eapply accepted_is_spent. Qed.

(** A series only moves forward through its phases: open to closed or
    cancelled, closed to settled or cancelled, settled to complete; no call
    other than a reset, successful or not, moves it otherwise. *)
Theorem demo_phase_forward cmd c k s s' :
  cmd <> CReset -> series (c_state c) !! k = Some s ->
  series (c_state (exec fx clk cmd c).2) !! k = Some s' ->
  phase_step (phase s) (phase s').
Proof.
  intros Hr Hs Hs'. destruct (exec fx clk cmd c) as [[u|e] c'] eqn:E; simpl in Hs'.
  - destruct (receipted cmd) eqn:Er; [by eapply (exec_phase_step fx clk)|].
    destruct cmd; try done; simpl in E.
    + pose proof (quoteSale_keeps clk seriesId drRaw usdcRaw c) as Hk. unfold discard in E. minv E.
      match goal with H : quoteSale _ _ _ _ _ = _ |- _ => rewrite H in Hk end. simpl in Hk.
      rewrite Hk in Hs'. simplify_eq. constructor.
    + injection E as _ <-. simpl in Hs'. simplify_eq. constructor.
  - rewrite (exec_atomic fx clk cmd _ _ _ E) in Hs'. simplify_eq. constructor.
Qed.
End guarantees.

(** ** Amounts *)

(** Printing a raw amount in full and reading it back gives the same raw
    amount, for every token precision the parser accepts. *)
Theorem formatUnits_roundtrip raw d text :
  formatUnits raw d None = Ok text -> toRawAmount text d "1" = Ok raw.
Proof. apply formatUnits_roundtrip_aux. Qed.

(** An allocation splits the raw amount exactly, the dividend pool is the
    floor of the event's share [(m1 - m0) / m1], and the principal pool, valued
    at the multiplier after the event, never falls below the value of the
    whole amount before it - nor exceeds it by a full raw unit. *)
Theorem allocate_preserves_principal raw m0 m1 p :
  allocate raw m0 m1 = Ok p ->
  exists b a, factor m0 = Ok b /\ factor m1 = Ok a /\
    let up := numerator a * denominator b in
    let down := numerator b * denominator a in
    ptPoolRaw p + drPoolRaw p = raw /\ 0 <= drPoolRaw p <= raw /\
    drPoolRaw p = raw * (up - down) / up /\
    raw * down <= ptPoolRaw p * up < raw * down + up.
Proof.
  intros (b & a & Hb & Ha & Hu & Hup & Hd & Hp & Hr)%allocate_Ok. exists b, a.
  cbv zeta in *. split; [done|]. split; [done|]. unfold u64 in Hu.
  set (up := numerator a * denominator b) in *. set (down := numerator b * denominator a) in *.
  pose proof (Z.mul_div_le (raw * (up - down)) up ltac:(lia)).
  pose proof (Z.mul_succ_div_gt (raw * (up - down)) up ltac:(lia)).
  split; [lia|]. split; [done|]. split; [done|]. rewrite Hp. nia.
Qed.

(** ** Witnesses *)

Example demo_conservation_witness :
  total_usdc (c_state ex_complete) = total_usdc ex_st0.
Proof.
  apply (demo_conservation [ex_asset] [ex_event] ex_fx ex_clock ex_st0 ex_complete
    ex_make ex_init ex_complete_reachable).
Defined.

Definition ex_series : DemoSeries := default (new_series "" "") (series (c_state ex_settled) !! "ev").

Lemma ex_settled_lookup : series (c_state ex_settled) !! "ev" = Some ex_series.
Proof. vm_compute. reflexivity. Qed.

Example demo_claims_backed_witness :
  pool_ok (pt_pool_of ex_series) /\ total_pt (c_state ex_settled) "ev" = ptSupplyRaw ex_series.
Proof.
  pose proof (demo_claims_backed [ex_asset] [ex_event] ex_fx ex_clock ex_st0 ex_settled "ev" ex_series
    ex_make ex_init ex_settled_reachable ex_settled_lookup) as (H1 & _ & H2).
  split; [|exact H1]. vm_compute phase in H2. exact (proj1 H2).
Defined.

Example demo_journal_complete_witness :
  explained_by (fun p => journal_delta p (receipts (c_state ex_complete))) ex_st0 (c_state ex_complete).
Proof.
  apply (demo_journal_complete [ex_asset] [ex_event] ex_fx ex_clock ex_st0 ex_complete
    ex_make ex_init ex_complete_reachable).
Defined.

Example demo_failed_call_atomic_witness :
  snapshot (exec ex_fx ex_clock (CDeposit "xstocks:M" "1") ex_settled).2 = snapshot ex_settled.
Proof.
  apply (demo_failed_call_atomic ex_fx ex_clock (CDeposit "xstocks:M" "1") ex_settled DEPOSITS_CLOSED).
  vm_compute. reflexivity.
Defined.

Definition ex_paused : Client := (setCondition paused ex_settled).2.

Example demo_redeem_pays_pool_share_witness :
  (exists r c', redeem ex_clock "ev" buyer dr_side 400 ex_settled = (Ok r, c') /\
    collateralOf (c_state c') buyer "xstocks:M" = 79) /\
  redeem ex_clock "ev" buyer dr_side 400 ex_paused = (Err PAUSED_COLLATERAL, ex_paused).
Proof.
  split.
  - pose proof (demo_redeem_pays_pool_share [ex_asset] [ex_event] ex_fx ex_clock ex_st0 ex_settled "ev"
      ex_series buyer dr_side 400 ex_make ex_init ex_settled_reachable ex_settled_lookup
      ltac:(vm_compute; reflexivity) ltac:(vm_compute; split; congruence)
      ltac:(vm_compute; congruence)) as (_ & _ & H).
    destruct (H ltac:(vm_compute; discriminate) ltac:(vm_compute; congruence)) as (r & c' & s' & Hr & _ & _ & _ & Hc & _).
    exists r, c'. split; [exact Hr|]. vm_compute in Hc. exact Hc.
  - apply (demo_redeem_pays_pool_share [ex_asset] [ex_event] ex_fx ex_clock ex_st0 ex_paused "ev"
      ex_series buyer dr_side 400 ex_make ex_init
      (reach_step ex_fx ex_clock ex_settled (CSetCondition paused) ex_settled_reachable)
      ltac:(vm_compute; reflexivity) ltac:(vm_compute; reflexivity) ltac:(vm_compute; split; congruence)
      ltac:(vm_compute; congruence)).
    vm_compute. reflexivity.
Defined.

(** The client between the quote and its acceptance, and after. *)
Definition ex_quoted : Client :=
  ex_run [CDeposit "xstocks:M" "10.01"; CQuoteSale "ev" 400 5000000].
Definition ex_accepted : Client := (acceptSale ex_clock "quote-1-1" false ex_quoted).2.
Definition ex_receipt : DemoReceipt :=
  match (acceptSale ex_clock "quote-1-1" false ex_quoted).1 with
  | Ok r => r
  | Err _ => Receipt 0 0 sale_action "" 0 []
  end.

Example demo_quote_single_use_witness :
  let c'' := run ex_fx ex_clock [CReset; CQuoteSale "ev" 1 1] ex_accepted in
  acceptSale ex_clock "quote-1-1" false c'' = (Err STALE_QUOTE, c'') \/
  acceptSale ex_clock "quote-1-1" false c'' = (Err MISSING_QUOTE, c'').
Proof.
  apply (demo_quote_single_use ex_fx ex_clock ex_quoted "quote-1-1" ex_receipt).
  - apply reachable_run, ex_c0_reachable.
  - vm_compute. reflexivity.
Defined.

Definition ex_paid_series : DemoSeries :=
  default ex_series (series (c_state (exec ex_fx ex_clock (CRedeem "ev" seller pt_side 1001) ex_settled).2) !! "ev").

Lemma ex_paid_lookup :
  series (c_state (exec ex_fx ex_clock (CRedeem "ev" seller pt_side 1001) ex_settled).2) !! "ev"
    = Some ex_paid_series.
Proof. vm_compute. reflexivity. Qed.

Example demo_phase_forward_witness : phase_step (phase ex_series) (phase ex_paid_series).
Proof.
  apply (demo_phase_forward ex_fx ex_clock (CRedeem "ev" seller pt_side 1001) ex_settled "ev").
  - discriminate.
  - exact ex_settled_lookup.
  - exact ex_paid_lookup.
Defined.

Example formatUnits_roundtrip_witness : toRawAmount "0.01001" 8 "1" = Ok 1001000.
Proof. apply (formatUnits_roundtrip 1001000 8 "0.01001"). reflexivity. Defined.

Example allocate_preserves_principal_witness :
  exists b a, factor "1" = Ok b /\ factor "1.25" = Ok a /\ 801 + 200 = 1001.
Proof.
  destruct (allocate_preserves_principal 1001 "1" "1.25" (Pools 801 200) ltac:(reflexivity))
    as (b & a & Hb & Ha & Hs & _). exists b, a. split; [exact Hb|]. split; [exact Ha|exact Hs].
Defined.
