(* ===== verification/Euclid.v ===== *)
(** * The Euclidean algorithm and lowest terms

    [packages/sdk/src/annual-reference.ts] and
    [packages/transaction-sdk/src/arithmetic.ts] contain the same [gcd] loop on
    [bigint]s and reduce fractions with it.  The loop is here with a bound on
    its iterations, and with what both components need of reduced fractions. *)
From S2P Require Import Prelude.
From Stdlib Require Import Znumtheory.
Open Scope Z_scope.

(** [while (b !== 0n) [a, b] = [b, a % b];] with the iterations bounded by
    [fuel]; [gcd_loop_spec] proves the bound [gcd] gives is enough. *)
Fixpoint gcd_loop (fuel : nat) (a b : Z) : Z :=
  match fuel with
  | O => a
  | S fuel' => if b =? 0 then a else gcd_loop fuel' b (Z.rem a b)
  end.

Definition gcd (left right : Z) : Z :=
  let a := if left <? 0 then - left else left in
  let b := if right <? 0 then - right else right in
  gcd_loop (Z.to_nat (2 * Z.log2 b + 4)) a b.

(** ** The greatest common divisor *)

Lemma gcd_loop_spec k fuel a b :
  0 <= a -> 0 <= b < 2 ^ Z.of_nat k -> (2 * k + 1 <= fuel)%nat -> gcd_loop fuel a b = Z.gcd a b.
Proof.
  revert fuel a b. induction k as [|k IH]; intros fuel a b Ha Hb Hf.
  - assert (b = 0) as -> by (simpl in Hb; lia). destruct fuel as [|f]; [lia|].
    simpl. rewrite Z.gcd_0_r, Z.abs_eq; done.
  - destruct fuel as [|[|f]]; [lia..|]. cbn [gcd_loop]. destruct (b =? 0) eqn:Eb; breflect.
    { subst. rewrite Z.gcd_0_r, Z.abs_eq; done. }
    rewrite Z.rem_mod_nonneg by lia. pose proof (Z.mod_pos_bound a b ltac:(lia)).
    destruct (a mod b =? 0) eqn:Er; breflect.
    { rewrite (Z.gcd_comm a b), <- (Z.gcd_mod a b), Er, Z.gcd_0_l, Z.abs_eq by lia. by destruct f. }
    rewrite Z.rem_mod_nonneg by lia. pose proof (Z.mod_pos_bound b (a mod b) ltac:(lia)).
    pose proof (Z.div_mod b (a mod b) ltac:(lia)).
    assert (1 <= b / (a mod b)) by (apply Z.div_le_lower_bound; lia).
    rewrite Nat2Z.inj_succ, Z.pow_succ_r in Hb by lia.
    rewrite IH; [|lia|nia|lia].
    rewrite Z.gcd_comm, (Z.gcd_mod b (a mod b)), (Z.gcd_mod a b) by lia. apply Z.gcd_comm.
Qed.

Lemma gcd_gcd a b : gcd a b = Z.gcd a b.
Proof.
  unfold gcd.
  assert (forall x, (if x <? 0 then - x else x) = Z.abs x) as Habs.
  { intros x. destruct (x <? 0) eqn:E; breflect; lia. }
  rewrite !Habs. rewrite (gcd_loop_spec (Z.to_nat (Z.log2 (Z.abs b) + 1))).
  - by rewrite Z.gcd_abs_l, Z.gcd_abs_r.
  - lia.
  - pose proof (Z.log2_nonneg (Z.abs b)). rewrite Z2Nat.id by lia.
    destruct (Z.eq_dec (Z.abs b) 0) as [->|]; [done|].
    pose proof (Z.log2_spec (Z.abs b) ltac:(lia)). rewrite Z.add_1_r. lia.
  - pose proof (Z.log2_nonneg (Z.abs b)). lia.
Qed.

(** ** Lowest terms *)

(** Dividing both terms by their greatest common divisor gives the same
    fraction in lowest terms. *)
Lemma reduced_spec n d :
  0 < n -> 0 < d ->
  let x := n ÷ gcd n d in let y := d ÷ gcd n d in
  (0 < x /\ 0 < y /\ Z.gcd x y = 1) /\ x * d = n * y /\ x <= n /\ y <= d.
Proof.
  intros Hn Hd. rewrite gcd_gcd.
  pose proof (Z.gcd_nonneg n d). assert (Z.gcd n d <> 0) as Hg by (intros H0; apply Z.gcd_eq_0_l in H0; lia).
  destruct (Z.gcd_divide_l n d) as [x Hx]. destruct (Z.gcd_divide_r n d) as [y Hy].
  set (g := Z.gcd n d) in *.
  assert (n ÷ g = x) as -> by (rewrite Hx at 1; apply Z.quot_mul; lia).
  assert (d ÷ g = y) as -> by (rewrite Hy at 1; apply Z.quot_mul; lia).
  cbv zeta. split; [|nia]. split; [nia|]. split; [nia|].
  assert (Z.gcd (g * x) (g * y) = g * 1) as He.
  { rewrite (Z.mul_comm g x), (Z.mul_comm g y), <- Hx, <- Hy, Z.mul_1_r. done. }
  rewrite Z.gcd_mul_mono_l_nonneg in He by lia. nia.
Qed.

(** A fraction in lowest terms divides, term by term, every equal fraction. *)
Lemma coprime_divides a b c d :
  0 < b -> 0 < d -> Z.gcd a b = 1 -> a * d = c * b -> (a | c) /\ (b | d).
Proof.
  intros Hb Hd Hg He. split.
  - apply (Z.gauss a b c); [exists d; lia|done].
  - apply (Z.gauss b a d); [exists c; lia|by rewrite Z.gcd_comm].
Qed.

Lemma coprime_unique a b c d :
  0 < a -> 0 < b -> 0 < c -> 0 < d -> Z.gcd a b = 1 -> Z.gcd c d = 1 -> a * d = c * b -> a = c /\ b = d.
Proof.
  intros Ha Hb Hc Hd Hg Hg' He.
  destruct (coprime_divides a b c d Hb Hd Hg He). destruct (coprime_divides c d a b Hd Hb Hg' ltac:(lia)).
  split; apply Z.divide_antisym_nonneg; done || lia.
Qed.
