(* ===== verification/Annual.v ===== *)
(** * Annual reference model: definitions

    [AnnualReferenceModel] of [packages/sdk/src/annual-reference.ts]: one annual
    PT/DR series with its accounts, its journal of dividend events and its
    custody, and every public method.  A method is a state-passing computation
    over [Model], the fields of the object; its assignments are in the order of
    the source, so a throw between two assignments would leave the first one
    done.  The two JavaScript [Map]s keep insertion order. *)
From S2P Require Import Prelude Js Calendar Euclid.
Open Scope Z_scope.

(** ** Data *)

Inductive AnnualClaimSide := pt | dr.
Inductive AnnualEventStatus := qualified | confirmed_zero | cancelled | pending | unsupported.
Inductive AnnualReferenceErrorCode :=
  | INVALID_IDENTITY | INVALID_TIME | INVALID_AMOUNT | INVALID_ACCOUNT | INVALID_EVENT
  | EVENT_LIMIT | REVISION_CONFLICT | DEPOSITS_CLOSED | INSUFFICIENT_BALANCE | NOT_MATURE
  | INCOMPLETE_JOURNAL | FINALIZED | POST_FINALIZED_AMENDMENT | ZERO_PAYOUT
  | CUSTODY_BLOCKED | CUSTODY_DEFICIT.

#[global] Instance AnnualClaimSide_eq_dec : EqDecision AnnualClaimSide.
Proof. solve_decision. Defined.
#[global] Instance AnnualEventStatus_eq_dec : EqDecision AnnualEventStatus.
Proof. solve_decision. Defined.
#[global] Instance AnnualReferenceErrorCode_eq_dec : EqDecision AnnualReferenceErrorCode.
Proof. solve_decision. Defined.

Abbreviation res := (result AnnualReferenceErrorCode).

Record AnnualTermIdentity := Term {
  t_chain : string; t_issuer : string; t_mint : string; t_symbol : string; t_year : Z;
}.

Record AnnualEventRecord := Event {
  e_id : string; e_revision : Z; e_chain : string; e_issuer : string; e_mint : string;
  e_exDate : option string; e_status : AnnualEventStatus; e_m0 : string; e_m1 : string;
  e_finalized : bool;
}.
#[global] Instance AnnualEventRecord_eq_dec : EqDecision AnnualEventRecord.
Proof. solve_decision. Defined.

Record AnnualAccountState := Account { collateralRaw : Z; ptRaw : Z; drRaw : Z }.
Record RationalIndex := Index { numerator : Z; denominator : Z }.
Record AnnualAllocation := Allocation {
  al_accountableRaw : Z; al_index : RationalIndex; al_ptPoolRaw : Z; al_drPoolRaw : Z;
}.
Record AnnualFinalSnapshot := Snapshot {
  sn_allocation : AnnualAllocation; supplyDenominatorRaw : Z;
}.

Definition MAX_EVENT_IDS : Z := 64.
Definition MAX_TEXT_LENGTH : Z := 128.
Definition MAX_FACTOR_LENGTH : Z := 64.

(** The mutable and immutable fields of the object. *)
Record Model := MkModel {
  term : AnnualTermIdentity; startSeconds : Z; maturitySeconds : Z;
  accountableRaw : Z; ptSupplyRaw : Z; drSupplyRaw : Z;
  externallyBurnedPtRaw : Z; externallyBurnedDrRaw : Z;
  redeemedPtClaimsRaw : Z; redeemedDrClaimsRaw : Z;
  actualCustodyRaw : Z; donationsRaw : Z; custodyBlocked : bool;
  accounts : list (string * AnnualAccountState);
  events : list (string * AnnualEventRecord);
  snapshot : option AnnualFinalSnapshot;
  remainingPtPoolRaw : Z; remainingDrPoolRaw : Z;
}.

Abbreviation Op := (M Model AnnualReferenceErrorCode).

(** ** Checks on inputs *)

Definition js_length (l : list ascii) : Z := Z.of_nat (length l).

Definition text_ok (value : string) : bool :=
  negb (js_length (chars value) =? 0) && (js_length (chars value) <=? MAX_TEXT_LENGTH).
Definition checkedText (value : string) : res string :=
  require (text_ok value) INVALID_IDENTITY ;; Ok value.
Definition checkedAccountId (value : string) : res string :=
  require (text_ok value) INVALID_ACCOUNT ;; Ok value.

Definition checkedTermIdentity (t : AnnualTermIdentity) : res AnnualTermIdentity :=
  require ((1970 <=? t_year t) && (t_year t <=? 9998)) INVALID_IDENTITY ;;
  chain ← checkedText (t_chain t);
  issuer ← checkedText (t_issuer t);
  mint ← checkedText (t_mint t);
  symbol ← checkedText (t_symbol t);
  Ok (Term chain issuer mint symbol (t_year t)).

Definition checkedRaw (value : Z) (allowZero : bool) : res Z :=
  require (negb ((value <? 0) || (negb allowZero && (value =? 0)) || (U64_MAX <? value)))
    INVALID_AMOUNT ;;
  Ok value.

Definition addU64 (left right : Z) : res Z :=
  let sum := left + right in
  _ ← checkedRaw sum true;
  Ok sum.

Definition checkedNow (nowSeconds : Z) : res Z :=
  require (isSafeInteger nowSeconds && (0 <=? nowSeconds)) INVALID_TIME ;;
  Ok nowSeconds.

(** ** Rationals *)

Definition reduce (num den : Z) : res RationalIndex :=
  require (negb ((num <? 0) || (den <=? 0))) INVALID_EVENT ;;
  let divisor := gcd num den in
  Ok (Index (num ÷ divisor) (den ÷ divisor)).

Definition parsePositiveDecimal (value : string) : res RationalIndex :=
  let l := chars value in
  require (negb (js_length l =? 0) && (js_length l <=? MAX_FACTOR_LENGTH)) INVALID_EVENT ;;
  match plain_decimal l with
  | None => Err INVALID_EVENT
  | Some (whole, fraction) =>
      let num := BigInt (whole ++ fraction) in
      require (negb (num =? 0)) INVALID_EVENT ;;
      reduce num (10 ^ js_length fraction)
  end.

Definition compare (left right : RationalIndex) : Z :=
  let delta := numerator left * denominator right - numerator right * denominator left in
  if delta <? 0 then -1 else if 0 <? delta then 1 else 0.

(** ** Dates *)

Definition digits_n (n : nat) (l : list ascii) : bool :=
  Nat.eqb (length l) n && forallb is_digit l.

(** [/^(\d{4})-(\d{2})-(\d{2})$/] *)
Definition match_date (l : list ascii) : option (Z * Z * Z) :=
  match l with
  | [y1; y2; y3; y4; s1; m1; m2; s2; d1; d2] =>
      if bool_decide (s1 = "-"%char) && bool_decide (s2 = "-"%char) &&
         forallb is_digit [y1; y2; y3; y4; m1; m2; d1; d2]
      then Some (BigInt [y1; y2; y3; y4], BigInt [m1; m2], BigInt [d1; d2]) else None
  | _ => None
  end.

Definition validCivilDate (value : string) : bool :=
  match match_date (chars value) with
  | None => false
  | Some (year, month, day) =>
      let timestamp := Date_UTC year (month - 1) day in
      (getUTCFullYear timestamp =? year) && (getUTCMonth timestamp =? month - 1)
      && (getUTCDate timestamp =? day)
  end.

(** [Number(value.slice(0, 4))], on a string that starts with four digits. *)
Definition civilYear (value : string) : Z := BigInt (firstn 4 (chars value)).

(** ** Identity *)

(** [JSON.stringify([chain, issuer, mint, year])] *)
Definition annualSeriesId (t : AnnualTermIdentity) : res string :=
  checked ← checkedTermIdentity t;
  Ok (unchars ("["%char :: json_string (chars (t_chain checked)) ++ ","%char ::
                json_string (chars (t_issuer checked)) ++ ","%char ::
                json_string (chars (t_mint checked)) ++ ","%char ::
                toString (t_year checked) ++ ["]"%char])).

Definition ptSymbol (t : AnnualTermIdentity) : string :=
  "PT-" +:+ t_symbol t +:+ "-" +:+ unchars (toString (t_year t)).
Definition drSymbol (t : AnnualTermIdentity) : string :=
  "DR-" +:+ t_symbol t +:+ "-" +:+ unchars (toString (t_year t)).

(** [canonicalRecord] serialises every field of a record, so two records have
    the same canonical form exactly when all their fields agree. *)
Definition same_canonicalRecord (a b : AnnualEventRecord) : bool := bool_decide (a = b).

(** ** Assignments to the fields of the object *)

Definition set_accountableRaw x (m : Model) : Model := MkModel (term m) (startSeconds m)
  (maturitySeconds m) x (ptSupplyRaw m) (drSupplyRaw m) (externallyBurnedPtRaw m)
  (externallyBurnedDrRaw m) (redeemedPtClaimsRaw m) (redeemedDrClaimsRaw m) (actualCustodyRaw m)
  (donationsRaw m) (custodyBlocked m) (accounts m) (events m) (snapshot m) (remainingPtPoolRaw m)
  (remainingDrPoolRaw m).
Definition set_ptSupplyRaw x (m : Model) : Model := MkModel (term m) (startSeconds m)
  (maturitySeconds m) (accountableRaw m) x (drSupplyRaw m) (externallyBurnedPtRaw m)
  (externallyBurnedDrRaw m) (redeemedPtClaimsRaw m) (redeemedDrClaimsRaw m) (actualCustodyRaw m)
  (donationsRaw m) (custodyBlocked m) (accounts m) (events m) (snapshot m) (remainingPtPoolRaw m)
  (remainingDrPoolRaw m).
Definition set_drSupplyRaw x (m : Model) : Model := MkModel (term m) (startSeconds m)
  (maturitySeconds m) (accountableRaw m) (ptSupplyRaw m) x (externallyBurnedPtRaw m)
  (externallyBurnedDrRaw m) (redeemedPtClaimsRaw m) (redeemedDrClaimsRaw m) (actualCustodyRaw m)
  (donationsRaw m) (custodyBlocked m) (accounts m) (events m) (snapshot m) (remainingPtPoolRaw m)
  (remainingDrPoolRaw m).
Definition set_externallyBurnedPtRaw x (m : Model) : Model := MkModel (term m) (startSeconds m)
  (maturitySeconds m) (accountableRaw m) (ptSupplyRaw m) (drSupplyRaw m) x (externallyBurnedDrRaw
m) (redeemedPtClaimsRaw m) (redeemedDrClaimsRaw m) (actualCustodyRaw m) (donationsRaw m)
  (custodyBlocked m) (accounts m) (events m) (snapshot m) (remainingPtPoolRaw m)
  (remainingDrPoolRaw m).
Definition set_externallyBurnedDrRaw x (m : Model) : Model := MkModel (term m) (startSeconds m)
  (maturitySeconds m) (accountableRaw m) (ptSupplyRaw m) (drSupplyRaw m) (externallyBurnedPtRaw m)
x (redeemedPtClaimsRaw m) (redeemedDrClaimsRaw m) (actualCustodyRaw m) (donationsRaw m)
  (custodyBlocked m) (accounts m) (events m) (snapshot m) (remainingPtPoolRaw m)
  (remainingDrPoolRaw m).
Definition set_redeemedPtClaimsRaw x (m : Model) : Model := MkModel (term m) (startSeconds m)
  (maturitySeconds m) (accountableRaw m) (ptSupplyRaw m) (drSupplyRaw m) (externallyBurnedPtRaw m)
  (externallyBurnedDrRaw m) x (redeemedDrClaimsRaw m) (actualCustodyRaw m) (donationsRaw m)
  (custodyBlocked m) (accounts m) (events m) (snapshot m) (remainingPtPoolRaw m)
  (remainingDrPoolRaw m).
Definition set_redeemedDrClaimsRaw x (m : Model) : Model := MkModel (term m) (startSeconds m)
  (maturitySeconds m) (accountableRaw m) (ptSupplyRaw m) (drSupplyRaw m) (externallyBurnedPtRaw m)
  (externallyBurnedDrRaw m) (redeemedPtClaimsRaw m) x (actualCustodyRaw m) (donationsRaw m)
  (custodyBlocked m) (accounts m) (events m) (snapshot m) (remainingPtPoolRaw m)
  (remainingDrPoolRaw m).
Definition set_actualCustodyRaw x (m : Model) : Model := MkModel (term m) (startSeconds m)
  (maturitySeconds m) (accountableRaw m) (ptSupplyRaw m) (drSupplyRaw m) (externallyBurnedPtRaw m)
  (externallyBurnedDrRaw m) (redeemedPtClaimsRaw m) (redeemedDrClaimsRaw m) x (donationsRaw m)
  (custodyBlocked m) (accounts m) (events m) (snapshot m) (remainingPtPoolRaw m)
  (remainingDrPoolRaw m).
Definition set_donationsRaw x (m : Model) : Model := MkModel (term m) (startSeconds m)
  (maturitySeconds m) (accountableRaw m) (ptSupplyRaw m) (drSupplyRaw m) (externallyBurnedPtRaw m)
  (externallyBurnedDrRaw m) (redeemedPtClaimsRaw m) (redeemedDrClaimsRaw m) (actualCustodyRaw m) x
  (custodyBlocked m) (accounts m) (events m) (snapshot m) (remainingPtPoolRaw m)
  (remainingDrPoolRaw m).
Definition set_custodyBlocked x (m : Model) : Model := MkModel (term m) (startSeconds m)
  (maturitySeconds m) (accountableRaw m) (ptSupplyRaw m) (drSupplyRaw m) (externallyBurnedPtRaw m)
  (externallyBurnedDrRaw m) (redeemedPtClaimsRaw m) (redeemedDrClaimsRaw m) (actualCustodyRaw m)
  (donationsRaw m) x (accounts m) (events m) (snapshot m) (remainingPtPoolRaw m)
  (remainingDrPoolRaw m).
Definition set_accounts x (m : Model) : Model := MkModel (term m) (startSeconds m)
  (maturitySeconds m) (accountableRaw m) (ptSupplyRaw m) (drSupplyRaw m) (externallyBurnedPtRaw m)
  (externallyBurnedDrRaw m) (redeemedPtClaimsRaw m) (redeemedDrClaimsRaw m) (actualCustodyRaw m)
  (donationsRaw m) (custodyBlocked m) x (events m) (snapshot m) (remainingPtPoolRaw m)
  (remainingDrPoolRaw m).
Definition set_events x (m : Model) : Model := MkModel (term m) (startSeconds m) (maturitySeconds
m) (accountableRaw m) (ptSupplyRaw m) (drSupplyRaw m) (externallyBurnedPtRaw m)
  (externallyBurnedDrRaw m) (redeemedPtClaimsRaw m) (redeemedDrClaimsRaw m) (actualCustodyRaw m)
  (donationsRaw m) (custodyBlocked m) (accounts m) x (snapshot m) (remainingPtPoolRaw m)
  (remainingDrPoolRaw m).
Definition set_snapshot x (m : Model) : Model := MkModel (term m) (startSeconds m)
  (maturitySeconds m) (accountableRaw m) (ptSupplyRaw m) (drSupplyRaw m) (externallyBurnedPtRaw m)
  (externallyBurnedDrRaw m) (redeemedPtClaimsRaw m) (redeemedDrClaimsRaw m) (actualCustodyRaw m)
  (donationsRaw m) (custodyBlocked m) (accounts m) (events m) x (remainingPtPoolRaw m)
  (remainingDrPoolRaw m).
Definition set_remainingPtPoolRaw x (m : Model) : Model := MkModel (term m) (startSeconds m)
  (maturitySeconds m) (accountableRaw m) (ptSupplyRaw m) (drSupplyRaw m) (externallyBurnedPtRaw m)
  (externallyBurnedDrRaw m) (redeemedPtClaimsRaw m) (redeemedDrClaimsRaw m) (actualCustodyRaw m)
  (donationsRaw m) (custodyBlocked m) (accounts m) (events m) (snapshot m) x (remainingDrPoolRaw m).
Definition set_remainingDrPoolRaw x (m : Model) : Model := MkModel (term m) (startSeconds m)
  (maturitySeconds m) (accountableRaw m) (ptSupplyRaw m) (drSupplyRaw m) (externallyBurnedPtRaw m)
  (externallyBurnedDrRaw m) (redeemedPtClaimsRaw m) (redeemedDrClaimsRaw m) (actualCustodyRaw m)
  (donationsRaw m) (custodyBlocked m) (accounts m) (events m) (snapshot m) (remainingPtPoolRaw m) x.

Definition set_collateralRaw x (a : AnnualAccountState) := Account x (ptRaw a) (drRaw a).
Definition set_ptRaw x (a : AnnualAccountState) := Account (collateralRaw a) x (drRaw a).
Definition set_drRaw x (a : AnnualAccountState) := Account (collateralRaw a) (ptRaw a) x.

Abbreviation assign := (modify (S:=Model) (E:=AnnualReferenceErrorCode)).

(** A mutation of the account object stored under [id]. *)
Definition assign_account (id : string) (f : AnnualAccountState -> AnnualAccountState) : Op unit :=
  assign (fun m => match om_get (accounts m) id with
                   | Some a => set_accounts (om_set (accounts m) id (f a)) m
                   | None => m
                   end).

(** [account[field]] and the assignment to it. *)
Definition side_raw (side : AnnualClaimSide) (a : AnnualAccountState) : Z :=
  match side with pt => ptRaw a | dr => drRaw a end.
Definition set_side_raw (side : AnnualClaimSide) (x : Z) (a : AnnualAccountState) : AnnualAccountState :=
  match side with pt => set_ptRaw x a | dr => set_drRaw x a end.

(** ** The constructor *)

Definition new_account (acc : list (string * AnnualAccountState)) (rawId : string)
    : res (list (string * AnnualAccountState)) :=
  id ← checkedAccountId rawId;
  require (negb (om_has acc id)) INVALID_ACCOUNT ;;
  Ok (om_set acc id (Account 0 0 0)).

Definition construct (t : AnnualTermIdentity) (accountIds : list string) : res Model :=
  checked ← checkedTermIdentity t;
  require (2 <=? Z.of_nat (length accountIds)) INVALID_ACCOUNT ;;
  accs ← foldM new_account [] accountIds;
  Ok (MkModel checked (Date_UTC (t_year checked) 0 1 ÷ 1000) (Date_UTC (t_year checked + 1) 0 1 ÷ 1000)
        0 0 0 0 0 0 0 0 0 false accs [] None 0 0).

(** ** Reading *)

Definition obligation (m : Model) : Z :=
  match snapshot m with
  | Some _ => remainingPtPoolRaw m + remainingDrPoolRaw m
  | None => accountableRaw m
  end.

(** [getState().custody.deficitRaw] *)
Definition deficitRaw (m : Model) : Z :=
  if actualCustodyRaw m <? obligation m then obligation m - actualCustodyRaw m else 0.

Definition counts_in (year : Z) (event : AnnualEventRecord) : bool :=
  match e_exDate event with
  | None => false
  | Some d => (civilYear d =? year) && bool_decide (e_status event = qualified)
  end.

Definition index_step (year : Z) (index : RationalIndex) (event : AnnualEventRecord) : res RationalIndex :=
  if negb (counts_in year event) then Ok index
  else
    m0 ← parsePositiveDecimal (e_m0 event);
    m1 ← parsePositiveDecimal (e_m1 event);
    reduce (numerator index * numerator m0 * denominator m1)
           (denominator index * denominator m0 * numerator m1).

Definition currentIndex (m : Model) : res RationalIndex :=
  foldM (index_step (t_year (term m))) (Index 1 1) (events m).*2.

Definition previewAllocation (m : Model) : res AnnualAllocation :=
  match snapshot m with
  | Some s => Ok (sn_allocation s)
  | None =>
      index ← currentIndex m;
      let drPoolRaw := accountableRaw m * (denominator index - numerator index) ÷ denominator index in
      Ok (Allocation (accountableRaw m) index (accountableRaw m - drPoolRaw) drPoolRaw)
  end.

(** ** Guards *)

Definition requireAccount (accountId : string) : Op AnnualAccountState :=
  id ← lift (checkedAccountId accountId);
  m ← get;
  lift (match om_get (accounts m) id with Some a => Ok a | None => Err INVALID_ACCOUNT end).

Definition requireCustodyAvailable (requireSolvent : bool) : Op unit :=
  m ← get;
  ensure (negb (custodyBlocked m)) CUSTODY_BLOCKED ;;
  if negb requireSolvent then mret tt
  else ensure (negb (actualCustodyRaw m <? obligation m)) CUSTODY_DEFICIT.

Definition validateEvent (t : AnnualTermIdentity) (input : AnnualEventRecord) : res AnnualEventRecord :=
  id ← checkedText (e_id input);
  require (isSafeInteger (e_revision input) && (0 <=? e_revision input)) INVALID_EVENT ;;
  chain ← checkedText (e_chain input);
  issuer ← checkedText (e_issuer input);
  mint ← checkedText (e_mint input);
  require (bool_decide (chain = t_chain t) && bool_decide (issuer = t_issuer t) &&
           bool_decide (mint = t_mint t)) INVALID_EVENT ;;
  require (match e_exDate input with None => true | Some d => validCivilDate d end) INVALID_EVENT ;;
  m0 ← parsePositiveDecimal (e_m0 input);
  m1 ← parsePositiveDecimal (e_m1 input);
  require (negb ((compare m1 m0 <? 0) && negb (bool_decide (e_status input = pending))
                 && negb (bool_decide (e_status input = unsupported)))) INVALID_EVENT ;;
  Ok (Event id (e_revision input) chain issuer mint (e_exDate input) (e_status input)
        (e_m0 input) (e_m1 input) (e_finalized input)).

Definition is_finalized (m : Model) : bool :=
  match snapshot m with Some _ => true | None => false end.

(** ** Methods *)

Definition deposit (accountId : string) (raw nowSeconds : Z) : Op unit :=
  account ← requireAccount accountId;
  amount ← lift (checkedRaw raw false);
  now ← lift (checkedNow nowSeconds);
  m ← get;
  ensure (negb (is_finalized m)) FINALIZED ;;
  ensure (now <? startSeconds m) DEPOSITS_CLOSED ;;
  requireCustodyAvailable true ;;
  nextQ ← lift (addU64 (accountableRaw m) amount);
  nextPtSupply ← lift (addU64 (ptSupplyRaw m) amount);
  nextDrSupply ← lift (addU64 (drSupplyRaw m) amount);
  nextCustody ← lift (addU64 (actualCustodyRaw m) amount);
  nextPt ← lift (addU64 (ptRaw account) amount);
  nextDr ← lift (addU64 (drRaw account) amount);
  assign (set_accountableRaw nextQ) ;;
  assign (set_ptSupplyRaw nextPtSupply) ;;
  assign (set_drSupplyRaw nextDrSupply) ;;
  assign (set_actualCustodyRaw nextCustody) ;;
  assign_account accountId (set_ptRaw nextPt) ;;
  assign_account accountId (set_drRaw nextDr).

Inductive Recorded := accepted | idempotent.

Definition recordEvent (input : AnnualEventRecord) : Op Recorded :=
  m ← get;
  ensure (negb (is_finalized m)) POST_FINALIZED_AMENDMENT ;;
  record ← lift (validateEvent (term m) input);
  match om_get (events m) (e_id record) with
  | Some previous =>
      if (e_revision record =? e_revision previous) && same_canonicalRecord record previous
      then mret idempotent
      else
        ensure (negb (e_revision record <=? e_revision previous)) REVISION_CONFLICT ;;
        assign (set_events (om_set (events m) (e_id record) record)) ;;
        mret accepted
  | None =>
      ensure (negb (MAX_EVENT_IDS <=? Z.of_nat (length (events m)))) EVENT_LIMIT ;;
      assign (set_events (om_set (events m) (e_id record) record)) ;;
      mret accepted
  end.

Definition transfer (fromId toId : string) (side : AnnualClaimSide) (raw : Z) : Op unit :=
  from ← requireAccount fromId;
  to ← requireAccount toId;
  amount ← lift (checkedRaw raw false);
  ensure (negb (bool_decide (fromId = toId))) INVALID_ACCOUNT ;;
  ensure (negb (side_raw side from <? amount)) INSUFFICIENT_BALANCE ;;
  nextTo ← lift (addU64 (side_raw side to) amount);
  assign_account fromId (fun a => set_side_raw side (side_raw side a - amount) a) ;;
  assign_account toId (set_side_raw side nextTo).

Definition recombine (accountId : string) (raw : Z) : Op unit :=
  m ← get;
  ensure (negb (is_finalized m)) FINALIZED ;;
  account ← requireAccount accountId;
  amount ← lift (checkedRaw raw false);
  ensure (negb ((ptRaw account <? amount) || (drRaw account <? amount))) INSUFFICIENT_BALANCE ;;
  requireCustodyAvailable true ;;
  nextCollateral ← lift (addU64 (collateralRaw account) amount);
  assign_account accountId (fun a => set_ptRaw (ptRaw a - amount) a) ;;
  assign_account accountId (fun a => set_drRaw (drRaw a - amount) a) ;;
  assign_account accountId (set_collateralRaw nextCollateral) ;;
  assign (fun m => set_ptSupplyRaw (ptSupplyRaw m - amount) m) ;;
  assign (fun m => set_drSupplyRaw (drSupplyRaw m - amount) m) ;;
  assign (fun m => set_accountableRaw (accountableRaw m - amount) m) ;;
  assign (fun m => set_actualCustodyRaw (actualCustodyRaw m - amount) m).

Definition burn (accountId : string) (side : AnnualClaimSide) (raw : Z) : Op unit :=
  account ← requireAccount accountId;
  amount ← lift (checkedRaw raw false);
  ensure (negb (side_raw side account <? amount)) INSUFFICIENT_BALANCE ;;
  assign_account accountId (fun a => set_side_raw side (side_raw side a - amount) a) ;;
  match side with
  | pt =>
      assign (fun m => set_ptSupplyRaw (ptSupplyRaw m - amount) m) ;;
      m ← get;
      next ← lift (addU64 (externallyBurnedPtRaw m) amount);
      assign (set_externallyBurnedPtRaw next)
  | dr =>
      assign (fun m => set_drSupplyRaw (drSupplyRaw m - amount) m) ;;
      m ← get;
      next ← lift (addU64 (externallyBurnedDrRaw m) amount);
      assign (set_externallyBurnedDrRaw next)
  end.

Definition event_final (_ : unit) (event : AnnualEventRecord) : res unit :=
  require (negb (bool_decide (e_exDate event = None))) INCOMPLETE_JOURNAL ;;
  require (e_finalized event) INCOMPLETE_JOURNAL ;;
  require (negb (bool_decide (e_status event = pending) || bool_decide (e_status event = unsupported)))
    INCOMPLETE_JOURNAL.

Definition finalize (nowSeconds : Z) (ledgerComplete : bool) : Op AnnualFinalSnapshot :=
  now ← lift (checkedNow nowSeconds);
  m ← get;
  ensure (negb (is_finalized m)) FINALIZED ;;
  ensure (negb (now <? maturitySeconds m)) NOT_MATURE ;;
  ensure ledgerComplete INCOMPLETE_JOURNAL ;;
  lift (foldM event_final tt (events m).*2) ;;
  requireCustodyAvailable true ;;
  allocation ← lift (previewAllocation m);
  let s := Snapshot allocation (accountableRaw m) in
  assign (set_snapshot (Some s)) ;;
  assign (set_remainingPtPoolRaw (al_ptPoolRaw allocation)) ;;
  assign (set_remainingDrPoolRaw (al_drPoolRaw allocation)) ;;
  mret s.

Definition previewRedemption (accountId : string) (side : AnnualClaimSide) (raw : Z) : Op Z :=
  account ← requireAccount accountId;
  amount ← lift (checkedRaw raw false);
  m ← get;
  match snapshot m with
  | None => throw NOT_MATURE
  | Some s =>
      ensure (negb (side_raw side account <? amount)) INSUFFICIENT_BALANCE ;;
      let denominator := supplyDenominatorRaw s in
      if denominator =? 0 then mret 0
      else
        let pool := match side with
                    | pt => al_ptPoolRaw (sn_allocation s) | dr => al_drPoolRaw (sn_allocation s) end in
        let burned := match side with pt => redeemedPtClaimsRaw m | dr => redeemedDrClaimsRaw m end in
        mret ((burned + amount) * pool ÷ denominator - burned * pool ÷ denominator)
  end.

Definition redeem (accountId : string) (side : AnnualClaimSide) (raw : Z) (allowZero : bool) : Op Z :=
  account ← requireAccount accountId;
  amount ← lift (checkedRaw raw false);
  pay ← previewRedemption accountId side amount;
  ensure (negb ((pay =? 0) && negb allowZero)) ZERO_PAYOUT ;;
  requireCustodyAvailable true ;;
  nextCollateral ← lift (addU64 (collateralRaw account) pay);
  m ← get;
  match side with
  | pt =>
      ensure (negb (remainingPtPoolRaw m <? pay)) CUSTODY_DEFICIT ;;
      assign_account accountId (fun a => set_ptRaw (ptRaw a - amount) a) ;;
      assign (fun m => set_ptSupplyRaw (ptSupplyRaw m - amount) m) ;;
      m ← get;
      next ← lift (addU64 (redeemedPtClaimsRaw m) amount);
      assign (set_redeemedPtClaimsRaw next) ;;
      assign (fun m => set_remainingPtPoolRaw (remainingPtPoolRaw m - pay) m)
  | dr =>
      ensure (negb (remainingDrPoolRaw m <? pay)) CUSTODY_DEFICIT ;;
      assign_account accountId (fun a => set_drRaw (drRaw a - amount) a) ;;
      assign (fun m => set_drSupplyRaw (drSupplyRaw m - amount) m) ;;
      m ← get;
      next ← lift (addU64 (redeemedDrClaimsRaw m) amount);
      assign (set_redeemedDrClaimsRaw next) ;;
      assign (fun m => set_remainingDrPoolRaw (remainingDrPoolRaw m - pay) m)
  end ;;
  assign_account accountId (set_collateralRaw nextCollateral) ;;
  assign (fun m => set_actualCustodyRaw (actualCustodyRaw m - pay) m) ;;
  mret pay.

Definition donate (raw : Z) : Op unit :=
  amount ← lift (checkedRaw raw false);
  m ← get;
  nextActual ← lift (addU64 (actualCustodyRaw m) amount);
  nextDonations ← lift (addU64 (donationsRaw m) amount);
  assign (set_actualCustodyRaw nextActual) ;;
  assign (set_donationsRaw nextDonations).

Definition setCustodyBlocked (blocked : bool) : Op unit := assign (set_custodyBlocked blocked).

Definition reportActualCustody (raw : Z) : Op unit :=
  amount ← lift (checkedRaw raw true);
  assign (set_actualCustodyRaw amount).

(** ** The methods as one step relation *)

Inductive Call :=
  | CDeposit (accountId : string) (raw nowSeconds : Z)
  | CRecordEvent (input : AnnualEventRecord)
  | CTransfer (fromId toId : string) (side : AnnualClaimSide) (raw : Z)
  | CRecombine (accountId : string) (raw : Z)
  | CBurn (accountId : string) (side : AnnualClaimSide) (raw : Z)
  | CFinalize (nowSeconds : Z) (ledgerComplete : bool)
  | CRedeem (accountId : string) (side : AnnualClaimSide) (raw : Z) (allowZero : bool)
  | CDonate (raw : Z)
  | CSetCustodyBlocked (blocked : bool)
  | CReportActualCustody (raw : Z).

Definition exec (call : Call) : Op unit :=
  match call with
  | CDeposit a n t => deposit a n t
  | CRecordEvent e => recordEvent e ;; mret tt
  | CTransfer a b s n => transfer a b s n
  | CRecombine a n => recombine a n
  | CBurn a s n => burn a s n
  | CFinalize t b => finalize t b ;; mret tt
  | CRedeem a s n z => redeem a s n z ;; mret tt
  | CDonate n => donate n
  | CSetCustodyBlocked b => setCustodyBlocked b
  | CReportActualCustody n => reportActualCustody n
  end.

(** The states of an object built by the constructor, after any calls. *)
Inductive reachable : Model -> Prop :=
  | reach_new t ids m : construct t ids = Ok m -> reachable m
  | reach_call m call : reachable m -> reachable (exec call m).2.

Definition run (calls : list Call) (m : Model) : Model :=
  foldl (fun m call => (exec call m).2) m calls.
