(* ===== verification/AnnualIndex.v ===== *)
(** * Annual reference model: the index

    The arithmetic of [currentIndex]: the Euclidean loop computes the greatest
    common divisor within its fuel, [reduce] gives the lowest terms, and the
    index is the product of the qualified factors [m0 / m1] in lowest terms,
    whatever the order of the journal. *)
From S2P Require Import Prelude Js Calendar Euclid Annual.
Open Scope Z_scope.

(** ** Lowest terms *)

Definition lowest (i : RationalIndex) : Prop :=
  0 < numerator i /\ 0 < denominator i /\ Z.gcd (numerator i) (denominator i) = 1.

Lemma reduce_spec n d :
  0 < n -> 0 < d ->
  exists i, reduce n d = Ok i /\ lowest i /\ numerator i * d = n * denominator i.
Proof.
  intros Hn Hd. unfold reduce. rewrite (proj2 (Z.ltb_ge n 0)), (proj2 (Z.leb_gt d 0)) by lia.
  cbn [orb negb require]. rewrite bind_Ok. eexists. split; [done|].
  destruct (reduced_spec n d Hn Hd) as (H1 & H2 & H3 & H4). done.
Qed.

Lemma lowest_unique i j :
  lowest i -> lowest j -> numerator i * denominator j = numerator j * denominator i -> i = j.
Proof.
  destruct i as [a b], j as [c d]. unfold lowest. simpl. intros (Ha & Hb & Hg) (Hc & Hd & Hg') He.
  destruct (coprime_unique a b c d) as [-> ->]; done.
Qed.

Lemma parsePositiveDecimal_Ok value i :
  parsePositiveDecimal value = Ok i -> lowest i.
Proof.
  unfold parsePositiveDecimal. intros H. minv H.
  destruct (plain_decimal (chars value)) as [[w f]|] eqn:E; [|done]. minv R0. breflect.
  pose proof (BigInt_bounds (w ++ f)) as Hb.
  apply plain_decimal_digits in E as [Hw%all_digits_forallb Hf].
  destruct Hb as [Hb _]; [by rewrite forallb_app, Hw, Hf|].
  destruct (reduce_spec (BigInt (w ++ f)) (10 ^ js_length f)) as (j & Hj & Hl & _).
  - lia.
  - unfold js_length. lia.
  - match goal with H : reduce _ _ = Ok i |- _ => rewrite Hj in H; injection H as <- end. done.
Qed.

(** ** Journal products *)

(** The factor an event contributes, as a pair of positive integers. *)
Definition event_factor (year : Z) (e : AnnualEventRecord) : Z * Z :=
  if counts_in year e then
    match parsePositiveDecimal (e_m0 e), parsePositiveDecimal (e_m1 e) with
    | Ok m0, Ok m1 => (numerator m0 * denominator m1, denominator m0 * numerator m1)
    | _, _ => (1, 1)
    end
  else (1, 1).

Definition num_product year (l : list AnnualEventRecord) : Z := prodZ ((fun e => (event_factor year e).1) <$> l).
Definition den_product year (l : list AnnualEventRecord) : Z := prodZ ((fun e => (event_factor year e).2) <$> l).


Lemma event_factor_pos year e : 0 < (event_factor year e).1 /\ 0 < (event_factor year e).2.
Proof.
  unfold event_factor. destruct (counts_in year e); [|done].
  destruct (parsePositiveDecimal (e_m0 e)) as [a|] eqn:Ea; [|done].
  destruct (parsePositiveDecimal (e_m1 e)) as [b|] eqn:Eb; [|done].
  apply parsePositiveDecimal_Ok in Ea as (? & ? & _), Eb as (? & ? & _). simpl. nia.
Qed.


Lemma products_pos year l : 0 < num_product year l /\ 0 < den_product year l.
Proof.
  split; apply prodZ_pos, Forall_fmap, Forall_forall; intros e _; apply (event_factor_pos year e).
Qed.

(** A stored event parses, and a qualified one does not decrease. *)
Definition event_parses (e : AnnualEventRecord) : Prop :=
  exists m0 m1, parsePositiveDecimal (e_m0 e) = Ok m0 /\ parsePositiveDecimal (e_m1 e) = Ok m1 /\
    (e_status e = qualified ->
     numerator m0 * denominator m1 <= numerator m1 * denominator m0).

Lemma index_step_Ok year i e :
  lowest i -> event_parses e ->
  exists j, index_step year i e = Ok j /\ lowest j /\
    numerator j * (denominator i * (event_factor year e).2)
      = numerator i * (event_factor year e).1 * denominator j.
Proof.
  intros (Hn & Hd & Hg) (m0 & m1 & H0 & H1 & _). unfold index_step, event_factor.
  rewrite H0, H1. destruct (counts_in year e); simpl negb; cbv iota.
  - rewrite !bind_Ok.
    apply parsePositiveDecimal_Ok in H0 as (? & ? & _), H1 as (? & ? & _).
    destruct (reduce_spec (numerator i * numerator m0 * denominator m1)
                (denominator i * denominator m0 * numerator m1)) as (j & Hj & Hl & He);
      [nia..|]. exists j. split; [done|]. split; [done|]. simpl. nia.
  - exists i. split; [done|]. split; [done|]. simpl. lia.
Qed.

Lemma index_fold year l i0 :
  lowest i0 -> Forall event_parses l ->
  exists i, foldM (index_step year) i0 l = Ok i /\ lowest i /\
    numerator i * (denominator i0 * den_product year l) = numerator i0 * num_product year l * denominator i.
Proof.
  intros Hi0 Hl. revert i0 Hi0. induction Hl as [|e l He Hl IH]; intros i0 Hi0.
  - exists i0. simpl. split; [done|]. split; [done|]. unfold num_product, den_product. simpl. lia.
  - destruct (index_step_Ok year i0 e Hi0 He) as (j & Hj & Hlj & Hej).
    destruct (IH j Hlj) as (i & Hi & Hli & Hei). exists i. cbn [foldM].
    rewrite Hj, bind_Ok. split; [done|]. split; [done|].
    unfold num_product, den_product in *. rewrite !fmap_cons. cbn [prodZ].
    pose proof (event_factor_pos year e). destruct Hlj as (? & ? & _), Hi0 as (? & ? & _).
    set (dp := prodZ ((fun e => (event_factor year e).2) <$> l)) in *.
    set (np := prodZ ((fun e => (event_factor year e).1) <$> l)) in *. clearbody np dp.
    destruct (event_factor year e) as [fn fd]. cbn [fst snd] in *. clear - Hei Hej H H0 H1.
    apply (Z.mul_reg_r _ _ (denominator j)); [lia|].
    transitivity ((numerator i * (denominator j * dp)) * (denominator i0 * fd)); [ring|].
    rewrite Hei. transitivity ((numerator j * (denominator i0 * fd)) * np * denominator i); [ring|].
    rewrite Hej. ring.
Qed.

Lemma lowest_one : lowest (Index 1 1).
Proof. done. Qed.

(** The index of a journal is its product in lowest terms. *)
Lemma index_of_journal year l :
  Forall event_parses l ->
  exists i, foldM (index_step year) (Index 1 1) l = Ok i /\ lowest i /\
    numerator i * den_product year l = num_product year l * denominator i.
Proof.
  intros Hl. destruct (index_fold year l (Index 1 1) lowest_one Hl) as (i & Hi & Hlo & He).
  exists i. split; [done|]. split; [done|]. cbn [numerator denominator] in He. lia.
Qed.

Lemma products_le year l :
  Forall event_parses l -> num_product year l <= den_product year l.
Proof.
  induction 1 as [|e l He Hl IH]; [done|]. pose proof (event_factor_pos year e) as [H1 H2]. pose proof (products_pos year l) as [H3 H4].
  unfold num_product, den_product in *. rewrite !fmap_cons. cbn [prodZ].
  apply Z.mul_le_mono_nonneg; [lia| |lia|done].
  unfold event_factor. destruct (counts_in year e) eqn:Ec; [|done].
  destruct He as (m0 & m1 & -> & -> & Hq). simpl.
  unfold counts_in in Ec. destruct (e_exDate e); [|done]. breflect. specialize (Hq ltac:(done)). lia.
Qed.

(** Dividends only lower the principal index. *)
Lemma index_le_one year l i :
  Forall event_parses l -> foldM (index_step year) (Index 1 1) l = Ok i ->
  lowest i /\ numerator i <= denominator i.
Proof.
  intros Hl Hi. destruct (index_of_journal year l Hl) as (j & Hj & Hlo & He).
  rewrite Hi in Hj. injection Hj as <-. split; [done|].
  pose proof (products_le year l Hl). pose proof (products_pos year l). destruct Hlo as (? & ? & _). nia.
Qed.

Lemma index_permutation year l k i :
  Permutation l k -> Forall event_parses l ->
  foldM (index_step year) (Index 1 1) l = Ok i -> foldM (index_step year) (Index 1 1) k = Ok i.
Proof.
  intros Hp Hl Hi. destruct (index_of_journal year l Hl) as (i' & Hi' & Hlo & He).
  rewrite Hi in Hi'. injection Hi' as <-.
  destruct (index_of_journal year k) as (j & Hj & Hlj & Hej); [by rewrite <- Hp|].
  rewrite Hj. f_equal. apply lowest_unique; [done..|].
  assert (num_product year k = num_product year l /\ den_product year k = den_product year l) as [En Ed].
  { split; symmetry; apply prodZ_perm; by rewrite Hp. }
  rewrite En, Ed in Hej. pose proof (products_pos year l). destruct Hlo as (? & ? & _), Hlj as (? & ? & _).
  apply (Z.mul_reg_r _ _ (den_product year l)); [lia|].
  transitivity ((numerator j * den_product year l) * denominator i); [ring|]. rewrite Hej.
  transitivity ((numerator i * den_product year l) * denominator j); [rewrite He; ring|ring].
Qed.
