(* ===== verification/AnnualLedger.v ===== *)
(** * Annual reference model: the invariant

    What holds of every state of an [AnnualReferenceModel] object, and that
    every method preserves it: the account balances add up to the supplies,
    every claim ever issued is outstanding, burned or redeemed, the journal
    holds validated events only, and a finalized series pays from two abstract
    redemption pools. *)
From S2P Require Import Prelude Js Payout Calendar Annual AnnualIndex.
From Stdlib Require Import Zquot.
Open Scope Z_scope.

(** ** The invariant *)

Definition u64 (n : Z) : Prop := 0 <= n <= U64_MAX.

Definition account_ok (a : AnnualAccountState) : Prop :=
  0 <= collateralRaw a /\ 0 <= ptRaw a /\ 0 <= drRaw a.

(** The accounts hold [ptS] and [drS] claims in all. *)
Definition accounts_ok (l : list (string * AnnualAccountState)) (ptS drS : Z) : Prop :=
  NoDup l.*1 /\ (forall id a, om_get l id = Some a -> text_ok id = true /\ account_ok a) /\
  om_sum ptRaw l = ptS /\ om_sum drRaw l = drS.

(** Every claim issued is outstanding, burned outside the model or redeemed. *)
Record books_ok (m : Model) : Prop := {
  bo_nonneg : 0 <= externallyBurnedPtRaw m /\ 0 <= externallyBurnedDrRaw m /\
              0 <= redeemedPtClaimsRaw m /\ 0 <= redeemedDrClaimsRaw m /\
              0 <= actualCustodyRaw m /\ 0 <= donationsRaw m;
  bo_pt : ptSupplyRaw m + externallyBurnedPtRaw m + redeemedPtClaimsRaw m = accountableRaw m;
  bo_dr : drSupplyRaw m + externallyBurnedDrRaw m + redeemedDrClaimsRaw m = accountableRaw m;
  bo_bound : u64 (accountableRaw m);
}.

Record journal_ok (m : Model) : Prop := {
  jo_nodup : NoDup (events m).*1;
  jo_length : Z.of_nat (length (events m)) <= MAX_EVENT_IDS;
  jo_valid k e : In (k, e) (events m) -> k = e_id e /\ validateEvent (term m) e = Ok e;
}.

(** The allocation the journal gives, whether or not the series is final. *)
Definition journal_allocation (m : Model) : res AnnualAllocation := previewAllocation (set_snapshot None m).

Definition pt_pool_of (m : Model) (s : AnnualFinalSnapshot) : pool_state :=
  Pool (al_ptPoolRaw (sn_allocation s)) (supplyDenominatorRaw s) (redeemedPtClaimsRaw m)
    (al_ptPoolRaw (sn_allocation s) - remainingPtPoolRaw m).
Definition dr_pool_of (m : Model) (s : AnnualFinalSnapshot) : pool_state :=
  Pool (al_drPoolRaw (sn_allocation s)) (supplyDenominatorRaw s) (redeemedDrClaimsRaw m)
    (al_drPoolRaw (sn_allocation s) - remainingDrPoolRaw m).

(** Before finalization nothing is redeemed; afterwards the pools are those of
    the journal and have paid the floor share of the claims redeemed. *)
Definition snapshot_ok (m : Model) : Prop :=
  match snapshot m with
  | None => redeemedPtClaimsRaw m = 0 /\ redeemedDrClaimsRaw m = 0 /\
            remainingPtPoolRaw m = 0 /\ remainingDrPoolRaw m = 0
  | Some s =>
      journal_allocation m = Ok (sn_allocation s) /\ supplyDenominatorRaw s = accountableRaw m /\
      p_paid (pt_pool_of m s) =
        floor_share (p_pool (pt_pool_of m s)) (p_den (pt_pool_of m s)) (p_redeemed (pt_pool_of m s)) /\
      p_paid (dr_pool_of m s) =
        floor_share (p_pool (dr_pool_of m s)) (p_den (dr_pool_of m s)) (p_redeemed (dr_pool_of m s))
  end.

Record annual_ok (m : Model) : Prop := {
  ao_accounts : accounts_ok (accounts m) (ptSupplyRaw m) (drSupplyRaw m);
  ao_books : books_ok m;
  ao_journal : journal_ok m;
  ao_snapshot : snapshot_ok m;
}.

(** ** Reading the parts of a successful call *)

Lemma checkedRaw_Ok v z r : checkedRaw v z = Ok r -> r = v /\ u64 v /\ (z = false -> 0 < v).
Proof.
  unfold checkedRaw, u64. intros H. minv H. breflect. split; [done|].
  destruct z; simpl in *; breflect; lia.
Qed.
Lemma checkedRaw_true v z : u64 v -> (z = false -> 0 < v) -> checkedRaw v z = Ok v.
Proof.
  unfold u64, checkedRaw. intros Hv Hz.
  destruct (v <? 0) eqn:E1; [breflect; lia|]. destruct (U64_MAX <? v) eqn:E2; [breflect; lia|].
  destruct z; [done|]. destruct (v =? 0) eqn:E3; [|done]. breflect. lia.
Qed.
Lemma addU64_Ok a b r : addU64 a b = Ok r -> r = a + b /\ u64 (a + b).
Proof. unfold addU64. intros H. minv H. found checkedRaw_Ok as (_ & ? & _). done. Qed.
Lemma addU64_true a b : u64 (a + b) -> addU64 a b = Ok (a + b).
Proof. intros H. unfold addU64. by rewrite checkedRaw_true. Qed.
Lemma checkedNow_Ok n r : checkedNow n = Ok r -> r = n /\ 0 <= n.
Proof. unfold checkedNow. intros H. minv H. breflect. lia. Qed.

Lemma requireAccount_Ok id m a m' :
  requireAccount id m = (Ok a, m') -> m' = m /\ om_get (accounts m) id = Some a.
Proof.
  unfold requireAccount. intros H. minv H.
  match goal with H : checkedAccountId id = Ok ?x |- _ => unfold checkedAccountId in H; minv H end.
  destruct (om_get _ _) eqn:E; [|done]. split; [done|]. congruence.
Qed.

Lemma requireCustodyAvailable_Ok m u m' :
  requireCustodyAvailable true m = (Ok u, m') ->
  m' = m /\ custodyBlocked m = false /\ obligation m <= actualCustodyRaw m.
Proof. unfold requireCustodyAvailable. cbn [negb]. intros H. minv H. breflect. done. Qed.

Lemma assign_account_run id f m a :
  om_get (accounts m) id = Some a ->
  assign_account id f m = (Ok tt, set_accounts (om_set (accounts m) id (f a)) m).
Proof. intros H. unfold assign_account, modify. by rewrite H. Qed.

(** ** Accounts *)

Section accounts.
Context (l : list (string * AnnualAccountState)) (ptS drS : Z) (Hl : accounts_ok l ptS drS).

Lemma accounts_ok_set id a a' :
  om_get l id = Some a -> account_ok a' ->
  accounts_ok (om_set l id a') (ptS - ptRaw a + ptRaw a') (drS - drRaw a + drRaw a').
Proof.
  destruct Hl as (Hnd & Hok & Hp & Hd). intros Ha Ha'.
  split; [by apply om_set_NoDup|]. split.
  - intros id' x. destruct (decide (id = id')) as [<-|Hne].
    + rewrite om_get_set_eq. intros [= <-]. split; [by eapply Hok|done].
    + rewrite om_get_set_ne by done. apply Hok.
  - rewrite !(om_sum_set_Some _ _ _ _ a) by done. lia.
Qed.

Lemma accounts_ok_get id a :
  om_get l id = Some a -> account_ok a /\ ptRaw a <= ptS /\ drRaw a <= drS.
Proof.
  destruct Hl as (Hnd & Hok & <- & <-). intros Ha. split; [by eapply Hok|].
  split; apply (om_sum_ge _ _ id); try done; intros k v Hin; apply (om_In_get _ _ _ Hnd) in Hin;
    apply Hok in Hin; apply Hin.
Qed.

Lemma accounts_ok_nonneg : 0 <= ptS /\ 0 <= drS.
Proof.
  destruct Hl as (Hnd & Hok & <- & <-).
  split; apply om_sum_nonneg; intros k v Hin; apply (om_In_get _ _ _ Hnd) in Hin; apply Hok in Hin; apply Hin.
Qed.
End accounts.

(** ** The journal's allocation *)

Lemma validateEvent_parses t e e' : validateEvent t e = Ok e' -> e' = e /\ event_parses e.
Proof.
  unfold validateEvent, checkedText. intros H. minv H. split; [by destruct e|].
  match goal with H0 : parsePositiveDecimal (e_m0 e) = Ok ?a, H1 : parsePositiveDecimal (e_m1 e) = Ok ?b |- _ =>
    exists a, b; split; [done|]; split; [done|] end.
  intros Hq. rewrite Hq in *. unfold compare in *.
  match goal with H : negb (_ && _ && _) = true |- _ => rewrite !andb_true_r in H end.
  destruct (_ - _ <? 0) eqn:E; [done|]. breflect. lia.
Qed.

Lemma journal_parses m : journal_ok m -> Forall event_parses (events m).*2.
Proof.
  intros [_ _ Hv]. apply Forall_fmap, Forall_forall. intros [k e] Hin.
  rewrite list_elem_of_In in Hin. destruct (Hv k e Hin) as [_ H].
  by destruct (validateEvent_parses _ _ _ H).
Qed.

(** The allocation always exists and splits the accountable amount. *)
Lemma journal_allocation_spec m :
  journal_ok m -> 0 <= accountableRaw m ->
  exists a, journal_allocation m = Ok a /\ al_accountableRaw a = accountableRaw m /\
    currentIndex m = Ok (al_index a) /\
    lowest (al_index a) /\ numerator (al_index a) <= denominator (al_index a) /\
    al_drPoolRaw a =
      accountableRaw m * (denominator (al_index a) - numerator (al_index a)) / denominator (al_index a) /\
    al_ptPoolRaw a + al_drPoolRaw a = accountableRaw m /\ 0 <= al_drPoolRaw a <= accountableRaw m.
Proof.
  intros Hj Hacc. pose proof (journal_parses m Hj) as Hp.
  destruct (index_of_journal (t_year (term m)) _ Hp) as (i & Hi & _).
  destruct (index_le_one _ _ _ Hp Hi) as [Hlo Hle].
  unfold journal_allocation, previewAllocation, currentIndex. simpl. rewrite Hi, bind_Ok.
  destruct Hlo as (Hn & Hd & Hg).
  eexists. split; [done|]. cbn [al_accountableRaw al_index al_drPoolRaw al_ptPoolRaw].
  rewrite Z.quot_div_nonneg by nia.
  split; [done|]. split; [done|]. split; [done|]. split; [done|]. split; [done|]. split; [lia|].
  split; [apply Z.div_pos; nia|]. apply Z.div_le_upper_bound; nia.
Qed.

Lemma allocation_frame m m' :
  term m' = term m -> events m' = events m -> accountableRaw m' = accountableRaw m ->
  journal_allocation m' = journal_allocation m.
Proof. intros H1 H2 H3. unfold journal_allocation, previewAllocation, currentIndex. simpl. by rewrite H1, H2, H3. Qed.

(** Takes a successful call apart; the state reached ends up as the nested
    assignments to the initial one. *)
Ltac call_inv H :=
  minv H;
  repeat first
    [ found requireAccount_Ok as [-> ?]
    | found requireCustodyAvailable_Ok as (-> & ? & ?)
    | found checkedRaw_Ok as (-> & ? & ?)
    | found addU64_Ok as (-> & ?)
    | found checkedNow_Ok as (-> & ?)
    | match goal with H : modify _ _ = (Ok _, _) |- _ => injection H as _ <- end
    | match goal with H : assign_account ?id ?f ?m = (Ok _, _) |- _ =>
        erewrite (assign_account_run id f m) in H by (cbn; rewrite ?om_get_set_eq; first [eassumption|reflexivity]);
        injection H as _ <- end ];
  cbn in *; rewrite ?om_set_set in *; breflect.

(** What the invariant says of the accounts and books in the context. *)
Ltac account_facts Hinv :=
  repeat match goal with
  | H : om_get (accounts _) ?id = Some ?a |- _ =>
      lazymatch goal with
      | K : account_ok a |- _ => fail
      | _ => destruct (accounts_ok_get _ _ _ (ao_accounts _ Hinv) id a H) as [? [? ?]]
      end
  end;
  destruct (ao_books _ Hinv) as [(? & ? & ? & ? & ? & ?) Hpt Hdr Hb]; unfold account_ok, u64 in *.

(** ** Every method preserves the invariant *)

Section preservation.
Implicit Types (m : Model).

Lemma is_finalized_false m : is_finalized m = false -> snapshot m = None.
Proof. unfold is_finalized. by destruct (snapshot m). Qed.

(** Books and snapshot, from the values they depend on. *)
Lemma snapshot_ok_frame m m' :
  snapshot_ok m -> term m' = term m -> events m' = events m -> accountableRaw m' = accountableRaw m ->
  snapshot m' = snapshot m ->
  redeemedPtClaimsRaw m' = redeemedPtClaimsRaw m -> redeemedDrClaimsRaw m' = redeemedDrClaimsRaw m ->
  remainingPtPoolRaw m' = remainingPtPoolRaw m -> remainingDrPoolRaw m' = remainingDrPoolRaw m ->
  snapshot_ok m'.
Proof.
  unfold snapshot_ok, pt_pool_of, dr_pool_of. intros Hs Ht He Ha -> -> -> -> ->.
  rewrite (allocation_frame m m') by done. by rewrite Ha.
Qed.

Lemma journal_ok_frame m m' : journal_ok m -> term m' = term m -> events m' = events m -> journal_ok m'.
Proof. intros [H1 H2 H3] Ht He. split; rewrite ?He, ?Ht; done. Qed.

Lemma unfinalized_ok m : annual_ok m -> snapshot m = None ->
  redeemedPtClaimsRaw m = 0 /\ redeemedDrClaimsRaw m = 0 /\ remainingPtPoolRaw m = 0 /\ remainingDrPoolRaw m = 0.
Proof. intros [_ _ _ H] Hs. unfold snapshot_ok in H. by rewrite Hs in H. Qed.

(** One account changes and the supplies follow. *)
Lemma accounts_update m m' id a a' :
  annual_ok m -> om_get (accounts m) id = Some a -> account_ok a' ->
  accounts m' = om_set (accounts m) id a' ->
  ptSupplyRaw m' = ptSupplyRaw m - ptRaw a + ptRaw a' ->
  drSupplyRaw m' = drSupplyRaw m - drRaw a + drRaw a' ->
  accounts_ok (accounts m') (ptSupplyRaw m') (drSupplyRaw m').
Proof. intros Hinv Ha Ha' -> -> ->. apply accounts_ok_set; [apply Hinv|done|done]. Qed.

Lemma deposit_ok id raw t m u m' : annual_ok m -> deposit id raw t m = (Ok u, m') -> annual_ok m'.
Proof.
  intros Hinv H. unfold deposit in H. call_inv H.
  match goal with H : is_finalized m = false |- _ => apply is_finalized_false in H as Hsn end.
  destruct (unfinalized_ok m Hinv Hsn) as (Z1 & Z2 & Z3 & Z4). account_facts Hinv. split.
  - eapply (accounts_update m); [done..| |reflexivity|cbn; lia|cbn; lia]. unfold account_ok; cbn; lia.
  - split; cbn; unfold u64; lia.
  - by apply (journal_ok_frame m); [apply Hinv|..].
  - unfold snapshot_ok. cbn. by rewrite Hsn.
Qed.

Lemma recombine_ok id raw m u m' : annual_ok m -> recombine id raw m = (Ok u, m') -> annual_ok m'.
Proof.
  intros Hinv H. unfold recombine in H. call_inv H.
  match goal with H : is_finalized m = false |- _ => apply is_finalized_false in H as Hsn end.
  destruct (unfinalized_ok m Hinv Hsn) as (Z1 & Z2 & Z3 & Z4). account_facts Hinv.
  unfold obligation in *. rewrite Hsn in *. split.
  - eapply (accounts_update m); [done..| |reflexivity|cbn; lia|cbn; lia]. unfold account_ok; cbn; lia.
  - split; cbn; unfold u64; lia.
  - by apply (journal_ok_frame m); [apply Hinv|..].
  - unfold snapshot_ok. cbn. by rewrite Hsn.
Qed.

Lemma burn_ok id side raw m u m' : annual_ok m -> burn id side raw m = (Ok u, m') -> annual_ok m'.
Proof.
  intros Hinv H. unfold burn in H. destruct side; call_inv H; account_facts Hinv; split;
    try (eapply (accounts_update m); [done..| |reflexivity|cbn; lia|cbn; lia]; unfold account_ok; cbn; lia);
    try (split; cbn; unfold u64; lia);
    try (by apply (journal_ok_frame m); [apply Hinv|..]);
    by apply (snapshot_ok_frame m); [apply Hinv|..].
Qed.

Lemma donate_ok raw m u m' : annual_ok m -> donate raw m = (Ok u, m') -> annual_ok m'.
Proof.
  intros Hinv H. unfold donate in H. call_inv H. account_facts Hinv. split.
  - apply Hinv.
  - split; cbn; unfold u64; lia.
  - by apply (journal_ok_frame m); [apply Hinv|..].
  - by apply (snapshot_ok_frame m); [apply Hinv|..].
Qed.

Lemma setCustodyBlocked_ok b m u m' : annual_ok m -> setCustodyBlocked b m = (Ok u, m') -> annual_ok m'.
Proof.
  intros Hinv H. unfold setCustodyBlocked in H. call_inv H. split; try apply Hinv.
  - destruct (ao_books _ Hinv). by split.
  - by apply (journal_ok_frame m); [apply Hinv|..].
Qed.

Lemma reportActualCustody_ok raw m u m' :
  annual_ok m -> reportActualCustody raw m = (Ok u, m') -> annual_ok m'.
Proof.
  intros Hinv H. unfold reportActualCustody in H. call_inv H. account_facts Hinv. split; try apply Hinv.
  - split; cbn; unfold u64; lia.
  - by apply (journal_ok_frame m); [apply Hinv|..].
Qed.

(** Two accounts change and the supplies do not. *)
Lemma transfer_ok a b side raw m u m' : annual_ok m -> transfer a b side raw m = (Ok u, m') -> annual_ok m'.
Proof.
  intros Hinv H. unfold transfer in H. minv H.
  repeat first
    [ found requireAccount_Ok as [-> ?] | found checkedRaw_Ok as (-> & ? & ?) | found addU64_Ok as (-> & ?) ].
  breflect.
  match goal with X : om_get (accounts m) a = Some ?x, Y : om_get (accounts m) b = Some ?y |- _ =>
    rename X into Ha, Y into Hto; rename x into from, y into to end.
  match goal with H : assign_account a _ m = _ |- _ =>
    rewrite (assign_account_run _ _ _ from Ha) in H; injection H as _ <- end.
  match goal with H : assign_account b _ _ = _ |- _ =>
    rewrite (assign_account_run _ _ _ to) in H by (cbn; by rewrite om_get_set_ne); injection H as _ <- end.
  account_facts Hinv. split; cbn; try apply Hinv.
  - set (from' := set_side_raw _ _ from). set (to' := set_side_raw _ _ to).
    assert (account_ok from' /\ account_ok to') as [Hf Ht]
      by (destruct side; unfold account_ok; cbn in *; lia).
    pose proof (accounts_ok_set _ _ _ (accounts_ok_set _ _ _ (ao_accounts _ Hinv) a from from' Ha Hf)
      b to to' ltac:(by rewrite om_get_set_ne) Ht) as Hset.
    destruct side; cbn in *;
      [replace (ptSupplyRaw m) with (ptSupplyRaw m - ptRaw from + (ptRaw from - raw) - ptRaw to + (ptRaw to + raw)) by lia;
       replace (drSupplyRaw m) with (drSupplyRaw m - drRaw from + drRaw from - drRaw to + drRaw to) by lia
      |replace (ptSupplyRaw m) with (ptSupplyRaw m - ptRaw from + ptRaw from - ptRaw to + ptRaw to) by lia;
       replace (drSupplyRaw m) with (drSupplyRaw m - drRaw from + (drRaw from - raw) - drRaw to + (drRaw to + raw)) by lia];
      exact Hset.
  - destruct (ao_books _ Hinv). by split.
  - by apply (journal_ok_frame m); [apply Hinv|..].
Qed.

(** What a successful [recordEvent] does: nothing, or it stores the record. *)
Lemma recordEvent_Ok e m r m' :
  recordEvent e m = (Ok r, m') ->
  snapshot m = None /\ validateEvent (term m) e = Ok e /\
  match r with
  | idempotent => m' = m /\ om_get (events m) (e_id e) = Some e
  | accepted =>
      m' = set_events (om_set (events m) (e_id e) e) m /\
      match om_get (events m) (e_id e) with
      | Some previous => e_revision previous < e_revision e
      | None => Z.of_nat (length (events m)) < MAX_EVENT_IDS
      end
  end.
Proof.
  intros H. unfold recordEvent in H. minv H. breflect.
  match goal with H : is_finalized m = false |- _ => apply is_finalized_false in H end.
  match goal with H : validateEvent _ _ = Ok ?x |- _ =>
    destruct (validateEvent_parses _ _ _ H) as [-> _] end.
  match goal with H : _ = (Ok r, m') |- _ => rename H into Hset end.
  split; [done|]. split; [done|].
  destruct (om_get (events m) (e_id e)) as [prev|] eqn:Eg.
  - destruct (_ && _) eqn:Es; minv Hset.
    + apply andb_prop in Es as [_ Es]. unfold same_canonicalRecord in Es. breflect. subst. done.
    + breflect. split; [done|]. lia.
  - minv Hset. breflect. split; [done|]. lia.
Qed.

Lemma recordEvent_ok e m r m' : annual_ok m -> recordEvent e m = (Ok r, m') -> annual_ok m'.
Proof.
  intros Hinv H. destruct (recordEvent_Ok e m r m' H) as (Hsn & Hv & Hr).
  destruct r; destruct Hr as [-> Hr]; [|done].
  destruct (unfinalized_ok m Hinv Hsn) as (Z1 & Z2 & Z3 & Z4).
  destruct (ao_journal _ Hinv) as [Hnd Hlen Hall]. split; cbn; try apply Hinv.
  - destruct (ao_books _ Hinv). by split.
  - split; cbn.
    + by apply om_set_NoDup.
    + rewrite om_length_set. unfold om_has. destruct (om_get _ _); lia.
    + intros k x [[-> ->]|Hin]%om_set_In; [done|]. by apply Hall.
  - unfold snapshot_ok. cbn. by rewrite Hsn.
Qed.

Lemma finalize_Ok t b m s m' :
  finalize t b m = (Ok s, m') ->
  snapshot m = None /\ b = true /\ maturitySeconds m <= t /\ custodyBlocked m = false /\
  accountableRaw m <= actualCustodyRaw m /\ foldM event_final tt (events m).*2 = Ok tt /\
  exists al, journal_allocation m = Ok al /\ s = Snapshot al (accountableRaw m) /\
    m' = set_remainingDrPoolRaw (al_drPoolRaw al) (set_remainingPtPoolRaw (al_ptPoolRaw al) (set_snapshot (Some s) m)).
Proof.
  intros H. unfold finalize in H. call_inv H.
  match goal with H : is_finalized m = false |- _ => apply is_finalized_false in H as Hsn end.
  unfold obligation in *. rewrite Hsn in *.
  match goal with H : foldM _ _ _ = Ok ?x |- _ => destruct x end.
  split_and!; try done. match goal with H : previewAllocation m = Ok ?x |- _ => exists x end.
  split; [|done]. unfold journal_allocation, previewAllocation in *. cbn. by rewrite Hsn in *.
Qed.

Lemma finalize_ok t b m s m' : annual_ok m -> finalize t b m = (Ok s, m') -> annual_ok m'.
Proof.
  intros Hinv H. destruct (finalize_Ok t b m s m' H) as (Hsn & _ & _ & _ & _ & _ & al & Hal & -> & ->).
  destruct (unfinalized_ok m Hinv Hsn) as (Z1 & Z2 & Z3 & Z4).
  split; cbn; try apply Hinv.
  - destruct (ao_books _ Hinv). by split.
  - by apply (journal_ok_frame m); [apply Hinv|..].
  - unfold snapshot_ok. cbn. rewrite Z1, Z2. split; [by rewrite <- Hal; apply allocation_frame|].
    rewrite !floor_share_zero. split; [done|]. lia.
Qed.

Lemma annual_previewRedemption_Ok id side raw m pay m' :
  previewRedemption id side raw m = (Ok pay, m') ->
  m' = m /\ exists a s, om_get (accounts m) id = Some a /\ snapshot m = Some s /\ u64 raw /\ 0 < raw /\
    raw <= side_raw side a /\
    pay = match side with
          | pt => payout (al_ptPoolRaw (sn_allocation s)) (supplyDenominatorRaw s) (redeemedPtClaimsRaw m) raw
          | dr => payout (al_drPoolRaw (sn_allocation s)) (supplyDenominatorRaw s) (redeemedDrClaimsRaw m) raw
          end.
Proof.
  intros H. unfold previewRedemption in H. call_inv H.
  destruct (snapshot m) as [s|] eqn:Es; [|done].
  match goal with H : _ = (Ok pay, m') |- _ => rename H into Hp end. minv Hp. breflect.
  match goal with H : _ = (Ok pay, m') |- _ => rename H into Hp end.
  destruct (supplyDenominatorRaw s =? 0) eqn:Ed; injection Hp as <- <-; breflect;
    (split; [done|]); eexists _, s; (split; [eassumption|]); split_and!; try done; try auto;
    unfold payout, floor_share; rewrite ?Ed; [|by destruct side].
  destruct side; by rewrite !Zquot_0_r.
Qed.

(** The two sides of a finalized series in one notation. *)
Definition side_pool (side : AnnualClaimSide) m s : pool_state :=
  match side with pt => pt_pool_of m s | dr => dr_pool_of m s end.
Definition other_side (side : AnnualClaimSide) : AnnualClaimSide :=
  match side with pt => dr | dr => pt end.
Definition side_supply (side : AnnualClaimSide) m : Z :=
  match side with pt => ptSupplyRaw m | dr => drSupplyRaw m end.
Definition side_remaining (side : AnnualClaimSide) m : Z :=
  match side with pt => remainingPtPoolRaw m | dr => remainingDrPoolRaw m end.

(** The state a redemption of [raw] claims for [pay] leaves. *)
Definition redeemed_state (side : AnnualClaimSide) id (a : AnnualAccountState) raw pay m : Model :=
  set_actualCustodyRaw (actualCustodyRaw m - pay)
    (set_accounts (om_set (accounts m) id
        (set_collateralRaw (collateralRaw a + pay) (set_side_raw side (side_raw side a - raw) a)))
      (match side with
       | pt => set_remainingPtPoolRaw (remainingPtPoolRaw m - pay)
                 (set_redeemedPtClaimsRaw (redeemedPtClaimsRaw m + raw) (set_ptSupplyRaw (ptSupplyRaw m - raw) m))
       | dr => set_remainingDrPoolRaw (remainingDrPoolRaw m - pay)
                 (set_redeemedDrClaimsRaw (redeemedDrClaimsRaw m + raw) (set_drSupplyRaw (drSupplyRaw m - raw) m))
       end)).

Lemma redeem_Ok id side raw z m pay m' :
  redeem id side raw z m = (Ok pay, m') ->
  exists a s, om_get (accounts m) id = Some a /\ snapshot m = Some s /\ 0 < raw /\
    raw <= side_raw side a /\ pay = (pool_redeem (side_pool side m s) raw).1 /\
    pay <= side_remaining side m /\ u64 (collateralRaw a + pay) /\ obligation m <= actualCustodyRaw m /\
    m' = redeemed_state side id a raw pay m.
Proof.
  intros H. unfold redeem in H. minv H.
  repeat first
    [ found requireAccount_Ok as [-> ?] | found checkedRaw_Ok as (-> & ? & ?) | found addU64_Ok as (-> & ?)
    | found requireCustodyAvailable_Ok as (-> & ? & ?) ].
  found annual_previewRedemption_Ok as (-> & a' & s & Ha & Hs & _ & Hraw & Hle & Hpay).
  assert (a' = a) as -> by congruence.
  exists a, s.
  destruct side;
    (match goal with H : _ m = (Ok _, ?x), K : assign_account id _ ?x = _ |- _ => call_inv H end);
    split_and!; try done; auto.
Qed.

(** A finalized series with claims is a pair of sound redemption pools. *)
Lemma finalized_pools m s :
  annual_ok m -> snapshot m = Some s ->
  p_pool (side_pool pt m s) + p_pool (side_pool dr m s) = accountableRaw m /\
  0 <= remainingPtPoolRaw m /\ 0 <= remainingDrPoolRaw m /\
  forall side, p_den (side_pool side m s) = accountableRaw m /\
    (0 < accountableRaw m -> pool_ok (side_pool side m s)).
Proof.
  intros Hinv Hs. account_facts Hinv. pose proof (ao_snapshot _ Hinv) as Hsn.
  unfold snapshot_ok in Hsn. rewrite Hs in Hsn. destruct Hsn as (Hal & Hden & Hpp & Hdd).
  destruct (accounts_ok_nonneg _ _ _ (ao_accounts _ Hinv)) as [Hps Hds].
  destruct (journal_allocation_spec m (ao_journal _ Hinv)) as (al & Hal' & _ & _ & _ & _ & _ & Hsum & Hdr0);
    [lia|]. rewrite Hal in Hal'. injection Hal' as <-. clear Hal.
  split; [by cbn|].
  assert (forall side, 0 < accountableRaw m -> pool_ok (side_pool side m s)) as Hok
    by (intros [] ?; unfold pool_ok; cbn in *; split_and!; (done || lia)).
  destruct (decide (accountableRaw m = 0)) as [E0|E0].
  - cbn in *. rewrite Hden, E0 in *.
    assert (al_ptPoolRaw (sn_allocation s) = 0 /\ al_drPoolRaw (sn_allocation s) = 0) as [P0 D0] by lia.
    rewrite P0, D0, floor_share_empty in *. split; [lia|]. split; [lia|].
    intros []; cbn; split; lia || done.
  - split; [|split; [|intros side; split; [by destruct side|by apply Hok]]].
    + destruct (Hok pt ltac:(lia)) as (? & ? & ? & Hp). cbn in *.
      pose proof (floor_share_le_pool (al_ptPoolRaw (sn_allocation s)) (supplyDenominatorRaw s)
        ltac:(lia) ltac:(lia) (redeemedPtClaimsRaw m) ltac:(lia)). lia.
    + destruct (Hok dr ltac:(lia)) as (? & ? & ? & Hp). cbn in *.
      pose proof (floor_share_le_pool (al_drPoolRaw (sn_allocation s)) (supplyDenominatorRaw s)
        ltac:(lia) ltac:(lia) (redeemedDrClaimsRaw m) ltac:(lia)). lia.
Qed.

(** What a redemption pays is there. *)
Lemma annual_redemption_fits m s side id a raw :
  annual_ok m -> om_get (accounts m) id = Some a -> snapshot m = Some s -> 0 < raw -> raw <= side_raw side a ->
  0 < accountableRaw m /\
  0 <= (pool_redeem (side_pool side m s) raw).1 <= side_remaining side m.
Proof.
  intros Hinv Ha Hs Hraw Hle. destruct (finalized_pools m s Hinv Hs) as (_ & Hr1 & Hr2 & Hpools).
  account_facts Hinv. assert (0 < accountableRaw m) as Hpos by (destruct side; cbn in *; lia).
  split; [done|]. destruct (Hpools side) as [Hden Hok]. destruct (Hok Hpos) as (H1' & H2' & H3' & H4').
  unfold pool_redeem. split; [apply payout_nonneg; cbn; lia|]. cbn [fst].
  pose proof (payout_le_remaining _ _ H1' H2' (p_redeemed (side_pool side m s)) raw
    ltac:(lia) ltac:(destruct side; cbn in *; lia) ltac:(lia)).
  destruct side; cbn in *; lia.
Qed.

Lemma redeem_ok id side raw z m pay m' : annual_ok m -> redeem id side raw z m = (Ok pay, m') -> annual_ok m'.
Proof.
  intros Hinv H. destruct (redeem_Ok _ _ _ _ _ _ _ H) as (a & s & Ha & Hs & Hraw & Hle & Hpay & Hrem & Hu & Hcu & ->).
  account_facts Hinv. pose proof (ao_snapshot _ Hinv) as Hsn. unfold snapshot_ok in Hsn. rewrite Hs in Hsn.
  destruct Hsn as (Hal & Hden & Hpp & Hdd).
  unfold obligation in Hcu. rewrite Hs in Hcu. destruct (finalized_pools m s Hinv Hs) as (_ & Hr1 & Hr2 & _).
  destruct (annual_redemption_fits m s side id a raw Hinv Ha Hs Hraw Hle) as (Hpos & Hp0 & _).
  rewrite <- Hpay in Hp0.
  split.
  - eapply (accounts_update m _ id a); [done..| |reflexivity| |];
      destruct side; unfold account_ok; cbn in *; lia.
  - destruct side; split; cbn in *; unfold u64; lia.
  - apply (journal_ok_frame m); [apply Hinv|by destruct side..].
  - unfold snapshot_ok. replace (snapshot (redeemed_state side id a raw pay m)) with (Some s) by (by destruct side).
    rewrite (allocation_frame m) by (by destruct side).
    unfold pool_redeem, payout in Hpay. destruct side; cbn in *; split_and!; try done; lia.
Qed.

Lemma exec_ok call m u m' : annual_ok m -> exec call m = (Ok u, m') -> annual_ok m'.
Proof.
  intros Hinv H. destruct call; cbn [exec] in H.
  - by eapply deposit_ok.
  - minv H. by eapply recordEvent_ok.
  - by eapply transfer_ok.
  - by eapply recombine_ok.
  - by eapply burn_ok.
  - minv H. by eapply finalize_ok.
  - minv H. by eapply redeem_ok.
  - by eapply donate_ok.
  - by eapply setCustodyBlocked_ok.
  - by eapply reportActualCustody_ok.
Qed.
End preservation.

(** ** A call that throws changes nothing

    [burn] and [redeem] add to a counter after they debited the account; the
    invariant shows that those additions cannot overflow. *)

Section failures.
Abbreviation same := (fun m : Model => m).

Lemma keeps_requireAccount id : keeps same (requireAccount id).
Proof.
  unfold requireAccount. apply keeps_bind; [done|intros ?]. by apply keeps_bind.
Qed.
Lemma keeps_requireCustody b : keeps same (requireCustodyAvailable b).
Proof.
  unfold requireCustodyAvailable. apply keeps_bind; [done|intros ?].
  apply keeps_bind; [done|intros ?]. by destruct b.
Qed.
Lemma succeeds_assign_account id f : succeeds (assign_account id f).
Proof. done. Qed.
#[local] Hint Resolve keeps_requireAccount keeps_requireCustody succeeds_assign_account : atomic.

Lemma annual_keeps_previewRedemption id side raw : keeps same (previewRedemption id side raw).
Proof.
  unfold previewRedemption.
  repeat first [ solve [eauto with atomic nocore] | apply keeps_bind; [|intros ?] | case_match ].
Qed.
#[local] Hint Resolve annual_keeps_previewRedemption : atomic.

Lemma addU64_issued a n total rest : 0 <= a -> 0 < n -> 0 <= rest -> a + n + rest <= total -> u64 total ->
  addU64 a n = Ok (a + n).
Proof. intros. apply addU64_true. unfold u64 in *. lia. Qed.

(** Peels a guard off a call that failed: either the guard threw, and nothing
    changed, or it passed. *)
Ltac peel H :=
  let K := fresh "K" in
  apply M_bind_Err_inv in H as [H|(? & ? & K & H)];
  [ refine (keeps_atomic same _ _ _ _ _ H); solve [eauto with atomic nocore]
  | first [ apply requireAccount_Ok in K as [-> ?] | apply requireCustodyAvailable_Ok in K as (-> & ? & ?)
          | apply annual_previewRedemption_Ok in K as (-> & ? & ? & ? & ? & ? & ? & ? & ?)
          | minv K; repeat first [ found checkedRaw_Ok as (-> & ? & ?) | found addU64_Ok as (-> & ?) ] ] ].

Lemma burn_atomic id side raw m e m' : annual_ok m -> burn id side raw m = (Err e, m') -> m' = m.
Proof.
  intros Hinv H. unfold burn in H. do 3 peel H. exfalso. breflect. account_facts Hinv.
  erewrite M_bind_run in H by (by apply assign_account_run).
  destruct side; erewrite M_bind_run in H by done; erewrite M_bind_run in H by done; cbn in *;
    erewrite M_bind_run in H by (unfold lift; rewrite addU64_true by (unfold u64; lia); done); done.
Qed.

Lemma M_bind_assoc {S E A B C} (m : M S E A) (f : A -> M S E B) (g : B -> M S E C) s :
  ((m ≫= f) ≫= g) s = (m ≫= fun a => f a ≫= g) s.
Proof. unfold mbind, M_bind. by destruct (m s) as [[a|e] s']. Qed.

Lemma requireAccount_run m id a :
  annual_ok m -> om_get (accounts m) id = Some a -> requireAccount id m = (Ok a, m).
Proof.
  intros Hinv Ha. destruct (ao_accounts _ Hinv) as (_ & Hok & _). destruct (Hok id a Ha) as [Ht _].
  unfold requireAccount, checkedAccountId. rewrite Ht.
  unfold mbind, M_bind, lift, get. cbn. by rewrite Ha.
Qed.

Lemma annual_previewRedemption_run m id side raw a s :
  annual_ok m -> om_get (accounts m) id = Some a -> snapshot m = Some s ->
  0 < raw <= U64_MAX -> raw <= side_raw side a ->
  previewRedemption id side raw m = (Ok (pool_redeem (side_pool side m s) raw).1, m).
Proof.
  intros Hinv Ha Hs Hraw Hle. unfold previewRedemption.
  erewrite M_bind_run by (by apply (requireAccount_run m id a)).
  erewrite M_bind_run by (unfold lift; rewrite checkedRaw_true; [done|unfold u64; lia|lia]).
  erewrite M_bind_run by done. cbn beta. rewrite Hs.
  erewrite M_bind_run by (apply ensure_run; apply negb_true_iff, Z.ltb_ge; lia).
  destruct (supplyDenominatorRaw s =? 0) eqn:E; breflect;
    destruct side; unfold pool_redeem, payout, floor_share; cbn; rewrite ?E, ?Zquot_0_r; done.
Qed.

(** A redemption goes through whenever the claims are held, custody is open
    and solvent and the credit fits. *)
Lemma annual_redeem_run m id side raw z a s :
  annual_ok m -> om_get (accounts m) id = Some a -> snapshot m = Some s ->
  0 < raw <= U64_MAX -> raw <= side_raw side a ->
  custodyBlocked m = false -> obligation m <= actualCustodyRaw m ->
  let pay := (pool_redeem (side_pool side m s) raw).1 in
  (pay = 0 -> z = true) -> u64 (collateralRaw a + pay) ->
  redeem id side raw z m = (Ok pay, redeemed_state side id a raw pay m).
Proof.
  intros Hinv Ha Hs Hraw Hle Hblk Hsol pay Hz Hu.
  destruct (annual_redemption_fits m s side id a raw Hinv Ha Hs ltac:(lia) Hle) as [_ Hfit]. fold pay in Hfit.
  account_facts Hinv. unfold redeem.
  erewrite M_bind_run by (by apply (requireAccount_run m id a)).
  erewrite M_bind_run by (unfold lift; rewrite checkedRaw_true; [done|unfold u64; lia|lia]).
  erewrite M_bind_run by (by apply (annual_previewRedemption_run m id side raw a s)). fold pay.
  erewrite M_bind_run by (apply ensure_run; destruct (pay =? 0) eqn:E; breflect; [by rewrite Hz|done]).
  erewrite M_bind_run by (unfold requireCustodyAvailable, mbind, M_bind, get, ensure, lift; cbn;
    rewrite Hblk; cbn; by rewrite (proj2 (Z.ltb_ge _ _) Hsol)).
  erewrite M_bind_run by (unfold lift; by rewrite addU64_true).
  erewrite M_bind_run by done.
  destruct side; cbn [side_remaining side_raw] in *;
    rewrite M_bind_assoc; (erewrite M_bind_run by (apply ensure_run; apply negb_true_iff, Z.ltb_ge; lia));
    rewrite M_bind_assoc; (erewrite M_bind_run by (by apply assign_account_run));
    rewrite M_bind_assoc; (erewrite M_bind_run by done);
    rewrite M_bind_assoc; (erewrite M_bind_run by done);
    rewrite M_bind_assoc; (erewrite M_bind_run by (unfold lift; cbn; rewrite addU64_true by (unfold u64; lia); done));
    rewrite M_bind_assoc; (erewrite M_bind_run by done);
    (erewrite M_bind_run by done);
    (erewrite M_bind_run by (apply assign_account_run; cbn; apply om_get_set_eq));
    (erewrite M_bind_run by done); unfold redeemed_state; cbn; rewrite om_set_set; done.
Qed.

(** The same call with its refusals: what a redemption of held claims
    answers, in the order in which the code makes its checks. *)
Lemma annual_redeem_outcome m id side raw z a s :
  annual_ok m -> om_get (accounts m) id = Some a -> snapshot m = Some s ->
  0 < raw <= U64_MAX -> raw <= side_raw side a ->
  let pay := (pool_redeem (side_pool side m s) raw).1 in
  redeem id side raw z m =
    if (pay =? 0) && negb z then (Err ZERO_PAYOUT, m)
    else if custodyBlocked m then (Err CUSTODY_BLOCKED, m)
    else if actualCustodyRaw m <? obligation m then (Err CUSTODY_DEFICIT, m)
    else if U64_MAX <? collateralRaw a + pay then (Err INVALID_AMOUNT, m)
    else (Ok pay, redeemed_state side id a raw pay m).
Proof.
  intros Hinv Ha Hs Hraw Hle pay.
  destruct (annual_redemption_fits m s side id a raw Hinv Ha Hs ltac:(lia) Hle) as [_ Hfit]. fold pay in Hfit.
  destruct (accounts_ok_get _ _ _ (ao_accounts _ Hinv) id a Ha) as [[Hc _] _].
  pose proof (annual_redeem_run m id side raw z a s Hinv Ha Hs Hraw Hle) as Hrun. cbv zeta in Hrun. fold pay in Hrun.
  destruct ((pay =? 0) && negb z) eqn:Ez, (custodyBlocked m) eqn:Eb, (actualCustodyRaw m <? obligation m) eqn:Es,
    (U64_MAX <? collateralRaw a + pay) eqn:Eu;
    try (apply Hrun; breflect; unfold u64; [done|lia|destruct z; [done|]; simpl in *; breflect; lia|lia]); clear Hrun.
  all: unfold redeem.
  all: erewrite M_bind_run by (by apply (requireAccount_run m id a)).
  all: erewrite M_bind_run by (unfold lift; rewrite checkedRaw_true; [done|unfold u64; lia|lia]).
  all: erewrite M_bind_run by (by apply (annual_previewRedemption_run m id side raw a s)); fold pay.
  all: try (apply M_bind_stop; unfold ensure; rewrite Ez; done).
  all: erewrite M_bind_run by (apply ensure_run; by rewrite Ez).
  all: try (apply M_bind_stop; unfold requireCustodyAvailable, mbind, M_bind, get, ensure, lift; cbn;
    rewrite Eb; cbn; rewrite ?Es; done).
  all: erewrite M_bind_run by (unfold requireCustodyAvailable, mbind, M_bind, get, ensure, lift; cbn;
    rewrite Eb; cbn; rewrite Es; done).
  all: apply M_bind_stop; unfold lift, addU64, checkedRaw, u64 in *; rewrite Eu.
  all: rewrite (proj2 (Z.ltb_ge (collateralRaw a + pay) 0)) by lia; done.
Qed.

Lemma redeem_atomic id side raw z m e m' :
  annual_ok m -> redeem id side raw z m = (Err e, m') -> m' = m.
Proof.
  intros Hinv H. pose proof H as Hrun. unfold redeem in H. do 7 peel H. exfalso. breflect.
  match goal with X : om_get (accounts m) id = Some ?a, Y : om_get (accounts m) id = Some ?b |- _ =>
    assert (b = a) as -> by congruence; clear Y; rename X into Ha; rename a into acc end.
  match goal with X : snapshot m = Some ?x |- _ => rename X into Hs; rename x into s end.
  match goal with X : (?p =? 0) && _ = false |- _ =>
    assert (p = (pool_redeem (side_pool side m s) raw).1) as Hp by (by destruct side);
    rewrite Hp in *; clear Hp; rename X into Hz end.
  rewrite (annual_redeem_run m id side raw z acc s) in Hrun; try done.
  - unfold u64 in *. lia.
  - intros Hp. rewrite Hp in Hz. by destruct z.
Qed.

Lemma annual_discard_atomic {A} (c : Op A) : atomic same c -> atomic same (c ;; mret tt).
Proof. intros Hc s e s' [H|(a & s1 & H1 & H2)]%M_bind_Err_inv; [by eapply Hc|done]. Qed.

Lemma annual_exec_atomic call m e m' : annual_ok m -> exec call m = (Err e, m') -> m' = m.
Proof.
  intros Hinv H.
  assert (match call with CBurn _ _ _ | CRedeem _ _ _ _ => True | _ => atomic same (exec call) end) as Ha.
  { destruct call; cbn [exec]; try done; try apply annual_discard_atomic.
    - unfold deposit. solve_atomic.
    - unfold recordEvent. solve_atomic.
    - unfold transfer. solve_atomic.
    - unfold recombine. solve_atomic.
    - unfold finalize. solve_atomic.
    - unfold donate. solve_atomic.
    - unfold reportActualCustody. solve_atomic. }
  destruct call; try exact (Ha _ _ _ H); cbn [exec] in H.
  - by eapply burn_atomic.
  - apply M_bind_Err_inv in H as [H|(? & ? & _ & H)]; [by eapply redeem_atomic|done].
Qed.
End failures.

(** ** Reachable states *)

Lemma construct_ok t ids m : construct t ids = Ok m -> annual_ok m.
Proof.
  unfold construct. intros H. minv H.
  assert (accounts_ok a1 0 0) as Ha.
  { refine (foldM_inv new_account (fun _ l => accounts_ok l 0 0) _ _ _ _ _ R0).
    - split; [constructor|]. done.
    - intros l1 l id l2 (Hnd & Hok & Hp & Hd) Hn. unfold new_account in Hn. minv Hn. breflect.
      unfold checkedAccountId in *. minv R2. unfold om_has in *.
      destruct (om_get l id) as [x|] eqn:Eg; [done|].
      split; [by apply om_set_NoDup|]. split; [|rewrite !om_sum_set_None by done; cbn; lia].
      intros k x. destruct (decide (id = k)) as [<-|Hne].
      + rewrite om_get_set_eq. intros [= <-]. done.
      + rewrite om_get_set_ne by done. apply Hok. }
  split; cbn; [done|split; cbn; unfold u64, U64_MAX; lia|split; cbn; [constructor|done|done]|done].
Qed.

Lemma reachable_ok m : reachable m -> annual_ok m.
Proof.
  induction 1 as [t ids m Hc|m call Hm IH]; [by eapply construct_ok|].
  destruct (exec call m) as [[u|e] m'] eqn:E; simpl; [by eapply exec_ok|].
  by rewrite (annual_exec_atomic call m e m' IH E).
Qed.
