(* ===== verification/AnnualProps.v ===== *)
(** * Annual reference model: the theorems

    What holds of every [AnnualReferenceModel] object a caller can reach, with
    a concrete series as the witness: two dividends, a transfer, a burn, a
    finalization and redemptions. *)
From S2P Require Import Prelude Js Payout Calendar Annual AnnualIndex AnnualLedger.
Open Scope Z_scope.

(** ** A concrete series *)

Definition ex_term : AnnualTermIdentity := Term "solana" "xstocks" "Mint" "KOx" 2027.
Definition ex_event (id m0 m1 : string) (rev : Z) : AnnualEventRecord :=
  Event id rev "solana" "xstocks" "Mint" (Some "2027-06-15") qualified m0 m1 true.
Definition ex_new : Model :=
  match construct ex_term ["alice"; "bob"] with
  | Ok m => m
  | Err _ => MkModel ex_term 0 0 0 0 0 0 0 0 0 0 0 false [] [] None 0 0
  end.
(** 1000 deposited, 400 DR sold to bob, 100 PT burned, two dividends of 1% and
    2% recorded. *)
Definition ex_open : Model :=
  run [CDeposit "alice" 1000 1700000000; CTransfer "alice" "bob" dr 400; CBurn "alice" pt 100;
       CRecordEvent (ex_event "q1" "1" "1.01" 0); CRecordEvent (ex_event "q2" "1.01" "1.0302" 0)] ex_new.
Definition ex_final : Model := run [CFinalize 1830297600 true] ex_open.
Definition ex_redeemed : Model := run [CRedeem "bob" dr 400 false; CRedeem "alice" pt 900 false] ex_final.

Lemma annual_reachable_run calls m : reachable m -> reachable (run calls m).
Proof. revert m. induction calls as [|c l IH]; intros m Hm; [done|]. apply IH. by apply reach_call. Qed.

Lemma ex_new_reachable : reachable ex_new.
Proof. apply (reach_new ex_term ["alice"; "bob"]). vm_compute. reflexivity. Qed.
Lemma ex_open_reachable : reachable ex_open.
Proof. apply annual_reachable_run, ex_new_reachable. Qed.
Lemma ex_final_reachable : reachable ex_final.
Proof. apply annual_reachable_run, ex_open_reachable. Qed.
Lemma ex_redeemed_reachable : reachable ex_redeemed.
Proof. apply annual_reachable_run, ex_final_reachable. Qed.

Definition ex_snapshot : AnnualFinalSnapshot :=
  default (Snapshot (Allocation 0 (Index 1 1) 0 0) 0) (snapshot ex_final).
Lemma ex_snapshot_eq : snapshot ex_final = Some ex_snapshot.
Proof. vm_compute. reflexivity. Qed.

Example ex_final_pools :
  (al_ptPoolRaw (sn_allocation ex_snapshot), al_drPoolRaw (sn_allocation ex_snapshot),
   al_index (sn_allocation ex_snapshot)) = (971, 29, Index 5000 5151).
Proof. vm_compute. reflexivity. Qed.
Example ex_redeemed_books :
  (redeemedPtClaimsRaw ex_redeemed, remainingPtPoolRaw ex_redeemed, remainingDrPoolRaw ex_redeemed,
   actualCustodyRaw ex_redeemed) = (900, 98, 18, 116).
Proof. vm_compute. reflexivity. Qed.

(** ** Helpers *)

Lemma redeemed_state_pool side id a raw pay m s :
  pay = (pool_redeem (side_pool side m s) raw).1 ->
  let m' := redeemed_state side id a raw pay m in
  side_pool side m' s = (pool_redeem (side_pool side m s) raw).2 /\
  side_pool (other_side side) m' s = side_pool (other_side side) m s /\
  snapshot m' = snapshot m /\ events m' = events m /\ accountableRaw m' = accountableRaw m /\
  donationsRaw m' = donationsRaw m /\ actualCustodyRaw m' = actualCustodyRaw m - pay.
Proof.
  intros ->. destruct side; cbn; split_and!; try done; unfold pt_pool_of, dr_pool_of, pool_redeem; cbn; f_equal; lia.
Qed.

(** What one call may do to the parts a finalized series freezes. *)
Lemma exec_frozen call m m' u s :
  exec call m = (Ok u, m') -> snapshot m = Some s ->
  snapshot m' = Some s /\ events m' = events m /\ accountableRaw m' = accountableRaw m.
Proof.
  intros H Hs. destruct call; cbn [exec] in H.
  - unfold deposit in H. call_inv H. unfold is_finalized in *. by rewrite Hs in *.
  - minv H. match goal with R : recordEvent _ _ = _ |- _ => apply recordEvent_Ok in R as [Hn _] end. congruence.
  - unfold transfer in H. minv H.
    repeat first [ found requireAccount_Ok as [-> ?] | found checkedRaw_Ok as (-> & ? & ?) | found addU64_Ok as (-> & ?) ].
    match goal with H : assign_account fromId _ m = _ |- _ => injection H as _ <- end.
    match goal with H : assign_account toId _ _ = _ |- _ => injection H as _ <- end.
    repeat case_match; done.
  - unfold recombine in H. call_inv H. unfold is_finalized in *. by rewrite Hs in *.
  - unfold burn in H. destruct side; call_inv H; done.
  - minv H. match goal with R : finalize _ _ _ = _ |- _ => apply finalize_Ok in R as [Hn _] end. congruence.
  - minv H. match goal with R : redeem _ _ _ _ _ = _ |- _ =>
      apply redeem_Ok in R as (a' & s' & _ & Hs' & _ & _ & Hp & _ & _ & _ & ->) end.
    destruct (redeemed_state_pool side accountId a' raw _ m s' Hp) as (_ & _ & E1 & E2 & E3 & _).
    rewrite E1, E2, E3. done.
  - unfold donate in H. call_inv H. done.
  - unfold setCustodyBlocked in H. call_inv H. done.
  - unfold reportActualCustody in H. call_inv H. done.
Qed.

(** Collateral held beyond what is owed and what was donated. *)
Definition custody_slack (m : Model) : Z := actualCustodyRaw m - obligation m - donationsRaw m.

Definition is_report (call : Call) : bool :=
  match call with CReportActualCustody _ => true | _ => false end.

Lemma exec_custody call m m' u :
  annual_ok m -> exec call m = (Ok u, m') -> is_report call = false -> custody_slack m' = custody_slack m.
Proof.
  intros Hinv H Hr. unfold custody_slack, obligation. destruct call; cbn [exec] in H; try done.
  - unfold deposit in H. call_inv H.
    match goal with H : is_finalized m = false |- _ => apply is_finalized_false in H as Hsn end.
    rewrite Hsn. lia.
  - minv H. match goal with R : recordEvent _ _ = _ |- _ => apply recordEvent_Ok in R as (_ & _ & Hx) end.
    match type of Hx with match ?r with _ => _ end => destruct r end; destruct Hx as [-> _]; done.
  - unfold transfer in H. minv H.
    repeat first [ found requireAccount_Ok as [-> ?] | found checkedRaw_Ok as (-> & ? & ?) | found addU64_Ok as (-> & ?) ].
    match goal with H : assign_account fromId _ m = _ |- _ => injection H as _ <- end.
    match goal with H : assign_account toId _ _ = _ |- _ => injection H as _ <- end.
    repeat (match goal with |- context [om_get ?l ?k] => destruct (om_get l k) end; cbn); done.
  - unfold recombine in H. call_inv H.
    match goal with H : is_finalized m = false |- _ => apply is_finalized_false in H as Hsn end.
    rewrite Hsn. lia.
  - unfold burn in H. destruct side; call_inv H; done.
  - minv H. match goal with R : finalize _ _ _ = _ |- _ =>
      apply finalize_Ok in R as (Hn & _ & _ & _ & _ & _ & al & Hal & -> & ->) end.
    destruct (journal_allocation_spec m (ao_journal _ Hinv)) as (al' & Hal' & _ & _ & _ & _ & _ & Hsum & _).
    { destruct (bo_bound _ (ao_books _ Hinv)). done. }
    rewrite Hal in Hal'. injection Hal' as <-. cbn. rewrite Hn. lia.
  - minv H. match goal with R : redeem _ _ _ _ _ = _ |- _ =>
      apply redeem_Ok in R as (a' & s' & _ & Hs' & _ & _ & Hp & _ & _ & _ & ->) end.
    destruct side; cbn; rewrite Hs'; lia.
  - unfold donate in H. call_inv H. destruct (snapshot m); lia.
  - unfold setCustodyBlocked in H. call_inv H. done.
Qed.

Lemma run_custody calls m :
  annual_ok m -> forallb (fun c => negb (is_report c)) calls = true ->
  custody_slack (run calls m) = custody_slack m.
Proof.
  revert m. induction calls as [|c l IH]; intros m Hm Hc; [done|]. simpl in Hc.
  apply andb_prop in Hc as [Hc Hl]. breflect. unfold run. simpl.
  destruct (exec c m) as [[u|e] m'] eqn:E; simpl.
  - change (foldl _ m' l) with (run l m'). rewrite (IH m'); [by eapply exec_custody|by eapply exec_ok|done].
  - rewrite (annual_exec_atomic c m e m' Hm E). by apply IH.
Qed.

(** The only change a call makes to the journal is to store one record, new or
    of a higher revision. *)
Lemma exec_events call m :
  annual_ok m ->
  events (exec call m).2 = events m \/
  exists e, events (exec call m).2 = om_set (events m) (e_id e) e /\
    match om_get (events m) (e_id e) with
    | Some previous => e_revision previous < e_revision e
    | None => True
    end.
Proof.
  intros Hm. destruct (exec call m) as [[u|x] m'] eqn:H; cbn [snd].
  2: { left. by rewrite (annual_exec_atomic call m x m' Hm H). }
  destruct (snapshot m) as [s|] eqn:Hs.
  { left. by destruct (exec_frozen call m m' u s H Hs) as (_ & -> & _). }
  destruct call; cbn [exec] in H.
  - left. unfold deposit in H. by call_inv H.
  - minv H. match goal with R : recordEvent _ _ = (Ok ?r, _) |- _ =>
      apply recordEvent_Ok in R as (_ & _ & Hr); destruct r end; destruct Hr as [-> Hr]; [|by left].
    right. exists input. split; [done|]. by destruct (om_get _ _).
  - left. unfold transfer in H. minv H.
    repeat first [ found requireAccount_Ok as [-> ?] | found checkedRaw_Ok as (-> & ? & ?) | found addU64_Ok as (-> & ?) ].
    match goal with H : assign_account fromId _ m = _ |- _ => injection H as _ <- end.
    match goal with H : assign_account toId _ _ = _ |- _ => injection H as _ <- end.
    repeat case_match; done.
  - left. unfold recombine in H. by call_inv H.
  - left. unfold burn in H. by destruct side; call_inv H.
  - left. minv H. match goal with R : finalize _ _ _ = _ |- _ =>
      apply finalize_Ok in R as (_ & _ & _ & _ & _ & _ & al & _ & -> & ->) end. done.
  - minv H. match goal with R : redeem _ _ _ _ _ = _ |- _ =>
      apply redeem_Ok in R as (a' & s' & _ & Hs' & _) end. congruence.
  - left. unfold donate in H. by call_inv H.
  - left. unfold setCustodyBlocked in H. by call_inv H.
  - left. unfold reportActualCustody in H. by call_inv H.
Qed.

Lemma recordEvent_again m e :
  snapshot m = None -> validateEvent (term m) e = Ok e -> om_get (events m) (e_id e) = Some e ->
  recordEvent e m = (Ok idempotent, m).
Proof.
  intros Hs Hv He. unfold recordEvent. erewrite M_bind_run by done.
  erewrite M_bind_run by (apply ensure_run; unfold is_finalized; by rewrite Hs).
  erewrite M_bind_run by (unfold lift; by rewrite Hv). rewrite He.
  unfold same_canonicalRecord. rewrite Z.eqb_refl, bool_decide_true by done. done.
Qed.

Lemma checkedTermIdentity_Ok t c : checkedTermIdentity t = Ok c -> c = t /\ 1970 <= t_year t <= 9998.
Proof.
  unfold checkedTermIdentity, checkedText. intros H. minv H. breflect. split; [by destruct t|done].
Qed.

(** ** The guarantees *)

(** C1: in every reachable state the account balances add up to the two
    supplies, and every claim ever issued for the collateral the series
    accounts for is outstanding, burned outside the model or redeemed. *)
Theorem annual_claims_accounted m :
  reachable m ->
  om_sum ptRaw (accounts m) = ptSupplyRaw m /\ om_sum drRaw (accounts m) = drSupplyRaw m /\
  ptSupplyRaw m + externallyBurnedPtRaw m + redeemedPtClaimsRaw m = accountableRaw m /\
  drSupplyRaw m + externallyBurnedDrRaw m + redeemedDrClaimsRaw m = accountableRaw m /\
  0 <= accountableRaw m <= U64_MAX /\
  (forall id a, om_get (accounts m) id = Some a -> 0 <= collateralRaw a /\ 0 <= ptRaw a /\ 0 <= drRaw a).
Proof.
  intros [[_ [Hok [Hp Hd]]] [_ Hpt Hdr Hb] _ _]%reachable_ok.
  split_and!; try done; [apply Hb..|]. intros id a Ha. by destruct (Hok id a Ha).
Qed.

(** C2: a finalized series pays like two abstract redemption pools: a
    redemption is exactly one step of the pool of its side and leaves the other
    pool alone, both pools are sound in every reachable state, and together
    they were funded with the collateral the series accounts for. *)
Theorem annual_redemption_refines_pool m s :
  reachable m -> snapshot m = Some s -> 0 < accountableRaw m ->
  (forall side, pool_ok (side_pool side m s)) /\
  p_pool (side_pool pt m s) + p_pool (side_pool dr m s) = accountableRaw m /\
  forall id side raw z pay m', redeem id side raw z m = (Ok pay, m') ->
    (pay, side_pool side m' s) = pool_redeem (side_pool side m s) raw /\
    side_pool (other_side side) m' s = side_pool (other_side side) m s.
Proof.
  intros Hm%reachable_ok Hs Hpos. destruct (finalized_pools m s Hm Hs) as (Hsum & _ & _ & Hp).
  split; [intros side; by apply Hp|]. split; [done|]. intros id side raw z pay m' H.
  apply redeem_Ok in H as (a & s' & _ & Hs' & _ & _ & Hpay & _ & _ & _ & ->).
  assert (s' = s) as -> by congruence. subst pay.
  destruct (redeemed_state_pool side id a raw _ m s eq_refl) as (E1 & E2 & _).
  rewrite E1, E2. split; [|done]. by destruct (pool_redeem _ _).
Qed.

(** C3: what redeeming held claims of a reachable finalized series answers is
    decided by four conditions alone, checked in this order: the pool's step
    pays nothing and the caller did not consent to that, custody is blocked,
    custody holds less than is owed, the account's collateral would leave
    the 64-bit range.  In every other case the call pays exactly the pool's
    step and leaves the redeemed state; the pool itself never falls short. *)
Theorem annual_redeem_live m id side raw z a s :
  reachable m -> om_get (accounts m) id = Some a -> snapshot m = Some s ->
  0 < raw <= U64_MAX -> raw <= side_raw side a ->
  let pay := (pool_redeem (side_pool side m s) raw).1 in
  0 <= pay <= side_remaining side m /\
  (redeem id side raw z m =
    if (pay =? 0) && negb z then (Err ZERO_PAYOUT, m)
    else if custodyBlocked m then (Err CUSTODY_BLOCKED, m)
    else if actualCustodyRaw m <? obligation m then (Err CUSTODY_DEFICIT, m)
    else if U64_MAX <? collateralRaw a + pay then (Err INVALID_AMOUNT, m)
    else (Ok pay, redeemed_state side id a raw pay m)).
Proof.
  intros Hm%reachable_ok Ha Hs Hraw Hle pay. split; [|by apply annual_redeem_outcome].
  by destruct (annual_redemption_fits m s side id a raw Hm Ha Hs ltac:(lia) Hle) as [_ ?].
Qed.

(** C6: a call that throws leaves the object exactly as it found it, even
    [burn] and [redeem], which debit an account before their last check. *)
Theorem annual_failed_call_atomic call m e m' :
  reachable m -> exec call m = (Err e, m') -> m' = m.
Proof. intros Hm. by apply annual_exec_atomic, reachable_ok. Qed.

(** C4: the principal index of a reachable state exists, is the product of
    the [m0 / m1] of the qualified events of the year, in lowest terms and at
    most one; and it does not depend on the order in which the journal lists
    its events. *)
Theorem annual_index_order_independent m m' :
  reachable m -> term m' = term m -> Permutation (events m).*2 (events m').*2 ->
  exists i, currentIndex m = Ok i /\ currentIndex m' = Ok i /\
    Z.gcd (numerator i) (denominator i) = 1 /\ 0 < numerator i <= denominator i /\
    numerator i * den_product (t_year (term m)) (events m).*2
      = num_product (t_year (term m)) (events m).*2 * denominator i.
Proof.
  intros Hm%reachable_ok Ht Hp. pose proof (journal_parses m (ao_journal _ Hm)) as Hparse.
  destruct (index_of_journal (t_year (term m)) _ Hparse) as (i & Hi & (Hn & Hd & Hg) & He).
  destruct (index_le_one _ _ _ Hparse Hi) as [_ Hle].
  exists i. split; [done|]. split; [|done]. unfold currentIndex. rewrite Ht.
  by apply (index_permutation _ (events m).*2).
Qed.

(** C5: finalization freezes the series: from then on no sequence of calls
    changes the snapshot, the journal or the collateral accounted for, and the
    frozen allocation is the one the journal still gives. *)
Theorem annual_finalize_freezes m s calls :
  reachable m -> snapshot m = Some s ->
  let m' := run calls m in
  snapshot m' = Some s /\ events m' = events m /\ accountableRaw m' = accountableRaw m /\
  journal_allocation m' = Ok (sn_allocation s).
Proof.
  intros Hm Hs. assert (let m' := run calls m in
    snapshot m' = Some s /\ events m' = events m /\ accountableRaw m' = accountableRaw m) as Hf.
  { revert m Hm Hs. induction calls as [|c l IH]; intros m Hm Hs; [done|]. unfold run. simpl.
    destruct (exec c m) as [[u|e] m1] eqn:E; simpl.
    - destruct (exec_frozen c m m1 u s E Hs) as (H1 & H2 & H3).
      pose proof (reach_call m c Hm) as Hm1. rewrite E in Hm1.
      specialize (IH m1 Hm1 H1). unfold run in IH. cbn in *. destruct IH as (-> & -> & ->). done.
    - rewrite (annual_exec_atomic c m e m1 (reachable_ok m Hm) E). by apply (IH m). }
  cbv zeta in *. destruct Hf as (H1 & H2 & H3). split_and!; try done.
  pose proof (ao_snapshot _ (reachable_ok _ (annual_reachable_run calls m Hm))) as Hsn.
  unfold snapshot_ok in Hsn. rewrite H1 in Hsn. apply Hsn.
Qed.

(** C7: custody balances to the unit: as long as nobody reports an external
    impairment, a constructed series holds exactly what it owes plus what was
    donated, after any calls; there is no deficit and nothing is lost or
    created. *)
Theorem annual_custody_exact t ids m calls :
  construct t ids = Ok m -> forallb (fun c => negb (is_report c)) calls = true ->
  actualCustodyRaw (run calls m) = obligation (run calls m) + donationsRaw (run calls m) /\
  deficitRaw (run calls m) = 0.
Proof.
  intros Hc Hcalls. pose proof (construct_ok t ids m Hc) as Hm.
  pose proof (run_custody calls m Hm Hcalls) as Hs.
  pose proof (reachable_ok _ (annual_reachable_run calls m (reach_new t ids m Hc))) as Hr.
  destruct (bo_nonneg _ (ao_books _ Hr)) as (_ & _ & _ & _ & _ & Hd).
  assert (custody_slack m = 0) as H0.
  { unfold construct in Hc. minv Hc. done. }
  rewrite H0 in Hs. unfold custody_slack, deficitRaw in *. split; [lia|].
  destruct (_ <? _) eqn:E; breflect; lia.
Qed.

(** The journal is append-and-correct only: whatever is called, an event
    keeps its identifier and either stays as recorded or is replaced by a
    record of strictly higher revision; the journal never holds two records of
    one identifier nor more than 64 records; and recording the same record
    twice is idempotent. *)
Theorem annual_journal_monotone m call k e :
  reachable m -> om_get (events m) k = Some e ->
  let m' := (exec call m).2 in
  (exists e', om_get (events m') k = Some e' /\ e_id e' = e_id e /\ (e' = e \/ e_revision e < e_revision e')) /\
  NoDup (events m').*1 /\ Z.of_nat (length (events m')) <= 64 /\
  (snapshot m = None -> recordEvent e m = (Ok idempotent, m)).
Proof.
  intros Hm He. cbv zeta. pose proof (reachable_ok _ (reach_call m call Hm)) as Hm'.
  apply reachable_ok in Hm. destruct (ao_journal _ Hm') as [Hnd Hlen _].
  destruct (ao_journal _ Hm) as [_ _ Hv]. destruct (Hv k e (om_get_In _ _ _ He)) as [-> Hval].
  split_and!; [|done|done|].
  - destruct (exec_events call m Hm) as [-> |(e' & H1 & H2)]; [exists e; by auto|].
    rewrite H1. destruct (decide (e_id e' = e_id e)) as [Heq|Hne].
    + rewrite Heq in *. rewrite He in H2. exists e'. rewrite om_get_set_eq. auto.
    + exists e. rewrite om_get_set_ne by done. auto.
  - intros Hs. by apply recordEvent_again.
Qed.

(** The identifier of a series determines its chain, issuer, mint and
    year: two terms with the same identifier describe the same annual series. *)
Theorem annualSeriesId_injective t t' id :
  annualSeriesId t = Ok id -> annualSeriesId t' = Ok id ->
  t_chain t = t_chain t' /\ t_issuer t = t_issuer t' /\ t_mint t = t_mint t' /\ t_year t = t_year t'.
Proof.
  intros H H'. unfold annualSeriesId in *.
  destruct (checkedTermIdentity t) as [c|] eqn:E; [|done].
  destruct (checkedTermIdentity t') as [c'|] eqn:E'; [|done].
  apply checkedTermIdentity_Ok in E as [-> Hy], E' as [-> Hy']. rewrite bind_Ok in H, H'.
  rewrite <- H in H'. apply Ok_inj, (f_equal chars) in H'. rewrite !chars_unchars in H'.
  apply (f_equal tail) in H'; cbn [tail] in H'.
  apply json_string_inj_app in H' as [H1 H']. apply (f_equal tail) in H'; cbn [tail] in H'.
  apply json_string_inj_app in H' as [H2 H']. apply (f_equal tail) in H'; cbn [tail] in H'.
  apply json_string_inj_app in H' as [H3 H']. apply (f_equal tail) in H'; cbn [tail] in H'.
  apply app_inj_tail in H' as [H4 _].
  split_and!; [by symmetry; apply chars_inj..|].
  destruct (toString_spec (t_year t) ltac:(lia)) as [<- _].
  destruct (toString_spec (t_year t') ltac:(lia)) as [<- _]. by rewrite H4.
Qed.

(** ** Witnesses *)

Example annual_claims_accounted_witness : ptSupplyRaw ex_redeemed + 100 + 900 = 1000.
Proof.
  pose proof (annual_claims_accounted ex_redeemed ex_redeemed_reachable) as (_ & _ & H & _).
  vm_compute in H. vm_compute. exact H.
Defined.

Example annual_redemption_refines_pool_witness : pool_ok (side_pool dr ex_final ex_snapshot).
Proof.
  apply (annual_redemption_refines_pool ex_final ex_snapshot ex_final_reachable ex_snapshot_eq).
  vm_compute. reflexivity.
Defined.

Example annual_redeem_live_witness :
  redeem "bob" dr 400 false ex_final =
    (Ok 11, redeemed_state dr "bob" (Account 0 0 400) 400 11 ex_final) /\
  let blocked := set_custodyBlocked true ex_final in
  redeem "bob" dr 400 false blocked = (Err CUSTODY_BLOCKED, blocked).
Proof.
  split.
  - refine (proj2 (annual_redeem_live ex_final "bob" dr 400 false (Account 0 0 400) ex_snapshot
      ex_final_reachable _ ex_snapshot_eq _ _)).
    all: vm_compute; try reflexivity; try (split; congruence); congruence.
  - refine (proj2 (annual_redeem_live _ "bob" dr 400 false (Account 0 0 400) ex_snapshot
      (reach_call ex_final (CSetCustodyBlocked true) ex_final_reachable) _ _ _ _)).
    all: vm_compute; try reflexivity; try (split; congruence); congruence.
Defined.

Example annual_failed_call_atomic_witness : (exec (CBurn "bob" pt 1) ex_final).2 = ex_final.
Proof.
  apply (annual_failed_call_atomic (CBurn "bob" pt 1) ex_final INSUFFICIENT_BALANCE).
  - exact ex_final_reachable.
  - vm_compute. reflexivity.
Defined.

Example annual_index_order_independent_witness :
  exists i, currentIndex ex_open = Ok i /\
    currentIndex (set_events (rev (events ex_open)) ex_open) = Ok i.
Proof.
  destruct (annual_index_order_independent ex_open (set_events (rev (events ex_open)) ex_open)
    ex_open_reachable eq_refl) as (i & H1 & H2 & _).
  - cbn [events set_events]. rewrite <- Permutation_rev. reflexivity.
  - exists i. split; [exact H1|exact H2].
Defined.

Example annual_finalize_freezes_witness : snapshot ex_redeemed = Some ex_snapshot.
Proof.
  apply (annual_finalize_freezes ex_final ex_snapshot
    [CRedeem "bob" dr 400 false; CRedeem "alice" pt 900 false] ex_final_reachable ex_snapshot_eq).
Defined.

Definition ex_calls : list Call :=
  [CDeposit "alice" 1000 1700000000; CDonate 7; CTransfer "alice" "bob" dr 400; CRecombine "alice" 10].

Example annual_custody_exact_witness :
  actualCustodyRaw (run ex_calls ex_new) = obligation (run ex_calls ex_new) + donationsRaw (run ex_calls ex_new).
Proof.
  apply (annual_custody_exact ex_term ["alice"; "bob"] ex_new ex_calls).
  - vm_compute. reflexivity.
  - reflexivity.
Defined.

Example annual_journal_monotone_witness :
  recordEvent (ex_event "q1" "1" "1.01" 0) ex_open = (Ok idempotent, ex_open).
Proof.
  apply (annual_journal_monotone ex_open (CDonate 1) "q1" (ex_event "q1" "1" "1.01" 0) ex_open_reachable).
  - vm_compute. reflexivity.
  - vm_compute. reflexivity.
Defined.

Example annualSeriesId_injective_witness : t_year ex_term = 2027.
Proof.
  refine (proj2 (proj2 (proj2 (annualSeriesId_injective ex_term
    (Term "solana" "xstocks" "Mint" "Other" 2027)
    (match annualSeriesId ex_term with Ok s => s | Err _ => "" end) _ _)))).
  - vm_compute. reflexivity.
  - vm_compute. reflexivity.
Defined.
