(* ===== verification/TxBytes.v ===== *)
(** * Transaction SDK: errors, constants and byte strings

    [packages/transaction-sdk/src/errors.ts], [constants.ts] and [bytes.ts]:
    the checks on 64-bit integers, the little-endian encodings of [DataView],
    the minimal encoding of a [bigint], digests and hexadecimal text.  A
    [Uint8Array] is a list of integers from 0 to 255. *)
From S2P Require Import Prelude Js.
Open Scope Z_scope.

Inductive DividendXSdkErrorCode :=
  | INVALID_AMOUNT | INVALID_CLOCK | INVALID_DIGEST | INVALID_F64_BITS | INVALID_IDENTITY
  | INVALID_PUBLIC_KEY | INVALID_QUOTE | INVALID_SERIES | IDL_MISMATCH
  | RPC_ACCOUNT_MISSING | RPC_ACCOUNT_OWNER | TRANSACTION_FAILED
  | JS_RANGE_ERROR (** the native exception of [DataView] reads out of range *)
  | JS_ERROR (** any other exception: [Error], [TypeError], or one of a library *).

#[global] Instance DividendXSdkErrorCode_eq_dec : EqDecision DividendXSdkErrorCode.
Proof. solve_decision. Defined.

Abbreviation res := (result DividendXSdkErrorCode).

(** [invariant(condition, code, message)] *)
Definition invariant (condition : bool) (code : DividendXSdkErrorCode) : res unit := require condition code.

Definition MAX_U64 : Z := 2 ^ 64 - 1.
Definition MAX_I64 : Z := 2 ^ 63 - 1.
Definition MIN_I64 : Z := - 2 ^ 63.
Definition MAX_EVENTS : Z := 64.
Definition MAX_RATIONAL_BYTES : Z := 1024.

Inductive EventStatusName := pending | qualified | confirmedZero | cancelled | unsupported.
Inductive ClaimSideName := pt | dr.
#[global] Instance EventStatusName_eq_dec : EqDecision EventStatusName. Proof. solve_decision. Defined.
#[global] Instance ClaimSideName_eq_dec : EqDecision ClaimSideName. Proof. solve_decision. Defined.

Definition EVENT_STATUS (s : EventStatusName) : Z :=
  match s with pending => 0 | qualified => 1 | confirmedZero => 2 | cancelled => 3 | unsupported => 4 end.
Definition CLAIM_SIDE (s : ClaimSideName) : Z := match s with pt => 0 | dr => 1 end.

(** ** Integers *)

Abbreviation bytes := (list Z).
Definition byte_ok (b : Z) : Prop := 0 <= b < 256.

Definition assertU64 (value : Z) (allowZero : bool) : res Z :=
  invariant (((if allowZero then 0 else 1) <=? value) && (value <=? MAX_U64)) INVALID_AMOUNT ;;
  Ok value.

Definition assertI64 (value : Z) : res Z :=
  invariant ((MIN_I64 <=? value) && (value <=? MAX_I64)) INVALID_CLOCK ;;
  Ok value.

(** The [n] low bytes of an integer, least significant first: what [DataView]
    stores for an unsigned or two's complement value. *)
Fixpoint le_bytes (n : nat) (value : Z) : bytes :=
  match n with
  | O => []
  | S n' => Z.land value 255 :: le_bytes n' (Z.shiftr value 8)
  end.

Definition u16Le (value : Z) : res bytes :=
  invariant ((0 <=? value) && (value <=? 65535)) INVALID_AMOUNT ;; Ok (le_bytes 2 value).
Definition u32Le (value : Z) : res bytes :=
  invariant ((0 <=? value) && (value <=? 4294967295)) INVALID_AMOUNT ;; Ok (le_bytes 4 value).
Definition u64Le (value : Z) : res bytes := assertU64 value true ;; Ok (le_bytes 8 value).
Definition i64Le (value : Z) : res bytes := assertI64 value ;; Ok (le_bytes 8 value).

(** [for (index = bytes.length - 1; index >= 0; index--)
       value = (value << 8n) | BigInt(bytes[index])] *)
Definition bytesToBigIntLe (l : bytes) : Z :=
  fold_right (fun b value => Z.lor (Z.shiftl value 8) b) 0 l.

(** [view.getBigUint64(offset, true)] and [view.getBigInt64(offset, true)]. *)
Definition getBigUint64 (l : bytes) (offset : nat) : res Z :=
  require (Nat.leb (offset + 8) (length l)) JS_RANGE_ERROR ;;
  Ok (bytesToBigIntLe (take 8 (drop offset l))).
Definition getBigInt64 (l : bytes) (offset : nat) : res Z :=
  u ← getBigUint64 l offset;
  Ok (if 2 ^ 63 <=? u then u - 2 ^ 64 else u).

(** [while (remainder > 0n) { bytes.push(remainder & 0xff); remainder >>= 8n }]
    with the iterations bounded by [fuel]; [minimal_value] and
    [minimal_length] prove the bound [bigintToMinimalLe] gives is enough. *)
Fixpoint minimal_loop (fuel : nat) (remainder : Z) : bytes :=
  match fuel with
  | O => []
  | S fuel' => if 0 <? remainder then Z.land remainder 255 :: minimal_loop fuel' (Z.shiftr remainder 8) else []
  end.

Definition bigintToMinimalLe (value : Z) : res bytes :=
  invariant (0 <=? value) INVALID_AMOUNT ;;
  if value =? 0 then Ok [0] else Ok (minimal_loop (Z.to_nat (Z.log2 value / 8 + 1)) value).

(** ** Byte strings *)

(** [encoder.encode(text)] of an ASCII text. *)
Definition ascii_bytes (text : string) : bytes := ascii_Z <$> chars text.

Definition byte_length (l : bytes) : Z := Z.of_nat (length l).

(** [left.length === right.length && left.every((byte, index) => byte === right[index])] *)
Fixpoint every2 (left right : bytes) : bool :=
  match left, right with
  | [], _ => true
  | a :: left', b :: right' => (a =? b) && every2 left' right'
  | _ :: _, [] => false
  end.
Definition bytesEqual (left right : bytes) : bool :=
  Nat.eqb (length left) (length right) && every2 left right.

Definition concatBytes (parts : list bytes) : bytes := concat parts.

(** [value.some((byte) => byte !== 0)] *)
Definition some_nonzero (l : bytes) : bool := existsb (fun b => negb (b =? 0)) l.

Definition checkedDigest (value : bytes) (allowZero : bool) : res bytes :=
  invariant (byte_length value =? 32) INVALID_DIGEST ;;
  invariant (allowZero || some_nonzero value) INVALID_DIGEST ;;
  Ok value.

(** ** Hexadecimal text *)

Definition hex_byte (b : Z) : list ascii := [hex_char (b / 16); hex_char (b mod 16)].
Definition hex (l : bytes) : string := unchars (l ≫= hex_byte).

(** The value of a hexadecimal digit, upper or lower case. *)
Definition hex_val (c : ascii) : option Z :=
  let n := ascii_Z c in
  if (48 <=? n) && (n <=? 57) then Some (n - 48)
  else if (65 <=? n) && (n <=? 70) then Some (n - 55)
  else if (97 <=? n) && (n <=? 102) then Some (n - 87)
  else None.

(** [/^(?:[0-9a-fA-F]{2})*$/] and the pairs it matches. *)
Fixpoint hex_pairs (l : list ascii) : option bytes :=
  match l with
  | [] => Some []
  | a :: b :: l' =>
      match hex_val a, hex_val b, hex_pairs l' with
      | Some x, Some y, Some rest => Some (16 * x + y :: rest)
      | _, _, _ => None
      end
  | [_] => None
  end.

Definition fromHex (value : string) (expectedLength : option Z) : res bytes :=
  match hex_pairs (chars value) with
  | None => Err INVALID_DIGEST
  | Some l =>
      invariant (match expectedLength with Some n => byte_length l =? n | None => true end) INVALID_DIGEST ;;
      Ok l
  end.

(** ** Laws *)

Lemma assertU64_Ok v z r : assertU64 v z = Ok r -> r = v /\ 0 <= v <= MAX_U64 /\ (z = false -> 0 < v).
Proof. unfold assertU64, invariant. intros H. minv H. breflect. destruct z; lia. Qed.
Lemma assertU64_true v z : 0 <= v <= MAX_U64 -> (z = false -> 0 < v) -> assertU64 v z = Ok v.
Proof.
  intros Hv Hz. unfold assertU64, invariant.
  assert (((if z then 0 else 1) <=? v) = true) as -> by (apply Z.leb_le; destruct z; lia).
  assert ((v <=? MAX_U64) = true) as -> by (apply Z.leb_le; lia). done.
Qed.
Lemma assertI64_Ok v r : assertI64 v = Ok r -> r = v /\ MIN_I64 <= v <= MAX_I64.
Proof. unfold assertI64, invariant. intros H. minv H. breflect. lia. Qed.
Lemma assertI64_true v : MIN_I64 <= v <= MAX_I64 -> assertI64 v = Ok v.
Proof.
  intros Hv. unfold assertI64, invariant.
  assert ((MIN_I64 <=? v) && (v <=? MAX_I64) = true) as -> by (apply andb_true_iff; split; apply Z.leb_le; lia). done.
Qed.

Lemma land_255 v : Z.land v 255 = v mod 256.
Proof. change 255 with (Z.ones 8). by rewrite Z.land_ones. Qed.
Lemma shiftr_8 v : Z.shiftr v 8 = v / 256.
Proof. by rewrite Z.shiftr_div_pow2. Qed.
Lemma push_byte v b : byte_ok b -> Z.lor (Z.shiftl v 8) b = 256 * v + b.
Proof.
  intros Hb. unfold byte_ok in Hb.
  assert (Z.land (Z.shiftl v 8) b = 0) as H0.
  { apply Z.bits_inj'. intros n Hn. rewrite Z.land_spec, Z.shiftl_spec, Z.bits_0 by lia.
    destruct (Z.lt_ge_cases n 8); [by rewrite Z.testbit_neg_r by lia|].
    destruct (decide (b = 0)) as [->|]; [by rewrite Z.bits_0, andb_false_r|].
    rewrite (Z.bits_above_log2 b n); [by rewrite andb_false_r|lia|].
    assert (Z.log2 b < 8) by (apply Z.log2_lt_pow2; lia). lia. }
  rewrite <- Z.lxor_lor, <- Z.add_nocarry_lxor by done. rewrite Z.shiftl_mul_pow2 by lia. lia.
Qed.

Lemma le_value_cons b l :
  byte_ok b -> bytesToBigIntLe (b :: l) = 256 * bytesToBigIntLe l + b.
Proof. intros Hb. unfold bytesToBigIntLe. simpl. by apply push_byte. Qed.

Lemma le_value_bounds l :
  Forall byte_ok l -> 0 <= bytesToBigIntLe l < 256 ^ Z.of_nat (length l).
Proof.
  induction 1 as [|b l Hb Hl IH]; [done|]. rewrite le_value_cons by done.
  simpl length. rewrite Nat2Z.inj_succ, Z.pow_succ_r by lia. unfold byte_ok in *. lia.
Qed.

Lemma le_bytes_ok n v : Forall byte_ok (le_bytes n v) /\ length (le_bytes n v) = n.
Proof.
  revert v. induction n as [|n IH]; intros v; simpl; [done|]. destruct (IH (Z.shiftr v 8)) as [H1 H2].
  split; [|by rewrite H2]. constructor; [|done]. rewrite land_255. unfold byte_ok.
  pose proof (Z.mod_pos_bound v 256). lia.
Qed.

(** Storing and reading back gives the value modulo the width. *)
Lemma le_bytes_value n v : bytesToBigIntLe (le_bytes n v) = v mod 256 ^ Z.of_nat n.
Proof.
  revert v. induction n as [|n IH]; intros v; [by rewrite Z.mod_1_r|].
  cbn [le_bytes]. rewrite le_value_cons.
  2: { destruct (le_bytes_ok 1 v) as [H _]. by inversion H. }
  rewrite IH, land_255, shiftr_8, Nat2Z.inj_succ, Z.pow_succ_r by lia.
  rewrite Z.rem_mul_r by lia. lia.
Qed.

Lemma minimal_loop_spec fuel v :
  0 <= v < 256 ^ Z.of_nat fuel ->
  Forall byte_ok (minimal_loop fuel v) /\ bytesToBigIntLe (minimal_loop fuel v) = v /\
  (length (minimal_loop fuel v) <= fuel)%nat.
Proof.
  revert v. induction fuel as [|f IH]; intros v Hv; simpl; [split; [done|]; simpl in Hv; split; cbn; lia|].
  destruct (0 <? v) eqn:E; breflect; [|split; [done|]; split; cbn; lia].
  rewrite Nat2Z.inj_succ, Z.pow_succ_r in Hv by lia.
  assert (byte_ok (Z.land v 255)) as Hb by (rewrite land_255; unfold byte_ok; pose proof (Z.mod_pos_bound v 256); lia).
  destruct (IH (Z.shiftr v 8)) as (H1 & H2 & H3).
  { rewrite shiftr_8. split; [apply Z.div_pos; lia|]. apply Z.div_lt_upper_bound; lia. }
  split; [by constructor|]. split; [|simpl; lia].
  rewrite le_value_cons, H2, land_255, shiftr_8 by done. pose proof (Z.div_mod v 256). lia.
Qed.

Lemma minimal_fuel v : 0 < v -> v < 256 ^ Z.of_nat (Z.to_nat (Z.log2 v / 8 + 1)).
Proof.
  intros Hv. pose proof (Z.log2_nonneg v). assert (0 <= Z.log2 v / 8) by (apply Z.div_pos; lia).
  rewrite Z2Nat.id by lia. change 256 with (2 ^ 8). rewrite <- Z.pow_mul_r by lia.
  eapply Z.lt_le_trans; [apply (Z.log2_spec v Hv)|]. apply Z.pow_le_mono_r; [lia|].
  pose proof (Z.div_mod (Z.log2 v) 8 ltac:(lia)). pose proof (Z.mod_pos_bound (Z.log2 v) 8 ltac:(lia)). lia.
Qed.

(** The minimal encoding reads back, and its length is the number of bytes of
    the value. *)
Lemma bigintToMinimalLe_spec v :
  0 <= v -> exists l, bigintToMinimalLe v = Ok l /\ Forall byte_ok l /\ bytesToBigIntLe l = v /\
    forall k, 1 <= k -> v < 256 ^ k -> byte_length l <= k.
Proof.
  intros Hv. unfold bigintToMinimalLe, invariant. rewrite (proj2 (Z.leb_le 0 v) Hv), require_true.
  change (Ok tt ≫= ?f) with (f tt). cbv beta.
  destruct (v =? 0) eqn:E; breflect.
  - subst. exists [0]. split; [done|]. split; [by repeat constructor|]. split; [done|]. intros. unfold byte_length. simpl. lia.
  - destruct (minimal_loop_spec _ v (conj Hv (minimal_fuel v ltac:(lia)))) as (H1 & H2 & H3).
    eexists. split; [done|]. split; [done|]. split; [done|]. intros k Hk Hlt. unfold byte_length.
    assert (Z.log2 v / 8 + 1 <= k); [|pose proof (Z.div_pos (Z.log2 v) 8 (Z.log2_nonneg v)); lia].
    assert (Z.log2 v < 8 * k); [|pose proof (Z.div_lt_upper_bound (Z.log2 v) 8 k); lia].
    apply Z.log2_lt_pow2; [lia|]. by rewrite Z.pow_mul_r by lia.
Qed.

Lemma bytesEqual_spec l k : bytesEqual l k = true <-> l = k.
Proof.
  unfold bytesEqual. rewrite andb_true_iff, Nat.eqb_eq. split.
  - intros [Hlen He]. revert k Hlen He. induction l as [|a l IH]; intros [|b k]; simpl; try done.
    intros [= Hlen] [->%Z.eqb_eq He]%andb_prop. f_equal. by apply IH.
  - intros <-. split; [done|]. induction l as [|a l IH]; simpl; [done|]. by rewrite Z.eqb_refl.
Qed.

Lemma hex_pairs_hex l : Forall byte_ok l -> hex_pairs (l ≫= hex_byte) = Some l.
Proof.
  assert (forall d, 0 <= d < 16 -> hex_val (hex_char d) = Some d) as Hd.
  { intros d Hd. assert (d = 0 \/ d = 1 \/ d = 2 \/ d = 3 \/ d = 4 \/ d = 5 \/ d = 6 \/ d = 7 \/ d = 8 \/
      d = 9 \/ d = 10 \/ d = 11 \/ d = 12 \/ d = 13 \/ d = 14 \/ d = 15) as Hc by lia.
    repeat destruct Hc as [->|Hc]; try done; by subst. }
  induction 1 as [|b l Hb Hl IH]; [done|]. csimpl. unfold byte_ok in Hb.
  rewrite !Hd.
  - rewrite IH. f_equal. f_equal. pose proof (Z.div_mod b 16). lia.
  - pose proof (Z.mod_pos_bound b 16). lia.
  - split; [apply Z.div_pos; lia|]. apply Z.div_lt_upper_bound; lia.
Qed.

#[export] Hint Resolve le_value_bounds : divx.
