(* ===== verification/TxArith.v ===== *)
(** * Transaction SDK: exact arithmetic of multipliers and redemptions

    [packages/transaction-sdk/src/arithmetic.ts]: binary64 multipliers decoded
    to exact rationals, the retention ratio of an event and of a journal, the
    allocation of a backing amount and the payout of a redemption.  [f64ToBits]
    and [bitsToF64], which reinterpret the bits of a JavaScript number, are not
    modelled: the accounting works on the bits. *)
From S2P Require Import Prelude Js Payout Euclid TxBytes.
Open Scope Z_scope.

Record ExactRational := Rational { numerator : Z; denominator : Z }.
Record Binary64Value := Binary64 {
  b_bits : Z; b_significand : Z; b_exponent2 : Z; b_value : ExactRational;
}.

Definition FRACTION_MASK : Z := Z.shiftl 1 52 - 1.
Definition EXPONENT_MASK : Z := 2047.

Definition reduceRational (value : ExactRational) : res ExactRational :=
  invariant ((0 <=? numerator value) && (0 <? denominator value)) INVALID_F64_BITS ;;
  let divisor := gcd (numerator value) (denominator value) in
  Ok (Rational (numerator value ÷ divisor) (denominator value ÷ divisor)).

Definition compareRationals (left right : ExactRational) : Z :=
  let delta := numerator left * denominator right - numerator right * denominator left in
  if delta <? 0 then -1 else if 0 <? delta then 1 else 0.

Definition decodeCanonicalMultiplier (bits : Z) : res Binary64Value :=
  invariant ((0 <=? bits) && (bits <=? Z.shiftl 1 64 - 1)) INVALID_F64_BITS ;;
  let sign := Z.shiftr bits 63 in
  let rawExponent := Z.land (Z.shiftr bits 52) EXPONENT_MASK in
  let fraction := Z.land bits FRACTION_MASK in
  invariant (sign =? 0) INVALID_F64_BITS ;;
  invariant (negb (rawExponent =? 0)) INVALID_F64_BITS ;;
  invariant (negb (rawExponent =? EXPONENT_MASK)) INVALID_F64_BITS ;;
  let significand := Z.lor (Z.shiftl 1 52) fraction in
  let exponent2 := rawExponent - 1023 - 52 in
  let rational :=
    if 0 <=? exponent2 then Rational (Z.shiftl significand exponent2) 1
    else Rational significand (Z.shiftl 1 (- exponent2)) in
  reduced ← reduceRational rational;
  invariant (0 <=? compareRationals reduced (Rational 1 (Z.shiftl 1 32))) INVALID_F64_BITS ;;
  invariant (compareRationals reduced (Rational (Z.shiftl 1 32) 1) <? 0) INVALID_F64_BITS ;;
  Ok (Binary64 bits significand exponent2 reduced).

Definition eventRetentionRatio (m0Bits m1Bits : Z) : res ExactRational :=
  m0 ← decodeCanonicalMultiplier m0Bits;
  m1 ← decodeCanonicalMultiplier m1Bits;
  invariant (0 <=? compareRationals (b_value m1) (b_value m0)) INVALID_F64_BITS ;;
  reduceRational (Rational (numerator (b_value m0) * denominator (b_value m1))
                           (denominator (b_value m0) * numerator (b_value m1))).

(** One iteration of the loop of [multiplyRetentionRatios]; an event is the
    pair of its multiplier bits. *)
Definition retention_step (result : ExactRational) (event : Z * Z) : res ExactRational :=
  ratio ← eventRetentionRatio event.1 event.2;
  result' ← reduceRational (Rational (numerator result * numerator ratio)
                                     (denominator result * denominator ratio));
  n ← bigintToMinimalLe (numerator result');
  invariant (byte_length n <=? MAX_RATIONAL_BYTES) INVALID_F64_BITS ;;
  d ← bigintToMinimalLe (denominator result');
  invariant (byte_length d <=? MAX_RATIONAL_BYTES) INVALID_F64_BITS ;;
  Ok result'.

Definition multiplyRetentionRatios (events : list (Z * Z)) : res ExactRational :=
  invariant (Z.of_nat (length events) <=? MAX_EVENTS) INVALID_F64_BITS ;;
  foldM retention_step (Rational 1 1) events.

Record allocation := Allocation { ptRaw : Z; drRaw : Z }.

Definition allocationFromRetention (accountableRaw : Z) (retention : ExactRational) : res allocation :=
  assertU64 accountableRaw true ;;
  reduced ← reduceRational retention;
  invariant (numerator reduced <=? denominator reduced) INVALID_F64_BITS ;;
  let drRaw := accountableRaw * (denominator reduced - numerator reduced) ÷ denominator reduced in
  Ok (Allocation (accountableRaw - drRaw) drRaw).

Definition cumulativeRedemptionPayout (poolRaw supplyDenominatorRaw previouslyRedeemedClaimsRaw burnRaw : Z)
    : res Z :=
  assertU64 poolRaw true ;;
  assertU64 supplyDenominatorRaw false ;;
  assertU64 previouslyRedeemedClaimsRaw true ;;
  assertU64 burnRaw false ;;
  invariant (previouslyRedeemedClaimsRaw + burnRaw <=? supplyDenominatorRaw) INVALID_AMOUNT ;;
  Ok ((previouslyRedeemedClaimsRaw + burnRaw) * poolRaw ÷ supplyDenominatorRaw
      - previouslyRedeemedClaimsRaw * poolRaw ÷ supplyDenominatorRaw).

Definition decimalStringToRational (value : string) : res ExactRational :=
  match plain_decimal (chars value) with
  | None => Err INVALID_F64_BITS
  | Some (whole, fraction) =>
      reduceRational (Rational (BigInt (whole ++ fraction)) (10 ^ Z.of_nat (length fraction)))
  end.

Definition activeMultiplierBits (currentBits pendingBits pendingEffectiveTimestamp clockUnixTimestamp : Z) : res Z :=
  decodeCanonicalMultiplier currentBits ;;
  decodeCanonicalMultiplier pendingBits ;;
  assertI64 pendingEffectiveTimestamp ;;
  assertI64 clockUnixTimestamp ;;
  Ok (if pendingEffectiveTimestamp <=? clockUnixTimestamp then pendingBits else currentBits).

Example decode_one : decodeCanonicalMultiplier 4607182418800017408 =
  Ok (Binary64 4607182418800017408 4503599627370496 (-52) (Rational 1 1)).
Proof. vm_compute. reflexivity. Qed.

(** ** Laws *)

Definition lowest (r : ExactRational) : Prop :=
  0 < numerator r /\ 0 < denominator r /\ Z.gcd (numerator r) (denominator r) = 1.

Lemma reduceRational_pos n d :
  0 < n -> 0 < d ->
  exists r, reduceRational (Rational n d) = Ok r /\ lowest r /\
    numerator r * d = n * denominator r /\ numerator r <= n /\ denominator r <= d.
Proof.
  intros Hn Hd. unfold reduceRational, invariant. cbn [numerator denominator].
  rewrite (proj2 (Z.leb_le 0 n)), (proj2 (Z.ltb_lt 0 d)) by lia. cbn [andb].
  rewrite require_true. change (Ok tt ≫= ?f) with (f tt). cbv beta. eexists. split; [done|].
  destruct (reduced_spec n d Hn Hd) as (H1 & H2 & H3 & H4). done.
Qed.

Lemma compareRationals_spec l r :
  let delta := numerator l * denominator r - numerator r * denominator l in
  (0 <= compareRationals l r <-> 0 <= delta) /\ (compareRationals l r < 0 <-> delta < 0).
Proof.
  unfold compareRationals. cbv zeta.
  destruct (_ <? 0) eqn:E1; breflect; [lia|]. destruct (0 <? _) eqn:E2; breflect; lia.
Qed.

Lemma significand_bounds bits : 2 ^ 52 <= Z.lor (Z.shiftl 1 52) (Z.land bits FRACTION_MASK) < 2 ^ 53.
Proof.
  change FRACTION_MASK with (Z.ones 52). rewrite Z.land_ones by lia.
  pose proof (Z.mod_pos_bound bits (2 ^ 52) ltac:(lia)). set (f := bits mod 2 ^ 52) in *.
  assert (Z.land (Z.shiftl 1 52) f = 0) as H0.
  { apply Z.bits_inj'. intros n Hn. rewrite Z.land_spec, Z.bits_0, Z.shiftl_spec by lia.
    destruct (Z.eq_dec n 52) as [->|Hne].
    - destruct (decide (f = 0)) as [->|]; [by rewrite Z.bits_0, andb_false_r|].
      rewrite (Z.bits_above_log2 f 52); [by rewrite andb_false_r|lia|apply Z.log2_lt_pow2; lia].
    - destruct (Z.lt_ge_cases n 52); [by rewrite Z.testbit_neg_r by lia|].
      change 1 with (2 ^ 0). rewrite Z.pow2_bits_false by lia. done. }
  rewrite <- Z.lxor_lor, <- Z.add_nocarry_lxor by done. rewrite Z.shiftl_mul_pow2 by lia. lia.
Qed.

(** What a decoded multiplier is: the binary64 value [s * 2^e] of its bits with
    a 53-bit significand, between [2^-32] and [2^32], in lowest terms. *)
Lemma decode_spec bits v :
  decodeCanonicalMultiplier bits = Ok v ->
  b_bits v = bits /\ 2 ^ 52 <= b_significand v < 2 ^ 53 /\ -84 <= b_exponent2 v <= -21 /\
  lowest (b_value v) /\
  numerator (b_value v) * 2 ^ (- b_exponent2 v) = b_significand v * denominator (b_value v).
Proof.
  intros H. unfold decodeCanonicalMultiplier, invariant in H. minv H. cbn [b_bits b_significand b_exponent2 b_value].
  pose proof (significand_bounds bits) as Hs. split; [done|]. split; [done|].
  set (s := Z.lor _ _) in *. set (e := _ - 1023 - 52) in *. clearbody s e.
  match goal with H : reduceRational _ = Ok ?r |- _ => rename r into v; rename H into Hr end.
  breflect.
  match goal with X : 0 <= compareRationals v _, Y : compareRationals v _ < 0 |- _ =>
    pose proof (proj1 (proj1 (compareRationals_spec _ _)) X) as Hge;
    pose proof (proj1 (proj2 (compareRationals_spec _ _)) Y) as Hlt; clear X Y end.
  cbn [numerator denominator] in Hge, Hlt. rewrite !Z.shiftl_mul_pow2 in Hge, Hlt by lia.
  change (2 ^ 32) with 4294967296 in *. change (2 ^ 52) with 4503599627370496 in *.
  change (2 ^ 53) with 9007199254740992 in *.
  destruct (0 <=? e) eqn:Ee; breflect.
  - exfalso. assert (0 < 2 ^ e) by (apply Z.pow_pos_nonneg; lia).
    destruct (reduceRational_pos (Z.shiftl s e) 1) as (r & Hr' & (? & ? & _) & He & _ & _);
      [rewrite Z.shiftl_mul_pow2 by lia; nia|lia|].
    rewrite Hr in Hr'. injection Hr' as <-. rewrite Z.shiftl_mul_pow2 in He by lia.
    assert (4503599627370496 <= s * 2 ^ e) by nia.
    pose proof (Z.mul_le_mono_nonneg_r 4503599627370496 (s * 2 ^ e) (denominator v)). lia.
  - assert (0 < 2 ^ (- e)) as Hpe by (apply Z.pow_pos_nonneg; lia).
    destruct (reduceRational_pos s (Z.shiftl 1 (- e))) as (r & Hr' & Hlo & He & _ & _);
      [lia|rewrite Z.shiftl_mul_pow2 by lia; lia|].
    rewrite Hr in Hr'. injection Hr' as <-. rewrite Z.shiftl_mul_pow2 in He by lia.
    destruct Hlo as (Hn & Hd & Hg). rewrite Z.mul_1_l in He.
    split; [|split; [done|exact He]].
    set (q := 2 ^ (- e)) in *.
    assert (q < 2 ^ 85) as Hu.
    { pose proof (Z.mul_le_mono_nonneg_r (denominator v) (numerator v * 4294967296) q ltac:(lia) ltac:(lia)).
      assert (q <= s * 4294967296); [apply (Z.mul_le_mono_pos_l _ _ (denominator v)); lia|lia]. }
    assert (2 ^ 20 < q) as Hl.
    { pose proof (Z.mul_lt_mono_pos_r q (numerator v) (4294967296 * denominator v) Hpe) as [Hm _].
      assert (s < 4294967296 * q); [apply (Z.mul_lt_mono_pos_l (denominator v)); lia|lia]. }
    unfold q in *.
    apply Z.pow_lt_mono_r_iff in Hu, Hl; lia.
Qed.

(** Clearing the denominators of [m0 / m1] when [m0 = s0 / P0], [m1 = s1 / P1]. *)
Lemma ratio_cancel n0 d0 n1 d1 s0 s1 P0 P1 rn rd :
  0 < n0 -> 0 < d0 -> 0 < n1 -> 0 < d1 -> 0 < P0 -> 0 < P1 ->
  n0 * P0 = s0 * d0 -> n1 * P1 = s1 * d1 -> 0 <= n1 * d0 - n0 * d1 ->
  rn * (d0 * n1) = n0 * d1 * rd ->
  s0 * P1 <= s1 * P0 /\ rn * (P0 * s1) = s0 * P1 * rd.
Proof.
  intros. split.
  - apply (Z.mul_le_mono_pos_r _ _ (d0 * d1)); [nia|].
    transitivity ((s0 * d0) * (P1 * d1)); [lia|]. transitivity ((s1 * d1) * (P0 * d0)); [|lia].
    replace (s0 * d0) with (n0 * P0) by lia. replace (s1 * d1) with (n1 * P1) by lia.
    transitivity ((n0 * d1) * (P0 * P1)); [lia|]. transitivity ((n1 * d0) * (P0 * P1)); [|lia].
    apply Z.mul_le_mono_nonneg_r; nia.
  - apply (Z.mul_reg_r _ _ (d0 * d1)); [nia|].
    transitivity (rn * d0 * P0 * (s1 * d1)); [ring|]. replace (s1 * d1) with (n1 * P1) by lia.
    transitivity ((rn * (d0 * n1)) * P0 * P1); [ring|].
    replace (rn * (d0 * n1)) with (n0 * d1 * rd) by lia.
    transitivity ((n0 * P0) * d1 * P1 * rd); [ring|].
    replace (n0 * P0) with (s0 * d0) by lia. ring.
Qed.

(** The ratio [m0 / m1] of an event fits in 53 and 116 bits. *)
Lemma ratio_spec m0 m1 r :
  eventRetentionRatio m0 m1 = Ok r ->
  exists a b, decodeCanonicalMultiplier m0 = Ok a /\ decodeCanonicalMultiplier m1 = Ok b /\
    lowest r /\ numerator r <= denominator r /\
    numerator r * (denominator (b_value a) * numerator (b_value b))
      = numerator (b_value a) * denominator (b_value b) * denominator r /\
    numerator r < 2 ^ 53 /\ denominator r < 2 ^ 116.
Proof.
  intros H. unfold eventRetentionRatio, invariant in H. minv H. breflect.
  match goal with H0 : decodeCanonicalMultiplier m0 = Ok ?x, H1 : decodeCanonicalMultiplier m1 = Ok ?y |- _ =>
    rename x into a, y into b; rename H0 into Ha, H1 into Hb end.
  exists a, b. split; [done|]. split; [done|].
  destruct (decode_spec m0 a Ha) as (_ & Hsa & Hea & (Na & Da & _) & Va).
  destruct (decode_spec m1 b Hb) as (_ & Hsb & Heb & (Nb & Db & _) & Vb).
  match goal with H : reduceRational _ = Ok r |- _ => rename H into Hr end.
  match goal with H : 0 <= compareRationals _ _ |- _ =>
    apply (proj1 (compareRationals_spec _ _)) in H; rename H into Hcmp end.
  destruct (reduceRational_pos (numerator (b_value a) * denominator (b_value b))
    (denominator (b_value a) * numerator (b_value b))) as (r' & Hr' & Hlo & He & _ & _); [nia..|].
  rewrite Hr in Hr'. injection Hr' as <-. pose proof Hlo as (Hn & Hd & Hg).
  split; [done|]. assert (numerator r <= denominator r) as Hle.
  { apply (Z.mul_le_mono_pos_r _ _ (denominator (b_value a) * numerator (b_value b))); nia. }
  split; [done|]. split; [done|]. clear Hr Hlo.
  set (P0 := 2 ^ (- b_exponent2 a)) in *. set (P1 := 2 ^ (- b_exponent2 b)) in *.
  assert (0 < P0 /\ 0 < P1) as [HP0 HP1] by (split; apply Z.pow_pos_nonneg; lia).
  set (k := b_exponent2 b - b_exponent2 a).
  destruct (ratio_cancel (numerator (b_value a)) (denominator (b_value a)) (numerator (b_value b))
    (denominator (b_value b)) (b_significand a) (b_significand b) P0 P1 (numerator r) (denominator r))
    as [Hsle Hcan]; [lia..|].
  assert (0 <= k) as Hk.
  { destruct (Z.lt_ge_cases k 0) as [Hneg|]; [|done]. exfalso.
    assert (2 * P0 <= P1) as H2; [|nia].
    unfold P0, P1. rewrite <- Z.pow_succ_r by lia. apply Z.pow_le_mono_r; lia. }
  assert (P0 = P1 * 2 ^ k) as HPk by (unfold P0, P1, k; rewrite <- Z.pow_add_r by lia; f_equal; lia).
  assert (0 < 2 ^ k <= 2 ^ 63) as [Hk0 Hk63]
    by (split; [apply Z.pow_pos_nonneg; lia|apply Z.pow_le_mono_r; lia]).
  destruct (coprime_divides (numerator r) (denominator r) (b_significand a) (2 ^ k * b_significand b))
    as [Hdn Hdd]; [lia|nia|done| |].
  - rewrite HPk in Hcan. apply (Z.mul_reg_r _ _ P1); lia.
  - apply Z.divide_pos_le in Hdn; [|lia]. apply Z.divide_pos_le in Hdd; [|nia]. split; [lia|].
    change (2 ^ 116) with (2 ^ 63 * 2 ^ 53). nia.
Qed.

(** ** The retention of a journal *)

Definition ratio_of (e : Z * Z) : ExactRational :=
  match eventRetentionRatio e.1 e.2 with Ok r => r | Err _ => Rational 1 1 end.
Definition num_product (l : list (Z * Z)) : Z := prodZ ((fun e => numerator (ratio_of e)) <$> l).
Definition den_product (l : list (Z * Z)) : Z := prodZ ((fun e => denominator (ratio_of e)) <$> l).

Definition event_valid (e : Z * Z) : Prop := is_ok (eventRetentionRatio e.1 e.2) = true.

Lemma event_valid_ratio e :
  event_valid e ->
  eventRetentionRatio e.1 e.2 = Ok (ratio_of e) /\ lowest (ratio_of e) /\
  numerator (ratio_of e) <= denominator (ratio_of e) /\
  numerator (ratio_of e) < 2 ^ 53 /\ denominator (ratio_of e) < 2 ^ 116.
Proof.
  unfold event_valid, ratio_of. destruct (eventRetentionRatio e.1 e.2) as [r|] eqn:E; [|done]. intros _.
  destruct (ratio_spec _ _ _ E) as (a & b & _ & _ & H1 & H2 & _ & H3 & H4). done.
Qed.

Lemma event_products_pos l : Forall event_valid l -> 0 < num_product l /\ 0 < den_product l.
Proof.
  intros Hl. split; apply prodZ_pos, Forall_fmap; apply (Forall_impl _ _ _ Hl); intros e He;
    destruct (event_valid_ratio e He) as (_ & (? & ? & _) & _); done.
Qed.

Lemma fits_bound v : 0 <= v < 2 ^ 8192 ->
  exists l, bigintToMinimalLe v = Ok l /\ (byte_length l <=? MAX_RATIONAL_BYTES) = true.
Proof.
  intros Hv. destruct (bigintToMinimalLe_spec v) as (l & Hl & _ & _ & Hlen); [lia|].
  exists l. split; [done|]. apply Z.leb_le. apply Hlen; [done|]. unfold MAX_RATIONAL_BYTES.
  replace (256 ^ 1024) with (2 ^ 8192); [lia|]. change 256 with (2 ^ 8). by rewrite <- Z.pow_mul_r.
Qed.

Lemma pow2_mono a b : a <= b -> 2 ^ a <= 2 ^ b.
Proof. intros. apply Z.pow_le_mono_r; lia. Qed.

(** One step keeps the accumulator in lowest terms and adds at most 53 and 116
    bits, so the 8192-bit guards never fire within 64 events. *)
Lemma retention_step_Ok j i e :
  0 <= j < 64 -> lowest i -> numerator i <= denominator i ->
  numerator i <= 2 ^ (53 * j) -> denominator i <= 2 ^ (116 * j) -> event_valid e ->
  exists i', retention_step i e = Ok i' /\ lowest i' /\ numerator i' <= denominator i' /\
    numerator i' <= 2 ^ (53 * (j + 1)) /\ denominator i' <= 2 ^ (116 * (j + 1)) /\
    numerator i' * (denominator i * denominator (ratio_of e))
      = numerator i * numerator (ratio_of e) * denominator i'.
Proof.
  intros Hj (Hn & Hd & _) Hle Hbn Hbd He.
  destruct (event_valid_ratio e He) as (Hr & (Hrn & Hrd & _) & Hrle & H53 & H116).
  set (r := ratio_of e) in *. clearbody r. unfold retention_step, invariant. rewrite Hr.
  change (Ok r ≫= ?f) with (f r). cbv beta.
  destruct (reduceRational_pos (numerator i * numerator r) (denominator i * denominator r))
    as (i' & -> & Hlo & Heq & Hn' & Hd'); [nia..|].
  change (Ok i' ≫= ?f) with (f i'). cbv beta. pose proof Hlo as (Hpn & Hpd & _).
  assert (numerator i' <= 2 ^ (53 * (j + 1)) /\ denominator i' <= 2 ^ (116 * (j + 1))) as [B1 B2].
  { rewrite !Z.mul_add_distr_l, !Z.mul_1_r, !Z.pow_add_r by lia.
    assert (0 < 2 ^ (53 * j) /\ 0 < 2 ^ (116 * j)) as [? ?] by (split; apply Z.pow_pos_nonneg; lia).
    split; (etrans; [eassumption|]); apply Z.mul_le_mono_nonneg; lia. }
  pose proof (pow2_mono (53 * (j + 1)) 8191 ltac:(lia)).
  pose proof (pow2_mono (116 * (j + 1)) 8191 ltac:(lia)).
  assert (2 ^ 8191 < 2 ^ 8192) by (apply Z.pow_lt_mono_r; lia).
  destruct (fits_bound (numerator i')) as (n & En & Ln); [lia|].
  destruct (fits_bound (denominator i')) as (d & Ed & Ld); [lia|].
  rewrite En, bind_Ok, Ln, require_true, bind_Ok, Ed, bind_Ok, Ld, require_true, bind_Ok.
  exists i'. split; [done|]. split; [done|]. split; [|split; [done|split; [done|exact Heq]]].
  assert (numerator i * numerator r <= denominator i * denominator r) by nia.
  apply (Z.mul_le_mono_pos_r _ _ (denominator i * denominator r)); nia.
Qed.

Lemma retention_fold l j i :
  0 <= j -> j + Z.of_nat (length l) <= 64 -> lowest i -> numerator i <= denominator i ->
  numerator i <= 2 ^ (53 * j) -> denominator i <= 2 ^ (116 * j) -> Forall event_valid l ->
  exists r, foldM retention_step i l = Ok r /\ lowest r /\ numerator r <= denominator r /\
    numerator r * (denominator i * den_product l) = numerator i * num_product l * denominator r.
Proof.
  intros Hj Hlen Hlo Hle Hbn Hbd Hl. revert j i Hj Hlen Hlo Hle Hbn Hbd.
  induction Hl as [|e l He Hl IH]; intros j i Hj Hlen Hlo Hle Hbn Hbd.
  - exists i. split; [done|]. split; [done|]. split; [done|]. unfold num_product, den_product. simpl. lia.
  - simpl in Hlen.
    destruct (retention_step_Ok j i e) as (i' & Hs & Hlo' & Hle' & B1 & B2 & Hi'); [lia|done..|].
    destruct (IH (j + 1) i') as (r & Hr & Hlr & Hler & Her); [lia|lia|done..|].
    exists r. cbn [foldM]. rewrite Hs. split; [exact Hr|]. split; [done|]. split; [done|].
    unfold num_product, den_product in *. rewrite !fmap_cons. cbn [prodZ].
    set (dp := prodZ ((fun e => denominator (ratio_of e)) <$> l)) in *.
    set (np := prodZ ((fun e => numerator (ratio_of e)) <$> l)) in *. clearbody np dp.
    destruct Hlo' as (_ & Hd' & _). apply (Z.mul_reg_r _ _ (denominator i')); [lia|].
    transitivity ((numerator r * (denominator i' * dp)) * (denominator i * denominator (ratio_of e))); [ring|].
    rewrite Her.
    transitivity ((numerator i' * (denominator i * denominator (ratio_of e))) * np * denominator r); [ring|].
    rewrite Hi'. ring.
Qed.

(** Up to 64 valid events always have a retention, the product of their ratios. *)
Lemma multiplyRetentionRatios_spec l :
  Z.of_nat (length l) <= MAX_EVENTS -> Forall event_valid l ->
  exists r, multiplyRetentionRatios l = Ok r /\ lowest r /\ numerator r <= denominator r /\
    numerator r * den_product l = num_product l * denominator r.
Proof.
  intros Hlen Hl. unfold multiplyRetentionRatios, invariant. rewrite (proj2 (Z.leb_le _ _) Hlen).
  destruct (retention_fold l 0 (Rational 1 1)) as (r & Hr & Hlo & Hle & He); try done.
  exists r. split; [exact Hr|]. split; [done|]. split; [done|]. cbn [numerator denominator] in He. lia.
Qed.
