(* ===== verification/TxQuotes.v ===== *)
(** * Transaction SDK: snapshots, eligibility and quotes

    [packages/transaction-sdk/src/types.ts] and [quotes.ts]: what the client
    derives from one coherent reading of the chain - the custody a series
    requires, which operations it admits, and the exact outputs it quotes.
    A [PublicKey] is its 32 bytes, compared byte by byte as its [equals] does. *)
From S2P Require Import Prelude Payout TxBytes TxArith.
Open Scope Z_scope.

Abbreviation PublicKey := (list Z).

Record ChainClock := Clock {
  ck_slot : Z; epochStartTimestamp : Z; epoch : Z; leaderScheduleEpoch : Z; unixTimestamp : Z;
  contextSlot : Z;
}.

Record ScaleTuple := Scale {
  currentBits : Z; pendingBits : Z; pendingEffectiveTimestamp : Z; activeBits : Z;
}.

Record ConfigSnapshot := Config { cf_address : PublicKey; admin : PublicKey; deploymentDomain : bytes }.

Record Guard := MkGuard {
  expectedStateVersion : Z; expiryUnixTimestamp : Z; minimumRawOutput : Z;
}.

Inductive SeriesLifecyclePhase := open | sealing | finalized.
Inductive ProductPhase := funding | collecting | matured_pending | redeemable_phase | exception.
#[global] Instance SeriesLifecyclePhase_eq_dec : EqDecision SeriesLifecyclePhase.
Proof. solve_decision. Defined.
#[global] Instance ProductPhase_eq_dec : EqDecision ProductPhase. Proof. solve_decision. Defined.

Record SeriesSnapshot := Series {
  s_address : PublicKey; s_assetPolicy : PublicKey; s_collateralMint : PublicKey;
  s_ptMint : PublicKey; s_drMint : PublicKey; s_vault : PublicKey;
  year : Z; stateVersion : Z; startUnixTimestamp : Z; maturityUnixTimestamp : Z;
  phase : SeriesLifecyclePhase; accountableRaw : Z;
  eventCount : Z; unresolvedCount : Z; inYearQualifiedCount : Z; journalVersion : Z;
  journalHash : bytes; sealedCoverageDigest : bytes; sealedEventCount : Z;
  finalSupplyRaw : Z; finalPtPoolRaw : Z; finalDrPoolRaw : Z;
  redeemedPtClaimsRaw : Z; redeemedDrClaimsRaw : Z; ptPaidRaw : Z; drPaidRaw : Z;
}.

Record AccumulatorSnapshot := Accumulator {
  a_address : PublicKey; a_series : PublicKey; cursor : Z; numeratorLe : bytes; denominatorLe : bytes;
}.

Record AssetPolicySnapshot := Policy {
  p_address : PublicKey; p_collateralMint : PublicKey; p_decimals : Z; p_extensionsMask : Z;
  enabled : bool; observedSlot : Z; observationValidUntil : Z; observationEvidenceDigest : bytes;
  observedScale : ScaleTuple; p_controlsFingerprint : bytes; mintProfileMatchesReviewed : bool;
}.

Record CustodySnapshot := Custody { vaultRaw : Z; requiredRaw : Z; healthy : bool }.

Record EligibilitySnapshot := Eligibility {
  productPhase : ProductPhase; depositsOpen : bool; journalResolved : bool; coverageAttested : bool;
  mature : bool; finalizationInProgress : bool; redeemable : bool; custody : CustodySnapshot;
  reasons : list string;
}.

Record DepositQuote := DepositQ { inputRaw : Z; ptOutputRaw : Z; drOutputRaw : Z; dq_guard : Guard }.
Record RecombineQuote := RecombineQ {
  ptInputRaw : Z; drInputRaw : Z; rq_collateralOutputRaw : Z; rq_guard : Guard;
}.
Record RedemptionQuote := RedemptionQ {
  side : ClaimSideName; claimInputRaw : Z; collateralOutputRaw : Z; allowZero : bool; xq_guard : Guard;
}.
Record IndicativeAnnualAllocation := Indicative {
  final : bool; ia_accountableRaw : Z; ia_ptPoolRaw : Z; ia_drPoolRaw : Z;
  ia_journalResolved : bool; ia_coverageAttested : bool;
}.

Definition is_final (s : SeriesSnapshot) : bool := bool_decide (phase s = finalized).

(** ** Custody *)

Definition requiredCustodyRaw (s : SeriesSnapshot) : res Z :=
  assertU64 (accountableRaw s) true ;;
  if negb (is_final s) then Ok (accountableRaw s)
  else
    foldM (fun _ amount => assertU64 amount true ;; Ok tt) tt
      [finalSupplyRaw s; finalPtPoolRaw s; finalDrPoolRaw s; redeemedPtClaimsRaw s; redeemedDrClaimsRaw s;
       ptPaidRaw s; drPaidRaw s] ;;
    if finalSupplyRaw s =? 0 then
      invariant ((finalPtPoolRaw s =? 0) && (finalDrPoolRaw s =? 0) && (redeemedPtClaimsRaw s =? 0)
                 && (redeemedDrClaimsRaw s =? 0) && (ptPaidRaw s =? 0) && (drPaidRaw s =? 0)) INVALID_SERIES ;;
      Ok 0
    else
      invariant (finalPtPoolRaw s + finalDrPoolRaw s =? finalSupplyRaw s) INVALID_SERIES ;;
      invariant ((redeemedPtClaimsRaw s <=? finalSupplyRaw s) && (redeemedDrClaimsRaw s <=? finalSupplyRaw s))
        INVALID_SERIES ;;
      invariant ((ptPaidRaw s <=? finalPtPoolRaw s) && (drPaidRaw s <=? finalDrPoolRaw s)) INVALID_SERIES ;;
      invariant (ptPaidRaw s =? redeemedPtClaimsRaw s * finalPtPoolRaw s ÷ finalSupplyRaw s) INVALID_SERIES ;;
      invariant (drPaidRaw s =? redeemedDrClaimsRaw s * finalDrPoolRaw s ÷ finalSupplyRaw s) INVALID_SERIES ;;
      Ok (finalPtPoolRaw s - ptPaidRaw s + finalDrPoolRaw s - drPaidRaw s).

Definition custodySnapshot (s : SeriesSnapshot) (vaultRaw : Z) : res CustodySnapshot :=
  assertU64 vaultRaw true ;;
  requiredRaw ← requiredCustodyRaw s;
  Ok (Custody vaultRaw requiredRaw (requiredRaw <=? vaultRaw)).

(** ** Eligibility *)

(** [if (b) reasons.push(text)] *)
Definition reason (b : bool) (text : string) : list string := if b then [text] else [].

Definition coverage_attested (s : SeriesSnapshot) : bool :=
  (bool_decide (phase s = sealing) || bool_decide (phase s = finalized))
  && some_nonzero (sealedCoverageDigest s).

Definition deriveEligibility (s : SeriesSnapshot) (policy : AssetPolicySnapshot) (vaultRaw : Z)
    (clock_unixTimestamp clock_slot : Z) : res EligibilitySnapshot :=
  let now := clock_unixTimestamp in
  assertI64 now ;;
  assertU64 clock_slot true ;;
  custody ← custodySnapshot s vaultRaw;
  let mature := maturityUnixTimestamp s <=? now in
  let observationFresh := now <=? observationValidUntil policy in
  let journalResolved := unresolvedCount s =? 0 in
  let coverageAttested := coverage_attested s in
  let observationAuthenticated :=
    some_nonzero (observationEvidenceDigest policy) && (observedSlot policy <=? clock_slot) in
  let fundingJournalSafe := (unresolvedCount s =? 0) && (inYearQualifiedCount s =? 0) in
  let depositsOpen :=
    bool_decide (phase s = open) && (now <? startUnixTimestamp s) && enabled policy && observationFresh
    && observationAuthenticated && fundingJournalSafe && mintProfileMatchesReviewed policy && healthy custody in
  let redeemable := is_final s && healthy custody in
  let reasons :=
    reason (negb (healthy custody)) "custody_deficit" ++
    (if negb (is_final s) then
       reason (negb mature) "not_mature" ++
       reason (negb journalResolved) "journal_unresolved" ++
       reason (mature && negb coverageAttested) "source_coverage_not_attested" ++
       (if now <? startUnixTimestamp s then
          reason (negb (enabled policy)) "admission_disabled" ++
          reason (negb observationFresh) "observation_stale" ++
          reason (negb observationAuthenticated) "observation_unverified_or_future" ++
          reason (negb fundingJournalSafe) "series_journal_blocks_funding" ++
          reason (negb (mintProfileMatchesReviewed policy)) "mint_profile_changed_or_unverified"
        else [])
     else []) in
  let productPhase :=
    if negb (healthy custody) then exception
    else if is_final s then redeemable_phase
    else if mature then matured_pending
    else if now <? startUnixTimestamp s then funding
    else collecting in
  Ok (Eligibility productPhase depositsOpen journalResolved coverageAttested mature
        (bool_decide (phase s = sealing)) redeemable custody reasons).

(** ** Quotes *)

Definition guard (s : SeriesSnapshot) (minimum expiry now : Z) : res Guard :=
  assertU64 (stateVersion s) true ;;
  assertU64 minimum true ;;
  assertI64 expiry ;;
  invariant (now <=? expiry) INVALID_QUOTE ;;
  Ok (MkGuard (stateVersion s) expiry minimum).

Definition quoteDeposit (s : SeriesSnapshot) (policy : AssetPolicySnapshot) (vaultRaw inputRaw ownedCollateralRaw : Z)
    (clock_unixTimestamp clock_slot expiry : Z) (minimum : option Z) : res DepositQuote :=
  let minimumRawOutput := default inputRaw minimum in
  assertU64 inputRaw false ;;
  assertU64 ownedCollateralRaw true ;;
  invariant (inputRaw <=? ownedCollateralRaw) INVALID_QUOTE ;;
  e ← deriveEligibility s policy vaultRaw clock_unixTimestamp clock_slot;
  invariant (depositsOpen e) INVALID_QUOTE ;;
  invariant (minimumRawOutput <=? inputRaw) INVALID_QUOTE ;;
  g ← guard s minimumRawOutput expiry clock_unixTimestamp;
  Ok (DepositQ inputRaw inputRaw inputRaw g).

Definition quoteRecombine (s : SeriesSnapshot) (vaultRaw amountRaw ownedPtRaw ownedDrRaw now expiry : Z)
    (minimum : option Z) : res RecombineQuote :=
  let minimumRawOutput := default amountRaw minimum in
  assertU64 amountRaw false ;;
  assertU64 ownedPtRaw true ;;
  assertU64 ownedDrRaw true ;;
  invariant ((amountRaw <=? ownedPtRaw) && (amountRaw <=? ownedDrRaw)) INVALID_QUOTE ;;
  invariant (negb (is_final s)) INVALID_QUOTE ;;
  c ← custodySnapshot s vaultRaw;
  invariant (healthy c) INVALID_QUOTE ;;
  invariant (amountRaw <=? accountableRaw s) INVALID_QUOTE ;;
  invariant (minimumRawOutput <=? amountRaw) INVALID_QUOTE ;;
  g ← guard s minimumRawOutput expiry now;
  Ok (RecombineQ amountRaw amountRaw amountRaw g).

Definition quoteRedemption (s : SeriesSnapshot) (vaultRaw : Z) (side : ClaimSideName)
    (amountRaw ownedClaimRaw : Z) (allowZero : bool) (now expiry : Z) (minimum : option Z) : res RedemptionQuote :=
  assertU64 amountRaw false ;;
  assertU64 ownedClaimRaw true ;;
  invariant (amountRaw <=? ownedClaimRaw) INVALID_QUOTE ;;
  invariant (is_final s) INVALID_QUOTE ;;
  c ← custodySnapshot s vaultRaw;
  invariant (healthy c) INVALID_QUOTE ;;
  let poolRaw := match side with pt => finalPtPoolRaw s | dr => finalDrPoolRaw s end in
  let previouslyRedeemed := match side with pt => redeemedPtClaimsRaw s | dr => redeemedDrClaimsRaw s end in
  outputRaw ← cumulativeRedemptionPayout poolRaw (finalSupplyRaw s) previouslyRedeemed amountRaw;
  invariant ((0 <? outputRaw) || allowZero) INVALID_QUOTE ;;
  let minimum := default outputRaw minimum in
  invariant (minimum <=? outputRaw) INVALID_QUOTE ;;
  g ← guard s minimum expiry now;
  Ok (RedemptionQ side amountRaw outputRaw allowZero g).

Definition indicativeAnnualAllocation (s : SeriesSnapshot) (provisional : option (Z * Z))
    : res IndicativeAnnualAllocation :=
  match (if is_final s then Some (finalPtPoolRaw s, finalDrPoolRaw s) else provisional) with
  | None => Err INVALID_QUOTE
  | Some (ptPoolRaw, drPoolRaw) =>
      Ok (Indicative (is_final s) (accountableRaw s) ptPoolRaw drPoolRaw (unresolvedCount s =? 0)
            (coverage_attested s))
  end.

(** ** Laws *)

(** The abstract pool each side of a final series stands for. *)
Definition side_pool (sd : ClaimSideName) (s : SeriesSnapshot) : pool_state :=
  match sd with
  | pt => Pool (finalPtPoolRaw s) (finalSupplyRaw s) (redeemedPtClaimsRaw s) (ptPaidRaw s)
  | dr => Pool (finalDrPoolRaw s) (finalSupplyRaw s) (redeemedDrClaimsRaw s) (drPaidRaw s)
  end.

(** The snapshot after the chain executed a redemption of [n] claims for [pay]. *)
Definition after_redemption (sd : ClaimSideName) (n pay : Z) (s : SeriesSnapshot) : SeriesSnapshot :=
  let p := match sd with pt => n | dr => 0 end in
  let q := match sd with pt => pay | dr => 0 end in
  Series (s_address s) (s_assetPolicy s) (s_collateralMint s) (s_ptMint s) (s_drMint s) (s_vault s)
    (year s) (stateVersion s + 1) (startUnixTimestamp s) (maturityUnixTimestamp s) (phase s) (accountableRaw s)
    (eventCount s) (unresolvedCount s) (inYearQualifiedCount s) (journalVersion s) (journalHash s)
    (sealedCoverageDigest s) (sealedEventCount s) (finalSupplyRaw s) (finalPtPoolRaw s) (finalDrPoolRaw s)
    (redeemedPtClaimsRaw s + p) (redeemedDrClaimsRaw s + (n - p)) (ptPaidRaw s + q) (drPaidRaw s + (pay - q)).

Lemma requiredCustody_final s r :
  requiredCustodyRaw s = Ok r -> is_final s = true -> finalSupplyRaw s <> 0 ->
  finalPtPoolRaw s + finalDrPoolRaw s = finalSupplyRaw s /\ finalSupplyRaw s <= MAX_U64 /\
  pool_ok (side_pool pt s) /\ pool_ok (side_pool dr s) /\ 0 <= accountableRaw s <= MAX_U64 /\
  r = (p_pool (side_pool pt s) - p_paid (side_pool pt s)) + (p_pool (side_pool dr s) - p_paid (side_pool dr s)) /\
  ptPaidRaw s <= finalPtPoolRaw s /\ drPaidRaw s <= finalDrPoolRaw s.
Proof.
  intros H Hf Hs. unfold requiredCustodyRaw, invariant in H. rewrite Hf in H. cbn [negb foldM] in H.
  rewrite (proj2 (Z.eqb_neq _ _) Hs) in H. minv H. breflect.
  repeat found assertU64_Ok as (-> & ? & _).
  unfold pool_ok, floor_share. cbn [side_pool p_pool p_den p_redeemed p_paid].
  split_and!; (done || lia).
Qed.

Lemma requiredCustody_intro s :
  is_final s = true -> finalSupplyRaw s <> 0 -> 0 <= accountableRaw s <= MAX_U64 ->
  finalPtPoolRaw s + finalDrPoolRaw s = finalSupplyRaw s -> finalSupplyRaw s <= MAX_U64 ->
  pool_ok (side_pool pt s) -> pool_ok (side_pool dr s) ->
  requiredCustodyRaw s = Ok (finalPtPoolRaw s - ptPaidRaw s + finalDrPoolRaw s - drPaidRaw s).
Proof.
  intros Hf Hs Ha Hsum Hmax (D1 & P1 & R1 & F1) (D2 & P2 & R2 & F2).
  cbn [side_pool p_pool p_den p_redeemed p_paid] in *.
  pose proof (floor_share_le_pool (finalPtPoolRaw s) (finalSupplyRaw s) D1 P1 (redeemedPtClaimsRaw s) R1).
  pose proof (floor_share_le_pool (finalDrPoolRaw s) (finalSupplyRaw s) D2 P2 (redeemedDrClaimsRaw s) R2).
  pose proof (floor_share_nonneg (finalPtPoolRaw s) (finalSupplyRaw s) D1 P1 (redeemedPtClaimsRaw s) ltac:(lia)).
  pose proof (floor_share_nonneg (finalDrPoolRaw s) (finalSupplyRaw s) D2 P2 (redeemedDrClaimsRaw s) ltac:(lia)).
  unfold requiredCustodyRaw, invariant. rewrite Hf. cbn [negb foldM].
  rewrite !assertU64_true by (done || lia). cbn.
  rewrite (proj2 (Z.eqb_neq _ _) Hs), (proj2 (Z.eqb_eq _ _) Hsum).
  rewrite !(proj2 (Z.leb_le _ _)) by lia.
  unfold floor_share in F1, F2. rewrite <- F1, <- F2, !Z.eqb_refl. done.
Qed.

(** Executing a redemption is one step of the pool of its side; it lowers the
    custody the series requires by exactly what it pays. *)
Lemma redemption_step s sd n required :
  requiredCustodyRaw s = Ok required -> is_final s = true -> 0 < n ->
  p_redeemed (side_pool sd s) + n <= finalSupplyRaw s ->
  let pay := (pool_redeem (side_pool sd s) n).1 in
  let s' := after_redemption sd n pay s in
  side_pool sd s' = (pool_redeem (side_pool sd s) n).2 /\
  0 <= pay <= required /\ requiredCustodyRaw s' = Ok (required - pay).
Proof.
  intros Hreq Hf Hn Hle pay s'. assert (0 <= p_redeemed (side_pool sd s)) as Hr0.
  { unfold requiredCustodyRaw, invariant in Hreq. rewrite Hf in Hreq. cbn [negb foldM] in Hreq. minv Hreq.
    repeat found assertU64_Ok as (-> & ? & _). destruct sd; cbn; lia. }
  destruct (requiredCustody_final s required Hreq Hf ltac:(lia))
    as (Hsum & Hmax & Hpt & Hdr & Hacc & -> & Hpp & Hdd).
  assert (pool_ok (side_pool sd s)) as (D & P & R & F) by (by destruct sd).
  assert (0 <= pay <= p_pool (side_pool sd s) - p_paid (side_pool sd s)) as Hpay.
  { unfold pay, pool_redeem. cbn [fst]. rewrite F. split.
    - apply payout_nonneg; lia.
    - apply payout_le_remaining; destruct sd; cbn in *; lia. }
  assert (side_pool sd s' = (pool_redeem (side_pool sd s) n).2) as Hstep
    by (destruct sd; unfold s', pool_redeem; cbn; f_equal; fold pay; lia).
  split; [done|]. split; [destruct sd; cbn in *; lia|].
  pose proof (pool_redeem_ok (side_pool sd s) n) as Hok. rewrite <- Hstep in Hok.
  specialize (Hok ltac:(by destruct sd) ltac:(lia) ltac:(by destruct sd)).
  rewrite requiredCustody_intro; try done.
  - f_equal. unfold s'. destruct sd; cbn; lia.
  - unfold s'. destruct sd; cbn in *; lia.
  - destruct sd; [done|]. unfold s'. cbn in *. by rewrite !Z.add_0_r.
  - destruct sd; [|done]. unfold s'. cbn in *. by rewrite !Z.sub_diag, !Z.add_0_r.
Qed.
