(* ===== verification/TxProps.v ===== *)
(** * Transaction SDK: the theorems on arithmetic and quotes *)
From S2P Require Import Prelude Js Payout Euclid TxBytes TxArith TxQuotes.
Open Scope Z_scope.

(** ** A concrete series: two dividends, then partial redemption *)

Definition ex_events : list (Z * Z) :=
  [(4607182418800017408, 4607227454796291113); (4607227454796291113, 4607318427208763999)].

Definition ex_digest : bytes := repeat 7 32.
Definition ex_series : SeriesSnapshot :=
  Series [1] [2] [3] [4] [5] [6] 2026 9 1767225600 1798761600 finalized 600 2 0 2 4 ex_digest ex_digest 2
    1000 971 29 400 100 388 2.
Definition ex_policy : AssetPolicySnapshot :=
  Policy [2] [3] 8 0 true 10 1800000000 ex_digest (Scale 0 0 0 0) ex_digest true.
Definition ex_open_series : SeriesSnapshot :=
  Series [1] [2] [3] [4] [5] [6] 2026 9 1767225600 1798761600 open 600 0 0 0 4 ex_digest ex_digest 0
    0 0 0 0 0 0 0.

(** ** Redeeming a whole supply, one call after another *)

(** The payouts of consecutive redemptions, each starting from the claims the
    previous ones redeemed. *)
Definition redeem_in_turn (poolRaw supply : Z) (amounts : list Z) : res (Z * Z) :=
  foldM (fun '(redeemed, paid) amount =>
           pay ← cumulativeRedemptionPayout poolRaw supply redeemed amount;
           Ok (redeemed + amount, paid + pay)) (0, 0) amounts.

Lemma cumulativeRedemptionPayout_Ok pool den redeemed n pay :
  cumulativeRedemptionPayout pool den redeemed n = Ok pay ->
  pay = payout pool den redeemed n /\ 0 <= pool <= MAX_U64 /\ 0 < den <= MAX_U64 /\ 0 <= redeemed /\ 0 < n /\
  redeemed + n <= den.
Proof.
  unfold cumulativeRedemptionPayout, invariant. intros H. minv H. breflect.
  repeat found assertU64_Ok as (-> & ? & ?). split; [done|]. split_and!; try lia; auto.
Qed.

Lemma cumulativeRedemptionPayout_run pool den redeemed n :
  0 <= pool <= MAX_U64 -> den <= MAX_U64 -> 0 <= redeemed -> 0 < n -> redeemed + n <= den ->
  cumulativeRedemptionPayout pool den redeemed n = Ok (payout pool den redeemed n).
Proof.
  intros. unfold cumulativeRedemptionPayout, invariant.
  rewrite !assertU64_true by (done || lia). rewrite (proj2 (Z.leb_le _ _)) by lia. done.
Qed.

Lemma redeem_in_turn_run pool den amounts redeemed paid :
  0 <= pool <= MAX_U64 -> 0 < den <= MAX_U64 -> 0 <= redeemed -> Forall (Z.lt 0) amounts ->
  redeemed + sumZ amounts <= den ->
  foldM (fun '(redeemed, paid) amount =>
           pay ← cumulativeRedemptionPayout pool den redeemed amount;
           Ok (redeemed + amount, paid + pay)) (redeemed, paid) amounts =
    Ok (redeemed + sumZ amounts, paid + (pool_redeem_all (Pool pool den redeemed paid) amounts).1).
Proof.
  intros Hp Hd Hr Ha Hsum. revert redeemed paid Hr Hsum. induction Ha as [|a l Ha Hl IH]; intros redeemed paid Hr Hsum.
  - simpl. f_equal. f_equal; lia.
  - cbn [foldM sumZ] in *. assert (0 <= sumZ l) by (apply sumZ_nonneg; eapply Forall_impl; [done|]; lia).
    rewrite cumulativeRedemptionPayout_run, !bind_Ok by lia. rewrite IH by lia.
    cbn [pool_redeem_all pool_redeem p_pool p_den p_redeemed p_paid].
    destruct (pool_redeem_all _ l) as [t p2]. simpl. f_equal. f_equal; lia.
Qed.

(** ** Guarantees *)

(** C12: up to 64 events that each have a ratio always accumulate: the
    8192-bit guards on numerator and denominator can never fire, the result is
    the exact product in lowest terms, at most one, and the same for every
    order of the events. *)
Theorem retention_total_and_order_independent l k :
  Z.of_nat (length l) <= MAX_EVENTS -> Forall event_valid l -> Permutation l k ->
  exists r, multiplyRetentionRatios l = Ok r /\ multiplyRetentionRatios k = Ok r /\
    Z.gcd (numerator r) (denominator r) = 1 /\ 0 < numerator r <= denominator r /\
    numerator r * den_product l = num_product l * denominator r.
Proof.
  intros Hlen Hl Hp. destruct (multiplyRetentionRatios_spec l Hlen Hl) as (r & Hr & Hlo & Hle & He).
  destruct (multiplyRetentionRatios_spec k) as (r' & Hr' & Hlo' & Hle' & He'); [by rewrite <- Hp|by rewrite <- Hp|].
  exists r. split; [done|]. split; [|by destruct Hlo as (? & ? & ?)]. rewrite Hr'. f_equal.
  assert (num_product k = num_product l /\ den_product k = den_product l) as [En Ed].
  { split; symmetry; apply prodZ_perm; by rewrite Hp. }
  rewrite En, Ed in He'. pose proof (event_products_pos l Hl).
  destruct r as [a b], r' as [c d]. destruct Hlo as (? & ? & ?), Hlo' as (? & ? & ?). cbn [numerator denominator] in *.
  destruct (coprime_unique c d a b) as [-> ->]; try done.
  apply (Z.mul_reg_r _ _ (den_product l)); [lia|].
  transitivity ((c * den_product l) * b); [ring|]. rewrite He'.
  transitivity ((a * den_product l) * d); [rewrite He; ring|ring].
Qed.

(** A multiplier that decodes is exactly the binary64 number of its bits,
    [significand * 2^exponent2] with a 53-bit significand, in lowest terms and
    within [2^-32, 2^32). *)
Theorem multiplier_decoded_exactly bits v :
  decodeCanonicalMultiplier bits = Ok v ->
  b_bits v = bits /\ 2 ^ 52 <= b_significand v < 2 ^ 53 /\ -84 <= b_exponent2 v <= -21 /\
  Z.gcd (numerator (b_value v)) (denominator (b_value v)) = 1 /\ 0 < denominator (b_value v) /\
  numerator (b_value v) * 2 ^ (- b_exponent2 v) = b_significand v * denominator (b_value v).
Proof. intros H. destruct (decode_spec bits v H) as (H1 & H2 & H3 & (_ & H4 & H5) & H6). done. Qed.

(** However a supply is split into consecutive redemptions, each call
    succeeds and together they pay exactly the pool: no rounding dust stays
    behind and nothing is overpaid. *)
Theorem redemptions_exhaust_pool pool supply amounts :
  0 <= pool <= MAX_U64 -> 0 < supply <= MAX_U64 -> Forall (Z.lt 0) amounts -> sumZ amounts = supply ->
  redeem_in_turn pool supply amounts = Ok (supply, pool).
Proof.
  intros Hp Hd Ha Hs. unfold redeem_in_turn. rewrite redeem_in_turn_run by (done || lia).
  rewrite pool_redeem_all_exact; cbn [p_pool p_paid p_redeemed p_den].
  - f_equal. f_equal; lia.
  - unfold pool_ok. cbn. rewrite floor_share_zero. lia.
  - eapply Forall_impl; [done|]. lia.
  - lia.
Qed.

(** C8: a quoted redemption is safe to execute: the output is one step of the
    abstract pool of its side, the vault holds it, and after it was paid out
    the series is still consistent and its custody healthy. *)
Theorem quoted_redemption_keeps_custody s vault sd n owned z now expiry minimum q :
  quoteRedemption s vault sd n owned z now expiry minimum = Ok q ->
  let pay := collateralOutputRaw q in
  let s' := after_redemption sd n pay s in
  (pay, side_pool sd s') = pool_redeem (side_pool sd s) n /\
  0 <= pay <= vault /\ n <= owned /\ minimumRawOutput (xq_guard q) <= pay /\ (pay = 0 -> z = true) /\
  exists required, custodySnapshot s' (vault - pay) = Ok (Custody (vault - pay) required true).
Proof.
  intros H. unfold quoteRedemption, custodySnapshot, invariant in H. minv H. cbn in *. breflect.
  match goal with H : cumulativeRedemptionPayout _ _ _ _ = Ok ?p |- _ =>
    rename p into pay; apply cumulativeRedemptionPayout_Ok in H as (Hpay & _ & _ & _ & Hn & Hle) end.
  match goal with H : requiredCustodyRaw s = Ok ?r |- _ => rename r into required; rename H into Hreq end.
  repeat found assertU64_Ok as (-> & ? & _).
  match goal with H : guard _ _ _ _ = Ok ?g |- _ =>
    unfold guard, invariant in H; minv H; cbn in *; breflect end.
  destruct (redemption_step s sd n required Hreq) as (Hst & Hfit & Hreq'); [done|done|by destruct sd|].
  assert ((pool_redeem (side_pool sd s) n).1 = pay) as Hp by (rewrite Hpay; by destruct sd).
  rewrite Hp in *. split_and!; try done; try lia.
  - rewrite Hst. rewrite <- Hp. by destruct (pool_redeem _ _).
  - intros ->. by destruct z.
  - exists (required - pay). unfold custodySnapshot. rewrite assertU64_true, bind_Ok by (done || lia).
    rewrite Hreq', bind_Ok. f_equal. f_equal. apply Z.leb_le. lia.
Qed.

(** The eligibility report is consistent with itself: custody below the
    requirement is an exception and blocks everything; a final series is
    redeemable exactly when its custody is healthy; and, while a series is in
    its funding window, deposits are open exactly when the only reason
    reported is that it is not mature yet. *)
Theorem eligibility_consistent s policy vault now slot e :
  deriveEligibility s policy vault now slot = Ok e ->
  (productPhase e = exception <-> vaultRaw (custody e) < requiredRaw (custody e)) /\
  (redeemable e = true <-> productPhase e = redeemable_phase) /\
  (depositsOpen e = true -> productPhase e <> exception /\ redeemable e = false) /\
  (phase s = open -> startUnixTimestamp s <= maturityUnixTimestamp s -> now < startUnixTimestamp s ->
   (depositsOpen e = true <-> reasons e = ["not_mature"])).
Proof.
  intros H. unfold deriveEligibility, custodySnapshot in H. minv H. cbn.
  match goal with H : requiredCustodyRaw s = Ok ?r |- _ => rename r into required; clear H end.
  unfold is_final. destruct (required <=? vault) eqn:Eh; breflect; cbn.
  - split; [split; [|lia]; repeat case_match; try done|].
    split; [rewrite andb_true_r; repeat case_match; split; try done; congruence|].
    split; [intros Hd; breflect; repeat match goal with H : phase s = _ |- _ => rewrite H end; cbn;
            repeat case_match; done|].
    intros Ho Hsm Hnow. rewrite Ho. cbn.
    rewrite (proj2 (Z.leb_gt (maturityUnixTimestamp s) now)) by lia. rewrite (proj2 (Z.ltb_lt now _)) by lia.
    cbn. destruct (unresolvedCount s =? 0); cbn.
    all: destruct (enabled policy), (now <=? observationValidUntil policy),
      (some_nonzero (observationEvidenceDigest policy) && (observedSlot policy <=? slot)),
      (inYearQualifiedCount s =? 0), (mintProfileMatchesReviewed policy); cbn; split; intros; (done || congruence).
  - split; [split; [intros; lia|done]|]. rewrite !andb_false_r. split; [split; done|]. split; [done|].
    intros _ _ _. split; [done|]. case_match; done.
Qed.

(** Encodings lose nothing: a 64-bit integer, unsigned or signed, is read
    back by [getBigUint64] or [getBigInt64] from the bytes written, wherever
    they stand in a buffer, and bytes are read back from their hexadecimal
    text. *)
Theorem byte_encodings_roundtrip u i l before after eu ei :
  u64Le u = Ok eu -> i64Le i = Ok ei -> Forall byte_ok l ->
  getBigUint64 (before ++ eu ++ after) (length before) = Ok u /\
  getBigInt64 (before ++ ei ++ after) (length before) = Ok i /\
  fromHex (hex l) (Some (byte_length l)) = Ok l.
Proof.
  intros Hu Hi Hl. unfold u64Le in Hu. unfold i64Le in Hi.
  apply bind_Ok_inv in Hu as (? & Hu & <-%Ok_inj). apply bind_Ok_inv in Hi as (? & Hi & <-%Ok_inj).
  found assertU64_Ok as (-> & Hu & _). found assertI64_Ok as [-> Hi].
  assert (forall v, getBigUint64 (before ++ le_bytes 8 v ++ after) (length before) = Ok (v mod 2 ^ 64)) as Hget.
  { intros v. unfold getBigUint64. destruct (le_bytes_ok 8 v) as [_ Hlen].
    rewrite (proj2 (Nat.leb_le _ _)) by (rewrite !length_app, Hlen; lia). rewrite require_true, bind_Ok.
    rewrite drop_app_length, take_app_length' by done. by rewrite le_bytes_value. }
  unfold getBigInt64. rewrite !Hget, bind_Ok. unfold MAX_U64, MAX_I64, MIN_I64 in *. split_and!.
  - f_equal. apply Z.mod_small. lia.
  - f_equal. destruct (Z.lt_ge_cases i 0).
    + assert (i mod 2 ^ 64 = i + 2 ^ 64) as -> by (symmetry; apply Z.mod_unique_pos with (q := -1); lia).
      rewrite (proj2 (Z.leb_le _ _)) by lia. lia.
    + rewrite Z.mod_small by lia. by rewrite (proj2 (Z.leb_gt _ _)) by lia.
  - unfold fromHex, hex. rewrite chars_unchars, hex_pairs_hex by done. unfold invariant. by rewrite Z.eqb_refl.
Qed.

(** ** Witnesses *)

Example retention_witness :
  exists r, multiplyRetentionRatios ex_events = Ok r /\ multiplyRetentionRatios (rev ex_events) = Ok r.
Proof.
  destruct (retention_total_and_order_independent ex_events (rev ex_events)) as (r & H1 & H2 & _).
  - vm_compute. discriminate.
  - repeat constructor; vm_compute; reflexivity.
  - apply Permutation_rev.
  - exists r. split; [exact H1|exact H2].
Defined.

Example multiplier_witness : 2 ^ 52 <= 4503599627370496 < 2 ^ 53.
Proof.
  exact (proj1 (proj2 (multiplier_decoded_exactly _ _ decode_one))).
Defined.

Example redemptions_witness : redeem_in_turn 29 1000 [400; 1; 599] = Ok (1000, 29).
Proof.
  apply (redemptions_exhaust_pool 29 1000 [400; 1; 599]); [vm_compute; split; congruence..| |reflexivity].
  repeat constructor.
Defined.

Definition ex_quote : RedemptionQuote :=
  match quoteRedemption ex_series 610 dr 300 500 false 1800000000 1800000100 None with
  | Ok q => q
  | Err _ => RedemptionQ dr 0 0 false (MkGuard 0 0 0)
  end.
Example quoted_redemption_witness :
  exists required, custodySnapshot (after_redemption dr 300 (collateralOutputRaw ex_quote) ex_series)
    (610 - collateralOutputRaw ex_quote) = Ok (Custody (610 - collateralOutputRaw ex_quote) required true).
Proof.
  apply (quoted_redemption_keeps_custody ex_series 610 dr 300 500 false 1800000000 1800000100 None ex_quote).
  vm_compute. reflexivity.
Defined.

Example eligibility_witness :
  exists e, deriveEligibility ex_open_series ex_policy 600 1767225599 10 = Ok e /\ depositsOpen e = true.
Proof.
  eexists. split; [vm_compute; reflexivity|].
  refine (proj2 (proj2 (proj2 (proj2 (eligibility_consistent ex_open_series ex_policy 600 1767225599 10 _ _)))
    _ _ _) _); vm_compute; try reflexivity; discriminate.
Defined.

Example byte_encodings_witness : getBigInt64 ([9; 9] ++ le_bytes 8 (-5) ++ [1]) 2 = Ok (-5).
Proof.
  apply (byte_encodings_roundtrip 7 (-5) [0; 255] [9; 9] [1] (le_bytes 8 7) (le_bytes 8 (-5)));
    [reflexivity..|]. repeat constructor; vm_compute; congruence.
Defined.
