(* ===== verification/Utf8.v ===== *)
(** * JavaScript strings and their UTF-8 encoding

    A JavaScript string is a sequence of 16-bit code units; [TextEncoder.encode]
    turns it into UTF-8, replacing each unpaired surrogate by U+FFFD.  Used
    where the program hashes or measures texts that need not be ASCII
    (identities, asset symbols). *)
From S2P Require Import Prelude Js TxBytes.
Open Scope Z_scope.

Abbreviation js_string := (list Z).

Definition is_high (u : Z) : bool := (55296 <=? u) && (u <=? 56319).
Definition is_low (u : Z) : bool := (56320 <=? u) && (u <=? 57343).
Definition unit_ok (u : Z) : Prop := 0 <= u < 65536.

(** The Unicode scalar values of a string. *)
Fixpoint scalars (l : js_string) : list Z :=
  match l with
  | [] => []
  | u :: rest =>
      if is_high u then
        match rest with
        | v :: rest' =>
            if is_low v then 65536 + (u - 55296) * 1024 + (v - 56320) :: scalars rest'
            else 65533 :: scalars rest
        | [] => [65533]
        end
      else if is_low u then 65533 :: scalars rest
      else u :: scalars rest
  end.

Definition utf8_scalar (c : Z) : bytes :=
  if c <? 128 then [c]
  else if c <? 2048 then [192 + c / 64; 128 + c mod 64]
  else if c <? 65536 then [224 + c / 4096; 128 + c / 64 mod 64; 128 + c mod 64]
  else [240 + c / 262144; 128 + c / 4096 mod 64; 128 + c / 64 mod 64; 128 + c mod 64].

(** [encoder.encode(text)] *)
Definition encode (l : js_string) : bytes := scalars l ≫= utf8_scalar.

(** A string literal of the source. *)
Definition text (s : string) : js_string := ascii_Z <$> chars s.

(** [a === b] of strings. *)
Definition js_eq (a b : js_string) : bool := bool_decide (a = b).

(** Every surrogate is part of a pair. *)
Fixpoint well_formed (l : js_string) : bool :=
  match l with
  | [] => true
  | u :: rest =>
      if is_high u then match rest with v :: rest' => is_low v && well_formed rest' | [] => false end
      else negb (is_low u) && well_formed rest
  end.

(** ** Well-formed strings are determined by their UTF-8 bytes *)

(** Reads one scalar value back. *)
Definition utf8_read (l : bytes) : option (Z * bytes) :=
  match l with
  | a :: r =>
      if a <? 128 then Some (a, r)
      else if a <? 224 then match r with b :: r => Some ((a - 192) * 64 + (b - 128), r) | _ => None end
      else if a <? 240 then
        match r with b :: c :: r => Some ((a - 224) * 4096 + (b - 128) * 64 + (c - 128), r) | _ => None end
      else match r with
           | b :: c :: d :: r => Some ((a - 240) * 262144 + (b - 128) * 4096 + (c - 128) * 64 + (d - 128), r)
           | _ => None
           end
  | [] => None
  end.

Definition scalar_ok (c : Z) : Prop := 0 <= c < 1114112.

Lemma utf8_read_scalar c r : scalar_ok c -> utf8_read (utf8_scalar c ++ r) = Some (c, r).
Proof.
  unfold scalar_ok, utf8_scalar, utf8_read. intros Hc.
  destruct (c <? 128) eqn:E1; breflect; simpl.
  { by rewrite (proj2 (Z.ltb_lt c 128)) by lia. }
  destruct (c <? 2048) eqn:E2; breflect; simpl.
  { rewrite (proj2 (Z.ltb_ge _ 128)), (proj2 (Z.ltb_lt _ 224)) by (Z.to_euclidean_division_equations; lia).
    f_equal. f_equal. Z.to_euclidean_division_equations; lia. }
  destruct (c <? 65536) eqn:E3; breflect; simpl.
  { rewrite (proj2 (Z.ltb_ge _ 128)), (proj2 (Z.ltb_ge _ 224)), (proj2 (Z.ltb_lt _ 240))
      by (Z.to_euclidean_division_equations; lia).
    f_equal. f_equal. Z.to_euclidean_division_equations; lia. }
  rewrite (proj2 (Z.ltb_ge _ 128)), (proj2 (Z.ltb_ge _ 224)), (proj2 (Z.ltb_ge _ 240))
    by (Z.to_euclidean_division_equations; lia).
  f_equal. f_equal. Z.to_euclidean_division_equations; lia.
Qed.

Lemma utf8_scalar_nonempty c : utf8_scalar c <> [].
Proof. unfold utf8_scalar. by repeat case_match. Qed.

Lemma utf8_inj (l k : list Z) :
  Forall scalar_ok l -> Forall scalar_ok k -> (l ≫= utf8_scalar) = (k ≫= utf8_scalar) -> l = k.
Proof.
  intros Hl. revert k. induction Hl as [|c l Hc Hl IH]; intros k Hk H.
  - destruct k as [|d k]; [done|]. csimpl in H. by destruct (utf8_scalar d) eqn:E; [destruct (utf8_scalar_nonempty d)|].
  - destruct Hk as [|d k Hd Hk]; csimpl in H.
    + by destruct (utf8_scalar c) eqn:E; [destruct (utf8_scalar_nonempty c)|].
    + apply (f_equal utf8_read) in H. rewrite !utf8_read_scalar in H by done.
      injection H as -> H. f_equal. by apply IH.
Qed.

(** The code units of scalar values. *)
Definition units_of (c : Z) : js_string :=
  if c <? 65536 then [c] else [55296 + (c - 65536) / 1024; 56320 + (c - 65536) mod 1024].

(** Induction over a string whose units are read one or two at a time. *)
Lemma string_ind (P : js_string -> Prop) :
  P [] -> (forall u rest, P rest -> (forall v rest', rest = v :: rest' -> P rest') -> P (u :: rest)) -> forall l, P l.
Proof.
  intros H0 H1 l. enough (P l /\ forall v r, l = v :: r -> P r) by tauto.
  induction l as [|u l [IH1 IH2]]; [done|]. split; [by apply H1|]. by intros v r [= -> ->].
Qed.

Lemma scalars_ok l : Forall unit_ok l -> Forall scalar_ok (scalars l).
Proof.
  unfold unit_ok, scalar_ok, is_high, is_low.
  induction l as [|u rest IH1 IH2] using string_ind; [constructor|].
  intros [Hu Hl]%Forall_cons. cbn [scalars]. unfold is_high, is_low in *.
  destruct ((55296 <=? u) && _) eqn:Eh; [destruct rest as [|v rest']; [repeat constructor; lia|]|].
  - inversion Hl as [|? ? Hv Hl']; subst. destruct ((56320 <=? v) && _) eqn:El.
    + constructor; [breflect; lia|]. by eapply IH2.
    + constructor; [lia|by apply IH1].
  - destruct ((56320 <=? u) && _) eqn:El; constructor; auto; lia.
Qed.

Lemma units_of_scalars l : Forall unit_ok l -> well_formed l = true -> (scalars l ≫= units_of) = l.
Proof.
  unfold unit_ok. induction l as [|u rest IH1 IH2] using string_ind; [done|].
  intros [Hu Hl]%Forall_cons. cbn [scalars well_formed].
  destruct (is_high u) eqn:Eh.
  - destruct rest as [|v rest']; [done|]. intros [Hv Hw]%andb_prop. rewrite Hv.
    inversion Hl as [|? ? Hv' Hl']; subst. csimpl. rewrite (IH2 v rest') by done.
    unfold units_of, is_high, is_low in *. breflect.
    rewrite (proj2 (Z.ltb_ge _ _)) by lia. simpl.
    f_equal; [|f_equal]; Z.to_euclidean_division_equations; lia.
  - destruct (is_low u) eqn:El; [done|]. cbn [negb andb]. intros Hw. csimpl. rewrite IH1 by done.
    unfold units_of. rewrite (proj2 (Z.ltb_lt _ _)) by lia. done.
Qed.

(** Two well-formed texts with the same UTF-8 bytes are the same text. *)
Lemma encode_inj l k :
  Forall unit_ok l -> Forall unit_ok k -> well_formed l = true -> well_formed k = true ->
  encode l = encode k -> l = k.
Proof.
  unfold encode. intros Hl Hk Wl Wk H.
  apply utf8_inj in H; [|by apply scalars_ok..].
  by rewrite <- (units_of_scalars l), <- (units_of_scalars k), H.
Qed.

Lemma text_inj a b : text a = text b -> a = b.
Proof.
  unfold text, ascii_Z. intros H. apply chars_inj. revert H. generalize (chars a) (chars b).
  intros l. induction l as [|c l IH]; intros [|d k] H; try done. csimpl in H. injection H as H1 H2.
  f_equal; [|by apply IH]. apply N2Z.inj in H1. rewrite <- (ascii_N_embedding c), <- (ascii_N_embedding d). by rewrite H1.
Qed.
Lemma ascii_Z_fmap_inj (l k : list ascii) : ascii_Z <$> l = ascii_Z <$> k -> l = k.
Proof.
  intros H.
  assert (text (unchars l) = text (unchars k)) as E by (unfold text; by rewrite !chars_unchars).
  apply text_inj in E. by rewrite <- (chars_unchars l), <- (chars_unchars k), E.
Qed.

Lemma text_ok s : Forall unit_ok (text s) /\ well_formed (text s) = true.
Proof.
  unfold text. induction (chars s) as [|c l [IH1 IH2]]; csimpl; [done|].
  assert (0 <= ascii_Z c < 256) by (unfold ascii_Z; pose proof (N_ascii_bounded c); lia). split.
  - constructor; [unfold unit_ok; lia|done].
  - unfold is_high, is_low. rewrite !(proj2 (Z.leb_gt _ (ascii_Z c))) by lia. by rewrite IH2.
Qed.

Example encode_two_units : encode [55357; 56832] = [240; 159; 152; 128].
Proof. vm_compute. reflexivity. Qed.
