(* ===== verification/TxAccounts.v ===== *)
(** * Transaction SDK: reading accounts

    [packages/transaction-sdk/src/accounts.ts] and [token-profile.ts]: decoded
    account values normalised to snapshots, the clock sysvar, the inspection of
    a collateral mint's extensions, and [fetchQuoteSnapshot], which checks that
    every account of one RPC response belongs to the same series.

    Parameters: the RPC connection, the Anchor account decoder, the SPL token
    unpackers with the numbering of their extension types, the token program
    addresses and SHA-256. *)
From S2P Require Import Prelude Js Utf8 TxBytes TxArith TxQuotes.
Open Scope Z_scope.

(** ** Decoded values *)

(** What the Anchor decoder returns: [VOther] stands for the values that have
    no lossless form ([undefined], functions, symbols).  Numbers are integers. *)
#[warnings="-register-all"]
Inductive JsValue :=
  | VBN (n : Z) | VKey (k : PublicKey) | VBytes (l : bytes) | VArray (l : list JsValue)
  | VNull | VBool (b : bool) | VNumber (n : Z) | VString (s : js_string) | VBigInt (n : Z)
  | VObject (fields : list (string * JsValue)) | VOther.

#[warnings="-register-all"]
Inductive LosslessAccountValue :=
  | LNull | LBool (b : bool) | LNumber (n : Z) | LBigInt (n : Z) | LString (s : js_string)
  | LKey (k : PublicKey) | LBytes (l : bytes) | LArray (l : list LosslessAccountValue)
  | LObject (fields : list (string * LosslessAccountValue)).

Abbreviation LRecord := (list (string * LosslessAccountValue)).

Fixpoint lossless (value : JsValue) : res LosslessAccountValue :=
  match value with
  | VBN n => Ok (LBigInt n)
  | VKey k => Ok (LKey k)
  | VBytes l => Ok (LBytes l)
  | VArray l =>
      l' ← (fix go (l : list JsValue) : res (list LosslessAccountValue) :=
              match l with
              | [] => Ok []
              | x :: rest => x' ← lossless x; rest' ← go rest; Ok (x' :: rest')
              end) l;
      Ok (LArray l')
  | VNull => Ok LNull
  | VBool b => Ok (LBool b)
  | VNumber n => Ok (LNumber n)
  | VString s => Ok (LString s)
  | VBigInt n => Ok (LBigInt n)
  | VObject fields =>
      fields' ← (fix go (l : list (string * JsValue)) : res LRecord :=
                   match l with
                   | [] => Ok []
                   | (k, x) :: rest => x' ← lossless x; rest' ← go rest; Ok ((k, x') :: rest')
                   end) fields;
      Ok (LObject fields')
  | VOther => Err IDL_MISMATCH
  end.

(** ** Fields *)

Definition field (record : LRecord) (name : string) : res LosslessAccountValue :=
  match om_get record name with Some v => Ok v | None => Err IDL_MISMATCH end.

Definition bigintField (record : LRecord) (name : string) : res Z :=
  value ← field record name;
  match value with LBigInt n => Ok n | _ => Err IDL_MISMATCH end.
Definition numberField (record : LRecord) (name : string) : res Z :=
  value ← field record name;
  match value with LNumber n => invariant (isSafeInteger n) IDL_MISMATCH ;; Ok n | _ => Err IDL_MISMATCH end.
Definition boolField (record : LRecord) (name : string) : res bool :=
  value ← field record name;
  match value with LBool b => Ok b | _ => Err IDL_MISMATCH end.
Definition publicKeyField (record : LRecord) (name : string) : res PublicKey :=
  value ← field record name;
  match value with LKey k => Ok k | _ => Err IDL_MISMATCH end.

(** [value.every((entry) => typeof entry === 'number')] with the numbers. *)
Fixpoint all_numbers (l : list LosslessAccountValue) : option (list Z) :=
  match l with
  | [] => Some []
  | LNumber n :: rest => match all_numbers rest with Some r => Some (n :: r) | None => None end
  | _ :: _ => None
  end.
(** [Uint8Array.from] keeps the low byte of each number. *)
Definition Uint8Array_from (l : list Z) : bytes := (fun n => n mod 256) <$> l.

Definition bytesField (record : LRecord) (name : string) (len : Z) : res bytes :=
  value ← field record name;
  match (match value with
         | LBytes l => Some l
         | LArray l => match all_numbers l with Some ns => Some (Uint8Array_from ns) | None => None end
         | _ => None
         end) with
  | Some l => invariant (byte_length l =? len) IDL_MISMATCH ;; Ok l
  | None => Err IDL_MISMATCH
  end.

Definition phaseField (record : LRecord) : res SeriesLifecyclePhase :=
  value ← field record "phase";
  match value with
  | LObject variants =>
      if om_has variants "open" then Ok open
      else if om_has variants "sealing" then Ok sealing
      else if om_has variants "finalized" then Ok finalized
      else Err IDL_MISMATCH
  | LKey _ | LBytes _ => Err IDL_MISMATCH (* objects without any of the three keys *)
  | _ => Err IDL_MISMATCH
  end.

(** ** Snapshots *)

Definition normalizeSeriesAccount (address : PublicKey) (v : LRecord) : res SeriesSnapshot :=
  assetPolicy ← publicKeyField v "assetPolicy";
  collateralMint ← publicKeyField v "collateralMint";
  ptMint ← publicKeyField v "ptMint";
  drMint ← publicKeyField v "drMint";
  vault ← publicKeyField v "vault";
  year ← numberField v "year";
  stateVersion ← bigintField v "stateVersion";
  startTimestamp ← bigintField v "startTimestamp";
  maturityTimestamp ← bigintField v "maturityTimestamp";
  phase ← phaseField v;
  nominalBacking ← bigintField v "nominalBacking";
  eventCount ← numberField v "eventCount";
  unresolvedCount ← numberField v "unresolvedCount";
  inYearQualifiedCount ← numberField v "inYearQualifiedCount";
  journalVersion ← bigintField v "journalVersion";
  journalHash ← bytesField v "journalHash" 32;
  sealedCoverageDigest ← bytesField v "sealedCoverageDigest" 32;
  sealedEventCount ← numberField v "sealedEventCount";
  finalSupply ← bigintField v "finalSupply";
  ptPool ← bigintField v "ptPool";
  drPool ← bigintField v "drPool";
  ptRedeemedNominal ← bigintField v "ptRedeemedNominal";
  drRedeemedNominal ← bigintField v "drRedeemedNominal";
  ptPaid ← bigintField v "ptPaid";
  drPaid ← bigintField v "drPaid";
  Ok (Series address assetPolicy collateralMint ptMint drMint vault year stateVersion startTimestamp
        maturityTimestamp phase nominalBacking eventCount unresolvedCount inYearQualifiedCount journalVersion
        journalHash sealedCoverageDigest sealedEventCount finalSupply ptPool drPool ptRedeemedNominal
        drRedeemedNominal ptPaid drPaid).

(** [Uint8Array.from(value as ArrayLike<number>)] of a byte vector field. *)
Definition byte_vector (value : LosslessAccountValue) : res bytes :=
  match value with
  | LBytes l => Ok l
  | LArray l => match all_numbers l with Some ns => Ok (Uint8Array_from ns) | None => Err IDL_MISMATCH end
  | _ => Err IDL_MISMATCH
  end.

Definition normalizeAccumulatorAccount (address : PublicKey) (v : LRecord) : res AccumulatorSnapshot :=
  numerator ← field v "numerator";
  denominator ← field v "denominator";
  numeratorLe ← byte_vector numerator;
  denominatorLe ← byte_vector denominator;
  series ← publicKeyField v "series";
  cursor ← numberField v "cursor";
  Ok (Accumulator address series cursor numeratorLe denominatorLe).

Definition normalizeConfigAccount (address : PublicKey) (v : LRecord) : res ConfigSnapshot :=
  admin ← publicKeyField v "admin";
  deploymentDomain ← bytesField v "deploymentDomain" 32;
  Ok (Config address admin deploymentDomain).

Definition normalizeAssetPolicyAccount (address : PublicKey) (v : LRecord) (mintProfileMatchesReviewed : bool)
    : res AssetPolicySnapshot :=
  collateralMint ← publicKeyField v "collateralMint";
  decimals ← numberField v "decimals";
  extensionsMask ← bigintField v "extensionsMask";
  admissionEnabled ← boolField v "admissionEnabled";
  observedSlot ← bigintField v "observedSlot";
  observationValidUntil ← bigintField v "observationValidUntil";
  observationEvidenceDigest ← bytesField v "observationEvidenceDigest" 32;
  current ← bigintField v "reviewedCurrentMultiplierBits";
  pending ← bigintField v "reviewedNewMultiplierBits";
  effective ← bigintField v "reviewedNewMultiplierEffectiveTimestamp";
  active ← bigintField v "reviewedActiveMultiplierBits";
  controlsFingerprint ← bytesField v "reviewedControlsFingerprint" 32;
  Ok (Policy address collateralMint decimals extensionsMask admissionEnabled observedSlot observationValidUntil
        observationEvidenceDigest (Scale current pending effective active) controlsFingerprint
        mintProfileMatchesReviewed).

Definition sameScaleTuple (left right : ScaleTuple) : bool :=
  (currentBits left =? currentBits right) && (pendingBits left =? pendingBits right)
  && (pendingEffectiveTimestamp left =? pendingEffectiveTimestamp right)
  && (activeBits left =? activeBits right).

(** ** The clock sysvar *)

Record AccountInfo := Info { i_owner : PublicKey; i_data : bytes }.

Definition decodeClockAccount (info : AccountInfo) (contextSlot : Z) : res ChainClock :=
  invariant (40 <=? byte_length (i_data info)) RPC_ACCOUNT_MISSING ;;
  slot ← getBigUint64 (i_data info) 0;
  start ← getBigInt64 (i_data info) 8;
  epoch ← getBigUint64 (i_data info) 16;
  leader ← getBigUint64 (i_data info) 24;
  unix ← getBigInt64 (i_data info) 32;
  Ok (Clock slot start epoch leader unix contextSlot).

(** ** Collateral mints *)

Record Mint := MkMint {
  m_address : PublicKey; m_decimals : Z; m_isInitialized : bool;
  m_mintAuthority : option PublicKey; m_freezeAuthority : option PublicKey; m_tlvData : bytes;
}.
Record TokenAccount := MkAccount {
  t_mint : PublicKey; t_owner : PublicKey; t_amount : Z; t_delegate : option PublicKey;
  t_closeAuthority : option PublicKey; t_isInitialized : bool; t_isFrozen : bool;
}.

Record InspectedMintProfile := Profile {
  f_decimals : Z; f_extensionsMask : Z; f_scale : ScaleTuple; f_controlsFingerprint : bytes;
  accountingFactorsSupported : bool;
}.

Inductive ExtensionName :=
  | ScaledUiAmountConfig | MetadataPointer | TokenMetadata | MintCloseAuthority | PermanentDelegate
  | DefaultAccountState | TransferHook | PausableConfig | ConfidentialTransferMint.
Definition ALLOWED : list ExtensionName :=
  [ScaledUiAmountConfig; MetadataPointer; TokenMetadata; MintCloseAuthority; PermanentDelegate;
   DefaultAccountState; TransferHook; PausableConfig; ConfidentialTransferMint].

Definition optionPublicKey (value : option PublicKey) : bytes :=
  match value with Some k => concatBytes [[1]; k] | None => concatBytes [[0]; repeat 0 32] end.

Definition mintProfileMatchesPolicy (policy : AssetPolicySnapshot) (profile : InspectedMintProfile) : bool :=
  accountingFactorsSupported profile
  && (f_decimals profile =? p_decimals policy)
  && (f_extensionsMask profile =? p_extensionsMask policy)
  && (currentBits (f_scale profile) =? currentBits (observedScale policy))
  && (pendingBits (f_scale profile) =? pendingBits (observedScale policy))
  && (pendingEffectiveTimestamp (f_scale profile) =? pendingEffectiveTimestamp (observedScale policy))
  && (activeBits (f_scale profile) =? activeBits (observedScale policy))
  && bytesEqual (f_controlsFingerprint profile) (p_controlsFingerprint policy).

(** What the loop over the extensions carries. *)
Record inspection := Inspection {
  n_parts : list bytes; n_mask : Z; n_scale : option ScaleTuple; n_supported : bool;
}.

(** [types.sort((left, right) => left - right)] *)
Fixpoint sort_insert (x : Z) (l : list Z) : list Z :=
  match l with
  | [] => [x]
  | y :: l' => if x <=? y then x :: l else y :: sort_insert x l'
  end.
Definition sort_numbers (l : list Z) : list Z := fold_right sort_insert [] l.

(** [new Set(types).size === types.length] *)
Fixpoint distinct (l : list Z) : bool :=
  match l with
  | [] => true
  | x :: l' => negb (existsb (Z.eqb x) l') && distinct l'
  end.

(** A call of a library that may throw. *)
Definition native {A} (o : option A) : res A := match o with Some a => Ok a | None => Err JS_ERROR end.

(** ** Inspection of a mint *)

Section inspect.
Context (ExtensionType : ExtensionName -> Z).
Context (getExtensionTypes : bytes -> list Z) (getExtensionData : Z -> bytes -> option bytes).
Context (sha256 : bytes -> bytes).

Definition extension_of (type : Z) : option ExtensionName :=
  find (fun e => ExtensionType e =? type) ALLOWED.

Definition extensionData (mint : Mint) (type : Z) : res bytes :=
  match getExtensionData type (m_tlvData mint) with Some d => Ok d | None => Err RPC_ACCOUNT_MISSING end.

(** The case of [ScaledUiAmountConfig]: the multipliers and the one in force. *)
Definition read_scale (data : bytes) (clock : ChainClock) : res (ScaleTuple * bool) :=
  invariant (byte_length data =? 56) INVALID_SERIES ;;
  currentBits ← getBigUint64 data 32;
  pendingEffectiveTimestamp ← getBigInt64 data 40;
  pendingBits ← getBigUint64 data 48;
  let supported := is_ok (decodeCanonicalMultiplier currentBits ;; decodeCanonicalMultiplier pendingBits) in
  Ok (Scale currentBits pendingBits pendingEffectiveTimestamp
        (if pendingEffectiveTimestamp <=? unixTimestamp clock then pendingBits else currentBits), supported).

(** The guards after the [switch]. *)
Definition extension_allowed (name : ExtensionName) (data : bytes) : res unit :=
  match name with
  | DefaultAccountState =>
      invariant ((byte_length data =? 1) && bool_decide (data !! 0%nat = Some 1)) INVALID_SERIES
  | TransferHook =>
      invariant ((byte_length data =? 64) && forallb (fun b => b =? 0) (drop 32 data)) INVALID_SERIES
  | PausableConfig =>
      invariant ((byte_length data =? 33) && bool_decide (data !! 32%nat = Some 0)) INVALID_SERIES
  | _ => Ok tt
  end.

Definition inspect_extension (mint : Mint) (clock : ChainClock) (st : inspection) (type : Z) : res inspection :=
  invariant ((type <? 64) && existsb (fun e => ExtensionType e =? type) ALLOWED) INVALID_SERIES ;;
  let mask := Z.lor (n_mask st) (Z.shiftl 1 type) in
  tag ← u16Le type;
  let parts := n_parts st ++ [tag] in
  data ← extensionData mint type;
  match extension_of type with
  | None => Err JS_ERROR
  | Some name =>
      st' ← match name with
            | ScaledUiAmountConfig =>
                '(scale, supported) ← read_scale data clock;
                Ok (Inspection (parts ++ [take 32 data]) mask (Some scale) supported)
            | TokenMetadata => Ok (Inspection parts mask (n_scale st) (n_supported st))
            | MetadataPointer | PausableConfig =>
                Ok (Inspection (parts ++ [take 32 data]) mask (n_scale st) (n_supported st))
            | MintCloseAuthority | PermanentDelegate | DefaultAccountState | TransferHook
            | ConfidentialTransferMint =>
                Ok (Inspection (parts ++ [data]) mask (n_scale st) (n_supported st))
            end;
      extension_allowed name data ;;
      Ok st'
  end.

Definition inspectMintProfile (mint : Mint) (clock : ChainClock) : res InspectedMintProfile :=
  invariant (m_isInitialized mint) INVALID_SERIES ;;
  invariant (existsb (Z.eqb (m_decimals mint)) [6; 8; 9]) INVALID_SERIES ;;
  let types := sort_numbers (getExtensionTypes (m_tlvData mint)) in
  invariant (distinct types) INVALID_SERIES ;;
  st ← foldM (inspect_extension mint clock)
         (Inspection
            [ascii_bytes "dividendx:mint-controls:v1"; m_address mint;
             optionPublicKey (m_mintAuthority mint); optionPublicKey (m_freezeAuthority mint)] 0 None false) types;
  match n_scale st with
  | None => Err INVALID_SERIES
  | Some scale =>
      Ok (Profile (m_decimals mint) (n_mask st) scale (sha256 (concatBytes (n_parts st))) (n_supported st))
  end.
End inspect.

(** ** Reading accounts *)

(** One RPC answer: the slot of its context and the accounts, [None] for null. *)
Record rpc_response := Response { r_slot : Z; r_value : list (option AccountInfo) }.

Record AccountRequest := Request { q_address : PublicKey; q_accountName : string; q_owner : option PublicKey }.
Record DecodedAccount := Decoded { d_address : PublicKey; d_accountName : string; d_value : LRecord }.
Record CoherentAccountSnapshot := AccountSnapshot { as_contextSlot : Z; as_accounts : list DecodedAccount }.
Record Token2022Snapshot := TokenSnapshot {
  ts_contextSlot : Z; ts_clock : ChainClock; ts_mint : Mint; ts_accounts : list TokenAccount; ts_scale : ScaleTuple;
}.
Record QuoteSnapshotAddresses := Addresses {
  qa_assetPolicy : PublicKey; qa_series : PublicKey; qa_accumulator : PublicKey; qa_collateralMint : PublicKey;
  qa_vault : PublicKey; qa_holder : option PublicKey; qa_holderCollateral : option PublicKey;
  qa_holderPt : option PublicKey; qa_holderDr : option PublicKey;
}.
Record CoherentQuoteSnapshot := QuoteSnapshot {
  qs_contextSlot : Z; qs_clock : ChainClock; qs_policy : AssetPolicySnapshot; qs_series : SeriesSnapshot;
  qs_accumulator : AccumulatorSnapshot; qs_mintProfile : InspectedMintProfile; qs_vaultRaw : Z;
  qs_holderCollateralRaw : option Z; qs_holderPtRaw : option Z; qs_holderDrRaw : option Z;
}.

(** [left.equals(right)] of public keys. *)
Definition key_equals (left right : PublicKey) : bool := bytesEqual left right.

(** [policy.mintProfileMatchesReviewed = value] *)
Definition with_matches (value : bool) (p : AssetPolicySnapshot) : AssetPolicySnapshot :=
  Policy (p_address p) (p_collateralMint p) (p_decimals p) (p_extensionsMask p) (enabled p) (observedSlot p)
    (observationValidUntil p) (observationEvidenceDigest p) (observedScale p) (p_controlsFingerprint p) value.

(** The accounts of a response that must exist, each owned by [owner]. *)
Definition owned_by (owner : PublicKey) (info : AccountInfo) : bool := key_equals (i_owner info) owner.

(** What the code relies on of the chain's libraries: the RPC connection, the
    Anchor account coder for the given IDL, the SPL token layouts, SHA-256 and
    well-known addresses. *)
Record platform := Platform {
  getMultipleAccountsInfoAndContext : list PublicKey -> res rpc_response;
  getAccountInfoAndContext : PublicKey -> res (Z * option AccountInfo);
  decode : string -> bytes -> option JsValue;
  idl_address : option PublicKey;
  unpackMint : PublicKey -> AccountInfo -> PublicKey -> option Mint;
  unpackAccount : PublicKey -> AccountInfo -> PublicKey -> option TokenAccount;
  ExtensionType : ExtensionName -> Z;
  getExtensionTypes : bytes -> list Z;
  getExtensionData : Z -> bytes -> option bytes;
  sha256 : bytes -> bytes;
  TOKEN_PROGRAM_ID : PublicKey; TOKEN_2022_PROGRAM_ID : PublicKey; SYSVAR_CLOCK_PUBKEY : PublicKey;
  DIVIDENDX_PROGRAM_ID : PublicKey;
}.

Section fetch.
Context (env : platform).

Definition inspect (mint : Mint) (clock : ChainClock) : res InspectedMintProfile :=
  inspectMintProfile (ExtensionType env) (getExtensionTypes env) (getExtensionData env) (sha256 env) mint clock.

Definition decodeProgramAccount (accountName : string) (data : bytes) : res LRecord :=
  decoded ← native (decode env accountName data);
  normalized ← lossless decoded;
  match normalized with LObject fields => Ok fields | _ => Err IDL_MISMATCH end.

Definition read_account (request : AccountRequest) (info : option AccountInfo) : res DecodedAccount :=
  match info with
  | None => Err RPC_ACCOUNT_MISSING
  | Some info =>
      invariant (owned_by (default (DIVIDENDX_PROGRAM_ID env) (q_owner request)) info) RPC_ACCOUNT_OWNER ;;
      value ← decodeProgramAccount (q_accountName request) (i_data info);
      Ok (Decoded (q_address request) (q_accountName request) value)
  end.

(** [response.value.map((info, index) => ...)]: a response longer than the
    requests makes [requests[index]!] undefined. *)
Fixpoint read_accounts (requests : list AccountRequest) (infos : list (option AccountInfo)) : res (list DecodedAccount) :=
  match infos, requests with
  | [], _ => Ok []
  | info :: infos', request :: requests' =>
      account ← read_account request info;
      rest ← read_accounts requests' infos';
      Ok (account :: rest)
  | _ :: _, [] => Err JS_ERROR
  end.

Definition fetchProgramAccountsCoherently (requests : list AccountRequest) : res CoherentAccountSnapshot :=
  response ← getMultipleAccountsInfoAndContext env (q_address <$> requests);
  accounts ← read_accounts requests (r_value response);
  Ok (AccountSnapshot (r_slot response) accounts).

Definition fetchClock : res ChainClock :=
  '(slot, value) ← getAccountInfoAndContext env (SYSVAR_CLOCK_PUBKEY env);
  match value with None => Err RPC_ACCOUNT_MISSING | Some info => decodeClockAccount info slot end.

(** [invariant(info !== null, ...)] on a destructured element: an element past
    the end of the response is undefined, whose use is a [TypeError]. *)
Definition not_null (l : list (option AccountInfo)) (index : nat) (code : DividendXSdkErrorCode) : res AccountInfo :=
  match l !! index with Some (Some info) => Ok info | Some None => Err code | None => Err JS_ERROR end.

Definition read_token_account (address : PublicKey) (info : option AccountInfo) : res TokenAccount :=
  match info with
  | None => Err RPC_ACCOUNT_MISSING
  | Some info =>
      invariant (owned_by (TOKEN_2022_PROGRAM_ID env) info) RPC_ACCOUNT_OWNER ;;
      native (unpackAccount env address info (TOKEN_2022_PROGRAM_ID env))
  end.
Fixpoint read_token_accounts (addresses : list PublicKey) (infos : list (option AccountInfo)) : res (list TokenAccount) :=
  match infos, addresses with
  | [], _ => Ok []
  | info :: infos', address :: addresses' =>
      account ← read_token_account address info;
      rest ← read_token_accounts addresses' infos';
      Ok (account :: rest)
  | _ :: _, [] => Err JS_ERROR
  end.

Definition fetchToken2022Snapshot (mintAddress : PublicKey) (tokenAccountAddresses : list PublicKey)
    : res Token2022Snapshot :=
  response ← getMultipleAccountsInfoAndContext env
               (SYSVAR_CLOCK_PUBKEY env :: mintAddress :: tokenAccountAddresses);
  let infos := r_value response in
  clockInfo ← not_null infos 0 RPC_ACCOUNT_MISSING;
  mintInfo ← not_null infos 1 RPC_ACCOUNT_MISSING;
  invariant (owned_by (TOKEN_2022_PROGRAM_ID env) mintInfo) RPC_ACCOUNT_OWNER ;;
  clock ← decodeClockAccount clockInfo (r_slot response);
  mint ← native (unpackMint env mintAddress mintInfo (TOKEN_2022_PROGRAM_ID env));
  profile ← inspect mint clock;
  accounts ← read_token_accounts tokenAccountAddresses (drop 2 infos);
  Ok (TokenSnapshot (r_slot response) clock mint accounts (f_scale profile)).

(** *** The snapshot a quote is computed from *)

(** [optionalInfos[optionalIndex++]] of an address that was requested. *)
Definition unpackOptional (optionalInfos : list (option AccountInfo)) (optionalIndex : nat)
    (address : option PublicKey) (programId : PublicKey) : res (option TokenAccount * nat) :=
  match address with
  | None => Ok (None, optionalIndex)
  | Some address =>
      info ← not_null optionalInfos optionalIndex RPC_ACCOUNT_OWNER;
      invariant (owned_by programId info) RPC_ACCOUNT_OWNER ;;
      account ← native (unpackAccount env address info programId);
      Ok (Some account, S optionalIndex)
  end.

(** The checks of the loop over the holder's accounts. *)
Definition check_holder_account (holder : option PublicKey) (account : option TokenAccount) : res unit :=
  match account with
  | None => Ok tt
  | Some account =>
      invariant (t_isInitialized account && negb (t_isFrozen account)) INVALID_SERIES ;;
      match holder with
      | Some holder => invariant (key_equals (t_owner account) holder) INVALID_SERIES
      | None => Ok tt
      end
  end.
Definition check_holder_mint (account : option TokenAccount) (mint : PublicKey) : res unit :=
  match account with
  | None => Ok tt
  | Some account => invariant (key_equals (t_mint account) mint) INVALID_SERIES
  end.

(** [clockInfo && policyInfo && ...]: null and undefined are both falsy. *)
Definition required_info (l : list (option AccountInfo)) (index : nat) : res AccountInfo :=
  match l !! index with Some (Some info) => Ok info | _ => Err RPC_ACCOUNT_MISSING end.

(** The guards that tie the accounts of one response to each other. *)
Definition check_coherent (addresses : QuoteSnapshotAddresses) (policy : AssetPolicySnapshot)
    (series : SeriesSnapshot) (accumulator : AccumulatorSnapshot) (vault : TokenAccount) : res unit :=
  invariant (key_equals (p_collateralMint policy) (qa_collateralMint addresses)) INVALID_SERIES ;;
  invariant (key_equals (s_assetPolicy series) (qa_assetPolicy addresses)) INVALID_SERIES ;;
  invariant (key_equals (s_collateralMint series) (qa_collateralMint addresses)) INVALID_SERIES ;;
  invariant (key_equals (s_vault series) (qa_vault addresses)) INVALID_SERIES ;;
  invariant (key_equals (a_series accumulator) (qa_series addresses)) INVALID_SERIES ;;
  invariant (key_equals (t_mint vault) (qa_collateralMint addresses)
             && key_equals (t_owner vault) (qa_series addresses)) INVALID_SERIES ;;
  invariant (bool_decide (t_delegate vault = None) && bool_decide (t_closeAuthority vault = None)) INVALID_SERIES ;;
  invariant (t_isInitialized vault && negb (t_isFrozen vault)) INVALID_SERIES.

Definition optional_addresses (addresses : QuoteSnapshotAddresses) : list PublicKey :=
  omap id [qa_holderCollateral addresses; qa_holderPt addresses; qa_holderDr addresses].
Definition quote_requests (addresses : QuoteSnapshotAddresses) : list PublicKey :=
  [SYSVAR_CLOCK_PUBKEY env; qa_assetPolicy addresses; qa_series addresses; qa_accumulator addresses;
   qa_collateralMint addresses; qa_vault addresses] ++ optional_addresses addresses.

Definition fetchQuoteSnapshot (addresses : QuoteSnapshotAddresses) (programId : PublicKey)
    : res CoherentQuoteSnapshot :=
  idl ← native (idl_address env);
  invariant (key_equals idl programId) IDL_MISMATCH ;;
  invariant (bool_decide (optional_addresses addresses = []) || bool_decide (qa_holder addresses <> None))
    INVALID_SERIES ;;
  response ← getMultipleAccountsInfoAndContext env (quote_requests addresses);
  let infos := r_value response in
  clockInfo ← required_info infos 0;
  policyInfo ← required_info infos 1;
  seriesInfo ← required_info infos 2;
  accumulatorInfo ← required_info infos 3;
  mintInfo ← required_info infos 4;
  vaultInfo ← required_info infos 5;
  invariant (owned_by programId policyInfo && owned_by programId seriesInfo && owned_by programId accumulatorInfo)
    RPC_ACCOUNT_OWNER ;;
  invariant (owned_by (TOKEN_2022_PROGRAM_ID env) mintInfo && owned_by (TOKEN_2022_PROGRAM_ID env) vaultInfo)
    RPC_ACCOUNT_OWNER ;;
  clock ← decodeClockAccount clockInfo (r_slot response);
  rawPolicy ← decodeProgramAccount "assetPolicy" (i_data policyInfo);
  policy0 ← normalizeAssetPolicyAccount (qa_assetPolicy addresses) rawPolicy false;
  rawSeries ← decodeProgramAccount "series" (i_data seriesInfo);
  series ← normalizeSeriesAccount (qa_series addresses) rawSeries;
  rawAccumulator ← decodeProgramAccount "accumulator" (i_data accumulatorInfo);
  accumulator ← normalizeAccumulatorAccount (qa_accumulator addresses) rawAccumulator;
  mint ← native (unpackMint env (qa_collateralMint addresses) mintInfo (TOKEN_2022_PROGRAM_ID env));
  mintProfile ← inspect mint clock;
  let policy := with_matches (mintProfileMatchesPolicy policy0 mintProfile) policy0 in
  vault ← native (unpackAccount env (qa_vault addresses) vaultInfo (TOKEN_2022_PROGRAM_ID env));
  check_coherent addresses policy series accumulator vault ;;
  let optionalInfos := drop 6 infos in
  '(holderCollateral, i1) ← unpackOptional optionalInfos 0 (qa_holderCollateral addresses) (TOKEN_2022_PROGRAM_ID env);
  '(holderPt, i2) ← unpackOptional optionalInfos i1 (qa_holderPt addresses) (TOKEN_PROGRAM_ID env);
  '(holderDr, _) ← unpackOptional optionalInfos i2 (qa_holderDr addresses) (TOKEN_PROGRAM_ID env);
  foldM (fun _ account => check_holder_account (qa_holder addresses) account) tt
    [holderCollateral; holderPt; holderDr] ;;
  check_holder_mint holderCollateral (qa_collateralMint addresses) ;;
  check_holder_mint holderPt (s_ptMint series) ;;
  check_holder_mint holderDr (s_drMint series) ;;
  Ok (QuoteSnapshot (r_slot response) clock policy series accumulator mintProfile (t_amount vault)
        (t_amount <$> holderCollateral) (t_amount <$> holderPt) (t_amount <$> holderDr)).
End fetch.
