(* ===== verification/TxAccountProps.v ===== *)
(** * Transaction SDK: the theorems on reading accounts *)
From S2P Require Import Prelude Js TxBytes TxArith TxQuotes TxProps TxAccounts.
Open Scope Z_scope.

(** ** The account of a series, as the program writes it *)

Definition phase_variant (p : SeriesLifecyclePhase) : string :=
  match p with open => "open" | sealing => "sealing" | finalized => "finalized" end.

Definition series_fields (s : SeriesSnapshot) : LRecord :=
  [("assetPolicy", LKey (s_assetPolicy s)); ("collateralMint", LKey (s_collateralMint s));
   ("ptMint", LKey (s_ptMint s)); ("drMint", LKey (s_drMint s)); ("vault", LKey (s_vault s));
   ("year", LNumber (year s)); ("stateVersion", LBigInt (stateVersion s));
   ("startTimestamp", LBigInt (startUnixTimestamp s)); ("maturityTimestamp", LBigInt (maturityUnixTimestamp s));
   ("phase", LObject [(phase_variant (phase s), LObject [])]); ("nominalBacking", LBigInt (accountableRaw s));
   ("eventCount", LNumber (eventCount s)); ("unresolvedCount", LNumber (unresolvedCount s));
   ("inYearQualifiedCount", LNumber (inYearQualifiedCount s)); ("journalVersion", LBigInt (journalVersion s));
   ("journalHash", LArray (LNumber <$> journalHash s));
   ("sealedCoverageDigest", LArray (LNumber <$> sealedCoverageDigest s));
   ("sealedEventCount", LNumber (sealedEventCount s)); ("finalSupply", LBigInt (finalSupplyRaw s));
   ("ptPool", LBigInt (finalPtPoolRaw s)); ("drPool", LBigInt (finalDrPoolRaw s));
   ("ptRedeemedNominal", LBigInt (redeemedPtClaimsRaw s)); ("drRedeemedNominal", LBigInt (redeemedDrClaimsRaw s));
   ("ptPaid", LBigInt (ptPaidRaw s)); ("drPaid", LBigInt (drPaidRaw s))].

(** The values a series account can hold. *)
Definition digest_ok (d : bytes) : Prop := Forall byte_ok d /\ byte_length d = 32.
Definition series_ok (s : SeriesSnapshot) : Prop :=
  Forall (fun n => isSafeInteger n = true)
    [year s; eventCount s; unresolvedCount s; inYearQualifiedCount s; sealedEventCount s] /\
  digest_ok (journalHash s) /\ digest_ok (sealedCoverageDigest s).

Section reading.
Implicit Types (r : LRecord) (name : string).

Lemma bigintField_run r name n : om_get r name = Some (LBigInt n) -> bigintField r name = Ok n.
Proof. unfold bigintField, field. by intros ->. Qed.
Lemma publicKeyField_run r name k : om_get r name = Some (LKey k) -> publicKeyField r name = Ok k.
Proof. unfold publicKeyField, field. by intros ->. Qed.
Lemma numberField_run r name n :
  om_get r name = Some (LNumber n) -> isSafeInteger n = true -> numberField r name = Ok n.
Proof. unfold numberField, field, invariant. intros -> H. cbn. by rewrite H. Qed.

Lemma all_numbers_fmap l : all_numbers (LNumber <$> l) = Some l.
Proof. induction l as [|n l IH]; csimpl; [done|by rewrite IH]. Qed.
Lemma Uint8Array_from_bytes l : Forall byte_ok l -> Uint8Array_from l = l.
Proof.
  unfold Uint8Array_from. induction 1 as [|b l Hb Hl IH]; csimpl; [done|].
  unfold byte_ok in Hb. by rewrite IH, Z.mod_small by lia.
Qed.
Lemma bytesField_run r name d :
  om_get r name = Some (LArray (LNumber <$> d)) -> digest_ok d -> bytesField r name 32 = Ok d.
Proof.
  unfold bytesField, field, invariant. intros -> [Hb Hl]. rewrite bind_Ok.
  cbv beta iota. rewrite all_numbers_fmap, Uint8Array_from_bytes by done. by rewrite Hl.
Qed.
Lemma phaseField_run r p :
  om_get r "phase" = Some (LObject [(phase_variant p, LObject [])]) -> phaseField r = Ok p.
Proof. unfold phaseField, field. intros ->. by destruct p. Qed.
End reading.

(** A series account is read without loss: from the fields the program
    writes, every field of the snapshot is recovered exactly, including the
    phase variant and the 32-byte digests given as arrays of numbers. *)
Theorem series_account_roundtrip s :
  series_ok s -> normalizeSeriesAccount (s_address s) (series_fields s) = Ok s.
Proof.
  intros (Hs & Hj & Hc). rewrite !Forall_cons in Hs. destruct Hs as (Hy & He & Hu & Hi & Hn & _).
  unfold normalizeSeriesAccount.
  repeat (eapply bind_Ok_intro; [first
    [ apply bigintField_run; reflexivity | apply publicKeyField_run; reflexivity
    | apply numberField_run; [reflexivity|done] | apply bytesField_run; [reflexivity|done]
    | apply phaseField_run; reflexivity ]|]).
  by destruct s.
Qed.

(** ** Collateral mints *)

Lemma sort_insert_perm x l : Permutation (sort_insert x l) (x :: l).
Proof.
  induction l as [|y l IH]; simpl; [done|]. case_match; [done|]. rewrite IH. constructor.
Qed.
Lemma sort_numbers_perm l : Permutation (sort_numbers l) l.
Proof. induction l as [|x l IH]; simpl; [done|]. by rewrite sort_insert_perm, IH. Qed.
Lemma distinct_NoDup l : distinct l = true -> NoDup l.
Proof.
  induction l as [|x l IH]; simpl; [constructor|]. intros [Hx Hl]%andb_prop. constructor; [|auto].
  intros Hin. apply negb_true_iff in Hx. apply Bool.not_true_iff_false in Hx. apply Hx.
  apply existsb_exists. exists x. rewrite Z.eqb_refl. by rewrite <- list_elem_of_In.
Qed.

Lemma set_bit_spec mask type t :
  0 <= type ->
  Z.testbit (Z.lor mask (Z.shiftl 1 type)) t = true <-> Z.testbit mask t = true \/ t = type.
Proof.
  intros Ht. rewrite Z.lor_spec, orb_true_iff. f_equiv.
  destruct (Z.lt_ge_cases t 0) as [Hneg|Hpos].
  - rewrite Z.testbit_neg_r by done. split; [done|lia].
  - rewrite Z.shiftl_mul_pow2, Z.mul_1_l, Z.pow2_bits_eqb by lia. rewrite Z.eqb_eq. split; lia.
Qed.

(** What an extension's data must say for the mint to be usable. *)
Definition extension_safe (name : ExtensionName) (data : bytes) : Prop :=
  match name with
  | DefaultAccountState => data = [1]
  | TransferHook => drop 32 data = repeat 0 32
  | PausableConfig => last data = Some 0
  | _ => True
  end.

Lemma all_zero l : forallb (fun b => b =? 0) l = true -> l = repeat 0 (length l).
Proof.
  induction l as [|b l IH]; [done|]. cbn. intros [->%Z.eqb_eq Hz]%andb_prop. f_equal. by apply IH.
Qed.

Lemma extension_allowed_safe name data u : extension_allowed name data = Ok u -> extension_safe name data.
Proof.
  unfold extension_allowed, invariant, byte_length. destruct name; intros H; try done; minv H; breflect; unfold extension_safe.
  - destruct data as [|x [|y data]]; simpl in *; try lia. congruence.
  - rewrite (all_zero (drop 32 data)) by done. f_equal. rewrite length_drop. lia.
  - rewrite last_lookup. replace (length data) with 33%nat by lia. done.
Qed.

Section mint.
Context (env : platform) (mint : Mint) (clock : ChainClock).
Abbreviation data_of := (fun type => getExtensionData env type (m_tlvData mint)).

Definition extension_reviewed (type : Z) : Prop :=
  exists name data, ExtensionType env name = type /\ data_of type = Some data /\ extension_safe name data.

Definition inspected (types : list Z) (st : inspection) : Prop :=
  (forall t, Z.testbit (n_mask st) t = true <-> t ∈ types) /\ Forall extension_reviewed types /\
  (forall scale, n_scale st = Some scale ->
    exists data, data_of (ExtensionType env ScaledUiAmountConfig) = Some data /\
      read_scale data clock = Ok (scale, n_supported st)).

Lemma inspect_extension_inspected types st type st' :
  inspected types st ->
  inspect_extension (ExtensionType env) (getExtensionData env) mint clock st type = Ok st' ->
  inspected (types ++ [type]) st'.
Proof.
  intros (Hm & Hr & Hs) H. unfold inspect_extension, invariant in H. minv H. breflect.
  destruct (extension_of (ExtensionType env) type) as [name|] eqn:He; [|done].
  match goal with H : (match name with _ => _ end ≫= _) = Ok _ |- _ => apply bind_Ok_inv in H as (st1 & Hcase & Hrest) end.
  apply bind_Ok_inv in Hrest as (u & Hsafe%extension_allowed_safe & <-%Ok_inj).
  match goal with H : extensionData _ _ _ = Ok ?d |- _ => rename d into data; rename H into Hd end.
  unfold extensionData in Hd. destruct (data_of type) as [d|] eqn:Hdata; [|done]. apply Ok_inj in Hd as ->.
  assert (0 <= type) as Htype by (unfold u16Le, invariant in *; match goal with H : _ = Ok a0 |- _ => minv H end; breflect; done).
  apply find_some in He as [_ Hname%Z.eqb_eq].
  assert (n_mask st1 = Z.lor (n_mask st) (Z.shiftl 1 type)) as Hmask.
  { destruct name; try (apply Ok_inj in Hcase as <-; done).
    by apply bind_Ok_inv in Hcase as ([sc b] & _ & <-%Ok_inj). }
  split_and!.
  - intros t. rewrite Hmask, set_bit_spec, elem_of_app, list_elem_of_singleton, Hm by done. done.
  - apply Forall_app. split; [done|]. constructor; [|done]. by exists name, data.
  - intros scale Hscale. destruct name; try (apply Ok_inj in Hcase as <-; by apply Hs).
    apply bind_Ok_inv in Hcase as ([sc b] & Hread & <-%Ok_inj). cbn in Hscale. injection Hscale as ->.
    exists data. by rewrite Hname.
Qed.

Lemma inspect_inspected profile :
  inspect env mint clock = Ok profile ->
  exists st, inspected (getExtensionTypes env (m_tlvData mint)) st /\ NoDup (getExtensionTypes env (m_tlvData mint)) /\
    n_mask st = f_extensionsMask profile /\ n_scale st = Some (f_scale profile) /\
    n_supported st = accountingFactorsSupported profile /\ f_decimals profile = m_decimals mint /\
    m_isInitialized mint = true /\ In (m_decimals mint) [6; 8; 9].
Proof.
  intros H. unfold inspect, inspectMintProfile, invariant in H. minv H.
  match goal with H : foldM _ _ _ = Ok ?s |- _ => rename s into st; rename H into Hfold end.
  destruct (n_scale st) as [scale|] eqn:Hscale; [|done]. found @Ok_inj as <-. exists st.
  pose proof (sort_numbers_perm (getExtensionTypes env (m_tlvData mint))) as Hp. split_and!; try done.
  - apply (foldM_inv _ inspected) in Hfold as (Hm & Hr & Hs).
    + split_and!; [|by rewrite <- Hp|done]. intros t. by rewrite Hm, Hp.
    + split_and!; [|done|done]. intros t. rewrite Z.bits_0. split; [done|]. intros []%not_elem_of_nil.
    + intros l1 s1 b s2. apply inspect_extension_inspected.
  - rewrite <- Hp. by apply distinct_NoDup.
  - match goal with H : existsb _ _ = true |- _ => apply existsb_exists in H as (d & Hin & ->%Z.eqb_eq) end. done.
Qed.
End mint.

(** A mint that is inspected successfully is initialized, has a supported
    scale and extensions that are reviewed kinds, each present once; its bit
    [t] of the mask is set exactly when extension [t] is present; default
    accounts are initialized, no transfer hook is set and the mint is not
    paused; and the profile reports the multipliers stored in the mint, the
    one in force at the clock, and whether both can be accounted with. *)
Theorem inspected_mint_safe env mint clock profile :
  inspect env mint clock = Ok profile ->
  let types := getExtensionTypes env (m_tlvData mint) in
  m_isInitialized mint = true /\ f_decimals profile = m_decimals mint /\ In (m_decimals mint) [6; 8; 9] /\
  NoDup types /\ (forall t, Z.testbit (f_extensionsMask profile) t = true <-> t ∈ types) /\
  Forall (extension_reviewed env mint) types /\
  exists data,
    getExtensionData env (ExtensionType env ScaledUiAmountConfig) (m_tlvData mint) = Some data /\
    read_scale data clock = Ok (f_scale profile, accountingFactorsSupported profile).
Proof.
  intros H. apply inspect_inspected in H as (st & (Hm & Hr & Hs) & Hnd & <- & Hsc & <- & Hd & Hi & Hin).
  split_and!; auto.
Qed.

(** ** The snapshot a quote is computed from *)

Lemma key_equals_eq k l : key_equals k l = true -> k = l.
Proof. apply bytesEqual_spec. Qed.

(** Turns the passed comparisons of public keys into equations. *)
Ltac key_equations :=
  unfold owned_by in *;
  repeat match goal with H : key_equals _ _ = true |- _ => apply key_equals_eq in H end.

Lemma normalizeSeriesAccount_address address v s :
  normalizeSeriesAccount address v = Ok s -> s_address s = address.
Proof. unfold normalizeSeriesAccount. intros H. by minv H. Qed.
Lemma normalizeAssetPolicyAccount_address address v b p :
  normalizeAssetPolicyAccount address v b = Ok p -> p_address p = address.
Proof. unfold normalizeAssetPolicyAccount. intros H. by minv H. Qed.
Lemma normalizeAccumulatorAccount_address address v a :
  normalizeAccumulatorAccount address v = Ok a -> a_address a = address.
Proof. unfold normalizeAccumulatorAccount. intros H. by minv H. Qed.

(** A token account of the response, in a state that can be used. *)
Definition read_from (env : platform) (response : rpc_response) (address program : PublicKey) (account : TokenAccount) : Prop :=
  exists info, In (Some info) (r_value response) /\ i_owner info = program /\
    unpackAccount env address info program = Some account /\
    t_isInitialized account = true /\ t_isFrozen account = false.

(** The amount reported for an optional account of the holder. *)
Definition holder_amount (env : platform) (response : rpc_response) (holder requested : option PublicKey)
    (program mint : PublicKey) (amount : option Z) : Prop :=
  match requested with
  | None => amount = None
  | Some address =>
      exists account, read_from env response address program account /\ Some (t_owner account) = holder /\
        t_mint account = mint /\ amount = Some (t_amount account)
  end.

Lemma not_null_In l i code info : not_null l i code = Ok info -> In (Some info) l.
Proof.
  unfold not_null. destruct (l !! i) as [[x|]|] eqn:E; try done. intros <-%Ok_inj.
  apply list_elem_of_In. by eapply list_elem_of_lookup_2.
Qed.

Lemma holder_amount_intro env response a holder requested program mint account i i' u u' :
  unpackOptional env (drop 6 (r_value response)) i requested program = Ok (account, i') ->
  check_holder_account holder account = Ok u -> check_holder_mint account mint = Ok u' ->
  (requested <> None -> holder = Some a) ->
  holder_amount env response holder requested program mint (t_amount <$> account).
Proof.
  unfold unpackOptional, check_holder_account, check_holder_mint, holder_amount, invariant.
  destruct requested as [address|]; [|by intros [= <- _]]. intros H Hc Hm Hh. minv H.
  match goal with H : native ?o = Ok ?x |- _ =>
    unfold native in H; destruct o as [acc|] eqn:Ho; [|done]; apply Ok_inj in H as -> end.
  rewrite Hh in * by done. minv Hc. minv Hm. breflect. cbn.
  match goal with H : not_null _ _ _ = Ok _ |- _ => apply not_null_In in H as Hin end. key_equations.
  eexists. split; [|split_and!; [by f_equal|done|done]].
  eexists. split_and!; try done. rewrite <- (take_drop 6 (r_value response)). apply in_or_app. by right.
Qed.

(** A fetched snapshot is coherent: everything in it comes from one RPC
    response, the policy, series, accumulator, mint and vault all belong to the
    same series, the vault is controlled by the series alone, the policy's
    match flag was computed from the mint of this very response, and every
    holder balance is that of an account of the holder with the right mint. *)
Theorem quote_snapshot_coherent env a programId q :
  fetchQuoteSnapshot env a programId = Ok q ->
  exists response vault,
    getMultipleAccountsInfoAndContext env (quote_requests env a) = Ok response /\
    qs_contextSlot q = r_slot response /\
    (s_address (qs_series q) = qa_series a /\ s_assetPolicy (qs_series q) = p_address (qs_policy q) /\
     s_collateralMint (qs_series q) = p_collateralMint (qs_policy q) /\
     a_series (qs_accumulator q) = s_address (qs_series q) /\ s_vault (qs_series q) = qa_vault a) /\
    (read_from env response (qa_vault a) (TOKEN_2022_PROGRAM_ID env) vault /\ qs_vaultRaw q = t_amount vault /\
     t_owner vault = s_address (qs_series q) /\ t_mint vault = s_collateralMint (qs_series q) /\
     t_delegate vault = None /\ t_closeAuthority vault = None) /\
    mintProfileMatchesReviewed (qs_policy q) = mintProfileMatchesPolicy (qs_policy q) (qs_mintProfile q) /\
    holder_amount env response (qa_holder a) (qa_holderCollateral a) (TOKEN_2022_PROGRAM_ID env)
      (s_collateralMint (qs_series q)) (qs_holderCollateralRaw q) /\
    holder_amount env response (qa_holder a) (qa_holderPt a) (TOKEN_PROGRAM_ID env)
      (s_ptMint (qs_series q)) (qs_holderPtRaw q) /\
    holder_amount env response (qa_holder a) (qa_holderDr a) (TOKEN_PROGRAM_ID env)
      (s_drMint (qs_series q)) (qs_holderDrRaw q).
Proof.
  intros H. unfold fetchQuoteSnapshot, check_coherent, invariant in H. minv H.
  match goal with H : getMultipleAccountsInfoAndContext _ _ = Ok ?r |- _ => rename r into response end.
  match goal with H : native (unpackAccount _ _ _ _) = Ok ?v |- _ =>
    rename v into vault; unfold native in H; destruct (unpackAccount _ _ _ _) eqn:Hun in H; [|done];
    apply Ok_inj in H as -> end.
  match goal with H : foldM _ _ _ = Ok _ |- _ => cbn [foldM] in H; minv H end.
  repeat match goal with
  | H : normalizeSeriesAccount _ _ = Ok _ |- _ => apply normalizeSeriesAccount_address in H
  | H : normalizeAssetPolicyAccount _ _ _ = Ok _ |- _ => apply normalizeAssetPolicyAccount_address in H
  | H : normalizeAccumulatorAccount _ _ = Ok _ |- _ => apply normalizeAccumulatorAccount_address in H
  end.
  assert (forall x, In x [qa_holderCollateral a; qa_holderPt a; qa_holderDr a] -> x <> None ->
    qa_holder a = Some (default [] (qa_holder a))) as Hholder.
  { match goal with H : _ || _ = true |- _ => apply orb_prop in H as [H|H]; apply bool_decide_eq_true in H;
      rename H into Hopt end.
    - unfold optional_addresses in Hopt. intros [x|] Hin Hx; [|done]. exfalso.
      destruct Hin as [Hin|[Hin|[Hin|[]]]]; rewrite Hin in Hopt; cbn in Hopt;
        repeat match type of Hopt with context [match ?o with _ => _ end] => destruct o end; done.
    - intros _ _ _. by destruct (qa_holder a). }
  breflect. key_equations. exists response, vault. cbn in *.
  assert (s_collateralMint a16 = qa_collateralMint a) as Hm by congruence. split_and!; try done; try congruence.
  all: try (eapply holder_amount_intro; [eassumption|eassumption|rewrite ?Hm; eassumption|intros Hx; eapply Hholder; [|exact Hx]; simpl; by auto]).
  unfold required_info in *. destruct (r_value response !! 5%nat) as [[info|]|] eqn:Hinfo; try done.
  match goal with H : Ok info = Ok _ |- _ => apply Ok_inj in H as <- end.
  exists info. split_and!; try done. apply list_elem_of_In. by eapply list_elem_of_lookup_2.
Qed.

(** ** Witnesses: a platform with one series, its mint, vault and a holder *)

Definition flat_value (v : LosslessAccountValue) : JsValue :=
  match v with
  | LKey k => VKey k
  | LNumber n => VNumber n
  | LBigInt n => VBN n
  | LArray l => VArray ((fun v => match v with LNumber n => VNumber n | _ => VNull end) <$> l)
  | LObject l => VObject ((fun p => (p.1, VObject [])) <$> l)
  | _ => VNull
  end.

Definition ex_policy_value : JsValue :=
  VObject [("collateralMint", VKey [3]); ("decimals", VNumber 8); ("extensionsMask", VBN (2 ^ 25 + 2 ^ 26));
    ("admissionEnabled", VBool true); ("observedSlot", VBN 10); ("observationValidUntil", VBN 1800000000);
    ("observationEvidenceDigest", VBytes ex_digest); ("reviewedCurrentMultiplierBits", VBN 4607182418800017408);
    ("reviewedNewMultiplierBits", VBN 4607182418800017408); ("reviewedNewMultiplierEffectiveTimestamp", VBN 0);
    ("reviewedActiveMultiplierBits", VBN 4607182418800017408); ("reviewedControlsFingerprint", VBytes ex_digest)].

Definition ex_decode (name : string) (_ : bytes) : option JsValue :=
  if bool_decide (name = "series") then
    Some (VObject ((fun p => (p.1, flat_value p.2)) <$> series_fields ex_open_series))
  else if bool_decide (name = "assetPolicy") then Some ex_policy_value
  else Some (VObject [("numerator", VArray [VNumber 1]); ("denominator", VArray [VNumber 1]);
                      ("series", VKey [1]); ("cursor", VNumber 0)]).

Definition ex_mint : Mint := MkMint [3] 8 true (Some [9]) None [].
Definition ex_clock_data : bytes := le_bytes 8 20 ++ repeat 0 24 ++ le_bytes 8 1767225599.
Definition ex_token_account (address : PublicKey) : TokenAccount :=
  if bool_decide (address = [6]) then MkAccount [3] [1] 600 None None true false
  else MkAccount [4] [8] 250 None None true false.

Definition ex_env : platform :=
  Platform
    (fun _ => Ok (Response 20 [Some (Info [0] ex_clock_data); Some (Info [50] []); Some (Info [50] []);
       Some (Info [50] []); Some (Info [22] []); Some (Info [22] []); Some (Info [11] [])]))
    (fun _ => Ok (20, Some (Info [0] ex_clock_data))) ex_decode (Some [50])
    (fun _ _ _ => Some ex_mint) (fun address _ _ => Some (ex_token_account address))
    (fun e => match e with
       | MintCloseAuthority => 3 | ConfidentialTransferMint => 4 | DefaultAccountState => 6 | PermanentDelegate => 12
       | TransferHook => 14 | MetadataPointer => 18 | TokenMetadata => 19 | ScaledUiAmountConfig => 25
       | PausableConfig => 26 end)
    (fun _ => [26; 25])
    (fun t _ => if t =? 25 then Some (repeat 0 32 ++ le_bytes 8 4607182418800017408 ++ repeat 0 8 ++ le_bytes 8 4607182418800017408)
                else Some (repeat 0 33))
    (fun _ => ex_digest) [11] [22] [0] [50].

Definition ex_addresses : QuoteSnapshotAddresses :=
  Addresses [2] [1] [7] [3] [6] (Some [8]) None (Some [40]) None.

Example series_account_witness : normalizeSeriesAccount [1] (series_fields ex_series) = Ok ex_series.
Proof.
  apply (series_account_roundtrip ex_series). split; [repeat constructor|].
  split; (split; [repeat constructor; vm_compute; congruence|reflexivity]).
Defined.

Example inspected_mint_witness :
  exists profile, inspect ex_env ex_mint (Clock 20 0 0 0 1767225599 20) = Ok profile /\
    f_extensionsMask profile = 2 ^ 25 + 2 ^ 26 /\ NoDup [26; 25].
Proof.
  eexists. split; [vm_compute; reflexivity|]. split; [reflexivity|].
  apply (inspected_mint_safe ex_env ex_mint (Clock 20 0 0 0 1767225599 20) _ ltac:(vm_compute; reflexivity)).
Defined.

Example quote_snapshot_witness :
  exists q response, fetchQuoteSnapshot ex_env ex_addresses [50] = Ok q /\ qs_holderPtRaw q = Some 250 /\
    mintProfileMatchesReviewed (qs_policy q) = true /\ qs_contextSlot q = r_slot response.
Proof.
  eexists. assert (fetchQuoteSnapshot ex_env ex_addresses [50] = Ok _) as H by (vm_compute; reflexivity).
  destruct (quote_snapshot_coherent _ _ _ _ H) as (response & _ & _ & Hslot & _).
  exists response. split; [exact H|]. split; [reflexivity|]. split; [reflexivity|]. exact Hslot.
Defined.
