(* ===== verification/TxIdentity.v ===== *)
(** * Transaction SDK: identities and addresses

    [packages/transaction-sdk/src/identity.ts], [discovery.ts] and [pdas.ts]:
    the preimages of the issuer, event and term identifiers, the seeds of the
    program's derived addresses and the names of the claim tokens.

    Parameters: Unicode normalisation (NFC), SHA-256, and the address
    derivations of the Solana libraries. *)
From S2P Require Import Prelude Js Utf8 TxBytes TxArith TxQuotes.
Open Scope Z_scope.

Section identity.
Context (nfc : js_string -> js_string) (sha256 : bytes -> bytes).

(** ** [identity.ts] *)

Definition IDENTITY_PREFIX : bytes := encode (text "dividendx:identity:v1").

Definition canonicalComponent (value : js_string) : res bytes :=
  invariant (negb (js_eq value [])) INVALID_IDENTITY ;;
  invariant (js_eq value (nfc value)) INVALID_IDENTITY ;;
  let l := encode value in
  invariant (byte_length l <=? 1024) INVALID_IDENTITY ;;
  len ← u32Le (byte_length l);
  Ok (concatBytes [len; l]).

Inductive IdentityKind := issuer_identity | event_identity.
Definition kind_text (k : IdentityKind) : js_string :=
  match k with issuer_identity => text "issuer" | event_identity => text "event" end.

Definition identity_preimage (kind : IdentityKind) (clusterDomain sourceIdentifier : js_string) : res bytes :=
  k ← canonicalComponent (kind_text kind);
  c ← canonicalComponent clusterDomain;
  s ← canonicalComponent sourceIdentifier;
  Ok (concatBytes [IDENTITY_PREFIX; k; c; s]).

Definition identityHash (kind : IdentityKind) (clusterDomain sourceIdentifier : js_string) : res bytes :=
  preimage ← identity_preimage kind clusterDomain sourceIdentifier;
  checkedDigest (sha256 preimage) false.
Definition issuerIdentityHash (clusterDomain sourceIssuerId : js_string) : res bytes :=
  identityHash issuer_identity clusterDomain sourceIssuerId.
Definition eventIdentityHash (clusterDomain sourceEventId : js_string) : res bytes :=
  identityHash event_identity clusterDomain sourceEventId.

(** ** [discovery.ts] *)

Record TermDiscoveryIdentity := TermDiscovery {
  clusterGenesisHash : js_string; td_programId : PublicKey; td_deploymentDomain : bytes;
  td_issuerId : bytes; td_collateralMint : PublicKey; td_year : Z;
}.

Definition stringBytes (value : js_string) : res bytes :=
  let l := encode value in
  len ← u32Le (byte_length l);
  Ok (concatBytes [len; l]).

Definition term_preimage (i : TermDiscoveryIdentity) : res bytes :=
  invariant (0 <? byte_length (clusterGenesisHash i)) INVALID_IDENTITY ;;
  invariant ((2020 <=? td_year i) && (td_year i <=? 2100)) INVALID_IDENTITY ;;
  genesis ← stringBytes (clusterGenesisHash i);
  domain ← checkedDigest (td_deploymentDomain i) false;
  issuerId ← checkedDigest (td_issuerId i) false;
  y ← u16Le (td_year i);
  Ok (concatBytes [encode (text "dividendx:term:v1"); genesis; td_programId i; domain; issuerId;
                   td_collateralMint i; y]).

Definition termDiscoveryId (i : TermDiscoveryIdentity) : res string :=
  preimage ← term_preimage i;
  Ok (hex (sha256 preimage)).
End identity.

(** ** [pdas.ts] *)

(** The derived addresses of the program, by what they are derived from. *)
Inductive pda :=
  | ConfigPda
  | AssetPolicyPda (issuerId : bytes) (collateralMint : PublicKey)
  | SeriesPda (assetPolicy : PublicKey) (year : Z)
  | PtMintPda (series : PublicKey)
  | DrMintPda (series : PublicKey)
  | EventHeadPda (series : PublicKey) (eventId : bytes)
  | EventRevisionPda (eventHead : PublicKey) (revision : Z)
  | AccumulatorPda (series : PublicKey).

Definition pda_seeds (p : pda) : res (list bytes) :=
  match p with
  | ConfigPda => Ok [ascii_bytes "config"]
  | AssetPolicyPda issuerId collateralMint =>
      i ← checkedDigest issuerId false; Ok [ascii_bytes "asset"; i; collateralMint]
  | SeriesPda assetPolicy year => y ← u16Le year; Ok [ascii_bytes "series"; assetPolicy; y]
  | PtMintPda series => Ok [ascii_bytes "pt"; series]
  | DrMintPda series => Ok [ascii_bytes "dr"; series]
  | EventHeadPda series eventId => e ← checkedDigest eventId false; Ok [ascii_bytes "event"; series; e]
  | EventRevisionPda eventHead revision => r ← u64Le revision; Ok [ascii_bytes "revision"; eventHead; r]
  | AccumulatorPda series => Ok [ascii_bytes "accumulator"; series]
  end.

Record DerivedAddress := Derived { da_address : PublicKey; bump : Z }.
Record AnnualSeriesAddresses := AnnualAddresses {
  aa_config : PublicKey; aa_assetPolicy : PublicKey; aa_series : PublicKey; aa_accumulator : PublicKey;
  aa_ptMint : PublicKey; aa_drMint : PublicKey; aa_vault : PublicKey;
}.

Section addresses.
Context (findProgramAddressSync : list bytes -> PublicKey -> res (PublicKey * Z)).
Context (getAssociatedTokenAddressSync : PublicKey -> PublicKey -> bool -> PublicKey -> res PublicKey).
Context (TOKEN_2022_PROGRAM_ID BPF_LOADER_UPGRADEABLE_PROGRAM_ID : PublicKey).

Definition derive (seeds : list bytes) (programId : PublicKey) : res DerivedAddress :=
  '(address, bump) ← findProgramAddressSync seeds programId;
  Ok (Derived address bump).
(** Every exported [...Pda] function. *)
Definition derivePda (p : pda) (programId : PublicKey) : res DerivedAddress :=
  seeds ← pda_seeds p; derive seeds programId.

Definition programDataAddress (programId : PublicKey) : res PublicKey :=
  '(address, _) ← findProgramAddressSync [programId] BPF_LOADER_UPGRADEABLE_PROGRAM_ID; Ok address.
Definition vaultAddress (series collateralMint : PublicKey) : res PublicKey :=
  getAssociatedTokenAddressSync collateralMint series true TOKEN_2022_PROGRAM_ID.

Definition annualSeriesAddresses (issuerId : bytes) (collateralMint : PublicKey) (year : Z) (programId : PublicKey)
    : res AnnualSeriesAddresses :=
  assetPolicy ← derivePda (AssetPolicyPda issuerId collateralMint) programId;
  series ← derivePda (SeriesPda (da_address assetPolicy) year) programId;
  config ← derivePda ConfigPda programId;
  accumulator ← derivePda (AccumulatorPda (da_address series)) programId;
  ptMint ← derivePda (PtMintPda (da_address series)) programId;
  drMint ← derivePda (DrMintPda (da_address series)) programId;
  vault ← vaultAddress (da_address series) collateralMint;
  Ok (AnnualAddresses (da_address config) (da_address assetPolicy) (da_address series) (da_address accumulator)
        (da_address ptMint) (da_address drMint) vault).
End addresses.

Record ClaimNames := Names { name_pt : js_string; name_dr : js_string }.

Definition deriveClaimNames (symbol : js_string) (year : Z) : res ClaimNames :=
  let encoded := encode symbol in
  if (byte_length symbol =? 0) || (16 <? byte_length encoded) || (year <? 2020) || (2100 <? year)
  then Err JS_RANGE_ERROR
  else
    let digits := ascii_Z <$> toString year in
    Ok (Names (text "PT-" ++ symbol ++ text "-" ++ digits) (text "DR-" ++ symbol ++ text "-" ++ digits)).

(** ** Laws *)

Lemma le_bytes_inj n u v :
  0 <= u < 256 ^ Z.of_nat n -> 0 <= v < 256 ^ Z.of_nat n -> le_bytes n u = le_bytes n v -> u = v.
Proof.
  intros Hu Hv H. apply (f_equal bytesToBigIntLe) in H. rewrite !le_bytes_value in H.
  by rewrite !Z.mod_small in H by done.
Qed.

Lemma checkedDigest_Ok d z r : checkedDigest d z = Ok r -> r = d /\ length d = 32%nat.
Proof. unfold checkedDigest, invariant, byte_length. intros H. minv H. breflect. split; [done|lia]. Qed.
Lemma u16Le_Ok v l : u16Le v = Ok l -> l = le_bytes 2 v /\ 0 <= v < 256 ^ 2.
Proof. unfold u16Le, invariant. intros H. minv H. breflect. split; [done|lia]. Qed.
Lemma u32Le_Ok v l : u32Le v = Ok l -> l = le_bytes 4 v /\ 0 <= v < 256 ^ 4.
Proof. unfold u32Le, invariant. intros H. minv H. breflect. split; [done|lia]. Qed.
Lemma u64Le_Ok v l : u64Le v = Ok l -> l = le_bytes 8 v /\ 0 <= v < 256 ^ 8.
Proof.
  unfold u64Le. intros H. minv H. repeat found assertU64_Ok as (-> & ? & _). unfold MAX_U64 in *. split; [done|lia].
Qed.

(** Two fields of the same length in front of the rest. *)
Lemma app_split_eq (a b x y : bytes) : length a = length b -> a ++ x = b ++ y -> a = b /\ x = y.
Proof. intros Hl H. by apply app_inj_1. Qed.

(** A length prefix makes a variable field unambiguous. *)
Lemma framed_inj (a b x y : bytes) la lb :
  u32Le (byte_length a) = Ok la -> u32Le (byte_length b) = Ok lb ->
  (la ++ a) ++ x = (lb ++ b) ++ y -> a = b /\ x = y.
Proof.
  intros [-> Ha]%u32Le_Ok [-> Hb]%u32Le_Ok. rewrite <- !app_assoc. intros H.
  apply app_split_eq in H as [Hl H]; [|by rewrite !(proj2 (le_bytes_ok _ _))].
  apply le_bytes_inj in Hl; [|done..]. unfold byte_length in Hl.
  apply app_split_eq in H as [-> ->]; [done|lia].
Qed.

Definition text_valid (s : js_string) : Prop := Forall unit_ok s /\ well_formed s = true.

Lemma kind_text_valid k : text_valid (kind_text k).
Proof. destruct k; apply text_ok. Qed.

Section identifiers.
Context (nfc : js_string -> js_string) (sha256 : bytes -> bytes).

Lemma canonicalComponent_inj a b x y la lb :
  text_valid a -> text_valid b ->
  canonicalComponent nfc a = Ok la -> canonicalComponent nfc b = Ok lb -> la ++ x = lb ++ y -> a = b /\ x = y.
Proof.
  intros [Ha Wa] [Hb Wb] HA HB. unfold canonicalComponent in HA, HB. minv HA. minv HB.
  unfold concatBytes. simpl. rewrite !app_nil_r. intros H.
  eapply framed_inj in H as [He ->]; [|done..]. split; [|done]. by apply encode_inj.
Qed.

Lemma identity_preimage_inj k c s k' c' s' p p' :
  text_valid c -> text_valid s -> text_valid c' -> text_valid s' ->
  identity_preimage nfc k c s = Ok p -> identity_preimage nfc k' c' s' = Ok p' -> p = p' ->
  k = k' /\ c = c' /\ s = s'.
Proof.
  intros Hc Hs Hc' Hs' H H'. unfold identity_preimage in H, H'.
  generalize dependent IDENTITY_PREFIX. intros prefix H H'. minv H. minv H'.
  unfold concatBytes. rewrite !concat_cons, !concat_nil. intros E%app_inv_head.
  eapply (canonicalComponent_inj (kind_text k) (kind_text k')) in E as [Ek E]; [|apply kind_text_valid..|done|done].
  eapply (canonicalComponent_inj c c') in E as [Ec E]; [|done..].
  eapply (canonicalComponent_inj s s') in E as [Es _]; [|done..].
  split; [|done]. destruct k, k'; try done; apply text_inj in Ek; done.
Qed.

Lemma term_preimage_inj i j p q :
  text_valid (clusterGenesisHash i) -> text_valid (clusterGenesisHash j) ->
  length (td_programId i) = 32%nat -> length (td_programId j) = 32%nat ->
  length (td_collateralMint i) = 32%nat -> length (td_collateralMint j) = 32%nat ->
  term_preimage i = Ok p -> term_preimage j = Ok q -> p = q -> i = j.
Proof.
  intros [Hi Wi] [Hj Wj] Li Lj Ci Cj H H'. unfold term_preimage, invariant, stringBytes in H, H'.
  generalize dependent (encode (text "dividendx:term:v1")). intros prefix H H'.
  minv H. minv H'. repeat found checkedDigest_Ok as [-> ?]. repeat found u16Le_Ok as [-> ?].
  unfold concatBytes. rewrite !concat_cons, !concat_nil, ?app_nil_r. intros E%app_inv_head.
  eapply framed_inj in E as [Eg E]; [|done..]. apply encode_inj in Eg; [|done..].
  apply app_split_eq in E as [Ep E]; [|congruence]. apply app_split_eq in E as [Ed E]; [|congruence].
  apply app_split_eq in E as [Ei E]; [|congruence]. apply app_split_eq in E as [Em E]; [|congruence].
  apply le_bytes_inj in E; [|done..]. destruct i, j. cbn in *. congruence.
Qed.

(** What a digest identifies: equal digests of different inputs are a
    collision of SHA-256. *)
Definition collision : Prop := exists p q, p <> q /\ sha256 p = sha256 q.
End identifiers.

Lemma hex_inj l k : Forall byte_ok l -> Forall byte_ok k -> hex l = hex k -> l = k.
Proof.
  intros Hl Hk H. unfold hex in H. apply (f_equal chars) in H. rewrite !chars_unchars in H.
  apply (f_equal hex_pairs) in H. rewrite !hex_pairs_hex in H by done. by injection H.
Qed.

Lemma year_digits y : 2020 <= y <= 2100 -> length (toString y) = 4%nat.
Proof.
  intros Hy. assert (forallb (fun n => Nat.eqb (length (toString (Z.of_nat n))) 4) (seq 2020 81) = true) as H
    by (vm_compute; reflexivity).
  rewrite forallb_forall in H. specialize (H (Z.to_nat y)). rewrite Z2Nat.id in H by lia.
  apply Nat.eqb_eq, H, in_seq. lia.
Qed.

(** ** Guarantees *)

(** An issuer or event identity hash identifies its kind, cluster and
    source identifier: two different identities with the same hash would be a
    collision of SHA-256, because the framing of the preimage is unambiguous. *)
Theorem identity_hash_binds nfc sha256 k c s k' c' s' h :
  text_valid c -> text_valid s -> text_valid c' -> text_valid s' ->
  identityHash nfc sha256 k c s = Ok h -> identityHash nfc sha256 k' c' s' = Ok h ->
  (k = k' /\ c = c' /\ s = s') \/ collision sha256.
Proof.
  intros Hc Hs Hc' Hs' H H'. unfold identityHash in H, H'. minv H. minv H'. repeat found checkedDigest_Ok as [? ?].
  match goal with H : identity_preimage _ _ _ _ = Ok ?x, H' : identity_preimage _ _ _ _ = Ok ?y |- _ =>
    destruct (decide (x = y)) as [E|E]; [left; by eapply identity_preimage_inj|right; exists x, y; split; congruence] end.
Qed.

(** A term identifier identifies the cluster, program, deployment domain,
    issuer, collateral mint and year of a series, up to a SHA-256 collision. *)
Theorem term_id_binds sha256 i j x :
  (forall p, Forall byte_ok (sha256 p)) ->
  text_valid (clusterGenesisHash i) -> text_valid (clusterGenesisHash j) ->
  length (td_programId i) = 32%nat -> length (td_programId j) = 32%nat ->
  length (td_collateralMint i) = 32%nat -> length (td_collateralMint j) = 32%nat ->
  termDiscoveryId sha256 i = Ok x -> termDiscoveryId sha256 j = Ok x -> i = j \/ collision sha256.
Proof.
  intros Hsha Hi Hj Li Lj Ci Cj H H'. unfold termDiscoveryId in H, H'.
  apply bind_Ok_inv in H as (p & Hp & <-%Ok_inj). apply bind_Ok_inv in H' as (q & Hq & Hx%Ok_inj).
  apply hex_inj in Hx; [|done..].
  destruct (decide (p = q)) as [E|E]; [left; by eapply term_preimage_inj|right; by exists q, p].
Qed.

(** The public keys an address is derived from have 32 bytes. *)
Definition pda_ok (p : pda) : Prop :=
  match p with
  | ConfigPda => True
  | AssetPolicyPda _ k | SeriesPda k _ | PtMintPda k | DrMintPda k | EventHeadPda k _ | EventRevisionPda k _
  | AccumulatorPda k => length k = 32%nat
  end.

(** No two derived addresses of the program share seed bytes: although
    the chain hashes the seeds without separators, their concatenation
    determines the kind of account and everything it is derived from. *)
Theorem pda_seeds_unambiguous p q sp sq :
  pda_ok p -> pda_ok q -> pda_seeds p = Ok sp -> pda_seeds q = Ok sq -> concat sp = concat sq -> p = q.
Proof.
  intros Hp Hq Sp Sq E. destruct p, q; cbn [pda_ok pda_seeds] in *; minv Sp; minv Sq;
    rewrite ?concat_cons, ?concat_nil in E; try (exfalso; vm_compute in E; congruence); [done|..];
    apply app_inv_head in E; rewrite ?app_nil_r in E;
    repeat found checkedDigest_Ok as [-> ?]; repeat found u16Le_Ok as [-> ?]; repeat found u64Le_Ok as [-> ?];
    try (apply app_split_eq in E as [? E]; [|congruence]);
    try (apply le_bytes_inj in E; [|done..]); congruence.
Qed.

(** The names of claim tokens identify series and side: a PT name is never
    a DR name, and equal names come from the same symbol and year. *)
Theorem claim_names_injective symbol year symbol' year' n n' :
  deriveClaimNames symbol year = Ok n -> deriveClaimNames symbol' year' = Ok n' ->
  name_pt n <> name_dr n' /\
  (name_pt n = name_pt n' -> symbol = symbol' /\ year = year') /\
  (name_dr n = name_dr n' -> symbol = symbol' /\ year = year').
Proof.
  intros H H'. unfold deriveClaimNames in H, H'.
  destruct (_ || _) eqn:G in H; [done|]. destruct (_ || _) eqn:G' in H'; [done|].
  apply Ok_inj in H as <-. apply Ok_inj in H' as <-. breflect. cbn [name_pt name_dr].
  assert (symbol ++ text "-" ++ (ascii_Z <$> toString year) = symbol' ++ text "-" ++ (ascii_Z <$> toString year') ->
    symbol = symbol' /\ year = year') as Hinj.
  { intros E. rewrite !app_assoc in E. apply app_inj_2 in E as [E Ey];
      [|by rewrite !length_fmap, !year_digits by lia].
    apply app_inj_2 in E as [-> _]; [|done]. split; [done|]. apply ascii_Z_fmap_inj in Ey.
    destruct (toString_spec year) as [<- _]; [lia|]. destruct (toString_spec year') as [<- _]; [lia|]. by rewrite Ey. }
  split; [|split; intros E; apply Hinj; by apply app_inv_head in E].
  intros E. vm_compute in E. congruence.
Qed.

(** ** Witnesses *)

(** A stand-in for the digest: the last 32 bytes of a text. *)
Definition Uint8Array_of (l : list Z) : bytes := (fun n => n mod 256) <$> l.
Lemma Uint8Array_of_ok l : Forall byte_ok (Uint8Array_of l).
Proof. apply Forall_fmap, Forall_true. intros x. unfold byte_ok. simpl. pose proof (Z.mod_pos_bound x 256). lia. Qed.
Definition ex_sha (p : bytes) : bytes := take 32 (reverse (Uint8Array_of p) ++ repeat 1 32).

Example identity_witness :
  exists h, identityHash id ex_sha event_identity (text "mainnet") (text "AAPL-2026-Q1") = Ok h /\
    ((event_identity = event_identity /\ text "mainnet" = text "mainnet" /\
      text "AAPL-2026-Q1" = text "AAPL-2026-Q1") \/ collision ex_sha).
Proof.
  eexists. split; [vm_compute; reflexivity|].
  eapply (identity_hash_binds id ex_sha); [apply text_ok..| |]; vm_compute; reflexivity.
Defined.

Definition ex_term : TermDiscoveryIdentity :=
  TermDiscovery (text "genesis") (repeat 1 32) (repeat 2 32) (repeat 3 32) (repeat 4 32) 2026.
Example term_id_witness : ex_term = ex_term \/ collision ex_sha.
Proof.
  eapply (term_id_binds ex_sha ex_term ex_term); try reflexivity; try apply text_ok.
  intros p. unfold ex_sha. apply Forall_take, Forall_app. split.
  - apply Forall_reverse, Uint8Array_of_ok.
  - repeat constructor; vm_compute; congruence.
Defined.

Example pda_witness : SeriesPda (repeat 1 32) 2026 = SeriesPda (repeat 1 32) 2026.
Proof.
  eapply (pda_seeds_unambiguous (SeriesPda (repeat 1 32) 2026) (SeriesPda (repeat 1 32) 2026)); reflexivity.
Defined.

Example claim_names_witness :
  exists n, deriveClaimNames (text "AAPLx") 2026 = Ok n /\ name_pt n <> name_dr n.
Proof.
  eexists. split; [vm_compute; reflexivity|].
  apply (claim_names_injective (text "AAPLx") 2026 (text "AAPLx") 2026); vm_compute; reflexivity.
Defined.
