(* ===== verification/TxInstructions.v ===== *)
(** * Transaction SDK: building instructions and transactions

    [packages/transaction-sdk/src/instructions.ts] and [transactions.ts]: the
    validation of the arguments of every instruction of the program, the
    resolution of its accounts from the IDL, compute budgets, and the signing,
    submission and confirmation of a transaction.

    Parameters: the Anchor IDL conversion and instruction coder, the text form
    of public keys, the wallet and the RPC connection. *)
From S2P Require Import Prelude Js Utf8 Calendar TxBytes TxArith TxQuotes TxProps TxAccounts.
Open Scope Z_scope.

Record EventInput := Event {
  v_eventId : bytes; v_revision : Z; v_exDate : Z; v_status : EventStatusName; v_m0Bits : Z; v_m1Bits : Z;
  v_sourceFinal : bool; v_originalEffectiveTimestamp : Z; v_paymentDate : Z; v_observedSlot : Z;
  v_evidenceDigest : bytes;
}.

Record IdlInstructionAccount := IdlAccount {
  ia_name : string; ia_address : option string; ia_optional : bool; ia_signer : bool; ia_writable : bool;
}.
#[warnings="-register-all"]
Inductive IdlInstructionAccountItem :=
  | Single (account : IdlInstructionAccount)
  | Group (accounts : list IdlInstructionAccountItem).
Record IdlInstruction := IdlIx { ix_name : string; ix_accounts : list IdlInstructionAccountItem }.
Record Idl := MkIdl { idl_address_text : string; idl_instructions : list IdlInstruction }.

Abbreviation InstructionAccounts := (list (string * PublicKey)).
Abbreviation Args := (list (string * JsValue)).

Record AccountMeta := Meta { pubkey : PublicKey; isSigner : bool; isWritable : bool }.
Record TransactionInstruction := Instruction { ti_programId : PublicKey; ti_keys : list AccountMeta; ti_data : bytes }.

(** ** Arguments *)

(** [anchorValue]: bigints become big numbers, byte arrays arrays of numbers.
    A big number is itself an object, which would be rebuilt from its fields;
    no caller passes one. *)
Fixpoint anchorValue (value : JsValue) : JsValue :=
  match value with
  | VBigInt n => VBN n
  | VKey k => VKey k
  | VBytes l => VArray (VNumber <$> l)
  | VArray l => VArray (map anchorValue l)
  | VObject fields =>
      VObject ((fix go (l : list (string * JsValue)) : list (string * JsValue) :=
                  match l with [] => [] | (k, x) :: rest => (k, anchorValue x) :: go rest end) fields)
  | VBN _ => VOther
  | _ => value
  end.

Fixpoint flatten_item (item : IdlInstructionAccountItem) : list IdlInstructionAccount :=
  match item with
  | Single account => [account]
  | Group accounts => concat (map flatten_item accounts)
  end.
Definition flattenAccounts (items : list IdlInstructionAccountItem) : list IdlInstructionAccount :=
  concat (map flatten_item items).

(** [requested.replace(/[A-Z]/g, (letter) => `_${letter.toLowerCase()}`)] *)
Definition is_upper (c : ascii) : bool := (65 <=? ascii_Z c) && (ascii_Z c <=? 90).
Definition snake_case (requested : string) : string :=
  unchars (chars requested ≫= fun c =>
    if is_upper c then ["_"%char; ascii_of_N (Z.to_N (ascii_Z c + 32))] else [c]).

Definition find_instruction (idl : Idl) (name : string) : option IdlInstruction :=
  find (fun ix => bool_decide (ix_name ix = name)) (idl_instructions idl).

Definition instructionName (idl : Idl) (requested : string) : res string :=
  match find_instruction idl requested with
  | Some direct => Ok (ix_name direct)
  | None =>
      match find_instruction idl (snake_case requested) with
      | Some matched => Ok (ix_name matched)
      | None => Err IDL_MISMATCH
      end
  end.

Definition validatedGuard (value : Guard) : res Args :=
  assertU64 (expectedStateVersion value) true ;;
  assertI64 (expiryUnixTimestamp value) ;;
  assertU64 (minimumRawOutput value) true ;;
  Ok [("expectedStateVersion", VBigInt (expectedStateVersion value));
      ("expiryUnixTimestamp", VBigInt (expiryUnixTimestamp value));
      ("minimumRawOutput", VBigInt (minimumRawOutput value))].

Definition validCivilDate (date : Z) : bool :=
  if date =? 0 then true
  else
    let year := date / 10000 in
    let month := Z.rem (date / 100) 100 in
    let day := Z.rem date 100 in
    let parsed := Date_UTC year (month - 1) day in
    (2020 <=? year) && (year <=? 2101) && (getUTCFullYear parsed =? year)
    && (getUTCMonth parsed =? month - 1) && (getUTCDate parsed =? day).

Definition validatedEventInput (input : EventInput) : res Args :=
  checkedDigest (v_eventId input) false ;;
  assertU64 (v_revision input) false ;;
  invariant (validCivilDate (v_exDate input)) INVALID_IDENTITY ;;
  assertU64 (v_m0Bits input) true ;;
  assertU64 (v_m1Bits input) true ;;
  (if bool_decide (v_status input = qualified) then
     eventRetentionRatio (v_m0Bits input) (v_m1Bits input) ;; Ok tt
   else invariant ((v_m0Bits input =? 0) && (v_m1Bits input =? 0)) INVALID_F64_BITS) ;;
  assertI64 (v_originalEffectiveTimestamp input) ;;
  invariant (validCivilDate (v_paymentDate input)) INVALID_IDENTITY ;;
  assertU64 (v_observedSlot input) true ;;
  checkedDigest (v_evidenceDigest input) false ;;
  Ok [("eventId", VBytes (v_eventId input)); ("revision", VBigInt (v_revision input));
      ("exDate", VNumber (v_exDate input)); ("status", VNumber (EVENT_STATUS (v_status input)));
      ("m0Bits", VBigInt (v_m0Bits input)); ("m1Bits", VBigInt (v_m1Bits input));
      ("sourceFinal", VBool (v_sourceFinal input));
      ("originalEffectiveTime", VBigInt (v_originalEffectiveTimestamp input));
      ("sourcePaymentDate", VNumber (v_paymentDate input)); ("observedSlot", VBigInt (v_observedSlot input));
      ("evidenceDigest", VBytes (v_evidenceDigest input))].

(** ** The builders *)

Record RawInstructionBuilder := Raw { raw_idl : Idl; raw_programId : PublicKey }.

Section builder.
Context (convertIdlToCamelCase : Idl -> Idl) (PublicKey_of : string -> option PublicKey).
Context (coder_encode : Idl -> string -> JsValue -> option bytes) (PublicKey_default : PublicKey).

Definition raw_builder (idl : Idl) (programId : PublicKey) : res RawInstructionBuilder :=
  let idl := convertIdlToCamelCase idl in
  address ← native (PublicKey_of (idl_address_text idl));
  invariant (key_equals address programId) IDL_MISMATCH ;;
  Ok (Raw idl programId).

(** The address of one account of an instruction. *)
Definition resolve_account (raw : RawInstructionBuilder) (accounts : InstructionAccounts)
    (account : IdlInstructionAccount) : res AccountMeta :=
  address ← match ia_address account with
            | Some text =>
                if bool_decide (text = "") then Ok (om_get accounts (ia_name account))
                else k ← native (PublicKey_of text); Ok (Some k)
            | None => Ok (om_get accounts (ia_name account))
            end;
  invariant (bool_decide (address <> None) || ia_optional account) IDL_MISMATCH ;;
  Ok (Meta (default (raw_programId raw) address) (ia_signer account) (ia_writable account)).

Fixpoint resolve_accounts (raw : RawInstructionBuilder) (accounts : InstructionAccounts)
    (l : list IdlInstructionAccount) : res (list AccountMeta) :=
  match l with
  | [] => Ok []
  | account :: rest =>
      meta ← resolve_account raw accounts account;
      metas ← resolve_accounts raw accounts rest;
      Ok (meta :: metas)
  end.

Definition build (raw : RawInstructionBuilder) (requestedName : string) (args : Args) (accounts : InstructionAccounts)
    : res TransactionInstruction :=
  name ← instructionName (raw_idl raw) requestedName;
  definition ← native (find_instruction (raw_idl raw) name);
  keys ← resolve_accounts raw accounts (flattenAccounts (ix_accounts definition));
  data ← native (coder_encode (raw_idl raw) name (anchorValue (VObject args)));
  Ok (Instruction (raw_programId raw) keys data).

(** *** The administrator *)

Definition initializeConfig raw (accounts : InstructionAccounts) (deploymentDomain : bytes) : res TransactionInstruction :=
  domain ← checkedDigest deploymentDomain false;
  build raw "initializeConfig" [("domain", VBytes domain)] accounts.

Definition registerAsset raw (accounts : InstructionAccounts) (issuerId : bytes) (symbol : js_string)
    (attestor : PublicKey) (policyDigest : bytes) : res TransactionInstruction :=
  let symbolBytes := encode symbol in
  invariant ((0 <? byte_length symbolBytes) && (byte_length symbolBytes <=? 16)) INVALID_IDENTITY ;;
  invariant (negb (key_equals attestor PublicKey_default)) INVALID_PUBLIC_KEY ;;
  (match om_get accounts "admin" with
   | Some admin => invariant (negb (key_equals attestor admin)) INVALID_PUBLIC_KEY
   | None => Ok tt
   end) ;;
  i ← checkedDigest issuerId false;
  d ← checkedDigest policyDigest false;
  build raw "registerAsset" [("issuerId", VBytes i); ("symbol", VString symbol); ("attestor", VKey attestor);
                             ("policyDigest", VBytes d)] accounts.

Definition setAssetAdmission raw (accounts : InstructionAccounts) (enabled : bool) : res TransactionInstruction :=
  build raw "setAssetAdmission" [("enabled", VBool enabled)] accounts.

(** *** The attestor *)

Definition refreshObservation raw (accounts : InstructionAccounts) (evidenceDigest : bytes) (validUntil : Z)
    : res TransactionInstruction :=
  d ← checkedDigest evidenceDigest false;
  v ← assertI64 validUntil;
  build raw "refreshObservation" [("evidenceDigest", VBytes d); ("validUntil", VBigInt v)] accounts.

Definition upsertEvent raw (accounts : InstructionAccounts) (input : EventInput) : res TransactionInstruction :=
  validated ← validatedEventInput input;
  build raw "upsertEvent" [("input", VObject validated)] accounts.

Definition beginFinalization raw (accounts : InstructionAccounts) (expectedJournalVersion : Z)
    (expectedJournalHash coverageDigest : bytes) : res TransactionInstruction :=
  version ← assertU64 expectedJournalVersion true;
  hash ← checkedDigest expectedJournalHash true;
  coverage ← checkedDigest coverageDigest false;
  build raw "beginFinalization" [("expectedJournalVersion", VBigInt version); ("expectedJournalHash", VBytes hash);
                                 ("coverageDigest", VBytes coverage)] accounts.

Definition abortFinalization raw (accounts : InstructionAccounts) (reasonDigest : bytes) : res TransactionInstruction :=
  d ← checkedDigest reasonDigest false;
  build raw "abortFinalization" [("reasonDigest", VBytes d)] accounts.

(** *** The holder *)

Definition build_deposit raw (accounts : InstructionAccounts) (amount : Z) (guard : Guard) : res TransactionInstruction :=
  a ← assertU64 amount false;
  g ← validatedGuard guard;
  build raw "deposit" [("amount", VBigInt a); ("guard", VObject g)] accounts.

Definition build_recombine raw (accounts : InstructionAccounts) (amount : Z) (guard : Guard) : res TransactionInstruction :=
  a ← assertU64 amount false;
  g ← validatedGuard guard;
  build raw "recombine" [("amount", VBigInt a); ("guard", VObject g)] accounts.

Definition build_redeem raw (accounts : InstructionAccounts) (side : ClaimSideName) (amount : Z) (allowZero : bool)
    (guard : Guard) : res TransactionInstruction :=
  (if negb allowZero then invariant (0 <? minimumRawOutput guard) INVALID_QUOTE else Ok tt) ;;
  a ← assertU64 amount false;
  g ← validatedGuard guard;
  build raw "redeem"
    [("side", VObject (if CLAIM_SIDE side =? 0 then [("pt", VObject [])] else [("dr", VObject [])]));
     ("amount", VBigInt a); ("allowZero", VBool allowZero); ("guard", VObject g)] accounts.

(** *** Anyone *)

Definition createSeries raw (accounts : InstructionAccounts) (year : Z) : res TransactionInstruction :=
  invariant ((2020 <=? year) && (year <=? 2100)) INVALID_IDENTITY ;;
  build raw "createSeries" [("year", VNumber year)] accounts.
Definition accumulateEvent raw (accounts : InstructionAccounts) : res TransactionInstruction :=
  build raw "accumulateEvent" [] accounts.
Definition completeFinalization raw (accounts : InstructionAccounts) : res TransactionInstruction :=
  build raw "completeFinalization" [] accounts.
End builder.

(** ** Laws *)

(** The dates the validation accepts are exactly zero and the days of the
    calendar from 2020 to 2101, written YYYYMMDD. *)
Lemma validCivilDate_spec date :
  validCivilDate date = true <->
  date = 0 \/ exists y m d, date = y * 10000 + m * 100 + d /\ 2020 <= y <= 2101 /\ civil_ok y m d = true.
Proof.
  unfold validCivilDate. destruct (date =? 0) eqn:E0; breflect; [split; auto|].
  split.
  - intros H. breflect. right. exists (date / 10000), (Z.rem (date / 100) 100), (Z.rem date 100).
    match goal with H : getUTCDate ?t = _ |- _ => pose proof (getUTC_civil_ok t) as Hok end.
    match goal with H1 : getUTCFullYear _ = _, H2 : getUTCMonth _ = _, H3 : getUTCDate _ = _ |- _ =>
      rewrite H1, H2, H3 in Hok end.
    rewrite Z.sub_add in Hok. split; [|by split].
    rewrite !Z.rem_mod_nonneg by (Z.to_euclidean_division_equations; lia).
    Z.to_euclidean_division_equations; lia.
  - intros [?|(y & m & d & -> & Hy & Hok)]; [done|]. pose proof Hok as Hc. unfold civil_ok in Hc. breflect.
    destruct (month_start_bounds (is_leap y) (m - 1)) as (_ & Hb & _); [lia|].
    rewrite !Z.rem_mod_nonneg by (Z.to_euclidean_division_equations; lia).
    replace ((y * 10000 + m * 100 + d) / 10000) with y by (Z.to_euclidean_division_equations; lia).
    replace ((y * 10000 + m * 100 + d) / 100 mod 100) with m by (Z.to_euclidean_division_equations; lia).
    replace ((y * 10000 + m * 100 + d) mod 100) with d by (Z.to_euclidean_division_equations; lia).
    destruct (Date_UTC_roundtrip y m d) as (-> & -> & ->); [lia|done|]. rewrite !Z.eqb_refl.
    rewrite !(proj2 (Z.leb_le _ _)) by lia. done.
Qed.

Definition event_factors (input : EventInput) : Z * Z := (v_m0Bits input, v_m1Bits input).
Definition is_qualified (input : EventInput) : bool := bool_decide (v_status input = qualified).

Lemma validatedEventInput_Ok input args :
  validatedEventInput input = Ok args ->
  (v_exDate input = 0 \/ exists y m d, v_exDate input = y * 10000 + m * 100 + d /\ 2020 <= y <= 2101 /\ civil_ok y m d = true) /\
  (is_qualified input = true -> event_valid (event_factors input)) /\
  (is_qualified input = false -> event_factors input = (0, 0)) /\ 0 < v_revision input <= MAX_U64.
Proof.
  unfold validatedEventInput, invariant, is_qualified, event_valid, event_factors. intros H.
  destruct (bool_decide (v_status input = qualified)) eqn:Eq; minv H; repeat found assertU64_Ok as (-> & ? & ?).
  - split; [by apply validCivilDate_spec|]. split; [intros _|split; [done|]].
    + cbn. by match goal with H : eventRetentionRatio _ _ = Ok _ |- _ => rewrite H end.
    + match goal with H : false = false -> 0 < _ |- _ => specialize (H eq_refl) end. lia.
  - breflect. split; [by apply validCivilDate_spec|]. split; [done|]. split; [intros _; congruence|].
    match goal with H : false = false -> 0 < _ |- _ => specialize (H eq_refl) end. lia.
Qed.

Section building.
Context (PublicKey_of : string -> option PublicKey) (coder_encode : Idl -> string -> JsValue -> option bytes).
Context (PublicKey_default : PublicKey).
Implicit Types (raw : RawInstructionBuilder) (accounts : InstructionAccounts).
Abbreviation build' := (build PublicKey_of coder_encode).

(** The account a key of an instruction stands for. *)
Definition key_for raw accounts (account : IdlInstructionAccount) (key : AccountMeta) : Prop :=
  isSigner key = ia_signer account /\ isWritable key = ia_writable account /\
  match ia_address account with
  | Some text =>
      if bool_decide (text = "") then
        pubkey key = default (raw_programId raw) (om_get accounts (ia_name account))
      else PublicKey_of text = Some (pubkey key)
  | None => pubkey key = default (raw_programId raw) (om_get accounts (ia_name account))
  end.

Lemma resolve_account_Ok raw accounts account key :
  resolve_account PublicKey_of raw accounts account = Ok key -> key_for raw accounts account key.
Proof.
  unfold resolve_account, key_for, invariant, native. intros H.
  destruct (ia_address account) as [text|]; [destruct (bool_decide (text = ""))|].
  - by minv H.
  - destruct (PublicKey_of text) as [k|]; [|done]. by minv H.
  - by minv H.
Qed.

Lemma resolve_accounts_Ok raw accounts l keys :
  resolve_accounts PublicKey_of raw accounts l = Ok keys -> Forall2 (key_for raw accounts) l keys.
Proof.
  revert keys. induction l as [|a l IH]; intros keys H; cbn in H; minv H; constructor; eauto using resolve_account_Ok.
Qed.

Lemma find_instruction_name idl name ix : find_instruction idl name = Some ix -> ix_name ix = name.
Proof. unfold find_instruction. intros [_ H]%find_some. by apply bool_decide_eq_true in H. Qed.

Lemma instructionName_find idl requested name :
  instructionName idl requested = Ok name ->
  (name = requested \/ name = snake_case requested) /\ exists ix, find_instruction idl name = Some ix /\ ix_name ix = name.
Proof.
  unfold instructionName. destruct (find_instruction idl requested) as [ix|] eqn:E1.
  { intros <-%Ok_inj. pose proof (find_instruction_name _ _ _ E1) as Hn. rewrite Hn. eauto. }
  destruct (find_instruction idl (snake_case requested)) as [ix|] eqn:E2; [|done].
  intros <-%Ok_inj. pose proof (find_instruction_name _ _ _ E2) as Hn. rewrite Hn. eauto.
Qed.
End building.

(** The guard of a quote passes the validation of the builders. *)
Lemma guard_validated s minimum expiry now g :
  guard s minimum expiry now = Ok g -> minimumRawOutput g = minimum /\ exists args, validatedGuard g = Ok args.
Proof.
  intros H. unfold guard, invariant in H. minv H. repeat found assertU64_Ok as (-> & ? & _).
  found assertI64_Ok as [-> ?]. split; [done|]. unfold validatedGuard.
  cbn [expectedStateVersion expiryUnixTimestamp minimumRawOutput].
  rewrite assertU64_true, assertI64_true, assertU64_true by done. eauto.
Qed.

(** ** Guarantees *)

(** The events [upsertEvent] accepts can always be accounted with: the
    retention of any journal of at most 64 accepted events, of which only the
    qualified ones count, exists and is at most one; the others carry no
    factors, and every ex-date is zero or a day of the calendar. *)
Theorem accepted_events_accumulate parse coder raw accounts events :
  Z.of_nat (length events) <= MAX_EVENTS ->
  Forall (fun e => exists ix, upsertEvent parse coder raw accounts e = Ok ix) events ->
  Forall (fun e => (is_qualified e = false -> event_factors e = (0, 0)) /\
    (v_exDate e = 0 \/ exists y m d, v_exDate e = y * 10000 + m * 100 + d /\ civil_ok y m d = true)) events /\
  exists r, multiplyRetentionRatios (event_factors <$> filter (fun e => is_qualified e = true) events) = Ok r /\
    0 < numerator r <= denominator r /\ Z.gcd (numerator r) (denominator r) = 1.
Proof.
  intros Hlen Hall.
  assert (Forall (fun e => exists args, validatedEventInput e = Ok args) events) as Hval.
  { eapply Forall_impl; [exact Hall|]. intros e (ix & H). unfold upsertEvent in H.
    apply bind_Ok_inv in H as (args & H & _). by exists args. }
  split.
  - eapply Forall_impl; [exact Hval|]. intros e (args & H). apply validatedEventInput_Ok in H as (Hd & _ & Hz & _).
    split; [done|]. destruct Hd as [|(y & m & d & ? & _ & ?)]; eauto 8.
  - destruct (multiplyRetentionRatios_spec (event_factors <$> filter (fun e => is_qualified e = true) events))
      as (r & Hr & (Hn & _ & Hg) & Hle & _).
    + rewrite length_fmap. pose proof (length_filter (fun e => is_qualified e = true) events). lia.
    + apply Forall_fmap, Forall_forall. intros e [Hq Hin]%list_elem_of_filter.
      rewrite Forall_forall in Hval. destruct (Hval e Hin) as (args & H).
      apply validatedEventInput_Ok in H as (_ & H & _). by apply H.
    + exists r. done.
Qed.

(** An instruction that is built is the IDL's: it is addressed to the
    builder's program, was found under the requested name or its snake-case
    form, its keys are the IDL's accounts in order with the IDL's signer and
    writable flags, and every mandatory account has an address of its own. *)
Theorem instruction_follows_idl parse coder raw requested args accounts ix :
  build parse coder raw requested args accounts = Ok ix ->
  exists definition,
    In definition (idl_instructions (raw_idl raw)) /\
    (ix_name definition = requested \/ ix_name definition = snake_case requested) /\
    ti_programId ix = raw_programId raw /\
    Forall2 (key_for parse raw accounts) (flattenAccounts (ix_accounts definition)) (ti_keys ix) /\
    Forall (fun a => ia_optional a = false -> ia_address a = None -> om_get accounts (ia_name a) <> None)
      (flattenAccounts (ix_accounts definition)) /\
    coder (raw_idl raw) (ix_name definition) (anchorValue (VObject args)) = Some (ti_data ix).
Proof.
  unfold build. intros H. apply bind_Ok_inv in H as (name & Hname & H).
  apply instructionName_find in Hname as (Hn & definition & Hf & <-). unfold native in H. rewrite Hf, bind_Ok in H.
  apply bind_Ok_inv in H as (keys & Hkeys & H). exists definition.
  destruct (coder _ _ _) as [data|] eqn:Hc; [|done]. rewrite bind_Ok in H. apply Ok_inj in H as <-. cbn.
  split; [by apply find_some in Hf as [? _]|]. split; [done|]. split; [done|].
  split; [by apply resolve_accounts_Ok|]. split; [|done].
  revert keys Hkeys. induction (flattenAccounts _) as [|a l IH]; intros keys Hk; cbn in Hk; [constructor|].
  minv Hk. constructor; [|eauto]. intros Ho Ha.
  match goal with H : resolve_account _ _ _ _ = Ok _ |- _ => unfold resolve_account, invariant in H; rewrite Ha, Ho in H end.
  rewrite bind_Ok in *. match goal with H : (require _ _ ≫= _) = Ok _ |- _ => minv H end.
  rewrite orb_false_r in *. by found @bool_decide_eq_true_1 as ?.
Qed.

(** Quotes and builders agree: the guard and amounts of a quote always
    pass the validation of the builder of its operation; a redemption quoted
    without accepting zero and without an explicit minimum passes too. *)
Theorem quotes_are_buildable parse coder raw accounts :
  (forall s policy vault input owned now slot expiry minimum q,
    quoteDeposit s policy vault input owned now slot expiry minimum = Ok q ->
    exists g, build_deposit parse coder raw accounts input (dq_guard q) =
      build parse coder raw "deposit" [("amount", VBigInt input); ("guard", VObject g)] accounts) /\
  (forall s vault amount ownedPt ownedDr now expiry minimum q,
    quoteRecombine s vault amount ownedPt ownedDr now expiry minimum = Ok q ->
    exists g, build_recombine parse coder raw accounts amount (rq_guard q) =
      build parse coder raw "recombine" [("amount", VBigInt amount); ("guard", VObject g)] accounts) /\
  (forall s vault sd amount owned z now expiry q,
    quoteRedemption s vault sd amount owned z now expiry None = Ok q ->
    exists args, build_redeem parse coder raw accounts sd amount z (xq_guard q) =
      build parse coder raw "redeem" args accounts).
Proof.
  split_and!; intros * H.
  - unfold quoteDeposit in H. minv H. cbn [dq_guard]. found guard_validated as (_ & args & Hargs).
    match goal with H : assertU64 input _ = Ok _ |- _ => apply assertU64_Ok in H as (-> & ? & ?) end.
    exists args. unfold build_deposit. by rewrite assertU64_true, bind_Ok, Hargs.
  - unfold quoteRecombine in H. minv H. cbn [rq_guard]. found guard_validated as (_ & args & Hargs).
    match goal with H : assertU64 amount _ = Ok _ |- _ => apply assertU64_Ok in H as (-> & ? & ?) end.
    exists args. unfold build_recombine. by rewrite assertU64_true, bind_Ok, Hargs.
  - unfold quoteRedemption, invariant in H. minv H. cbn [xq_guard]. found guard_validated as (Hmin & args & Hargs).
    match goal with H : assertU64 amount _ = Ok _ |- _ => apply assertU64_Ok in H as (-> & ? & ?) end.
    cbn [default] in Hmin. unfold build_redeem, invariant. rewrite Hmin, assertU64_true by done.
    rewrite bind_Ok, Hargs, bind_Ok. eexists.
    match goal with H : _ || z = true |- _ => rename H into Hz end.
    assert ((if negb z then require (0 <? a5) INVALID_QUOTE else Ok tt) = Ok tt) as ->; [|reflexivity].
    destruct z; [done|]. rewrite orb_false_r in Hz. cbn [negb]. by rewrite Hz.
Qed.

(** ** Witnesses *)

Definition ex_idl : Idl :=
  MkIdl "program"
    [IdlIx "upsert_event" [Single (IdlAccount "attestor" None false true false);
                           Group [Single (IdlAccount "series" None false false true);
                                  Single (IdlAccount "systemProgram" (Some "111") false false false)]]].
Definition ex_parse (s : string) : option PublicKey := if bool_decide (s = "111") then Some [0] else Some [50].
Definition ex_coder (_ : Idl) (_ : string) (_ : JsValue) : option bytes := Some [1; 2].
Definition ex_raw : RawInstructionBuilder := Raw ex_idl [50].
Definition ex_accounts : InstructionAccounts := [("attestor", [8]); ("series", [1])].
Definition ex_event (status : EventStatusName) (m0 m1 : Z) : EventInput :=
  Event (repeat 7 32) 1 20260213 status m0 m1 true 0 0 5 (repeat 9 32).

Example accepted_events_witness :
  exists r, multiplyRetentionRatios [(4607182418800017408, 4607227454796291113)] = Ok r /\ 0 < numerator r <= denominator r.
Proof.
  destruct (accepted_events_accumulate ex_parse ex_coder ex_raw ex_accounts
    [ex_event qualified 4607182418800017408 4607227454796291113; ex_event cancelled 0 0]) as (_ & r & Hr & Hn & _).
  - vm_compute. congruence.
  - repeat constructor; eexists; vm_compute; reflexivity.
  - exists r. split; [exact Hr|exact Hn].
Defined.

Example instruction_witness :
  exists ix, upsertEvent ex_parse ex_coder ex_raw ex_accounts (ex_event pending 0 0) = Ok ix /\
    ti_programId ix = [50] /\ ti_keys ix = [Meta [8] true false; Meta [1] false true; Meta [0] false false].
Proof.
  eexists. split; [vm_compute; reflexivity|]. split; [|reflexivity].
  destruct (instruction_follows_idl ex_parse ex_coder ex_raw "upsertEvent" [("input", VNull)] ex_accounts
    (Instruction [50] [Meta [8] true false; Meta [1] false true; Meta [0] false false] [1; 2])
    ltac:(vm_compute; reflexivity)) as (_ & _ & _ & H & _). exact H.
Defined.

Example quotes_buildable_witness :
  exists g, build_deposit ex_parse ex_coder ex_raw ex_accounts 5 (MkGuard 9 1800000000 5) =
    build ex_parse ex_coder ex_raw "deposit" [("amount", VBigInt 5); ("guard", VObject g)] ex_accounts.
Proof.
  apply (proj1 (quotes_are_buildable ex_parse ex_coder ex_raw ex_accounts) ex_open_series ex_policy 600 5 10
    1767225599 10 1800000000 None (DepositQ 5 5 5 (MkGuard 9 1800000000 5))).
  vm_compute. reflexivity.
Defined.
