(* ===== verification/TxTransactions.v ===== *)
(** * Transaction SDK: transactions

    [packages/transaction-sdk/src/transactions.ts]: compute budgets, unsigned
    transactions, and the signing, submission and confirmation of one
    transaction.  The wallet and the RPC connection are parameters; the state
    of the calls is the log of what they were asked to do, in order. *)
From S2P Require Import Prelude TxBytes TxArith TxQuotes TxAccounts TxInstructions.
Open Scope Z_scope.

(** ** Compute budgets *)

(** The two instructions of the compute budget program the code builds, and
    any other instruction. *)
Inductive ComputeBudgetInstruction :=
  | setComputeUnitLimit (units : Z)
  | setComputeUnitPrice (microLamports : Z).

Inductive FinalizationStep := step_begin | step_accumulate | step_complete.
Record MeasuredComputeBudget := MeasuredBudget {
  mb_step : FinalizationStep; measuredUnits : Z; requestedUnits : Z; mb_instructions : list ComputeBudgetInstruction;
}.

Definition computeBudgetInstructions (units : Z) (microLamports : option Z) : res (list ComputeBudgetInstruction) :=
  invariant ((0 <? units) && (units <=? 1400000)) INVALID_AMOUNT ;;
  Ok (setComputeUnitLimit units :: match microLamports with Some p => [setComputeUnitPrice p] | None => [] end).

(** [Math.ceil(n / 10_000)] of a non-negative integer.  The source computes it
    on numbers: below the limit of 1,400,000 units the product has at most 35
    bits, so the quotient is rounded by less than its distance to the next
    integer and the ceiling is exact; above it both are rejected. *)
Definition ceil_bps (n : Z) : Z := (n + 9999) / 10000.

Definition measuredFinalizationComputeBudget (step : FinalizationStep) (measured : Z)
    (marginBasisPoints microLamports : option Z) : res MeasuredComputeBudget :=
  invariant (0 <? measured) INVALID_AMOUNT ;;
  let margin := default 1000 marginBasisPoints in
  invariant ((0 <=? margin) && (margin <=? 10000)) INVALID_AMOUNT ;;
  let requested := ceil_bps (measured * (10000 + margin)) in
  invariant (requested <=? 1400000) INVALID_AMOUNT ;;
  instructions ← computeBudgetInstructions requested microLamports;
  Ok (MeasuredBudget step measured requested instructions).

(** ** Transactions *)

Record Transaction := MkTransaction {
  tx_feePayer : PublicKey; tx_blockhash : option string; tx_lastValidBlockHeight : option Z;
  tx_instructions : list TransactionInstruction;
}.

Definition buildUnsignedTransaction (instructions : list TransactionInstruction) (payer : PublicKey)
    (recentBlockhash : string) (lastValidBlockHeight : Z) : res Transaction :=
  invariant (negb (bool_decide (length instructions = 0%nat))) INVALID_QUOTE ;;
  Ok (MkTransaction payer (Some recentBlockhash) (Some lastValidBlockHeight) instructions).

Inductive confirmationStatus := cs_processed | cs_confirmed | cs_finalized.
(** An entry of [getSignatureStatuses]; errors are opaque texts. *)
Record SignatureStatus := Status {
  st_slot : Z; st_err : option string; st_confirmation : option confirmationStatus;
}.
Record ConfirmedTransactionReceipt := TxReceipt {
  tr_signature : string; tr_slot : Z; tr_confirmationStatus : confirmationStatus;
}.

(** What the wallet and the connection were asked. *)
Inductive request :=
  | AskBlockhash
  | AskSign (t : Transaction)
  | AskSend (t : Transaction)
  | AskConfirm (signature blockhash : string) (lastValidBlockHeight : Z)
  | AskStatuses (signature : string).

Abbreviation N := (M (list request) DividendXSdkErrorCode).

Section connection.
(** [sendRawTransaction] takes the serialised transaction; serialisation is
    part of it.  A rejected promise is an [Err]. *)
Context (getLatestBlockhash : res (string * Z)) (sendRawTransaction : Transaction -> res string).
Context (confirmTransaction : string -> string -> Z -> res (Z * option string)).
Context (getSignatureStatuses : string -> res (option SignatureStatus)).

Definition ask {A} (q : request) (answer : res A) : N A :=
  modify (fun log => log ++ [q]) ;; lift answer.

Definition buildRecentUnsignedTransaction (payer : PublicKey) (instructions : list TransactionInstruction) : N Transaction :=
  '(blockhash, height) ← ask AskBlockhash getLatestBlockhash;
  lift (buildUnsignedTransaction instructions payer blockhash height).

(** [confirmation.value.err ?? status?.err ?? null] *)
Definition reported_error (confirmed : option string) (status : option SignatureStatus) : option string :=
  match confirmed with Some e => Some e | None => status ≫= st_err end.

(** The blockhash of a transaction that has one (the empty string is falsy)
    and its last valid block height. *)
Definition lifetime (t : Transaction) : res (string * Z) :=
  match tx_blockhash t, tx_lastValidBlockHeight t with
  | Some h, Some b => if bool_decide (h = "") then Err INVALID_QUOTE else Ok (h, b)
  | _, _ => Err INVALID_QUOTE
  end.

Definition signSubmitAndConfirm (unsigned : Transaction) (signTransaction : Transaction -> res Transaction)
    : N ConfirmedTransactionReceipt :=
  '(blockhash, height) ← lift (lifetime unsigned);
  signed ← ask (AskSign unsigned) (signTransaction unsigned);
  signature ← ask (AskSend signed) (sendRawTransaction signed);
  '(_, error) ← ask (AskConfirm signature blockhash height) (confirmTransaction signature blockhash height);
  status ← ask (AskStatuses signature) (getSignatureStatuses signature);
  ensure (bool_decide (reported_error error status = None)) TRANSACTION_FAILED ;;
  match status with
  | Some s =>
      match st_confirmation s with
      | Some c => mret (TxReceipt signature (st_slot s) c)
      | None => throw TRANSACTION_FAILED
      end
  | None => throw TRANSACTION_FAILED
  end.

Definition signWithSignersSubmitAndConfirm (unsigned : Transaction) (signers : list (Transaction -> res Transaction))
    : N ConfirmedTransactionReceipt :=
  ensure (negb (bool_decide (length signers = 0%nat))) INVALID_QUOTE ;;
  signSubmitAndConfirm unsigned (fun t => foldM (fun t sign => sign t) t signers).

(** ** Laws *)

Definition sends (l : list request) : list Transaction :=
  omap (fun q => match q with AskSend t => Some t | _ => None end) l.

Lemma ask_bind {A B} q (answer : res A) (f : A -> N B) log :
  (ask q answer ≫= f) log = match answer with Ok a => f a (log ++ [q]) | Err e => (Err e, log ++ [q]) end.
Proof. by destruct answer. Qed.
Lemma lift_bind {A B} (answer : res A) (f : A -> N B) log :
  (lift answer ≫= f) log = match answer with Ok a => f a log | Err e => (Err e, log) end.
Proof. by destruct answer. Qed.

(** A receipt is only issued for a transaction the wallet signed, that was
    sent exactly once, and whose confirmation and signature status both report
    no error; when the call fails, at most one transaction was sent, and it
    was the one the wallet signed. *)
Theorem receipt_means_confirmed unsigned sign r log' :
  signSubmitAndConfirm unsigned sign [] = (r, log') ->
  (forall receipt, r = Ok receipt ->
    exists signed blockhash height s slot,
      sign unsigned = Ok signed /\ sendRawTransaction signed = Ok (tr_signature receipt) /\
      confirmTransaction (tr_signature receipt) blockhash height = Ok (slot, None) /\
      getSignatureStatuses (tr_signature receipt) = Ok (Some s) /\ st_err s = None /\
      tx_blockhash unsigned = Some blockhash /\ tx_lastValidBlockHeight unsigned = Some height /\
      log' = [AskSign unsigned; AskSend signed; AskConfirm (tr_signature receipt) blockhash height;
              AskStatuses (tr_signature receipt)]) /\
  (sends log' = [] \/ exists signed, sends log' = [signed] /\ sign unsigned = Ok signed).
Proof.
  unfold signSubmitAndConfirm. rewrite lift_bind.
  destruct (lifetime unsigned) as [[blockhash height]|e] eqn:Hl; [|intros [= <- <-]; split; [done|by left]].
  assert (tx_blockhash unsigned = Some blockhash /\ tx_lastValidBlockHeight unsigned = Some height) as [Hb Hh].
  { unfold lifetime in Hl. destruct (tx_blockhash unsigned), (tx_lastValidBlockHeight unsigned); try done.
    case_bool_decide; [done|]. by injection Hl as -> ->. }
  rewrite ask_bind. destruct (sign unsigned) as [signed|e] eqn:Hs; [|intros [= <- <-]; split; [done|by left]].
  rewrite ask_bind. destruct (sendRawTransaction signed) as [signature|e] eqn:Hsend; [|intros [= <- <-]; split; [done|right; eauto]].
  rewrite ask_bind. destruct (confirmTransaction signature blockhash height) as [[slot error]|e] eqn:Hc;
    [|intros [= <- <-]; split; [done|right; eauto]].
  rewrite ask_bind. destruct (getSignatureStatuses signature) as [status|e] eqn:Hst; [|intros [= <- <-]; split; [done|right; eauto]].
  unfold ensure. rewrite lift_bind. unfold require. case_bool_decide as Hr; [|intros [= <- <-]; split; [done|right; eauto]].
  destruct status as [s|]; [|intros [= <- <-]; split; [done|right; eauto]].
  destruct (st_confirmation s) as [c|] eqn:Hcs; intros [= <- <-]; (split; [|right; eauto]); [|done].
  intros receipt <-%Ok_inj. unfold reported_error in Hr. destruct error as [e|]; [done|]. cbn in Hr.
  exists signed, blockhash, height, s, slot. done.
Qed.
End connection.

Example receipt_witness :
  exists receipt log, signSubmitAndConfirm (fun _ => Ok "sig") (fun _ _ _ => Ok (10, None))
      (fun _ => Ok (Some (Status 12 None (Some cs_confirmed))))
      (MkTransaction [8] (Some "hash") (Some 100) []) Ok [] = (Ok receipt, log) /\
    sends log = [MkTransaction [8] (Some "hash") (Some 100) []].
Proof.
  eexists _, _. split; [vm_compute; reflexivity|].
  destruct (receipt_means_confirmed (fun _ => Ok "sig") (fun _ _ _ => Ok (10, None))
    (fun _ => Ok (Some (Status 12 None (Some cs_confirmed))))
    (MkTransaction [8] (Some "hash") (Some 100) []) Ok _ _ ltac:(vm_compute; reflexivity))
    as (H & [Hs|(signed & Hs & Hsign)]); [discriminate Hs|].
  rewrite Hs. injection Hsign as <-. reflexivity.
Defined.
