(* ===== verification/Json.v ===== *)
(** * JSON values as the services inspect them

    A value [JSON.parse] returns, with the operations the source applies to
    such [unknown] values: property access, [Object.keys], [typeof] tests,
    [String(value)], array [sort] and [join], and the base58 and base64 tests.
    Strings are JavaScript strings (Utf8).  The fields of an object are in the
    order of [Object.entries]; a parsed object has each key once. *)
From S2P Require Import Prelude Js Utf8.
Open Scope Z_scope.

(** An integer, or any other number by the text [String] gives for it: no
    check of the source looks at the value of a number that is no integer. *)
Inductive number := Int (z : Z) | OtherNumber (text : js_string).
#[global] Instance number_eq_dec : EqDecision number. Proof. solve_decision. Defined.

#[local] Unset Elimination Schemes.
Inductive json :=
  | JNull
  | JBool (b : bool)
  | JNum (n : number)
  | JStr (s : js_string)
  | JArr (l : list json)
  | JObj (fields : list (js_string * json)).

#[local] Set Elimination Schemes.

(** Induction that reaches the elements of arrays and the fields of objects. *)
Section json_induction.
Context (P : json -> Prop) (HNull : P JNull) (HBool : forall b, P (JBool b)) (HNum : forall n, P (JNum n))
  (HStr : forall s, P (JStr s)) (HArr : forall l, Forall P l -> P (JArr l))
  (HObj : forall fields, Forall (fun f : js_string * json => P f.2) fields -> P (JObj fields)).
Fixpoint json_induction (v : json) : P v :=
  match v with
  | JNull => HNull
  | JBool b => HBool b
  | JNum n => HNum n
  | JStr s => HStr s
  | JArr l => HArr l ((fix go l := match l return Forall P l with
                                   | [] => Forall_nil_2 P
                                   | x :: l' => Forall_cons_2 P x l' (json_induction x) (go l') end) l)
  | JObj fs => HObj fs ((fix go fs := match fs return Forall (fun f : js_string * json => P f.2) fs with
                                      | [] => Forall_nil_2 _
                                      | f :: fs' => Forall_cons_2 _ f fs' (json_induction f.2) (go fs') end) fs)
  end.
End json_induction.

(** ** Properties of objects *)

(** [item[key]] of an object's own properties; [None] is [undefined]. *)
Fixpoint own_field (fields : list (js_string * json)) (key : js_string) : option json :=
  match fields with
  | [] => None
  | (k, v) :: rest => if bool_decide (k = key) then Some v else own_field rest key
  end.
Definition prop (fields : list (js_string * json)) (key : string) : option json := own_field fields (text key).
Definition has (fields : list (js_string * json)) (key : string) : bool :=
  match prop fields key with Some _ => true | None => false end.

(** [value === 'text'] *)
Definition is_text (v : option json) (s : string) : bool :=
  match v with Some (JStr t) => bool_decide (t = text s) | _ => false end.
Definition is_int (v : option json) (n : Z) : bool :=
  match v with Some (JNum (Int z)) => z =? n | _ => false end.

(** ** [keys.sort().join(',')] *)

Fixpoint js_leb (a b : js_string) : bool :=
  match a, b with
  | [], _ => true
  | _ :: _, [] => false
  | x :: a', y :: b' => (x <? y) || ((x =? y) && js_leb a' b')
  end.
Fixpoint js_insert (x : js_string) (l : list js_string) : list js_string :=
  match l with [] => [x] | y :: l' => if js_leb x y then x :: y :: l' else y :: js_insert x l' end.
Definition js_sort (l : list js_string) : list js_string := foldr js_insert [] l.

Fixpoint js_join (sep : js_string) (l : list js_string) : js_string :=
  match l with [] => [] | [x] => x | x :: l' => x ++ sep ++ js_join sep l' end.

Lemma js_insert_perm x l : js_insert x l ≡ₚ x :: l.
Proof.
  induction l as [|y l IH]; simpl; [done|]. destruct (js_leb x y); [done|]. rewrite IH. apply Permutation_swap.
Qed.
Lemma js_sort_perm l : js_sort l ≡ₚ l.
Proof. induction l as [|x l IH]; simpl; [done|]. by rewrite js_insert_perm, IH. Qed.

(** ** [String(value)] *)

Definition int_text (z : Z) : js_string :=
  if z <? 0 then text "-" ++ (ascii_Z <$> toString (- z)) else ascii_Z <$> toString z.

(** A number's text has no zero unit, and only it has that text. *)
Lemma toString_head n u : 0 <= n -> head (ascii_Z <$> toString n) = Some u -> 48 <= u <= 57.
Proof.
  intros Hn. destruct (toString_spec n Hn) as [_ Hd]. destruct (toString n) as [|c l]; [done|].
  intros [= <-]. apply andb_prop in Hd as [_ Hd]. cbn in Hd. unfold is_digit in Hd. lia.
Qed.
Lemma int_text_inj a b : int_text a = int_text b -> a = b.
Proof.
  assert (forall n k l, 0 <= n -> ascii_Z <$> toString n = 45 :: l -> k = n) as Hsign.
  { intros n k l Hn E. exfalso. pose proof (toString_head n 45 Hn) as Hh. rewrite E in Hh. specialize (Hh eq_refl). lia. }
  unfold int_text. destruct (Z.ltb_spec a 0), (Z.ltb_spec b 0); intros E.
  - injection E as E. apply ascii_Z_fmap_inj in E. pose proof (toString_spec (- a)) as [Ha _]; [lia|].
    pose proof (toString_spec (- b)) as [Hb _]; [lia|]. rewrite E in Ha. lia.
  - symmetry in E. by eapply Hsign in E.
  - symmetry. by eapply Hsign in E.
  - apply ascii_Z_fmap_inj in E. pose proof (toString_spec a) as [Ha _]; [lia|].
    pose proof (toString_spec b) as [Hb _]; [lia|]. rewrite E in Ha. lia.
Qed.
Lemma toString_nonzero n : 0 <= n -> 0 ∉ ascii_Z <$> toString n.
Proof.
  intros Hn. destruct (toString_spec n Hn) as [_ Hd]. apply andb_prop in Hd as [_ Hd].
  intros (c & Hc & Hi)%list_elem_of_fmap. eapply forallb_forall in Hd; [|by apply list_elem_of_In].
  unfold is_digit in Hd. lia.
Qed.
Lemma int_text_nonzero z : 0 ∉ int_text z.
Proof.
  unfold int_text. destruct (Z.ltb_spec z 0); [|by apply toString_nonzero].
  intros [Hm|Hm]%elem_of_app; [|by apply toString_nonzero in Hm; [|lia]]. apply list_elem_of_singleton in Hm. discriminate.
Qed.

Fixpoint js_String (v : json) : js_string :=
  match v with
  | JNull => text "null"
  | JBool b => text (if b then "true" else "false")
  | JNum (Int z) => int_text z
  | JNum (OtherNumber t) => t
  | JStr s => s
  | JArr l => js_join (text ",") (map (fun x => match x with JNull => [] | _ => js_String x end) l)
  | JObj _ => text "[object Object]"
  end.

(** ** Character classes *)

Definition between (a b u : Z) : bool := (a <=? u) && (u <=? b).
(** [[1-9A-HJ-NP-Za-km-z]] *)
Definition is_base58 (u : Z) : bool :=
  between 49 57 u || between 65 72 u || between 74 78 u || between 80 90 u || between 97 107 u || between 109 122 u.
(** [[A-Za-z0-9+/]] *)
Definition is_base64 (u : Z) : bool :=
  between 65 90 u || between 97 122 u || between 48 57 u || (u =? 43) || (u =? 47).

Definition len (s : js_string) : Z := Z.of_nat (length s).
(** A base58 text of [lo] to [hi] characters. *)
Definition base58_text (lo hi : Z) (v : json) : bool :=
  match v with JStr s => forallb is_base58 s && between lo hi (len s) | _ => false end.
