(* ===== verification/RpcPolicy.v ===== *)
(** * Hosted sandboxes: the JSON-RPC policies

    A wallet's RPC request passes two checks on its way to a sandbox: the
    broker's [validateRpc] ([packages/hosted-broker/src/broker.ts]), which
    says how many mutations to charge for it, and the gateway's
    [validateRpcEnvelope] ([packages/hosted-gateway/src/rpc-policy.mjs]), in
    front of the runtime itself.  The theorems: what the gateway lets through
    is charged exactly, and transactions are bounded, canonical base64. *)
From S2P Require Import Prelude Js TxBytes Utf8 Json.
Open Scope Z_scope.

(** ** [broker.ts]: [validateRpc] *)

(** [HttpError] by its status. *)
Inductive HttpError := Http (status : Z).
Abbreviation hres := (result HttpError).
Definition refuse_unless (b : bool) (status : Z) : hres unit := require b (Http status).

Definition RPC_METHODS : list js_string :=
  text <$> ["getGenesisHash"; "getAccountInfo"; "getMultipleAccounts"; "getLatestBlockhash"; "getSignatureStatuses";
            "getBlockHeight"; "sendTransaction"].

Definition publicKey (v : option json) : bool := match v with Some v => base58_text 32 44 v | None => false end.

(** [object(value)] *)
Definition object (v : json) : hres (list (js_string * json)) :=
  match v with JObj fields => Ok fields | _ => Err (Http 502) end.

(** An array of 1 to [most] elements that all pass [test]. *)
Definition list_of (test : json -> bool) (most : Z) (v : option json) : bool :=
  match v with
  | Some (JArr l) => (1 <=? Z.of_nat (length l)) && (Z.of_nat (length l) <=? most) && forallb test l
  | _ => false
  end.

(** [/^[A-Za-z0-9+/]+={0,2}$/] of 4 to 2000 characters *)
Fixpoint base64_loose (s : js_string) : bool :=
  match s with
  | [] => true
  | u :: rest => if is_base64 u then base64_loose rest else bool_decide (s = [61]) || bool_decide (s = [61; 61])
  end.
Definition rpc_transaction (v : option json) : bool :=
  match v with
  | Some (JStr s) => (4 <=? len s) && (len s <=? 2000)
                     && match s with u :: _ => is_base64 u | [] => false end && base64_loose s
  | _ => false
  end.

(** [params[1]] is absent or a plain object. *)
Definition rpc_options (v : option json) : bool :=
  match v with None => true | Some (JObj _) => true | _ => false end.

Definition call_keys (fields : list (js_string * json)) : js_string := js_join (text ",") (js_sort fields.*1).

(** One call of the batch: how many mutations it adds. *)
Definition validate_call (call : json) : hres Z :=
  item ← object call;
  refuse_unless (bool_decide (call_keys item = text "id,jsonrpc,method")
                 || bool_decide (call_keys item = text "id,jsonrpc,method,params")) 400 ;;
  refuse_unless (is_text (prop item "jsonrpc") "2.0"
                 && bool_decide (match prop item "method" with Some m => js_String m | None => text "undefined" end ∈ RPC_METHODS)
                 && match prop item "id" with Some (JStr _) | Some (JNum _) | Some JNull => true | _ => false end) 403 ;;
  params ← match prop item "params" with
           | None => Ok []
           | Some (JArr l) => if Z.of_nat (length l) <=? 2 then Ok l else Err (Http 400)
           | _ => Err (Http 400)
           end;
  let count := Z.of_nat (length params) in
  let method_is name := is_text (prop item "method") name in
  refuse_unless (negb (method_is "getGenesisHash" && negb (count =? 0))) 400 ;;
  refuse_unless (negb (method_is "getBlockHeight" && (1 <? count))) 400 ;;
  refuse_unless (negb (method_is "getLatestBlockhash" && (1 <? count))) 400 ;;
  refuse_unless (negb (method_is "getAccountInfo" && ((count <? 1) || negb (publicKey (params !! 0%nat))))) 400 ;;
  refuse_unless (negb (method_is "getMultipleAccounts" && negb (list_of (fun v => publicKey (Some v)) 20 (params !! 0%nat)))) 400 ;;
  refuse_unless (negb (method_is "getSignatureStatuses" && negb (list_of (base58_text 64 100) 20 (params !! 0%nat)))) 400 ;;
  refuse_unless (rpc_options (params !! 1%nat)) 400 ;;
  if method_is "sendTransaction" then refuse_unless ((1 <=? count) && rpc_transaction (params !! 0%nat)) 400 ;; Ok 1 else Ok 0.

(** [value] is what [JSON.parse] gives for the body, [None] when it throws. *)
Definition validateRpc (value : option json) : hres Z :=
  match value with
  | None => Err (Http 400)
  | Some value =>
      let calls := match value with JArr l => l | _ => [value] end in
      refuse_unless (negb (Nat.eqb (length calls) 0) && (Z.of_nat (length calls) <=? 10)) 400 ;;
      foldM (fun mutationCount call => n ← validate_call call; Ok (mutationCount + n)) 0 calls
  end.

(** ** [rpc-policy.mjs] *)

Inductive RpcPolicyError := Refused.
Abbreviation pol := (result RpcPolicyError).
Abbreviation allow_if b := (require b Refused).

Definition COMMITMENTS : list js_string := text <$> ["processed"; "confirmed"; "finalized"].
Definition MAX_TRANSACTION_BYTES : Z := 1232.
Definition MAX_ACCOUNT_LIST : Z := 32.
Definition MAX_SIGNATURE_LIST : Z := 32.

Definition record (v : option json) : pol (list (js_string * json)) :=
  match v with Some (JObj fields) => Ok fields | _ => Err Refused end.
Definition exactKeys (fields : list (js_string * json)) (allowed : list string) : pol unit :=
  allow_if (forallb (fun f => bool_decide (f.1 ∈ text <$> allowed)) fields).
Definition address (v : json) : bool := base58_text 32 44 v.
Definition commitment (v : option json) : pol unit :=
  allow_if (match v with None => true | Some (JStr s) => bool_decide (s ∈ COMMITMENTS) | _ => false end).
(** A safe integer from 0 to [most]. *)
Definition small_integer (most : Z) (v : option json) : bool :=
  match v with Some (JNum (Int z)) => isSafeInteger z && (0 <=? z) && (z <=? most) | _ => false end.
Definition optional (test : option json -> bool) (v : option json) : bool :=
  match v with None => true | v => test v end.
Definition minContextSlot (v : option json) : pol unit := allow_if (optional (small_integer MAX_SAFE_INTEGER) v).
Definition is_boolean (v : option json) : bool := match v with Some (JBool _) => true | _ => false end.
Definition is_true (v : option json) : bool := match v with Some (JBool b) => b | _ => false end.

Definition config (v : option json) (allowed : list string) : pol (list (js_string * json)) :=
  item ← record v;
  exactKeys item allowed ;;
  commitment (prop item "commitment") ;;
  minContextSlot (prop item "minContextSlot") ;;
  Ok item.
Definition optionalConfig (params : list json) (allowed : list string) : pol unit :=
  if Nat.eqb (length params) 2 then config (params !! 1%nat) allowed ;; Ok tt else Ok tt.

(** [Buffer.from(value, 'base64')] of a text in the shape the regular
    expression demands; [None] for any other text. *)
Definition base64_value (u : Z) : Z :=
  if between 65 90 u then u - 65 else if between 97 122 u then u - 71 else if between 48 57 u then u + 4
  else if u =? 43 then 62 else 63.
Fixpoint base64_decode (s : js_string) : option bytes :=
  match s with
  | [] => Some []
  | a :: b :: c :: d :: rest =>
      let x := base64_value a in let y := base64_value b in let z := base64_value c in let w := base64_value d in
      if is_base64 a && is_base64 b then
        if is_base64 c && is_base64 d then
          (fun tail => x * 4 + y / 16 :: (y mod 16) * 16 + z / 4 :: (z mod 4) * 64 + w :: tail) <$> base64_decode rest
        else if is_base64 c && (d =? 61) && bool_decide (rest = []) then Some [x * 4 + y / 16; (y mod 16) * 16 + z / 4]
        else if (c =? 61) && (d =? 61) && bool_decide (rest = []) then Some [x * 4 + y / 16]
        else None
      else None
  | _ => None
  end.
Definition base64_char (v : Z) : Z :=
  if v <? 26 then v + 65 else if v <? 52 then v + 71 else if v <? 62 then v - 4 else if v =? 62 then 43 else 47.
(** [buffer.toString('base64')] *)
Fixpoint base64_encode (l : bytes) : js_string :=
  match l with
  | [] => []
  | [p] => [base64_char (p / 4); base64_char ((p mod 4) * 16); 61; 61]
  | [p; q] => [base64_char (p / 4); base64_char ((p mod 4) * 16 + q / 16); base64_char ((q mod 16) * 4); 61]
  | p :: q :: r :: rest =>
      base64_char (p / 4) :: base64_char ((p mod 4) * 16 + q / 16) :: base64_char ((q mod 16) * 4 + r / 64)
      :: base64_char (r mod 64) :: base64_encode rest
  end.

(** [base64(value, label)]: the decoded bytes it checks. *)
Definition base64 (v : option json) : pol bytes :=
  match v with
  | Some (JStr s) =>
      allow_if (negb (len s =? 0) && (len s <=? (MAX_TRANSACTION_BYTES + 2) / 3 * 4)) ;;
      match base64_decode s with
      | None => Err Refused
      | Some decoded =>
          allow_if ((Z.of_nat (length decoded) <=? MAX_TRANSACTION_BYTES) && bool_decide (base64_encode decoded = s)) ;;
          Ok decoded
      end
  | _ => Err Refused
  end.

Definition paramsArray (v : option json) : pol (list json) := match v with Some (JArr l) => Ok l | _ => Err Refused end.
Definition count (params : list json) (minimum maximum : Z) : pol unit :=
  allow_if ((minimum <=? Z.of_nat (length params)) && (Z.of_nat (length params) <=? maximum)).

Definition ACCOUNT_CONFIG : list string := ["commitment"; "encoding"; "minContextSlot"].
Definition SIMPLE_CONFIG : list string := ["commitment"; "minContextSlot"].

(** [item[key] !== undefined && item[key] !== 'base64'] refuses. *)
Definition base64_encoding (item : list (js_string * json)) : pol unit :=
  allow_if (optional (fun v => is_text v "base64") (prop item "encoding")).
Definition accountConfig (v : option json) : pol unit :=
  item ← config v ACCOUNT_CONFIG; base64_encoding item.

(** One entry of [validators] per method. *)
Definition validate_simple (params : list json) : pol unit :=
  count params 0 1 ;;
  if Nat.eqb (length params) 0 then Ok tt else config (params !! 0%nat) SIMPLE_CONFIG ;; Ok tt.
Definition validate_getGenesisHash (params : list json) : pol unit :=
  count params 0 1 ;;
  if Nat.eqb (length params) 0 then Ok tt else config (params !! 0%nat) ["commitment"] ;; Ok tt.
Definition validate_getAccountInfo (params : list json) : pol unit :=
  count params 1 2 ;;
  allow_if (match params !! 0%nat with Some v => address v | None => false end) ;;
  if Nat.eqb (length params) 2 then accountConfig (params !! 1%nat) else Ok tt.
Definition validate_getMultipleAccounts (params : list json) : pol unit :=
  count params 1 2 ;;
  allow_if (list_of address MAX_ACCOUNT_LIST (params !! 0%nat)) ;;
  if Nat.eqb (length params) 2 then accountConfig (params !! 1%nat) else Ok tt.
Definition validate_getSignatureStatuses (params : list json) : pol unit :=
  count params 1 2 ;;
  allow_if (list_of (base58_text 64 100) MAX_SIGNATURE_LIST (params !! 0%nat)) ;;
  if Nat.eqb (length params) 2 then
    item ← config (params !! 1%nat) ["searchTransactionHistory"];
    allow_if (optional is_boolean (prop item "searchTransactionHistory"))
  else Ok tt.
Definition validate_getBalance (params : list json) : pol unit :=
  count params 1 2 ;;
  allow_if (match params !! 0%nat with Some v => address v | None => false end) ;;
  optionalConfig params SIMPLE_CONFIG.
Definition validate_getMinimumBalanceForRentExemption (params : list json) : pol unit :=
  count params 1 2 ;;
  allow_if (small_integer 1048576 (params !! 0%nat)) ;;
  optionalConfig params ["commitment"].
Definition validate_getFeeForMessage (params : list json) : pol unit :=
  count params 1 2 ;; base64 (params !! 0%nat) ;; optionalConfig params SIMPLE_CONFIG.
Definition validate_sendTransaction (params : list json) : pol unit :=
  count params 1 2 ;;
  base64 (params !! 0%nat) ;;
  if Nat.eqb (length params) 2 then
    item ← config (params !! 1%nat) ["encoding"; "skipPreflight"; "preflightCommitment"; "maxRetries"; "minContextSlot"];
    base64_encoding item ;;
    allow_if (optional is_boolean (prop item "skipPreflight")) ;;
    allow_if (match prop item "preflightCommitment" with
              | None => true | Some (JStr s) => bool_decide (s ∈ COMMITMENTS) | _ => false end) ;;
    allow_if (optional (small_integer 5) (prop item "maxRetries"))
  else Ok tt.
Definition validate_simulateTransaction (params : list json) : pol unit :=
  count params 1 2 ;;
  base64 (params !! 0%nat) ;;
  if Nat.eqb (length params) 2 then
    item ← config (params !! 1%nat) ["encoding"; "sigVerify"; "replaceRecentBlockhash"; "commitment"; "minContextSlot";
                                     "accounts"; "innerInstructions"];
    base64_encoding item ;;
    allow_if (optional is_boolean (prop item "sigVerify")) ;;
    allow_if (optional is_boolean (prop item "replaceRecentBlockhash")) ;;
    allow_if (negb (is_true (prop item "sigVerify") && is_true (prop item "replaceRecentBlockhash"))) ;;
    allow_if (optional is_boolean (prop item "innerInstructions")) ;;
    match prop item "accounts" with
    | None => Ok tt
    | accounts =>
        fields ← record accounts;
        exactKeys fields ["encoding"; "addresses"] ;;
        allow_if (is_text (prop fields "encoding") "base64") ;;
        allow_if (match prop fields "addresses" with
                  | Some (JArr l) => (Z.of_nat (length l) <=? MAX_ACCOUNT_LIST) && forallb address l
                  | _ => false end)
    end
  else Ok tt.

Definition validators : list (string * (list json -> pol unit)) := [
  ("getGenesisHash", validate_getGenesisHash); ("getAccountInfo", validate_getAccountInfo);
  ("getMultipleAccounts", validate_getMultipleAccounts); ("getLatestBlockhash", validate_simple);
  ("getSignatureStatuses", validate_getSignatureStatuses); ("getBlockHeight", validate_simple);
  ("getBalance", validate_getBalance);
  ("getMinimumBalanceForRentExemption", validate_getMinimumBalanceForRentExemption);
  ("getFeeForMessage", validate_getFeeForMessage); ("sendTransaction", validate_sendTransaction);
  ("simulateTransaction", validate_simulateTransaction); ("getSlot", validate_simple);
  ("getVersion", fun params => count params 0 0)].

(** [Object.hasOwn(validators, method)] and the validator it names. *)
Definition validator_of (method : js_string) : option (string * (list json -> pol unit)) :=
  List.find (fun v => bool_decide (text v.1 = method)) validators.

(** The method and the parameters of an accepted envelope. *)
Definition validateRpcEnvelope (value : json) : pol (js_string * list json) :=
  envelope ← record (Some value);
  exactKeys envelope ["jsonrpc"; "id"; "method"; "params"] ;;
  allow_if (Nat.eqb (length envelope) 4 && is_text (prop envelope "jsonrpc") "2.0") ;;
  allow_if (match prop envelope "id" with
            | Some (JNum (Int z)) => isSafeInteger z
            | Some (JStr s) => (1 <=? len s) && (len s <=? 64)
            | _ => false end) ;;
  match prop envelope "method" with
  | Some (JStr method) =>
      match validator_of method with
      | Some (_, validate) => params ← paramsArray (prop envelope "params"); validate params ;; Ok (method, params)
      | None => Err Refused
      end
  | _ => Err Refused
  end.

(** ** Theorems *)

Definition SEND : js_string := text "sendTransaction".
Definition is_send (call : json) : bool :=
  match call with JObj fields => is_text (prop fields "method") "sendTransaction" | _ => false end.
Definition sends (calls : list json) : Z := Z.of_nat (length (List.filter is_send calls)).
Definition calls_of (value : json) : list json := match value with JArr l => l | _ => [value] end.

Lemma validate_call_Ok call n : validate_call call = Ok n -> n = sends [call].
Proof.
  unfold validate_call. intros (item & Hi & H)%bind_Ok_inv. destruct call; try done. apply Ok_inj in Hi as <-. minv H.
  unfold sends. cbn [List.filter is_send]. 
  match goal with K : (if _ then _ else _) = Ok n |- _ => rename K into Hn end.
  destruct (is_text (prop fields "method") "sendTransaction"); [apply bind_Ok_inv in Hn as (u & _ & [= <-])|apply Ok_inj in Hn as <-]; done.
Qed.

Lemma validateRpc_Ok value n :
  validateRpc (Some value) = Ok n -> n = sends (calls_of value) /\ (1 <= length (calls_of value) <= 10)%nat.
Proof.
  unfold validateRpc. fold (calls_of value). intros (u & Hu%require_Ok_inv & H)%bind_Ok_inv. breflect.
  apply Nat.eqb_neq in H0. split; [|lia]. revert H.
  apply (foldM_inv (E:=HttpError) _ (fun l n => n = sends l)); [done|].
  intros l1 n1 call n2 -> (k & ->%validate_call_Ok & [= <-])%bind_Ok_inv. unfold sends.
  rewrite List.filter_app, length_app. lia.
Qed.

Lemma validateRpcEnvelope_Ok value method params :
  validateRpcEnvelope value = Ok (method, params) ->
  exists fields name validate, value = JObj fields /\ prop fields "method" = Some (JStr method) /\
    prop fields "params" = Some (JArr params) /\ validator_of method = Some (name, validate) /\ validate params = Ok tt.
Proof.
  unfold validateRpcEnvelope. intros (fields & Hf & H)%bind_Ok_inv. destruct value as [| | | | |item]; try done. apply Ok_inj in Hf as <-.
  minv H. destruct (prop item "method") as [[| | |m| |]|] eqn:Hm; try done.
  destruct (validator_of m) as [[name validate]|] eqn:Hv; [|done].
  match goal with K : (_ ← paramsArray _; _) = _ |- _ => apply bind_Ok_inv in K as (ps & Hp & ([] & Hval & [= -> ->])%bind_Ok_inv) end.
  exists item, name, validate. split_and!; try done.
  destruct (prop item "params") as [[]|]; try done. by injection Hp as ->.
Qed.

Lemma sends_one fields method :
  prop fields "method" = Some (JStr method) -> sends [JObj fields] = if bool_decide (method = SEND) then 1 else 0.
Proof. intros Hm. unfold sends, SEND. cbn [List.filter is_send]. rewrite Hm. cbn [is_text]. by case_bool_decide. Qed.

Lemma base64_Ok v tx : base64 v = Ok tx ->
  exists s, v = Some (JStr s) /\ base64_decode s = Some tx /\ base64_encode tx = s /\ Z.of_nat (length tx) <= MAX_TRANSACTION_BYTES.
Proof.
  unfold base64. destruct v as [[| | |s| |]|]; try done. intros (u & _ & H)%bind_Ok_inv.
  destruct (base64_decode s) as [decoded|] eqn:Hd; [|done]. apply bind_Ok_inv in H as (u' & H'%require_Ok_inv & [= ->]).
  breflect. by exists s.
Qed.

Lemma validator_of_SEND : validator_of SEND = Some ("sendTransaction", validate_sendTransaction).
Proof. reflexivity. Qed.

(** C37: what the broker charges is what the sandbox can do: an accepted body
    is charged one mutation for each of its calls that sends a transaction, at
    most ten; of a body that the gateway lets through as well, it is charged
    exactly whether it sends a transaction; and such a transaction is
    canonical base64 of at most 1232 bytes. *)
Theorem rpc_mutations_metered value :
  (forall n, validateRpc (Some value) = Ok n -> n = sends (calls_of value) /\ 0 <= n <= 10) /\
  (forall n method params, validateRpc (Some value) = Ok n -> validateRpcEnvelope value = Ok (method, params) ->
     n = if bool_decide (method = SEND) then 1 else 0) /\
  (forall params, validateRpcEnvelope value = Ok (SEND, params) ->
     exists s tx, params !! 0%nat = Some (JStr s) /\ base64_decode s = Some tx /\ base64_encode tx = s /\
       Z.of_nat (length tx) <= MAX_TRANSACTION_BYTES).
Proof.
  split_and!.
  - intros n [-> Hl]%validateRpc_Ok. split; [done|]. unfold sends.
    pose proof (List.filter_length_le is_send (calls_of value)). lia.
  - intros n method params [-> _]%validateRpc_Ok (fields & _ & _ & -> & Hm & _)%validateRpcEnvelope_Ok. by apply sends_one.
  - intros params (fields & name & validate & _ & _ & _ & Hv & Hval)%validateRpcEnvelope_Ok.
    rewrite validator_of_SEND in Hv. injection Hv as _ <-. unfold validate_sendTransaction in Hval. minv Hval.
    found base64_Ok as (s & H). by exists s, a0.
Qed.

(** [String] turns an array of one text into that text: such a method passes
    the broker's list and none of the checks for the method it names, and is
    not charged.  The gateway refuses it. *)
Definition array_method : json :=
  JObj [(text "jsonrpc", JStr (text "2.0")); (text "id", JNum (Int 1)); (text "method", JArr [JStr SEND]);
        (text "params", JArr [])].
Example rpc_array_method_uncounted :
  validateRpc (Some array_method) = Ok 0 /\ validateRpcEnvelope array_method = Err Refused.
Proof. vm_compute. by split. Qed.

(** A request body that is not an object is answered as a bad gateway. *)
Example rpc_scalar_body_is_502 : validateRpc (Some (JNum (Int 5))) = Err (Http 502).
Proof. reflexivity. Qed.

Definition ex_send : json :=
  JObj [(text "jsonrpc", JStr (text "2.0")); (text "id", JNum (Int 1)); (text "method", JStr SEND);
        (text "params", JArr [JStr (text "AQID"); JObj [(text "encoding", JStr (text "base64"))]])].
Example rpc_mutations_witness :
  1 = sends (calls_of ex_send) /\ exists s tx, base64_decode s = Some tx /\ base64_encode tx = s /\ tx = [1; 2; 3].
Proof.
  destruct (rpc_mutations_metered ex_send) as (H1 & _ & H3).
  split; [apply H1; vm_compute; reflexivity|].
  destruct (H3 [JStr (text "AQID"); JObj [(text "encoding", JStr (text "base64"))]] ltac:(vm_compute; reflexivity))
    as (s & tx & Hs & Hd & He & _).
  exists s, tx. vm_compute in Hs. injection Hs as <-. vm_compute in Hd. injection Hd as <-. split; [reflexivity|]. split; reflexivity.
Defined.
