(* ===== verification/CasStore.v ===== *)
(** * Hosted services: the shared ledger and its atomic updates

    [packages/hosted-broker/src/json-store.ts]: the [JsonCasStore] interface
    (a versioned JSON document with conditional writes) and [mutateJson], the
    retry loop through which every service instance updates a shared ledger.
    The store is an interface: operations and the laws the loop relies on; a
    document in memory implements it, and so does a blob whose creation may be
    reported as refused although it took place, which is what
    [BlobJsonCasStore.create] can answer: when its [put] fails it reads the
    document back and returns [false] if it finds one, its own included.  The
    rest of that adapter, which classifies the failures of an HTTP client, is
    not modelled: a failed request is the nondeterministic step of the system
    below. *)
From S2P Require Import Prelude.
Open Scope Z_scope.

(** [VersionedJson<T>] is a value with its entity tag. *)
Class JsonCasStore (S V : Type) := {
  etag : Type;
  read : S -> option (V * etag);
  create : S -> V -> bool * S;
  compareAndSwap : S -> etag -> V -> bool * S;
}.

(** What the store promises.  A write reports [true] only when it took effect
    on the state the condition names; a conditional write that reports [false]
    changed nothing (it may do so spuriously); a creation that reports [false]
    changed nothing or created the document; a tag never names two values. *)
Class JsonCasStoreLaws (S V : Type) `{JsonCasStore S V} := {
  content : S -> etag -> option V;
  read_content s v e : read s = Some (v, e) -> content s e = Some v;
  create_true s v s' :
    create s v = (true, s') -> read s = None /\ exists e, read s' = Some (v, e);
  create_false s v s' :
    create s v = (false, s') -> read s' = read s \/ read s = None /\ exists e, read s' = Some (v, e);
  cas_true s e v s' :
    compareAndSwap s e v = (true, s') -> (exists v0, read s = Some (v0, e)) /\ exists e', read s' = Some (v, e');
  cas_false s e v s' : compareAndSwap s e v = (false, s') -> read s' = read s;
  create_content s v b s' e v0 : create s v = (b, s') -> content s e = Some v0 -> content s' e = Some v0;
  cas_content s e0 v b s' e v0 : compareAndSwap s e0 v = (b, s') -> content s e = Some v0 -> content s' e = Some v0;
}.

Inductive store_failure (E : Type) :=
  | Thrown (e : E)        (** the mutation rejected the value it was given *)
  | JSON_LEDGER_BUSY      (** every attempt lost the race *)
  | STORE_FAILED.         (** a request to the store failed *)
Arguments Thrown {E} e.
Arguments JSON_LEDGER_BUSY {E}.
Arguments STORE_FAILED {E}.

Section mutate.
Context {S V E : Type} `{JsonCasStore S V} (initial : V).

(** [structuredClone(current?.value ?? initial())] *)
Definition current_value (current : option (V * etag)) : V :=
  match current with Some (v, _) => v | None => initial end.

(** [current ? store.compareAndSwap(...) : store.create(...)] *)
Definition save (current : option (V * etag)) (next : V) (s : S) : bool * S :=
  match current with Some (_, e) => compareAndSwap s e next | None => create s next end.

(** The loop of [mutateJson], run without interference.  The mutation may read
    the clock again on every attempt: it is given the attempts that are left. *)
Fixpoint mutateJson (attempts : nat) (mutate : nat -> V -> result E V) (s : S) : result (store_failure E) V * S :=
  match attempts with
  | O => (Err JSON_LEDGER_BUSY, s)
  | Datatypes.S attempts' =>
      let current := read s in
      match mutate attempts' (current_value current) with
      | Err e => (Err (Thrown e), s)
      | Ok next =>
          let '(saved, s') := save current next s in
          if saved then (Ok next, s') else mutateJson attempts' mutate s'
      end
  end.

(** ** Several callers at once

    Each caller runs the loop above; between its read and its write the others
    may read and write.  A caller is about to read with some attempts left, or
    holds what it read, or is done. *)
Inductive caller :=
  | Reading (attempts : nat)
  | Holding (attempts : nat) (current : option (V * etag))
  | Done (r : result (store_failure E) V).

(** What a write that was reported as refused left in the log: nothing, unless
    it created the document. *)
Definition unreported (s s' : S) (i : nat) (next : V) : list (nat * V) :=
  match read s, read s' with None, Some _ => [(i, next)] | _, _ => [] end.

Record system := System {
  sys_store : S;
  sys_callers : list caller;
  sys_log : list (nat * V);   (** the writes that took effect: caller and value *)
}.

(** What caller [i] wants to do, with [n] attempts left. *)
Context (mutation : nat -> nat -> V -> result E V).

Inductive step : system -> system -> Prop :=
  | step_read s cs log i n :
      cs !! i = Some (Reading (Datatypes.S n)) ->
      step (System s cs log) (System s (<[i := Holding n (read s)]> cs) log)
  | step_busy s cs log i :
      cs !! i = Some (Reading 0) ->
      step (System s cs log) (System s (<[i := Done (Err JSON_LEDGER_BUSY)]> cs) log)
  | step_thrown s cs log i n current e :
      cs !! i = Some (Holding n current) -> mutation i n (current_value current) = Err e ->
      step (System s cs log) (System s (<[i := Done (Err (Thrown e))]> cs) log)
  | step_saved s cs log i n current next s' :
      cs !! i = Some (Holding n current) -> mutation i n (current_value current) = Ok next ->
      save current next s = (true, s') ->
      step (System s cs log) (System s' (<[i := Done (Ok next)]> cs) (log ++ [(i, next)]))
  | step_retry s cs log i n current next s' :
      cs !! i = Some (Holding n current) -> mutation i n (current_value current) = Ok next ->
      save current next s = (false, s') ->
      step (System s cs log) (System s' (<[i := Reading n]> cs) (log ++ unreported s s' i next))
  | step_reply_lost s cs log i n current next s' :
      (* the write took effect but the request failed *)
      cs !! i = Some (Holding n current) -> mutation i n (current_value current) = Ok next ->
      save current next s = (true, s') ->
      step (System s cs log) (System s' (<[i := Done (Err STORE_FAILED)]> cs) (log ++ [(i, next)]))
  | step_request_failed s cs log i c :
      (* a read or a write failed without effect *)
      cs !! i = Some c -> (forall r, c <> Done r) ->
      step (System s cs log) (System s (<[i := Done (Err STORE_FAILED)]> cs) log).

(** The value of the document. *)
Definition value_of (s : S) : V := current_value (read s).

(** The log replayed from the first value: each entry applies its caller's
    mutation to the value the previous entry left. *)
Fixpoint replays (v : V) (log : list (nat * V)) (last : V) : Prop :=
  match log with
  | [] => last = v
  | (i, next) :: rest => (exists n, mutation i n v = Ok next) /\ replays next rest last
  end.
End mutate.

(** ** A document in memory *)

(** The values written so far; a tag is the number of writes after which the
    value was current. *)
Record document (V : Type) := Document { history : list V }.
Arguments Document {V}.
Arguments history {V}.

#[export] Instance document_store V : JsonCasStore (document V) V := {
  etag := nat;
  read d := match last (history d) with Some v => Some (v, length (history d)) | None => None end;
  create d v := match history d with [] => (true, Document [v]) | _ => (false, d) end;
  compareAndSwap d e v :=
    match history d with
    | [] => (false, d)
    | _ => if Nat.eqb e (length (history d)) then (true, Document (history d ++ [v])) else (false, d)
    end;
}.

Lemma read_written V (h : list V) v : read (Document (h ++ [v])) = Some (v, length (h ++ [v])).
Proof. unfold read. cbn. by rewrite last_snoc. Qed.

#[export] Instance document_laws V : JsonCasStoreLaws (document V) V.
Proof.
  refine (@Build_JsonCasStoreLaws _ _ (document_store V) (fun d (e : nat) => history d !! (pred e)) _ _ _ _ _ _ _).
  all: cbn; intros [h]; cbn.
  - intros v e. rewrite last_lookup. destruct (h !! pred (length h)) eqn:E; [|done]. by intros [= -> <-].
  - intros v s'. destruct h as [|x h]; [|done]. intros [= <-]. split; [done|]. by exists 1%nat.
  - intros v s'. destruct h as [|x h]; [done|]. intros [= <-]. by left.
  - intros e v s'. destruct h as [|x h]; [done|]. destruct (Nat.eqb e _) eqn:E; [|done]. intros [= <-].
    apply Nat.eqb_eq in E. split.
    + destruct (last (x :: h)) as [v0|] eqn:El; [exists v0; by rewrite E|by apply last_None in El].
    + change (exists e', read (Document ((x :: h) ++ [v])) = Some (v, e')). rewrite read_written. eauto.
  - intros e v s'. destruct h as [|x h]; [by intros [= <-]|]. destruct (Nat.eqb e _); [done|]. by intros [= <-].
  - intros v b s' e v0. destruct h as [|x h]; intros [= <- <-]; [done|done].
  - intros e0 v b s' e v0. destruct h as [|x h]; [by intros [= <- <-]|].
    destruct (Nat.eqb e0 _); intros [= <- <-]; [|done]. cbn. intros Hl. by apply (lookup_app_l_Some (x :: h)).
Qed.

(** A document in memory never refuses a write spuriously. *)
Lemma document_save V (d : document V) (v : V) :
  exists d', save (read d) v d = (true, d') /\ read d' <> None.
Proof.
  destruct d as [h]. unfold save. cbn. destruct (last h) as [x|] eqn:El.
  - destruct h as [|y h]; [done|]. rewrite Nat.eqb_refl. eexists. split; [done|].
    change (read (Document ((y :: h) ++ [v])) <> None). by rewrite read_written.
  - apply last_None in El as ->. by eexists.
Qed.

(** ** A blob whose creation may be answered as refused

    The put of [create] reaches the store and its reply is lost: the read that
    reconciles the failure finds the document. *)
Record blob (V : Type) := Blob { written : document V; reply_lost : bool }.
Arguments Blob {V}.
Arguments written {V}.
Arguments reply_lost {V}.

#[export] Instance blob_store V : JsonCasStore (blob V) V := {
  etag := etag (S:=document V);
  read b := read (written b);
  create b v :=
    let '(created, d) := create (written b) v in
    (created && negb (reply_lost b), Blob d false);
  compareAndSwap b e v :=
    let '(saved, d) := compareAndSwap (written b) e v in (saved, Blob d (reply_lost b));
}.

#[export] Instance blob_laws V : JsonCasStoreLaws (blob V) V.
Proof.
  refine (@Build_JsonCasStoreLaws _ _ (blob_store V) (fun b e => content (written b) e) _ _ _ _ _ _ _).
  all: intros [d lost]; cbn [read create compareAndSwap blob_store written reply_lost etag].
  - apply read_content.
  - intros v s'. destruct (create d v) as [[] d1] eqn:E, lost; intros [= <-]. by apply create_true in E.
  - intros v s'. destruct (create d v) as [[] d1] eqn:E; [destruct lost|]; intros [= <-]; cbn [written].
    + right. by apply create_true in E.
    + by apply create_false in E.
  - intros e v s'. destruct (compareAndSwap d e v) as [[] d1] eqn:E; intros [= <-]. by apply cas_true in E.
  - intros e v s'. destruct (compareAndSwap d e v) as [[] d1] eqn:E; intros [= <-]. by apply cas_false in E.
  - intros v b s' e v0. destruct (create d v) as [c d1] eqn:E. intros [= <- <-]. by eapply create_content.
  - intros e0 v b s' e v0. destruct (compareAndSwap d e0 v) as [c d1] eqn:E. intros [= <- <-]. by eapply cas_content.
Qed.

(** ** Laws *)

Section linearizable.
Context {S V E : Type} `{JsonCasStoreLaws S V} (initial : V) (mutation : nat -> nat -> V -> result E V).
Abbreviation value := (value_of initial).

(** The writes of a run that started from [s0] whose callers were told that
    they took effect or that the outcome is unknown: all of them, but for the
    write that created the document, whose caller may have been told that it
    was refused. *)
Definition reported (s0 : S) (log : list (nat * V)) : list (nat * V) :=
  match read s0 with Some _ => log | None => tail log end.

(** Caller [i] has committed a value. *)
Definition committed (log : list (nat * V)) (i : nat) : Prop := exists v, In (i, v) log.

(** What is known of a caller in a run that started from [s0]. *)
Definition caller_ok (s0 s : S) (log : list (nat * V)) (i : nat) (c : caller (S:=S) (V:=V) (E:=E)) : Prop :=
  match c with
  | Reading _ => ~ committed (reported s0 log) i
  | Holding _ (Some (v, e)) => ~ committed (reported s0 log) i /\ content s e = Some v
  | Holding _ None => ~ committed (reported s0 log) i
  | Done (Ok v) => In (i, v) log
  | Done (Err STORE_FAILED) => True
  | Done (Err _) => ~ committed (reported s0 log) i
  end.

(** The document is absent exactly as long as nobody has written it. *)
Definition absence_ok (s0 s : S) (log : list (nat * V)) : Prop :=
  read s = None <-> read s0 = None /\ log = [].

Definition system_ok (s0 : S) (x : system (S:=S) (V:=V) (E:=E)) : Prop :=
  replays mutation (value s0) (sys_log x) (value (sys_store x)) /\ NoDup ((reported s0 (sys_log x)).*1) /\
  absence_ok s0 (sys_store x) (sys_log x) /\
  (forall i v, In (i, v) (reported s0 (sys_log x)) -> exists r, sys_callers x !! i = Some (Done r)) /\
  (forall i c, sys_callers x !! i = Some c -> caller_ok s0 (sys_store x) (sys_log x) i c).

Lemma replays_snoc v log last i next :
  replays mutation v log last -> (exists n, mutation i n last = Ok next) -> replays mutation v (log ++ [(i, next)]) next.
Proof.
  revert v. induction log as [|[j w] log IH]; intros v; simpl.
  - by intros -> ?.
  - intros [Hj Hr] Hi. split; [done|]. by apply IH.
Qed.

(** A write that took effect applied the mutation to the current value. *)
Lemma save_true (s : S) current next s' :
  save current next s = (true, s') ->
  match current with Some (v, e) => content s e = Some v | None => True end ->
  value s = current_value initial current /\ value s' = next /\ read s' <> None.
Proof.
  unfold save, value_of. destruct current as [[v e]|]; intros Hs Hc.
  - apply cas_true in Hs as ((v0 & Hr) & e' & Hr'). rewrite Hr, Hr'. split; [|done].
    apply read_content in Hr. cbn. congruence.
  - apply create_true in Hs as (Hr & e' & Hr'). by rewrite Hr, Hr'.
Qed.

Lemma save_content (s : S) current next b s' e v :
  save current next s = (b, s') -> content s e = Some v -> content s' e = Some v.
Proof. unfold save. destruct current as [[w f]|]; [apply cas_content|apply create_content]. Qed.

(** A write that was refused did nothing, or created the document. *)
Lemma save_false (s : S) current next s' :
  save current next s = (false, s') ->
  read s' = read s \/ current = None /\ read s = None /\ exists e, read s' = Some (next, e).
Proof.
  unfold save. destruct current as [[w f]|]; intros Hs; [apply cas_false in Hs|apply create_false in Hs]; tauto.
Qed.

Lemma reported_snoc s0 log x :
  reported s0 (log ++ [x]) =
    match read s0, log with None, [] => [] | _, _ => reported s0 log ++ [x] end.
Proof. unfold reported. destruct (read s0), log; done. Qed.

Lemma reported_snoc_In s0 log x y : In y (reported s0 (log ++ [x])) -> In y (reported s0 log) \/ y = x.
Proof.
  rewrite reported_snoc. destruct (read s0), log; rewrite ?in_app_iff; cbn [In]; try done.
  all: intros [?|[->|[]]]; auto.
Qed.

Lemma reported_In s0 log y : In y (reported s0 log) -> In y log.
Proof. unfold reported. destruct (read s0); [done|]. destruct log; [done|]. by right. Qed.

Lemma caller_ok_weaken s0 s s' log log' i (c : caller (S:=S) (V:=V) (E:=E)) :
  (forall e v, content s e = Some v -> content s' e = Some v) ->
  (forall v, In (i, v) log -> In (i, v) log') ->
  (forall v, In (i, v) (reported s0 log') -> In (i, v) (reported s0 log)) ->
  caller_ok s0 s log i c -> caller_ok s0 s' log' i c.
Proof.
  intros Hc Hl Hl'. assert (committed (reported s0 log') i -> committed (reported s0 log) i) as Hco
    by (intros [v Hv]; exists v; auto).
  destruct c as [n|n [[v e]|]|[v|[]]]; cbn; auto. intros []. auto.
Qed.

Abbreviation sys := (system (S:=S) (V:=V) (E:=E)).

(** A step that changes neither the log nor the document. *)
Lemma system_ok_quiet s0 s s' cs log i (c c' : caller (S:=S) (V:=V) (E:=E)) :
  system_ok s0 (System s cs log) -> cs !! i = Some c -> (forall r, c <> Done r) ->
  read s' = read s -> (forall e v, content s e = Some v -> content s' e = Some v) ->
  caller_ok s0 s' log i c' -> system_ok s0 (System s' (<[i := c']> cs) log).
Proof.
  intros (Hr & Hnd & Hab & Hd & Hc) Hi Hn Hv Hct Hc'. unfold system_ok, absence_ok, value_of in *. cbn in *.
  rewrite Hv. split_and!; [done..| |].
  - intros j v Hin. destruct (Hd j v Hin) as [r Hj]. exists r. rewrite list_lookup_insert_ne; [done|]. intros ->. congruence.
  - intros j d. destruct (decide (i = j)) as [->|Hne].
    + rewrite list_lookup_insert_eq by (by eapply lookup_lt_Some). by intros [= <-].
    + rewrite list_lookup_insert_ne by done. intros Hj. eapply caller_ok_weaken; [exact Hct|done|done|by apply Hc].
Qed.

Lemma holding_uncommitted s0 s log i n current :
  caller_ok s0 s log i (Holding n current) ->
  ~ committed (reported s0 log) i /\ match current with Some (v, e) => content s e = Some v | None => True end.
Proof. by destruct current as [[v e]|]. Qed.

(** A step that commits. *)
Lemma system_ok_commit s0 s s' cs log i n current next c' :
  system_ok s0 (System s cs log) -> cs !! i = Some (Holding n current) -> (exists k, mutation i k (value s) = Ok next) ->
  value s' = next -> read s' <> None -> (forall e v, content s e = Some v -> content s' e = Some v) ->
  (c' = Done (Ok next) \/ c' = Done (Err STORE_FAILED) \/
   reported s0 (log ++ [(i, next)]) = [] /\ exists n, c' = Reading n) ->
  system_ok s0 (System s' (<[i := c']> cs) (log ++ [(i, next)])).
Proof.
  intros (Hr & Hnd & Hab & Hd & Hc) Hi Hm Hv Hex Hct Hres. cbn in *.
  destruct (holding_uncommitted _ _ _ _ _ _ (Hc _ _ Hi)) as [Hun _].
  split_and!; cbn.
  - rewrite Hv. by eapply replays_snoc.
  - rewrite reported_snoc. destruct (read s0) eqn:E0, log eqn:El; try constructor.
    all: rewrite fmap_app; apply NoDup_app; split; [done|]; split; [|apply NoDup_singleton].
    all: intros j Hj Hj1%list_elem_of_singleton; cbn in Hj1; subst j; apply Hun; apply list_elem_of_fmap in Hj as ([k v] & -> & Hk).
    all: exists v; by apply list_elem_of_In.
  - unfold absence_ok. split; [done|]. intros [_ ?%app_eq_nil]. by destruct_and?.
  - intros j v Hin. destruct Hres as [Hres|[Hres|[Hnil _]]]; [| |by rewrite Hnil in Hin].
    all: subst c'; destruct (decide (i = j)) as [->|Hne];
      [rewrite list_lookup_insert_eq by (by eapply lookup_lt_Some); by eexists|rewrite list_lookup_insert_ne by done].
    all: apply reported_snoc_In in Hin as [?|[= ? ?]]; [by eapply Hd|congruence].
  - intros j d. destruct (decide (i = j)) as [->|Hne].
    + rewrite list_lookup_insert_eq by (by eapply lookup_lt_Some). intros [= <-].
      destruct Hres as [-> |[-> | (Hnil & k & ->)]]; cbn; [apply in_or_app; right; by left|done|].
      rewrite Hnil. intros [v []].
    + rewrite list_lookup_insert_ne by done. intros Hj. eapply caller_ok_weaken; [done| | |by apply Hc].
      * intros v Hin. apply in_or_app. by left.
      * intros v [?|[= ? _]]%reported_snoc_In; [done|congruence].
Qed.

Lemma step_ok s0 (x y : sys) : step initial mutation x y -> system_ok s0 x -> system_ok s0 y.
Proof.
  intros Hstep Hok. pose proof Hok as (_ & _ & Hab & _ & Hc). unfold absence_ok in Hab. destruct Hstep; cbn in Hc, Hab.
  all: match goal with H : _ !! _ = Some _ |- _ => pose proof (Hc _ _ H) as Hci end.
  - eapply system_ok_quiet; eauto. unfold caller_ok in *. destruct (read s) as [[v e]|] eqn:Hr; [|done].
    split; [done|by apply read_content].
  - eapply system_ok_quiet; eauto.
  - eapply system_ok_quiet; eauto. by apply holding_uncommitted in Hci as [].
  - destruct (save_true _ _ _ _ H3 (proj2 (holding_uncommitted _ _ _ _ _ _ Hci))) as (Hv & Hv' & Hex).
    eapply system_ok_commit; eauto; [by rewrite Hv; eauto|intros e v; by eapply save_content].
  - destruct (save_false _ _ _ _ H3) as [Hsame|(-> & Hnone & e & Hnow)]; unfold unreported.
    + rewrite Hsame. replace (match read s with None => _ | _ => _ end) with ([] : list (nat * V)) by (by destruct (read s)).
      rewrite app_nil_r. eapply system_ok_quiet; eauto; [|by apply holding_uncommitted in Hci as []].
      intros e v. by eapply save_content.
    + rewrite Hnone, Hnow. destruct Hab as [Hab _]. destruct (Hab Hnone) as [Hs0 ->].
      eapply system_ok_commit; eauto; [|by unfold value_of; rewrite Hnow|by rewrite Hnow| |].
      * exists n. unfold value_of. by rewrite Hnone.
      * intros e' v. by eapply save_content.
      * right. right. split; [|by eexists]. rewrite reported_snoc. by rewrite Hs0.
  - destruct (save_true _ _ _ _ H3 (proj2 (holding_uncommitted _ _ _ _ _ _ Hci))) as (Hv & Hv' & Hex).
    eapply system_ok_commit; eauto; [by rewrite Hv; eauto|intros e v; by eapply save_content].
  - eapply system_ok_quiet; eauto. done.
Qed.

Definition started (s : S) (attempts : list nat) : sys := System s (Reading <$> attempts) [].

Lemma system_reachable_ok s attempts x :
  rtc (step initial mutation) (started s attempts) x -> system_ok s x.
Proof.
  intros Hr. enough (forall y, rtc (step initial mutation) y x -> system_ok s y -> system_ok s x) as H'.
  { eapply H'; [exact Hr|]. unfold started, system_ok, absence_ok, reported. cbn.
    destruct (read s) eqn:Es; cbn; (split_and!; [done|constructor|by split; [intros|intros []]|done|]).
    all: intros i c Hi; rewrite list_lookup_fmap in Hi; destruct (attempts !! i); [|done].
    all: injection Hi as <-; cbn; unfold reported; rewrite Es; intros [v []]. }
  intros y Hy. induction Hy; eauto using step_ok.
Qed.

(** A property every mutation preserves holds of the document in every
    interleaving. *)
Lemma reachable_invariant (P : V -> Prop) s attempts x :
  (forall i n v v', mutation i n v = Ok v' -> P v -> P v') -> P (value s) ->
  rtc (step initial mutation) (started s attempts) x -> P (value (sys_store x)).
Proof.
  intros Hp Hv0 Hr. destruct (system_reachable_ok _ _ _ Hr) as (Hrep & _). revert Hv0 Hrep. generalize (value s).
  induction (sys_log x) as [|[i w] log IH]; intros v Hv; simpl; [by intros ->|].
  intros [[n Hi] Hl]. eapply IH; [|exact Hl]. by eapply Hp.
Qed.

(** A step leaves the value and the log alone or commits one mutation. *)
Lemma step_log s0 (x y : sys) :
  step initial mutation x y -> system_ok s0 x ->
  value (sys_store y) = value (sys_store x) /\ sys_log y = sys_log x \/
  exists i n, mutation i n (value (sys_store x)) = Ok (value (sys_store y)) /\
    sys_log y = sys_log x ++ [(i, value (sys_store y))].
Proof.
  intros Hstep (_ & _ & _ & _ & Hc). destruct Hstep; cbn in *; auto.
  all: match goal with H : _ !! _ = Some _ |- _ => apply Hc, holding_uncommitted in H as [_ Hct] end.
  - right. exists i, n. destruct (save_true _ _ _ _ H3 Hct) as (-> & -> & _). done.
  - destruct (save_false _ _ _ _ H3) as [Hsame|(-> & Hnone & e & Hnow)]; unfold unreported, value_of.
    + left. rewrite Hsame. split; [done|]. destruct (read s); apply app_nil_r.
    + right. exists i, n. rewrite Hnone, Hnow. done.
  - right. exists i, n. destruct (save_true _ _ _ _ H3 Hct) as (-> & -> & _). done.
Qed.

(** Two moments of a run are related by what every mutation respects. *)
Lemma reachable_related (P : V -> Prop) (R : relation V) `{!PreOrder R} s attempts x y :
  (forall i n v v', mutation i n v = Ok v' -> P v -> P v' /\ R v v') -> P (value s) ->
  rtc (step initial mutation) (started s attempts) x -> rtc (step initial mutation) x y ->
  P (value (sys_store x)) /\ R (value (sys_store x)) (value (sys_store y)).
Proof.
  intros Hp Hv0 Hx Hy. assert (P (value (sys_store x))) as Px.
  { eapply reachable_invariant; [|exact Hv0|exact Hx]. intros i n v v' Hm Hv. by eapply Hp. }
  split; [done|]. apply system_reachable_ok in Hx. revert Px Hx. induction Hy as [x|x z y Hxz Hzy IH]; intros Px Hx; [done|].
  assert (P (value (sys_store z)) /\ R (value (sys_store x)) (value (sys_store z))) as [Pz Rz].
  { destruct (step_log _ _ _ Hxz Hx) as [[-> _]|(i & n & Hi & _)]; [done|]. by eapply Hp. }
  etrans; [exact Rz|]. apply IH; [done|]. by eapply step_ok.
Qed.

(** ** Guarantees *)

(** C15: updates of a shared document are linearizable: however the reads and
    conditional writes of any number of callers interleave, and even when
    replies are lost, the document is the result of the committed mutations
    applied one after another; a caller that was told its new value committed
    exactly that value, and one whose mutation was rejected, or that gave up,
    changed nothing; and no caller commits twice.  The last two have one
    exception, which the code does not exclude: the write that creates the
    document may be answered as refused, so that its caller applies its
    mutation again, or reports a failure, although it took effect.  When the
    document exists at the start there is no exception ([reported]). *)
Theorem updates_linearizable s attempts x :
  rtc (step initial mutation) (started s attempts) x ->
  replays mutation (value s) (sys_log x) (value (sys_store x)) /\ NoDup ((reported s (sys_log x)).*1) /\
  forall i r, sys_callers x !! i = Some (Done r) ->
    match r with
    | Ok v => In (i, v) (sys_log x)
    | Err STORE_FAILED => True
    | Err _ => forall v, ~ In (i, v) (reported s (sys_log x))
    end.
Proof.
  intros Hr. destruct (system_reachable_ok _ _ _ Hr) as (H1 & H2 & _ & _ & Hc). split; [done|]. split; [done|].
  intros i r Hi. specialize (Hc _ _ Hi). destruct r as [v|[e| |]]; cbn in Hc; try done; intros v Hin; apply Hc; by exists v.
Qed.
End linearizable.

(** The loop alone: when a write succeeds the value left is the mutation of
    the value found, or of the mutated value if creating the document was
    reported as refused; otherwise the value found is left, but for such a
    creation. *)
Lemma mutateJson_spec {S V E} `{JsonCasStoreLaws S V} (initial : V) attempts (mutate : nat -> V -> result E V) s r s' :
  mutateJson initial attempts mutate s = (r, s') ->
  exists v, (v = value_of initial s \/ read s = None /\ exists n, mutate n (value_of initial s) = Ok v) /\
  match r with
  | Ok next => (exists n, mutate n v = Ok next) /\ value_of initial s' = next
  | Err (Thrown e) => (exists n, mutate n v = Err e) /\ value_of initial s' = v
  | Err _ => value_of initial s' = v
  end.
Proof.
  revert s. induction attempts as [|n IH]; intros s; cbn [mutateJson]; [intros [= <- <-]; by eauto|].
  change (current_value initial (read s)) with (value_of initial s).
  destruct (mutate n (value_of initial s)) as [next|e] eqn:Hm; [|intros [= <- <-]; by eauto 10].
  destruct (save (read s) next s) as [[] s1] eqn:Hs.
  - intros [= <- <-]. exists (value_of initial s). split; [by left|]. split; [by exists n|].
    eapply (save_true initial) in Hs as (_ & ? & _); [done|].
    destruct (read s) as [[v e]|] eqn:Hr; [|done]. by apply read_content.
  - intros (v & Hv & Hrun)%IH. destruct (save_false _ _ _ _ Hs) as [Hsame|(_ & Hnone & e & Hnow)].
    + unfold value_of in Hv. rewrite Hsame in Hv. exists v. split; [exact Hv|done].
    + exists next. assert (v = next) as -> by (unfold value_of in Hv; rewrite Hnow in Hv; destruct Hv as [?|[? _]]; done).
      split; [right; by eauto|done].
Qed.

(** In memory one attempt is enough. *)
Lemma mutateJson_document {V E} (initial : V) n (mutate : nat -> V -> result E V) (d : document V) :
  exists d', mutateJson initial (S n) mutate d =
    (match mutate n (value_of initial d) with Ok next => Ok next | Err e => Err (Thrown e) end, d').
Proof.
  cbn [mutateJson]. change (current_value initial (read d)) with (value_of initial d).
  destruct (mutate n _) as [next|e]; [|by eexists].
  destruct (document_save V d next) as (d' & -> & _). by eexists.
Qed.

(** ** Witness: two increments whose first writes race *)

Definition ex_mutation (_ _ : nat) (v : Z) : result unit Z := Ok (v + 1).
Example linearizable_witness :
  exists x : system (S:=document Z) (V:=Z) (E:=unit),
    value_of 0 (sys_store x) = 2 /\ sys_callers x = [Done (Ok 1); Done (Ok 2)] /\
    replays ex_mutation 0 (sys_log x) 2.
Proof.
  assert (rtc (step 0 ex_mutation) (started (S:=document Z) (E:=unit) (Document []) [5%nat; 5%nat])
    (System (Document [1; 2]) [Done (Ok 1); Done (Ok 2)] [(0%nat, 1); (1%nat, 2)])) as Hr.
  { eapply rtc_l; [apply (step_read _ _ _ _ _ 0 4); reflexivity|].
    eapply rtc_l; [apply (step_read _ _ _ _ _ 1 4); reflexivity|].
    eapply rtc_l; [eapply (step_saved _ _ _ _ _ 0); reflexivity|].
    eapply rtc_l; [eapply (step_retry _ _ _ _ _ 1); reflexivity|].
    eapply rtc_l; [apply (step_read _ _ _ _ _ 1 3); reflexivity|].
    eapply rtc_l; [eapply (step_saved _ _ _ _ _ 1); reflexivity|]. reflexivity. }
  exists (System (Document [1; 2]) [Done (Ok 1); Done (Ok 2)] [(0%nat, 1); (1%nat, 2)]).
  split; [reflexivity|]. split; [reflexivity|].
  exact (proj1 (updates_linearizable 0 ex_mutation _ _ _ Hr)).
Defined.

(** The exception is real: one caller, whose creation of the document is
    answered as refused, increments twice. *)
Example created_twice :
  mutateJson 0 5 (ex_mutation 0) (Blob (Document []) true) = (Ok 2, Blob (Document [1; 2]) false).
Proof. vm_compute. reflexivity. Qed.
Example created_twice_run :
  rtc (step 0 ex_mutation) (started (S:=blob Z) (E:=unit) (Blob (Document []) true) [5%nat])
    (System (Blob (Document [1; 2]) false) [Done (Ok 2)] [(0%nat, 1); (0%nat, 2)]).
Proof.
  eapply rtc_l; [apply (step_read _ _ _ _ _ 0 4); reflexivity|].
  eapply rtc_l; [eapply (step_retry _ _ _ _ _ 0); reflexivity|].
  eapply rtc_l; [apply (step_read _ _ _ _ _ 0 3); reflexivity|].
  eapply rtc_l; [eapply (step_saved _ _ _ _ _ 0); reflexivity|]. reflexivity.
Qed.
