(* ===== verification/Programs.v ===== *)
(** * Programs over events, alone and concurrent

    An [async] method of a service talks to a store, a chain, a provider and a
    clock; between two of these calls other requests make theirs.  Such a
    method is a tree of events: what it asks, and how it continues with the
    answer.  This file has the trees, their [throw] and [catch], a weakest
    precondition whose assertions survive what others do, and the systems in
    which any number of programs run interleaved. *)
From S2P Require Import Prelude.

Inductive prog (event : Type) (answer : event -> Type) (A : Type) : Type :=
  | Pure (a : A)
  | Vis (e : event) (k : answer e -> prog event answer A).
Arguments Pure {event answer A} a.
Arguments Vis {event answer A} e k.

Section programs.
Context {event : Type} {answer : event -> Type}.
Abbreviation P := (prog event answer).

Fixpoint bind {A B} (p : P A) (f : A -> P B) : P B :=
  match p with Pure a => f a | Vis e k => Vis e (fun x => bind (k x) f) end.

(** ** A program alone, under a handler *)

Fixpoint run {W A} (handler : forall e, W -> answer e * W) (p : P A) (w : W) : A * W :=
  match p with
  | Pure a => (a, w)
  | Vis e k => let '(x, w') := handler e w in run handler (k x) w'
  end.

Lemma run_bind {W A B} (handler : forall e, W -> answer e * W) (p : P A) (f : A -> P B) w :
  run handler (bind p f) w = let '(a, w') := run handler p w in run handler (f a) w'.
Proof. revert w. induction p as [a|e k IH]; intros w; simpl; [done|]. destruct (handler e w). apply IH. Qed.

(** ** A program alone, whatever is answered

    The trace of a run: what was asked, and the answers. *)

Definition trace := list {e : event & answer e}.
Fixpoint always {A} (p : P A) (Q : A -> trace -> Prop) (t : trace) : Prop :=
  match p with Pure a => Q a t | Vis e k => forall x, always (k x) Q (t ++ [existT e x]) end.
(** A handler that keeps the trace. *)
Definition traced {W} (handler : forall e, W -> answer e * W) : forall e, trace * W -> answer e * (trace * W) :=
  fun e w => let '(x, w') := handler e w.2 in (x, (w.1 ++ [existT e x], w')).

Lemma always_run {W A} (handler : forall e, W -> answer e * W) (p : P A) (Q : A -> trace -> Prop) w t :
  always p Q t -> Q (run (traced handler) p (t, w)).1 (run (traced handler) p (t, w)).2.1.
Proof.
  revert t w. induction p as [a|e k IH]; intros t w H; simpl; [done|]. unfold traced at 1 3; cbn.
  destruct (handler e w) as [x w']. by apply IH.
Qed.
Lemma always_bind {A B} (p : P A) (f : A -> P B) (Q : B -> trace -> Prop) t :
  always p (fun a t' => always (f a) Q t') t -> always (bind p f) Q t.
Proof. revert t. induction p as [a|e k IH]; simpl; [done|]. auto. Qed.
Lemma always_mono {A} (p : P A) (Q Q' : A -> trace -> Prop) t :
  (forall a t', t `prefix_of` t' -> Q a t' -> Q' a t') -> always p Q t -> always p Q' t.
Proof.
  revert t. induction p as [a|e k IH]; simpl; intros t HQ H; [by apply HQ|]. intros x. apply IH; [|done].
  intros a t' Ht. apply HQ. etrans; [|exact Ht]. by eexists.
Qed.

Lemma always_and {A} (p : P A) (Q R : A -> trace -> Prop) t : always p Q t -> always p R t -> always p (fun a t' => Q a t' /\ R a t') t.
Proof. revert t. induction p as [a|e k IH]; simpl; auto. Qed.

(** ** Weakest preconditions

    [good] holds of the world before and after every event; [later] relates
    two moments of a run.  A program asserts something of the world at one
    moment and acts at a later one, so the precondition of an event is
    required in every later good world. *)
Section wp.
Context {W : Type} (later : relation W) `{!PreOrder later} (good : W -> Prop).
Context (occurs : nat -> forall e, W -> answer e -> W -> Prop) (allowed : event -> W -> Prop).

Fixpoint wp {A} (p : P A) (Q : A -> W -> Prop) (w : W) : Prop :=
  match p with
  | Pure a => forall w', later w w' -> good w' -> Q a w'
  | Vis e k => forall w', later w w' -> good w' -> allowed e w' /\
                 forall i x w'', occurs i e w' x w'' -> later w' w'' -> good w'' -> wp (k x) Q w''
  end.

Lemma wp_later {A} (p : P A) Q w : (forall w', later w w' -> good w' -> wp p Q w') -> wp p Q w.
Proof. destruct p; intros H w' Hl Hg; by apply (H w'). Qed.

Lemma wp_mono {A} (p : P A) Q w w' : wp p Q w -> later w w' -> wp p Q w'.
Proof. destruct p; intros H Hl w'' Hl' Hg; apply H; [by etrans|done|by etrans|done]. Qed.

Lemma wp_bind {A B} (p : P A) (f : A -> P B) Q w :
  wp p (fun a => wp (f a) Q) w -> wp (bind p f) Q w.
Proof.
  revert w. induction p as [a|e k IH]; intros w; simpl.
  - intros H. by apply wp_later.
  - intros H w' Hl Hg. destruct (H w' Hl Hg) as [Ha Hk]. split; [done|].
    intros i x w'' Ho Hl' Hg'. apply IH. by eapply Hk.
Qed.

Lemma wp_weaken {A} (p : P A) (Q R : A -> W -> Prop) w :
  (forall a w', later w w' -> good w' -> Q a w' -> R a w') -> wp p Q w -> wp p R w.
Proof.
  revert w. induction p as [a|e k IH]; intros w HQ; simpl.
  - intros H w' Hl Hg. apply HQ; auto.
  - intros H w' Hl Hg. destruct (H w' Hl Hg) as [Ha Hk]. split; [done|].
    intros i x w'' Ho Hl' Hg'. apply IH; [|by eapply Hk].
    intros a v Hv. apply HQ. by do 2 (etrans; [eassumption|]).
Qed.

(** ** Programs run concurrently

    A thread belongs to an actor (an instance of the service) and runs one
    program; a new thread may start at any time, and a thread may stop being
    scheduled for ever (a crash). *)
Context {R : Type} (starts : P R -> Prop) (post : R -> W -> Prop).
Record threads := Threads { th_world : W; th_threads : list (nat * P R) }.

Inductive thread_step : threads -> threads -> Prop :=
  | thread_start w ts i p : starts p -> thread_step (Threads w ts) (Threads w (ts ++ [(i, p)]))
  | thread_event w ts j i e k x w' :
      ts !! j = Some (i, Vis e k) -> occurs i e w x w' ->
      thread_step (Threads w ts) (Threads w' (<[j := (i, k x)]> ts)).

Context (occurs_good : forall i e w x w', allowed e w -> good w -> occurs i e w x w' -> good w' /\ later w w').
Context (starts_ok : forall p w, starts p -> good w -> wp p post w).

Definition threads_ok (s : threads) : Prop :=
  good (th_world s) /\ Forall (fun t : nat * P R => wp t.2 post (th_world s)) (th_threads s).

Lemma thread_step_ok s s' : thread_step s s' -> threads_ok s -> threads_ok s' /\ later (th_world s) (th_world s').
Proof.
  intros [w ts i p Hp|w ts j i e k x w' Hj Ho] [Hg Hts]; cbn in *.
  - split; [|done]. split; [done|]. apply Forall_app. split; [done|]. apply Forall_singleton. by apply starts_ok.
  - pose proof (Forall_lookup_1 _ _ _ _ Hts Hj) as Hwp. cbn in Hwp.
    destruct (Hwp w (reflexivity w) Hg) as [Ha Hk]. destruct (occurs_good _ _ _ _ _ Ha Hg Ho) as [Hg' Hl].
    split; [|done]. split; [done|]. apply Forall_insert; [|by eapply Hk].
    eapply Forall_impl; [exact Hts|]. intros [i' p] Hp. by eapply wp_mono.
Qed.

Lemma threads_reachable s s' : rtc thread_step s s' -> threads_ok s -> threads_ok s' /\ later (th_world s) (th_world s').
Proof.
  induction 1 as [s|s1 s2 s3 H12 _ IH]; [done|]. intros Hok.
  destruct (thread_step_ok _ _ H12 Hok) as [Hok2 Hl]. destruct (IH Hok2) as [Hok3 Hl3]. split; [done|by etrans].
Qed.

Lemma threads_good w s : good w -> rtc thread_step (Threads w []) s -> good (th_world s).
Proof. intros Hg Hr. by destruct (threads_reachable _ _ Hr) as [[H _] _]; [split; [done|constructor]|]. Qed.

Lemma threads_post w s j i r :
  good w -> rtc thread_step (Threads w []) s -> th_threads s !! j = Some (i, Pure r) -> post r (th_world s).
Proof.
  intros Hg Hr Hj. destruct (threads_reachable _ _ Hr) as [[Hgs Hts] _]; [by split; [|constructor]|].
  pose proof (Forall_lookup_1 _ _ _ _ Hts Hj) as Hwp. by apply Hwp.
Qed.

(** What every event keeps holds of every reachable world. *)
Lemma world_reachable (Q : W -> Prop) s s' :
  (forall i e w x w', occurs i e w x w' -> Q w -> Q w') ->
  rtc thread_step s s' -> Q (th_world s) -> Q (th_world s').
Proof.
  intros Ho. induction 1 as [|s1 s2 s3 H12 _ IH]; [done|]. intros Hq. apply IH. destruct H12; cbn in *; eauto.
Qed.

(** A handler whose answers can occur runs a thread to its end. *)
Lemma run_thread (handler : forall e, W -> answer e * W) i (p : P R) w ts j :
  (forall e w, occurs i e w (handler e w).1 (handler e w).2) -> ts !! j = Some (i, p) ->
  rtc thread_step (Threads w ts) (Threads (run handler p w).2 (<[j := (i, Pure (run handler p w).1)]> ts)).
Proof.
  intros Hh. revert w ts. induction p as [a|e k IH]; intros w ts Hj; simpl.
  - by rewrite list_insert_id.
  - pose proof (Hh e w) as He. destruct (handler e w) as [x w'] eqn:Hx. cbn in He.
    eapply rtc_l; [by eapply thread_event|]. etrans; [apply (IH x w')|].
    + rewrite list_lookup_insert_eq; [done|by eapply lookup_lt_Some].
    + by rewrite list_insert_insert_eq.
Qed.

Lemma run_from_start (handler : forall e, W -> answer e * W) i (p : P R) w ts :
  (forall e w, occurs i e w (handler e w).1 (handler e w).2) -> starts p ->
  rtc thread_step (Threads w ts) (Threads (run handler p w).2 (ts ++ [(i, Pure (run handler p w).1)])).
Proof.
  intros Hh Hp. eapply rtc_l; [by eapply (thread_start w ts i)|].
  etrans; [apply (run_thread handler i p w (ts ++ [(i, p)]) (length ts) Hh)|].
  - rewrite lookup_app_r by done. by rewrite Nat.sub_diag.
  - by rewrite insert_app_r_alt, Nat.sub_diag by done.
Qed.

(** Thread [j] performs its next event as a partial handler answers it, unless
    it has ended or must wait. *)
Definition advance (handler : forall e, W -> option (answer e * W)) (j : nat) (s : threads) : threads :=
  match th_threads s !! j with
  | Some (i, Vis e k) =>
      match handler e (th_world s) with
      | Some (x, w') => Threads w' (<[j := (i, k x)]> (th_threads s))
      | None => s
      end
  | _ => s
  end.
(** A schedule: programs that start, and threads that advance. *)
Definition play (handler : forall e, W -> option (answer e * W)) (schedule : list (P R + nat)) (s : threads) : threads :=
  fold_left (fun s a => match a with
                        | inl p => Threads (th_world s) (th_threads s ++ [(0%nat, p)])
                        | inr j => advance handler j s
                        end) schedule s.

Lemma play_run (handler : forall e, W -> option (answer e * W)) schedule s :
  (forall i e w x w', handler e w = Some (x, w') -> occurs i e w x w') ->
  Forall (fun a => match a with inl p => starts p | inr _ => True end) schedule ->
  rtc thread_step s (play handler schedule s).
Proof.
  intros Hh Hs. revert s. induction Hs as [|[p|j] schedule Ha _ IH]; intros [w ts]; cbn; [done| |].
  - eapply rtc_l; [by apply thread_start|apply IH].
  - etrans; [|apply IH]. unfold advance. cbn. destruct (ts !! j) as [[i [a|e k]]|] eqn:Hj; [done| |done].
    destruct (handler e w) as [[x w']|] eqn:Hx; [|done].
    by eapply rtc_once, thread_event; [|apply Hh].
Qed.
End wp.
End programs.

Arguments Threads {event answer W R}.
Arguments th_world {event answer W R}.
Arguments th_threads {event answer W R}.

(** ** Exceptions *)

(** A call returns a value or throws. *)
Definition call (event : Type) (answer : event -> Type) (F A : Type) : Type := prog event answer (result F A).

Section calls.
Context {event : Type} {answer : event -> Type} {F : Type}.
Abbreviation C := (call event answer F).

#[global] Instance call_ret : MRet C := fun A a => Pure (Ok a).
#[global] Instance call_bind : MBind C :=
  fun A B f m => bind m (fun r => match r with Ok a => f a | Err e => Pure (Err e) end).

Definition raise {A} (e : F) : C A := Pure (Err e).
Definition lift_result {A} (r : result F A) : C A := Pure r.
(** [try { return Ok(await m) } catch (e) { return Err(e) }] *)
Definition attempt {A} (m : C A) : C (result F A) := bind m (fun r => Pure (Ok r)).
(** An event whose answer is a value, and one whose answer may be thrown. *)
Definition trigger (e : event) : C (answer e) := Vis e (fun x => Pure (Ok x)).
Definition trigger_result {A} (e : event) (as_result : answer e -> result F A) : C A :=
  Vis e (fun x => Pure (as_result x)).

(** What a call that returns has returned, whatever is answered. *)
Definition ensures {A} (m : C A) (Q : A -> trace -> Prop) : trace -> Prop := always m (fun r t => match r with Ok a => Q a t | Err _ => True end).
Lemma ensures_ret {A} (a : A) (Q : A -> trace -> Prop) t : Q a t -> ensures (mret a) Q t.
Proof. done. Qed.
Lemma ensures_lift {A} (r : result F A) (Q : A -> trace -> Prop) t : (forall a, r = Ok a -> Q a t) -> ensures (lift_result r) Q t.
Proof. intros H. destruct r as [a|e]; cbn; auto. Qed.
Lemma ensures_bind {A B} (m : C A) (f : A -> C B) (Q : A -> trace -> Prop) (R : B -> trace -> Prop) t :
  ensures m Q t -> (forall a t', t `prefix_of` t' -> Q a t' -> ensures (f a) R t') -> ensures (m ≫= f) R t.
Proof. intros Hm Hf. apply always_bind. eapply always_mono; [|exact Hm]. intros [a|e] t' Ht Ha; [by apply Hf|done]. Qed.
Lemma ensures_and {A} (m : C A) (Q R : A -> trace -> Prop) t : ensures m Q t -> ensures m R t -> ensures m (fun a t' => Q a t' /\ R a t') t.
Proof. intros HQ HR. eapply always_mono; [|exact (always_and _ _ _ _ HQ HR)]. by intros [a|e] t' _. Qed.
Lemma ensures_trigger {B} (e : event) (f : answer e -> C B) (R : B -> trace -> Prop) t :
  (forall x, ensures (f x) R (t ++ [existT e x])) -> ensures (trigger e ≫= f) R t.
Proof. intros H x. apply H. Qed.

Lemma ensures_run {W A} (handler : forall e, W -> answer e * W) (m : C A) (Q : A -> trace -> Prop) w t a r :
  ensures m Q t -> run (traced handler) m (t, w) = (Ok a, r) -> Q a r.1.
Proof. intros H E. pose proof (always_run handler _ _ w t H) as HQ. by rewrite E in HQ. Qed.

Section call_wp.
Context {W : Type} (later : relation W) `{!PreOrder later} (good : W -> Prop).
Context (occurs : nat -> forall e, W -> answer e -> W -> Prop) (allowed : event -> W -> Prop).
Abbreviation WP := (wp later good occurs allowed).

(** What a call ensures when it returns; a thrown error ensures nothing. *)
Definition returns {A} (Q : A -> W -> Prop) : result F A -> W -> Prop :=
  fun r w => match r with Ok a => Q a w | Err _ => True end.

Lemma wp_ret {A} (a : A) (Q : result F A -> W -> Prop) w :
  (forall w', later w w' -> good w' -> Q (Ok a) w') -> WP (mret (M:=C) a) Q w.
Proof. done. Qed.
Lemma wp_raise {A} (e : F) (Q : result F A -> W -> Prop) w :
  (forall w', later w w' -> good w' -> Q (Err e) w') -> WP (raise e) Q w.
Proof. done. Qed.
Lemma wp_raise_returns {A} (e : F) (Q : A -> W -> Prop) w : WP (raise e) (returns Q) w.
Proof. done. Qed.
Lemma wp_ret_returns {A} (a : A) (Q : A -> W -> Prop) w :
  (forall w', later w w' -> good w' -> Q a w') -> WP (mret (M:=C) a) (returns Q) w.
Proof. done. Qed.

Lemma wp_call {A B} (m : C A) (f : A -> C B) (Q : B -> W -> Prop) w :
  WP m (returns (fun a => WP (f a) (returns Q))) w -> WP (m ≫= f) (returns Q) w.
Proof. intros H. apply wp_bind; [done|]. eapply wp_weaken; [done| |exact H]. by intros [a|e] w' _ _. Qed.

Lemma wp_attempt {A} (m : C A) (Q : result F A -> W -> Prop) w :
  WP m (fun r w' => forall w'', later w' w'' -> good w'' -> Q r w'') w -> WP (attempt m) (returns Q) w.
Proof. intros H. apply wp_bind; [done|]. eapply wp_weaken; [done| |exact H]. by intros r w' _ _. Qed.
End call_wp.
End calls.

Lemma always_true {event answer A} (p : prog event answer A) (Q : A -> trace -> Prop) t : (forall a t', Q a t') -> always p Q t.
Proof. intros H. revert t. induction p as [a|e k IH]; intros t; cbn; auto. Qed.

(** ** Traces judged by what was learnt *)

Section judged.
Context {event : Type} {answer : event -> Type} {F K : Type}.
Abbreviation step := {e : event & answer e}.
Context (learns : K -> step -> K) (safe : K -> step -> Prop).
Implicit Types (k : K) (s t : list step).

Fixpoint judged k t : Prop := match t with [] => True | x :: t' => safe k x /\ judged (learns k x) t' end.
Definition known k t : K := fold_left learns t k.
Lemma judged_app k s t : judged k (s ++ t) <-> judged k s /\ judged (known k s) t.
Proof. revert k. induction s as [|x s IH]; intros k; cbn; [tauto|]. rewrite IH. tauto. Qed.

(** From [k] on every event is safe, and a value satisfies [Q]. *)
Definition holds {A} k (m : call event answer F A) (Q : A -> K -> Prop) : Prop :=
  forall t, always m (fun r t' => exists s, t' = t ++ s /\ judged k s /\ match r with Ok a => Q a (known k s) | Err _ => True end) t.

Lemma holds_ret {A} k (a : A) (Q : A -> K -> Prop) : Q a k -> holds k (mret a) Q.
Proof. intros H t. exists []. by rewrite app_nil_r. Qed.
Lemma holds_raise {A} k (e : F) (Q : A -> K -> Prop) : holds k (raise e) Q.
Proof. intros t. exists []. by rewrite app_nil_r. Qed.
Lemma holds_lift {A} k (r : result F A) (Q : A -> K -> Prop) : (forall a, r = Ok a -> Q a k) -> holds k (lift_result r) Q.
Proof. destruct r as [a|e]; intros H; [by apply holds_ret, H|apply holds_raise]. Qed.
Lemma holds_bind {A B} k (m : call event answer F A) (f : A -> call event answer F B) (P : A -> K -> Prop) (Q : B -> K -> Prop) :
  holds k m P -> (forall a k', P a k' -> holds k' (f a) Q) -> holds k (m ≫= f) Q.
Proof.
  intros Hm Hf t. apply always_bind. eapply always_mono; [|exact (Hm t)]. intros [a|e] t' _ (s & -> & Hs & Ha).
  - eapply always_mono; [|exact (Hf a _ Ha (t ++ s))]. intros r t' _ (s' & -> & Hs' & Hr). exists (s ++ s'). rewrite app_assoc. split; [done|].
    split; [by apply judged_app|]. unfold known in *. by rewrite fold_left_app.
  - by exists s.
Qed.
Lemma holds_verdict {A B} k (r : result F A) (f : A -> call event answer F B) (Q : B -> K -> Prop) :
  (forall a, r = Ok a -> holds k (f a) Q) -> holds k (lift_result r ≫= f) Q.
Proof. destruct r as [a|e]; intros H; [by apply (H a)|apply holds_raise]. Qed.
Lemma holds_ask {B} k (e : event) (f : answer e -> call event answer F B) (Q : B -> K -> Prop) :
  (forall x, safe k (existT e x) /\ holds (learns k (existT e x)) (f x) Q) -> holds k (trigger e ≫= f) Q.
Proof.
  intros H t x. destruct (H x) as [Hx Hf]. eapply always_mono; [|exact (Hf _)]. intros r t' _ (s & -> & Hs & Hr).
  exists (existT e x :: s). by rewrite <- app_assoc.
Qed.
Lemma holds_attempt {A} k (m : call event answer F A) (Q : A -> K -> Prop) :
  holds k m Q -> holds k (attempt m) (fun r k' => (exists s, k' = known k s /\ judged k s) /\ match r with Ok a => Q a k' | Err _ => True end).
Proof.
  intros Hm t. apply always_bind. eapply always_mono; [|exact (Hm t)]. intros r t' _ (s & -> & Hs & Hr). exists s. cbn. eauto 6.
Qed.
Lemma holds_mono {A} k (m : call event answer F A) (P Q : A -> K -> Prop) : holds k m P -> (forall a k', P a k' -> Q a k') -> holds k m Q.
Proof.
  intros Hm H t. eapply always_mono; [|exact (Hm t)]. intros [a|e] t' _ (s & -> & Hs & Ha); exists s; cbn; auto.
Qed.
Lemma holds_run {A W} (handler : forall e, W -> answer e * W) k (m : call event answer F A) (Q : A -> K -> Prop) w :
  holds k m Q -> judged k (run (traced handler) m ([], w)).2.1.
Proof.
  intros Hm. destruct (always_run handler m _ w [] (Hm [])) as (s & E & Hs & _). cbn [app] in E. rewrite <- E in Hs. exact Hs.
Qed.
End judged.
