(* ===== verification/Credits.v ===== *)
(** * Programs that pay for what they do

    Some events earn credit, others spend it: a charged budget pays for one
    forwarded request.  [obeys] says of a program that every event it performs
    is allowed and paid from the credit it holds, whatever [sane] answers it
    receives.  Credit belongs to the program that earned it, so that of any
    number of interleaved programs the total spent never exceeds what the
    world has funded. *)
From S2P Require Import Prelude Programs.
Open Scope Z_scope.

Section obeys.
Context {event : Type} {answer : event -> Type}.
Context (allowed : event -> Prop) (sane : forall e, answer e -> Prop).
Context (earn : forall e, answer e -> Z) (spend : event -> Z).
Abbreviation P := (prog event answer).

(** A program with credit [c] ends with a result and a credit in [Q]. *)
Fixpoint obeys {A} (c : Z) (p : P A) (Q : A -> Z -> Prop) : Prop :=
  match p with
  | Pure a => Q a c
  | Vis e k => allowed e /\ 0 <= spend e <= c /\
               forall x, sane e x -> 0 <= earn e x /\ obeys (c - spend e + earn e x) (k x) Q
  end.

Lemma obeys_mono {A} c c' (p : P A) (Q R : A -> Z -> Prop) :
  c <= c' -> (forall a d d', d <= d' -> Q a d -> R a d') -> obeys c p Q -> obeys c' p R.
Proof.
  intros Hc HQ. revert c c' Hc. induction p as [a|e k IH]; intros c c' Hc; simpl; [by apply HQ|].
  intros (Ha & Hs & Hk). split; [done|]. split; [lia|]. intros x Hx. destruct (Hk x Hx) as [He Ho].
  split; [done|]. eapply IH; [|exact Ho]. lia.
Qed.

Lemma obeys_weaken {A} c (p : P A) (Q R : A -> Z -> Prop) :
  (forall a d, Q a d -> R a d) -> obeys c p Q -> obeys c p R.
Proof.
  intros HQ. revert c. induction p as [a|e k IH]; intros c; simpl; [apply HQ|].
  intros (Ha & Hs & Hk). split; [done|]. split; [done|]. intros x Hx. destruct (Hk x Hx). auto.
Qed.

Lemma obeys_bind {A B} c (p : P A) (f : A -> P B) Q :
  obeys c p (fun a d => obeys d (f a) Q) -> obeys c (bind p f) Q.
Proof.
  revert c. induction p as [a|e k IH]; intros c; simpl; [done|].
  intros (Ha & Hs & Hk). split; [done|]. split; [done|]. intros x Hx. destruct (Hk x Hx). auto.
Qed.

(** ** Interleaved programs

    [balance] is what the world can still pay; a step that is paid for happens
    in a world that can pay it. *)
Section threads.
Context {W R : Type} (occurs : nat -> forall e, W -> answer e -> W -> Prop) (good : W -> Prop).
Context (balance : W -> Z) (starts : P R -> Prop) (final : R -> Z -> Prop).
Abbreviation pays cs ts :=
  (Forall (Z.le 0) cs /\ Forall2 (fun c (t : nat * P R) => obeys c t.2 final) cs ts).

Lemma sumZ_insert cs (j : nat) c c' : cs !! j = Some c -> sumZ (<[j := c']> cs) = sumZ cs - c + c'.
Proof.
  revert j. induction cs as [|d cs IH]; intros [|j]; simpl; try done; [intros [= ->]; lia|].
  intros H. rewrite (IH j H). lia.
Qed.
Lemma sumZ_lookup_le cs (j : nat) c : Forall (Z.le 0) cs -> cs !! j = Some c -> c <= sumZ cs.
Proof.
  intros Hc. revert j. induction Hc as [|d cs Hd Hc IH]; intros [|j]; simpl; try done.
  - intros [= ->]. pose proof (sumZ_nonneg _ Hc). lia.
  - intros H. apply IH in H. lia.
Qed.

(** What one step does to the credits of the threads. *)
Lemma pays_step s s' cs :
  (forall p, starts p -> obeys 0 p final) ->
  thread_step occurs starts s s' -> pays cs (th_threads s) ->
  (exists cs', pays cs' (th_threads s') /\ th_world s' = th_world s /\ sumZ cs' = sumZ cs) \/
  exists i e x, allowed e /\ 0 <= spend e <= sumZ cs /\ occurs i e (th_world s) x (th_world s') /\
    (sane e x -> exists cs', pays cs' (th_threads s') /\ sumZ cs' = sumZ cs - spend e + earn e x).
Proof.
  intros Hst [w ts i p Hp|w ts j i e k x w' Hj Ho] [Hc Hts]; cbn in *.
  - left. exists (cs ++ [0]). split; [split|split; [done|rewrite sumZ_app; simpl; lia]].
    + apply Forall_app. by split; [|constructor].
    + apply Forall2_app; [done|]. constructor; [by apply Hst|constructor].
  - right. destruct (Forall2_lookup_r _ _ _ _ _ Hts Hj) as (c & Hcj & Hob). cbn in Hob. destruct Hob as (Ha & Hs & Hk).
    pose proof (sumZ_lookup_le _ _ _ Hc Hcj). exists i, e, x. split; [done|]. split; [lia|]. split; [done|].
    intros Hx. destruct (Hk x Hx) as [He Hk']. exists (<[j := c - spend e + earn e x]> cs).
    split; [split|rewrite (sumZ_insert _ _ _ _ Hcj); lia].
    + apply Forall_insert; [done|]. lia.
    + by apply Forall2_insert.
Qed.

Section bounded.
Context (occurs_sound : forall i e w x w', good w -> allowed e -> spend e <= balance w -> occurs i e w x w' ->
  good w' /\ sane e x /\ balance w - spend e + earn e x <= balance w').
Context (starts_obey : forall p, starts p -> obeys 0 p final).

Definition solvent (s : threads (answer:=answer) (W:=W) (R:=R)) : Prop :=
  good (th_world s) /\ exists cs, pays cs (th_threads s) /\ sumZ cs <= balance (th_world s).

Lemma solvent_step s s' : thread_step occurs starts s s' -> solvent s -> solvent s'.
Proof.
  intros Hst (Hg & cs & Hp & Hsum).
  destruct (pays_step _ _ _ starts_obey Hst Hp) as [(cs' & Hp' & Hw & Hs)|(i & e & x & Ha & Hs & Ho & Hk)].
  - unfold solvent. rewrite Hw. split; [done|]. exists cs'. split; [done|lia].
  - destruct (occurs_sound _ _ _ _ _ Hg Ha ltac:(lia) Ho) as (Hg' & Hx & Hb').
    destruct (Hk Hx) as (cs' & Hp' & Hs'). split; [done|]. exists cs'. split; [done|lia].
Qed.

Lemma solvent_steps s s' : rtc (thread_step occurs starts) s s' -> solvent s -> solvent s'.
Proof. induction 1 as [|s1 s2 s3 H12 _ IH]; [done|]. intros H. apply IH. by eapply solvent_step. Qed.

Lemma solvent_start w ts c :
  good w -> 0 <= c -> c <= balance w -> Forall (fun t : nat * P R => obeys c t.2 final) ts ->
  (length ts <= 1)%nat -> solvent (Threads w ts).
Proof.
  intros Hg Hc Hw Hts Hl. split; [done|]. exists (replicate (length ts) c). split.
  - split; [by apply Forall_replicate|]. cbn. clear Hl Hw. induction Hts; constructor; done.
  - destruct ts as [|t [|]]; cbn in *; lia.
Qed.

Lemma solvent_reachable w ts c s :
  good w -> 0 <= c -> c <= balance w -> Forall (fun t : nat * P R => obeys c t.2 final) ts ->
  (length ts <= 1)%nat -> rtc (thread_step occurs starts) (Threads w ts) s ->
  good (th_world s) /\ 0 <= balance (th_world s) /\
  forall j i r, th_threads s !! j = Some (i, Pure r) -> exists c, final r c.
Proof.
  intros Hg Hc Hw Hts Hl Hr. destruct (solvent_steps _ _ Hr) as (Hg' & cs & [Hcs Hob] & Hsum); [by eapply solvent_start|].
  split_and!; [done|pose proof (sumZ_nonneg _ Hcs); lia|].
  intros j i r Hj. destruct (Forall2_lookup_r _ _ _ _ _ Hob Hj) as (d & _ & Hq). by exists d.
Qed.
End bounded.

(** Where what is spent and earned is exactly what the world counts, the
    threads hold exactly the difference. *)
Section balanced.
Context (occurs_exact : forall i e w x w', good w -> allowed e -> spend e <= balance w -> occurs i e w x w' ->
  good w' /\ sane e x /\ balance w' = balance w - spend e + earn e x).
Context (starts_obey : forall p, starts p -> obeys 0 p final).

Lemma balanced_reachable w ts s :
  good w -> balance w = 0 -> Forall (fun t : nat * P R => obeys 0 t.2 final) ts ->
  rtc (thread_step occurs starts) (Threads w ts) s ->
  good (th_world s) /\ exists cs, pays cs (th_threads s) /\ sumZ cs = balance (th_world s).
Proof.
  intros Hg Hw Hts Hr. set (balanced := fun s : threads (answer:=answer) (W:=W) (R:=R) =>
    good (th_world s) /\ exists cs, pays cs (th_threads s) /\ sumZ cs = balance (th_world s)).
  assert (Hb : balanced (Threads w ts)).
  { split; [done|]. exists (replicate (length ts) 0). split.
    - split; [by apply Forall_replicate|]. cbn. clear Hr. induction Hts; constructor; done.
    - assert (sumZ (replicate (length ts) 0) = 0) as -> by (induction (length ts); cbn; lia). cbn. lia. }
  fold (balanced s). clear Hg Hw Hts. induction Hr as [|s1 s2 s3 H12 _ IH]; [done|]. apply IH.
  destruct Hb as (Hg & cs & Hp & Hsum).
  destruct (pays_step _ _ _ starts_obey H12 Hp) as [(cs' & Hp' & Hw & Hs)|(i & e & x & Ha & Hs & Ho & Hk)].
  - unfold balanced. rewrite Hw. split; [done|]. exists cs'. split; [done|lia].
  - destruct (occurs_exact _ _ _ _ _ Hg Ha ltac:(lia) Ho) as (Hg' & Hx & Hb').
    destruct (Hk Hx) as (cs' & Hp' & Hs'). split; [done|]. exists cs'. split; [done|lia].
Qed.
End balanced.
End threads.
End obeys.

(** ** Kinds of credit

    Credits of many kinds at once: an event is paid for in every kind, so that
    what it does to the world may depend on all of them. *)
Section family.
Context {event : Type} {answer : event -> Type} {K : Type} (kind : K).
Context (allowed : event -> Prop) (sane : forall e, answer e -> Prop).
Context (earn : K -> forall e, answer e -> Z) (spend : K -> event -> Z).
Context {W R : Type} (occurs : nat -> forall e, W -> answer e -> W -> Prop) (good : W -> Prop) (balance : K -> W -> Z).
Context (starts : prog event answer R -> Prop) (final : R -> Z -> Prop).
Abbreviation Obeys k := (obeys allowed sane (earn k) (spend k)).
Abbreviation pays k cs ts :=
  (Forall (Z.le 0) cs /\ Forall2 (fun c (t : nat * prog event answer R) => Obeys k c t.2 final) cs ts).
Context (occurs_sound : forall i e w x w', good w -> allowed e -> (forall k, 0 <= spend k e <= balance k w) -> occurs i e w x w' ->
  good w' /\ sane e x /\ forall k, balance k w - spend k e + earn k e x <= balance k w').
Context (starts_obey : forall p k, starts p -> Obeys k 0 p final).

Definition funded (s : threads (answer:=answer) (W:=W) (R:=R)) : Prop :=
  good (th_world s) /\ forall k, exists cs, pays k cs (th_threads s) /\ sumZ cs <= balance k (th_world s).

Lemma funded_step s s' : thread_step occurs starts s s' -> funded s -> funded s'.
Proof.
  intros [w ts i p Hp|w ts j i e f x w' Hj Ho] [Hg Hk]; cbn in *.
  - split; [done|]. intros k. destruct (Hk k) as (cs & [Hc Hts] & Hs). exists (cs ++ [0]). cbn. split; [split|].
    + apply Forall_app. by split; [|constructor].
    + apply Forall2_app; [done|]. constructor; [by apply starts_obey|constructor].
    + rewrite sumZ_app. simpl. lia.
  - assert (Hall : forall k, exists cs c, pays k cs ts /\ sumZ cs <= balance k w /\ cs !! j = Some c /\ c <= sumZ cs /\
        Obeys k c (Vis e f) final).
    { intros k. destruct (Hk k) as (cs & [Hc Hts] & Hs). destruct (Forall2_lookup_r _ _ _ _ _ Hts Hj) as (c & Hcj & Hob).
      exists cs, c. split_and!; try done. by eapply sumZ_lookup_le. }
    destruct (Hall kind) as (? & ? & _ & _ & _ & _ & [Ha _]).
    destruct (occurs_sound i e w x w' Hg Ha) as (Hg' & Hx & Hb); [|done|].
    { intros k. destruct (Hall k) as (cs & c & _ & Hs & _ & Hle & (_ & Hsp & _)). lia. }
    split; [done|]. intros k. destruct (Hall k) as (cs & c & [Hc Hts] & Hs & Hcj & Hle & (_ & Hsp & Hf)).
    destruct (Hf x Hx) as [He Hob]. exists (<[j := c - spend k e + earn k e x]> cs). specialize (Hb k).
    split; [split|cbn; rewrite (sumZ_insert _ _ _ _ Hcj); lia].
    + apply Forall_insert; [done|]. lia.
    + by apply Forall2_insert.
Qed.

Lemma funded_start w ts :
  good w -> (forall k, 0 <= balance k w) -> (forall k, Forall (fun t : nat * prog event answer R => Obeys k 0 t.2 final) ts) ->
  funded (Threads w ts).
Proof.
  intros Hg Hw Hts. split; [done|]. intros k. exists (replicate (length ts) 0). cbn. split; [split|].
  - by apply Forall_replicate.
  - specialize (Hts k). induction Hts; constructor; done.
  - assert (sumZ (replicate (length ts) 0) = 0) as -> by (clear Hts; induction (length ts); cbn; lia). apply Hw.
Qed.

Lemma funded_reachable_from s0 s :
  funded s0 -> rtc (thread_step occurs starts) s0 s ->
  good (th_world s) /\ forall k, 0 <= balance k (th_world s).
Proof.
  intros Hf Hr. revert Hf. induction Hr as [s|s1 s2 s3 H12 _ IH]; intros Hf.
  - destruct Hf as [Hg' Hk]. split; [done|]. intros k. destruct (Hk k) as (cs & [Hc _] & Hs). pose proof (sumZ_nonneg _ Hc). lia.
  - apply IH. by eapply funded_step.
Qed.

Lemma funded_reachable w s :
  good w -> (forall k, 0 <= balance k w) -> rtc (thread_step occurs starts) (Threads w []) s ->
  good (th_world s) /\ forall k, 0 <= balance k (th_world s).
Proof. intros Hg Hw. apply funded_reachable_from, funded_start; [done|done|by constructor]. Qed.
End family.

(** ** Calls that keep the credit they hold *)
Section secure.
Context {event : Type} {answer : event -> Type} {F : Type}.
Context (allowed : event -> Prop) (sane : forall e, answer e -> Prop).
Context (earn : forall e, answer e -> Z) (spend : event -> Z).
Abbreviation C := (call event answer F).
Abbreviation Obeys := (obeys allowed sane earn spend).

(** What is returned is in [Q]; of what is thrown nothing is said.  The call
    may earn, so that it ends with no less than it began with. *)
Definition secure {A} (m : C A) (Q : A -> Prop) : Prop :=
  forall c, 0 <= c -> Obeys c m (fun r d => c <= d /\ match r with Ok a => Q a | Err _ => True end).

Lemma secure_ret {A} (a : A) (Q : A -> Prop) : Q a -> secure (mret a) Q.
Proof. by intros H c Hc; split. Qed.
Lemma secure_raise {A} (e : F) (Q : A -> Prop) : secure (raise e) Q.
Proof. by intros c Hc; split. Qed.
Lemma secure_lift {A} (r : result F A) (Q : A -> Prop) : (forall a, r = Ok a -> Q a) -> secure (lift_result r) Q.
Proof. intros H c Hc. split; [done|]. destruct r; [by apply H|done]. Qed.

Lemma secure_bind {A B} (m : C A) (f : A -> C B) (Q : A -> Prop) (R : B -> Prop) :
  secure m Q -> (forall a, Q a -> secure (f a) R) -> secure (m ≫= f) R.
Proof.
  intros Hm Hf c Hc. apply obeys_bind. eapply obeys_weaken; [|exact (Hm c Hc)].
  intros [a|e] d [Hd Ha]; [|by split]. eapply obeys_weaken; [|apply (Hf a Ha d); lia].
  intros r d' [? ?]. split; [lia|done].
Qed.

Lemma secure_mono {A} (m : C A) (Q R : A -> Prop) : (forall a, Q a -> R a) -> secure m Q -> secure m R.
Proof.
  intros HQ Hm c Hc. eapply obeys_weaken; [|exact (Hm c Hc)]. intros [a|e] d [??]; split; auto.
Qed.

Lemma secure_attempt {A} (m : C A) (Q : A -> Prop) :
  secure m Q -> secure (attempt m) (fun r => match r with Ok a => Q a | Err _ => True end).
Proof.
  intros Hm c Hc. apply obeys_bind. eapply obeys_weaken; [|exact (Hm c Hc)].
  intros r d [? ?]. by split.
Qed.

Lemma secure_trigger (e : event) (Q : answer e -> Prop) :
  allowed e -> spend e = 0 -> (forall x, sane e x -> 0 <= earn e x /\ Q x) -> secure (trigger (F:=F) e) Q.
Proof.
  intros Ha Hs Hx c Hc. cbn. split; [done|]. split; [lia|]. intros x Hsx. destruct (Hx x Hsx) as [He Hq].
  split; [lia|]. split; [lia|done].
Qed.

Lemma secure_ask {A} (e : event) (as_result : answer e -> result F A) (Q : A -> Prop) :
  allowed e -> spend e = 0 ->
  (forall x, sane e x -> 0 <= earn e x /\ forall a, as_result x = Ok a -> Q a) ->
  secure (trigger_result e as_result) Q.
Proof.
  intros Ha Hs Hx c Hc. cbn. split; [done|]. split; [lia|]. intros x Hsx. destruct (Hx x Hsx) as [He Hq].
  split; [lia|]. split; [lia|]. destruct (as_result x); [by apply Hq|done].
Qed.

(** A secure call in a program that holds credit. *)
Lemma obeys_secure {A B} c (m : C A) (f : A -> C B) (Q : A -> Prop) (R : result F B -> Z -> Prop) :
  0 <= c -> secure m Q -> (forall r d d', d <= d' -> R r d -> R r d') ->
  (forall a, Q a -> Obeys c (f a) R) -> (forall e, R (Err e) c) -> Obeys c (m ≫= f) R.
Proof.
  intros Hc Hm Hup Hf He. apply obeys_bind. eapply obeys_weaken; [|exact (Hm c Hc)].
  intros [a|e] d [Hd Ha]; [|by eapply Hup].
  eapply obeys_mono; [exact Hd|exact Hup|by apply Hf].
Qed.
End secure.

(** ** Programs that end with the credit they began with *)
Section keeps.
Context {event : Type} {answer : event -> Type} {F : Type}.
Context (allowed : event -> Prop) (sane : forall e, answer e -> Prop).
Context (earn : forall e, answer e -> Z) (spend : event -> Z).
Abbreviation C := (call event answer F).
Abbreviation Keeps c m := (obeys allowed sane earn spend c%Z m (fun _ d => d = c%Z)).

Lemma credit_bind {A B} c (m : C A) (f : A -> C B) : Keeps c m -> (forall a, Keeps c (f a)) -> Keeps c (m ≫= f).
Proof. intros Hm Hf. apply obeys_bind. eapply obeys_weaken; [|exact Hm]. intros [a|e] d ->; [apply Hf|done]. Qed.
Lemma credit_attempt {A} c (m : C A) : Keeps c m -> Keeps c (attempt m).
Proof. intros Hm. apply obeys_bind. eapply obeys_weaken; [|exact Hm]. by intros r d ->. Qed.
Lemma credit_event {A} c (e : event) (f : answer e -> result F A) :
  allowed e -> 0 <= spend e <= c -> (forall x, earn e x = spend e) -> Keeps c (trigger_result e f).
Proof. intros Ha Hs He. cbn. split; [done|]. split; [done|]. intros x _. rewrite He. lia. Qed.
(** An event, and what follows it. *)
Lemma obeys_act {A} c (e : event) (f : answer e -> C A) (Q : result F A -> Z -> Prop) :
  allowed e -> 0 <= spend e <= c ->
  (forall x, sane e x -> 0 <= earn e x /\ obeys allowed sane earn spend (c - spend e + earn e x) (f x) Q) ->
  obeys allowed sane earn spend c (trigger (F:=F) e ≫= f) Q.
Proof. intros Ha Hs Hf. split; [done|]. by split. Qed.
Lemma obeys_ask {A B} c (e : event) (as_result : answer e -> result F A) (f : A -> C B) (Q : result F B -> Z -> Prop) :
  allowed e -> 0 <= spend e <= c ->
  (forall x, sane e x -> 0 <= earn e x /\ match as_result x with
     | Ok a => obeys allowed sane earn spend (c - spend e + earn e x) (f a) Q
     | Err e' => Q (Err e') (c - spend e + earn e x) end) ->
  obeys allowed sane earn spend c (trigger_result e as_result ≫= f) Q.
Proof.
  intros Ha Hs Hf. split; [done|]. split; [done|]. intros x Hx. destruct (Hf x Hx) as [He Ho]. split; [done|].
  by destruct (as_result x).
Qed.
Lemma obeys_after {A B} c (m : C A) (f : A -> C B) (Q : result F B -> Z -> Prop) :
  Keeps c m -> (forall a, obeys allowed sane earn spend c (f a) Q) -> (forall e, Q (Err e) c) ->
  obeys allowed sane earn spend c (m ≫= f) Q.
Proof. intros Hm Hf He. apply obeys_bind. eapply obeys_weaken; [|exact Hm]. intros [a|e] d ->; [apply Hf|apply He]. Qed.
End keeps.
