(* ===== verification/Processes.v ===== *)
(** * One process at a time, that may crash

    A command-line program runs alone, but may be killed between any two of
    its calls and is then started anew from what it saved.  Meanwhile the
    outside world (here a chain) moves by itself.  [safe] is the precondition
    of a program under which an invariant of the world holds at every moment,
    wherever the program stops. *)
From S2P Require Import Prelude Programs.

Lemma rtc_preserve {A} (R : relation A) (Q : A -> Prop) :
  (forall x y, R x y -> Q x -> Q y) -> forall x y, rtc R x y -> Q x -> Q y.
Proof. intros H x y. induction 1; eauto. Qed.

Section processes.
Context {event : Type} {answer : event -> Type} {W : Type}.
Abbreviation P := (prog event answer).
Context (occurs : forall e, W -> answer e -> W -> Prop) (outside : relation W) (invariant_ok : W -> Prop).

(** At every moment the invariant holds; at the end [Q] does. *)
Fixpoint safe {A} (p : P A) (Q : A -> W -> Prop) (w : W) : Prop :=
  match p with
  | Pure a => forall w', rtc outside w w' -> invariant_ok w' /\ Q a w'
  | Vis e k => forall w', rtc outside w w' -> invariant_ok w' /\ forall x w'', occurs e w' x w'' -> safe (k x) Q w''
  end.

Lemma safe_now {A} (p : P A) Q w : safe p Q w -> invariant_ok w.
Proof. destruct p; intros H; by apply (H w). Qed.

Lemma safe_outside {A} (p : P A) Q w w' : safe p Q w -> rtc outside w w' -> safe p Q w'.
Proof. destruct p; intros H Hw w'' Hw'; apply H; by etrans. Qed.

Lemma safe_weaken {A} (p : P A) (Q R : A -> W -> Prop) w : (forall a w, Q a w -> R a w) -> safe p Q w -> safe p R w.
Proof.
  intros HQ. revert w. induction p as [a|e k IH]; intros w H w' Hw; destruct (H w' Hw) as [Hi Hk]; (split; [done|]); [by apply HQ|].
  intros x w'' Ho. apply IH. by apply Hk.
Qed.

Lemma safe_then {A B} (p : P A) (f : A -> P B) Q w : safe p (fun a => safe (f a) Q) w -> safe (bind p f) Q w.
Proof.
  revert w. induction p as [a|e k IH]; intros w H; simpl.
  - by destruct (H w (rtc_refl _ _)) as [_ Ha].
  - intros w' Hw. destruct (H w' Hw) as [Hi Hk]. split; [done|]. intros x w'' Ho. apply IH. by apply Hk.
Qed.

(** ** Starting, crashing, starting again *)
Section system.
Context {R : Type} (starts : P R -> Prop) (post : R -> W -> Prop) (restart : W -> W).

Record system := System { sys_world : W; sys_running : option (P R) }.
Inductive system_step : system -> system -> Prop :=
  | outside_step w w' p : outside w w' -> system_step (System w p) (System w' p)
  | start_step w p : starts p -> system_step (System w None) (System (restart w) (Some p))
  | event_step w e k x w' : occurs e w x w' -> system_step (System w (Some (Vis e k))) (System w' (Some (k x)))
  | stop_step w p : system_step (System w (Some p)) (System w None).

Context (outside_ok : forall w w', outside w w' -> invariant_ok w -> invariant_ok w').
Context (starts_safe : forall p w, starts p -> invariant_ok w -> safe p post (restart w)).

Definition system_ok (s : system) : Prop :=
  invariant_ok (sys_world s) /\ match sys_running s with Some p => safe p post (sys_world s) | None => True end.

Lemma system_step_ok s s' : system_step s s' -> system_ok s -> system_ok s'.
Proof.
  intros [w w' p Ho|w p Hp|w e k x w' Ho|w p] [Hi Hr]; cbn in *.
  - split; [by eapply outside_ok|]. cbn. destruct p; [|done]. by eapply safe_outside; [|apply rtc_once].
  - pose proof (starts_safe _ _ Hp Hi) as Hs. split; [by eapply safe_now|done].
  - destruct (Hr w (rtc_refl _ _)) as [_ Hk]. specialize (Hk _ _ Ho). split; [by eapply safe_now|done].
  - done.
Qed.

(** A script of a run: the outside moves, a process starts, performs its next
    event as a handler answers it, or is killed. *)
Inductive action := Elsewhere (move : W -> W) | Launch (p : P R) | Perform | Kill.
Context (handler : forall e, W -> answer e * W).
Definition act_on (s : system) (a : action) : system :=
  match a, sys_running s with
  | Elsewhere move, p => System (move (sys_world s)) p
  | Launch p, None => System (restart (sys_world s)) (Some p)
  | Perform, Some (Vis e k) => let '(x, w') := handler e (sys_world s) in System w' (Some (k x))
  | Kill, Some _ => System (sys_world s) None
  | _, _ => s
  end.
Definition perform (script : list action) (s : system) : system := fold_left act_on script s.

Lemma perform_run script s :
  (forall e w, occurs e w (handler e w).1 (handler e w).2) ->
  Forall (fun a => match a with Elsewhere move => forall w, outside w (move w) \/ move w = w | Launch p => starts p | _ => True end) script ->
  rtc system_step s (perform script s).
Proof.
  intros Hh Hs. revert s. induction Hs as [|a script Ha _ IH]; intros [w p]; cbn; [done|]. etrans; [|apply IH].
  destruct a as [move|q| |]; cbn.
  - destruct (Ha w) as [Ho| ->]; [by apply rtc_once, outside_step|done].
  - destruct p; [done|]. by apply rtc_once, start_step.
  - destruct p as [[r|e k]|]; [done| |done]. pose proof (Hh e w). destruct (handler e w). by apply rtc_once, event_step.
  - destruct p; [|done]. apply rtc_once, stop_step.
Qed.

Lemma system_reachable w s : invariant_ok w -> rtc system_step (System w None) s -> system_ok s.
Proof. intros Hw Hs. by apply (rtc_preserve system_step system_ok system_step_ok _ _ Hs). Qed.
End system.
End processes.

Arguments System {event answer W R}.
Arguments sys_world {event answer W R}.
Arguments sys_running {event answer W R}.

(** ** Calls *)
Section calls.
Context {event : Type} {answer : event -> Type} {W F : Type}.
Abbreviation C := (call event answer F).
Context (occurs : forall e, W -> answer e -> W -> Prop) (outside : relation W) (invariant_ok : W -> Prop).
Abbreviation Safe := (safe occurs outside invariant_ok).

(** Of a call that throws, only that the invariant holds. *)
Definition yields {A} (Q : A -> W -> Prop) : result F A -> W -> Prop := fun r w => match r with Ok a => Q a w | Err _ => True end.

Lemma safe_call {A B} (m : C A) (f : A -> C B) (Q : B -> W -> Prop) w :
  Safe m (yields (fun a => Safe (f a) (yields Q))) w -> Safe (m ≫= f) (yields Q) w.
Proof.
  intros H. apply safe_then. enough (Hs : Safe m (fun r w' => invariant_ok w' /\ yields (fun a => Safe (f a) (yields Q)) r w' /\
    forall w'', rtc outside w' w'' -> invariant_ok w'') w).
  { eapply safe_weaken; [|exact Hs]. intros [a|e] w' (Hi & Hq & Ho); [done|]. intros w'' Hw. split; [by apply Ho|done]. }
  clear -H. revert w H. induction m as [r|e k IH]; intros w H w' Hw; destruct (H w' Hw) as [Hi Hk]; (split; [done|]).
  - split; [done|]. split; [done|]. intros w'' Hw'. apply H. by etrans.
  - intros x w'' Ho. apply IH. by apply Hk.
Qed.

Lemma safe_invariant {A} (p : prog event answer A) (Q : A -> W -> Prop) w :
  Safe p Q w -> Safe p (fun a w' => invariant_ok w' /\ Q a w') w.
Proof.
  revert w. induction p as [r|e k IH]; intros w H w' Hw; destruct (H w' Hw) as [Hi Hk]; (split; [done|]); [done|].
  intros x w'' Ho. apply IH. by apply Hk.
Qed.

(** ** Triples

    Where [Pre] holds the call keeps the invariant, and if it returns [a] then
    [Q a] holds.  Assertions are kept by the outside world. *)
Section triples.
Context (outside_ok : forall w w', outside w w' -> invariant_ok w -> invariant_ok w').
Definition stable (Pre : W -> Prop) : Prop := forall w w', outside w w' -> Pre w -> Pre w'.
Definition triple {A} (Pre : W -> Prop) (m : C A) (Q : A -> W -> Prop) : Prop :=
  forall w, invariant_ok w -> Pre w -> Safe m (yields Q) w.

Lemma outside_star w w' : rtc outside w w' -> invariant_ok w -> invariant_ok w'.
Proof. apply (rtc_preserve outside invariant_ok outside_ok). Qed.
Lemma stable_star (Pre : W -> Prop) w w' : stable Pre -> rtc outside w w' -> Pre w -> Pre w'.
Proof. intros H Hw. exact (rtc_preserve outside Pre H _ _ Hw). Qed.

Lemma triple_bind {A B} (m : C A) (f : A -> C B) (Pre : W -> Prop) (Q : A -> W -> Prop) (R : B -> W -> Prop) :
  triple Pre m Q -> (forall a, triple (Q a) (f a) R) -> triple Pre (m ≫= f) R.
Proof.
  intros Hm Hf w Hi Hp. apply safe_call. eapply safe_weaken; [|exact (safe_invariant _ _ _ (Hm w Hi Hp))].
  intros [a|e] w' [Hi' Hq]; [by apply Hf|done].
Qed.

Lemma triple_event {A} (e : event) (as_result : answer e -> result F A) (Pre : W -> Prop) (Q : A -> W -> Prop) :
  stable Pre -> (forall a, stable (Q a)) ->
  (forall w x w', invariant_ok w -> Pre w -> occurs e w x w' ->
     invariant_ok w' /\ forall a, as_result x = Ok a -> Q a w') ->
  triple Pre (trigger_result e as_result) Q.
Proof.
  intros Hst Hq H w Hi Hp w' Hw. pose proof (outside_star _ _ Hw Hi) as Hi'. split; [done|]. intros x w'' Ho.
  destruct (H _ _ _ Hi' (stable_star _ _ _ Hst Hw Hp) Ho) as [Hi'' Ha]. intros w3 Hw3.
  split; [by eapply outside_star|]. unfold yields. destruct (as_result x) as [a|] eqn:Hx; [|done].
  eapply stable_star; [by apply Hq|done|by apply Ha].
Qed.

Lemma triple_result {A} (r : result F A) (Pre : W -> Prop) (Q : A -> W -> Prop) :
  (forall a, stable (Q a)) -> (forall a w, invariant_ok w -> r = Ok a -> Pre w -> Q a w) -> triple Pre (lift_result r) Q.
Proof.
  intros Hq H w Hi Hp w' Hw. split; [by eapply outside_star|]. destruct r as [a|e]; cbn; [|done].
  eapply stable_star; [by apply Hq|done|by apply H].
Qed.

Lemma triple_pre {A} (m : C A) (Pre Pre' : W -> Prop) (Q : A -> W -> Prop) :
  (forall w, invariant_ok w -> Pre w -> Pre' w) -> triple Pre' m Q -> triple Pre m Q.
Proof. intros H Hm w Hi Hp. apply Hm; [done|by apply H]. Qed.

(** What neither the outside world nor any event takes away stays true. *)
Lemma triple_frame {A} (m : C A) (Pre Q : W -> Prop) (R : A -> W -> Prop) :
  stable Q -> (forall e w x w', occurs e w x w' -> Q w -> Q w') ->
  triple Pre m R -> triple (fun w => Pre w /\ Q w) m (fun a w => R a w /\ Q w).
Proof.
  intros Hst He Hm w Hi [Hp Hq]. specialize (Hm w Hi Hp). clear Hi Hp. revert w Hm Hq.
  induction m as [r|e k IH]; intros w Hm Hq w' Hw; destruct (Hm w' Hw) as [Hi Hk];
    pose proof (stable_star _ _ _ Hst Hw Hq) as Hq'; (split; [done|]).
  - by destruct r.
  - intros x w'' Ho. apply IH; [by apply Hk|by eapply He].
Qed.

Lemma triple_post {A} (m : C A) (Pre : W -> Prop) (Q R : A -> W -> Prop) :
  (forall a w, Q a w -> R a w) -> triple Pre m Q -> triple Pre m R.
Proof. intros H Hm w Hi Hp. eapply safe_weaken; [|by apply Hm]. intros [a|e] w'; [apply H|done]. Qed.
End triples.
End calls.
