(* ===== verification/IsoTime.v ===== *)
(** * ISO 8601 texts of instants

    [new Date(ms).toISOString()] and the prefixes of it the services use as
    keys: the UTC day ([slice(0, 10)]) and minute ([slice(0, 16)]), for the
    four-digit years.  A stored timestamp that is written by [toISOString] and
    read back by [Date.parse] is represented in the records of the services by
    the instant, in milliseconds, that it denotes. *)
From S2P Require Import Prelude Js Calendar.
Open Scope Z_scope.

Definition pad2 (n : Z) : list ascii := padStart0 2 (toString n).

(** [date.toISOString().slice(0, 10)] *)
Definition iso_day_chars (ms : Z) : list ascii :=
  padStart0 4 (toString (getUTCFullYear ms)) ++ "-"%char :: pad2 (getUTCMonth ms + 1) ++ "-"%char :: pad2 (getUTCDate ms).
Definition iso_day (ms : Z) : string := unchars (iso_day_chars ms).

(** The time of day, in milliseconds. *)
Definition TimeWithinDay (ms : Z) : Z := ms mod msPerDay.

(** [date.toISOString().slice(0, 16)] *)
Definition iso_minute_chars (ms : Z) : list ascii :=
  let t := TimeWithinDay ms in
  iso_day_chars ms ++ "T"%char :: pad2 (t / 3600000) ++ ":"%char :: pad2 (t / 60000 mod 60).
Definition iso_minute (ms : Z) : string := unchars (iso_minute_chars ms).

Definition toISOString (ms : Z) : string :=
  let t := TimeWithinDay ms in
  unchars (iso_minute_chars ms ++ ":"%char :: pad2 (t / 1000 mod 60) ++ "."%char ::
           padStart0 3 (toString (t mod 1000)) ++ ["Z"%char]).

Example iso_example : toISOString 1771027200123 = "2026-02-14T00:00:00.123Z".
Proof. vm_compute. reflexivity. Qed.

(** ** The order of the texts is the order of the days *)

(** [a < b] of strings: by code units. *)
Fixpoint lex_lt (a b : list ascii) : bool :=
  match a, b with
  | _, [] => false
  | [], _ :: _ => true
  | x :: a', y :: b' => (ascii_Z x <? ascii_Z y) || ((ascii_Z x =? ascii_Z y) && lex_lt a' b')
  end.
Definition js_lt (a b : string) : bool := lex_lt (chars a) (chars b).


Section order.
Implicit Types (a b : list ascii).

Lemma ascii_Z_inj x y : ascii_Z x = ascii_Z y -> x = y.
Proof. unfold ascii_Z. intros H%N2Z.inj. by rewrite <- (ascii_N_embedding x), H, ascii_N_embedding. Qed.

Lemma lex_lt_irrefl a : lex_lt a a = false.
Proof. induction a as [|x a IH]; simpl; [done|]. by rewrite IH, Z.ltb_irrefl, andb_false_r. Qed.

Lemma lex_lt_trans a b c : lex_lt a b = true -> lex_lt b c = true -> lex_lt a c = true.
Proof.
  revert a c. induction b as [|y b IH]; intros [|x a] [|z c]; simpl; try done.
  rewrite !orb_true_iff, !andb_true_iff, !Z.ltb_lt, !Z.eqb_eq.
  intros [H1|[H1 H1']] [H2|[H2 H2']]; [left; lia..|right]. split; [lia|eauto].
Qed.

Lemma lex_lt_total a b : lex_lt a b = false -> lex_lt b a = false -> a = b.
Proof.
  revert b. induction a as [|x a IH]; intros [|y b]; simpl; try done.
  rewrite !orb_false_iff, !andb_false_iff, !Z.ltb_ge, !Z.eqb_neq. intros [H1 [H2|H2]] [H3 [H4|H4]]; try lia.
  rewrite (IH b); [|done..]. f_equal. apply ascii_Z_inj. lia.
Qed.

Lemma lex_lt_app a b a' b' :
  length a = length a' -> lex_lt (a ++ b) (a' ++ b') = lex_lt a a' || (bool_decide (a = a') && lex_lt b b').
Proof.
  revert a'. induction a as [|x a IH]; intros [|x' a'] Hl; simpl in *; [done|lia|lia|].
  rewrite IH by lia. destruct (Z.ltb_spec (ascii_Z x) (ascii_Z x')); simpl; [done|].
  destruct (Z.eqb_spec (ascii_Z x) (ascii_Z x')) as [He|He]; simpl.
  - apply ascii_Z_inj in He as ->. f_equal. f_equal. apply bool_decide_ext. split; congruence.
  - rewrite bool_decide_false; [done|]. congruence.
Qed.

(** Digit strings of one length compare as the numbers they denote. *)
Lemma lex_lt_digits a b :
  length a = length b -> forallb is_digit a = true -> forallb is_digit b = true ->
  lex_lt a b = (BigInt a <? BigInt b) /\ (a = b <-> BigInt a = BigInt b).
Proof.
  revert b. induction a as [|x a IH]; intros [|y b] Hl; simpl in Hl; [done|lia|lia|]. cbn [forallb lex_lt].
  intros [Hx Ha]%andb_prop [Hy Hb]%andb_prop. destruct (IH b) as [IH1 IH2]; [lia|done..|].
  rewrite !BigInt_cons, IH1. replace (length b) with (length a) by lia.
  pose proof (BigInt_bounds a Ha). pose proof (BigInt_bounds b Hb). replace (length b) with (length a) in * by lia.
  unfold digit_val. set (p := 10 ^ Z.of_nat (length a)) in *. split.
  - destruct (Z.ltb_spec (ascii_Z x) (ascii_Z y)), (Z.eqb_spec (ascii_Z x) (ascii_Z y)); simpl; try lia.
    all: symmetry; first [apply Z.ltb_lt; nia | apply Z.ltb_ge; nia].
  - split; [by intros [= -> ->]|]. intros He. assert (ascii_Z x = ascii_Z y) as Hxy by nia.
    apply ascii_Z_inj in Hxy as ->. f_equal. apply IH2. lia.
Qed.
End order.

(** A number in a fixed number of digits. *)
Lemma padded_digits k n :
  (0 < k)%nat -> 0 <= n < 10 ^ Z.of_nat k ->
  length (padStart0 k (toString n)) = k /\ forallb is_digit (padStart0 k (toString n)) = true /\
  BigInt (padStart0 k (toString n)) = n.
Proof.
  intros Hk Hn. destruct (toString_spec n) as [Hv Hd]; [lia|]. split_and!.
  - apply length_padStart0. by apply toString_length.
  - unfold padStart0. rewrite forallb_app, (all_digits_forallb _ Hd), andb_true_r.
    apply forallb_forall. intros c Hc%list_elem_of_In%elem_of_replicate_inv. by subst.
  - by rewrite BigInt_padStart0.
Qed.

Lemma padded_lt k n m :
  (0 < k)%nat -> 0 <= n < 10 ^ Z.of_nat k -> 0 <= m < 10 ^ Z.of_nat k ->
  lex_lt (padStart0 k (toString n)) (padStart0 k (toString m)) = (n <? m) /\
  bool_decide (padStart0 k (toString n) = padStart0 k (toString m)) = (n =? m).
Proof.
  intros Hk Hn Hm. destruct (padded_digits k n) as (Ln & Dn & Vn); [done..|].
  destruct (padded_digits k m) as (Lm & Dm & Vm); [done..|].
  destruct (lex_lt_digits _ _ (eq_trans Ln (eq_sym Lm)) Dn Dm) as [H1 H2]. rewrite Vn, Vm in *.
  split; [done|]. apply eq_true_iff_eq. by rewrite bool_decide_eq_true, Z.eqb_eq.
Qed.

Lemma padded_ltb k n m :
  (0 < k)%nat -> 0 <= n < 10 ^ Z.of_nat k -> 0 <= m < 10 ^ Z.of_nat k ->
  lex_lt (padStart0 k (toString n)) (padStart0 k (toString m)) = (n <? m).
Proof. intros. by apply padded_lt. Qed.
Lemma padded_eqb k n m :
  (0 < k)%nat -> 0 <= n < 10 ^ Z.of_nat k -> 0 <= m < 10 ^ Z.of_nat k ->
  bool_decide (padStart0 k (toString n) = padStart0 k (toString m)) = (n =? m).
Proof. intros. by apply padded_lt. Qed.

(** The years of four digits, from 1970. *)
Definition in_era (t : Z) : Prop := 0 <= t < 253402300800000.

Lemma era_year t : in_era t -> 1970 <= getUTCFullYear t <= 9999.
Proof.
  unfold in_era, getUTCFullYear, Day, msPerDay. intros Ht.
  pose proof (YearFromDay_spec (t / 86400000)) as Hy. set (y := YearFromDay _) in *. clearbody y.
  assert (0 <= t / 86400000 < 2932897) as Hd by (Z.to_euclidean_division_equations; lia).
  destruct (Z.le_gt_cases 1970 y); [|pose proof (DayFromYear_mono (y + 1) 1970 ltac:(lia)) as Hm; change (DayFromYear 1970) with 0 in Hm; lia].
  destruct (Z.le_gt_cases y 9999); [done|]. pose proof (DayFromYear_mono 10000 y ltac:(lia)) as Hm.
  change (DayFromYear 10000) with 2932897 in Hm. lia.
Qed.

Lemma month_start_mono leap m n : 0 <= m -> m <= n -> n <= 12 -> month_start leap m <= month_start leap n.
Proof.
  intros Hm Hmn Hn. assert (exists k, k = Z.to_nat (n - m)) as [k Hk] by eauto. revert n Hmn Hn Hk.
  induction k as [|k IH]; intros n Hmn Hn Hk; [replace n with m by lia; lia|].
  etrans; [apply (IH (n - 1)); lia|].
  pose proof (month_start_bounds leap (n - 1) ltac:(lia)) as (_ & Hd & _). unfold days_in_month in Hd.
  replace (n - 1 + 1) with n in Hd by lia. lia.
Qed.

(** The month and day of the month of a day of the year. *)
Lemma month_of_day (leap : bool) dy :
  0 <= dy < (if leap then 366 else 365) ->
  let m := MonthFromDayOfYear leap dy in
  0 <= m < 12 /\ month_start leap m <= dy < month_start leap (m + 1).
Proof. intros H. unfold MonthFromDayOfYear. destruct leap; simpl in *; repeat case_match; breflect; simpl; lia. Qed.

(** Dates, compared field by field. *)
Definition date_lt (s t : Z) : bool :=
  (getUTCFullYear s <? getUTCFullYear t)
  || ((getUTCFullYear s =? getUTCFullYear t)
      && ((getUTCMonth s <? getUTCMonth t)
          || ((getUTCMonth s =? getUTCMonth t) && (getUTCDate s <? getUTCDate t)))).

Lemma fields_spec t :
  let y := getUTCFullYear t in
  0 <= getUTCMonth t < 12 /\ 1 <= getUTCDate t <= 31 /\
  DayFromYear y <= Day t < DayFromYear (y + 1) /\
  Day t = DayFromYear y + month_start (is_leap y) (getUTCMonth t) + getUTCDate t - 1 /\
  getUTCDate t <= days_in_month (is_leap y) (getUTCMonth t).
Proof.
  unfold getUTCFullYear, getUTCMonth, getUTCDate. cbv zeta. pose proof (YearFromDay_spec (Day t)) as H.
  set (y := YearFromDay (Day t)) in *. pose proof (DaysInYear_spec y) as HD. unfold DaysInYear in HD.
  destruct (month_of_day (is_leap y) (Day t - DayFromYear y)) as [Hm Hb]; [lia|].
  set (m := MonthFromDayOfYear _ _) in *. pose proof (month_start_bounds (is_leap y) m Hm) as (_ & Hd & _).
  unfold days_in_month in *. lia.
Qed.

Lemma date_lt_Day s t : date_lt s t = (Day s <? Day t).
Proof.
  destruct (fields_spec s) as (M1 & D1 & Y1 & E1 & L1), (fields_spec t) as (M2 & D2 & Y2 & E2 & L2).
  unfold date_lt, days_in_month in *. set (y := getUTCFullYear s) in *. set (z := getUTCFullYear t) in *.
  destruct (Z.lt_trichotomy y z) as [Hyz|[Hyz|Hyz]].
  - rewrite (proj2 (Z.ltb_lt y z)) by done. pose proof (DayFromYear_mono (y + 1) z ltac:(lia)). symmetry. apply Z.ltb_lt. lia.
  - rewrite Hyz, Z.ltb_irrefl, Z.eqb_refl in *. simpl. set (m := getUTCMonth s) in *. set (n := getUTCMonth t) in *.
    destruct (Z.lt_trichotomy m n) as [Hmn|[Hmn|Hmn]].
    + rewrite (proj2 (Z.ltb_lt m n)) by done. pose proof (month_start_mono (is_leap z) (m + 1) n). symmetry. apply Z.ltb_lt. lia.
    + rewrite Hmn, Z.ltb_irrefl, Z.eqb_refl in *. simpl. apply eq_true_iff_eq. rewrite !Z.ltb_lt. lia.
    + rewrite (proj2 (Z.ltb_ge m n)), (proj2 (Z.eqb_neq m n)) by lia. simpl.
      pose proof (month_start_mono (is_leap z) (n + 1) m). symmetry. apply Z.ltb_ge. lia.
  - rewrite (proj2 (Z.ltb_ge y z)), (proj2 (Z.eqb_neq y z)) by lia. simpl.
    pose proof (DayFromYear_mono (z + 1) y ltac:(lia)). symmetry. apply Z.ltb_ge. lia.
Qed.

(** Day texts order as the days they name. *)
Lemma iso_day_lt s t : in_era s -> in_era t -> js_lt (iso_day s) (iso_day t) = (Day s <? Day t).
Proof.
  intros Hs%era_year Ht%era_year. rewrite <- date_lt_Day. unfold js_lt, iso_day, iso_day_chars, date_lt, pad2.
  rewrite !chars_unchars. destruct (fields_spec s) as (M1 & D1 & _), (fields_spec t) as (M2 & D2 & _).
  assert (forall k n, (0 < k)%nat -> 0 <= n < 10 ^ Z.of_nat k -> length (padStart0 k (toString n)) = k) as Hlen
    by (intros; by apply padded_digits).
  rewrite lex_lt_app by (rewrite !Hlen by (simpl; lia); done). cbn [lex_lt]. rewrite Z.ltb_irrefl, Z.eqb_refl.
  rewrite lex_lt_app by (rewrite !Hlen by (simpl; lia); done). cbn [lex_lt]. rewrite Z.ltb_irrefl, Z.eqb_refl.
  rewrite !padded_ltb, !padded_eqb by (simpl; lia). simpl.
  f_equal. f_equal. f_equal; [apply eq_true_iff_eq; rewrite !Z.ltb_lt; lia|].
  f_equal. apply eq_true_iff_eq. rewrite !Z.eqb_eq. lia.
Qed.

Lemma iso_day_eq s t : in_era s -> in_era t -> iso_day s = iso_day t -> Day s = Day t.
Proof.
  intros Hs Ht He. assert (forall a b, js_lt a b = true -> a <> b) as Hne by (intros a b Hl ->; unfold js_lt in Hl; by rewrite lex_lt_irrefl in Hl).
  pose proof (iso_day_lt s t Hs Ht). pose proof (iso_day_lt t s Ht Hs). unfold js_lt in *.
  rewrite He, lex_lt_irrefl in *. breflect. lia.
Qed.
