(* ===== verification/DevnetLedger.v ===== *)
(** * Hosted devnet: the durable journal

    [packages/hosted-devnet/src/contract.ts] and [ledger.ts]: the ledger of
    funded operations, its budgets and quotas, the preparation leases with
    their fences, and the operations of [DurableJournal].  Each operation is
    the change it makes to a cloned ledger, which [mutateJson] commits or
    discards as a whole.  The hash of an operation's key is a parameter. *)
From S2P Require Import Prelude Js Calendar IsoTime CasStore.
Open Scope Z_scope.

(** ** [contract.ts] *)

Definition FAUCET_RESERVATION_LAMPORTS : Z := 9000000.
Definition FAUCET_DAILY_GRANTS : Z := 30.
Definition FAUCET_DAILY_LAMPORTS : Z := 270000000.
Definition FAUCET_LIFETIME_LAMPORTS : Z := 1000000000.
Definition VISITOR_DAILY_GRANTS : Z := 3.
Definition IP_DAILY_GRANTS : Z := 12.
Definition OBSERVATION_RESERVATION_LAMPORTS : Z := 10000.
Definition OBSERVATION_LIFETIME_LAMPORTS : Z := 10000000.
Definition PREPARATION_LEASE_MS : Z := 45000.

Inductive OperationKind := faucet | observation.
Inductive OperationState := reserved | prepared | submitted | confirmed | failed | expired.
#[global] Instance OperationKind_eq_dec : EqDecision OperationKind. Proof. solve_decision. Defined.
#[global] Instance OperationState_eq_dec : EqDecision OperationState. Proof. solve_decision. Defined.

Record SignedAttempt := Attempt {
  at_signature : string; at_blockhash : string; lastValidBlockHeight : Z; serializedTransactionBase64 : string;
  preparedAt : Z; intent : list (string * string);
}.

Record DurableOperation := Operation {
  op_id : string; op_kind : OperationKind; op_state : OperationState; reservationLamports : Z; op_createdAt : Z;
  op_day : string; op_owner : option string; op_assetId : string; op_visitorHash : option string;
  op_ipHash : option string; op_bucket : option string; op_fence : option Z; op_attempt : option SignedAttempt;
  op_submittedAt : option Z; op_completedAt : option Z; op_errorCode : option string;
}.

Record PreparationLease := Lease { ls_operationId : string; ls_holder : string; ls_fence : Z; ls_expiresAt : Z }.

Abbreviation counters := (list (string * Z)).
Record DailyQuota := Quota { q_grants : Z; q_lamports : Z; q_visitors : counters; q_ips : counters }.

Record HostedDevnetLedger := Ledger {
  schemaVersion : Z; revision : Z; nextFence : Z; faucetDisabledReason : option string;
  faucetLifetimeLamports : Z; observationLifetimeLamports : Z; daily : list (string * DailyQuota);
  lease_faucet : option PreparationLease; lease_observation : option PreparationLease;
  operations : list (string * DurableOperation);
}.

Definition emptyLedger : HostedDevnetLedger := Ledger 1 0 0 None 0 0 [] None None [].

(** [ServiceError] by its code. *)
Inductive ServiceErrorCode :=
  | LEDGER_INVALID | FAUCET_DISABLED | GLOBAL_QUOTA | VISITOR_QUOTA | IP_QUOTA | OBSERVATION_BUDGET
  | OPERATION_STATE | LEASE_BUSY | LEASE_LOST.
Abbreviation jres := (result ServiceErrorCode).

(** ** Field updates *)

Definition leases (l : HostedDevnetLedger) (k : OperationKind) : option PreparationLease :=
  match k with faucet => lease_faucet l | observation => lease_observation l end.

Definition with_revision (r : Z) (l : HostedDevnetLedger) : HostedDevnetLedger :=
  Ledger (schemaVersion l) r (nextFence l) (faucetDisabledReason l) (faucetLifetimeLamports l)
    (observationLifetimeLamports l) (daily l) (lease_faucet l) (lease_observation l) (operations l).
Definition with_disabled (r : option string) (l : HostedDevnetLedger) : HostedDevnetLedger :=
  Ledger (schemaVersion l) (revision l) (nextFence l) r (faucetLifetimeLamports l)
    (observationLifetimeLamports l) (daily l) (lease_faucet l) (lease_observation l) (operations l).
Definition with_operation (id : string) (op : DurableOperation) (l : HostedDevnetLedger) : HostedDevnetLedger :=
  Ledger (schemaVersion l) (revision l) (nextFence l) (faucetDisabledReason l) (faucetLifetimeLamports l)
    (observationLifetimeLamports l) (daily l) (lease_faucet l) (lease_observation l)
    (om_set (operations l) id op).
Definition with_lease (k : OperationKind) (x : option PreparationLease) (l : HostedDevnetLedger) : HostedDevnetLedger :=
  Ledger (schemaVersion l) (revision l) (nextFence l) (faucetDisabledReason l) (faucetLifetimeLamports l)
    (observationLifetimeLamports l) (daily l)
    (match k with faucet => x | observation => lease_faucet l end)
    (match k with faucet => lease_observation l | observation => x end) (operations l).
Definition with_nextFence (f : Z) (l : HostedDevnetLedger) : HostedDevnetLedger :=
  Ledger (schemaVersion l) (revision l) f (faucetDisabledReason l) (faucetLifetimeLamports l)
    (observationLifetimeLamports l) (daily l) (lease_faucet l) (lease_observation l) (operations l).
Definition with_faucet_budget (lifetime : Z) (d : list (string * DailyQuota)) (l : HostedDevnetLedger) : HostedDevnetLedger :=
  Ledger (schemaVersion l) (revision l) (nextFence l) (faucetDisabledReason l) lifetime
    (observationLifetimeLamports l) d (lease_faucet l) (lease_observation l) (operations l).
Definition with_observation_budget (lifetime : Z) (l : HostedDevnetLedger) : HostedDevnetLedger :=
  Ledger (schemaVersion l) (revision l) (nextFence l) (faucetDisabledReason l) (faucetLifetimeLamports l)
    lifetime (daily l) (lease_faucet l) (lease_observation l) (operations l).

(** An operation with the fields the journal changes. *)
Definition op_with (state : OperationState) (fence : option Z) (attempt : option SignedAttempt)
    (submittedAt completedAt : option Z) (errorCode : option string) (o : DurableOperation) : DurableOperation :=
  Operation (op_id o) (op_kind o) state (reservationLamports o) (op_createdAt o) (op_day o) (op_owner o)
    (op_assetId o) (op_visitorHash o) (op_ipHash o) (op_bucket o) fence attempt submittedAt completedAt errorCode.

(** ** [ledger.ts] *)

Section journal.
(** [createHash('sha256').update(value).digest('hex')] *)
Context (hash : string -> string).

Definition utcDay (now : Z) : string := iso_day now.
Definition observationBucket (now : Z) : string := toISOString (now / 21600000 * 21600000).

Definition NUL : string := String (ascii_of_nat 0) "".
Definition grantOperationId (owner assetId day : string) : string :=
  "grant-" +:+ hash (day +:+ NUL +:+ owner +:+ NUL +:+ assetId).
Definition observationOperationId (assetId bucket : string) : string :=
  "observation-" +:+ hash (bucket +:+ NUL +:+ assetId).

(** [validate]: the checks a typed ledger does not satisfy by its type. *)
Definition validate (l : HostedDevnetLedger) : jres unit :=
  require ((schemaVersion l =? 1) && isSafeInteger (revision l) && isSafeInteger (nextFence l)) LEDGER_INVALID.

(** The mutation [mutate] passes to [mutateJson]. *)
Definition journal_mutation (change : HostedDevnetLedger -> jres HostedDevnetLedger) (l : HostedDevnetLedger)
    : jres HostedDevnetLedger :=
  validate l ;;
  l' ← change l;
  Ok (with_revision (revision l' + 1) l').

(** [if (text)]: null and the empty string are falsy. *)
Definition truthy (s : option string) : bool := match s with Some t => negb (bool_decide (t = "")) | None => false end.

(** [counter[key] ?? 0] and [counter[key] = (counter[key] ?? 0) + 1] *)
Definition count (m : counters) (k : string) : Z := default 0 (om_get m k).
Definition bump (m : counters) (k : string) : counters := om_set m k (count m k + 1).

(** [now] is the clock when the call starts, [now'] inside the mutation. *)
Definition reserveGrant (owner assetId visitorHash ipHash : string) (now now' : Z) (l : HostedDevnetLedger)
    : jres HostedDevnetLedger :=
  let day := utcDay now in
  let id := grantOperationId owner assetId day in
  require (negb (truthy (faucetDisabledReason l))) FAUCET_DISABLED ;;
  if om_has (operations l) id then Ok l
  else
    let quota := default (Quota 0 0 [] []) (om_get (daily l) day) in
    require (negb ((FAUCET_DAILY_GRANTS <=? q_grants quota)
                   || (FAUCET_DAILY_LAMPORTS <? q_lamports quota + FAUCET_RESERVATION_LAMPORTS)
                   || (FAUCET_LIFETIME_LAMPORTS <? faucetLifetimeLamports l + FAUCET_RESERVATION_LAMPORTS)))
      GLOBAL_QUOTA ;;
    require (count (q_visitors quota) visitorHash <? VISITOR_DAILY_GRANTS) VISITOR_QUOTA ;;
    require (count (q_ips quota) ipHash <? IP_DAILY_GRANTS) IP_QUOTA ;;
    let quota' := Quota (q_grants quota + 1) (q_lamports quota + FAUCET_RESERVATION_LAMPORTS)
                    (bump (q_visitors quota) visitorHash) (bump (q_ips quota) ipHash) in
    let op := Operation id faucet reserved FAUCET_RESERVATION_LAMPORTS now' day (Some owner) assetId
                (Some visitorHash) (Some ipHash) None None None None None None in
    Ok (with_operation id op
          (with_faucet_budget (faucetLifetimeLamports l + FAUCET_RESERVATION_LAMPORTS)
             (om_set (daily l) day quota') l)).

Definition reserveObservation (assetId : string) (now : Z) (l : HostedDevnetLedger) : jres HostedDevnetLedger :=
  let bucket := observationBucket now in
  let id := observationOperationId assetId bucket in
  if om_has (operations l) id then Ok l
  else
    require (observationLifetimeLamports l + OBSERVATION_RESERVATION_LAMPORTS <=? OBSERVATION_LIFETIME_LAMPORTS)
      OBSERVATION_BUDGET ;;
    let op := Operation id observation reserved OBSERVATION_RESERVATION_LAMPORTS now (utcDay now) None assetId
                None None (Some bucket) None None None None None in
    Ok (with_operation id op
          (with_observation_budget (observationLifetimeLamports l + OBSERVATION_RESERVATION_LAMPORTS) l)).

Definition is_active (s : OperationState) : bool :=
  match s with reserved | prepared | submitted => true | _ => false end.
Definition is_terminal (s : OperationState) : bool :=
  match s with confirmed | failed | expired => true | _ => false end.

(** [value.operations[id]] or an [OPERATION_STATE] error. *)
Definition operation_of (l : HostedDevnetLedger) (id : string) : jres DurableOperation :=
  match om_get (operations l) id with Some o => Ok o | None => Err OPERATION_STATE end.

(** [acquire(operation)]; [holder] is the fresh random identifier. *)
Definition acquire (operation : DurableOperation) (holder : string) (now : Z) (l : HostedDevnetLedger)
    : jres HostedDevnetLedger :=
  let kind := op_kind operation in
  current ← operation_of l (op_id operation);
  require (is_active (op_state current)) OPERATION_STATE ;;
  require (match leases l kind with Some lease => negb (now <? ls_expiresAt lease) | None => true end) LEASE_BUSY ;;
  let fence := nextFence l + 1 in
  let l1 := with_lease kind (Some (Lease (op_id operation) holder fence (now + PREPARATION_LEASE_MS)))
              (with_nextFence fence l) in
  Ok (if bool_decide (op_state current <> reserved) then
        with_operation (op_id operation)
          (op_with (op_state current) (Some fence) (op_attempt current) (op_submittedAt current)
             (op_completedAt current) (op_errorCode current) current) l1
      else l1).

(** The lease of the operation's kind is the given one. *)
Definition same_lease (l : HostedDevnetLedger) (o : DurableOperation) (id : string) (lease : PreparationLease) : bool :=
  match leases l (op_kind o) with
  | Some current =>
      bool_decide (ls_operationId current = id) && bool_decide (ls_holder current = ls_holder lease)
      && (ls_fence current =? ls_fence lease)
  | None => false
  end.
(** [Date.parse(current.expiresAt) > now] *)
Definition lease_live (l : HostedDevnetLedger) (o : DurableOperation) (now : Z) : bool :=
  match leases l (op_kind o) with Some current => now <? ls_expiresAt current | None => false end.

Definition persistPrepared (operationId : string) (lease : PreparationLease) (attempt : SignedAttempt) (now : Z)
    (l : HostedDevnetLedger) : jres HostedDevnetLedger :=
  operation ← operation_of l operationId;
  require (bool_decide (op_state operation = reserved)) OPERATION_STATE ;;
  require (same_lease l operation operationId lease && lease_live l operation now) LEASE_LOST ;;
  Ok (with_operation operationId
        (op_with prepared (Some (ls_fence lease)) (Some attempt) (op_submittedAt operation)
           (op_completedAt operation) (op_errorCode operation) operation) l).

(** Reads the ledger only. *)
Definition assertSendFence (operationId : string) (lease : PreparationLease) (now : Z) (l : HostedDevnetLedger) : jres unit :=
  validate l ;;
  match om_get (operations l) operationId with
  | None => Err LEASE_LOST
  | Some operation =>
      require ((bool_decide (op_state operation = prepared) || bool_decide (op_state operation = submitted))
               && bool_decide (op_fence operation = Some (ls_fence lease))
               && same_lease l operation operationId lease && lease_live l operation now) LEASE_LOST
  end.

(** The timestamps a new state sets. *)
Definition stamp_submitted (state : OperationState) (now : Z) (o : DurableOperation) : option Z :=
  if bool_decide (state = submitted) then Some now else op_submittedAt o.
Definition stamp_completed (state : OperationState) (now : Z) (o : DurableOperation) : option Z :=
  if is_terminal state then Some now else op_completedAt o.

Definition release (lease : PreparationLease) (state : option OperationState) (errorCode : option string) (now : Z)
    (l : HostedDevnetLedger) : jres HostedDevnetLedger :=
  operation ← operation_of l (ls_operationId lease);
  let sameLease := same_lease l operation (ls_operationId lease) lease in
  let ownsFence := sameLease && bool_decide (op_fence operation = Some (ls_fence lease)) && lease_live l operation now in
  let l1 := if sameLease then with_lease (op_kind operation) None l else l in
  match state with
  | None => Ok l1
  | Some state =>
      if is_terminal (op_state operation) then Ok l1
      else
        require ownsFence LEASE_LOST ;;
        require (bool_decide (op_state operation = prepared) || bool_decide (op_state operation = submitted))
          OPERATION_STATE ;;
        Ok (with_operation (ls_operationId lease)
              (op_with state (op_fence operation) (op_attempt operation) (stamp_submitted state now operation)
                 (stamp_completed state now operation) errorCode operation) l1)
  end.

Definition transition (operationId : string) (state : OperationState) (errorCode : option string) (now : Z)
    (l : HostedDevnetLedger) : jres HostedDevnetLedger :=
  operation ← operation_of l operationId;
  if is_terminal (op_state operation) then Ok l
  else
    require (bool_decide (op_attempt operation <> None)
             && (bool_decide (state = submitted) || is_terminal state)) OPERATION_STATE ;;
    Ok (with_operation operationId
          (op_with state (op_fence operation) (op_attempt operation)
             (if bool_decide (state = submitted) then Some (default now (op_submittedAt operation))
              else op_submittedAt operation)
             (stamp_completed state now operation) errorCode operation) l).

Definition disableFaucet (reason : string) (l : HostedDevnetLedger) : jres HostedDevnetLedger :=
  Ok (with_disabled (Some (default reason (faucetDisabledReason l))) l).

(** ** The calls of the journal *)

Inductive journal_call :=
  | CReserveGrant (owner assetId visitorHash ipHash : string) (now now' : Z)
  | CReserveObservation (assetId : string) (now : Z)
  | CAcquire (operation : DurableOperation) (holder : string) (now : Z)
  | CPersistPrepared (operationId : string) (lease : PreparationLease) (attempt : SignedAttempt) (now : Z)
  | CRelease (lease : PreparationLease) (state : option OperationState) (errorCode : option string) (now : Z)
  | CTransition (operationId : string) (state : OperationState) (errorCode : option string) (now : Z)
  | CDisableFaucet (reason : string).

Definition change_of (c : journal_call) : HostedDevnetLedger -> jres HostedDevnetLedger :=
  match c with
  | CReserveGrant owner assetId visitorHash ipHash now now' => reserveGrant owner assetId visitorHash ipHash now now'
  | CReserveObservation assetId now => reserveObservation assetId now
  | CAcquire operation holder now => acquire operation holder now
  | CPersistPrepared operationId lease attempt now => persistPrepared operationId lease attempt now
  | CRelease lease state errorCode now => release lease state errorCode now
  | CTransition operationId state errorCode now => transition operationId state errorCode now
  | CDisableFaucet reason => disableFaucet reason
  end.

(** What a call checks of its arguments before it reads the store. *)
Definition call_guard (c : journal_call) : jres unit :=
  match c with
  | CAcquire operation _ _ => require (is_active (op_state operation)) OPERATION_STATE
  | _ => Ok tt
  end.

(** One call, as the store commits it. *)
Definition journal_exec (c : journal_call) (l : HostedDevnetLedger) : jres HostedDevnetLedger :=
  call_guard c ;; journal_mutation (change_of c) l.
End journal.
