(* ===== verification/DevnetProps.v ===== *)
(** * Hosted devnet: the theorems on the durable journal

    The invariant of the ledger (budgets, quotas, attempts and fences), how it
    evolves, and what both mean for journal calls that run concurrently
    against one store. *)
From S2P Require Import Prelude Js Calendar IsoTime CasStore DevnetLedger.
Open Scope Z_scope.

(** ** Counting operations *)

Abbreviation ops := operations.

(** A measure of an operation that only depends on what never changes. *)
Definition fixed_part (o : DurableOperation) :=
  (op_id o, op_kind o, reservationLamports o, op_day o, op_owner o, op_assetId o, (op_visitorHash o, op_ipHash o, op_bucket o)).

Definition total (f : DurableOperation -> Z) (l : HostedDevnetLedger) : Z := om_sum f (ops l).
Definition one_if (b : bool) : Z := if b then 1 else 0.

Definition is_kind (k : OperationKind) (o : DurableOperation) : bool := bool_decide (op_kind o = k).
Definition granted (day : string) (o : DurableOperation) : bool := is_kind faucet o && bool_decide (op_day o = day).
Definition visitor_grants (day v : string) : HostedDevnetLedger -> Z :=
  total (fun o => one_if (granted day o && bool_decide (op_visitorHash o = Some v))).
Definition ip_grants (day v : string) : HostedDevnetLedger -> Z :=
  total (fun o => one_if (granted day o && bool_decide (op_ipHash o = Some v))).
Definition day_grants (day : string) : HostedDevnetLedger -> Z := total (fun o => one_if (granted day o)).
Definition reserved_lamports (k : OperationKind) : HostedDevnetLedger -> Z :=
  total (fun o => if is_kind k o then reservationLamports o else 0).

(** ** The invariant *)

Definition reservation_of (k : OperationKind) : Z :=
  match k with faucet => FAUCET_RESERVATION_LAMPORTS | observation => OBSERVATION_RESERVATION_LAMPORTS end.

Definition quota_of (l : HostedDevnetLedger) (day : string) : DailyQuota :=
  default (Quota 0 0 [] []) (om_get (daily l) day).

Record books_ok (l : HostedDevnetLedger) : Prop := {
  ok_reservations : forall id o, om_get (ops l) id = Some o -> op_id o = id /\ reservationLamports o = reservation_of (op_kind o);
  ok_faucet : faucetLifetimeLamports l = reserved_lamports faucet l /\ faucetLifetimeLamports l <= FAUCET_LIFETIME_LAMPORTS;
  ok_observation : observationLifetimeLamports l = reserved_lamports observation l /\
                   observationLifetimeLamports l <= OBSERVATION_LIFETIME_LAMPORTS;
  ok_day : forall d, q_grants (quota_of l d) = day_grants d l /\
                     q_lamports (quota_of l d) = FAUCET_RESERVATION_LAMPORTS * day_grants d l /\
                     day_grants d l <= FAUCET_DAILY_GRANTS;
  ok_visitors : forall d v, count (q_visitors (quota_of l d)) v = visitor_grants d v l /\ visitor_grants d v l <= VISITOR_DAILY_GRANTS;
  ok_ips : forall d v, count (q_ips (quota_of l d)) v = ip_grants d v l /\ ip_grants d v l <= IP_DAILY_GRANTS;
}.

(** An operation has an attempt exactly when it is no longer reserved. *)
Definition attempts_ok (l : HostedDevnetLedger) : Prop :=
  forall id o, om_get (ops l) id = Some o -> (op_state o = reserved <-> op_attempt o = None).

Definition fences_ok (l : HostedDevnetLedger) : Prop :=
  forall k x, leases l k = Some x -> ls_fence x <= nextFence l.

Record ledger_ok (l : HostedDevnetLedger) : Prop := {
  ledger_books : books_ok l; ledger_attempts : attempts_ok l; ledger_fences : fences_ok l;
}.

(** ** How a ledger evolves *)

(** An operation is never forgotten, its fixed part and its signed attempt
    never change, and once it is over nothing changes. *)
Definition op_later (o o' : DurableOperation) : Prop :=
  fixed_part o' = fixed_part o /\
  (forall a, op_attempt o = Some a -> op_attempt o' = Some a) /\
  (is_terminal (op_state o) = true -> o' = o).

Definition lease_later (l l' : HostedDevnetLedger) : Prop :=
  nextFence l <= nextFence l' /\
  forall k x, leases l' k = Some x -> leases l k = Some x \/ nextFence l < ls_fence x.

Definition ledger_later (l l' : HostedDevnetLedger) : Prop :=
  (forall id o, om_get (ops l) id = Some o -> exists o', om_get (ops l') id = Some o' /\ op_later o o') /\
  lease_later l l'.

#[export] Instance op_later_preorder : PreOrder op_later.
Proof.
  split.
  - intros o. by split_and!.
  - intros o1 o2 o3 (F1 & A1 & T1) (F2 & A2 & T2). split_and!; [congruence|auto|].
    intros Ht. pose proof (T1 Ht) as ->. auto.
Qed.
#[export] Instance ledger_later_preorder : PreOrder ledger_later.
Proof.
  split.
  - intros l. split; [intros id o Ho; exists o; done|]. split; [done|auto].
  - intros l1 l2 l3 (O1 & N1 & L1) (O2 & N2 & L2). split; [|split; [lia|]].
    + intros id o Ho. destruct (O1 _ _ Ho) as (o2 & H2 & R2). destruct (O2 _ _ H2) as (o3 & H3 & R3).
      exists o3. split; [done|]. by etrans.
    + intros k x Hx. destruct (L2 _ _ Hx) as [H2|H2]; [|right; lia]. auto.
Qed.

(** ** Replacing and adding operations *)

Lemma total_replace f l id o o' :
  om_get (ops l) id = Some o -> f o' = f o -> total f (with_operation id o' l) = total f l.
Proof. intros Ho Hf. unfold total. cbn. rewrite (om_sum_set_Some _ _ _ _ _ Ho). lia. Qed.

Lemma total_add f l id o : om_get (ops l) id = None -> total f (with_operation id o l) = total f l + f o.
Proof. intros Ho. unfold total. cbn. by rewrite (om_sum_set_None _ _ _ _ Ho). Qed.

Lemma get_with_operation l id o j :
  om_get (ops (with_operation id o l)) j = if bool_decide (id = j) then Some o else om_get (ops l) j.
Proof.
  cbn. case_bool_decide as Hj; [subst; apply om_get_set_eq|by apply om_get_set_ne].
Qed.

(** The books only look at operations, budgets and quotas. *)
Definition books (l : HostedDevnetLedger) := (ops l, faucetLifetimeLamports l, observationLifetimeLamports l, daily l).

Lemma books_ok_same l l' : books l' = books l -> books_ok l -> books_ok l'.
Proof.
  unfold books. intros [= Ho Hf Hob Hd] H.
  destruct H; split; unfold reserved_lamports, day_grants, visitor_grants, ip_grants, quota_of, total in *;
    rewrite ?Ho, ?Hf, ?Hob, ?Hd; done.
Qed.

Lemma books_ok_replace l id o o' :
  books_ok l -> om_get (ops l) id = Some o -> fixed_part o' = fixed_part o -> books_ok (with_operation id o' l).
Proof.
  intros H Ho [= Hi Hk Hr Hd _ _ Hv Hip _].
  assert (forall f, f o' = f o -> total f (with_operation id o' l) = total f l) as Ht
    by (intros f Hf; by eapply total_replace).
  destruct H. split; unfold reserved_lamports, day_grants, visitor_grants, ip_grants in *.
  - intros j p. rewrite get_with_operation. case_bool_decide; [|by apply ok_reservations0].
    intros [= <-]. destruct (ok_reservations0 _ _ Ho). split; congruence.
  - rewrite Ht; [done|]. unfold is_kind. by rewrite Hk, Hr.
  - rewrite Ht; [done|]. unfold is_kind. by rewrite Hk, Hr.
  - intros d. rewrite Ht; [apply ok_day0|]. unfold granted, is_kind. by rewrite Hk, Hd.
  - intros d v. rewrite Ht; [apply ok_visitors0|]. unfold granted, is_kind. by rewrite Hk, Hd, Hv.
  - intros d v. rewrite Ht; [apply ok_ips0|]. unfold granted, is_kind. by rewrite Hk, Hd, Hip.
Qed.

(** A change of leases, fences, the revision or the disabling reason only. *)
Definition framed (l l1 : HostedDevnetLedger) : Prop := books l1 = books l /\ lease_later l l1 /\ fences_ok l1.

Definition evolves (l l' : HostedDevnetLedger) : Prop := ledger_ok l' /\ ledger_later l l'.

Lemma framed_evolves l l1 : ledger_ok l -> framed l l1 -> evolves l l1.
Proof.
  intros [Hb Ha Hf] (Hbk & Hl & Hf1). pose proof Hbk as Hops. unfold books in Hops. injection Hops as Ho _ _ _.
  split; [split|].
  - by eapply books_ok_same.
  - intros id o. rewrite Ho. apply Ha.
  - done.
  - split; [|done]. intros id o. rewrite Ho. intros. by exists o.
Qed.

Lemma replace_evolves l l1 id o o' :
  ledger_ok l -> framed l l1 -> om_get (ops l) id = Some o -> op_later o o' ->
  (op_state o' = reserved <-> op_attempt o' = None) -> evolves l (with_operation id o' l1).
Proof.
  intros Hok Hfr Ho Hlat Hst. pose proof (framed_evolves _ _ Hok Hfr) as [[Hb Ha Hf] [Hops Hlease]].
  destruct Hfr as (Hbk & _ & _). injection Hbk as Hopeq _ _ _.
  assert (om_get (ops l1) id = Some o) as Ho1 by (by rewrite Hopeq).
  split; [split|split].
  - eapply books_ok_replace; [done|done|apply Hlat].
  - intros j p. rewrite get_with_operation. case_bool_decide; [by intros [= <-]|apply Ha].
  - exact Hf.
  - intros j p Hj. rewrite get_with_operation. case_bool_decide as Hij.
    + subst. exists o'. split; [done|]. rewrite Ho in Hj. by injection Hj as <-.
    + exists p. rewrite Hopeq. done.
  - exact Hlease.
Qed.

Lemma add_evolves l l1 id o :
  ledger_ok l -> om_get (ops l) id = None -> ops l1 = ops l -> lease_later l l1 -> fences_ok l1 ->
  books_ok (with_operation id o l1) -> op_state o = reserved -> op_attempt o = None ->
  evolves l (with_operation id o l1).
Proof.
  intros [Hb Ha Hf] Hn Ho Hl Hf1 Hb1 Hs Hat. split; [split|split].
  - done.
  - intros j p. rewrite get_with_operation, Ho. case_bool_decide; [by intros [= <-]|apply Ha].
  - exact Hf1.
  - intros j p Hj. rewrite get_with_operation, Ho. case_bool_decide as Hij; [congruence|]. by exists p.
  - exact Hl.
Qed.

Lemma lease_later_refl l : lease_later l l.
Proof. split; [done|auto]. Qed.

Lemma framed_refl l : fences_ok l -> framed l l.
Proof. intros. split_and!; [done|apply lease_later_refl|done]. Qed.

Lemma leases_with k x l j : leases (with_lease k x l) j = if bool_decide (j = k) then x else leases l j.
Proof. by destruct k, j. Qed.

Lemma framed_drop_lease k l : fences_ok l -> framed l (with_lease k None l).
Proof.
  intros Hf. split_and!; [done| |].
  - split; [done|]. intros j x. rewrite leases_with. case_bool_decide; [done|auto].
  - intros j x. rewrite leases_with. case_bool_decide; [done|apply Hf].
Qed.

Lemma framed_new_lease k l id holder e :
  fences_ok l -> framed l (with_lease k (Some (Lease id holder (nextFence l + 1) e)) (with_nextFence (nextFence l + 1) l)).
Proof.
  intros Hf. split_and!; [done| |].
  - split; [cbn; lia|]. intros j x. rewrite leases_with. case_bool_decide; [|by left].
    intros [= <-]. right. cbn. lia.
  - intros j x. rewrite leases_with. case_bool_decide; [intros [= <-]; cbn; lia|].
    intros Hx. change (ls_fence x <= nextFence l + 1). specialize (Hf j x Hx). lia.
Qed.

Lemma framed_revision l l' r : framed l l' -> framed l (with_revision r l').
Proof. intros (Hb & Hl & Hf). by split_and!. Qed.

Lemma evolves_revision l l' r : evolves l l' -> evolves l (with_revision r l').
Proof.
  intros [[Hb Ha Hf] [Ho Hl]]. split; [split|split].
  - by apply (books_ok_same l').
  - exact Ha.
  - exact Hf.
  - exact Ho.
  - exact Hl.
Qed.

(** ** The calls *)

Lemma count_bump m k j : count (bump m k) j = count m j + one_if (bool_decide (k = j)).
Proof.
  unfold count at 1, bump. case_bool_decide as Hj; cbn.
  - subst. by rewrite om_get_set_eq.
  - rewrite om_get_set_ne by done. unfold count. lia.
Qed.

Lemma om_has_false {V} (m : list (string * V)) k : om_has m k = false -> om_get m k = None.
Proof. unfold om_has. by destruct (om_get m k). Qed.

Lemma operation_of_Ok l id o : operation_of l id = Ok o -> om_get (ops l) id = Some o.
Proof. unfold operation_of. destruct (om_get _ _); [|done]. by intros ->%Ok_inj. Qed.


Lemma quota_of_set l d q lifetime d' :
  quota_of (with_faucet_budget lifetime (om_set (daily l) d q) l) d' = if bool_decide (d = d') then q else quota_of l d'.
Proof.
  unfold quota_of. cbn. case_bool_decide as Hd; [subst; by rewrite om_get_set_eq|by rewrite om_get_set_ne].
Qed.

(** The books after a grant was reserved within its limits. *)
Lemma grant_books l id o day v ip :
  books_ok l -> om_get (ops l) id = None ->
  op_id o = id -> op_kind o = faucet -> reservationLamports o = FAUCET_RESERVATION_LAMPORTS -> op_day o = day ->
  op_visitorHash o = Some v -> op_ipHash o = Some ip ->
  let q := quota_of l day in
  q_grants q < FAUCET_DAILY_GRANTS -> faucetLifetimeLamports l + FAUCET_RESERVATION_LAMPORTS <= FAUCET_LIFETIME_LAMPORTS ->
  count (q_visitors q) v < VISITOR_DAILY_GRANTS -> count (q_ips q) ip < IP_DAILY_GRANTS ->
  books_ok (with_operation id o (with_faucet_budget (faucetLifetimeLamports l + FAUCET_RESERVATION_LAMPORTS)
    (om_set (daily l) day (Quota (q_grants q + 1) (q_lamports q + FAUCET_RESERVATION_LAMPORTS)
       (bump (q_visitors q) v) (bump (q_ips q) ip))) l)).
Proof.
  intros [Hr [Hf Hf'] [Ho Ho'] Hd Hv Hi] Hn Hid Hk Hres Hday Hvis Hip q Hg Hl Hvl Hil.
  set (l1 := with_faucet_budget _ _ l).
  assert (forall f, total f (with_operation id o l1) = total f l + f o) as Ht by (intros f; by rewrite total_add).
  assert (forall d, quota_of (with_operation id o l1) d = if bool_decide (day = d) then _ else quota_of l d) as Hq
    by (intros d; apply quota_of_set).
  destruct (Hd day) as (Hg1 & Hg2 & Hg3). destruct (Hv day v) as [Hv1 Hv2]. destruct (Hi day ip) as [Hi1 Hi2].
  fold q in Hg1, Hg2, Hv1, Hi1.
  assert (forall d, granted d o = bool_decide (day = d)) as Hgr
    by (intros d; unfold granted, is_kind; by rewrite Hk, Hday, bool_decide_true).
  split; unfold reserved_lamports, day_grants, visitor_grants, ip_grants in *.
  - intros j p. rewrite get_with_operation. case_bool_decide as Hj; [|by apply Hr].
    intros [= <-]. subst j. split; [done|]. by rewrite Hk.
  - rewrite Ht. unfold is_kind at 2. rewrite Hk, bool_decide_true by done. cbn. rewrite Hres. lia.
  - rewrite Ht. unfold is_kind at 2. rewrite Hk, bool_decide_false by done. cbn. split; [lia|done].
  - intros d. rewrite Ht, Hq, Hgr. destruct (Hd d) as (Hd1 & Hd2 & Hd3).
    case_bool_decide as Hdd; cbn [one_if q_grants q_lamports]; [subst d; fold q in Hd1, Hd2|lia].
    unfold FAUCET_DAILY_GRANTS, FAUCET_RESERVATION_LAMPORTS in *. lia.
  - intros d w. rewrite Ht, Hq, Hgr, Hvis. destruct (Hv d w) as [Hw1 Hw2].
    case_bool_decide as Hdd; cbn [one_if andb q_visitors]; [subst d|lia].
    rewrite count_bump, (bool_decide_ext (Some v = Some w) (v = w)) by (split; congruence). fold q in Hw1.
    case_bool_decide as Hvw; cbn [one_if]; [subst w|]; lia.
  - intros d w. rewrite Ht, Hq, Hgr, Hip. destruct (Hi d w) as [Hw1 Hw2].
    case_bool_decide as Hdd; cbn [one_if andb q_ips]; [subst d|lia].
    rewrite count_bump, (bool_decide_ext (Some ip = Some w) (ip = w)) by (split; congruence). fold q in Hw1.
    case_bool_decide as Hvw; cbn [one_if]; [subst w|]; lia.
Qed.

Lemma reserveGrant_evolves hash owner assetId v ip now now' l l' :
  reserveGrant hash owner assetId v ip now now' l = Ok l' -> ledger_ok l -> evolves l l'.
Proof.
  intros H Hok. unfold reserveGrant in H. minv H.
  destruct (om_has _ _) eqn:Hh.
  { apply Ok_inj in R0 as <-. apply framed_evolves; [done|]. apply framed_refl. by destruct Hok. }
  minv R0. breflect. apply om_has_false in Hh. destruct Hok as [Hb Ha Hf].
  apply add_evolves; try done; [exact (lease_later_refl l)|].
  by apply grant_books.
Qed.

Lemma observation_books l id o :
  books_ok l -> om_get (ops l) id = None ->
  op_id o = id -> op_kind o = observation -> reservationLamports o = OBSERVATION_RESERVATION_LAMPORTS ->
  observationLifetimeLamports l + OBSERVATION_RESERVATION_LAMPORTS <= OBSERVATION_LIFETIME_LAMPORTS ->
  books_ok (with_operation id o
    (with_observation_budget (observationLifetimeLamports l + OBSERVATION_RESERVATION_LAMPORTS) l)).
Proof.
  intros [Hr [Hf Hf'] [Ho Ho'] Hd Hv Hi] Hn Hid Hk Hres Hl. set (l1 := with_observation_budget _ l).
  assert (forall f, total f (with_operation id o l1) = total f l + f o) as Ht by (intros f; by rewrite total_add).
  assert (forall d, granted d o = false) as Hgr
    by (intros d; unfold granted, is_kind; by rewrite Hk, bool_decide_false).
  split; unfold reserved_lamports, day_grants, visitor_grants, ip_grants in *.
  - intros j p. rewrite get_with_operation. case_bool_decide as Hj; [|by apply Hr].
    intros [= <-]. subst j. split; [done|]. by rewrite Hk.
  - rewrite Ht. unfold is_kind at 2. rewrite Hk, bool_decide_false by done. cbn. split; [lia|done].
  - rewrite Ht. unfold is_kind at 2. rewrite Hk, bool_decide_true by done. cbn. rewrite Hres. lia.
  - intros d. rewrite Ht, Hgr. cbn [one_if]. rewrite Z.add_0_r. apply Hd.
  - intros d w. rewrite Ht, Hgr. cbn [one_if andb]. rewrite Z.add_0_r. apply Hv.
  - intros d w. rewrite Ht, Hgr. cbn [one_if andb]. rewrite Z.add_0_r. apply Hi.
Qed.

Lemma reserveObservation_evolves hash assetId now l l' :
  reserveObservation hash assetId now l = Ok l' -> ledger_ok l -> evolves l l'.
Proof.
  intros H Hok. unfold reserveObservation in H. destruct (om_has _ _) eqn:Hh.
  { apply Ok_inj in H as <-. apply framed_evolves; [done|]. apply framed_refl. by destruct Hok. }
  minv H. breflect. apply om_has_false in Hh. destruct Hok as [Hb Ha Hf].
  apply add_evolves; try done; [exact (lease_later_refl l)|]. by apply observation_books.
Qed.

(** Updates of an operation that keep its attempt. *)
Lemma op_later_with o st f e s c :
  is_terminal (op_state o) = false -> op_later o (op_with st f (op_attempt o) s c e o).
Proof. intros Ht. split_and!; [done|by intros|by rewrite Ht]. Qed.

Lemma active_not_terminal s : is_active s = true -> is_terminal s = false.
Proof. by destruct s. Qed.

Lemma acquire_evolves o holder now l l' :
  acquire o holder now l = Ok l' -> ledger_ok l -> evolves l l'.
Proof.
  intros H Hok. unfold acquire in H. minv H. found operation_of_Ok as Ho. pose proof Hok as [_ Ha Hf].
  pose proof (framed_new_lease (op_kind o) l (op_id o) holder (now + PREPARATION_LEASE_MS) Hf) as Hfr.
  case_bool_decide as Hs; [|by apply framed_evolves].
  eapply replace_evolves; try done.
  - apply op_later_with, active_not_terminal. done.
  - apply (Ha _ _ Ho).
Qed.

Lemma persistPrepared_evolves id lease attempt now l l' :
  persistPrepared id lease attempt now l = Ok l' -> ledger_ok l -> evolves l l'.
Proof.
  intros H Hok. unfold persistPrepared in H. minv H. found operation_of_Ok as Ho. breflect. pose proof Hok as [_ Ha Hf].
  assert (op_attempt a = None) as Hn by (by apply (Ha _ _ Ho)).
  eapply replace_evolves; try done.
  - by apply framed_refl.
  - split_and!; [done|congruence|]. match goal with H : op_state a = reserved |- _ => by rewrite H end.
Qed.

Lemma release_evolves lease state e now l l' :
  release lease state e now l = Ok l' -> state <> Some reserved -> ledger_ok l -> evolves l l'.
Proof.
  intros H Hst Hok. unfold release in H. minv H. found operation_of_Ok as Ho. pose proof Hok as [_ Ha Hf].
  match goal with H : match _ with _ => _ end = Ok _ |- _ => rename H into Hrel end.
  set (l1 := if same_lease _ _ _ _ then _ else l) in Hrel.
  assert (framed l l1) as Hfr.
  { unfold l1. destruct (same_lease _ _ _ _); [by apply framed_drop_lease|by apply framed_refl]. }
  destruct state as [state|]; [|apply Ok_inj in Hrel as <-; by apply framed_evolves].
  destruct (is_terminal (op_state a)) eqn:Ht; [apply Ok_inj in Hrel as <-; by apply framed_evolves|].
  minv Hrel. eapply replace_evolves; try done; [by apply op_later_with|].
  match goal with H : _ || _ = true |- _ => apply orb_prop in H as [H|H]; apply bool_decide_eq_true in H end.
  all: cbn; split; [congruence|]; intros Hn%(Ha _ _ Ho); congruence.
Qed.

Lemma transition_evolves id state e now l l' :
  transition id state e now l = Ok l' -> ledger_ok l -> evolves l l'.
Proof.
  intros H Hok. unfold transition in H. minv H. found operation_of_Ok as Ho. pose proof Hok as [_ Ha Hf].
  destruct (is_terminal (op_state a)) eqn:Ht.
  { apply Ok_inj in R0 as <-. apply framed_evolves; [done|]. by apply framed_refl. }
  minv R0. breflect. eapply replace_evolves; try done; [by apply framed_refl|by apply op_later_with|].
  cbn. split; [|done]. intros ->. done.
Qed.

Lemma disableFaucet_evolves reason l l' : disableFaucet reason l = Ok l' -> ledger_ok l -> evolves l l'.
Proof. intros <-%Ok_inj Hok. apply framed_evolves; [done|]. split_and!; [done|exact (lease_later_refl l)|apply Hok]. Qed.

(** The service never puts an operation back to reserved. *)
Definition call_ok (c : journal_call) : Prop :=
  match c with CRelease _ state _ _ => state <> Some reserved | _ => True end.

Lemma journal_mutation_evolves hash c l l' :
  call_ok c -> journal_mutation (change_of hash c) l = Ok l' -> ledger_ok l -> evolves l l'.
Proof.
  intros Hc H Hok. unfold journal_mutation in H. minv H. apply evolves_revision.
  match goal with H : change_of _ _ _ = Ok _ |- _ => rename H into Hch end.
  destruct c; cbn [change_of call_ok] in *;
    eauto using reserveGrant_evolves, reserveObservation_evolves, acquire_evolves, persistPrepared_evolves,
      release_evolves, transition_evolves, disableFaucet_evolves.
Qed.

Lemma journal_exec_evolves hash c l l' :
  call_ok c -> journal_exec hash c l = Ok l' -> ledger_ok l -> evolves l l'.
Proof. intros Hc (u & _ & H)%bind_Ok_inv. by apply (journal_mutation_evolves hash c). Qed.

Lemma empty_ok : ledger_ok emptyLedger.
Proof. by split; [split|intros id o|intros []]. Qed.

(** ** Concurrent calls on one store *)

(** The ledger a send was accepted on holds the lease it was accepted with. *)
Definition accepts_send (k : OperationKind) (id : string) (lease : PreparationLease) (l : HostedDevnetLedger) : Prop :=
  exists o now, om_get (ops l) id = Some o /\ op_kind o = k /\ assertSendFence id lease now l = Ok tt.

Lemma accepts_send_lease k id lease l :
  accepts_send k id lease l ->
  exists x, leases l k = Some x /\ ls_fence x = ls_fence lease /\ ls_holder x = ls_holder lease /\ ls_operationId x = id.
Proof.
  intros (o & now & Ho & <- & Ha). unfold assertSendFence in Ha. minv Ha. rewrite Ho in *. minv R0.
  unfold same_lease in *. destruct (leases l (op_kind o)) as [x|]; [|breflect; done]. breflect. by exists x.
Qed.

Section concurrent.
Context {S : Type} `{JsonCasStoreLaws S HostedDevnetLedger} (hash : string -> string).
Context (calls : nat -> nat -> journal_call) (calls_ok : forall i n, call_ok (calls i n)).
Abbreviation ledger_in := (value_of emptyLedger).
Abbreviation run := (rtc (step emptyLedger (fun i n => journal_exec hash (calls i n)))).

Lemma run_evolves s attempts x y :
  ledger_ok (ledger_in s) -> run (started s attempts) x -> run x y ->
  ledger_ok (ledger_in (sys_store x)) /\ ledger_later (ledger_in (sys_store x)) (ledger_in (sys_store y)).
Proof.
  intros Hs Hx Hy. eapply (reachable_related _ _ ledger_ok ledger_later); [|done|exact Hx|exact Hy].
  intros i n v v' Hm Hv. exact (journal_exec_evolves hash _ _ _ (calls_ok i n) Hm Hv).
Qed.

(** C27: the budgets of the devnet service hold whatever calls run
    concurrently: all faucet reservations ever made stay within the lifetime
    budget, as do the observations, and on every day the grants, the lamports
    they reserve, and the grants of each visitor and each network stay within
    their limits - counted over the recorded operations themselves. *)
Theorem devnet_budgets_hold s attempts x :
  ledger_ok (ledger_in s) -> run (started s attempts) x ->
  let l := ledger_in (sys_store x) in
  reserved_lamports faucet l <= FAUCET_LIFETIME_LAMPORTS /\
  reserved_lamports observation l <= OBSERVATION_LIFETIME_LAMPORTS /\
  forall day, day_grants day l <= FAUCET_DAILY_GRANTS /\
    FAUCET_RESERVATION_LAMPORTS * day_grants day l <= FAUCET_DAILY_LAMPORTS /\
    (forall v, visitor_grants day v l <= VISITOR_DAILY_GRANTS) /\ (forall ip, ip_grants day ip l <= IP_DAILY_GRANTS).
Proof.
  intros Hs Hx l. destruct (run_evolves s attempts x x Hs Hx) as [[[Hr [Hf Hf'] [Ho Ho'] Hd Hv Hi] _ _] _]; [done|].
  fold l in Hf, Hf', Ho, Ho', Hd, Hv, Hi. split; [lia|]. split; [lia|]. intros day.
  destruct (Hd day) as (_ & _ & Hd3). split; [done|].
  split; [unfold FAUCET_RESERVATION_LAMPORTS, FAUCET_DAILY_LAMPORTS, FAUCET_DAILY_GRANTS in *; lia|].
  split; intros; [apply Hv|apply Hi].
Qed.

(** An operation is signed at most once: between any two moments of a run
    it is kept, its purpose never changes, the transaction that was signed for
    it stays the one recorded, and once it was confirmed, failed or expired
    nothing about it changes any more. *)
Theorem devnet_one_attempt s attempts x y id o :
  ledger_ok (ledger_in s) -> run (started s attempts) x -> run x y ->
  om_get (ops (ledger_in (sys_store x))) id = Some o ->
  exists o', om_get (ops (ledger_in (sys_store y))) id = Some o' /\ fixed_part o' = fixed_part o /\
    (forall a, op_attempt o = Some a -> op_attempt o' = Some a) /\
    (is_terminal (op_state o) = true -> o' = o) /\ (op_state o' = reserved <-> op_attempt o' = None).
Proof.
  intros Hs Hx Hy Ho. destruct (run_evolves s attempts x y Hs Hx Hy) as [_ [Hops _]].
  destruct (Hops _ _ Ho) as (o' & Ho' & H1 & H2 & H3). exists o'. split_and!; try done.
  all: assert (run (started s attempts) y) as Hxy by (transitivity x; [exact Hx|exact Hy]).
  all: destruct (run_evolves s attempts y y Hs Hxy) as [[_ Ha _] _]; [done|]; by apply (Ha _ _ Ho').
Qed.

(** Fencing: once a send was accepted for a lease, no send is ever
    accepted for an older lease of the same kind; and two leases accepted with
    the same fence are the same lease of the same operation. *)
Theorem devnet_fencing s attempts x y k id lease id' lease' :
  ledger_ok (ledger_in s) -> run (started s attempts) x -> run x y ->
  accepts_send k id lease (ledger_in (sys_store x)) -> accepts_send k id' lease' (ledger_in (sys_store y)) ->
  ls_fence lease <= ls_fence lease' /\
  (ls_fence lease = ls_fence lease' -> id = id' /\ ls_holder lease = ls_holder lease').
Proof.
  intros Hs Hx Hy Ha Ha'. destruct (run_evolves s attempts x y Hs Hx Hy) as [[_ _ Hf] [_ [_ Hl]]].
  apply accepts_send_lease in Ha as (c & Hc & Hc1 & Hc2 & Hc3), Ha' as (c' & Hc' & Hc1' & Hc2' & Hc3').
  specialize (Hf _ _ Hc). destruct (Hl _ _ Hc') as [Hsame|Hnew].
  - assert (c = c') as <- by congruence. split; [lia|]. intros _. split; congruence.
  - split; [lia|]. lia.
Qed.
End concurrent.

(** ** Witnesses *)

Definition ex_hash (s : string) : string := s.
Definition ex_now : Z := 1771027200000.
Definition ex_grant : journal_call := CReserveGrant "owner" "asset" "visitor" "ip" ex_now ex_now.
Definition ex_id : string := grantOperationId ex_hash "owner" "asset" (utcDay ex_now).
Definition ex_after_grant : HostedDevnetLedger :=
  match journal_exec ex_hash ex_grant emptyLedger with Ok l => l | Err _ => emptyLedger end.
Definition ex_op : DurableOperation := default (Operation "" faucet failed 0 0 "" None "" None None None None None None None None)
  (om_get (ops ex_after_grant) ex_id).
Definition ex_lease : PreparationLease := Lease ex_id "holder" 1 (ex_now + PREPARATION_LEASE_MS).
Definition ex_attempt : SignedAttempt := Attempt "sig" "hash" 100 "AA==" ex_now [].
Definition ex_calls (i _ : nat) : journal_call :=
  match i with
  | 0%nat => ex_grant
  | 1%nat => CAcquire ex_op "holder" ex_now
  | _ => CPersistPrepared ex_id ex_lease ex_attempt ex_now
  end.

(** Three calls, one after another, on a document in memory. *)
Definition ex_store (n : nat) : document HostedDevnetLedger :=
  fold_left (fun s i => (mutateJson emptyLedger 8 (fun n => journal_exec ex_hash (ex_calls i n)) s).2) (seq 0 n) (Document []).

Lemma ex_calls_ok i n : call_ok (ex_calls i n).
Proof. by destruct i as [|[|]]. Qed.

(** A call that runs alone is a read followed by a write. *)
Lemma run_alone {S V E} `{JsonCasStoreLaws S V} (initial : V) (mutation : nat -> nat -> V -> result E V) s s' cs log i n next :
  cs !! i = Some (Reading (S:=S) (E:=E) (Datatypes.S n)) ->
  mutation i n (value_of initial s) = Ok next -> save (read s) next s = (true, s') ->
  rtc (step initial mutation) (System s cs log) (System s' (<[i := Done (Ok next)]> cs) (log ++ [(i, next)])).
Proof.
  intros Hi Hm Hs. apply (rtc_l _ _ (System s (<[i := Holding n (read s)]> cs) log)); [by eapply step_read|].
  apply rtc_once. rewrite <- (list_insert_insert_eq cs i (Done (Ok next)) (Holding n (read s))).
  eapply step_saved; [rewrite list_lookup_insert_eq; [done|by eapply lookup_lt_Some]|exact Hm|exact Hs].
Qed.

Abbreviation ex_run := (rtc (step emptyLedger (fun i n => journal_exec ex_hash (ex_calls i n)))).
Definition ex_ledger (n : nat) : HostedDevnetLedger := value_of emptyLedger (ex_store n).

(** The state after the first [n] of the three calls. *)
Definition ex_callers (n : nat) : list (caller (S:=document HostedDevnetLedger) (E:=ServiceErrorCode)) :=
  map (fun i => if Nat.ltb i n then Done (Ok (ex_ledger (Datatypes.S i))) else Reading 8) [0; 1; 2]%nat.
Definition ex_log (n : nat) : list (nat * HostedDevnetLedger) := map (fun i => (i, ex_ledger (Datatypes.S i))) (seq 0 n).
Definition ex_state (n : nat) : system (S:=document HostedDevnetLedger) := System (ex_store n) (ex_callers n) (ex_log n).

Lemma ex_step n : (n < 3)%nat -> ex_run (ex_state n) (ex_state (Datatypes.S n)).
Proof.
  intros Hn. assert (n = 0 \/ n = 1 \/ n = 2)%nat as [->|[->| ->]] by lia.
  all: match goal with |- ex_run (ex_state ?m) _ =>
    exact (run_alone emptyLedger (fun i n => journal_exec ex_hash (ex_calls i n)) (ex_store m) (ex_store (Datatypes.S m))
      (ex_callers m) (ex_log m) m 7 (ex_ledger (Datatypes.S m))
      ltac:(vm_compute; reflexivity) ltac:(vm_compute; reflexivity) ltac:(vm_compute; reflexivity)) end.
Qed.

Lemma ex_reach n m : (n <= m <= 3)%nat -> ex_run (ex_state n) (ex_state m).
Proof.
  intros [Hnm Hm]. induction Hnm as [|m Hnm IH]; [done|]. etrans; [apply IH; lia|]. apply ex_step. lia.
Qed.

Example devnet_budgets_witness :
  day_grants "2026-02-14" (ex_ledger 3) = 1 /\ visitor_grants "2026-02-14" "visitor" (ex_ledger 3) <= VISITOR_DAILY_GRANTS.
Proof.
  split; [vm_compute; reflexivity|].
  exact (proj1 (proj2 (proj2 (proj2 (proj2 (devnet_budgets_hold ex_hash ex_calls ex_calls_ok (Document []) [8; 8; 8]%nat
    (ex_state 3) empty_ok (ex_reach 0 3 ltac:(lia)))) "2026-02-14"))) "visitor").
Defined.

Example devnet_one_attempt_witness :
  exists o, om_get (ops (ex_ledger 3)) ex_id = Some o /\ fixed_part o = fixed_part ex_op.
Proof.
  destruct (devnet_one_attempt ex_hash ex_calls ex_calls_ok (Document []) [8; 8; 8]%nat (ex_state 1) (ex_state 3)
    ex_id ex_op empty_ok (ex_reach 0 1 ltac:(lia)) (ex_reach 1 3 ltac:(lia)) ltac:(vm_compute; reflexivity))
    as (o & Ho & Hf & _).
  exists o. split; [exact Ho|exact Hf].
Defined.

Example devnet_fencing_witness : ls_fence ex_lease <= ls_fence ex_lease.
Proof.
  assert (accepts_send faucet ex_id ex_lease (ex_ledger 3)) as H.
  { eexists _, ex_now. split; [vm_compute; reflexivity|]. split; [reflexivity|]. vm_compute. reflexivity. }
  exact (proj1 (devnet_fencing ex_hash ex_calls ex_calls_ok (Document []) [8; 8; 8]%nat (ex_state 3) (ex_state 3)
    faucet ex_id ex_lease ex_id ex_lease empty_ok (ex_reach 0 3 ltac:(lia)) (ex_reach 3 3 ltac:(lia)) H H)).
Defined.
