(* ===== verification/DevnetService.v ===== *)
(** * Hosted devnet: the service

    [HostedDevnetService] of [packages/hosted-devnet/src/service.ts] over the
    methods of [DurableJournal] ([ledger.ts]): its public calls as trees of
    the events they make - the clock, the store, the chain adapter, the
    service's [writeDisabled] flag.  [await]s are between events, so any number
    of calls of any number of service instances interleave there.

    One [mutateJson] is one event: [CasStore.updates_linearizable] shows that
    concurrent updates take effect one after another, each at most once, apart
    from the very first write of the document, whose creation a store may
    report as refused although it took place: the loop then applies its
    mutation again, which is here a second event of the same call that is not
    modelled.  What a journal method
    does after its update (reading the operation it returns) is in the
    program.  A non-null assertion ([!]) of the source on an absent value is an
    event of its own, [NullDereference], that nothing may reach. *)
From S2P Require Import Prelude Js Calendar IsoTime CasStore Programs DevnetLedger.
Open Scope Z_scope.

(** ** [contract.ts], [errors.ts] *)

Inductive TransactionState := missing | pending | tx_confirmed | tx_failed.
Record TransactionStatus := TxStatus { ts_state : TransactionState; ts_errorCode : option string }.
Record FaucetRequest := Faucet { rq_owner : string; rq_assetId : string; rq_runtimeId : string; rq_genesisHash : string }.
Inductive FundingStatus := fs_pending | fs_confirmed | fs_failed.
Record PublicFundingResult := Funding {
  pf_signatures : list string; pf_status : FundingStatus; pf_message : string; pf_error : option string;
}.

(** What a call throws: a [ServiceError] by its code, the subclass
    [LeaseBusyError], or anything else. *)
Inductive failure := ServiceError (code : string) | LeaseBusyError | Unexpected.

Definition code_text (c : ServiceErrorCode) : string :=
  match c with
  | LEDGER_INVALID => "LEDGER_INVALID" | FAUCET_DISABLED => "FAUCET_DISABLED" | GLOBAL_QUOTA => "GLOBAL_QUOTA"
  | VISITOR_QUOTA => "VISITOR_QUOTA" | IP_QUOTA => "IP_QUOTA" | OBSERVATION_BUDGET => "OBSERVATION_BUDGET"
  | OPERATION_STATE => "OPERATION_STATE" | LEASE_BUSY => "LEASE_BUSY" | LEASE_LOST => "LEASE_LOST"
  end.
Definition journal_failure (c : ServiceErrorCode) : failure :=
  match c with LEASE_BUSY => LeaseBusyError | c => ServiceError (code_text c) end.

(** [error instanceof ServiceError] and its [code] *)
Definition service_code (e : failure) : option string :=
  match e with ServiceError code => Some code | LeaseBusyError => Some "LEASE_BUSY" | Unexpected => None end.

(** The fields of [RegistryManifest] the service reads. *)
Record RegistryAsset := Asset { ra_id : string; ra_symbol : string }.
Record RegistryManifest := Registry { rm_runtimeId : string; rm_genesisHash : string; rm_assets : list RegistryAsset }.

(** ** Events *)

Inductive event :=
  | Now                                                  (* [this.now()] *)
  | RandomUUID
  | ReadLedger                                           (* [store.read(...)], or an empty ledger *)
  | Mutate (change : Z -> journal_call)                  (* [mutateJson], given the clock inside the mutation *)
  | PrepareFaucet (request : FaucetRequest) (reservationLamports : Z)
  | PrepareObservation (assetId : string) (reservationLamports : Z)
  | VerifyPrepared (operation : DurableOperation)
  | SendExact (attempt : SignedAttempt)
  | AskStatus (attempt : SignedAttempt)
  | BlockHeight
  | VerifyOutcome (operation : DurableOperation)
  | GetWriteDisabled
  | SetWriteDisabled
  | NullDereference.

Definition answer (e : event) : Type :=
  match e with
  | Now => Z
  | RandomUUID => string
  | ReadLedger | Mutate _ => result failure HostedDevnetLedger
  | PrepareFaucet _ _ | PrepareObservation _ _ => result failure SignedAttempt
  | VerifyPrepared _ | SendExact _ => result failure unit
  | AskStatus _ => result failure TransactionStatus
  | BlockHeight => result failure Z
  | VerifyOutcome _ => result failure bool
  | GetWriteDisabled => bool
  | SetWriteDisabled => unit
  | NullDereference => unit
  end.

Abbreviation svc := (call event answer failure).

Definition readClock : svc Z := trigger Now.
Definition randomUUID : svc string := trigger RandomUUID.
Definition mutate (change : Z -> journal_call) : svc HostedDevnetLedger :=
  trigger_result (answer:=answer) (Mutate change) (fun r => r).
Definition getWriteDisabled : svc bool := trigger GetWriteDisabled.
Definition disableWrites : svc unit := trigger SetWriteDisabled.

(** [value!]: the use of an absent value is recorded and throws. *)
Definition nonnull {A} (x : option A) : svc A :=
  match x with
  | Some a => mret a
  | None => Vis (answer:=answer) NullDereference (fun _ => Pure (Err Unexpected))
  end.

(** ** The methods of [DurableJournal] *)

Section service.
Context (hash : string -> string).

Definition journal_read : svc HostedDevnetLedger :=
  ledger ← trigger_result (answer:=answer) ReadLedger (fun r => r);
  match validate ledger with Ok _ => mret ledger | Err e => raise (journal_failure e) end.

Definition journal_reserveGrant (owner assetId visitorHash ipHash : string) : svc DurableOperation :=
  t ← readClock;
  ledger ← mutate (fun t' => CReserveGrant owner assetId visitorHash ipHash t t');
  nonnull (om_get (operations ledger) (grantOperationId hash owner assetId (utcDay t))).

Definition journal_reserveObservation (assetId : string) : svc DurableOperation :=
  t ← readClock;
  ledger ← mutate (fun _ => CReserveObservation assetId t);
  nonnull (om_get (operations ledger) (observationOperationId hash assetId (observationBucket t))).

Definition journal_acquire (operation : DurableOperation) : svc PreparationLease :=
  if is_active (op_state operation) then
    holder ← randomUUID;
    t ← readClock;
    ledger ← mutate (fun _ => CAcquire operation holder t);
    nonnull (leases ledger (op_kind operation))
  else raise (journal_failure OPERATION_STATE).

Definition journal_persistPrepared (operationId : string) (lease : PreparationLease) (attempt : SignedAttempt)
    : svc DurableOperation :=
  t ← readClock;
  ledger ← mutate (fun _ => CPersistPrepared operationId lease attempt t);
  nonnull (om_get (operations ledger) operationId).

Definition journal_assertSendFence (operationId : string) (lease : PreparationLease) : svc unit :=
  ledger ← journal_read;
  t ← readClock;
  match assertSendFence operationId lease t ledger with Ok _ => mret tt | Err e => raise (journal_failure e) end.

Definition journal_release (lease : PreparationLease) (state : option OperationState) (errorCode : option string)
    : svc DurableOperation :=
  ledger ← mutate (fun t => CRelease lease state errorCode t);
  nonnull (om_get (operations ledger) (ls_operationId lease)).

Definition journal_transition (operationId : string) (state : OperationState) (errorCode : option string)
    : svc DurableOperation :=
  ledger ← mutate (fun t => CTransition operationId state errorCode t);
  nonnull (om_get (operations ledger) operationId).

Definition journal_disableFaucet (reason : string) : svc unit :=
  mutate (fun _ => CDisableFaucet reason) ;; mret tt.

(** ** The chain adapter *)

Definition prepareFaucet (request : FaucetRequest) (lamports : Z) : svc SignedAttempt :=
  trigger_result (answer:=answer) (PrepareFaucet request lamports) (fun r => r).
Definition prepareObservation (assetId : string) (lamports : Z) : svc SignedAttempt :=
  trigger_result (answer:=answer) (PrepareObservation assetId lamports) (fun r => r).
Definition verifyPrepared (operation : DurableOperation) : svc unit :=
  trigger_result (answer:=answer) (VerifyPrepared operation) (fun r => r).
(** [chain.sendExact(attempt!)] *)
Definition sendExact (attempt : option SignedAttempt) : svc unit :=
  a ← nonnull attempt;
  trigger_result (answer:=answer) (SendExact a) (fun r => r).
Definition transactionStatus (attempt : SignedAttempt) : svc TransactionStatus :=
  trigger_result (answer:=answer) (AskStatus attempt) (fun r => r).
Definition blockHeight : svc Z := trigger_result (answer:=answer) BlockHeight (fun r => r).
Definition verifyOutcome (operation : DurableOperation) : svc bool :=
  trigger_result (answer:=answer) (VerifyOutcome operation) (fun r => r).

(** ** [service.ts] *)

Definition result (operation : DurableOperation) (symbol : option string) : PublicFundingResult :=
  let signatures := match op_attempt operation with Some a => [at_signature a] | None => [] end in
  match op_state operation with
  | confirmed =>
      Funding signatures fs_confirmed
        (match symbol with
         | Some s => if bool_decide (s = "") then "Synthetic observation refreshed."
                     else "Funded 10 " +:+ s +:+ " synthetic devnet test units."
         | None => "Synthetic observation refreshed." end) None
  | failed => Funding signatures fs_failed "The recorded devnet operation did not complete."
                (Some "The recorded transaction failed.")
  | expired => Funding signatures fs_failed "The recorded devnet operation did not complete."
                 (Some "The signed transaction expired unresolved; no replacement was issued.")
  | _ => Funding signatures fs_pending "The recorded devnet operation is pending confirmation." None
  end.

(** The ledger has room for one more grant at [t]. *)
Definition budget_left (ledger : HostedDevnetLedger) (t : Z) : bool :=
  bool_decide (faucetDisabledReason ledger = None)
  && (faucetLifetimeLamports ledger + FAUCET_RESERVATION_LAMPORTS <=? FAUCET_LIFETIME_LAMPORTS)
  && match om_get (daily ledger) (utcDay t) with
     | Some d => (q_grants d <? FAUCET_DAILY_GRANTS) && (q_lamports d + FAUCET_RESERVATION_LAMPORTS <=? FAUCET_DAILY_LAMPORTS)
     | None => true
     end.

Definition faucetAvailable : svc bool :=
  disabled ← getWriteDisabled;
  if (disabled : bool) then mret false
  else
    available ← attempt (ledger ← journal_read; t ← readClock; mret (budget_left ledger t));
    match available with
    | Ok b => mret b
    | Err _ => disableWrites ;; mret false
    end.

(** The end of a confirmed transaction: it counts only if its effect is seen. *)
Definition conclude (operation : DurableOperation) : svc DurableOperation :=
  verified ← verifyOutcome operation;
  journal_transition (op_id operation) (if (verified : bool) then confirmed else failed)
    (if verified then None else Some "OUTCOME_MISMATCH").

Definition reconcile (operation : DurableOperation) : svc DurableOperation :=
  if is_terminal (op_state operation) then mret operation
  else
    match op_attempt operation with
    | None => mret operation
    | Some attempt =>
        status ← transactionStatus attempt;
        match ts_state status with
        | tx_confirmed => conclude operation
        | tx_failed =>
            journal_transition (op_id operation) failed (Some (default "TRANSACTION_FAILED" (ts_errorCode status)))
        | _ =>
            height ← blockHeight;
            if lastValidBlockHeight attempt <? height then
              final ← transactionStatus attempt;
              match ts_state final with
              | tx_confirmed => conclude operation
              | tx_failed => journal_transition (op_id operation) failed (Some "TRANSACTION_FAILED")
              | _ => journal_transition (op_id operation) expired (Some "SIGNATURE_EXPIRED")
              end
            else mret operation
        end
    end.

(** [try { return await release(...) } catch { writeDisabled = true; return current }] *)
Definition release_or_disable (lease : PreparationLease) (state : OperationState) (errorCode : option string)
    (current : DurableOperation) : svc DurableOperation :=
  released ← attempt (journal_release lease (Some state) errorCode);
  match released with
  | Ok operation => mret operation
  | Err _ => disableWrites ;; mret current
  end.

Definition starts_with (prefix text : string) : bool := String.prefix prefix text.

(** The handler of the outer [catch (error)]. *)
Definition execute_failed (current : DurableOperation) (lease : PreparationLease) (error : failure) : svc DurableOperation :=
  released ← attempt (journal_release lease None None);
  match released with Ok _ => mret tt | Err _ => disableWrites end ;;
  match service_code error with
  | Some code =>
      if bool_decide (op_kind current = faucet) && (starts_with "IDENTITY_" code || bool_decide (code = "INSUFFICIENT_BALANCE"))
      then disableWrites ;; _ ← attempt (journal_disableFaucet code); raise error
      else raise error
  | None => raise error
  end.

(** From the verification of the prepared transaction on.  The source returns
    the promise of the last [reconcile] without awaiting it, so what it throws
    is not caught by the outer [catch]. *)
Definition execute_send (current : DurableOperation) (lease : PreparationLease) : svc DurableOperation :=
  checked ← attempt (verifyPrepared current ;; journal_assertSendFence (op_id current) lease);
  match checked with
  | Err error => execute_failed current lease error
  | Ok _ =>
      sent ← attempt (sendExact (op_attempt current));
      match sent with
      | Err error =>
          if bool_decide (service_code error = Some "SIGNATURE_MISMATCH")
          then release_or_disable lease failed (Some "SIGNATURE_MISMATCH") current
          else release_or_disable lease submitted (Some "SUBMISSION_UNCERTAIN") current
      | Ok _ =>
          released ← attempt (journal_release lease (Some submitted) None);
          match released with
          | Ok current => reconcile current
          | Err _ => disableWrites ;; mret current
          end
      end
  end.

Definition execute (operation : DurableOperation) (prepare : svc SignedAttempt) : svc DurableOperation :=
  current ← reconcile operation;
  if is_terminal (op_state current) then mret current
  else
    acquired ← attempt (journal_acquire current);
    match acquired with
    | Err LeaseBusyError => mret current
    | Err error => raise error
    | Ok lease =>
        persisted ← attempt (if bool_decide (op_state current = reserved)
                             then a ← prepare; journal_persistPrepared (op_id current) lease a
                             else mret current);
        match persisted with
        | Err error => execute_failed current lease error
        | Ok current => execute_send current lease
        end
    end.

(** ** The public calls *)

Context (manifest : RegistryManifest).
(** [PublicKey] of @solana/web3.js: [new PublicKey(text)],
    [isOnCurve(key.toBytes())] and [key.toBase58()]. *)
Context {PublicKey : Type} (newPublicKey : string -> option PublicKey) (isOnCurve : PublicKey -> bool)
  (toBase58 : PublicKey -> string).

Definition valid_owner (owner : string) : bool :=
  match newPublicKey owner with
  | Some key => isOnCurve key && bool_decide (toBase58 key = owner)
  | None => false
  end.

Definition fund (request : FaucetRequest) (visitorHash ipHash : string) : svc PublicFundingResult :=
  disabled ← getWriteDisabled;
  if (disabled : bool) then raise (ServiceError "FAUCET_DISABLED")
  else if negb (bool_decide (rq_runtimeId request = rm_runtimeId manifest)
                && bool_decide (rq_genesisHash request = rm_genesisHash manifest))
  then raise (ServiceError "STALE_RUNTIME")
  else
    match list_find (fun candidate => ra_id candidate = rq_assetId request) (rm_assets manifest) with
    | None => raise (ServiceError "ASSET_INVALID")
    | Some (_, asset) =>
        if valid_owner (rq_owner request) then
          executed ← attempt (operation ← journal_reserveGrant (rq_owner request) (rq_assetId request) visitorHash ipHash;
                              execute operation (prepareFaucet request (reservationLamports operation)));
          match executed with
          | Ok operation => mret (result operation (Some (ra_symbol asset)))
          | Err error =>
              match service_code error with Some _ => mret tt | None => disableWrites end ;; raise error
          end
        else raise (ServiceError "OWNER_INVALID")
    end.

Definition refresh_failed (error : failure) : PublicFundingResult :=
  Funding [] fs_failed "Observation refresh stopped before this asset completed."
    (Some (default "OBSERVATION_REFRESH_FAILED" (service_code error))).

(** The loop over the assets, with the [values] pushed so far. *)
Fixpoint refresh_assets (assets : list RegistryAsset) (values : list PublicFundingResult) : svc (list PublicFundingResult) :=
  match assets with
  | [] => mret values
  | asset :: rest =>
      completed ← attempt (operation ← journal_reserveObservation (ra_id asset);
                           execute operation (prepareObservation (ra_id asset) (reservationLamports operation)));
      match completed with
      | Ok operation =>
          let value := result operation None in
          match pf_status value with
          | fs_failed => mret (values ++ [value])
          | _ => refresh_assets rest (values ++ [value])
          end
      | Err error => mret (values ++ [refresh_failed error])
      end
  end.

Definition refreshObservations : svc (list PublicFundingResult) := refresh_assets (rm_assets manifest) [].

(** What an instance of the service is asked to run. *)
Inductive reply :=
  | Funded (r : Prelude.result failure PublicFundingResult)
  | Refreshed (r : Prelude.result failure (list PublicFundingResult))
  | Available (r : Prelude.result failure bool).

Inductive served : prog event answer reply -> Prop :=
  | serve_fund request visitorHash ipHash : served (bind (fund request visitorHash ipHash) (fun r => Pure (Funded r)))
  | serve_refresh : served (bind refreshObservations (fun r => Pure (Refreshed r)))
  | serve_available : served (bind faucetAvailable (fun r => Pure (Available r))).
End service.
