(* ===== verification/DevnetServiceProps.v ===== *)
(** * Hosted devnet: the theorems on the service

    Any number of service instances, each running any number of its public
    calls, against one ledger and one chain whose answers nothing is assumed
    of.  Whatever they interleave with and wherever they stop: every
    transaction sent is the one recorded for an operation, at most one per
    operation; an operation is confirmed only after the chain said so; and no
    non-null assertion of the service fails. *)
From S2P Require Import Prelude Js Calendar IsoTime CasStore Programs DevnetLedger DevnetProps DevnetService.
Open Scope Z_scope.

(** ** The world of the service *)

(** What the chain adapter was asked and answered, in order. *)
Inductive entry :=
  | FaucetPrepared (request : FaucetRequest) (lamports : Z) (attempt : SignedAttempt)
  | ObservationPrepared (assetId : string) (lamports : Z) (attempt : SignedAttempt)
  | Sent (attempt : SignedAttempt)
  | Reported (attempt : SignedAttempt) (status : TransactionStatus)
  | OutcomeSeen (operation : DurableOperation) (verified : bool)
  | Dereferenced.

Record world := World { w_ledger : HostedDevnetLedger; w_log : list entry; w_disabled : list nat }.

Definition with_ledger (l : HostedDevnetLedger) (w : world) : world := World l (w_log w) (w_disabled w).
Definition logged (x : entry) (w : world) : world := World (w_ledger w) (w_log w ++ [x]) (w_disabled w).
Definition disabled_by (i : nat) (w : world) : world := World (w_ledger w) (w_log w) (i :: w_disabled w).

(** A successful answer is recorded; a failed one changes nothing. *)
Definition answered {A} (record : A -> entry) (r : Prelude.result failure A) (w : world) : world :=
  match r with Ok a => logged (record a) w | Err _ => w end.

Section semantics.
Context (hash : string -> string).

(** What an instance [i] can observe of an event, and the world after it.  The
    clock, the identifiers and the chain may answer anything; a request to the
    store may fail, before or after it took effect; a send may throw although
    the transaction was sent. *)
Definition occurs (i : nat) (e : event) (w : world) : answer e -> world -> Prop :=
  match e return answer e -> world -> Prop with
  | Now | RandomUUID => fun _ w' => w' = w
  | ReadLedger => fun r w' => w' = w /\ (r = Ok (w_ledger w) \/ r = Err Unexpected)
  | Mutate change => fun r w' => exists t, let m := journal_mutation (change_of hash (change t)) (w_ledger w) in
      (exists l, m = Ok l /\ w' = with_ledger l w /\ (r = Ok l \/ r = Err Unexpected)) \/
      (exists c, m = Err c /\ w' = w /\ r = Err (journal_failure c)) \/
      (w' = w /\ r = Err Unexpected)
  | PrepareFaucet rq lamports => fun r w' => w' = answered (FaucetPrepared rq lamports) r w
  | PrepareObservation asset lamports => fun r w' => w' = answered (ObservationPrepared asset lamports) r w
  | VerifyPrepared _ | BlockHeight => fun _ w' => w' = w
  | SendExact a => fun _ w' => w' = logged (Sent a) w
  | AskStatus a => fun r w' => w' = answered (Reported a) r w
  | VerifyOutcome o => fun r w' => w' = answered (OutcomeSeen o) r w
  | GetWriteDisabled => fun b w' => w' = w /\ b = bool_decide (i ∈ w_disabled w)
  | SetWriteDisabled => fun _ w' => w' = disabled_by i w
  | NullDereference => fun _ w' => w' = logged Dereferenced w
  end.

(** ** What holds of the world *)

(** The transaction [a] was prepared by the chain adapter for the operation
    with identifier [id], within that operation's reservation. *)
Definition prepared_for (log : list entry) (id : string) (a : SignedAttempt) : Prop :=
  (exists rq day, FaucetPrepared rq FAUCET_RESERVATION_LAMPORTS a ∈ log /\
                  id = grantOperationId hash (rq_owner rq) (rq_assetId rq) day) \/
  (exists asset bucket, ObservationPrepared asset OBSERVATION_RESERVATION_LAMPORTS a ∈ log /\
                        id = observationOperationId hash asset bucket).

(** The chain reported [a] confirmed and the effect of the operation was seen. *)
Definition verified_for (log : list entry) (id : string) (a : SignedAttempt) : Prop :=
  (exists code, Reported a (TxStatus tx_confirmed code) ∈ log) /\
  exists o, OutcomeSeen o true ∈ log /\ op_id o = id /\ op_attempt o = Some a.

(** The identifier of an operation is derived from its purpose. *)
Definition purpose_ok (o : DurableOperation) : Prop :=
  match op_kind o with
  | faucet => exists owner, op_owner o = Some owner /\ op_id o = grantOperationId hash owner (op_assetId o) (op_day o)
  | observation => exists bucket, op_bucket o = Some bucket /\ op_id o = observationOperationId hash (op_assetId o) bucket
  end.

Record op_good (log : list entry) (o : DurableOperation) : Prop := {
  og_purpose : purpose_ok o;
  og_prepared : forall a, op_attempt o = Some a -> prepared_for log (op_id o) a;
  og_confirmed : op_state o = confirmed -> exists a, op_attempt o = Some a /\ verified_for log (op_id o) a;
}.

Definition recorded (l : HostedDevnetLedger) (a : SignedAttempt) : Prop :=
  exists id o, om_get (ops l) id = Some o /\ op_attempt o = Some a.

Record good (w : world) : Prop := {
  good_ledger : ledger_ok (w_ledger w);
  good_ops : forall id o, om_get (ops (w_ledger w)) id = Some o -> op_good (w_log w) o;
  good_sent : forall a, Sent a ∈ w_log w -> recorded (w_ledger w) a;
  good_nonnull : Dereferenced ∉ w_log w;
}.

Definition later (w w' : world) : Prop := ledger_later (w_ledger w) (w_ledger w') /\ w_log w ⊆ w_log w'.
#[global] Instance later_preorder : PreOrder later.
Proof.
  split; [by split|]. intros w1 w2 w3 [L1 S1] [L2 S2]. split; [by etrans|]. by etrans.
Qed.

(** What the service guarantees of the events it makes. *)
Definition call_justified (c : journal_call) (log : list entry) (l : HostedDevnetLedger) : Prop :=
  match c with
  | CRelease _ state _ _ => state <> Some reserved /\ state <> Some confirmed
  | CPersistPrepared id _ a _ => prepared_for log id a
  | CTransition id state _ _ =>
      state = confirmed -> exists o a, om_get (ops l) id = Some o /\ op_attempt o = Some a /\ verified_for log id a
  | _ => True
  end.

Definition allowed (e : event) (w : world) : Prop :=
  match e with
  | Mutate change => forall t, call_justified (change t) (w_log w) (w_ledger w)
  | SendExact a => recorded (w_ledger w) a
  | NullDereference => False
  | _ => True
  end.

Lemma prepared_for_mono log log' id a : log ⊆ log' -> prepared_for log id a -> prepared_for log' id a.
Proof.
  intros Hs [(rq & day & H1 & H2)|(asset & bucket & H1 & H2)]; [left|right]; do 2 eexists; split; [by apply Hs|done|by apply Hs|done].
Qed.
Lemma verified_for_mono log log' id a : log ⊆ log' -> verified_for log id a -> verified_for log' id a.
Proof. intros Hs [(c & H1) (o & H2 & H3)]. split; [exists c; by apply Hs|exists o; split; [by apply Hs|done]]. Qed.
Lemma op_good_mono log log' o : log ⊆ log' -> op_good log o -> op_good log' o.
Proof.
  intros Hs [H1 H2 H3]. split; [done| |].
  - intros a Ha. eapply prepared_for_mono; eauto.
  - intros Hc. destruct (H3 Hc) as (a & Ha & Hv). exists a. split; [done|]. by eapply verified_for_mono.
Qed.
Lemma recorded_later l l' a : ledger_later l l' -> recorded l a -> recorded l' a.
Proof. intros [Ho _] (id & o & H1 & H2). destruct (Ho _ _ H1) as (o' & H1' & _ & Ha & _). exists id, o'. auto. Qed.

(** ** The calls of the journal keep it *)

Definition all_good (log : list entry) (l : HostedDevnetLedger) : Prop :=
  forall id o, om_get (ops l) id = Some o -> op_good log o.

Lemma all_good_same log l l' : ops l' = ops l -> all_good log l -> all_good log l'.
Proof. intros Ho H id o. rewrite Ho. apply H. Qed.

Lemma all_good_set log l id o : all_good log l -> op_good log o -> all_good log (with_operation id o l).
Proof. intros H Ho j p. rewrite get_with_operation. case_bool_decide; [by intros [= <-]|apply H]. Qed.

(** An update that keeps the attempt. *)
Lemma op_good_with log o st f s c e :
  op_good log o ->
  (st = confirmed -> op_state o = confirmed \/ exists a, op_attempt o = Some a /\ verified_for log (op_id o) a) ->
  op_good log (op_with st f (op_attempt o) s c e o).
Proof.
  intros [H1 H2 H3] Hc. split; cbn; [exact H1|exact H2|]. intros [Ho|Hv]%Hc; auto.
Qed.

Section calls_good.
Context (log : list entry) (l : HostedDevnetLedger) (Hok : ledger_ok l) (Hg : all_good log l).

Lemma reserveGrant_good owner assetId v ip t t' l' : reserveGrant hash owner assetId v ip t t' l = Ok l' -> all_good log l'.
Proof.
  intros H. unfold reserveGrant in H. minv H. destruct (om_has _ _); [by apply Ok_inj in R0 as <-|]. minv R0.
  apply all_good_set; [done|]. split; [by eexists|done|done].
Qed.

Lemma reserveObservation_good assetId t l' : reserveObservation hash assetId t l = Ok l' -> all_good log l'.
Proof.
  intros H. unfold reserveObservation in H. destruct (om_has _ _); [by apply Ok_inj in H as <-|]. minv H.
  apply all_good_set; [done|]. split; [by eexists|done|done].
Qed.

Lemma acquire_good o holder t l' : acquire o holder t l = Ok l' -> all_good log l'.
Proof.
  intros H. unfold acquire in H. minv H. found operation_of_Ok as Ho. case_bool_decide; [|by destruct (op_kind o)].
  apply all_good_set; [by destruct (op_kind o)|]. apply op_good_with; [by apply (Hg _ _ Ho)|by left].
Qed.

Lemma persistPrepared_good id lease a t l' :
  persistPrepared id lease a t l = Ok l' -> prepared_for log id a -> all_good log l'.
Proof.
  intros H Hp. unfold persistPrepared in H. minv H. found operation_of_Ok as Ho. apply all_good_set; [done|].
  destruct (Hg _ _ Ho) as [H1 H2 H3], (ok_reservations _ (ledger_books _ Hok) _ _ Ho) as [Hid _].
  split; cbn; [exact H1| |done]. rewrite Hid. by intros ? [= <-].
Qed.

Lemma release_good lease state e t l' :
  release lease state e t l = Ok l' -> state <> Some confirmed -> all_good log l'.
Proof.
  intros H Hst. unfold release in H. minv H. found operation_of_Ok as Ho.
  match goal with H : match _ with _ => _ end = Ok _ |- _ => rename H into Hrel end.
  set (l1 := if same_lease _ _ _ _ then _ else l) in Hrel.
  assert (ops l1 = ops l) as Hops by (unfold l1; destruct (same_lease _ _ _ _); [by destruct (op_kind a)|done]).
  pose proof (all_good_same _ _ _ Hops Hg) as Hg1.
  destruct state as [state|]; [|by apply Ok_inj in Hrel as <-].
  destruct (is_terminal (op_state _)); [by apply Ok_inj in Hrel as <-|]. minv Hrel.
  apply all_good_set; [done|]. apply op_good_with; [by apply (Hg _ _ Ho)|]. congruence.
Qed.

Lemma transition_good id state e t l' :
  transition id state e t l = Ok l' ->
  (state = confirmed -> exists o a, om_get (ops l) id = Some o /\ op_attempt o = Some a /\ verified_for log id a) ->
  all_good log l'.
Proof.
  intros H Hv. unfold transition in H. minv H. found operation_of_Ok as Ho.
  destruct (is_terminal (op_state _)); [by apply Ok_inj in R0 as <-|]. minv R0.
  apply all_good_set; [done|]. apply op_good_with; [by apply (Hg _ _ Ho)|].
  intros Hc. right. destruct (Hv Hc) as (o & x & Ho' & Hx & Hver), (ok_reservations _ (ledger_books _ Hok) _ _ Ho) as [-> _].
  exists x. split; [congruence|done].
Qed.

Lemma all_good_call c l' :
  journal_mutation (change_of hash c) l = Ok l' -> call_justified c log l -> all_good log l'.
Proof.
  intros H Hj. unfold journal_mutation in H. minv H. apply (all_good_same log a0); [done|].
  match goal with H : change_of _ _ _ = Ok _ |- _ => rename H into Hch end.
  destruct c; cbn [change_of call_justified] in *;
    eauto using reserveGrant_good, reserveObservation_good, acquire_good, persistPrepared_good, transition_good.
  - destruct Hj. by eapply release_good.
  - by apply Ok_inj in Hch as <-.
Qed.
End calls_good.

(** ** Every event keeps the world good *)

Lemma good_extend w x :
  good w -> (forall a, x = Sent a -> recorded (w_ledger w) a) -> x <> Dereferenced ->
  good (logged x w) /\ later w (logged x w).
Proof.
  intros [H1 H2 H3 H4] Hs Hd. assert (w_log w ⊆ w_log (logged x w)) as Hsub by (cbn; set_solver).
  split; [split; [exact H1| | |]|by split].
  - intros id o Ho. eapply op_good_mono; [exact Hsub|]. by apply (H2 id).
  - cbn. intros a [Ha|Ha%list_elem_of_singleton]%elem_of_app; [by apply H3|by apply Hs].
  - cbn. intros [Hx|Hx%list_elem_of_singleton]%elem_of_app; [done|by apply Hd].
Qed.

Lemma good_answered {A} (record : A -> entry) (r : Prelude.result failure A) w :
  good w -> (forall a, match record a with Sent _ | Dereferenced => False | _ => True end) ->
  good (answered record r w) /\ later w (answered record r w).
Proof.
  intros Hg Hr. destruct r as [a|e]; [|done]. cbn. specialize (Hr a).
  apply good_extend; [done| |]; destruct (record a); done.
Qed.

Lemma good_mutation w c l :
  good w -> call_justified c (w_log w) (w_ledger w) -> journal_mutation (change_of hash c) (w_ledger w) = Ok l ->
  good (with_ledger l w) /\ later w (with_ledger l w).
Proof.
  intros [H1 H2 H3 H4] Hj Hm.
  assert (call_ok c) as Hc by (destruct c; cbn in *; tauto).
  destruct (journal_mutation_evolves hash c _ _ Hc Hm H1) as [Hl Hlat].
  split; [split|by split]; cbn.
  - done.
  - exact (all_good_call (w_log w) (w_ledger w) H1 H2 c l Hm Hj).
  - intros a Ha. eapply recorded_later; [done|]. by apply H3.
  - done.
Qed.

Lemma occurs_good i e w x w' : allowed e w -> good w -> occurs i e w x w' -> good w' /\ later w w'.
Proof.
  intros Ha Hg Ho. destruct e; cbn in Ha, Ho; destruct_and?; subst; try by split.
  - destruct Ho as (t & [(l & Hm & -> & _)|[(c & _ & -> & _)|[-> _]]]); [by eapply good_mutation|by split|by split].
  - by apply good_answered.
  - by apply good_answered.
  - apply good_extend; [done| |done]. by intros ? [= <-].
  - by apply good_answered.
  - by apply good_answered.
  - by destruct Hg.
Qed.

(** ** What the calls of the journal ensure *)

Abbreviation WP := (wp later good occurs allowed).

(** An operation that was read from the ledger, now or earlier. *)
Definition known (o : DurableOperation) (w : world) : Prop :=
  (op_state o = reserved <-> op_attempt o = None) /\
  exists o', om_get (ops (w_ledger w)) (op_id o) = Some o' /\ op_later o o'.

Lemma known_later o w w' : known o w -> later w w' -> known o w'.
Proof.
  intros [Hs (o1 & H1 & L1)] [[Hops _] _]. split; [done|]. destruct (Hops _ _ H1) as (o2 & H2 & L2).
  exists o2. split; [done|by etrans].
Qed.

Lemma known_get l w id o :
  ledger_ok l -> ledger_later l (w_ledger w) -> om_get (ops l) id = Some o -> known o w /\ op_id o = id.
Proof.
  intros [Hb Ha _] [Hops _] Ho. pose proof (ok_reservations _ Hb _ _ Ho) as [<- _].
  split; [|done]. split; [by apply (Ha _ _ Ho)|]. by apply Hops.
Qed.

(** A journal update that returned: the ledgers before and after it. *)
Definition updated (change : Z -> journal_call) (l : HostedDevnetLedger) (w : world) : Prop :=
  ledger_ok l /\ ledger_later l (w_ledger w) /\
  exists t l0 l1, ledger_ok l0 /\ change_of hash (change t) l0 = Ok l1 /\ ops l = ops l1 /\
                  (forall k, leases l k = leases l1 k) /\ ledger_later l0 l.

Lemma updated_later change l w w' : updated change l w -> later w w' -> updated change l w'.
Proof. intros (H1 & H2 & H3) [Hl _]. split; [done|]. split; [by etrans|done]. Qed.

Lemma wp_mutate change w :
  (forall w', later w w' -> good w' -> forall t, call_justified (change t) (w_log w') (w_ledger w')) ->
  WP (mutate change) (returns (updated change)) w.
Proof.
  intros Hj w' Hl Hg. specialize (Hj w' Hl Hg). split; [done|]. intros i x w'' Ho _ _ w3 Hl3 Hg3. cbn in Ho.
  destruct Ho as (t & [(l & Hm & -> & [->| ->])|[(c & _ & _ & ->)|[_ ->]]]); try done. cbn.
  destruct (good_mutation _ _ _ Hg (Hj t) Hm) as [[Hl1 _ _ _] [Hl2 _]].
  split; [done|]. split; [apply Hl3|]. unfold journal_mutation in Hm. minv Hm.
  eexists t, _, _. split_and!; [apply Hg|done|done|by intros []|done].
Qed.

Lemma wp_nonnull {A} (x : option A) (Q : A -> world -> Prop) w a :
  x = Some a -> (forall w', later w w' -> good w' -> Q a w') -> WP (nonnull x) (returns Q) w.
Proof. by intros ->. Qed.

(** A journal method: an update, and the operation it returns. *)
Lemma wp_journal_operation change id (Q : DurableOperation -> Prop) w :
  (forall w', later w w' -> good w' -> forall t, call_justified (change t) (w_log w') (w_ledger w')) ->
  (forall t l l', ledger_ok l -> change_of hash (change t) l = Ok l' -> exists o, om_get (ops l') id = Some o /\ Q o) ->
  WP (ledger ← mutate change; nonnull (om_get (operations ledger) id))
     (returns (fun o w' => known o w' /\ op_id o = id /\ Q o)) w.
Proof.
  intros Hj Hres. apply wp_call; [apply _|]. eapply wp_weaken; [apply _| |by apply wp_mutate].
  intros [l|e] w' Hl Hg H; [|done]. destruct H as (Hok & Hlat & t & l0 & l1 & Hok0 & Hch & Hops & _ & _).
  destruct (Hres t l0 l1 Hok0 Hch) as (o & Ho & HQ). rewrite <- Hops in Ho. eapply wp_nonnull; [exact Ho|].
  intros w'' [Hl' _] _. destruct (known_get l w'' id o Hok) as [Hk Hid]; [by etrans|done|]. done.
Qed.

(** An event that asks nothing of the world, for its answer only. *)
Lemma wp_any {A} e (f : answer e -> Prelude.result failure A) w :
  (forall w', allowed e w') -> WP (trigger_result e f) (returns (fun _ _ => True)) w.
Proof. intros Ha w' Hl Hg. split; [done|]. intros i x w'' _ _ _ w3 _ _. by destruct (f x). Qed.

(** Runs the first call of a sequence by its lemma. *)
Ltac wp_seq lem := apply wp_call; [apply _|]; eapply wp_weaken; [apply _| |eapply lem]; cbn [allowed]; try done.
(** Runs a [try] by the lemma of its body; its result is whatever it is. *)
Ltac wp_try lem := apply wp_call; [apply _|]; apply wp_attempt; [apply _|]; eapply wp_weaken; [apply _| |eapply lem]; try done.

Lemma wp_transition id state code w :
  (forall w', later w w' -> good w' -> call_justified (CTransition id state code 0) (w_log w') (w_ledger w')) ->
  WP (journal_transition id state code) (returns (fun o w' => known o w' /\ op_id o = id)) w.
Proof.
  intros Hj. eapply wp_weaken; [apply _| |apply (wp_journal_operation _ _ (fun _ => True))].
  - intros [o|e] w' _ _; [|done]. by intros (H1 & H2 & _).
  - intros w' Hl Hg t. exact (Hj w' Hl Hg).
  - intros t l l' _ H. cbn in H. unfold transition in H. minv H. found operation_of_Ok as Ho.
    destruct (is_terminal _); [apply Ok_inj in R0 as <-; eauto|]. minv R0.
    eexists. split; [|done]. by rewrite get_with_operation, bool_decide_true.
Qed.

Lemma wp_release lease state code w :
  state <> Some reserved -> state <> Some confirmed ->
  WP (journal_release lease state code) (returns (fun o w' => known o w' /\ op_id o = ls_operationId lease)) w.
Proof.
  intros Hr Hc. eapply wp_weaken; [apply _| |apply (wp_journal_operation _ _ (fun _ => True))].
  - intros [o|e] w' _ _; [|done]. by intros (H1 & H2 & _).
  - done.
  - intros t l l' _ H. cbn in H. unfold release in H. minv H. found operation_of_Ok as Ho.
    match goal with H : match _ with _ => _ end = Ok _ |- _ => rename H into Hrel end.
    set (l1 := if same_lease _ _ _ _ then _ else l) in Hrel.
    assert (ops l1 = ops l) as Hops by (unfold l1; destruct (same_lease _ _ _ _); [by destruct (op_kind a)|done]).
    destruct state as [state|]; [|apply Ok_inj in Hrel as <-; rewrite Hops; eauto].
    destruct (is_terminal _); [apply Ok_inj in Hrel as <-; rewrite Hops; eauto|]. minv Hrel.
    eexists. split; [|done]. by rewrite get_with_operation, bool_decide_true.
Qed.

Lemma wp_persistPrepared id lease a w :
  prepared_for (w_log w) id a ->
  WP (journal_persistPrepared id lease a) (returns (fun o w' => known o w' /\ op_id o = id /\ op_attempt o = Some a)) w.
Proof.
  intros Hp. unfold journal_persistPrepared, readClock. wp_seq (wp_any Now (fun x => Ok x)).
  intros [t|e] w' Hl _ _; [|done]. apply wp_journal_operation.
  - intros w'' Hl' _ _. eapply prepared_for_mono; [|exact Hp]. transitivity (w_log w'); [apply Hl|apply Hl'].
  - intros t' l l' _ H. cbn in H. unfold persistPrepared in H. minv H.
    eexists. by rewrite get_with_operation, bool_decide_true.
Qed.

Lemma wp_acquire o w :
  WP (journal_acquire o) (returns (fun lease _ => ls_operationId lease = op_id o)) w.
Proof.
  unfold journal_acquire. destruct (is_active _); [|by intros ???].
  wp_seq (wp_any RandomUUID (fun x => Ok x)). intros [holder|e] w1 _ _ _; [|done].
  wp_seq (wp_any Now (fun x => Ok x)). intros [t|e] w2 _ _ _; [|done].
  wp_seq wp_mutate. intros [l|e] w3 _ _ H; [|done].
  destruct H as (_ & _ & t' & l0 & l1 & _ & Hch & _ & Hleases & _). cbn in Hch. unfold acquire in Hch. minv Hch.
  eapply (wp_nonnull _ _ _ (Lease (op_id o) holder (nextFence l0 + 1) (t + PREPARATION_LEASE_MS))); [|done].
  rewrite Hleases. case_bool_decide; by destruct (op_kind o).
Qed.

Lemma wp_assertSendFence id lease w : WP (journal_assertSendFence id lease) (returns (fun _ _ => True)) w.
Proof.
  unfold journal_assertSendFence, journal_read. apply wp_call; [apply _|].
  wp_seq (wp_any ReadLedger (fun x => x)). intros [l|e] w1 _ _ _; [|done].
  cbn [returns]. destruct (validate l); [|by intros ???]. intros w2 _ _.
  wp_seq (wp_any Now (fun x => Ok x)). intros [t|e] w3 _ _ _; [|done]. cbn [returns]. by destruct (assertSendFence id lease t l) as [[]|c]; intros ???.
Qed.

Lemma wp_reserveGrant owner asset v ip w :
  WP (journal_reserveGrant hash owner asset v ip)
     (returns (fun o w' => known o w' /\ exists day, op_id o = grantOperationId hash owner asset day)) w.
Proof.
  unfold journal_reserveGrant. wp_seq (wp_any Now (fun x => Ok x)). intros [t|e] w1 _ _ _; [|done].
  eapply wp_weaken; [apply _| |apply (wp_journal_operation _ _ (fun _ => True)); [done|]].
  { intros [o|e] w' _ _; [|done]. intros (H1 & H2 & _). split; [done|by eexists]. }
  intros t' l l' _ H. cbn in H. unfold reserveGrant in H. minv H. unfold om_has in R0.
  destruct (om_get (operations l) _) eqn:Ho; [apply Ok_inj in R0 as <-; by eexists|]. minv R0.
  eexists. by rewrite get_with_operation, bool_decide_true.
Qed.

Lemma wp_reserveObservation asset w :
  WP (journal_reserveObservation hash asset)
     (returns (fun o w' => known o w' /\ exists bucket, op_id o = observationOperationId hash asset bucket)) w.
Proof.
  unfold journal_reserveObservation. wp_seq (wp_any Now (fun x => Ok x)). intros [t|e] w1 _ _ _; [|done].
  eapply wp_weaken; [apply _| |apply (wp_journal_operation _ _ (fun _ => True)); [done|]].
  { intros [o|e] w' _ _; [|done]. intros (H1 & H2 & _). split; [done|by eexists]. }
  intros t' l l' _ H. cbn in H. unfold reserveObservation, om_has in H.
  destruct (om_get (operations l) _) eqn:Ho; [apply Ok_inj in H as <-; by eexists|]. minv H.
  eexists. by rewrite get_with_operation, bool_decide_true.
Qed.

(** ** What the answers of the chain leave in the log *)

Lemma answered_later {A} (record : A -> entry) a w w' : later (answered record (Ok a) w) w' -> record a ∈ w_log w'.
Proof. intros [_ Hs]. apply Hs. cbn. set_solver. Qed.

Ltac wp_recorded :=
  intros w' _ _; split; [done|]; intros i [x|x] w'' -> _ _ w3 Hl3 _; [|done];
  first [exact (answered_later _ _ _ _ Hl3) | by eapply answered_later].

Lemma wp_verifyOutcome o w : WP (verifyOutcome o) (returns (fun b w' => OutcomeSeen o b ∈ w_log w')) w.
Proof. wp_recorded. Qed.
Lemma wp_transactionStatus a w : WP (transactionStatus a) (returns (fun st w' => Reported a st ∈ w_log w')) w.
Proof. wp_recorded. Qed.
Lemma wp_prepareFaucet rq n w : WP (prepareFaucet rq n) (returns (fun a w' => FaucetPrepared rq n a ∈ w_log w')) w.
Proof. wp_recorded. Qed.
Lemma wp_prepareObservation asset n w :
  WP (prepareObservation asset n) (returns (fun a w' => ObservationPrepared asset n a ∈ w_log w')) w.
Proof. wp_recorded. Qed.

(** ** The service *)

Lemma known_attempt o w a : known o w -> op_attempt o = Some a -> recorded (w_ledger w) a.
Proof. intros [_ (o' & Ho & _ & Ha & _)] Hx. exists (op_id o), o'. auto. Qed.

Lemma wp_conclude o a code w :
  known o w -> op_attempt o = Some a -> Reported a (TxStatus tx_confirmed code) ∈ w_log w ->
  WP (conclude o) (returns (fun o' w' => known o' w' /\ op_id o' = op_id o)) w.
Proof.
  intros Hk Ha Hr. unfold conclude. wp_seq wp_verifyOutcome. intros [b|e] w1 Hl _ Hb; [|done]. apply wp_transition.
  intros w2 Hl2 _. destruct b; [|done]. intros _.
  assert (later w w2) as Hl' by (by etrans). apply (known_later _ _ _ Hk) in Hl' as Hk2.
  destruct Hk2 as [_ (o' & Ho' & _ & Ha' & _)]. exists o', a. split_and!; [done|by apply Ha'|]. split.
  - exists code. by apply Hl'.
  - exists o. split; [by apply Hl2|done].
Qed.

Lemma wp_reconcile o w :
  known o w -> WP (reconcile o) (returns (fun o' w' => known o' w' /\ op_id o' = op_id o)) w.
Proof.
  intros Hk. unfold reconcile.
  assert (WP (mret (M:=call event answer failure) o) (returns (fun o' w' => known o' w' /\ op_id o' = op_id o)) w) as Hsame
    by (intros w' Hl _; split; [by eapply known_later|done]).
  destruct (is_terminal _); [done|]. destruct (op_attempt o) as [a|] eqn:Ha; [|done].
  wp_seq wp_transactionStatus. intros [[st code]|e] w1 Hl1 _ H1; [|done].
  assert (known o w1) as Hk1 by (by eapply known_later).
  assert (WP (height ← blockHeight; if lastValidBlockHeight a <? height then
              final ← transactionStatus a;
              match ts_state final with
              | tx_confirmed => conclude o
              | tx_failed => journal_transition (op_id o) failed (Some "TRANSACTION_FAILED")
              | _ => journal_transition (op_id o) expired (Some "SIGNATURE_EXPIRED")
              end
            else mret o) (returns (fun o' w' => known o' w' /\ op_id o' = op_id o)) w1) as Hlate.
  { unfold blockHeight. wp_seq (wp_any BlockHeight (fun x => x)). intros [height|e] w2 Hl2 _ _; [|done]. cbn [returns].
    assert (known o w2) as Hk2 by (by eapply known_later).
    destruct (_ <? _); [|intros w' Hl _; split; [by eapply known_later|done]].
    wp_seq wp_transactionStatus. intros [[st' code']|e] w3 Hl3 _ H3; [|done].
    destruct st'; cbn [returns ts_state]; try (apply wp_transition; done).
    eapply wp_conclude; [by eapply known_later|done|done]. }
  destruct st; cbn [returns ts_state]; [done|done| |by apply wp_transition].
  by eapply wp_conclude.
Qed.

Lemma wp_disableWrites w : WP disableWrites (returns (fun _ _ => True)) w.
Proof. by apply (wp_any SetWriteDisabled (fun x => Ok x)). Qed.

Lemma wp_release_or_disable lease state code o w :
  known o w -> op_id o = ls_operationId lease -> state <> reserved -> state <> confirmed ->
  WP (release_or_disable lease state code o) (returns (fun o' w' => known o' w' /\ op_id o' = op_id o)) w.
Proof.
  intros Hk Hid Hr Hc. unfold release_or_disable. wp_try wp_release; [|congruence|congruence].
  intros [o'|e] w1 Hl1 _ H; intros w2 Hl2 _; cbn [returns].
  - destruct H as [Hk' Hid']. intros w3 Hl3 _. split; [eapply known_later; [done|by etrans]|congruence].
  - wp_seq wp_disableWrites. intros [x|x] w3 Hl3 _ _; [|done]. intros w4 Hl4 _.
    split; [eapply known_later; [done|by repeat (etrans; [eassumption|])]|done].
Qed.

(** The handler of the outer [catch] always throws. *)
Lemma wp_execute_failed (Q : DurableOperation -> world -> Prop) o lease e w :
  WP (execute_failed o lease e) (returns Q) w.
Proof.
  unfold execute_failed. wp_try wp_release. intros r w1 _ _ _ w2 _ _. cbn [returns].
  apply wp_call; [apply _|]. eapply (wp_weaken _ _ _ _ _ (returns (fun _ _ => True))).
  2: { destruct r; [by intros ???|]. apply wp_disableWrites. }
  intros [x|x] w3 _ _ _; [|done]. cbn [returns]. destruct (service_code e) as [code|]; [|by intros ???].
  destruct (_ && _); [|by intros ???]. wp_seq wp_disableWrites. intros [y|y] w4 _ _ _; [|done].
  apply wp_call; [apply _|]. apply wp_attempt; [apply _|]. unfold journal_disableFaucet.
  eapply (wp_weaken _ _ _ _ _ (returns (fun _ _ => True))); [by intros|]. wp_seq wp_mutate. by intros [l|l].
Qed.

Lemma wp_sendExact o w : known o w -> op_attempt o <> None -> WP (sendExact (op_attempt o)) (returns (fun _ _ => True)) w.
Proof.
  intros Hk Ha. destruct (op_attempt o) as [a|] eqn:Hat; [|done]. unfold sendExact.
  apply wp_call; [apply _|]. intros w1 Hl1 _ w2 Hl2 _. split.
  - cbn. eapply known_attempt; [|done]. eapply known_later; [done|by etrans].
  - intros i x w3 _ _ _ w4 _ _. by destruct x.
Qed.

(** Everything [execute] returns is an operation of the ledger. *)
Abbreviation same_operation o := (returns (fun o' w' => known o' w' /\ op_id o' = op_id o)).

Lemma wp_execute_send o lease w :
  known o w -> op_attempt o <> None -> op_id o = ls_operationId lease -> WP (execute_send o lease) (same_operation o) w.
Proof.
  intros Hk Ha Hid. unfold execute_send.
  apply wp_call; [apply _|]. apply wp_attempt; [apply _|]. eapply (wp_weaken _ _ _ _ _ (returns (fun _ _ => True))).
  2: { wp_seq (wp_any (VerifyPrepared o) (fun x => x)). intros [x|x] w1 _ _ _; [apply wp_assertSendFence|done]. }
  intros checked w1 Hl1 _ _ w2 Hl2 _. cbn [returns]. destruct checked as [u|e]; [|apply wp_execute_failed].
  assert (known o w2) as Hk2 by (eapply known_later; [done|by etrans]).
  wp_try wp_sendExact. intros sent w3 Hl3 _ _ w4 Hl4 _. cbn [returns].
  assert (known o w4) as Hk4 by (eapply known_later; [exact Hk2|by etrans]).
  destruct sent as [u'|e]; [|case_bool_decide; by apply wp_release_or_disable].
  wp_try wp_release. intros released w5 Hl5 _ Hrel w6 Hl6 _. cbn [returns]. destruct released as [o'|e].
  - destruct Hrel as [Hk' Hid']. eapply wp_weaken; [apply _| |apply wp_reconcile; by eapply known_later].
    intros [x|x] w7 _ _; [|done]. intros [H1 H2]. split; [done|congruence].
  - wp_seq wp_disableWrites. intros [x|x] w7 Hl7 _ _; [|done]. intros w8 Hl8 _.
    split; [eapply known_later; [done|by repeat (etrans; [eassumption|])]|done].
Qed.

Lemma wp_execute o prepare w :
  known o w ->
  (forall w', later w w' -> good w' -> WP prepare (returns (fun a w'' => prepared_for (w_log w'') (op_id o) a)) w') ->
  WP (execute o prepare) (same_operation o) w.
Proof.
  intros Hk Hp. unfold execute. wp_seq wp_reconcile. intros [o1|e] w1 Hl1 _ H1; [|done]. destruct H1 as [Hk1 Hid1]. cbn [returns].
  destruct (is_terminal (op_state o1)) eqn:Ht; [intros w2 Hl2 _; split; [by eapply known_later|done]|].
  wp_try wp_acquire. intros acquired w2 Hl2 _ Hacq w3 Hl3 Hg3. cbn [returns].
  assert (later w1 w3) as Hl13 by (by etrans). assert (known o1 w3) as Hk3 by (by eapply known_later).
  destruct acquired as [lease|[code| |]]; [|by intros ???| |by intros ???].
  2: { intros w4 Hl4 _. split; [by eapply known_later|done]. }
  cbn in Hacq. apply wp_call; [apply _|]. apply wp_attempt; [apply _|].
  eapply (wp_weaken _ _ _ _ _ (returns (fun o2 w' => known o2 w' /\ op_id o2 = op_id o /\ op_attempt o2 <> None))).
  2: { case_bool_decide as Hs.
       - apply wp_call; [apply _|]. eapply wp_weaken; [apply _| |apply Hp; [by etrans|done]].
         intros [a|e] w4 _ _ Hprep; [|done]. cbn [returns] in Hprep |- *. rewrite <- Hid1 in Hprep.
         eapply wp_weaken; [apply _| |by apply wp_persistPrepared].
         intros [o2|e] w5 _ _; [|done]. intros (Hk5 & Hid5 & Hat). split_and!; [done|congruence|congruence].
       - intros w4 Hl4 _. split; [by eapply known_later|]. split; [done|].
         destruct Hk1 as [Hst _]. intros Hn. by apply Hs, Hst. }
  intros persisted w4 Hl4 _ Hpers w5 Hl5 _. cbn [returns]. destruct persisted as [o2|e]; [|apply wp_execute_failed].
  destruct Hpers as (Hk4 & Hid4 & Hat). eapply wp_weaken; [apply _| |apply wp_execute_send; [by eapply known_later|done|congruence]].
  intros [x|x] w6 _ _; [|done]. intros [H1 H2]. split; [done|congruence].
Qed.

(** ** The public calls *)

(** A confirmed operation of the ledger, with the evidence for it. *)
Definition confirmed_in (w : world) (signature : string) : Prop :=
  exists o a, om_get (ops (w_ledger w)) (op_id o) = Some o /\ op_state o = confirmed /\ op_attempt o = Some a /\
    at_signature a = signature /\ verified_for (w_log w) (op_id o) a.

(** What a caller is told can be relied on. *)
Definition told (r : PublicFundingResult) (w : world) : Prop :=
  pf_status r = fs_confirmed -> exists signature, pf_signatures r = [signature] /\ confirmed_in w signature.

Lemma told_result o symbol w : known o w -> good w -> told (result o symbol) w.
Proof.
  intros [_ (o' & Ho & _ & _ & Hterm)] Hg Hr.
  assert (op_state o = confirmed) as Hs by (unfold result in Hr; by destruct (op_state o)).
  specialize (Hterm ltac:(by rewrite Hs)). subst o'.
  destruct (good_ops _ Hg _ _ Ho) as [_ _ Hc]. destruct (Hc Hs) as (a & Ha & Hv).
  exists (at_signature a). unfold result. rewrite Hs, Ha. split; [done|]. by exists o, a.
Qed.

Lemma grant_not_observation owner asset day asset' bucket :
  grantOperationId hash owner asset day <> observationOperationId hash asset' bucket.
Proof. done. Qed.

(** What an operation's identifier says of its reservation. *)
Lemma known_reservation o w :
  known o w -> good w ->
  ((exists owner asset day, op_id o = grantOperationId hash owner asset day) -> reservationLamports o = FAUCET_RESERVATION_LAMPORTS) /\
  ((exists asset bucket, op_id o = observationOperationId hash asset bucket) ->
   reservationLamports o = OBSERVATION_RESERVATION_LAMPORTS).
Proof.
  intros [_ (o' & Ho & Hf & _)] [Hok Hops _ _]. destruct (Hops _ _ Ho) as [Hp _ _].
  destruct (ok_reservations _ (ledger_books _ Hok) _ _ Ho) as [Hid Hres].
  injection Hf as _ _ Hr _ _ _ _ _ _. rewrite <- Hr, Hres, <- Hid. unfold purpose_ok in Hp.
  destruct (op_kind o').
  - destruct Hp as (owner & _ & ->). split; [done|]. by intros (? & ? & ?).
  - destruct Hp as (bucket & _ & ->). split; [|done]. by intros (? & ? & ? & ?).
Qed.

Lemma wp_granted rq v ip w :
  WP (operation ← journal_reserveGrant hash (rq_owner rq) (rq_assetId rq) v ip;
      execute operation (prepareFaucet rq (reservationLamports operation)))
     (returns (fun o w' => known o w')) w.
Proof.
  wp_seq wp_reserveGrant. intros [o|e] w1 Hl1 Hg1 H1; [|done]. destruct H1 as [Hk [day Hid]]. cbn [returns].
  eapply wp_weaken; [apply _| |apply wp_execute; [exact Hk|]].
  - intros [x|x] w2 _ _; [|done]. by intros [H _].
  - intros w2 Hl2 Hg2. eapply wp_weaken; [apply _| |apply wp_prepareFaucet].
    intros [a|e] w3 _ _ H; [|done]. cbn [returns] in H |- *. left. exists rq, day. split; [|done].
    by rewrite (proj1 (known_reservation o w1 Hk Hg1)) in H by eauto.
Qed.

Lemma wp_observed asset w :
  WP (operation ← journal_reserveObservation hash asset;
      execute operation (prepareObservation asset (reservationLamports operation)))
     (returns (fun o w' => known o w')) w.
Proof.
  wp_seq wp_reserveObservation. intros [o|e] w1 Hl1 Hg1 H1; [|done]. destruct H1 as [Hk [bucket Hid]]. cbn [returns].
  eapply wp_weaken; [apply _| |apply wp_execute; [exact Hk|]].
  - intros [x|x] w2 _ _; [|done]. by intros [H _].
  - intros w2 Hl2 Hg2. eapply wp_weaken; [apply _| |apply wp_prepareObservation].
    intros [a|e] w3 _ _ H; [|done]. cbn [returns] in H |- *. right. exists asset, bucket. split; [|done].
    by rewrite (proj2 (known_reservation o w1 Hk Hg1)) in H by eauto.
Qed.

Lemma confirmed_in_later w w' signature : confirmed_in w signature -> later w w' -> confirmed_in w' signature.
Proof.
  intros (o & a & Ho & Hs & Ha & Hsig & Hv) [[Hops _] Hlog]. destruct (Hops _ _ Ho) as (o' & Ho' & _ & _ & Hterm).
  rewrite Hs in Hterm. specialize (Hterm eq_refl). subst o'. exists o, a. split_and!; try done. by eapply verified_for_mono.
Qed.

Lemma told_later r w w' : told r w -> later w w' -> told r w'.
Proof. intros H Hl (s & H1 & H2)%H. exists s. split; [done|]. by eapply confirmed_in_later. Qed.

Section calls.
Context (manifest : RegistryManifest) {PublicKey : Type} (newPublicKey : string -> option PublicKey)
  (isOnCurve : PublicKey -> bool) (toBase58 : PublicKey -> string).

Lemma wp_fund rq v ip w : WP (fund hash manifest newPublicKey isOnCurve toBase58 rq v ip) (returns told) w.
Proof.
  unfold fund, getWriteDisabled. wp_seq (wp_any GetWriteDisabled (fun x => Ok x)). intros [b|e] w1 _ _ _; [|done]. cbn [returns].
  destruct b; [by intros ???|]. destruct (negb _); [by intros ???|].
  destruct (list_find _ _) as [[j asset]|]; [|by intros ???]. destruct (valid_owner _ _ _ _); [|by intros ???].
  wp_try wp_granted. intros executed w2 Hl2 _ H2 w3 Hl3 _. cbn [returns]. destruct executed as [o|e].
  - intros w4 Hl4 Hg4. apply told_result; [|done]. eapply known_later; [done|by etrans].
  - apply wp_call; [apply _|]. eapply (wp_weaken _ _ _ _ _ (returns (fun _ _ => True))); [by intros [x|x] w4 _ _ _|].
    destruct (service_code e); [by intros ???|apply wp_disableWrites].
Qed.

Lemma wp_refresh_assets assets values w :
  Forall (fun r => told r w) values -> WP (refresh_assets hash assets values) (returns (fun rs w' => Forall (fun r => told r w') rs)) w.
Proof.
  assert (forall w w' rs, later w w' -> Forall (fun r => told r w) rs -> Forall (fun r => told r w') rs) as Hmono
    by (intros w0 w1 rs Hl Hf; eapply Forall_impl; [exact Hf|]; cbn; intros; by eapply told_later).
  revert values w. induction assets as [|asset rest IH]; intros values w Hv; cbn [refresh_assets].
  - intros w' Hl _. by eapply Hmono.
  - wp_try wp_observed. intros completed w1 Hl1 _ H1 w2 Hl2 Hg2. cbn [returns].
    assert (Forall (fun r => told r w2) values) as Hv2 by (eapply Hmono; [|done]; by etrans).
    destruct completed as [o|e].
    + assert (Forall (fun r => told r w2) (values ++ [result o None])) as Hv'
        by (apply Forall_app; split; [done|]; apply Forall_singleton, told_result; [by eapply known_later|done]).
      destruct (pf_status _); [by apply IH|by apply IH|]. intros w3 Hl3 _. by eapply Hmono.
    + intros w3 Hl3 _. eapply Hmono; [done|]. apply Forall_app. split; [done|]. by apply Forall_singleton.
Qed.

(** What a finished call promises its caller. *)
Definition reply_ok (r : reply) (w : world) : Prop :=
  match r with
  | Funded (Ok r) => told r w
  | Refreshed (Ok rs) => Forall (fun r => told r w) rs
  | _ => True
  end.

Lemma wp_faucetAvailable w : WP faucetAvailable (returns (fun _ _ => True)) w.
Proof.
  unfold faucetAvailable, getWriteDisabled. wp_seq (wp_any GetWriteDisabled (fun x => Ok x)). intros [b|e] w1 _ _ _; [|done].
  cbn [returns]. destruct b; [by intros ???|]. apply wp_call; [apply _|]. apply wp_attempt; [apply _|].
  eapply (wp_weaken _ _ _ _ _ (returns (fun _ _ => True))).
  - intros r w2 _ _ _ w3 _ _. cbn [returns]. destruct r; [by intros ???|]. wp_seq wp_disableWrites. by intros [x|x].
  - unfold journal_read. apply wp_call; [apply _|]. wp_seq (wp_any ReadLedger (fun x => x)). intros [l|e] w2 _ _ _; [|done].
    cbn [returns]. destruct (validate l); [|by intros ???]. intros w3 _ _.
    wp_seq (wp_any Now (fun x => Ok x)). by intros [t|e].
Qed.

Abbreviation serving := (served hash manifest newPublicKey isOnCurve toBase58).

Lemma wp_served p w : serving p -> good w -> WP p reply_ok w.
Proof.
  intros Hp _. destruct Hp as [rq v ip| |]; (apply wp_bind; [apply _|]); (eapply wp_weaken; [apply _| |]);
    [|apply wp_fund| |by apply wp_refresh_assets| |apply wp_faucetAvailable].
  - intros r w1 _ _ Hr w2 Hl _. destruct r as [r|]; [|done]. by eapply told_later.
  - intros r w1 _ _ Hr w2 Hl _. destruct r as [r|]; [|done]. cbn in Hr |- *.
    eapply Forall_impl; [exact Hr|]. cbn. intros; by eapply told_later.
  - by intros [r|e].
Qed.

(** ** Theorems *)

Definition start : world := World emptyLedger [] [].
Abbreviation service_run := (rtc (thread_step occurs serving) (Threads start [])).

Lemma start_good : good start.
Proof. split; [exact empty_ok|done|by intros a ?%elem_of_nil|by intros ?%elem_of_nil]. Qed.

Lemma service_good s : service_run s -> good (th_world s).
Proof. apply (threads_good later good occurs allowed serving reply_ok occurs_good wp_served), start_good. Qed.

(** A non-null assertion failed at some point of the run. *)
Definition assertion_failed (w : world) : Prop := Dereferenced ∈ w_log w.

(** C16: however many service instances fund and refresh at once, crash or lose
    replies: every transaction handed to the chain is the one recorded for an
    operation, which the chain adapter prepared for that operation within its
    reservation; and different transactions belong to different operations, so
    no operation is ever paid out twice. *)
Theorem devnet_sends_once s attempts :
  service_run s -> NoDup attempts -> (forall a, a ∈ attempts -> Sent a ∈ w_log (th_world s)) ->
  exists ids, NoDup ids /\ Forall2 (fun a id => exists o, om_get (ops (w_ledger (th_world s))) id = Some o /\
    op_attempt o = Some a /\ prepared_for (w_log (th_world s)) id a) attempts ids.
Proof.
  intros [Hok Hops Hsent _]%service_good Hnd Hin. induction Hnd as [|a attempts Ha _ IH]; [by exists []; split; constructor|].
  destruct IH as (ids & Hids & Hall); [intros; apply Hin; by right|].
  destruct (Hsent a (Hin a ltac:(by left))) as (id & o & Ho & Hat). exists (id :: ids). split.
  - constructor; [|done]. intros [j Hj]%list_elem_of_lookup_1.
    destruct (Forall2_lookup_r _ _ _ _ _ Hall Hj) as (b & Hb%list_elem_of_lookup_2 & o' & Ho' & Hat' & _). congruence.
  - constructor; [|done]. exists o. split_and!; [done|done|].
    destruct (ok_reservations _ (ledger_books _ Hok) _ _ Ho) as [<- _]. by apply (Hops _ _ Ho).
Qed.

(** C17: an operation is recorded as confirmed only after the chain reported
    its own transaction confirmed and its effect was seen; and a caller who is
    told "confirmed" is told the signature of such an operation. *)
Theorem devnet_confirmations_sound s :
  service_run s ->
  (forall id o, om_get (ops (w_ledger (th_world s))) id = Some o -> op_state o = confirmed ->
     exists a, op_attempt o = Some a /\ prepared_for (w_log (th_world s)) id a /\ verified_for (w_log (th_world s)) id a) /\
  (forall j i r, th_threads s !! j = Some (i, Pure r) -> reply_ok r (th_world s)).
Proof.
  intros Hs. split.
  - intros id o Ho Hc. destruct (service_good s Hs) as [Hok Hops _ _].
    destruct (ok_reservations _ (ledger_books _ Hok) _ _ Ho) as [<- _]. destruct (Hops _ _ Ho) as [_ Hp Hv].
    destruct (Hv Hc) as (a & Ha & Hver). exists a. auto.
  - intros j i r. exact (threads_post later good occurs allowed serving reply_ok occurs_good wp_served start s j i r start_good Hs).
Qed.

(** C40: the non-null assertions of the service are right: no run uses a value
    that is absent, neither the operation nor the lease a journal method
    returns, nor the attempt that is sent. *)
Theorem devnet_assertions_hold s : service_run s -> ~ assertion_failed (th_world s).
Proof. intros Hs. apply (service_good s Hs). Qed.
End calls.
End semantics.

(** ** Witnesses: one grant on a chain that confirms it *)

Definition ex_prepared : SignedAttempt := Attempt "signature" "blockhash" 100 "AA==" ex_now [].

Definition ex_handler (e : event) (w : world) : answer e * world :=
  match e return answer e * world with
  | Now => (ex_now, w)
  | RandomUUID => ("holder", w)
  | ReadLedger => (Ok (w_ledger w), w)
  | Mutate change =>
      match journal_mutation (change_of ex_hash (change ex_now)) (w_ledger w) with
      | Ok l => (Ok l, with_ledger l w)
      | Err c => (Err (journal_failure c), w)
      end
  | PrepareFaucet rq n => (Ok ex_prepared, logged (FaucetPrepared rq n ex_prepared) w)
  | PrepareObservation asset n => (Ok ex_prepared, logged (ObservationPrepared asset n ex_prepared) w)
  | VerifyPrepared _ => (Ok tt, w)
  | SendExact a => (Ok tt, logged (Sent a) w)
  | AskStatus a => (Ok (TxStatus tx_confirmed None), logged (Reported a (TxStatus tx_confirmed None)) w)
  | BlockHeight => (Ok 1, w)
  | VerifyOutcome o => (Ok true, logged (OutcomeSeen o true) w)
  | GetWriteDisabled => (bool_decide (0%nat ∈ w_disabled w), w)
  | SetWriteDisabled => (tt, disabled_by 0 w)
  | NullDereference => (tt, logged Dereferenced w)
  end.

Lemma ex_handler_occurs e w : occurs ex_hash 0 e w (ex_handler e w).1 (ex_handler e w).2.
Proof.
  destruct e; cbn; try done; [by split; [|left]|].
  exists ex_now. destruct (journal_mutation _ _) as [l|c] eqn:Hm; cbn; [left; eauto|right; left; eauto].
Qed.

Definition ex_manifest : RegistryManifest := Registry "runtime" "genesis" [Asset "asset" "TSTx"].
Definition ex_request : FaucetRequest := Faucet "owner" "asset" "runtime" "genesis".
Abbreviation ex_served := (served ex_hash ex_manifest (@Some string) (fun _ => true) (fun k => k)).
Definition ex_fund : prog event answer reply :=
  bind (fund ex_hash ex_manifest (@Some string) (fun _ => true) (fun k => k) ex_request "visitor" "ip") (fun r => Pure (Funded r)).
Definition ex_end : threads (event:=event) (answer:=answer) := Threads (run ex_handler ex_fund start).2 [(0%nat, Pure (run ex_handler ex_fund start).1)].

Lemma ex_run_fund : rtc (thread_step (occurs ex_hash) ex_served) (Threads start []) ex_end.
Proof. apply (run_from_start (occurs ex_hash) ex_served ex_handler 0 ex_fund start [] ex_handler_occurs). constructor. Qed.

Example devnet_sends_once_witness :
  w_log (th_world ex_end) !! 1%nat = Some (Sent ex_prepared) /\
  exists ids, Forall2 (fun a id => exists o, om_get (ops (w_ledger (th_world ex_end))) id = Some o /\ op_attempt o = Some a /\
    prepared_for ex_hash (w_log (th_world ex_end)) id a) [ex_prepared] ids.
Proof.
  split; [vm_compute; reflexivity|].
  destruct (devnet_sends_once ex_hash ex_manifest (@Some string) (fun _ => true) (fun k => k) ex_end [ex_prepared] ex_run_fund)
    as (ids & _ & H).
  - apply NoDup_singleton.
  - intros a ->%list_elem_of_singleton. apply list_elem_of_lookup. exists 1%nat. vm_compute. reflexivity.
  - exists ids. exact H.
Defined.

Example devnet_confirmations_witness :
  (run ex_handler ex_fund start).1
    = Funded (Ok (Funding ["signature"] fs_confirmed "Funded 10 TSTx synthetic devnet test units." None)) /\
  reply_ok (run ex_handler ex_fund start).1 (th_world ex_end).
Proof.
  split; [vm_compute; reflexivity|].
  exact (proj2 (devnet_confirmations_sound ex_hash ex_manifest (@Some string) (fun _ => true) (fun k => k) ex_end ex_run_fund)
    0%nat 0%nat (run ex_handler ex_fund start).1 eq_refl).
Defined.

Example devnet_assertions_witness : ~ assertion_failed (th_world ex_end).
Proof. exact (devnet_assertions_hold ex_hash ex_manifest (@Some string) (fun _ => true) (fun k => k) ex_end ex_run_fund). Defined.
