(* ===== verification/BrokerLedger.v ===== *)
(** * Hosted broker: sessions, quotas and meters

    [packages/hosted-broker/src/contract.ts] and [ledger.ts]: the records of
    sandbox sessions, the ledger with its daily quotas, its normalisation, the
    operations of [SessionLedgerRepository], and the request meters, each a
    document of its own.  A stored timestamp is the instant it denotes
    (IsoTime).  The checks of [validMeter] that the types of the record make
    true are left out.  The repository keeps two kinds of documents in its
    store, the ledger and one meter per session path; each is a [JsonCasStore]
    of its own.  A call receives the readings of the clock it makes: one for
    each attempt of a retry loop, given by the attempts that are left. *)
From S2P Require Import Prelude Js Calendar IsoTime CasStore.
Open Scope Z_scope.

(** ** [contract.ts] *)

Inductive SandboxKind := wallet | guided.
Inductive StoredSessionStatus := starting | ready | expired | failed | resetting.
Inductive PublicSessionStatus := ps_none | ps_starting | ps_ready | ps_expired | ps_failed.
#[global] Instance SandboxKind_eq_dec : EqDecision SandboxKind. Proof. solve_decision. Defined.
#[global] Instance StoredSessionStatus_eq_dec : EqDecision StoredSessionStatus. Proof. solve_decision. Defined.

Record SessionRecord := Session {
  sr_id : string; sr_meterVersion : option Z; sr_visitorHash : string; sr_ipHash : string; sr_kind : SandboxKind;
  sr_providerName : string; sr_status : StoredSessionStatus; sr_createdAt : Z; sr_provisioningDeadline : Z;
  sr_expiresAt : Z; sr_tombstoneUntil : Z; sr_createAttemptedAt : Z; sr_launchAttemptedAt : option Z;
  sr_providerStatus : option string; sr_providerExpiresAt : option Z; sr_providerDomain : option string;
  sr_runtimeId : option string; sr_genesisHash : option string; sr_deploymentDomainHex : option string;
  sr_forwardedTotal : Z; sr_mutationTotal : Z; sr_minuteWindow : string; sr_minuteCount : Z;
  sr_errorCode : option string;
}.

Abbreviation counters := (list (string * Z)).
Record DailyCounter := Daily { dc_global : Z; dc_visitors : counters; dc_ips : counters }.

Record SessionLedger := MkLedger {
  sl_schemaVersion : Z; sl_revision : Z; sessions : list (string * SessionRecord); latest : list (string * string);
  sl_daily : list (string * DailyCounter); visitorLastCreatedAt : list (string * Z);
}.

Record Limits := MkLimits {
  lim_active : Z; dailyGlobal : Z; dailyVisitor : Z; dailyIp : Z; creationCooldownMs : Z; lifetimeMs : Z;
  provisioningMs : Z; tombstoneMs : Z; requestsTotal : Z; requestsPerMinute : Z; mutationsTotal : Z;
}.
Definition DEFAULT_LIMITS : Limits := MkLimits 16 500 6 30 30000 900000 90000 86400000 2000 240 120.

(** [/^[0-9a-f]{32}$/] *)
Definition SESSION_ID (id : string) : bool :=
  Nat.eqb (length (chars id)) 32
  && forallb (fun c => is_digit c || ((97 <=? ascii_Z c) && (ascii_Z c <=? 102))) (chars id).

Definition emptySessionLedger : SessionLedger := MkLedger 1 0 [] [] [] [].

Record PublicSession := Public {
  pub_kind : SandboxKind; pub_status : PublicSessionStatus; pub_sessionId : option string;
  pub_runtimeId : option string; pub_expiresAt : option Z; pub_runtimeUrl : option string; pub_error : option string;
}.

Definition sandbox_kind_text (k : SandboxKind) : string := match k with wallet => "wallet" | guided => "guided" end.

Definition publicError (code : string) : string :=
  if bool_decide (code = "provisioning_timeout") then "The sandbox did not become ready in time. Reset it to try again."
  else if bool_decide (code = "capacity") then "Sandbox capacity is currently full. Try again later."
  else if bool_decide (code = "expired") then "This sandbox session has expired."
  else if bool_decide (code = "identity_changed") then "The sandbox identity changed and was closed."
  else if bool_decide (code = "stopping") then "The prior sandbox is still stopping. Try again later."
  else "The sandbox is unavailable. Reset it to try again.".

(** [text ? f(text) : null]: the empty string is falsy. *)
Definition if_text {A} (s : option string) (f : string -> A) : option A :=
  match s with Some t => if bool_decide (t = "") then None else Some (f t) | None => None end.

Definition publicSession (record : option SessionRecord) (kind : SandboxKind) : PublicSession :=
  match record with
  | None => Public kind ps_none None None None None None
  | Some r =>
      let status := match sr_status r with
                    | resetting | starting => ps_starting
                    | ready => ps_ready | expired => ps_expired | failed => ps_failed
                    end in
      Public (sr_kind r) status (Some (sr_id r)) (sr_runtimeId r) (Some (sr_expiresAt r))
        (match status with
         | ps_ready => Some ("/api/sandbox/" +:+ sandbox_kind_text (sr_kind r) +:+ "/" +:+ sr_id r)
         | _ => None
         end)
        (if_text (sr_errorCode r) publicError)
  end.

(** ** [ledger.ts] *)

Record SessionMeter := Meter {
  mt_schemaVersion : Z; mt_id : string; mt_visitorHash : string; mt_kind : SandboxKind; mt_providerName : string;
  mt_runtimeId : string; mt_expiresAt : Z; mt_open : bool; forwardedTotal : Z; mutationTotal : Z;
  minuteWindow : string; minuteCount : Z;
}.

Inductive LedgerFailureCode :=
  | capacity | global_quota | visitor_quota | ip_quota | cooldown | conflict | busy | budget
  | plain_Error (** [new Error(...)] *).
#[global] Instance LedgerFailureCode_eq_dec : EqDecision LedgerFailureCode. Proof. solve_decision. Defined.
Abbreviation lres := (result LedgerFailureCode).

Definition session_key (visitorHash : string) (kind : SandboxKind) : string := visitorHash +:+ ":" +:+ sandbox_kind_text kind.
Definition isFuture (value now : Z) : bool := now <? value.
Definition nonnegativeInteger (value : Z) : bool := isSafeInteger value && (0 <=? value).
Definition nonempty (s : string) : bool := negb (bool_decide (s = "")).

(** [/^\d{4}-\d{2}-\d{2}T\d{2}:\d{2}$/] *)
Definition minute_pattern (s : string) : bool :=
  Nat.eqb (length (chars s)) 16
  && forallb (fun '(p, c) => if bool_decide (p = "d"%char) then is_digit c else bool_decide (p = c))
       (zip (chars "dddd-dd-ddTdd:dd") (chars s)).

Definition validMeter (m : SessionMeter) : bool :=
  (mt_schemaVersion m =? 1) && SESSION_ID (mt_id m) && nonempty (mt_visitorHash m)
  && nonempty (mt_providerName m) && nonempty (mt_runtimeId m)
  && nonnegativeInteger (forwardedTotal m) && nonnegativeInteger (mutationTotal m)
  && minute_pattern (minuteWindow m) && nonnegativeInteger (minuteCount m).

Definition meterBindingMatches (m : SessionMeter) (r : SessionRecord) (runtimeId : option string) : bool :=
  bool_decide (mt_id m = sr_id r) && bool_decide (mt_visitorHash m = sr_visitorHash r)
  && bool_decide (mt_kind m = sr_kind r) && bool_decide (mt_providerName m = sr_providerName r)
  && bool_decide (Some (mt_runtimeId m) = runtimeId) && (mt_expiresAt m =? sr_expiresAt r).

Definition one_of (l : list string) (s : string) : bool := existsb (fun t => bool_decide (t = s)) l.
Definition TERMINAL_PROVIDER : list string := ["stopped"; "failed"; "aborted"; "missing"; "deleted"].

(** [record.providerExpiresAt && isFuture(record.providerExpiresAt, now)] *)
Definition future_option (value : option Z) (now : Z) : bool :=
  match value with Some v => isFuture v now | None => false end.

Definition holdsCapacity (r : SessionRecord) (now : Z) : bool :=
  let providerMayBeLive :=
    one_of ["pending"; "running"; "stopping"; "snapshotting"; "unknown"] (default "" (sr_providerStatus r)) in
  if providerMayBeLive && future_option (sr_providerExpiresAt r) now then true
  else if negb (isFuture (sr_expiresAt r) now) then false
  else match sr_status r with
       | starting | ready | resetting => true
       | failed => negb (one_of TERMINAL_PROVIDER (default "unknown" (sr_providerStatus r)))
       | expired => false
       end.

(** [record.status = status; record.errorCode = code] *)
Definition with_status (status : StoredSessionStatus) (code : option string) (r : SessionRecord) : SessionRecord :=
  Session (sr_id r) (sr_meterVersion r) (sr_visitorHash r) (sr_ipHash r) (sr_kind r) (sr_providerName r) status
    (sr_createdAt r) (sr_provisioningDeadline r) (sr_expiresAt r) (sr_tombstoneUntil r) (sr_createAttemptedAt r)
    (sr_launchAttemptedAt r) (sr_providerStatus r) (sr_providerExpiresAt r) (sr_providerDomain r) (sr_runtimeId r)
    (sr_genesisHash r) (sr_deploymentDomainHex r) (sr_forwardedTotal r) (sr_mutationTotal r) (sr_minuteWindow r)
    (sr_minuteCount r) code.

Definition expire_session (now : Z) (r : SessionRecord) : SessionRecord :=
  if negb (isFuture (sr_expiresAt r) now) && negb (bool_decide (sr_status r = expired)) then
    with_status expired (Some "expired") r
  else if bool_decide (sr_status r = starting) && negb (isFuture (sr_provisioningDeadline r) now) then
    with_status failed (Some "provisioning_timeout") r
  else r.

(** Deletes the entries [keep] rejects. *)
Definition om_filter {V} (keep : string -> V -> bool) (m : list (string * V)) : list (string * V) :=
  List.filter (fun '(k, v) => keep k v) m.

Definition TWO_DAYS : Z := 172800000.

Definition normalizeLedger (now : Z) (l : SessionLedger) : lres SessionLedger :=
  require (sl_schemaVersion l =? 1) plain_Error ;;
  let sessions1 := (fun '(k, r) => (k, expire_session now r)) <$> sessions l in
  let sessions2 := om_filter (fun _ r => isFuture (sr_tombstoneUntil r) now || holdsCapacity r now) sessions1 in
  let latest1 := om_filter (fun _ id => om_has sessions2 id) (latest l) in
  let cutoff := iso_day (now - TWO_DAYS) in
  let daily1 := om_filter (fun date _ => negb (js_lt date cutoff)) (sl_daily l) in
  let created1 := om_filter (fun _ createdAt => negb (createdAt <=? now - TWO_DAYS)) (visitorLastCreatedAt l) in
  Ok (MkLedger (sl_schemaVersion l) (sl_revision l) sessions2 latest1 daily1 created1).

(** [text] is truthy. *)
Definition truthy_text (s : option string) : bool := match s with Some t => nonempty t | None => false end.

(** ** [SessionLedgerRepository] *)

(** [ledger.latest[key]], when truthy, then [ledger.sessions[id]]. *)
Definition latest_session (l : SessionLedger) (key : string) : option SessionRecord :=
  match om_get (latest l) key with Some id => if nonempty id then om_get (sessions l) id else None | None => None end.

(** [ledger.revision += 1] *)
Definition next_revision (l : SessionLedger) : SessionLedger :=
  MkLedger (sl_schemaVersion l) (sl_revision l + 1) (sessions l) (latest l) (sl_daily l) (visitorLastCreatedAt l).

(** A session stored under its identifier: [ledger.sessions[id] = record], or
    the mutation of the stored object. *)
Definition with_session (id : string) (r : SessionRecord) (l : SessionLedger) : SessionLedger :=
  MkLedger (sl_schemaVersion l) (sl_revision l) (om_set (sessions l) id r) (latest l) (sl_daily l) (visitorLastCreatedAt l).

(** [counter[key] ?? 0] and [counter[key] = (counter[key] ?? 0) + 1] *)
Definition tally (m : counters) (k : string) : Z := default 0 (om_get m k).
Definition tally_bump (m : counters) (k : string) : counters := om_set m k (tally m k + 1).

(** An operation of a transaction: its result and the ledger it leaves. *)
Abbreviation ledger_operation T := (SessionLedger -> Z -> lres (T * SessionLedger)).

Record ReserveInput := MkReserve {
  in_id : string; in_visitorHash : string; in_ipHash : string; in_kind : SandboxKind; in_providerName : string;
}.

Section operations.
Context (limits : Limits).

Definition holders (l : SessionLedger) (now : Z) : Z :=
  Z.of_nat (length (List.filter (fun '(_, entry) => holdsCapacity entry now) (sessions l))).

(** The record a reservation creates. *)
Definition new_session (input : ReserveInput) (now : Z) : SessionRecord :=
  Session (in_id input) (Some 1) (in_visitorHash input) (in_ipHash input) (in_kind input) (in_providerName input)
    starting now (now + provisioningMs limits) (now + lifetimeMs limits) (now + (lifetimeMs limits + tombstoneMs limits))
    now None None None None None None None 0 0 (iso_minute now) 0 None.

Definition reserve_operation (input : ReserveInput) : ledger_operation (SessionRecord * bool) := fun ledger now =>
  let key := session_key (in_visitorHash input) (in_kind input) in
  let creating :=
    require (match om_get (visitorLastCreatedAt ledger) (in_visitorHash input) with
             | Some lastCreated => negb (now <? lastCreated + creationCooldownMs limits)
             | None => true
             end) cooldown ;;
    require (holders ledger now <? lim_active limits) capacity ;;
    let date := iso_day now in
    let counter := default (Daily 0 [] []) (om_get (sl_daily ledger) date) in
    require (dc_global counter <? dailyGlobal limits) global_quota ;;
    require (tally (dc_visitors counter) (in_visitorHash input) <? dailyVisitor limits) visitor_quota ;;
    require (tally (dc_ips counter) (in_ipHash input) <? dailyIp limits) ip_quota ;;
    let record := new_session input now in
    let counter' := Daily (dc_global counter + 1) (tally_bump (dc_visitors counter) (in_visitorHash input))
                      (tally_bump (dc_ips counter) (in_ipHash input)) in
    Ok (record, true,
        MkLedger (sl_schemaVersion ledger) (sl_revision ledger) (om_set (sessions ledger) (sr_id record) record)
          (om_set (latest ledger) key (sr_id record)) (om_set (sl_daily ledger) date counter')
          (om_set (visitorLastCreatedAt ledger) (in_visitorHash input) now)) in
  match latest_session ledger key with
  | Some latest => if holdsCapacity latest now then Ok (latest, false, ledger) else creating
  | None => creating
  end.

(** [mutate] edits the stored record in place and may throw. *)
Definition update_operation (id : string) (mutate : SessionRecord -> Z -> lres SessionRecord)
    : ledger_operation SessionRecord := fun ledger now =>
  match om_get (sessions ledger) id with
  | None => Err conflict
  | Some record => record' ← mutate record now; Ok (record', with_session id record' ledger)
  end.

Definition updateFenced_operation (id : string) (allowed : list StoredSessionStatus) (requireLatest : bool)
    (mutate : SessionRecord -> Z -> lres SessionRecord) : ledger_operation (SessionRecord * bool) := fun ledger now =>
  match om_get (sessions ledger) id with
  | None => Err conflict
  | Some record =>
      let is_latest := bool_decide (om_get (latest ledger) (session_key (sr_visitorHash record) (sr_kind record)) = Some id) in
      if negb (bool_decide (sr_status record ∈ allowed)) || (requireLatest && negb is_latest)
         || negb (isFuture (sr_expiresAt record) now)
      then Ok (record, false, ledger)
      else record' ← mutate record now; Ok (record', true, with_session id record' ledger)
  end.

(** The budgets of a session whose requests the ledger itself counts. *)
Definition with_request (window : string) (minute_count mutationCount : Z) (r : SessionRecord) : SessionRecord :=
  Session (sr_id r) (sr_meterVersion r) (sr_visitorHash r) (sr_ipHash r) (sr_kind r) (sr_providerName r) (sr_status r)
    (sr_createdAt r) (sr_provisioningDeadline r) (sr_expiresAt r) (sr_tombstoneUntil r) (sr_createAttemptedAt r)
    (sr_launchAttemptedAt r) (sr_providerStatus r) (sr_providerExpiresAt r) (sr_providerDomain r) (sr_runtimeId r)
    (sr_genesisHash r) (sr_deploymentDomainHex r) (sr_forwardedTotal r + 1) (sr_mutationTotal r + mutationCount)
    window (minute_count + 1) (sr_errorCode r).

Definition within_budget (forwarded inMinute mutations mutationCount : Z) : bool :=
  negb ((requestsTotal limits <=? forwarded) || (requestsPerMinute limits <=? inMinute)
        || (mutationsTotal limits <? mutations + mutationCount)).

Definition charge_operation (id visitorHash : string) (kind : SandboxKind) (mutationCount : Z)
    : ledger_operation SessionRecord := fun ledger now =>
  match om_get (sessions ledger) id with
  | None => Err conflict
  | Some record =>
      require (bool_decide (sr_visitorHash record = visitorHash) && bool_decide (sr_kind record = kind)
               && bool_decide (sr_meterVersion record = None)
               && bool_decide (om_get (latest ledger) (session_key visitorHash kind) = Some id)) conflict ;;
      require (bool_decide (sr_status record = ready) && isFuture (sr_expiresAt record) now) conflict ;;
      let window := iso_minute now in
      let minute_count := if bool_decide (sr_minuteWindow record = window) then sr_minuteCount record else 0 in
      require (within_budget (sr_forwardedTotal record) minute_count (sr_mutationTotal record) mutationCount) budget ;;
      let record' := with_request window minute_count mutationCount record in
      Ok (record', with_session id record' ledger)
  end.

(** One attempt of [charge] on the meter it read. *)
Definition charge_meter (snapshot : SessionRecord) (mutationCount now : Z) (m : SessionMeter) : lres SessionMeter :=
  require (validMeter m && meterBindingMatches m snapshot (sr_runtimeId snapshot) && mt_open m) busy ;;
  require (isFuture (mt_expiresAt m) now) conflict ;;
  let window := iso_minute now in
  let minute_count := if bool_decide (minuteWindow m = window) then minuteCount m else 0 in
  require (within_budget (forwardedTotal m) minute_count (mutationTotal m) mutationCount) budget ;;
  Ok (Meter (mt_schemaVersion m) (mt_id m) (mt_visitorHash m) (mt_kind m) (mt_providerName m) (mt_runtimeId m)
        (mt_expiresAt m) (mt_open m) (forwardedTotal m + 1) (mutationTotal m + mutationCount) window (minute_count + 1)).

(** One attempt of [closeMeter]: the meter closed, or [None] when it is
    already closed. *)
Definition close_meter (record : SessionRecord) (m : SessionMeter) : lres (option SessionMeter) :=
  require (validMeter m && meterBindingMatches m record (sr_runtimeId record)) busy ;;
  Ok (if mt_open m then
        Some (Meter (mt_schemaVersion m) (mt_id m) (mt_visitorHash m) (mt_kind m) (mt_providerName m) (mt_runtimeId m)
                (mt_expiresAt m) false (forwardedTotal m) (mutationTotal m) (minuteWindow m) (minuteCount m))
      else None).

Definition fresh_meter (record : SessionRecord) (runtimeId : string) (now : Z) : SessionMeter :=
  Meter 1 (sr_id record) (sr_visitorHash record) (sr_kind record) (sr_providerName record) runtimeId
    (sr_expiresAt record) true 0 0 (iso_minute now) 0.
End operations.

(** *** The store and the calls on it *)

Section repository.
Context {SL SM : Type} `{!JsonCasStore SL SessionLedger} `{!JsonCasStore SM SessionMeter}.
Context (limits : Limits) (meterPrefix : string).

Record Repository := Repo { ledger_doc : SL; meter_docs : string -> SM }.
Abbreviation RM := (M Repository LedgerFailureCode).

Definition ATTEMPTS : nat := 12.

Definition read_ledger : RM (option (SessionLedger * etag (S:=SL))) := fun r => (Ok (read (ledger_doc r)), r).
Definition read_meter_doc (path : string) : RM (option (SessionMeter * etag (S:=SM))) := fun r => (Ok (read (meter_docs r path)), r).
Definition save_ledger (current : option (SessionLedger * etag (S:=SL))) (next : SessionLedger) : RM bool := fun r =>
  let '(saved, doc) := save current next (ledger_doc r) in (Ok saved, Repo doc (meter_docs r)).
Definition write_meter (path : string) (write : SM -> bool * SM) : RM bool := fun r =>
  let '(saved, doc) := write (meter_docs r path) in
  (Ok saved, Repo (ledger_doc r) (fun p => if bool_decide (p = path) then doc else meter_docs r p)).

Definition meterPath (id : string) : lres string :=
  require (SESSION_ID id) busy ;; Ok (meterPrefix +:+ "/" +:+ id +:+ ".json").

Definition readMeter (id : string) : RM (option SessionMeter) :=
  path ← lift (meterPath id);
  current ← read_meter_doc path;
  match current with
  | None => mret None
  | Some (m, _) => ensure (validMeter m && bool_decide (mt_id m = id)) busy ;; mret (Some m)
  end.

Definition initializeMeter (record : SessionRecord) (runtimeId : string) (now : Z) : RM unit :=
  ensure (bool_decide (sr_meterVersion record = Some 1) && bool_decide (sr_status record = starting) && nonempty runtimeId)
    busy ;;
  path ← lift (meterPath (sr_id record));
  created ← write_meter path (fun doc => create doc (fresh_meter record runtimeId now));
  if (created : bool) then mret tt
  else
    existing ← readMeter (sr_id record);
    ensure (match existing with Some m => meterBindingMatches m record (Some runtimeId) && mt_open m | None => false end) busy.

Fixpoint close_loop (attempts : nat) (path : string) (record : SessionRecord) : RM unit :=
  match attempts with
  | O => throw busy
  | S attempts' =>
      current ← read_meter_doc path;
      match current with
      | None => throw busy
      | Some (m, tag) =>
          closed ← lift (close_meter record m);
          match closed with
          | None => mret tt
          | Some next =>
              saved ← write_meter path (fun doc => compareAndSwap doc tag next);
              if (saved : bool) then mret tt else close_loop attempts' path record
          end
      end
  end.

Definition closeMeter (record : SessionRecord) : RM unit :=
  match sr_meterVersion record with
  | None => mret tt
  | Some v =>
      ensure ((v =? 1) && truthy_text (sr_runtimeId record)) busy ;;
      path ← lift (meterPath (sr_id record));
      close_loop ATTEMPTS path record
  end.

(** What a transaction writes: the operation on the normalised ledger. *)
Definition transaction_step {T} (operation : ledger_operation T) (now : Z) (l : SessionLedger) : lres (T * SessionLedger) :=
  ledger ← normalizeLedger now l;
  '(result, ledger') ← operation ledger now;
  Ok (result, next_revision ledger').

Fixpoint transaction_loop {T} (attempts : nat) (clock : nat -> Z) (operation : ledger_operation T) : RM T :=
  match attempts with
  | O => throw busy
  | S attempts' =>
      current ← read_ledger;
      '(result, ledger) ← lift (transaction_step operation (clock attempts') (current_value emptySessionLedger current));
      saved ← save_ledger current ledger;
      if (saved : bool) then mret result else transaction_loop attempts' clock operation
  end.
Definition transaction {T} (clock : nat -> Z) (operation : ledger_operation T) : RM T :=
  transaction_loop ATTEMPTS clock operation.

Definition current (visitorHash : string) (kind : SandboxKind) (now : Z) : RM (option SessionRecord) :=
  stored ← read_ledger;
  match stored with
  | None => mret None
  | Some (l, _) => ledger ← lift (normalizeLedger now l); mret (latest_session ledger (session_key visitorHash kind))
  end.

Definition byId (id : string) (now : Z) : RM (option SessionRecord) :=
  stored ← read_ledger;
  match stored with
  | None => mret None
  | Some (l, _) => ledger ← lift (normalizeLedger now l); mret (om_get (sessions ledger) id)
  end.

(** [meterVersion] is 1 and the meter is bound to the record and open, or the
    record has no meter. *)
Definition assert_meter (record : SessionRecord) (id : string) : RM unit :=
  match sr_meterVersion record with
  | None => mret tt
  | Some v =>
      if v =? 1 then
        meter ← readMeter id;
        ensure (match meter with
                | Some m => meterBindingMatches m record (sr_runtimeId record) && mt_open m
                | None => false
                end) busy
      else throw busy
  end.

Definition assertForwardable (record : SessionRecord) (now : Z) : RM SessionRecord :=
  stored ← read_ledger;
  match stored with
  | None => throw conflict
  | Some (l, _) =>
      ledger ← lift (normalizeLedger now l);
      match om_get (sessions ledger) (sr_id record) with
      | None => throw conflict
      | Some latest_r =>
          ensure (bool_decide (om_get (latest ledger) (session_key (sr_visitorHash record) (sr_kind record)) = Some (sr_id record))
                  && bool_decide (sr_visitorHash latest_r = sr_visitorHash record)
                  && bool_decide (sr_kind latest_r = sr_kind record)
                  && bool_decide (sr_providerName latest_r = sr_providerName record)
                  && bool_decide (sr_runtimeId latest_r = sr_runtimeId record)
                  && (sr_expiresAt latest_r =? sr_expiresAt record)
                  && bool_decide (sr_meterVersion latest_r = sr_meterVersion record)
                  && bool_decide (sr_status latest_r = ready) && isFuture (sr_expiresAt latest_r) now) conflict ;;
          assert_meter latest_r (sr_id latest_r) ;;
          mret latest_r
      end
  end.

Definition assertMeterForwardable (record : SessionRecord) (now : Z) : RM unit :=
  ensure (bool_decide (sr_meterVersion record = Some 1) && truthy_text (sr_runtimeId record)
          && isFuture (sr_expiresAt record) now) conflict ;;
  meter ← readMeter (sr_id record);
  ensure (match meter with
          | Some m => meterBindingMatches m record (sr_runtimeId record) && mt_open m
          | None => false
          end) busy.

Definition forwardableById (id visitorHash : string) (kind : SandboxKind) (now : Z) : RM SessionRecord :=
  stored ← read_ledger;
  match stored with
  | None => throw conflict
  | Some (l, _) =>
      ledger ← lift (normalizeLedger now l);
      match om_get (sessions ledger) id with
      | None => throw conflict
      | Some record =>
          ensure (bool_decide (sr_visitorHash record = visitorHash) && bool_decide (sr_kind record = kind)
                  && bool_decide (om_get (latest ledger) (session_key visitorHash kind) = Some id)
                  && bool_decide (sr_status record = ready) && isFuture (sr_expiresAt record) now
                  && truthy_text (sr_runtimeId record)) conflict ;;
          assert_meter record id ;;
          mret record
      end
  end.

Definition reserve (input : ReserveInput) (clock : nat -> Z) : RM (SessionRecord * bool) :=
  transaction clock (reserve_operation limits input).

Definition update (id : string) (mutate : SessionRecord -> Z -> lres SessionRecord) (clock : nat -> Z) : RM SessionRecord :=
  transaction clock (update_operation id mutate).

Definition updateFenced (id : string) (allowed : list StoredSessionStatus) (requireLatest : bool)
    (mutate : SessionRecord -> Z -> lres SessionRecord) (clock : nat -> Z) : RM (SessionRecord * bool) :=
  transaction clock (updateFenced_operation id allowed requireLatest mutate).

Fixpoint charge_loop (attempts : nat) (path : string) (snapshot : SessionRecord) (mutationCount : Z) (clock : nat -> Z)
    : RM SessionRecord :=
  match attempts with
  | O => throw busy
  | S attempts' =>
      current ← read_meter_doc path;
      match current with
      | None => throw busy
      | Some (m, tag) =>
          meter ← lift (charge_meter limits snapshot mutationCount (clock attempts') m);
          saved ← write_meter path (fun doc => compareAndSwap doc tag meter);
          if (saved : bool) then mret snapshot else charge_loop attempts' path snapshot mutationCount clock
      end
  end.

(** [now] is the clock of [forwardableById], [clock] that of the loops. *)
Definition charge (id visitorHash : string) (kind : SandboxKind) (mutationCount now : Z) (clock : nat -> Z)
    : RM SessionRecord :=
  ensure (nonnegativeInteger mutationCount) budget ;;
  snapshot ← forwardableById id visitorHash kind now;
  match sr_meterVersion snapshot with
  | Some v =>
      if v =? 1 then
        path ← lift (meterPath id);
        charge_loop ATTEMPTS path snapshot mutationCount clock
      else throw busy
  | None => transaction clock (charge_operation limits id visitorHash kind mutationCount)
  end.
End repository.
Arguments Repository : clear implicits.
