(* ===== verification/BrokerProps.v ===== *)
(** * Hosted broker: the theorems on quotas and meters

    The request meters under concurrent charges and closes, the daily quotas
    over any history of committed transactions, and the admission of one
    session at a time. *)
From Stdlib Require Import Sorting.Sorted.
From S2P Require Import Prelude Js Calendar IsoTime CasStore BrokerLedger.
Open Scope Z_scope.

(** ** Meters: the loops are [mutateJson] *)

Inductive meter_call :=
  | MCharge (snapshot : SessionRecord) (mutationCount : Z) (clock : nat -> Z)
  | MClose (record : SessionRecord).

Inductive meter_stop := Refused (code : LedgerFailureCode) | AlreadyClosed.

Definition meter_mutation (limits : Limits) (c : meter_call) (n : nat) (m : SessionMeter) : result meter_stop SessionMeter :=
  match c with
  | MCharge snapshot count clock =>
      match charge_meter limits snapshot count (clock n) m with Ok m' => Ok m' | Err e => Err (Refused e) end
  | MClose record =>
      match close_meter record m with
      | Ok (Some m') => Ok m' | Ok None => Err AlreadyClosed | Err e => Err (Refused e)
      end
  end.

(** Stands for a document that does not exist: no meter is valid with it. *)
Definition absent_meter : SessionMeter := Meter 0 "" "" wallet "" "" 0 false 0 0 "" 0.

(** What a call answers, from what its loop ended with. *)
Definition loop_answer {A} (a : A) (r : result (store_failure meter_stop) SessionMeter) : result LedgerFailureCode A :=
  match r with
  | Ok _ => Ok a
  | Err (Thrown (Refused e)) => Err e
  | Err (Thrown AlreadyClosed) => Ok a
  | Err _ => Err busy
  end.

Section loops.
Context {SL SM : Type} `{!JsonCasStore SL SessionLedger} `{!JsonCasStore SM SessionMeter} (limits : Limits).
Abbreviation repository := (Repository SL SM).

(** The repository with one meter document replaced. *)
Definition meter_replaced (r : repository) (path : string) (doc : SM) (r' : repository) : Prop :=
  ledger_doc r' = ledger_doc r /\
  forall p, meter_docs r' p = if bool_decide (p = path) then doc else meter_docs r p.

Lemma meter_replaced_self (r : repository) path : meter_replaced r path (meter_docs r path) r.
Proof. split; [done|]. intros p. case_bool_decide; by subst. Qed.

Lemma meter_replaced_again r path d r1 d' r2 :
  meter_replaced r path d r1 -> meter_replaced r1 path d' r2 -> meter_replaced r path d' r2.
Proof. intros [H1 H2] [H3 H4]. split; [congruence|]. intros p. rewrite H4, H2. by case_bool_decide. Qed.

Lemma meter_replaced_doc r path d r1 : meter_replaced r path d r1 -> meter_docs r1 path = d.
Proof. intros [_ H]. rewrite H. by rewrite bool_decide_true. Qed.

(** [charge] retries as [mutateJson] does. *)
Lemma charge_loop_mutateJson n path snapshot count clock (r : repository) :
  let '(res, doc) := mutateJson absent_meter n (meter_mutation limits (MCharge snapshot count clock)) (meter_docs r path) in
  let '(answer, r') := charge_loop limits n path snapshot count clock r in
  answer = loop_answer snapshot res /\ meter_replaced r path doc r'.
Proof.
  revert r. induction n as [|n IH]; intros r; cbn [mutateJson charge_loop]; [by split; [|apply meter_replaced_self]|].
  unfold mbind, M_bind, read_meter_doc. cbn. destruct (read (meter_docs r path)) as [[m tag]|] eqn:Hr; cbn.
  2: { by split; [|apply meter_replaced_self]. }
  unfold lift. destruct (charge_meter limits snapshot count (clock n) m) as [next|e] eqn:Hm.
  2: { by split; [|apply meter_replaced_self]. }
  unfold write_meter. destruct (compareAndSwap _ tag next) as [[] doc] eqn:Hs; [done|].
  specialize (IH (Repo (ledger_doc r) (fun p => if bool_decide (p = path) then doc else meter_docs r p))).
  cbn in IH. rewrite bool_decide_true in IH by done.
  destruct (mutateJson _ _ _ doc) as [res doc'], (charge_loop _ _ _ _ _ _ _) as [answer r'].
  destruct IH as [-> IH]. split; [done|]. by eapply meter_replaced_again; [|exact IH].
Qed.

(** So does [closeMeter]. *)
Lemma close_loop_mutateJson n path record (r : repository) :
  let '(res, doc) := mutateJson absent_meter n (meter_mutation limits (MClose record)) (meter_docs r path) in
  let '(answer, r') := close_loop n path record r in
  answer = loop_answer tt res /\ meter_replaced r path doc r'.
Proof.
  revert r. induction n as [|n IH]; intros r; cbn [mutateJson close_loop]; [by split; [|apply meter_replaced_self]|].
  unfold mbind, M_bind, read_meter_doc. cbn. destruct (read (meter_docs r path)) as [[m tag]|] eqn:Hr; cbn.
  2: { by split; [|apply meter_replaced_self]. }
  unfold lift. destruct (close_meter record m) as [[next|]|e] eqn:Hm.
  2, 3: by split; [|apply meter_replaced_self].
  unfold write_meter. destruct (compareAndSwap _ tag next) as [[] doc] eqn:Hs; [done|].
  specialize (IH (Repo (ledger_doc r) (fun p => if bool_decide (p = path) then doc else meter_docs r p))).
  cbn in IH. rewrite bool_decide_true in IH by done.
  destruct (mutateJson _ _ _ doc) as [res doc'], (close_loop _ _ _ _) as [answer r'].
  destruct IH as [-> IH]. split; [done|]. by eapply meter_replaced_again; [|exact IH].
Qed.
End loops.

(** ** Meters: budgets *)

Section budgets.
Context {SM : Type} `{JsonCasStoreLaws SM SessionMeter} (limits : Limits) (calls : list meter_call).

Definition call_mutation (i n : nat) (m : SessionMeter) : result meter_stop SessionMeter :=
  match calls !! i with Some c => meter_mutation limits c n m | None => Err AlreadyClosed end.

(** What the call of caller [i] asks for, when it is let through. *)
Definition requests_of (i : nat) : Z := match calls !! i with Some (MCharge _ _ _) => 1 | _ => 0 end.
Definition mutations_of (i : nat) : Z := match calls !! i with Some (MCharge _ count _) => count | _ => 0 end.

(** [charge] has checked the mutation count before it reads a meter. *)
Definition calls_ok : Prop :=
  forall i snapshot count clock, calls !! i = Some (MCharge snapshot count clock) -> 0 <= count.

Record meter_within (m : SessionMeter) : Prop := {
  within_requests : 0 <= forwardedTotal m <= requestsTotal limits;
  within_mutations : 0 <= mutationTotal m <= mutationsTotal limits;
  within_minute : minuteCount m <= requestsPerMinute limits;
}.

Abbreviation value := (value_of absent_meter).
Abbreviation msystem := (system (S:=SM) (V:=SessionMeter) (E:=meter_stop)).
Abbreviation mstep := (step (S:=SM) absent_meter call_mutation).

Lemma charge_meter_Ok snapshot count now m m' :
  charge_meter limits snapshot count now m = Ok m' ->
  mt_open m = true /\ mt_open m' = true /\ forwardedTotal m' = forwardedTotal m + 1 /\
  mutationTotal m' = mutationTotal m + count /\ forwardedTotal m' <= requestsTotal limits /\
  mutationTotal m' <= mutationsTotal limits /\ minuteCount m' <= requestsPerMinute limits /\ minuteWindow m' = iso_minute now.
Proof.
  unfold charge_meter. intros Hc. minv Hc. unfold within_budget in *. breflect.
  cbn [mt_open forwardedTotal mutationTotal minuteCount minuteWindow]. split_and!; first [done | lia].
Qed.

Lemma close_meter_Ok record m m' :
  close_meter record m = Ok (Some m') ->
  mt_open m' = false /\ forwardedTotal m' = forwardedTotal m /\ mutationTotal m' = mutationTotal m /\ minuteCount m' = minuteCount m.
Proof. unfold close_meter. destruct (_ && _); cbn; [|done]. destruct (mt_open m); [|done]. by intros [= <-]. Qed.

Lemma call_mutation_Ok i n m m' :
  call_mutation i n m = Ok m' ->
  forwardedTotal m' = forwardedTotal m + requests_of i /\ mutationTotal m' = mutationTotal m + mutations_of i /\
  (mt_open m' = true -> mt_open m = true) /\ (mt_open m = false -> requests_of i = 0) /\
  (meter_within m -> calls_ok -> meter_within m').
Proof.
  unfold call_mutation, requests_of, mutations_of, calls_ok. destruct (calls !! i) as [[s k clock|r]|] eqn:Hi; [| |done]; cbn.
  - destruct (charge_meter limits s k (clock n) m) eqn:Hc; [|done]. intros [= ->].
    apply charge_meter_Ok in Hc as (Ho & _ & Hf & Hm & Hf1 & Hm1 & Hk & _). split_and!; [done|done|done|congruence|].
    intros [W1 W2 W3] Hok. apply Hok in Hi. split; lia.
  - destruct (close_meter r m) as [[m1|]|] eqn:Hc; [|done..]. intros [= ->].
    apply close_meter_Ok in Hc as (Ho & Hf & Hm & Hk). split_and!; [lia|lia|congruence|done|].
    intros [W1 W2 W3] _. split; lia.
Qed.

(** The totals are what the committed calls add up to. *)
Lemma replayed_totals (log : list (nat * SessionMeter)) m m' :
  replays call_mutation m log m' ->
  forwardedTotal m' = forwardedTotal m + sumZ (requests_of <$> log.*1) /\
  mutationTotal m' = mutationTotal m + sumZ (mutations_of <$> log.*1).
Proof.
  revert m. induction log as [|[i w] log IH]; intros m; cbn; [intros ->; lia|].
  intros [[n Hi] Hl]. apply call_mutation_Ok in Hi as (H1 & H2 & _). apply IH in Hl as [H3 H4]. lia.
Qed.

(** Distinct members of a list add up to at most the whole. *)
Lemma sumZ_members (f : nat -> Z) (part whole : list nat) :
  (forall i, 0 <= f i) -> NoDup part -> (forall i, i ∈ part -> i ∈ whole) -> sumZ (f <$> part) <= sumZ (f <$> whole).
Proof.
  intros Hf Hnd Hin. destruct (submseteq_Permutation _ _ (NoDup_submseteq part whole Hnd Hin)) as [rest Hp].
  assert (sumZ (f <$> whole) = sumZ (f <$> part ++ rest)) as ->.
  { clear -Hp. induction Hp; csimpl; [done|lia|lia|congruence]. }
  rewrite fmap_app, sumZ_app. assert (0 <= sumZ (f <$> rest)); [|lia].
  apply sumZ_nonneg, Forall_fmap, Forall_forall. intros. apply Hf.
Qed.

(** Once a meter is closed no charge commits. *)
Lemma closed_log s0 (x y : msystem) :
  rtc mstep x y -> system_ok absent_meter call_mutation s0 x -> mt_open (value (sys_store x)) = false ->
  mt_open (value (sys_store y)) = false /\
  forall i m, In (i, m) (sys_log y) -> requests_of i = 1 -> In (i, m) (sys_log x).
Proof.
  intros Hr. induction Hr as [x|x z y Hxz Hzy IH]; intros Hok Hcl; [done|].
  pose proof (step_ok _ _ _ _ _ Hxz Hok) as Hok'.
  destruct (step_log _ _ _ _ _ Hxz Hok) as [[Hv Hl]|(i & n & Hi & Hl)].
  - rewrite Hv, Hl in IH. by apply IH.
  - apply call_mutation_Ok in Hi as (_ & _ & Hopen & Hno & _). rewrite Hl in IH.
    destruct IH as [IH1 IH2]; [done|by destruct (mt_open (value (sys_store z))); [rewrite Hopen in Hcl|]|].
    split; [done|]. intros j m Hj Hr1. destruct (in_app_or _ _ _ (IH2 j m Hj Hr1)) as [?|[[= <- _]|[]]]; [done|].
    rewrite Hno in Hr1; done.
Qed.

(** The budgets of a session bound what is really let through: when any
    number of [charge] and [closeMeter] calls race on one meter, the requests
    (and the mutations they carry) that were answered as charged never exceed
    what the limits left at the start, the meter's minute count stays within
    its limit, and once the meter is closed no further request is let
    through. *)
Theorem meter_budgets_hold (s : SM) (x : msystem) (answered : list nat) :
  calls_ok -> meter_within (value s) -> rtc mstep (started s (replicate (length calls) ATTEMPTS)) x ->
  NoDup answered -> (forall i, i ∈ answered -> exists m, sys_callers x !! i = Some (Done (Ok m))) ->
  sumZ (requests_of <$> answered) <= requestsTotal limits - forwardedTotal (value s) /\
  sumZ (mutations_of <$> answered) <= mutationsTotal limits - mutationTotal (value s) /\
  minuteCount (value (sys_store x)) <= requestsPerMinute limits /\
  (mt_open (value (sys_store x)) = false ->
   forall y i m, rtc mstep x y -> sys_callers y !! i = Some (Done (Ok m)) -> requests_of i = 1 -> In (i, m) (sys_log x)).
Proof.
  intros Hcalls Hw Hx Hnd Hans. pose proof (system_reachable_ok _ _ _ _ _ Hx) as Hok.
  assert (meter_within (value (sys_store x))) as [W1 W2 W3].
  { eapply reachable_invariant; [|exact Hw|exact Hx]. intros i n v v' Hi Hv. by eapply call_mutation_Ok. }
  pose proof Hok as (Hrep & _ & _ & _ & Hcal). destruct (replayed_totals _ _ _ Hrep) as [T1 T2].
  assert (forall i, i ∈ answered -> i ∈ (sys_log x).*1) as Hsub.
  { intros i [m Hi%Hcal]%Hans. apply list_elem_of_fmap. exists (i, m). by rewrite list_elem_of_In. }
  assert (forall i, 0 <= requests_of i) as P1 by (intros i; unfold requests_of; by repeat case_match).
  assert (forall i, 0 <= mutations_of i) as P2 by (intros i; unfold mutations_of; repeat case_match; try done; eauto).
  pose proof (sumZ_members _ _ _ P1 Hnd Hsub). pose proof (sumZ_members _ _ _ P2 Hnd Hsub).
  split_and!; [lia|lia|done|]. intros Hcl y i m Hy Hi Hreq.
  assert (system_ok absent_meter call_mutation s y) as (_ & _ & _ & _ & Hcy)
    by (eapply system_reachable_ok; etrans; [exact Hx|exact Hy]).
  destruct (closed_log _ _ _ Hy Hok Hcl) as [_ Hlog]. apply Hlog; [|done]. exact (Hcy _ _ Hi).
Qed.
End budgets.

(** Witness: two requests race for the last one of the budget. *)
Definition ex_session : SessionRecord :=
  new_session DEFAULT_LIMITS (MkReserve "0123456789abcdef0123456789abcdef" "visitor" "ip" wallet "provider") 1771027200000.
Definition ex_snapshot : SessionRecord :=
  Session (sr_id ex_session) (Some 1) "visitor" "ip" wallet "provider" ready 1771027200000 1771027290000 1771028100000
    1771114500000 1771027200000 None None None None (Some "runtime") None None 0 0 "2026-02-14T00:00" 0 None.
Definition ex_meter (n : Z) : SessionMeter :=
  Meter 1 (sr_id ex_session) "visitor" wallet "provider" "runtime" 1771028100000 true n 0 "2026-02-14T00:01" n.
Definition ex_charge : meter_call := MCharge ex_snapshot 0 (fun _ => 1771027270000).

Example meter_budgets_witness :
  exists x : system (S:=document SessionMeter), sys_callers x = [Done (Ok (ex_meter 240)); Done (Err (Thrown (Refused budget)))] /\
    sumZ (requests_of [ex_charge; ex_charge] <$> [0%nat]) <= requestsTotal DEFAULT_LIMITS - 239.
Proof.
  assert (rtc (step absent_meter (call_mutation DEFAULT_LIMITS [ex_charge; ex_charge]))
    (started (S:=document SessionMeter) (E:=meter_stop) (Document [ex_meter 239]) (replicate 2 ATTEMPTS))
    (System (Document [ex_meter 239; ex_meter 240])
       [Done (Ok (ex_meter 240)); Done (Err (Thrown (Refused budget)))] [(0%nat, ex_meter 240)])) as Hr.
  { eapply rtc_l; [apply (step_read _ _ _ _ _ 0 11); reflexivity|].
    eapply rtc_l; [apply (step_read _ _ _ _ _ 1 11); reflexivity|].
    eapply rtc_l; [eapply (step_saved _ _ _ _ _ 0 11 _ (ex_meter 240)); [reflexivity|vm_compute; reflexivity|reflexivity]|].
    eapply rtc_l; [eapply (step_retry _ _ _ _ _ 1 11 _ (ex_meter 240)); [reflexivity|vm_compute; reflexivity|reflexivity]|].
    eapply rtc_l; [apply (step_read _ _ _ _ _ 1 10); reflexivity|].
    eapply rtc_l; [eapply (step_thrown _ _ _ _ _ 1 10 _ (Refused budget)); [reflexivity|vm_compute; reflexivity]|]. reflexivity. }
  exists (System (Document [ex_meter 239; ex_meter 240])
    [Done (Ok (ex_meter 240)); Done (Err (Thrown (Refused budget)))] [(0%nat, ex_meter 240)]).
  split; [|refine (proj1 (meter_budgets_hold DEFAULT_LIMITS [ex_charge; ex_charge] _ _ [0%nat] _ _ Hr _ _))].
  - reflexivity.
  - intros i s k c. destruct i as [|[|]]; [intros [= <- <- <-]; done..|done].
  - split; vm_compute; repeat split; discriminate.
  - apply NoDup_singleton.
  - intros i ->%list_elem_of_singleton. by exists (ex_meter 240).
Defined.

(** ** Transactions of the session ledger *)

Inductive ledger_request :=
  | LReserve (input : ReserveInput)
  | LUpdate (id : string) (mutate : SessionRecord -> Z -> lres SessionRecord)
  | LUpdateFenced (id : string) (allowed : list StoredSessionStatus) (requireLatest : bool)
      (mutate : SessionRecord -> Z -> lres SessionRecord)
  | LCharge (id visitorHash : string) (kind : SandboxKind) (mutationCount : Z).

Record creation := Created { cr_date : string; cr_visitor : string; cr_ip : string }.

Section history.
Context (limits : Limits).

(** A request as the transaction that carries it out: the ledger written, and
    the session created, if one was. *)
Definition request_step (req : ledger_request) (now : Z) (l : SessionLedger) : lres (list creation * SessionLedger) :=
  match req with
  | LReserve input =>
      '((record, created), l') ← transaction_step (reserve_operation limits input) now l;
      Ok (if (created : bool) then [Created (iso_day now) (in_visitorHash input) (in_ipHash input)] else [], l')
  | LUpdate id mutate => '(_, l') ← transaction_step (update_operation id mutate) now l; Ok ([], l')
  | LUpdateFenced id allowed requireLatest mutate =>
      '(_, l') ← transaction_step (updateFenced_operation id allowed requireLatest mutate) now l; Ok ([], l')
  | LCharge id visitorHash kind count =>
      '(_, l') ← transaction_step (charge_operation limits id visitorHash kind count) now l; Ok ([], l')
  end.

(** A history of committed transactions: the ledger it leads to and the
    sessions it created. *)
Fixpoint run_history (l : SessionLedger) (history : list (Z * ledger_request)) : lres (list creation * SessionLedger) :=
  match history with
  | [] => Ok ([], l)
  | (now, req) :: rest =>
      '(created, l1) ← request_step req now l;
      '(more, l2) ← run_history l1 rest;
      Ok (created ++ more, l2)
  end.

Definition count_if (f : creation -> bool) (l : list creation) : Z := Z.of_nat (length (List.filter f l)).
Definition on_date (date : string) (c : creation) : bool := bool_decide (cr_date c = date).
Definition by_visitor (date v : string) (c : creation) : bool := on_date date c && bool_decide (cr_visitor c = v).
Definition by_ip (date v : string) (c : creation) : bool := on_date date c && bool_decide (cr_ip c = v).

Lemma count_if_app f l k : count_if f (l ++ k) = count_if f l + count_if f k.
Proof. unfold count_if. rewrite List.filter_app, length_app. lia. Qed.
Lemma count_if_one f c : count_if f [c] = if f c then 1 else 0.
Proof. unfold count_if. simpl. by destruct (f c). Qed.

(** *** What a transaction keeps *)

Lemma om_get_filter {V} keep (m : list (string * V)) k v :
  om_get m k = Some v -> keep k v = true -> om_get (om_filter keep m) k = Some v.
Proof.
  unfold om_filter. induction m as [|[k' v'] m IH]; simpl; [done|]. intros Hg Hk. case_bool_decide as Hc.
  - injection Hg as ->. subst. rewrite Hk. simpl. by rewrite bool_decide_true.
  - destruct (keep k' v'); simpl; [rewrite bool_decide_false by done|]; auto.
Qed.

Lemma om_get_filter_key {V} keep (m : list (string * V)) k :
  (forall v, keep k v = true) -> om_get (om_filter keep m) k = om_get m k.
Proof.
  intros Hk. unfold om_filter. induction m as [|[k' v'] m IH]; simpl; [done|]. case_bool_decide as Hc.
  - subst. rewrite Hk. simpl. by rewrite bool_decide_true.
  - destruct (keep k' v'); simpl; [rewrite bool_decide_false by done|]; auto.
Qed.

Lemma om_get_map {V W} (f : V -> W) (m : list (string * V)) k :
  om_get ((fun '(k, v) => (k, f v)) <$> m) k = f <$> om_get m k.
Proof. induction m as [|[k' v'] m IH]; simpl; [done|]. by case_bool_decide. Qed.

Lemma normalize_daily now l l1 date :
  normalizeLedger now l = Ok l1 -> js_lt date (iso_day (now - TWO_DAYS)) = false ->
  om_get (sl_daily l1) date = om_get (sl_daily l) date.
Proof. unfold normalizeLedger. intros Hn Hd. minv Hn. cbn [sl_daily]. apply om_get_filter_key. intros v. by rewrite Hd. Qed.

(** A transaction that is not a reservation does not touch the quotas. *)
Definition keeps_daily {T} (op : ledger_operation T) : Prop :=
  forall l now x l', op l now = Ok (x, l') -> sl_daily l' = sl_daily l.

Lemma update_keeps_daily id f : keeps_daily (update_operation id f).
Proof. intros l now x l'. unfold update_operation. case_match; [|done]. by intros (r & _ & [= <- <-])%bind_Ok_inv. Qed.
Lemma updateFenced_keeps_daily id al rl f : keeps_daily (updateFenced_operation id al rl f).
Proof.
  intros l now x l'. unfold updateFenced_operation. case_match; [|done]. case_match; [by intros [= <- <-]|].
  by intros (r & _ & [= <- <-])%bind_Ok_inv.
Qed.
Lemma charge_keeps_daily id v k n : keeps_daily (charge_operation limits id v k n).
Proof.
  intros l now x l'. unfold charge_operation. case_match; [|done].
  intros (_ & _ & (_ & _ & (_ & _ & [= <- <-])%bind_Ok_inv)%bind_Ok_inv)%bind_Ok_inv. done.
Qed.

Definition counter_of (l : SessionLedger) (date : string) : DailyCounter := default (Daily 0 [] []) (om_get (sl_daily l) date).

(** What a reservation that succeeds found and did. *)
Lemma reserve_operation_Ok input l now r created l' :
  reserve_operation limits input l now = Ok (r, created, l') ->
  let key := session_key (in_visitorHash input) (in_kind input) in
  let held := latest_session l key in
  let counter := counter_of l (iso_day now) in
  if created then
    (forall x, held = Some x -> holdsCapacity x now = false) /\ r = new_session limits input now /\
    holders l now < lim_active limits /\
    (forall t, om_get (visitorLastCreatedAt l) (in_visitorHash input) = Some t -> t + creationCooldownMs limits <= now) /\
    dc_global counter < dailyGlobal limits /\
    tally (dc_visitors counter) (in_visitorHash input) < dailyVisitor limits /\
    tally (dc_ips counter) (in_ipHash input) < dailyIp limits /\
    sl_schemaVersion l' = sl_schemaVersion l /\ sessions l' = om_set (sessions l) (sr_id r) r /\ latest l' = om_set (latest l) key (sr_id r) /\
    sl_daily l' = om_set (sl_daily l) (iso_day now)
      (Daily (dc_global counter + 1) (tally_bump (dc_visitors counter) (in_visitorHash input))
         (tally_bump (dc_ips counter) (in_ipHash input)))
  else l' = l /\ held = Some r /\ holdsCapacity r now = true.
Proof.
  unfold reserve_operation. fold (counter_of l (iso_day now)). cbv zeta.
  set (creating := _ ≫= _). intros Hr.
  assert (latest_session l (session_key (in_visitorHash input) (in_kind input)) = Some r /\ holdsCapacity r now = true /\
          created = false /\ l' = l \/ creating = Ok (r, created, l') /\
          forall x, latest_session l (session_key (in_visitorHash input) (in_kind input)) = Some x -> holdsCapacity x now = false)
    as [(-> & Hh & -> & ->)|[Ha Hno]]; [| |clear Hr].
  - destruct (latest_session _ _) as [x|]; [|by right].
    destruct (holdsCapacity x now) eqn:Hx; [left; by injection Hr as <- <- <-|right; split; [done|by intros ? [= <-]]].
  - done.
  - unfold creating in Ha. apply bind_Ok_inv in Ha as (? & Hc%require_Ok_inv & Ha).
    apply bind_Ok_inv in Ha as (? & Hh%require_Ok_inv & Ha). apply bind_Ok_inv in Ha as (? & Hg%require_Ok_inv & Ha).
    apply bind_Ok_inv in Ha as (? & Hv%require_Ok_inv & Ha). apply bind_Ok_inv in Ha as (? & Hi%require_Ok_inv & [= <- <- <-]).
    breflect. split_and!; try done. intros t Ht. rewrite Ht in Hc. breflect. lia.
Qed.

Lemma tally_bump_eq m k j : tally (tally_bump m k) j = tally m j + if bool_decide (k = j) then 1 else 0.
Proof.
  unfold tally_bump, tally at 1. case_bool_decide as Hk; [subst; rewrite om_get_set_eq; done|].
  rewrite om_get_set_ne by done. unfold tally. lia.
Qed.

Record limits_ok : Prop := {
  lim_global : 0 <= dailyGlobal limits; lim_visitor : 0 <= dailyVisitor limits; lim_ip : 0 <= dailyIp limits;
}.

Definition counts_match (counter : DailyCounter) (date : string) (created : list creation) : Prop :=
  dc_global counter = count_if (on_date date) created /\
  forall v, tally (dc_visitors counter) v = count_if (by_visitor date v) created /\
            tally (dc_ips counter) v = count_if (by_ip date v) created.

Definition counts_within (created : list creation) : Prop :=
  forall date v, count_if (on_date date) created <= dailyGlobal limits /\
    count_if (by_visitor date v) created <= dailyVisitor limits /\ count_if (by_ip date v) created <= dailyIp limits.

(** At time [t]: the days still kept are counted exactly, and every day is
    within its quotas. *)
Definition quotas_ok (t : Z) (created : list creation) (l : SessionLedger) : Prop :=
  (forall date, js_lt date (iso_day (t - TWO_DAYS)) = false -> counts_match (counter_of l date) date created) /\
  counts_within created.

Definition clock_ok (t : Z) : Prop := TWO_DAYS <= t /\ in_era t.

Lemma cutoff_later t now date :
  clock_ok t -> clock_ok now -> t <= now -> js_lt date (iso_day (now - TWO_DAYS)) = false ->
  js_lt date (iso_day (t - TWO_DAYS)) = false.
Proof.
  unfold clock_ok, in_era, TWO_DAYS. intros [H1 H2] [H3 H4] Hle Hd. apply not_true_iff_false. intros Ht.
  destruct (js_lt (iso_day (t - 172800000)) (iso_day (now - 172800000))) eqn:Hlt.
  - unfold js_lt in *. pose proof (lex_lt_trans _ _ _ Ht Hlt). congruence.
  - assert (js_lt (iso_day (now - 172800000)) (iso_day (t - 172800000)) = false) as Hge.
    { rewrite iso_day_lt by (unfold in_era; lia). apply Z.ltb_ge. apply Z.div_le_mono; unfold msPerDay; lia. }
    unfold js_lt in *. pose proof (lex_lt_total _ _ Hlt Hge) as He. congruence.
Qed.

Lemma today_kept now : clock_ok now -> js_lt (iso_day now) (iso_day (now - TWO_DAYS)) = false.
Proof.
  unfold clock_ok, in_era, TWO_DAYS. intros [H1 H2]. rewrite iso_day_lt by (unfold in_era; lia).
  apply Z.ltb_ge. apply Z.div_le_mono; unfold msPerDay; lia.
Qed.

Lemma transaction_step_Ok {T} (op : ledger_operation T) now l x l' :
  transaction_step op now l = Ok (x, l') ->
  exists l1 l2, normalizeLedger now l = Ok l1 /\ op l1 now = Ok (x, l2) /\ l' = next_revision l2.
Proof.
  unfold transaction_step. intros (l1 & Hn & H)%bind_Ok_inv. apply bind_Ok_inv in H as ([y l2] & Ho & [= <- <-]). eauto.
Qed.

(** What a request does to the daily counters, after normalisation. *)
Lemma request_step_daily req now l created l' :
  request_step req now l = Ok (created, l') ->
  exists l1, normalizeLedger now l = Ok l1 /\
    (created = [] /\ sl_daily l' = sl_daily l1 \/
     exists v ip, let counter := counter_of l1 (iso_day now) in
       created = [Created (iso_day now) v ip] /\ dc_global counter < dailyGlobal limits /\
       tally (dc_visitors counter) v < dailyVisitor limits /\ tally (dc_ips counter) ip < dailyIp limits /\
       sl_daily l' = om_set (sl_daily l1) (iso_day now)
         (Daily (dc_global counter + 1) (tally_bump (dc_visitors counter) v) (tally_bump (dc_ips counter) ip))).
Proof.
  assert (forall T (op : ledger_operation T), keeps_daily op -> forall (x : T) l'', transaction_step op now l = Ok (x, l'') ->
    exists l1, normalizeLedger now l = Ok l1 /\ sl_daily l'' = sl_daily l1) as Hkeep.
  { intros T op Hop x l'' (l1 & l2 & Hn & Ho & ->)%transaction_step_Ok. exists l1. split; [done|]. exact (Hop _ _ _ _ Ho). }
  destruct req as [input|id f|id al rl f|id v k n]; cbn [request_step]; intros Hreq.
  2-4: apply bind_Ok_inv in Hreq as ([x l''] & Hs & [= <- <-]); apply Hkeep in Hs as (l1 & Hn & Hd);
       eauto using update_keeps_daily, updateFenced_keeps_daily, charge_keeps_daily.
  apply bind_Ok_inv in Hreq as ([[r b] l''] & Hs & [= <- <-]). apply transaction_step_Ok in Hs as (l1 & l2 & Hn & Ho & ->).
  exists l1. split; [done|]. apply reserve_operation_Ok in Ho. cbv zeta in Ho. destruct b.
  - right. exists (in_visitorHash input), (in_ipHash input). destruct Ho as (_ & _ & _ & _ & Hg & Hv & Hi & _ & _ & _ & Hd). done.
  - left. destruct Ho as (-> & _). done.
Qed.

Lemma counter_of_set l date counter d :
  default (Daily 0 [] []) (om_get (om_set (sl_daily l) date counter) d) =
  if bool_decide (date = d) then counter else counter_of l d.
Proof. case_bool_decide as Hd; [subst; by rewrite om_get_set_eq|by rewrite om_get_set_ne]. Qed.

Lemma count_if_snoc_date l d v ip date :
  count_if (on_date date) (l ++ [Created d v ip]) = count_if (on_date date) l + if bool_decide (d = date) then 1 else 0.
Proof. by rewrite count_if_app, count_if_one. Qed.
Lemma count_if_snoc_visitor l d v ip date w :
  count_if (by_visitor date w) (l ++ [Created d v ip]) =
  count_if (by_visitor date w) l + if bool_decide (d = date) && bool_decide (v = w) then 1 else 0.
Proof. by rewrite count_if_app, count_if_one. Qed.
Lemma count_if_snoc_ip l d v ip date w :
  count_if (by_ip date w) (l ++ [Created d v ip]) =
  count_if (by_ip date w) l + if bool_decide (d = date) && bool_decide (ip = w) then 1 else 0.
Proof. by rewrite count_if_app, count_if_one. Qed.

Lemma quotas_step t now req l created more l' :
  quotas_ok t created l -> clock_ok t -> clock_ok now -> t <= now -> request_step req now l = Ok (more, l') ->
  quotas_ok now (created ++ more) l'.
Proof.
  intros [Hm Hw] Ht Hnow Hle (l1 & Hn & Hs)%request_step_daily.
  assert (forall date, js_lt date (iso_day (now - TWO_DAYS)) = false -> counts_match (counter_of l1 date) date created) as Hm1.
  { intros date Hd. unfold counter_of. rewrite (normalize_daily _ _ _ _ Hn Hd). apply Hm. by eapply cutoff_later. }
  destruct Hs as [[-> Hd]|(v & ip & -> & Hg & Hv & Hi & Hd)].
  - rewrite app_nil_r. split; [|done]. intros date Hdate. unfold counter_of. rewrite Hd. by apply Hm1.
  - destruct (Hm1 _ (today_kept now Hnow)) as [Mg Mv]. split.
    + intros date Hdate. unfold counter_of, counts_match. rewrite Hd, counter_of_set, count_if_snoc_date.
      destruct (Hm1 date Hdate) as [Ng Nv]. case_bool_decide as Hday; [subst date|]; cbn [dc_global dc_visitors dc_ips]; (split; [lia|]).
      all: intros w; rewrite count_if_snoc_visitor, count_if_snoc_ip; destruct (Nv w) as [Nv1 Nv2].
      * rewrite !(bool_decide_true (iso_day now = iso_day now)) by done. rewrite !tally_bump_eq, Nv1, Nv2. done.
      * rewrite !(bool_decide_false (iso_day now = date)) by done. cbn [andb]. lia.
    + intros date w. destruct (Hw date w) as (W1 & W2 & W3).
      rewrite count_if_snoc_date, count_if_snoc_visitor, count_if_snoc_ip.
      destruct (Mv v) as [Mv1 _]. destruct (Mv ip) as [_ Mi].
      repeat case_bool_decide; subst; cbn [andb]; lia.
Qed.

(** The daily quotas bound what is really created: over any history of
    transactions committed to the session ledger with clocks that do not run
    backwards (reservations, updates, fenced updates and charges, in any
    order), on no day are more sessions created in all, for one visitor or
    from one address than the limits allow, although the ledger forgets the
    counters of past days. *)
Theorem session_quotas_hold history created l' :
  limits_ok -> Forall clock_ok history.*1 -> Sorted Z.le history.*1 ->
  run_history emptySessionLedger history = Ok (created, l') ->
  forall date visitor ip,
    count_if (on_date date) created <= dailyGlobal limits /\
    count_if (by_visitor date visitor) created <= dailyVisitor limits /\
    count_if (by_ip date ip) created <= dailyIp limits.
Proof.
  intros [L1 L2 L3] Hclocks Hsorted Hrun.
  enough (counts_within created) as Hw by (intros date v ip; split_and!; by apply Hw).
  assert (forall t l past, quotas_ok t past l -> clock_ok t -> Forall (fun now => t <= now) history.*1 -> forall created l',
    run_history l history = Ok (created, l') -> counts_within (past ++ created)) as Hgen.
  { clear created l' Hrun. revert Hclocks Hsorted. induction history as [|[now req] rest IH]; csimpl.
    - intros _ _ t l past [_ Hw] _ _ created l' [= <- <-]. by rewrite app_nil_r.
    - intros [Hc Hcs]%Forall_cons Hs t l past Hq Ht [Hle _]%Forall_cons created l' Hr.
      apply Sorted_StronglySorted, StronglySorted_inv in Hs as [Hs Hall]; [|intros ???; lia].
      apply bind_Ok_inv in Hr as ([c1 l1] & H1 & Hr). apply bind_Ok_inv in Hr as ([c2 l2] & H2 & [= <- <-]).
      rewrite app_assoc. eapply (IH Hcs (StronglySorted_Sorted Hs) now l1); [|done|done|exact H2].
      by eapply quotas_step. }
  destruct history as [|[now req] rest]; [injection Hrun as <- <-; intros date v; unfold count_if; simpl; lia|].
  apply (Hgen now emptySessionLedger [] ) in Hrun; [done| |by apply Forall_cons in Hclocks as [? _]|].
  - split; [|intros date v; unfold count_if; simpl; lia]. intros date _. done.
  - csimpl in *. apply Forall_cons. split; [lia|].
    apply Sorted_StronglySorted, StronglySorted_inv in Hsorted as [_ ?]; [done|intros ???; lia].
Qed.

(** *** One session at a time *)

Lemma normalize_Ok now l l1 :
  normalizeLedger now l = Ok l1 ->
  sl_schemaVersion l1 = 1 /\ sl_schemaVersion l = 1 /\
  sessions l1 = om_filter (fun _ r => isFuture (sr_tombstoneUntil r) now || holdsCapacity r now)
                  ((fun '(k, r) => (k, expire_session now r)) <$> sessions l) /\
  latest l1 = om_filter (fun _ id => om_has (sessions l1) id) (latest l).
Proof. unfold normalizeLedger. intros (? & Hv%require_Ok_inv & [= <-])%bind_Ok_inv. breflect. done. Qed.

Lemma normalize_total now l : sl_schemaVersion l = 1 -> exists l1, normalizeLedger now l = Ok l1.
Proof. intros H. unfold normalizeLedger. rewrite H. by eexists. Qed.

(** A session that is alive and not overdue is kept as it is. *)
Lemma normalize_keeps now l l1 id r :
  normalizeLedger now l = Ok l1 -> om_get (sessions l) id = Some r -> expire_session now r = r ->
  holdsCapacity r now = true -> om_get (sessions l1) id = Some r.
Proof.
  intros (_ & _ & Hs & _)%normalize_Ok Hr He Hh. rewrite Hs. apply om_get_filter; [|by rewrite Hh, orb_true_r].
  rewrite om_get_map, Hr. cbn. by rewrite He.
Qed.

Lemma normalize_keeps_latest now l l1 key id r :
  normalizeLedger now l = Ok l1 -> om_get (latest l) key = Some id -> om_get (sessions l1) id = Some r ->
  om_get (latest l1) key = Some id.
Proof.
  intros (_ & _ & _ & Hl)%normalize_Ok Hid Hr. rewrite Hl. apply om_get_filter; [done|]. unfold om_has. by rewrite Hr.
Qed.

Lemma holders_set (m : list (string * SessionRecord)) id r now :
  Z.of_nat (length (List.filter (fun '(_, entry) => holdsCapacity entry now) (om_set m id r))) <=
  Z.of_nat (length (List.filter (fun '(_, entry) => holdsCapacity entry now) m)) + 1.
Proof.
  induction m as [|[k x] m IH]; simpl; [destruct (holdsCapacity r now); simpl; lia|].
  case_bool_decide; simpl; [destruct (holdsCapacity r now), (holdsCapacity x now); simpl; lia|].
  destruct (holdsCapacity x now); simpl; lia.
Qed.

(** Admission of sessions: a reservation that creates a session found a
    free place, the cool-down over and all three daily quotas open, leaves at
    most [active] sessions holding capacity, and until the provisioning
    deadline every further reservation of the same visitor and kind answers
    with the very same session, creating and counting nothing. *)
Theorem one_session_at_a_time input again now later l r l' :
  transaction_step (reserve_operation limits input) now l = Ok (r, true, l') ->
  nonempty (in_id input) = true -> in_visitorHash again = in_visitorHash input -> in_kind again = in_kind input ->
  now <= later -> later < now + provisioningMs limits -> later < now + lifetimeMs limits ->
  holders l' now <= lim_active limits /\
  (exists l1, normalizeLedger now l = Ok l1 /\ holders l1 now < lim_active limits /\
     (forall t, om_get (visitorLastCreatedAt l1) (in_visitorHash input) = Some t -> t + creationCooldownMs limits <= now)) /\
  exists l2, normalizeLedger later l' = Ok l2 /\
    transaction_step (reserve_operation limits again) later l' = Ok (r, false, next_revision l2).
Proof.
  intros (l1 & l1' & Hn & Hr & ->)%transaction_step_Ok Hid Hvis Hkind Hle Hprov Hlife.
  apply reserve_operation_Ok in Hr as (_ & Hrec & Hcap & Hcool & _ & _ & _ & Hv & Hs & Hl & _).
  apply normalize_Ok in Hn as Hn'. destruct Hn' as (Hv1 & _).
  split; [unfold holders in *; cbn [sessions next_revision]; rewrite Hs; pose proof (holders_set (sessions l1) (sr_id r) r now); lia|].
  split; [by exists l1|].
  destruct (normalize_total later (next_revision l1')) as [l2 H2]; [cbn; congruence|]. exists l2. split_and!; [done..|].
  assert (expire_session later r = r /\ holdsCapacity r later = true /\ sr_id r = in_id input) as (He & Hh & Hi).
  { rewrite Hrec. unfold expire_session, holdsCapacity, isFuture. cbn.
    rewrite !(proj2 (Z.ltb_lt later _)) by lia. done. }
  assert (om_get (sessions l2) (sr_id r) = Some r) as Hget.
  { eapply normalize_keeps; [done| |done|done]. cbn. rewrite Hs. apply om_get_set_eq. }
  assert (latest_session l2 (session_key (in_visitorHash again) (in_kind again)) = Some r) as Hlat.
  { unfold latest_session. rewrite Hvis, Hkind.
    rewrite (normalize_keeps_latest _ _ _ (session_key (in_visitorHash input) (in_kind input)) (sr_id r) r H2); [|cbn; rewrite Hl; apply om_get_set_eq|done].
    by rewrite Hi, Hid, <- Hi. }
  unfold transaction_step. rewrite H2. cbn. unfold reserve_operation. rewrite Hlat, Hh. done.
Qed.
End history.

(** Witnesses: two visitors behind one address, on two sides of midnight. *)
Definition ex_input (id visitor : string) : ReserveInput := MkReserve id visitor "ip" wallet "provider".
Definition ex_history : list (Z * ledger_request) :=
  [(1771027100000, LReserve (ex_input "0" "ann")); (1771027110000, LReserve (ex_input "1" "bob"));
   (1771027120000, LReserve (ex_input "2" "ann"));
   (1771027200000, LUpdate "0" (fun r _ => Ok (with_status ready None r))); (1771028400000, LReserve (ex_input "3" "ann"))].

Example session_quotas_witness :
  exists created l', run_history DEFAULT_LIMITS emptySessionLedger ex_history = Ok (created, l') /\
    count_if (on_date "2026-02-13") created = 2 /\ count_if (by_visitor "2026-02-14" "ann") created = 1 /\
    count_if (by_ip "2026-02-13" "ip") created <= dailyIp DEFAULT_LIMITS.
Proof.
  assert (exists created l', run_history DEFAULT_LIMITS emptySessionLedger ex_history = Ok (created, l') /\
    count_if (on_date "2026-02-13") created = 2 /\ count_if (by_visitor "2026-02-14" "ann") created = 1)
    as (created & l' & Hr & H1 & H2) by (eexists _, _; split; [vm_compute; reflexivity|split; vm_compute; reflexivity]).
  exists created, l'. split; [exact Hr|]. split; [exact H1|]. split; [exact H2|].
  refine (proj2 (proj2 (session_quotas_hold DEFAULT_LIMITS ex_history created l' _ _ _ Hr _ "ann" _))).
  - by split.
  - unfold ex_history, clock_ok, in_era, TWO_DAYS. csimpl. repeat constructor; lia.
  - unfold ex_history. csimpl. repeat constructor; lia.
Defined.

Example one_session_witness :
  exists r l' l2, transaction_step (reserve_operation DEFAULT_LIMITS (ex_input "0" "ann")) 1771027100000 emptySessionLedger
    = Ok (r, true, l') /\
    transaction_step (reserve_operation DEFAULT_LIMITS (ex_input "1" "ann")) 1771027180000 l' = Ok (r, false, l2).
Proof.
  assert (exists r l', transaction_step (reserve_operation DEFAULT_LIMITS (ex_input "0" "ann")) 1771027100000 emptySessionLedger
    = Ok (r, true, l')) as (r & l' & Hr) by (eexists _, _; vm_compute; reflexivity).
  destruct (one_session_at_a_time DEFAULT_LIMITS (ex_input "0" "ann") (ex_input "1" "ann") 1771027100000 1771027180000
              emptySessionLedger r l' Hr) as (_ & _ & l2 & _ & H2); [reflexivity|reflexivity|reflexivity|lia|cbn; lia|cbn; lia|].
  exists r, l', (next_revision l2). split; [exact Hr|exact H2].
Defined.
