(* ===== verification/SessionBroker.v ===== *)
(** * Hosted broker: sessions over a sandbox provider

    [HostedSessionBroker] of [packages/hosted-broker/src/broker.ts]: starting,
    resetting and reconciling a visitor's sandbox, and forwarding the visitor's
    requests to it.  Its methods are trees of events (Programs): the clock, the
    accesses of [SessionLedgerRepository] to the ledger and to the meters, the
    sandbox provider and the requests to a sandbox.  One transaction of the
    ledger, and one retry loop on a meter, is one event: [CasStore] and
    BrokerProps show that concurrent loops take effect one after another, each
    at most once, apart from the very first write of a document (see CasStore).

    Parameters: the HMAC of a session (its provider name and gateway token) and
    the URL parser.  A text that came in a JSON value is stored in a record
    through [stored], which is injective. *)
From S2P Require Import Prelude Js Utf8 Json RpcPolicy IsoTime CasStore Programs BrokerLedger.
Open Scope Z_scope.

(** ** Data *)

(** Two characters for each code unit. *)
Definition stored (s : js_string) : string :=
  unchars (s ≫= fun u => [ascii_of_N (Z.to_N (u / 256)); ascii_of_N (Z.to_N (u mod 256))]).

(** [ProviderView]; the status is one of the provider's texts. *)
Record ProviderView := View { pv_name : string; pv_status : string; pv_expiresAt : option Z; pv_domain : option string }.
Record CreateInput := Create { ci_name : string; ci_kind : SandboxKind; ci_token : string; ci_expiresAt : Z }.

(** A response, with what reading its body gives: the declared length when
    there is a header with a number, the sizes of the chunks that arrive,
    whether the stream then ended, and the parsed text. *)
Record Response := MkResponse {
  rs_status : Z; rs_declared : option Z; rs_hasBody : bool; rs_chunks : list Z; rs_ended : bool; rs_json : option json;
}.
Definition rs_ok (r : Response) : bool := between 200 299 (rs_status r).

(** A request body: its bytes count and what [JSON.parse] makes of it. *)
Record Body := MkBody { bd_length : Z; bd_json : option json }.

(** What a method throws: an [HttpError], a [LedgerFailure], or another error. *)
Inductive failure := HttpFail (status : Z) | LedgerFail (code : LedgerFailureCode) | OtherFail.
Definition ledger_failure (c : LedgerFailureCode) : failure :=
  match c with plain_Error => OtherFail | c => LedgerFail c end.
Definition http_failure (e : HttpError) : failure := match e with Http status => HttpFail status end.

(** The transactions of the ledger the broker makes. *)
Inductive ledger_call :=
  | Reserve (input : ReserveInput)
  | Update (id : string) (mutate : SessionRecord -> Z -> lres SessionRecord)
  | UpdateFenced (id : string) (allowed : list StoredSessionStatus) (requireLatest : bool)
      (mutate : SessionRecord -> Z -> lres SessionRecord)
  | Charge (id visitorHash : string) (kind : SandboxKind) (mutationCount : Z).

(** For whom a request to a sandbox is made. *)
Inductive purpose := Probing | Proxying (id visitorHash : string) (kind : SandboxKind).

Inductive event :=
  | ReadClock
  | NewSessionId
  | Sleep
  | ReadLedger
  | Transact (c : ledger_call)
  | ReadMeter (path : string)
  | CreateMeter (path : string) (meter : SessionMeter)
  | ChargeMeter (path : string) (snapshot : SessionRecord) (mutationCount : Z)
  | CloseMeter (path : string) (record : SessionRecord)
  | ProviderCreate (input : CreateInput)
  | ProviderLaunch (name : string)
  | ProviderGet (name : string)
  | ProviderStop (name : string)
  | Fetch (why : purpose) (record : SessionRecord) (origin method pathname : string) (body : option Body).   (* the URL asked *)

Definition answer (e : event) : Type :=
  match e with
  | ReadClock => Z
  | NewSessionId => string
  | Sleep => unit
  | ReadLedger => result failure (option SessionLedger)
  | Transact _ => result failure (SessionRecord * bool)
  | ReadMeter _ => result failure (option SessionMeter)
  | CreateMeter _ _ => result failure bool
  | ChargeMeter _ _ _ | CloseMeter _ _ => result failure unit
  | ProviderCreate _ | ProviderGet _ => result failure ProviderView
  | ProviderLaunch _ | ProviderStop _ => result failure unit
  | Fetch _ _ _ _ _ _ => result failure Response
  end.

Abbreviation svc := (call event answer failure).
Abbreviation ask e := (trigger_result (answer:=answer) (F:=failure) e (fun r => r)).
Definition nowMs : svc Z := trigger ReadClock.
Definition lift_ledger {A} (r : lres A) : svc A :=
  match r with Ok a => mret a | Err c => raise (ledger_failure c) end.
Definition lift_http {A} (r : hres A) : svc A := match r with Ok a => mret a | Err e => raise (http_failure e) end.
Definition check (b : bool) (e : failure) : svc unit := if b then mret tt else raise e.

(** ** [SessionLedgerRepository] over events *)

Section repository.
Context (meterPrefix : string).

Definition meter_path (id : string) : svc string := lift_ledger (meterPath meterPrefix id).

Definition read_meter (id : string) : svc (option SessionMeter) :=
  path ← meter_path id;
  m ← ask (ReadMeter path);
  match m with
  | None => mret None
  | Some m => check (validMeter m && bool_decide (mt_id m = id)) (LedgerFail busy) ;; mret (Some m)
  end.

(** The meter a record is bound to, open. *)
Definition bound_meter (m : option SessionMeter) (record : SessionRecord) (runtimeId : option string) : bool :=
  match m with Some m => meterBindingMatches m record runtimeId && mt_open m | None => false end.

Definition initialize_meter (record : SessionRecord) (runtimeId : string) : svc unit :=
  check (bool_decide (sr_meterVersion record = Some 1) && bool_decide (sr_status record = starting) && nonempty runtimeId)
    (LedgerFail busy) ;;
  path ← meter_path (sr_id record);
  t ← nowMs;
  created ← ask (CreateMeter path (fresh_meter record runtimeId t));
  if (created : bool) then mret tt
  else
    existing ← read_meter (sr_id record);
    check (bound_meter existing record (Some runtimeId)) (LedgerFail busy).

Definition close_session_meter (record : SessionRecord) : svc unit :=
  match sr_meterVersion record with
  | None => mret tt
  | Some v =>
      check ((v =? 1) && truthy_text (sr_runtimeId record)) (LedgerFail busy) ;;
      path ← meter_path (sr_id record);
      ask (CloseMeter path record)
  end.

(** The stored ledger, normalised, with the instant it was normalised for. *)
Definition normalized : svc (option (SessionLedger * Z)) :=
  stored ← ask ReadLedger;
  match stored with
  | None => mret None
  | Some l => t ← nowMs; ledger ← lift_ledger (normalizeLedger t l); mret (Some (ledger, t))
  end.

Definition current_session (visitorHash : string) (kind : SandboxKind) : svc (option SessionRecord) :=
  ledger ← normalized;
  mret (match ledger with Some (l, _) => latest_session l (session_key visitorHash kind) | None => None end).

Definition session_by_id (id : string) : svc (option SessionRecord) :=
  ledger ← normalized;
  mret (match ledger with Some (l, _) => om_get (sessions l) id | None => None end).

Definition assert_session_meter (record : SessionRecord) : svc unit :=
  match sr_meterVersion record with
  | None => mret tt
  | Some v =>
      if v =? 1 then
        m ← read_meter (sr_id record);
        check (bound_meter m record (sr_runtimeId record)) (LedgerFail busy)
      else raise (LedgerFail busy)
  end.

Definition assert_forwardable (record : SessionRecord) : svc SessionRecord :=
  ledger ← normalized;
  match ledger with
  | None => raise (LedgerFail conflict)
  | Some (l, t) =>
      match om_get (sessions l) (sr_id record) with
      | None => raise (LedgerFail conflict)
      | Some latest_r =>
          check (bool_decide (om_get (latest l) (session_key (sr_visitorHash record) (sr_kind record)) = Some (sr_id record))
                 && bool_decide (sr_visitorHash latest_r = sr_visitorHash record)
                 && bool_decide (sr_kind latest_r = sr_kind record)
                 && bool_decide (sr_providerName latest_r = sr_providerName record)
                 && bool_decide (sr_runtimeId latest_r = sr_runtimeId record)
                 && (sr_expiresAt latest_r =? sr_expiresAt record)
                 && bool_decide (sr_meterVersion latest_r = sr_meterVersion record)
                 && bool_decide (sr_status latest_r = ready) && isFuture (sr_expiresAt latest_r) t) (LedgerFail conflict) ;;
          assert_session_meter latest_r ;;
          mret latest_r
      end
  end.

Definition assert_meter_forwardable (record : SessionRecord) : svc unit :=
  t ← nowMs;
  check (bool_decide (sr_meterVersion record = Some 1) && truthy_text (sr_runtimeId record)
         && isFuture (sr_expiresAt record) t) (LedgerFail conflict) ;;
  m ← read_meter (sr_id record);
  check (bound_meter m record (sr_runtimeId record)) (LedgerFail busy).

Definition forwardable_by_id (id visitorHash : string) (kind : SandboxKind) : svc SessionRecord :=
  ledger ← normalized;
  match ledger with
  | None => raise (LedgerFail conflict)
  | Some (l, t) =>
      match om_get (sessions l) id with
      | None => raise (LedgerFail conflict)
      | Some record =>
          check (bool_decide (sr_visitorHash record = visitorHash) && bool_decide (sr_kind record = kind)
                 && bool_decide (om_get (latest l) (session_key visitorHash kind) = Some id)
                 && bool_decide (sr_status record = ready) && isFuture (sr_expiresAt record) t
                 && truthy_text (sr_runtimeId record)) (LedgerFail conflict) ;;
          assert_session_meter record ;;
          mret record
      end
  end.

Definition update_session (id : string) (mutate : SessionRecord -> Z -> lres SessionRecord) : svc SessionRecord :=
  updated ← ask (Transact (Update id mutate)); mret (fst updated).
Definition update_fenced (id : string) (allowed : list StoredSessionStatus) (requireLatest : bool)
    (mutate : SessionRecord -> Z -> lres SessionRecord) : svc (SessionRecord * bool) :=
  ask (Transact (UpdateFenced id allowed requireLatest mutate)).
Definition reserve_session (input : ReserveInput) : svc (SessionRecord * bool) := ask (Transact (Reserve input)).

Definition charge_session (id visitorHash : string) (kind : SandboxKind) (mutationCount : Z) : svc SessionRecord :=
  check (nonnegativeInteger mutationCount) (LedgerFail budget) ;;
  snapshot ← forwardable_by_id id visitorHash kind;
  match sr_meterVersion snapshot with
  | Some v =>
      if v =? 1 then path ← meter_path id; ask (ChargeMeter path snapshot mutationCount) ;; mret snapshot
      else raise (LedgerFail busy)
  | None => charged ← ask (Transact (Charge id visitorHash kind mutationCount)); mret (fst charged)
  end.
End repository.

(** ** Edits of a record *)

Definition set_provider (status : option string) (expiresAt : option Z) (domain : option string) (r : SessionRecord) : SessionRecord :=
  Session (sr_id r) (sr_meterVersion r) (sr_visitorHash r) (sr_ipHash r) (sr_kind r) (sr_providerName r) (sr_status r)
    (sr_createdAt r) (sr_provisioningDeadline r) (sr_expiresAt r) (sr_tombstoneUntil r) (sr_createAttemptedAt r)
    (sr_launchAttemptedAt r) status expiresAt domain (sr_runtimeId r) (sr_genesisHash r) (sr_deploymentDomainHex r)
    (sr_forwardedTotal r) (sr_mutationTotal r) (sr_minuteWindow r) (sr_minuteCount r) (sr_errorCode r).
Definition set_tombstone (tombstoneUntil : Z) (launchAttemptedAt : option Z) (r : SessionRecord) : SessionRecord :=
  Session (sr_id r) (sr_meterVersion r) (sr_visitorHash r) (sr_ipHash r) (sr_kind r) (sr_providerName r) (sr_status r)
    (sr_createdAt r) (sr_provisioningDeadline r) (sr_expiresAt r) tombstoneUntil (sr_createAttemptedAt r)
    launchAttemptedAt (sr_providerStatus r) (sr_providerExpiresAt r) (sr_providerDomain r) (sr_runtimeId r)
    (sr_genesisHash r) (sr_deploymentDomainHex r) (sr_forwardedTotal r) (sr_mutationTotal r) (sr_minuteWindow r)
    (sr_minuteCount r) (sr_errorCode r).
Definition set_identity (runtimeId genesisHash deploymentDomainHex : option string) (r : SessionRecord) : SessionRecord :=
  Session (sr_id r) (sr_meterVersion r) (sr_visitorHash r) (sr_ipHash r) (sr_kind r) (sr_providerName r) (sr_status r)
    (sr_createdAt r) (sr_provisioningDeadline r) (sr_expiresAt r) (sr_tombstoneUntil r) (sr_createAttemptedAt r)
    (sr_launchAttemptedAt r) (sr_providerStatus r) (sr_providerExpiresAt r) (sr_providerDomain r) runtimeId genesisHash
    deploymentDomainHex (sr_forwardedTotal r) (sr_mutationTotal r) (sr_minuteWindow r) (sr_minuteCount r) (sr_errorCode r).

(** A mutation that cannot throw. *)
Abbreviation edit := (SessionRecord -> Z -> lres SessionRecord).
Definition always (f : SessionRecord -> SessionRecord) : edit := fun r _ => Ok (f r).

(** ** Helpers of [broker.ts] *)

Definition PROGRAM_ID : string := "2EpQ2iKz921Ce2rremdnFrqG15DQq3Y2rSXbgixceDQE".
Definition PUBLIC_GENESIS_HASHES : list string :=
  ["EtWTRABZaYq6iMfeYKouRu166VU2xqa1wcaWoxPkrZBG"; "5eykt4UsFv8P8NJdTREpY1vzqKqZKvdpKuc147dw2N9d";
   "4uhcVJyU9pJkvQyS88uRDiswHXSCkY3zQawwpjk2NsNY"].
Definition MAX_REQUEST_BYTES : Z := 262144.
Definition MAX_RESPONSE_BYTES : Z := 2097152.

Section broker.
Context (limits : Limits) (meterPrefix : string).
(** [providerName(secret, id)] and [gatewayToken(secret, id)] *)
Context (providerName gatewayToken : string -> string).
(** [new URL(path, base)]: its origin, path and query. *)
Context (new_URL : string -> string -> option (string * string * string)).

Definition SESSION_ROUTES (kind : SandboxKind) : list (string * list string) :=
  match kind with
  | wallet => [("/manifest", ["GET"]); ("/faucet", ["POST"]); ("/advance", ["POST"]); ("/rpc", ["POST"])]
  | guided => [("/state", ["GET"]); ("/receipt", ["GET"]); ("/start", ["POST"]); ("/step", ["POST"])]
  end.
Definition KNOWN_UPSTREAM_STATUS : list Z := [200; 201; 202; 400; 404; 409; 413; 415; 422; 429; 503].

(** [future(value, deps)] *)
Definition future (value : option Z) : svc bool :=
  match value with Some v => t ← nowMs; mret (isFuture v t) | None => mret false end.
Definition terminal (status : string) : bool := one_of ["stopped"; "failed"; "aborted"; "missing"] status.

Definition providerViewChanged (record : SessionRecord) (view : ProviderView) : bool :=
  negb (bool_decide (sr_providerStatus record = Some (pv_status view)))
  || negb (bool_decide (sr_providerExpiresAt record = pv_expiresAt view))
  || (bool_decide (pv_status view = "running") && negb (bool_decide (sr_providerDomain record = pv_domain view))).

(** Every stored instant is finite. *)
Definition extendTombstone (providerExpiresAt : option Z) (record : SessionRecord) : SessionRecord :=
  match providerExpiresAt with
  | None => record
  | Some expires =>
      let candidate := expires + tombstoneMs limits in
      if sr_tombstoneUntil record <? candidate then set_tombstone candidate (sr_launchAttemptedAt record) record else record
  end.

(** Some chunk takes the sum over the limit. *)
Fixpoint overflows (size : Z) (chunks : list Z) : bool :=
  match chunks with
  | [] => false
  | c :: rest => (MAX_RESPONSE_BYTES <? size + c) || overflows (size + c) rest
  end.
Definition boundedJson (response : Response) : Prelude.result failure json :=
  if MAX_RESPONSE_BYTES <? default 0 (rs_declared response) then Err (HttpFail 502)
  else if negb (rs_hasBody response) then Err (HttpFail 502)
  else if overflows 0 (rs_chunks response) then Err (HttpFail 502)
  else if negb (rs_ended response) then Err OtherFail
  else match rs_json response with Some v => Ok v | None => Err (HttpFail 502) end.

Definition cleanError (value : json) : json :=
  let message := match value with
                 | JObj fields => match prop fields "error" with Some (JStr s) => take 200 s | _ => text "Sandbox request failed." end
                 | _ => text "Sandbox request failed."
                 end in
  JObj [(text "error", JStr message)].

(** [output['__proto__'] = v] sets no property. *)
Fixpoint cleanGuided (id : string) (value : json) : json :=
  match value with
  | JArr l => JArr (map (cleanGuided id) l)
  | JObj fields =>
      JObj ((fix go fields :=
        match fields with
        | [] => []
        | (key, child) :: rest =>
            if bool_decide (key = text "wsUrl") || bool_decide (key = text "__proto__") then go rest
            else (key, if bool_decide (key = text "rpcUrl") then JStr (text "sandbox:" ++ text id) else cleanGuided id child)
                 :: go rest
        end) fields)
  | _ => value
  end.

Definition json_object (v : json) : Prelude.result failure (list (js_string * json)) :=
  match object v with Ok fields => Ok fields | Err e => Err (http_failure e) end.

(** [{ runtimeId }] of an accepted health report. *)
Definition validateHealth (value : json) (record : SessionRecord) : Prelude.result failure js_string :=
  item ← json_object value;
  match prop item "runtimeId" with
  | Some (JStr runtimeId) =>
      require (match prop item "ready" with Some (JBool true) => true | _ => false end
               && is_text (prop item "kind") (sandbox_kind_text (sr_kind record))
               && is_text (prop item "expiresAt") (toISOString (sr_expiresAt record))) OtherFail ;;
      Ok runtimeId
  | _ => Err OtherFail
  end.

Definition is_public (genesis : js_string) : bool := existsb (fun h => bool_decide (text h = genesis)) PUBLIC_GENESIS_HASHES.
(** [/^[0-9a-f]{64}$/] *)
Definition hex_digest (s : js_string) : bool :=
  (len s =? 64) && forallb (fun u => between 48 57 u || between 97 102 u) s.

(** [record.field && record.field !== value] *)
Definition differs (recorded : option string) (value : js_string) : bool :=
  match recorded with Some t => nonempty t && negb (bool_decide (t = stored value)) | None => false end.

(** [value === recorded], where [recorded] is a text or [null] *)
Definition same_text (value : option json) (recorded : option string) : bool :=
  match value with
  | Some (JStr s) => bool_decide (recorded = Some (stored s))
  | Some JNull => bool_decide (recorded = None)
  | _ => false
  end.

(** The fields, the genesis hash and the deployment domain of a manifest. *)
Definition validateWalletManifest (value : json) (record : SessionRecord)
    : Prelude.result failure (list (js_string * json) * js_string * js_string) :=
  item ← json_object value;
  match prop item "genesisHash", prop item "deploymentDomainHex" with
  | Some (JStr genesis), Some (JStr domainHex) =>
      require (is_int (prop item "schemaVersion") 1 && is_text (prop item "kind") "surfnet"
               && same_text (prop item "runtimeId") (sr_runtimeId record)
               && is_text (prop item "programId") PROGRAM_ID && negb (is_public genesis) && hex_digest domainHex) OtherFail ;;
      require (negb (differs (sr_genesisHash record) genesis) && negb (differs (sr_deploymentDomainHex record) domainHex)) OtherFail ;;
      Ok (item, genesis, domainHex)
  | _, _ => Err OtherFail
  end.

Definition truthy_json (v : option json) : bool :=
  match v with
  | None | Some JNull | Some (JBool false) => false
  | Some (JStr s) => negb (bool_decide (s = []))
  | Some (JNum (Int z)) => negb (z =? 0)
  | _ => true
  end.

(** The genesis hash of the snapshot of an accepted guided state, if any. *)
Definition validateGuidedState (value : json) (record : SessionRecord) : Prelude.result failure (option js_string) :=
  item ← json_object value;
  require (is_int (prop item "schemaVersion") 4 && same_text (prop item "runtimeId") (sr_runtimeId record)) OtherFail ;;
  let snapshot := prop item "snapshot" in
  if truthy_json snapshot then
    match snapshot with
    | Some (JObj fields) =>
        match prop fields "genesisHash" with
        | None => Ok None
        | Some (JStr genesis) =>
            require (negb (is_public genesis)
                     && match sr_genesisHash record with Some g => bool_decide (g = stored genesis) | None => true end) OtherFail ;;
            Ok (Some genesis)
        | Some _ => Err OtherFail
        end
    | _ => Err OtherFail
    end
  else Ok None.

Definition providerRequest (why : purpose) (record : SessionRecord) (view : ProviderView) (method path : string)
    (body : option Body) : svc Response :=
  match pv_domain view with
  | Some domain =>
      check (nonempty domain && negb (match sr_providerDomain record with
                                      | Some d => nonempty d && negb (bool_decide (d = domain)) | None => false end))
        (HttpFail 503) ;;
      match new_URL path (domain +:+ "/") with
      | Some (origin, pathname, search) =>
          check (bool_decide (origin = domain) && bool_decide (pathname = path) && negb (nonempty search)) OtherFail ;;
          ask (Fetch why record origin method pathname body)
      | None => raise OtherFail
      end
  | None => raise (HttpFail 503)
  end.

(** [try { await stopAndDelete(name); stopped = true } catch { try { observed = await get(name) } catch {} }] *)
Definition stop_or_observe (name : string) : svc (bool * option ProviderView) :=
  stopped ← attempt (ask (ProviderStop name));
  match stopped with
  | Ok _ => mret (true, None)
  | Err _ =>
      observed ← attempt (ask (ProviderGet name));
      mret (false, match observed with Ok view => Some view | Err _ => None end)
  end.

Definition metered (record : SessionRecord) : bool :=
  bool_decide (sr_meterVersion record = Some 1) && truthy_text (sr_runtimeId record).

(** What is recorded of a provider that was asked to stop. *)
Definition after_stop (outcome : bool * option ProviderView) (r : SessionRecord) : SessionRecord :=
  let '(stopped, observed) := outcome in
  let expires := observed ≫= pv_expiresAt in
  extendTombstone expires
    (set_provider (Some (if stopped then "deleted" else match observed with Some v => pv_status v | None => "unknown" end))
       (match expires with Some e => Some e | None => sr_providerExpiresAt r end) (sr_providerDomain r) r).

Definition failClosed {A} (record : SessionRecord) : svc A :=
  (if metered record then attempt (close_session_meter meterPrefix record) ;; mret tt else mret tt) ;;
  outcome ← stop_or_observe (sr_providerName record);
  update_fenced (sr_id record) [ready; starting] true
    (always (fun r => after_stop outcome (with_status failed (Some "identity_changed") r))) ;;
  raise (HttpFail 503).

(** The expiry of a session: its sandbox is stopped and the record closed. *)
Definition expire_edit (outcome : bool * option ProviderView) (r : SessionRecord) : SessionRecord :=
  let stopped := fst outcome in
  after_stop outcome (with_status (if stopped then expired else failed) (Some (if stopped then "expired" else "stopping")) r).

(** What a running or waiting provider shows. *)
Definition observed_edit (view : ProviderView) (domain : SessionRecord -> option string) (r : SessionRecord) : SessionRecord :=
  extendTombstone (pv_expiresAt view) (set_provider (Some (pv_status view)) (pv_expiresAt view) (domain r) r).

(** A promotion to [ready] once health and identity are validated. *)
Definition promote (runtimeId : js_string) (identity : json) : edit := fun item _ =>
  let named := set_identity (Some (stored runtimeId)) (sr_genesisHash item) (sr_deploymentDomainHex item) item in
  match sr_kind item with
  | wallet =>
      match validateWalletManifest identity named with
      | Ok (_, genesis, domainHex) =>
          Ok (with_status ready None (set_identity (Some (stored runtimeId)) (Some (stored genesis)) (Some (stored domainHex)) item))
      | Err _ => Err plain_Error
      end
  | guided =>
      match validateGuidedState identity named with
      | Ok (Some genesis) =>
          Ok (with_status ready None (set_identity (Some (stored runtimeId)) (Some (stored genesis)) (sr_deploymentDomainHex item) item))
      | Ok None => Ok (with_status ready None named)
      | Err _ => Err plain_Error
      end
  end.

(** The body of the [try] of [probeReady]: [None] where it returns [record]. *)
Definition probe (record : SessionRecord) (view : ProviderView) : svc (option SessionRecord) :=
  response ← providerRequest Probing record view "GET" "/health" None;
  if rs_ok response then
    value ← lift_result (boundedJson response);
    runtimeId ← lift_result (validateHealth value record);
    identityResponse ← providerRequest Probing record view "GET"
                         (match sr_kind record with wallet => "/manifest" | guided => "/state" end) None;
    if rs_ok identityResponse then
      identity ← lift_result (boundedJson identityResponse);
      (if bool_decide (sr_meterVersion record = Some 1) then initialize_meter meterPrefix record (stored runtimeId) else mret tt) ;;
      transition ← update_fenced (sr_id record) [starting] true (promote runtimeId identity);
      mret (Some (fst transition))
    else mret None
  else mret None.
Definition probeReady (record : SessionRecord) (view : ProviderView) : svc SessionRecord :=
  probed ← attempt (probe record view);
  mret (match probed with Ok (Some r) => r | _ => record end).

Definition reconcile (record : SessionRecord) : svc SessionRecord :=
  got ← attempt (ask (ProviderGet (sr_providerName record)));
  match got with
  | Err _ => mret record
  | Ok view =>
      if bool_decide (pv_status view = "missing")
         && match sr_providerStatus record with None => true | Some s => bool_decide (s = "unknown") end then mret record
      else if terminal (pv_status view) then
        (if metered record then close_session_meter meterPrefix record else mret tt) ;;
        update_session (sr_id record) (always (fun r =>
          set_provider (Some (pv_status view)) (sr_providerExpiresAt r) (sr_providerDomain r)
            (with_status failed (Some "provider_stopped") r)))
      else
        alive ← (if bool_decide (pv_status view = "running") then future (pv_expiresAt view) else mret false);
        if negb (alive : bool) then
          if providerViewChanged record view
          then update_session (sr_id record) (always (observed_edit view sr_providerDomain))
          else mret record
        else
          match pv_domain view with
          | None => failClosed record
          | Some domain =>
              if negb (nonempty domain) || match sr_providerDomain record with
                                           | Some d => nonempty d && negb (bool_decide (d = domain)) | None => false end
              then failClosed record
              else
                updated ← (if providerViewChanged record view
                           then update_session (sr_id record)
                                  (always (observed_edit view (fun r => match sr_providerDomain r with Some d => Some d | None => Some domain end)))
                           else mret record);
                if bool_decide (sr_status updated = starting) && bool_decide (sr_launchAttemptedAt updated <> None)
                then probeReady updated view else mret updated
          end
  end.

(** The loop of [pollReady]: each round sleeps 500 of its 8000 milliseconds,
    so that at most [polls = 17] of them start before the deadline. *)
Definition polls : nat := 17.
Fixpoint poll (rounds : nat) (deadline : Z) (record latest : SessionRecord) : svc SessionRecord :=
  match rounds with
  | O => mret latest
  | S rounds' =>
      t ← nowMs;
      if t <? deadline then
        t' ← nowMs;
        if t' <? sr_provisioningDeadline record then
          latest' ← reconcile latest;
          if bool_decide (sr_status latest' = starting) then trigger Sleep ;; poll rounds' deadline record latest'
          else mret latest'
        else mret latest
      else mret latest
  end.
Definition pollReady (record : SessionRecord) (durationMs : Z) : svc SessionRecord :=
  t ← nowMs; poll polls (t + durationMs) record record.

(** ** The methods of [HostedSessionBroker] *)

Definition active (r : SessionRecord) : bool := bool_decide (sr_status r = starting) || bool_decide (sr_status r = ready).

Definition current (visitorHash : string) (kind : SandboxKind) : svc PublicSession :=
  found ← current_session visitorHash kind;
  match found with
  | None => mret (publicSession None kind)
  | Some record =>
      alive ← future (Some (sr_expiresAt record));
      if negb (alive : bool) then
        (if metered record then close_session_meter meterPrefix record else mret tt) ;;
        outcome ← stop_or_observe (sr_providerName record);
        closed ← update_session (sr_id record) (always (expire_edit outcome));
        mret (publicSession (Some closed) kind)
      else
        record ← (if bool_decide (sr_status record = failed) && bool_decide (sr_errorCode record = Some "provisioning_timeout")
                     && match sr_providerStatus record with Some s => negb (bool_decide (s = "unknown")) | None => false end
                  then
                    stopped ← attempt (ask (ProviderStop (sr_providerName record)));
                    update_session (sr_id record) (always (fun r =>
                      set_provider (Some (if is_ok stopped then "deleted" else "unknown")) (sr_providerExpiresAt r) (sr_providerDomain r) r))
                  else mret record);
        record ← (if active record then reconcile record else mret record);
        mret (publicSession (Some record) kind)
  end.

Definition is_session (r : option SessionRecord) (id : string) : bool :=
  match r with Some r => bool_decide (sr_id r = id) | None => false end.

(** From the creation of the sandbox on. *)
Definition launch (id : string) (kind : SandboxKind) (record : SessionRecord) : svc PublicSession :=
  created ← attempt (ask (ProviderCreate (Create (sr_providerName record) kind (gatewayToken id) (sr_expiresAt record))));
  match created with
  | Err _ =>
      got ← attempt (ask (ProviderGet (sr_providerName record)));
      let observed := match got with Ok v => Some v | Err _ => None end in
      updated ← update_session id (always (fun r =>
        extendTombstone (observed ≫= pv_expiresAt)
          (set_provider (Some match observed with
                              | Some v => if bool_decide (pv_status v = "missing") then "unknown" else pv_status v
                              | None => "unknown" end)
             (observed ≫= pv_expiresAt) (observed ≫= pv_domain) (with_status failed (Some "create_unknown") r))));
      mret (publicSession (Some updated) kind)
  | Ok view =>
      fence ← update_fenced id [starting] true (fun r t =>
        let r' := extendTombstone (pv_expiresAt view) (set_provider (Some (pv_status view)) (pv_expiresAt view) (pv_domain view) r) in
        Ok (set_tombstone (sr_tombstoneUntil r') (Some t) r'));
      if negb (snd fence) then
        attempt (ask (ProviderStop (pv_name view))) ;; mret (publicSession (Some (fst fence)) kind)
      else
        launched ← attempt (ask (ProviderLaunch (pv_name view)));
        match launched with
        | Err _ =>
            updated ← update_session id (always (fun r =>
              set_provider (Some "running") (sr_providerExpiresAt r) (sr_providerDomain r) (with_status failed (Some "launch_unknown") r)));
            mret (publicSession (Some updated) kind)
        | Ok _ => ready ← pollReady (fst fence) 8000; mret (publicSession (Some ready) kind)
        end
  end.

Definition start (visitorHash ipHash : string) (kind : SandboxKind) (expectedSessionId : option string) : svc PublicSession :=
  found ← current_session visitorHash kind;
  check (match expectedSessionId with Some id => is_session found id | None => true end) (HttpFail 409) ;;
  id ← trigger NewSessionId;
  reserved ← reserve_session (MkReserve id visitorHash ipHash kind (providerName id));
  let record := fst reserved in
  if negb (snd reserved) then
    existing ← (if active record then reconcile record else mret record);
    mret (publicSession (Some existing) kind)
  else launch id kind record.

Definition reset (visitorHash ipHash : string) (kind : SandboxKind) (expectedSessionId : option string) : svc PublicSession :=
  found ← current_session visitorHash kind;
  match found with
  | None => raise (HttpFail 409)
  | Some current =>
      check (match expectedSessionId with Some id => nonempty id && bool_decide (sr_id current = id) | None => false end)
        (HttpFail 409) ;;
      blocked ← (if bool_decide (sr_status current = starting) then mret true
                 else if bool_decide (sr_status current = failed) && bool_decide (sr_providerStatus current = Some "unknown")
                 then t ← nowMs; mret (holdsCapacity current t) else mret false);
      check (negb (blocked : bool)) (HttpFail 503) ;;
      t ← nowMs;
      check (negb (t <? sr_createdAt current + creationCooldownMs limits)) (HttpFail 429) ;;
      (if metered current then close_session_meter meterPrefix current else mret tt) ;;
      update_session (sr_id current) (always (with_status resetting (Some "stopping"))) ;;
      stopped ← stop_or_observe (sr_providerName current);
      if (fst (stopped : bool * option ProviderView) : bool) then
        update_session (sr_id current) (always (fun r =>
          set_provider (Some "deleted") (sr_providerExpiresAt r) (sr_providerDomain r) (with_status expired (Some "expired") r))) ;;
        start visitorHash ipHash kind (Some (sr_id current))
      else
        updated ← update_session (sr_id current) (always (fun r => after_stop stopped (with_status failed (Some "stopping") r)));
        mret (publicSession (Some updated) kind)
  end.

(** [output[key] = value] of a fresh object: in place, or at the end. *)
Fixpoint set_field (fields : list (js_string * json)) (key : js_string) (value : json) : list (js_string * json) :=
  match fields with
  | [] => [(key, value)]
  | (k, v) :: rest => if bool_decide (k = key) then (k, value) :: rest else (k, v) :: set_field rest key value
  end.

(** The manifest the visitor sees: [{ ...clean, hostedSessionId, expiresAt, rpcUrl }]. *)
Definition hosted_manifest (fields : list (js_string * json)) (id : string) (record : SessionRecord) : json :=
  let clean := List.filter (fun '(k, _) => negb (bool_decide (k = text "wsUrl") || bool_decide (k = text "rpcUrl"))) fields in
  JObj (set_field (set_field (set_field clean
          (text "hostedSessionId") (JStr (text id)))
          (text "expiresAt") (JStr (text (toISOString (sr_expiresAt record)))))
          (text "rpcUrl") (JStr (text ("/api/sandbox/wallet/" +:+ id +:+ "/rpc")))).

(** The genesis hash a guided state adds to its session. *)
Definition adopt_genesis (genesis : js_string) : edit := fun item _ =>
  require (negb (differs (sr_genesisHash item) genesis)) plain_Error ;;
  Ok (set_identity (sr_runtimeId item) (Some (stored genesis)) (sr_deploymentDomainHex item) item).

(** The routes, sizes and the number of mutations to charge.  Every [path]
    starts with a slash, so that it names no inherited property. *)
Definition proxy_cost (kind : SandboxKind) (id method path : string) (body : option Body) : hres Z :=
  refuse_unless (SESSION_ID id) 404 ;;
  refuse_unless (match om_get (SESSION_ROUTES kind) path with Some methods => one_of methods method | None => false end) 404 ;;
  refuse_unless (match body with Some b => bd_length b <=? MAX_REQUEST_BYTES | None => true end) 413 ;;
  if bool_decide (method = "POST") then
    match body with
    | None => Err (Http 400)
    | Some b => if bool_decide (kind = wallet) && bool_decide (path = "/rpc") then validateRpc (bd_json b) else Ok 1
    end
  else Ok 0.

(** What follows a refused charge. *)
Definition proxy_refused {A} (visitorHash id : string) (error : failure) : svc A :=
  match error with
  | LedgerFail conflict =>
      record ← session_by_id id;
      match record with
      | None => raise (HttpFail 404)
      | Some record =>
          check (bool_decide (sr_visitorHash record = visitorHash)) (HttpFail 404) ;;
          alive ← future (Some (sr_expiresAt record));
          (if (alive : bool) then mret tt
           else outcome ← stop_or_observe (sr_providerName record);
                update_session (sr_id record) (always (expire_edit outcome)) ;; mret tt) ;;
          raise (HttpFail 410)
      end
  | error => raise error
  end.

(** From the answer of the sandbox on. *)
Definition proxy_answer (kind : SandboxKind) (id path : string) (charged : SessionRecord) (response : Response)
    : svc (Z * json) :=
  value ← lift_result (boundedJson response);
  let status := if existsb (Z.eqb (rs_status response)) KNOWN_UPSTREAM_STATUS then rs_status response else 502 in
  if negb (rs_ok response) then mret (status, cleanError value)
  else match kind with
  | wallet =>
      if bool_decide (path = "/manifest") then
        match validateWalletManifest value charged with
        | Ok (fields, _, _) => mret (status, hosted_manifest fields id charged)
        | Err _ => failClosed charged
        end
      else mret (status, value)
  | guided =>
      let clean := mret (status, cleanGuided id value) in
      if bool_decide (path = "/state") then
        adopted ← attempt (genesis ← lift_result (validateGuidedState value charged);
                           match genesis with
                           | Some g => if truthy_text (sr_genesisHash charged) then mret tt
                                       else update_session id (adopt_genesis g) ;; mret tt
                           | None => mret tt
                           end);
        match adopted with Ok _ => clean | Err _ => failClosed charged end
      else if bool_decide (path = "/receipt") then
        item ← lift_result (json_object value);
        if match prop item "runtimeId" with None => true | v => same_text v (sr_runtimeId charged) end
        then clean else failClosed charged
      else clean
  end.

(** What a sandbox that is gone leaves of its session. *)
Definition gone_edit (view : ProviderView) (r : SessionRecord) : SessionRecord :=
  set_provider (Some (pv_status view)) (sr_providerExpiresAt r) (sr_providerDomain r)
    (if terminal (pv_status view) then with_status failed (Some "provider_stopped") r else with_status expired (Some "expired") r).

(** A charged request. *)
Definition proxy_forward (visitorHash : string) (kind : SandboxKind) (id method path : string) (body : option Body)
    (charged : SessionRecord) : svc (Z * json) :=
  got ← attempt (ask (ProviderGet (sr_providerName charged)));
  match got with
  | Err _ => raise (HttpFail 503)
  | Ok view =>
      if one_of ["pending"; "snapshotting"] (pv_status view) then
        update_session id (always (observed_edit view sr_providerDomain)) ;; raise (HttpFail 503)
      else
        alive ← (if bool_decide (pv_status view = "running") then future (pv_expiresAt view) else mret false);
        if negb (alive : bool) then
          (if metered charged then close_session_meter meterPrefix charged else mret tt) ;;
          update_session id (always (gone_edit view)) ;; raise (HttpFail 410)
        else
          (if bool_decide (sr_meterVersion charged = Some 1) then
             assert_meter_forwardable meterPrefix charged ;;
             if bool_decide (method = "POST") then assert_forwardable meterPrefix charged ;; mret tt else mret tt
           else assert_forwardable meterPrefix charged ;; mret tt) ;;
          response ← attempt (providerRequest (Proxying id visitorHash kind) charged view method path body);
          match response with
          | Ok response => proxy_answer kind id path charged response
          | Err (HttpFail status) => raise (HttpFail status)
          | Err _ => raise (HttpFail 503)
          end
  end.

Definition proxy (visitorHash : string) (kind : SandboxKind) (id method path : string) (body : option Body)
    : svc (Z * json) :=
  mutationCount ← lift_http (proxy_cost kind id method path body);
  charge ← attempt (charge_session meterPrefix id visitorHash kind mutationCount);
  match charge with
  | Err error => proxy_refused visitorHash id error
  | Ok charged => proxy_forward visitorHash kind id method path body charged
  end.
End broker.
