(* ===== verification/SessionBrokerProps.v ===== *)
(** * Hosted broker: the theorems on its sessions

    Any number of visitors' requests run interleaved against one ledger, the
    meters, the sandbox provider and the sandboxes, of whose answers nothing is
    assumed.  A request is sent only to the domain the provider showed for the
    sandbox of its own session, which was reserved for its visitor, made ready
    and identified; no session forwards more requests, or more
    mutations, than its budget; and what a visitor reads of a guided runtime
    shows no address of the sandbox. *)
From S2P Require Import Prelude Js Utf8 Json RpcPolicy IsoTime CasStore Programs Credits BrokerLedger BrokerProps SessionBroker.
Open Scope Z_scope.

(** ** The world of the broker *)

(** A request sent to a sandbox on behalf of a visitor. *)
Record forwarded := Forwarded {
  fw_id : string; fw_visitor : string; fw_kind : SandboxKind; fw_record : SessionRecord;
  fw_origin : string; fw_method : string; fw_path : string; fw_body : option Body;
}.
(** The stores, and what happened: the requests sent to sandboxes and what the
    provider showed of the sandboxes it was asked about, by name. *)
Record world := World {
  w_ledger : option SessionLedger; w_meters : string -> option SessionMeter;
  w_sent : list forwarded; w_views : list (string * ProviderView);
}.

Definition set_meter (path : string) (m : SessionMeter) (w : world) : world :=
  World (w_ledger w) (fun p => if bool_decide (p = path) then Some m else w_meters w p) (w_sent w) (w_views w).
Definition add_view (name : string) (view : ProviderView) (w : world) : world :=
  World (w_ledger w) (w_meters w) (w_sent w) (w_views w ++ [(name, view)]).
Definition add_sent (f : forwarded) (w : world) : world :=
  World (w_ledger w) (w_meters w) (w_sent w ++ [f]) (w_views w).

Section world.
Context (limits : Limits) (meterPrefix : string) (providerName : string -> string).

(** The operation a transaction applies, and whether it applied a change. *)
Definition call_operation (c : ledger_call) : ledger_operation (SessionRecord * bool) :=
  let updated (op : ledger_operation SessionRecord) : ledger_operation (SessionRecord * bool) :=
    fun l now => '(r, l') ← op l now; Ok ((r, true), l') in
  match c with
  | Reserve input => reserve_operation limits input
  | Update id mutate => updated (update_operation id mutate)
  | UpdateFenced id allowed requireLatest mutate => updateFenced_operation id allowed requireLatest mutate
  | Charge id visitorHash kind count => updated (charge_operation limits id visitorHash kind count)
  end.

(** A conditional write of a meter: it may fail after it took effect. *)
Definition meter_written (w : world) (path : string) (step : SessionMeter -> option SessionMeter -> Prop)
    (x : Prelude.result failure unit) (w' : world) : Prop :=
  (exists m m', w_meters w path = Some m /\ step m m' /\
                w' = match m' with Some m' => set_meter path m' w | None => w end)
  \/ (w' = w /\ exists e, x = Err e).

(** The clock, the provider and the sandboxes may answer anything; the stores
    may fail at any access. *)
Definition occurs (i : nat) (e : event) (w : world) : answer e -> world -> Prop :=
  match e return answer e -> world -> Prop with
  | ReadClock | NewSessionId | Sleep => fun _ w' => w' = w
  | ReadLedger => fun x w' => w' = w /\ (x = Ok (w_ledger w) \/ exists e, x = Err e)
  | Transact c => fun x w' =>
      (exists t r l', transaction_step (call_operation c) t (default emptySessionLedger (w_ledger w)) = Ok (r, l') /\
                      w' = World (Some l') (w_meters w) (w_sent w) (w_views w) /\ (x = Ok r \/ exists e, x = Err e))
      \/ (w' = w /\ exists e, x = Err e)
  | ReadMeter path => fun x w' => w' = w /\ (x = Ok (w_meters w path) \/ exists e, x = Err e)
  | CreateMeter path m => fun x w' =>
      (w_meters w path = None /\ w' = set_meter path m w /\ (x = Ok true \/ exists e, x = Err e))
      \/ (w' = w /\ (x = Ok false \/ exists e, x = Err e))
  | ChargeMeter path snapshot n =>
      meter_written w path (fun m m' => exists t m1, charge_meter limits snapshot n t m = Ok m1 /\ m' = Some m1)
  | CloseMeter path record => meter_written w path (fun m m' => close_meter record m = Ok m')
  | ProviderCreate _ | ProviderLaunch _ | ProviderStop _ => fun _ w' => w' = w
  | ProviderGet name => fun x w' => w' = match x with Ok view => add_view name view w | Err _ => w end
  | Fetch why record origin method path body => fun _ w' =>
      w' = match why with
           | Probing => w
           | Proxying id v k => add_sent (Forwarded id v k record origin method path body) w
           end
  end.

(** ** What holds of sessions *)

(** A session has the sandbox named after it; the recorded genesis hash is no
    public network's; a ready session has a runtime, and a ready wallet a
    genesis hash and a deployment domain. *)
Definition private_genesis (g : option string) : Prop :=
  match g with Some t => exists s, t = stored s /\ is_public s = false | None => True end.
Record identified (r : SessionRecord) : Prop := {
  id_runtime : truthy_text (sr_runtimeId r) = true;
  id_genesis : private_genesis (sr_genesisHash r);
  id_wallet : sr_kind r = wallet ->
              sr_genesisHash r <> None /\ exists d, sr_deploymentDomainHex r = Some (stored d) /\ hex_digest d = true;
}.
Record session_safe (r : SessionRecord) : Prop := {
  safe_metered : sr_meterVersion r = Some 1;
  safe_sandbox : sr_providerName r = providerName (sr_id r);
  safe_genesis : private_genesis (sr_genesisHash r);
  safe_ready : sr_status r = ready -> identified r;
}.
Definition ledger_safe (l : SessionLedger) : Prop :=
  Forall (fun '(id, r) => sr_id r = id /\ session_safe r) (sessions l).

(** An edit keeps who a session belongs to, and makes it ready only with an
    identity. *)
Definition edit_safe (f : SessionRecord -> Z -> lres SessionRecord) : Prop :=
  forall r t r', f r t = Ok r' -> session_safe r ->
    sr_id r' = sr_id r /\ sr_visitorHash r' = sr_visitorHash r /\ sr_kind r' = sr_kind r /\ session_safe r'.

Definition meter_ok (path : string) (m : SessionMeter) : Prop :=
  meterPath meterPrefix (mt_id m) = Ok path /\ meter_within limits m.

(** A recorded domain is the origin asked. *)
Definition origin_recorded (r : SessionRecord) (origin : string) : Prop :=
  match sr_providerDomain r with Some d => d = "" \/ d = origin | None => True end.
(** The session a request is forwarded for: the visitor's own, ready, with a
    sandbox of its own, identified, at the recorded domain. *)
Record forwardable (f : forwarded) : Prop := {
  fwd_id : sr_id (fw_record f) = fw_id f;
  fwd_visitor : sr_visitorHash (fw_record f) = fw_visitor f;
  fwd_kind : sr_kind (fw_record f) = fw_kind f;
  fwd_ready : sr_status (fw_record f) = ready;
  fwd_sandbox : sr_providerName (fw_record f) = providerName (fw_id f);
  fwd_identified : identified (fw_record f);
  fwd_origin : origin_recorded (fw_record f) (fw_origin f);
}.

Record good (w : world) : Prop := {
  good_ledger : forall l, w_ledger w = Some l -> ledger_safe l;
  good_meters : forall path m, w_meters w path = Some m -> meter_ok path m;
  good_sent : Forall forwardable (w_sent w);
}.

(** ** What the broker asks and hears *)
Definition allowed (e : event) : Prop :=
  match e with
  | Transact (Reserve input) => in_providerName input = providerName (in_id input)
  | Transact (Update _ f) | Transact (UpdateFenced _ _ _ f) => edit_safe f
  | CreateMeter path m => meter_ok path m /\ forwardedTotal m = 0 /\ mutationTotal m = 0
  | ChargeMeter _ _ n => 0 <= n
  | Fetch (Proxying id v k) record origin method path body =>
      forwardable (Forwarded id v k record origin method path body)
  | _ => True
  end.
Definition sane (e : event) : answer e -> Prop :=
  match e return answer e -> Prop with
  | ReadLedger => fun x => match x with Ok (Some l) => ledger_safe l | _ => True end
  | Transact c => fun x => match x with
                           | Ok (r, _) => session_safe r /\ match c with Charge _ _ _ _ => False | _ => True end
                           | _ => True
                           end
  | _ => fun _ => True
  end.

(** ** Accounts

    A session has a budget: [weigh n] is what a request with [n] mutations
    counts - one, for the budget of requests, or [n] - and [total] what its
    meter has counted.  A sandbox at an origin is credited once each time the
    provider reports that it is running there. *)
Definition mutations_in (kind : SandboxKind) (method path : string) (body : option Body) : Z :=
  if bool_decide (method = "POST") then
    if bool_decide (kind = wallet) && bool_decide (path = "/rpc") then
      match body with Some (MkBody _ (Some v)) => sends (calls_of v) | _ => 0 end
    else 1
  else 0.

Inductive account :=
  | OfSession (weigh : Z -> Z) (total : SessionMeter -> Z) (sid : string)
  | OfSandbox (name origin : string).

(** The provider shows the sandbox running at the origin. *)
Definition runs_at (name origin : string) (v : string * ProviderView) : bool :=
  bool_decide (v.1 = name) && bool_decide (pv_status v.2 = "running") && bool_decide (pv_domain v.2 = Some origin).

Section credit.
Context (a : account).

Definition cost_of (f : forwarded) : Z :=
  match a with
  | OfSession weigh _ sid =>
      if bool_decide (fw_id f = sid) then weigh (mutations_in (fw_kind f) (fw_method f) (fw_path f) (fw_body f)) else 0
  | OfSandbox name origin => Z.b2z (bool_decide (sr_providerName (fw_record f) = name) && bool_decide (fw_origin f = origin))
  end.
Definition earn (e : event) : answer e -> Z :=
  match e return answer e -> Z with
  | ChargeMeter _ snapshot n => fun x =>
      match a, x with
      | OfSession weigh _ sid, Ok _ => if bool_decide (sr_id snapshot = sid) then weigh n else 0
      | _, _ => 0
      end
  | ProviderGet asked => fun x =>
      match a, x with
      | OfSandbox name origin, Ok view => Z.b2z (runs_at name origin (asked, view))
      | _, _ => 0
      end
  | _ => fun _ => 0
  end.
Definition spend (e : event) : Z :=
  match e with
  | Fetch (Proxying id v k) record origin method path body => cost_of (Forwarded id v k record origin method path body)
  | _ => 0
  end.
Definition spent (w : world) : Z := sumZ (cost_of <$> w_sent w).
Definition meter_funds (total : SessionMeter -> Z) (sid : string) (w : world) : Z :=
  match meterPath meterPrefix sid with
  | Ok path => match w_meters w path with Some m => total m | None => 0 end
  | Err _ => 0
  end.
Definition funds (w : world) : Z :=
  match a with
  | OfSession _ total sid => meter_funds total sid w
  | OfSandbox name origin => sumZ ((fun v => Z.b2z (runs_at name origin v)) <$> w_views w)
  end.

(** The meter counts what requests weigh. *)
Definition account_ok : Prop :=
  match a with
  | OfSession weigh total _ =>
      (forall n, 0 <= n -> 0 <= weigh n) /\
      (forall s n t m m', charge_meter limits s n t m = Ok m' -> total m' = total m + weigh n) /\
      (forall r m m', close_meter r m = Ok (Some m') -> total m' = total m) /\
      (forall m, forwardedTotal m = 0 -> mutationTotal m = 0 -> total m = 0)
  | OfSandbox _ _ => True
  end.
End credit.
End world.

(** ** The ledger stays safe *)

Section ledger.
Context (providerName : string -> string).
Abbreviation session_safe := (session_safe providerName).
Abbreviation ledger_safe := (ledger_safe providerName).

Lemma ledger_safe_get l id r : ledger_safe l -> om_get (sessions l) id = Some r -> sr_id r = id /\ session_safe r.
Proof.
  unfold ledger_safe. induction (sessions l) as [|[k v] m IH]; simpl; [done|]. rewrite Forall_cons.
  intros [Hv Hm]. case_bool_decide; [intros [= <-]; subst; done|by apply IH].
Qed.

Lemma latest_safe l key r : ledger_safe l -> latest_session l key = Some r -> session_safe r.
Proof.
  unfold latest_session. intros Hl H. case_match; [|done]. case_match; [|done]. by apply (ledger_safe_get l) in H as [].
Qed.

Lemma expire_safe now r : session_safe r -> sr_id (expire_session now r) = sr_id r /\ session_safe (expire_session now r).
Proof. intros [H1 H2 H3 H4]. unfold expire_session. repeat case_match; (split; [done|]); by split. Qed.

Lemma normalize_safe now l l1 : normalizeLedger now l = Ok l1 -> ledger_safe l -> ledger_safe l1.
Proof.
  intros (_ & _ & Hs & _)%normalize_Ok Hl. unfold ledger_safe in *. rewrite Hs. unfold om_filter.
  apply List.Forall_forall. intros [k r] [Hin _]%List.filter_In. apply list_elem_of_In, list_elem_of_fmap in Hin as ([k0 r0] & [= -> ->] & Hin).
  rewrite Forall_forall in Hl. apply Hl in Hin as [<- Hr]. apply expire_safe. done.
Qed.

Lemma sessions_set_safe (m : list (string * SessionRecord)) id r :
  Forall (fun '(k, v) => sr_id v = k /\ session_safe v) m -> sr_id r = id -> session_safe r ->
  Forall (fun '(k, v) => sr_id v = k /\ session_safe v) (om_set m id r).
Proof.
  intros Hm Hid Hr. induction m as [|[k v] m IH]; simpl; [by apply Forall_singleton|].
  apply Forall_cons in Hm as [Hv Hm]. case_bool_decide; apply Forall_cons; [subst; done|auto].
Qed.

Context (limits : Limits) (meterPrefix : string).

Lemma new_session_safe input now :
  in_providerName input = providerName (in_id input) -> session_safe (new_session limits input now).
Proof. by split. Qed.

Lemma operation_safe c l now r b l' :
  allowed limits meterPrefix providerName (Transact c) -> ledger_safe l -> call_operation limits c l now = Ok ((r, b), l') ->
  ledger_safe l' /\ session_safe r /\ match c with Charge _ _ _ _ => False | _ => True end.
Proof.
  intros Ha Hl. destruct c as [input|id f|id al rl f|id v k n]; cbn in *.
  - intros H%reserve_operation_Ok. destruct b.
    + destruct H as (_ & -> & _ & _ & _ & _ & _ & _ & Hs & _). split_and!; [|by apply new_session_safe|done].
      unfold ledger_safe. rewrite Hs. apply sessions_set_safe; [done|done|by apply new_session_safe].
    + destruct H as (-> & Hs & _). split_and!; [done|by eapply latest_safe|done].
  - unfold update_operation. intros ([r1 l1] & H & [= <- <- <-])%bind_Ok_inv.
    destruct (om_get (sessions l) id) as [s|] eqn:Hs; [|done]. apply bind_Ok_inv in H as (s' & Hf & [= <- <-]).
    destruct (ledger_safe_get _ _ _ Hl Hs) as [Hid Hs0]. destruct (Ha _ _ _ Hf Hs0) as (H1 & H2 & H3 & H4).
    split_and!; [|done|done]. apply sessions_set_safe; [done|congruence|done].
  - unfold updateFenced_operation. intros H.
    destruct (om_get (sessions l) id) as [s|] eqn:Hs; [|done]. destruct (ledger_safe_get _ _ _ Hl Hs) as [Hid Hs0].
    case_match; [by injection H as <- <- <-|]. apply bind_Ok_inv in H as (s' & Hf & [= <- <- <-]).
    destruct (Ha _ _ _ Hf Hs0) as (H1 & H2 & H3 & H4).
    split_and!; [|done|done]. apply sessions_set_safe; [done|congruence|done].
  - unfold charge_operation. intros ([r1 l1] & H & [= <- <- <-])%bind_Ok_inv.
    destruct (om_get (sessions l) id) as [s|] eqn:Hs; [|done]. destruct (ledger_safe_get _ _ _ Hl Hs) as [Hid [Hm _ _ _]].
    minv H. breflect. congruence.
Qed.

Lemma transaction_safe c l now r b l' :
  allowed limits meterPrefix providerName (Transact c) -> ledger_safe l -> transaction_step (call_operation limits c) now l = Ok ((r, b), l') ->
  ledger_safe l' /\ session_safe r /\ match c with Charge _ _ _ _ => False | _ => True end.
Proof.
  intros Ha Hl (l1 & l2 & Hn & Ho & ->)%transaction_step_Ok. apply (normalize_safe _ _ _ Hn) in Hl.
  exact (operation_safe c l1 now r b l2 Ha Hl Ho).
Qed.
End ledger.

(** ** Steps of the world *)

Lemma meterPath_inj prefix a b path : meterPath prefix a = Ok path -> meterPath prefix b = Ok path -> a = b.
Proof.
  unfold meterPath. intros (_ & _ & <-%Ok_inj)%bind_Ok_inv (_ & _ & Hp%Ok_inj)%bind_Ok_inv.
  apply (f_equal chars) in Hp. rewrite !chars_app in Hp. apply chars_inj. by simplify_list_eq.
Qed.

Lemma charge_meter_binds limits s n t m m' :
  charge_meter limits s n t m = Ok m' -> mt_id m' = mt_id m /\ mt_id m = sr_id s.
Proof. unfold charge_meter, meterBindingMatches. intros H. minv H. breflect. done. Qed.

Lemma close_meter_binds r m m' : close_meter r m = Ok (Some m') -> mt_id m' = mt_id m.
Proof. unfold close_meter. destruct (_ && _); cbn; [|done]. destruct (mt_open m); [|done]. by intros [= <-]. Qed.

Section sound.
Context (limits : Limits) (meterPrefix : string) (providerName : string -> string).
Abbreviation good := (good limits meterPrefix providerName).

Lemma set_meter_good path m w : good w -> meter_ok limits meterPrefix path m -> good (set_meter path m w).
Proof. intros [H1 H2 H3] Hm. split; [done| |done]. simpl. intros p m'. case_bool_decide; [intros [= <-]; by subst|by apply H2]. Qed.

Lemma charge_ok path snapshot n t m m' w :
  good w -> 0 <= n -> w_meters w path = Some m -> charge_meter limits snapshot n t m = Ok m' ->
  meter_ok limits meterPrefix path m'.
Proof.
  intros Hg Hn Hm Hc. destruct (good_meters _ _ _ _ Hg _ _ Hm) as [Hid [W1 W2 W3]].
  destruct (charge_meter_Ok _ _ _ _ _ _ Hc) as (_ & _ & Hf & Hmu & Hf1 & Hm1 & Hk & _).
  destruct (charge_meter_binds _ _ _ _ _ _ Hc) as [Hid' Hid2]. split; [by rewrite Hid'|split; lia].
Qed.

Lemma close_ok path record m m' w :
  good w -> w_meters w path = Some m -> close_meter record m = Ok (Some m') -> meter_ok limits meterPrefix path m'.
Proof.
  intros Hg Hm Hc. destruct (good_meters _ _ _ _ Hg _ _ Hm) as [Hid [W1 W2 W3]].
  destruct (close_meter_Ok _ _ _ Hc) as (_ & Hf & Hmu & Hk). pose proof (close_meter_binds _ _ _ Hc) as Hid'.
  split; [by rewrite Hid'|split; lia].
Qed.

Lemma transact_sound c t r l' w :
  good w -> allowed limits meterPrefix providerName (Transact c) ->
  transaction_step (call_operation limits c) t (default emptySessionLedger (w_ledger w)) = Ok (r, l') ->
  good (World (Some l') (w_meters w) (w_sent w) (w_views w)) /\ sane providerName (Transact c) (Ok r).
Proof.
  intros [H1 H2 H3] Ha Ht. assert (Hl : ledger_safe providerName (default emptySessionLedger (w_ledger w))).
  { destruct (w_ledger w) as [l|] eqn:Hw; simpl; [by apply H1|constructor]. }
  destruct r as [r b]. destruct (transaction_safe _ _ meterPrefix _ _ _ _ _ _ Ha Hl Ht) as (Hs & Hr & Hc).
  split; [|done]. split; [by intros ? [= <-]|done|done].
Qed.

Lemma broker_occurs_good i e w x w' :
  good w -> allowed limits meterPrefix providerName e -> occurs limits i e w x w' -> good w' /\ sane providerName e x.
Proof.
  intros Hg Ha Ho.
  destruct e as [| | | |c|path|path m|path snapshot n|path record| | |name| |why record dom meth path body]; cbn in Ho.
  all: try (by subst w').
  - destruct Ho as [-> [->|[e ->]]]; cbn; [|done]. destruct (w_ledger w) as [l|] eqn:Hw; [|done].
    by pose proof (good_ledger _ _ _ _ Hg l Hw).
  - destruct Ho as [(t & r & l' & Ht & -> & Hx)|[-> [e ->]]]; [|done].
    destruct (transact_sound _ _ _ _ _ Hg Ha Ht) as [Hg' Hs]. split; [done|]. by destruct Hx as [->|[e ->]].
  - by destruct Ho as [-> _].
  - destruct Ha as (Hok & _). destruct Ho as [(Hn & -> & Hx)|[-> Hx]]; [|done]. split; [by apply set_meter_good|done].
  - destruct Ho as [(m & m' & Hm & (t & m1 & Hc & ->) & ->)|[-> [e ->]]]; [|done].
    split; [|done]. apply set_meter_good; [done|]. by eapply charge_ok.
  - destruct Ho as [(m & [m'|] & Hm & Hc & ->)|[-> [e ->]]]; [|done|done].
    split; [|done]. apply set_meter_good; [done|]. by eapply close_ok.
  - split; [|done]. subst w'. destruct x; [|done]. destruct Hg. by split.
  - subst w'. destruct why as [|id v k]; [done|]. destruct Hg as [H1 H2 H3]. split; [|done].
    split; [done|done|]. simpl. apply Forall_app. split; [done|]. by apply Forall_singleton.
Qed.

(** What a change of a meter does to the funds of a session. *)
Lemma funds_set total sid path m w d :
  meter_ok limits meterPrefix path m -> match w_meters w path with Some m0 => total m0 | None => 0 end + d = total m ->
  meter_funds meterPrefix total sid (set_meter path m w) =
  meter_funds meterPrefix total sid w + if bool_decide (mt_id m = sid) then d else 0.
Proof.
  intros [Hid _] Hd. unfold meter_funds. simpl. case_bool_decide as Hm.
  - subst sid. rewrite Hid. by rewrite bool_decide_true.
  - destruct (meterPath meterPrefix sid) as [p|] eqn:Hp; [|lia]. rewrite bool_decide_false; [lia|].
    intros ->. apply Hm. by eapply meterPath_inj.
Qed.
Lemma funds_set_same total sid path m w :
  meter_ok limits meterPrefix path m -> match w_meters w path with Some m0 => total m0 | None => 0 end = total m ->
  meter_funds meterPrefix total sid (set_meter path m w) = meter_funds meterPrefix total sid w.
Proof. intros Hok Hd. rewrite (funds_set _ _ _ _ _ 0 Hok); [case_bool_decide; lia|lia]. Qed.

(** The store or the meter was not written. *)
#[local] Ltac idle := unfold spent, funds, meter_funds; cbn; split; repeat case_match; lia.

Lemma occurs_paid a i e w x w' :
  account_ok limits a -> good w -> allowed limits meterPrefix providerName e -> occurs limits i e w x w' ->
  spent a w' <= spent a w + spend a e /\ funds meterPrefix a w + earn a e x <= funds meterPrefix a w'.
Proof.
  intros Hok Hg Ha Ho.
  destruct e as [| | | |c|path|path m|path snapshot n|path record| | |name| |why record dom meth path body]; cbn in Ho.
  all: try (subst w'; solve [idle]).
  - destruct Ho as [-> _]; idle.
  - destruct Ho as [(t & r & l' & Ht & -> & Hx)|[-> _]]; idle.
  - destruct Ho as [-> _]; idle.
  - destruct Ha as (Hmok & Hf & Hm). destruct Ho as [(Hn & -> & Hx)|[-> Hx]]; [|idle].
    destruct a as [weigh total sid|name origin]; [|idle]. destruct Hok as (_ & _ & _ & Hfresh). cbn [funds].
    rewrite funds_set_same; [unfold spent; cbn; lia|done|]. by rewrite Hn, (Hfresh _ Hf Hm).
  - destruct Ho as [(m & m' & Hm & (t & m1 & Hc & ->) & ->)|[-> [e ->]]]; [|destruct a; idle].
    destruct a as [weigh total sid|name origin]; [|idle]. destruct Hok as (Hw & Hcharge & _ & _). cbn [funds].
    rewrite (funds_set _ _ _ _ _ (weigh n)); [|by eapply charge_ok|by rewrite Hm, (Hcharge _ _ _ _ _ Hc)].
    destruct (charge_meter_binds _ _ _ _ _ _ Hc) as [Hid Hid2]. rewrite Hid, Hid2.
    unfold spent; cbn. split; [lia|]. destruct x; [lia|]. case_bool_decide; [pose proof (Hw n Ha)|]; lia.
  - destruct Ho as [(m & [m'|] & Hm & Hc & ->)|[-> [e ->]]]; [|idle|idle].
    destruct a as [weigh total sid|name origin]; [|idle]. destruct Hok as (_ & _ & Hclose & _). cbn [funds].
    rewrite funds_set_same; [unfold spent; cbn; lia|by eapply close_ok|]. by rewrite Hm, (Hclose _ _ _ Hc).
  - subst w'. destruct x as [view|]; [|destruct a; idle]. destruct a as [weigh total sid|n o]; [idle|].
    unfold spent, funds; cbn. rewrite fmap_app, sumZ_app. cbn. lia.
  - subst w'. destruct why as [|id v k]; [idle|]. unfold spent; cbn. rewrite fmap_app, sumZ_app. cbn.
    split; [lia|]. destruct a; unfold funds, meter_funds; cbn; lia.
Qed.
End sound.

(** ** The edits of the broker are safe *)

#[local] Ltac safe_edit :=
  let H1 := fresh in let Hn := fresh in let H2 := fresh in let H3 := fresh in let K := fresh in
  intros ? ? ? [= <-] [H1 Hn H2 H3];
  unfold expire_edit, observed_edit, gone_edit in *; unfold after_stop, extendTombstone, set_provider, set_tombstone, with_status in *;
  repeat case_match; split_and!; try reflexivity; split; cbn in *;
  first [assumption | discriminate | intros K; destruct (H3 K); by split].

Section edits.
Context (limits : Limits) (providerName : string -> string).
Abbreviation edit_safe := (edit_safe providerName).

Lemma with_status_safe s c : s <> ready -> edit_safe (always (with_status s c)).
Proof. intros Hs. destruct s; try done; safe_edit. Qed.
Lemma after_stop_safe outcome s c : s <> ready -> edit_safe (always (fun r => after_stop limits outcome (with_status s c r))).
Proof. intros Hs. destruct s; try done; safe_edit. Qed.
Lemma expire_edit_safe outcome : edit_safe (always (expire_edit limits outcome)).
Proof. safe_edit. Qed.
Lemma observed_edit_safe view domain : edit_safe (always (observed_edit limits view domain)).
Proof. safe_edit. Qed.
Lemma gone_edit_safe view : edit_safe (always (gone_edit view)).
Proof. safe_edit. Qed.
Lemma provider_edit_safe st exp dom : edit_safe (always (fun r => set_provider st (exp r) (dom r) r)).
Proof. safe_edit. Qed.
Lemma provider_status_safe st exp dom s c :
  s <> ready -> edit_safe (always (fun r => set_provider st (exp r) (dom r) (with_status s c r))).
Proof. intros Hs. destruct s; try done; safe_edit. Qed.
Lemma created_edit_safe expires st exp dom s c :
  s <> ready ->
  edit_safe (always (fun r => extendTombstone limits expires (set_provider st exp dom (with_status s c r)))).
Proof. intros Hs. destruct s; try done; safe_edit. Qed.
Lemma launch_edit_safe view :
  edit_safe (fun r t =>
    let r' := extendTombstone limits (pv_expiresAt view) (set_provider (Some (pv_status view)) (pv_expiresAt view) (pv_domain view) r) in
    Ok (set_tombstone (sr_tombstoneUntil r') (Some t) r')).
Proof. cbv zeta. safe_edit. Qed.

Lemma validateWalletManifest_Ok value record fields genesis domainHex :
  validateWalletManifest value record = Ok (fields, genesis, domainHex) ->
  value = JObj fields /\ is_public genesis = false /\ hex_digest domainHex = true.
Proof.
  unfold validateWalletManifest. intros (item & Hi & H)%bind_Ok_inv. repeat (case_match; try discriminate).
  apply bind_Ok_inv in H as (_ & Hr%require_Ok_inv & (_ & _ & H%Ok_inj)%bind_Ok_inv). injection H as <- <- <-.
  breflect. split_and!; [|done..]. destruct value; try done. by injection Hi as ->.
Qed.

Lemma validateGuidedState_Ok value record g : validateGuidedState value record = Ok (Some g) -> is_public g = false.
Proof.
  unfold validateGuidedState. intros (item & Hi & (_ & _ & H)%bind_Ok_inv)%bind_Ok_inv.
  repeat (case_match; try discriminate); apply bind_Ok_inv in H as (_ & Hr%require_Ok_inv & [= <-]); by breflect.
Qed.

Lemma promote_safe runtimeId identity : nonempty (stored runtimeId) = true -> edit_safe (promote runtimeId identity).
Proof.
  intros Hn r t r' Hp [H1 Hsb H2 H3]. unfold promote in Hp. destruct (sr_kind r) eqn:Hk.
  - destruct (validateWalletManifest _ _) as [[[f g] d]|] eqn:Hv; [|done]. injection Hp as <-.
    apply validateWalletManifest_Ok in Hv as (_ & Hg & Hd).
    assert (private_genesis (Some (stored g))) by (exists g; done).
    split_and!; [done..|]. split; [done|done|done|]. intros _. split; [done|done|]. intros _. cbn. eauto.
  - destruct (validateGuidedState _ _) as [[g|]|] eqn:Hv; [| |done]; injection Hp as <-.
    + apply validateGuidedState_Ok in Hv. assert (private_genesis (Some (stored g))) by (exists g; done).
      split_and!; [done..|]. split; [done|done|done|]. intros _. split; [done|done|]. cbn. by rewrite Hk.
    + split_and!; [done..|]. split; [done|done|done|]. intros _. split; [done|done|]. cbn. by rewrite Hk.
Qed.

Lemma adopt_genesis_safe g : is_public g = false -> edit_safe (adopt_genesis g).
Proof.
  intros Hg r t r' Ha [H1 Hsb H2 H3]. unfold adopt_genesis in Ha. minv Ha.
  assert (private_genesis (Some (stored g))) by (exists g; done).
  split_and!; [done..|]. split; [done|done|done|]. intros [K1 K2 K3]%H3. split; [done|done|].
  cbn. intros Hw. split; [done|by apply K3].
Qed.
End edits.

Create HintDb edits.
Create HintDb secure.
#[local] Hint Resolve with_status_safe after_stop_safe expire_edit_safe observed_edit_safe gone_edit_safe provider_edit_safe
  provider_status_safe created_edit_safe launch_edit_safe promote_safe adopt_genesis_safe : edits.

(** ** The methods *)

Section methods.
Context (limits : Limits) (meterPrefix : string) (providerName gatewayToken : string -> string).
Context (new_URL : string -> string -> option (string * string * string)).
Context (limits_nonneg : 0 <= requestsTotal limits /\ 0 <= requestsPerMinute limits /\ 0 <= mutationsTotal limits).
Context (acc : account) (acc_ok : account_ok limits acc).
Abbreviation Secure := (secure (F:=failure) (allowed limits meterPrefix providerName) (sane providerName) (earn acc) (spend acc)).
Abbreviation session_safe := (session_safe providerName).
Abbreviation ledger_safe := (ledger_safe providerName).
Abbreviation edit_safe := (edit_safe providerName).

Definition anything {A} (a : A) : Prop := True.

Lemma nowMs_secure : Secure nowMs anything.
Proof. by apply (secure_trigger (F:=failure)). Qed.
Lemma NewSessionId_secure : Secure (trigger (F:=failure) NewSessionId) anything.
Proof. by apply (secure_trigger (F:=failure)). Qed.
Lemma Sleep_secure : Secure (trigger (F:=failure) Sleep) anything.
Proof. by apply (secure_trigger (F:=failure)). Qed.
Lemma check_secure b e : Secure (check b e) (fun _ => b = true).
Proof. unfold check. destruct b; [by apply secure_ret|apply secure_raise]. Qed.
Lemma lift_ledger_secure {A} (r : lres A) : Secure (lift_ledger r) (fun a => r = Ok a).
Proof. unfold lift_ledger. destruct r; [by apply secure_ret|apply secure_raise]. Qed.
Lemma lift_result_secure {A} (r : Prelude.result failure A) : Secure (lift_result r) (fun a => r = Ok a).
Proof. by apply secure_lift. Qed.
Lemma ret_secure {A} (a : A) : Secure (mret a) (fun b => b = a).
Proof. by apply secure_ret. Qed.
Lemma any_secure {A} (m : svc A) Q : Secure m Q -> Secure m anything.
Proof. by apply secure_mono. Qed.

Lemma ask_ledger_secure : Secure (ask ReadLedger) (fun o => forall l, o = Some l -> ledger_safe l).
Proof. apply secure_ask; [done..|]. intros x Hx. split; [done|]. intros o -> l ->. exact Hx. Qed.
Lemma transact_secure c : allowed limits meterPrefix providerName (Transact c) -> Secure (ask (Transact c)) (fun x => session_safe x.1).
Proof. intros Ha. apply secure_ask; [done|done|]. intros [[r b]|] Hx; (split; [done|]); [|done]. intros a [= <-]. apply Hx. Qed.

Lemma read_meter_event_secure p : Secure (ask (ReadMeter p)) anything.
Proof. by apply (secure_ask (F:=failure)). Qed.
Lemma close_event_secure p r : Secure (ask (CloseMeter p r)) anything.
Proof. by apply (secure_ask (F:=failure)). Qed.
Lemma create_event_secure p m :
  meter_ok limits meterPrefix p m /\ forwardedTotal m = 0 /\ mutationTotal m = 0 -> Secure (ask (CreateMeter p m)) anything.
Proof. intros Ha. by apply (secure_ask (F:=failure)). Qed.
Lemma provider_create_secure i : Secure (ask (ProviderCreate i)) anything.
Proof. by apply (secure_ask (F:=failure)). Qed.
Lemma provider_launch_secure n : Secure (ask (ProviderLaunch n)) anything.
Proof. by apply (secure_ask (F:=failure)). Qed.
Lemma provider_get_secure n : Secure (ask (ProviderGet n)) anything.
Proof.
  apply (secure_ask (F:=failure)); [done..|]. intros x _. split; [|done]. cbn.
  destruct acc, x; try lia. destruct (runs_at _ _ _); cbn; lia.
Qed.
Lemma provider_stop_secure n : Secure (ask (ProviderStop n)) anything.
Proof. by apply (secure_ask (F:=failure)). Qed.
Lemma probe_event_secure r d m p b : Secure (ask (Fetch Probing r d m p b)) anything.
Proof. by apply (secure_ask (F:=failure)). Qed.

(** [sec] runs through a method: each call by its lemma, each branch by
    cases, an answer by its postcondition. *)
#[local] Ltac sec_leaf :=
  lazymatch goal with
  | |- secure _ _ _ _ (attempt _) _ => apply secure_attempt; sec_leaf
  | |- _ => solve [eauto 3 with secure edits]
  end.
#[local] Ltac sec_step :=
  lazymatch goal with
  | |- secure _ _ _ _ (raise _) _ => apply secure_raise
  | |- secure _ _ _ _ (mret _) _ => apply secure_ret
  | |- secure _ _ _ _ (lift_result _) anything => apply secure_lift
  | |- secure _ _ _ _ ((if ?b then _ else _) ≫= _) _ => destruct b eqn:?
  | |- secure _ _ _ _ (match ?x with _ => _ end ≫= _) _ => destruct x eqn:?
  | |- secure _ _ _ _ (if ?b then _ else _) _ => destruct b eqn:?
  | |- secure _ _ _ _ (match ?x with _ => _ end) _ => destruct x eqn:?
  | |- secure _ _ _ _ ((_ ≫= _) ≫= _) _ =>
      first [eapply (secure_bind _ _ _ _ _ _ session_safe) | eapply (secure_bind _ _ _ _ _ _ anything)]; [sec_all|intros ? ?]
  | |- secure _ _ _ _ (mret _ ≫= _) _ => eapply secure_bind; [apply ret_secure|intros ? ->]
  | |- secure _ _ _ _ (_ ≫= _) _ => eapply secure_bind; [sec_leaf|intros ? ?; cbn beta in *]
  | |- secure _ _ _ _ _ _ => eapply secure_mono; [|sec_leaf]; cbn beta; intros ? ?
  end
with sec_all := repeat sec_step; try done.
#[local] Ltac sec := sec_all.
#[local] Hint Resolve nowMs_secure NewSessionId_secure Sleep_secure check_secure lift_ledger_secure lift_result_secure
  ask_ledger_secure read_meter_event_secure close_event_secure provider_create_secure provider_launch_secure
  provider_get_secure provider_stop_secure probe_event_secure : secure.

Lemma meter_path_secure id : Secure (meter_path meterPrefix id) (fun p => meterPath meterPrefix id = Ok p).
Proof. apply lift_ledger_secure. Qed.
#[local] Hint Resolve meter_path_secure : secure.

Lemma read_meter_secure id : Secure (read_meter meterPrefix id) anything.
Proof. unfold read_meter. sec. Qed.
#[local] Hint Resolve read_meter_secure : secure.

Lemma initialize_meter_secure record runtimeId :
  Secure (initialize_meter meterPrefix record runtimeId) (fun _ => nonempty runtimeId = true).
Proof.
  unfold initialize_meter. eapply secure_bind; [sec_leaf|]. intros u Hc. cbn beta in Hc. breflect.
  eapply secure_bind; [sec_leaf|]. intros p Hp. eapply secure_bind; [sec_leaf|]. intros t _.
  eapply secure_bind; [apply create_event_secure|intros created _; sec].
  split; [|done]. split; [done|]. split; cbn; lia.
Qed.
#[local] Hint Resolve initialize_meter_secure : secure.

Lemma close_session_meter_secure record : Secure (close_session_meter meterPrefix record) anything.
Proof. unfold close_session_meter. sec. Qed.
#[local] Hint Resolve close_session_meter_secure : secure.

Lemma normalized_secure : Secure normalized (fun o => forall l t, o = Some (l, t) -> ledger_safe l).
Proof.
  unfold normalized. sec. intros l' t' [= <- <-]. eapply normalize_safe; [done|]. auto.
Qed.
#[local] Hint Resolve normalized_secure : secure.

Lemma current_session_secure v k : Secure (current_session v k) (fun o => forall r, o = Some r -> session_safe r).
Proof. unfold current_session. sec. intros r Hr. repeat case_match; simplify_eq. eapply latest_safe; [|done]. eauto. Qed.
Lemma session_by_id_secure id : Secure (session_by_id id) (fun o => forall r, o = Some r -> session_safe r).
Proof.
  unfold session_by_id. sec. intros r Hr. repeat case_match; simplify_eq.
  eapply ledger_safe_get; [|done]. eauto.
Qed.
#[local] Hint Resolve current_session_secure session_by_id_secure : secure.

Lemma assert_session_meter_secure record : Secure (assert_session_meter meterPrefix record) anything.
Proof. unfold assert_session_meter. sec. Qed.
#[local] Hint Resolve assert_session_meter_secure : secure.
Lemma assert_forwardable_secure record : Secure (assert_forwardable meterPrefix record) anything.
Proof. unfold assert_forwardable. sec. Qed.
Lemma assert_meter_forwardable_secure record : Secure (assert_meter_forwardable meterPrefix record) anything.
Proof. unfold assert_meter_forwardable. sec. Qed.
#[local] Hint Resolve assert_forwardable_secure assert_meter_forwardable_secure : secure.

(** The session of a charge is the visitor's own, ready and identified. *)
Record owned (id v : string) (k : SandboxKind) (r : SessionRecord) : Prop := {
  owned_id : sr_id r = id; owned_visitor : sr_visitorHash r = v; owned_kind : sr_kind r = k;
  owned_safe : session_safe r; owned_identified : identified r; owned_ready : sr_status r = ready;
}.

Lemma forwardable_by_id_secure id v k : Secure (forwardable_by_id meterPrefix id v k) (owned id v k).
Proof.
  unfold forwardable_by_id. eapply secure_bind; [sec_leaf|]. intros o Ho. cbn beta in Ho.
  destruct o as [[l t]|]; [|apply secure_raise]. destruct (om_get (sessions l) id) as [r|] eqn:Hr; [|apply secure_raise].
  destruct (ledger_safe_get _ l id r (Ho _ _ eq_refl) Hr) as [Hid Hs].
  eapply secure_bind; [sec_leaf|]. intros u Hc. cbn beta in Hc. breflect. sec. split; try done. by apply Hs.
Qed.
#[local] Hint Resolve forwardable_by_id_secure : secure.

Lemma update_session_secure id f : edit_safe f -> Secure (update_session id f) session_safe.
Proof. intros Hf. unfold update_session. eapply secure_bind; [by apply transact_secure|]. intros [r b] Hr. by apply secure_ret. Qed.
Lemma update_fenced_secure id al rl f : edit_safe f -> Secure (update_fenced id al rl f) (fun x => session_safe x.1).
Proof. intros Hf. by apply transact_secure. Qed.
Lemma reserve_session_secure id v ip k :
  Secure (reserve_session (MkReserve id v ip k (providerName id))) (fun x => session_safe x.1).
Proof. by apply transact_secure. Qed.
#[local] Hint Resolve update_session_secure update_fenced_secure reserve_session_secure : secure.

Lemma future_secure v : Secure (future v) anything.
Proof. unfold future. sec. Qed.
Lemma stop_or_observe_secure name : Secure (stop_or_observe name) anything.
Proof. unfold stop_or_observe. sec. Qed.
#[local] Hint Resolve future_secure stop_or_observe_secure : secure.

Lemma failClosed_secure {A} record (Q : A -> Prop) : Secure (failClosed limits meterPrefix record) Q.
Proof.
  unfold failClosed. eapply (secure_bind _ _ _ _ _ _ anything); [sec|intros _ _].
  eapply secure_bind; [sec_leaf|intros outcome _]. eapply secure_bind; [|intros _ _; apply secure_raise].
  eapply update_fenced_secure, after_stop_safe. done.
Qed.
#[local] Hint Resolve failClosed_secure : secure.

Lemma probe_request_secure record view method path body :
  Secure (providerRequest new_URL Probing record view method path body) anything.
Proof. unfold providerRequest. sec. Qed.
#[local] Hint Resolve probe_request_secure : secure.

Lemma probe_secure record view :
  session_safe record -> Secure (probe meterPrefix new_URL record view) (fun o => forall r, o = Some r -> session_safe r).
Proof.
  intros [Hm _ _ _]. unfold probe. rewrite (bool_decide_true _ Hm).
  eapply secure_bind; [sec_leaf|intros response _]. destruct (rs_ok response); [|by apply secure_ret].
  eapply secure_bind; [sec_leaf|intros value _]. eapply secure_bind; [sec_leaf|intros runtimeId _].
  eapply secure_bind; [sec_leaf|intros identityResponse _]. destruct (rs_ok identityResponse); [|by apply secure_ret].
  eapply secure_bind; [sec_leaf|intros identity _]. eapply secure_bind; [sec_leaf|intros u Hn]. cbn beta in Hn.
  eapply secure_bind; [by eapply update_fenced_secure, promote_safe|]. intros x Hx. apply secure_ret. by intros r [= <-].
Qed.
Lemma probeReady_secure record view : session_safe record -> Secure (probeReady meterPrefix new_URL record view) session_safe.
Proof.
  intros Hs. unfold probeReady. eapply secure_bind; [by apply secure_attempt, probe_secure|].
  intros [[r|]|] H; apply secure_ret; [by apply H|done..].
Qed.
#[local] Hint Resolve probeReady_secure : secure.

Lemma reconcile_secure record : session_safe record -> Secure (reconcile limits meterPrefix new_URL record) session_safe.
Proof. intros Hs. unfold reconcile. sec. Qed.
#[local] Hint Resolve reconcile_secure : secure.

Lemma poll_secure rounds deadline record latest :
  session_safe latest -> Secure (poll limits meterPrefix new_URL rounds deadline record latest) session_safe.
Proof. revert latest. induction rounds as [|n IH]; intros latest Hs; cbn [poll]; sec. Qed.
Lemma pollReady_secure record d : session_safe record -> Secure (pollReady limits meterPrefix new_URL record d) session_safe.
Proof. intros Hs. unfold pollReady. eapply secure_bind; [sec_leaf|intros t _]. by apply poll_secure. Qed.
#[local] Hint Resolve pollReady_secure : secure.

(** ** The public methods *)

Lemma current_secure v k : Secure (SessionBroker.current limits meterPrefix new_URL v k) anything.
Proof. unfold SessionBroker.current. sec. Qed.
Lemma launch_secure id k record : session_safe record -> Secure (launch limits meterPrefix gatewayToken new_URL id k record) anything.
Proof. intros Hs. unfold launch. sec. Qed.
#[local] Hint Resolve launch_secure : secure.
Lemma start_secure v ip k expected :
  Secure (start limits meterPrefix providerName gatewayToken new_URL v ip k expected) anything.
Proof. unfold start. sec. Qed.
#[local] Hint Resolve start_secure : secure.
Lemma reset_secure v ip k expected :
  Secure (reset limits meterPrefix providerName gatewayToken new_URL v ip k expected) anything.
Proof. unfold reset. sec. Qed.

(** A charged session, with the credit of its request. *)
Definition weight (id : string) (n : Z) : Z :=
  match acc with OfSession weigh _ sid => if bool_decide (id = sid) then weigh n else 0 | OfSandbox _ _ => 0 end.
(** The credit of a request to the sandbox of a session, at an origin. *)
Definition rent (r : SessionRecord) (origin : string) : Z :=
  match acc with
  | OfSession _ _ _ => 0
  | OfSandbox name o => Z.b2z (bool_decide (sr_providerName r = name) && bool_decide (origin = o))
  end.
Abbreviation Obeys := (obeys (allowed limits meterPrefix providerName) (sane providerName) (earn acc) (spend acc)).

Lemma weight_nonneg id n : 0 <= n -> 0 <= weight id n.
Proof. unfold weight. destruct acc; [|done]. case_bool_decide; [by apply acc_ok|done]. Qed.
Lemma rent_nonneg r origin : 0 <= rent r origin.
Proof. unfold rent. destruct acc; [done|]. by destruct (_ && _). Qed.
Lemma request_price id v k charged origin method path body :
  spend acc (Fetch (Proxying id v k) charged origin method path body) =
  weight id (mutations_in k method path body) + rent charged origin.
Proof. unfold spend, cost_of, weight, rent. destruct acc; cbn; lia. Qed.
(** A provider that shows the sandbox running pays for one request there. *)
Lemma rent_earned r view origin :
  pv_status view = "running" -> pv_domain view = Some origin ->
  earn acc (ProviderGet (sr_providerName r)) (Ok view) = rent r origin.
Proof.
  intros Hs Hd. unfold earn, rent, runs_at. destruct acc; [done|]. cbn. rewrite Hs, Hd. cbn. rewrite andb_true_r.
  f_equal. f_equal. apply bool_decide_ext. split; [by intros [= ->]|by intros ->].
Qed.
Lemma view_earned_nonneg name view : 0 <= earn acc (ProviderGet name) view.
Proof. cbn. destruct acc, view; try lia. destruct (runs_at _ _ _); cbn; lia. Qed.

Lemma charge_session_obeys id v k n c :
  0 <= c ->
  Obeys c (charge_session meterPrefix id v k n)
    (fun r d => match r with Ok a => owned id v k a /\ 0 <= n /\ c + weight id n <= d | Err _ => c <= d end).
Proof.
  intros Hc. unfold charge_session.
  assert (Hup : forall (r : Prelude.result failure SessionRecord) d d', d <= d' ->
    match r with Ok a => owned id v k a /\ 0 <= n /\ c + weight id n <= d | Err _ => c <= d end ->
    match r with Ok a => owned id v k a /\ 0 <= n /\ c + weight id n <= d' | Err _ => c <= d' end)
    by (intros [r|e] d d' Hd; [intros (? & ? & ?); split_and!; [done|done|lia]|lia]).
  eapply obeys_secure; [done|apply check_secure|exact Hup| |intros; cbn; lia]. intros u Hn. cbn beta in Hn. apply andb_true_iff in Hn as [_ Hn%Z.leb_le].
  eapply obeys_secure; [lia|apply forwardable_by_id_secure|exact Hup| |intros; cbn; lia]. intros s Ho.
  rewrite (safe_metered _ _ (owned_safe _ _ _ _ Ho)). cbn.
  eapply obeys_secure; [lia|apply meter_path_secure|exact Hup| |intros; cbn; lia]. intros p _. cbn.
  pose proof (weight_nonneg id n Hn). unfold weight in *. rewrite (owned_id _ _ _ _ Ho).
  split; [done|]. split; [lia|]. intros [[]|e] _; cbn; [|split; [by destruct acc|destruct acc; lia]].
  split; [destruct acc; [done|lia]|]. split_and!; [done|done|unfold weight; destruct acc; lia].
Qed.

Lemma proxy_cost_Ok kind id method path body n :
  proxy_cost kind id method path body = Ok n -> n = mutations_in kind method path body.
Proof.
  unfold proxy_cost, mutations_in. intros (_ & _ & (_ & _ & (_ & _ & H)%bind_Ok_inv)%bind_Ok_inv)%bind_Ok_inv.
  case_bool_decide; [|by apply Ok_inj in H]. destruct body as [[l [value|]]|]; [| |done]; cbn in *.
  - destruct (_ && _); [by apply validateRpc_Ok in H as [-> _]|by apply Ok_inj in H].
  - destruct (_ && _); [done|by apply Ok_inj in H].
Qed.

(** *** What a visitor reads *)

(** No field of the value, however deep, is an address of the sandbox. *)
Fixpoint hides (id : string) (value : json) : Prop :=
  match value with
  | JArr l => (fix go l := match l with [] => True | v :: l' => hides id v /\ go l' end) l
  | JObj fields =>
      (fix go fields := match fields with
                        | [] => True
                        | (k, v) :: rest => k <> text "wsUrl" /\ (k = text "rpcUrl" -> v = JStr (text "sandbox:" ++ text id)) /\
                                            hides id v /\ go rest
                        end) fields
  | _ => True
  end.

Lemma cleanGuided_hides id value : hides id (cleanGuided id value).
Proof.
  induction value as [| | | |l IH|fields IH] using json_induction; try done; cbn.
  - induction IH as [|v l' Hv _ IHl]; [done|]. by split.
  - induction IH as [|[k v] l' Hv _ IHl]; [done|]. cbn. destruct (_ || _) eqn:Hk; [done|].
    apply orb_false_iff in Hk as [Hk _]. breflect.
    split_and!; [done|intros ->; by rewrite bool_decide_true|case_bool_decide; done|done].
Qed.

(** What a proxied answer shows: of a guided runtime, nothing of its
    addresses; of a wallet's manifest, the visitor's own route. *)
Definition shown (kind : SandboxKind) (id path : string) (value : json) : Prop :=
  match kind with
  | guided => hides id value
  | wallet => path = "/manifest" ->
      exists fields, value = JObj fields /\ prop fields "wsUrl" = None /\
        (prop fields "rpcUrl" = None \/ prop fields "rpcUrl" = Some (JStr (text ("/api/sandbox/wallet/" +:+ id +:+ "/rpc"))))
  end.

Lemma own_field_filter fields (keep : js_string * json -> bool) key :
  (forall v, keep (key, v) = false) -> own_field (List.filter keep fields) key = None.
Proof.
  intros Hk. induction fields as [|[k v] fields IH]; simpl; [done|]. destruct (keep (k, v)) eqn:Hkv; [|done].
  simpl. case_bool_decide; [subst; by rewrite Hk in Hkv|done].
Qed.
Lemma own_field_set fields key key' value :
  own_field (set_field fields key value) key' = if bool_decide (key = key') then Some value else own_field fields key'.
Proof.
  induction fields as [|[k v] fields IH]; simpl; [done|]. repeat (case_bool_decide; simpl); simplify_eq; try done.
  all: rewrite ?bool_decide_true, ?bool_decide_false by done; done.
Qed.

Lemma hosted_manifest_shown fields id charged : shown wallet id "/manifest" (hosted_manifest fields id charged).
Proof.
  intros _. eexists. split; [done|]. unfold prop. rewrite !own_field_set.
  split; [|right; by rewrite bool_decide_true].
  rewrite !bool_decide_false by (intros H; apply text_inj in H; discriminate). by apply own_field_filter.
Qed.

Lemma cleanError_shown kind id path value : shown kind id path (cleanError value).
Proof.
  assert (Hne : forall s, s <> "error" -> text "error" <> text s) by (by intros s Hs H%text_inj).
  destruct kind; cbn.
  - intros _. eexists. split; [done|]. split; [done|by left].
  - split_and!; [by apply (Hne "wsUrl")|intros H; by apply (Hne "rpcUrl") in H|done|done].
Qed.

Lemma proxy_answer_secure kind id path charged response :
  session_safe charged ->
  Secure (proxy_answer limits meterPrefix kind id path charged response) (fun x => shown kind id path x.2).
Proof.
  intros Hs. unfold proxy_answer. eapply secure_bind; [sec_leaf|intros value _]. cbv zeta.
  destruct (negb _); [apply secure_ret, cleanError_shown|]. destruct kind.
  - case_bool_decide; [subst|apply secure_ret; intros ?; contradiction].
    destruct (validateWalletManifest _ _) as [[[fields g] d]|]; [apply secure_ret, hosted_manifest_shown|apply failClosed_secure].
  - assert (Hclean : forall status, Secure (mret (status, cleanGuided id value)) (fun x : Z * json => shown guided id path x.2))
      by (intros status; apply secure_ret, cleanGuided_hides).
    case_bool_decide; [|case_bool_decide; [|apply Hclean]].
    + eapply (secure_bind _ _ _ _ _ _ anything); [|intros [?|?] _; [apply Hclean|apply failClosed_secure]].
      eapply secure_mono; [|apply (secure_attempt _ _ _ _ _ anything)]; [done|].
      eapply secure_bind; [apply lift_result_secure|]. intros g Hg. cbn beta in Hg.
      destruct g as [g|]; [|by apply secure_ret]. apply validateGuidedState_Ok in Hg. sec.
    + eapply secure_bind; [sec_leaf|intros item _]. case_match; [apply Hclean|apply failClosed_secure].
Qed.

Lemma providerRequest_obeys id v k charged view method path body c :
  owned id v k charged -> 0 <= c -> 0 <= weight id (mutations_in k method path body) ->
  (forall origin, pv_domain view = Some origin -> weight id (mutations_in k method path body) + rent charged origin <= c) ->
  Obeys c (providerRequest new_URL (Proxying id v k) charged view method path body) (fun _ d => 0 <= d).
Proof.
  intros Ho Hc Hw Hpay. unfold providerRequest. destruct (pv_domain view) as [domain|]; [|done].
  assert (Hup : forall (r : Prelude.result failure Response) d d', d <= d' -> 0 <= d -> 0 <= d') by (intros; lia).
  eapply obeys_secure; [done|apply check_secure|exact Hup| |intros; cbn; lia]. intros u Hdom. cbn beta in Hdom.
  assert (Hrec : origin_recorded charged domain).
  { unfold origin_recorded. destruct (sr_providerDomain charged) as [d|]; [|done]. unfold nonempty in Hdom.
    destruct (decide (d = "")), (decide (d = domain)); [by left..|by right|exfalso].
    by rewrite !(bool_decide_false (d = _)), andb_false_r in Hdom. }
  clear Hdom. destruct (new_URL _ _) as [[[origin pathname] search]|]; [|cbn; lia].
  eapply obeys_secure; [lia|apply check_secure|exact Hup| |intros; cbn; lia]. intros u' Hurl. cbn beta in Hurl.
  breflect. subst origin pathname. specialize (Hpay _ eq_refl). pose proof (rent_nonneg charged domain).
  cbn [trigger_result obeys]. rewrite request_price. destruct Ho as [Hid Hv Hk Hs Hident Hready].
  split; [|split; [lia|intros x _; cbn; lia]].
  split; cbn; try done. by rewrite (safe_sandbox _ _ Hs), Hid.
Qed.

Definition proxied (kind : SandboxKind) (id path : string) (r : Prelude.result failure (Z * json)) (d : Z) : Prop :=
  0 <= d /\ match r with Ok x => shown kind id path x.2 | Err _ => True end.

Lemma secure_proxied kind id path c (m : svc (Z * json)) :
  0 <= c -> Secure m (fun x => shown kind id path x.2) -> Obeys c m (proxied kind id path).
Proof. intros Hc Hm. eapply obeys_mono; [apply Z.le_refl| |exact (Hm c Hc)]. intros r d d' ? [? Hr]. split; [lia|done]. Qed.

Lemma proxied_up kind id path r d d' : d <= d' -> proxied kind id path r d -> proxied kind id path r d'.
Proof. intros Hd [? ?]. split; [lia|done]. Qed.

(** Once the provider has shown its sandbox running. *)
Lemma proxy_send_obeys id v k method path body charged view c :
  owned id v k charged -> 0 <= weight id (mutations_in k method path body) -> 0 <= c ->
  (forall origin, pv_domain view = Some origin -> weight id (mutations_in k method path body) + rent charged origin <= c) ->
  Obeys c (response ← attempt (providerRequest new_URL (Proxying id v k) charged view method path body);
           match response with
           | Ok response => proxy_answer limits meterPrefix k id path charged response
           | Err (HttpFail status) => raise (HttpFail status)
           | Err _ => raise (HttpFail 503)
           end) (proxied k id path).
Proof.
  intros Ho Hw Hc Hpay. pose proof (owned_safe _ _ _ _ Ho) as Hs.
  apply obeys_bind. apply obeys_bind. eapply obeys_mono; [apply Z.le_refl| |by apply providerRequest_obeys].
  intros r d d' Hd Hd0. cbn. destruct r as [response|[status| |]]; [|split; [lia|done]..].
  apply secure_proxied; [lia|]. by apply proxy_answer_secure.
Qed.

Lemma proxy_forward_obeys id v k method path body charged c :
  owned id v k charged -> 0 <= weight id (mutations_in k method path body) <= c ->
  Obeys c (proxy_forward limits meterPrefix new_URL v k id method path body charged) (proxied k id path).
Proof.
  intros Ho Hw. pose proof (owned_safe _ _ _ _ Ho) as Hs. unfold proxy_forward.
  assert (Herr : forall (e : failure) d, 0 <= d -> proxied k id path (Err e) d) by (by intros; split).
  apply obeys_bind, obeys_bind. cbn [trigger_result obeys]. split; [done|]. split; [cbn; lia|]. intros x _.
  pose proof (view_earned_nonneg (sr_providerName charged) x) as He. split; [done|].
  destruct x as [view|e]; cbn [obeys spend]; [|apply Herr; lia].
  set (c' := c - 0 + _). assert (c <= c') by (subst c'; lia).
  destruct (one_of _ _).
  { apply secure_proxied; [lia|]. eapply secure_bind; [sec_leaf|intros _ _; apply secure_raise]. }
  eapply (obeys_secure _ _ _ _ _ _ _ (fun alive => alive = true -> pv_status view = "running"));
    [lia| |apply proxied_up| |intros; apply Herr; lia].
  { destruct (bool_decide _) eqn:Hrun; [breflect; by eapply secure_mono; [|apply future_secure]|by apply secure_ret]. }
  intros alive Hal. destruct (negb alive) eqn:Hna.
  { apply secure_proxied; [lia|]. eapply (secure_bind _ _ _ _ _ _ anything); [sec|intros _ _].
    eapply secure_bind; [sec_leaf|intros _ _; apply secure_raise]. }
  apply negb_false_iff in Hna. specialize (Hal Hna).
  eapply (obeys_secure _ _ _ _ _ _ _ anything); [lia|sec|apply proxied_up| |intros; apply Herr; lia]. intros u _.
  apply proxy_send_obeys; [done|lia|lia|]. intros origin Hor. subst c'. rewrite (rent_earned _ _ _ Hal Hor). lia.
Qed.

Lemma proxy_refused_secure {A} v id error (Q : A -> Prop) : Secure (proxy_refused limits v id error) Q.
Proof.
  unfold proxy_refused. destruct error as [|[]|]; try apply secure_raise.
  eapply secure_bind; [sec_leaf|intros o Ho]. destruct o as [r|]; [|apply secure_raise].
  eapply secure_bind; [sec_leaf|intros _ _]. eapply secure_bind; [sec_leaf|intros alive _].
  eapply (secure_bind _ _ _ _ _ _ anything); [sec|intros _ _; apply secure_raise].
Qed.

Lemma proxy_obeys v k id method path body :
  Obeys 0 (proxy limits meterPrefix new_URL v k id method path body) (proxied k id path).
Proof.
  unfold proxy. destruct (proxy_cost k id method path body) as [n|e] eqn:Hn; [|by split].
  apply proxy_cost_Ok in Hn as ->. cbn [lift_http].
  change (mret ?a ≫= ?f) with (f a). cbv beta. apply obeys_bind, obeys_bind.
  eapply obeys_mono; [apply Z.le_refl| |by apply charge_session_obeys]. intros r d d' Hd Hr. cbn. destruct r as [charged|e].
  - destruct Hr as (Ho & Hn & Hw). pose proof (weight_nonneg id _ Hn). apply proxy_forward_obeys; [done|lia].
  - apply secure_proxied; [lia|]. apply proxy_refused_secure.
Qed.
End methods.

(** ** Theorems *)

(** A visitor's request to the broker, and what comes back. *)
Inductive request :=
  | AskCurrent (visitorHash : string) (kind : SandboxKind)
  | AskStart (visitorHash ipHash : string) (kind : SandboxKind) (expectedSessionId : option string)
  | AskReset (visitorHash ipHash : string) (kind : SandboxKind) (expectedSessionId : option string)
  | AskProxy (visitorHash : string) (kind : SandboxKind) (id method path : string) (body : option Body).
Inductive reply :=
  | SessionReply (r : Prelude.result failure PublicSession)
  | ProxyReply (kind : SandboxKind) (id path : string) (r : Prelude.result failure (Z * json)).

Section theorems.
Context (limits : Limits) (meterPrefix : string) (providerName gatewayToken : string -> string).
Context (new_URL : string -> string -> option (string * string * string)).

Definition session_reply (m : svc PublicSession) : prog event answer reply := bind m (fun r => Pure (SessionReply r)).
Definition broker_served (rq : request) : prog event answer reply :=
  match rq with
  | AskCurrent v k => session_reply (SessionBroker.current limits meterPrefix new_URL v k)
  | AskStart v ip k e => session_reply (start limits meterPrefix providerName gatewayToken new_URL v ip k e)
  | AskReset v ip k e => session_reply (reset limits meterPrefix providerName gatewayToken new_URL v ip k e)
  | AskProxy v k id method path body =>
      bind (proxy limits meterPrefix new_URL v k id method path body) (fun r => Pure (ProxyReply k id path r))
  end.
Definition starts (p : prog event answer reply) : Prop := exists rq, p = broker_served rq.
Definition initial : world := World None (fun _ => None) [] [].

(** The runs of the broker: any requests, interleaved in any way. *)
Definition broker_run (s : threads (event:=event) (answer:=answer)) : Prop :=
  rtc (thread_step (occurs limits) starts) (Threads initial []) s.

Definition reply_shown (r : reply) : Prop :=
  match r with ProxyReply k id path (Ok x) => shown k id path x.2 | _ => True end.

Context (limits_nonneg : 0 <= requestsTotal limits /\ 0 <= requestsPerMinute limits /\ 0 <= mutationsTotal limits).

Lemma served_obeys acc p :
  account_ok limits acc -> starts p ->
  obeys (allowed limits meterPrefix providerName) (sane providerName) (earn acc) (spend acc) 0 p
    (fun r c => reply_shown r /\ 0 <= c).
Proof.
  intros Hw [rq ->].
  assert (Hses : forall m, secure (allowed limits meterPrefix providerName) (sane providerName) (earn acc) (spend acc) m anything ->
    obeys (allowed limits meterPrefix providerName) (sane providerName) (earn acc) (spend acc) 0 (session_reply m)
      (fun r c => reply_shown r /\ 0 <= c)).
  { intros m Hm. apply obeys_bind. eapply obeys_mono; [apply Z.le_refl| |apply (Hm 0); lia]. intros r d d' Hd [? _].
    split; [done|lia]. }
  destruct rq as [v k|v ip k e|v ip k e|v k id method path body]; cbn [broker_served].
  - by apply Hses, current_secure.
  - by apply Hses, start_secure.
  - by apply Hses, reset_secure.
  - apply obeys_bind. eapply obeys_mono; [apply Z.le_refl| |by apply proxy_obeys].
    intros r d d' Hd [? Hr]. split; [by destruct r|lia].
Qed.

Lemma initial_good : good limits meterPrefix providerName initial.
Proof. split; [done|done|constructor]. Qed.

(** Every run: the world is good, and no account spends more than its funds:
    no session more than its meter has counted, no sandbox more than it was
    shown running. *)
Lemma broker_run_solvent acc s :
  account_ok limits acc -> broker_run s ->
  good limits meterPrefix providerName (th_world s) /\
  spent acc (th_world s) <= funds meterPrefix acc (th_world s) /\
  forall j i r, th_threads s !! j = Some (i, Pure r) -> reply_shown r.
Proof.
  intros Hacc Hr.
  destruct (solvent_reachable (allowed limits meterPrefix providerName) (sane providerName) (earn acc) (spend acc) (occurs limits)
    (good limits meterPrefix providerName) (fun w => funds meterPrefix acc w - spent acc w) starts (fun r c => reply_shown r /\ 0 <= c))
    with (w := initial) (ts := @nil (nat * prog event answer reply)) (c := 0) (s := s) as (Hg & Hs & Hp); try done.
  - intros i e w x w' Hgw Ha _ Ho.
    destruct (broker_occurs_good limits meterPrefix providerName _ _ _ _ _ Hgw Ha Ho) as [? ?].
    destruct (occurs_paid limits meterPrefix providerName _ _ _ _ _ _ Hacc Hgw Ha Ho) as [? ?]. split_and!; [done|done|lia].
  - intros p Hp. by apply served_obeys.
  - unfold spent, funds, meter_funds. cbn. destruct acc; [|done]. by destruct (meterPath meterPrefix sid).
  - cbn. lia.
  - split_and!; [done|lia|]. intros j i r Hj. by destruct (Hp j i r Hj) as (c & ? & _).
Qed.

Lemma funds_within total sid w bound :
  good limits meterPrefix providerName w -> (forall m, meter_within limits m -> total m <= bound) -> 0 <= bound ->
  meter_funds meterPrefix total sid w <= bound.
Proof.
  intros Hg Ht Hb. unfold meter_funds. destruct (meterPath _ _) as [path|]; [|done]. destruct (w_meters w path) as [m|] eqn:Hm; [|done].
  apply Ht. by eapply good_meters in Hm as [].
Qed.

(** The accounts of the two budgets. *)
Lemma requests_account sid : account_ok limits (OfSession (fun _ => 1) forwardedTotal sid).
Proof.
  split_and!; [done| | |done].
  - intros r n t m m' Hc. by apply charge_meter_Ok in Hc as (_ & _ & -> & _).
  - intros r m m' Hc. by apply close_meter_Ok in Hc as (_ & -> & _).
Qed.
Lemma mutations_account sid : account_ok limits (OfSession (fun n => n) mutationTotal sid).
Proof.
  split_and!; [done| | |done].
  - intros r n t m m' Hc. by apply charge_meter_Ok in Hc as (_ & _ & _ & -> & _).
  - intros r m m' Hc. by apply close_meter_Ok in Hc as (_ & _ & -> & _).
Qed.

Definition forwarded_for (sid : string) (w : world) : list forwarded :=
  List.filter (fun f => bool_decide (fw_id f = sid)) (w_sent w).
Definition mutations_of_request (f : forwarded) : Z := mutations_in (fw_kind f) (fw_method f) (fw_path f) (fw_body f).

Lemma spent_filter weigh total sid w : spent (OfSession weigh total sid) w = sumZ ((fun f => weigh (mutations_of_request f)) <$> forwarded_for sid w).
Proof.
  unfold spent, forwarded_for. induction (w_sent w) as [|f l IH]; [done|]. csimpl. rewrite IH. unfold cost_of, mutations_of_request.
  case_bool_decide; csimpl; lia.
Qed.
Lemma sumZ_ones {A} (l : list A) : sumZ ((fun _ => 1) <$> l) = Z.of_nat (length l).
Proof. induction l as [|a l IH]; csimpl; [done|]. rewrite IH. lia. Qed.

(** C18: Whatever requests of whatever visitors interleave, and whatever the
    stores, the provider and the sandboxes answer, no session is ever sent
    more requests than [requestsTotal], nor requests with more mutations in
    all than [mutationsTotal]. *)
Theorem session_budgets_hold s sid :
  broker_run s ->
  Z.of_nat (length (forwarded_for sid (th_world s))) <= requestsTotal limits /\
  sumZ (mutations_of_request <$> forwarded_for sid (th_world s)) <= mutationsTotal limits.
Proof.
  intros Hr. split.
  - destruct (broker_run_solvent _ s (requests_account sid) Hr) as (Hg & Hs & _). cbn [funds] in Hs.
    rewrite spent_filter, sumZ_ones in Hs. etrans; [exact Hs|]. apply funds_within; [done|by intros m []; lia|lia].
  - destruct (broker_run_solvent _ s (mutations_account sid) Hr) as (Hg & Hs & _). cbn [funds] in Hs.
    rewrite spent_filter in Hs. etrans; [exact Hs|]. apply funds_within; [done|by intros m []; lia|lia].
Qed.

Lemma broker_run_good s : broker_run s ->
  good limits meterPrefix providerName (th_world s) /\ forall j i r, th_threads s !! j = Some (i, Pure r) -> reply_shown r.
Proof. intros Hr. by destruct (broker_run_solvent _ s (requests_account "") Hr) as (Hg & _ & Hp). Qed.

(** What was sent to a sandbox at an origin, the provider has shown there. *)
Lemma sent_was_shown s f :
  broker_run s -> f ∈ w_sent (th_world s) ->
  exists view, (sr_providerName (fw_record f), view) ∈ w_views (th_world s) /\
    pv_status view = "running" /\ pv_domain view = Some (fw_origin f).
Proof.
  intros Hr Hf. destruct (broker_run_solvent (OfSandbox (sr_providerName (fw_record f)) (fw_origin f)) s I Hr) as (_ & Hs & _).
  cbn [funds] in Hs.
  assert (1 <= spent (OfSandbox (sr_providerName (fw_record f)) (fw_origin f)) (th_world s)) as Hone.
  { unfold spent. apply list_elem_of_split in Hf as (l1 & l2 & ->). rewrite fmap_app, fmap_cons, sumZ_app. cbn.
    rewrite !bool_decide_true by done. cbn.
    assert (Hnn : forall l, 0 <= sumZ (cost_of (OfSandbox (sr_providerName (fw_record f)) (fw_origin f)) <$> l)).
    { intros l. apply sumZ_nonneg, Forall_fmap, Forall_forall. intros g _. cbn. by destruct (_ && _). }
    pose proof (Hnn l1). pose proof (Hnn l2). cbn in *. lia. }
  assert (Hpos : 0 < sumZ ((fun v => Z.b2z (runs_at (sr_providerName (fw_record f)) (fw_origin f) v)) <$> w_views (th_world s))) by lia.
  clear -Hpos. induction (w_views (th_world s)) as [|[name view] l IH]; csimpl in Hpos; [lia|].
  destruct (runs_at _ _ (name, view)) eqn:Hrun.
  - unfold runs_at in Hrun. cbn in Hrun. breflect. subst. exists view. split; [left|done].
  - cbn in Hpos. destruct IH as (w & Hw & ?); [lia|]. exists w. by split; [right|].
Qed.

(** C19: A visitor's request is only ever forwarded for the session it names,
    reserved for that visitor and kind and ready, with a runtime whose genesis
    is no public network's and, for a wallet, with the genesis and the
    deployment domain its manifest was checked for; and it is sent to the
    sandbox named after that session: to an origin at which the provider has
    shown that very sandbox running, and which is the domain recorded for the
    session when there is one. *)
Theorem requests_reach_own_sandbox s f :
  broker_run s -> f ∈ w_sent (th_world s) ->
  sr_id (fw_record f) = fw_id f /\ sr_visitorHash (fw_record f) = fw_visitor f /\ sr_kind (fw_record f) = fw_kind f /\
  sr_status (fw_record f) = ready /\ identified (fw_record f) /\
  (forall domain, sr_providerDomain (fw_record f) = Some domain -> domain <> "" -> fw_origin f = domain) /\
  exists view, (providerName (fw_id f), view) ∈ w_views (th_world s) /\
    pv_status view = "running" /\ pv_domain view = Some (fw_origin f).
Proof.
  intros Hr Hf. destruct (sent_was_shown s f Hr Hf) as (view & Hv & Hrun & Hdom).
  apply broker_run_good in Hr as [Hg _]. pose proof (good_sent _ _ _ _ Hg) as Hsent. rewrite Forall_forall in Hsent.
  destruct (Hsent _ Hf) as [H1 H2 H3 H4 H5 H6 H7]. rewrite H5 in Hv. split_and!; try done; [|by exists view].
  intros domain Hd Hne. unfold origin_recorded in H7. rewrite Hd in H7. by destruct H7.
Qed.

End theorems.

(** ** A run: a wallet is started, its manifest read and a transaction sent *)

Definition ex_now : Z := 1771027200000.
Definition ex_id : string := "0123456789abcdef0123456789abcdef".
Definition ex_view : ProviderView := View "box" "running" (Some (ex_now + 3600000)) (Some "https://box.vercel.run").
Definition ex_url (path base : string) : option (string * string * string) := Some ("https://box.vercel.run", path, "").
Definition ex_response (record : SessionRecord) (path : string) : Response :=
  MkResponse 200 None true [100] true (Some
    (if bool_decide (path = "/health") then
       JObj [(text "ready", JBool true); (text "kind", JStr (text (sandbox_kind_text (sr_kind record))));
             (text "runtimeId", JStr (text "runtime")); (text "expiresAt", JStr (text (toISOString (sr_expiresAt record))))]
     else if bool_decide (path = "/manifest") then
       JObj [(text "schemaVersion", JNum (Int 1)); (text "kind", JStr (text "surfnet")); (text "runtimeId", JStr (text "runtime"));
             (text "programId", JStr (text PROGRAM_ID)); (text "genesisHash", JStr (text "local"));
             (text "deploymentDomainHex", JStr (replicate 64 48)); (text "wsUrl", JStr (text "wss://box"));
             (text "rpcUrl", JStr (text "https://box"))]
     else JObj [(text "jsonrpc", JStr (text "2.0"))])).

Definition ex_handler (e : event) (w : world) : answer e * world :=
  match e return answer e * world with
  | ReadClock => (ex_now, w)
  | NewSessionId => (ex_id, w)
  | Sleep => (tt, w)
  | ReadLedger => (Ok (w_ledger w), w)
  | Transact c =>
      match transaction_step (call_operation DEFAULT_LIMITS c) ex_now (default emptySessionLedger (w_ledger w)) with
      | Ok (r, l) => (Ok r, World (Some l) (w_meters w) (w_sent w) (w_views w))
      | Err c => (Err (ledger_failure c), w)
      end
  | ReadMeter path => (Ok (w_meters w path), w)
  | CreateMeter path m => match w_meters w path with None => (Ok true, set_meter path m w) | Some _ => (Ok false, w) end
  | ChargeMeter path snapshot n =>
      match w_meters w path with
      | Some m => match charge_meter DEFAULT_LIMITS snapshot n ex_now m with
                  | Ok m' => (Ok tt, set_meter path m' w)
                  | Err c => (Err (ledger_failure c), w)
                  end
      | None => (Err (LedgerFail busy), w)
      end
  | CloseMeter path record =>
      match w_meters w path with
      | Some m => match close_meter record m with
                  | Ok (Some m') => (Ok tt, set_meter path m' w)
                  | Ok None => (Ok tt, w)
                  | Err c => (Err (ledger_failure c), w)
                  end
      | None => (Err (LedgerFail busy), w)
      end
  | ProviderCreate _ => (Ok ex_view, w)
  | ProviderGet name => (Ok ex_view, add_view name ex_view w)
  | ProviderLaunch _ | ProviderStop _ => (Ok tt, w)
  | Fetch why record origin method path body =>
      (Ok (ex_response record path),
       match why with
       | Probing => w
       | Proxying id v k => add_sent (Forwarded id v k record origin method path body) w
       end)
  end.

Lemma broker_handler_occurs e w : occurs DEFAULT_LIMITS 0 e w (ex_handler e w).1 (ex_handler e w).2.
Proof.
  destruct e; cbn; try done; try (by split; [|left]); [| | |].
  - destruct (transaction_step _ _ _) as [[r l]|e] eqn:Ht; cbn; [left; eauto 8|right; eauto].
  - destruct (w_meters w path) eqn:Hm; cbn; [right; auto|left; auto].
  - unfold meter_written. destruct (w_meters w path) as [m|] eqn:Hm; cbn; [|right; eauto].
    destruct (charge_meter _ _ _ _ m) eqn:Hc; cbn; [left; eauto 8|right; eauto].
  - unfold meter_written. destruct (w_meters w path) as [m|] eqn:Hm; cbn; [|right; eauto].
    destruct (close_meter record m) as [[m'|]|] eqn:Hc; cbn; [left; exists m, (Some m'); eauto|left; exists m, None; eauto|right; eauto].
Qed.

Abbreviation ex_served := (broker_served DEFAULT_LIMITS "meters" (fun id => id) (fun id => id) ex_url).
Definition ex_requests : list request :=
  [AskStart "visitor" "ip" wallet None; AskProxy "visitor" wallet ex_id "GET" "/manifest" None;
   AskProxy "visitor" wallet ex_id "POST" "/rpc" (Some (MkBody 200 (Some ex_send)))].
Fixpoint serve_all (rqs : list request) (s : threads (event:=event) (answer:=answer) (W:=world) (R:=reply)) :=
  match rqs with
  | [] => s
  | rq :: rest =>
      let '(r, w) := run ex_handler (ex_served rq) (th_world s) in
      serve_all rest (Threads w (th_threads s ++ [(0%nat, Pure r)]))
  end.
Definition ex_end := serve_all ex_requests (Threads initial []).

Lemma serve_all_run rqs s :
  rtc (thread_step (occurs DEFAULT_LIMITS) (starts DEFAULT_LIMITS "meters" (fun id => id) (fun id => id) ex_url)) s (serve_all rqs s).
Proof.
  revert s. induction rqs as [|rq rqs IH]; intros [w ts]; cbn [serve_all th_world th_threads]; [done|].
  pose proof (run_from_start (occurs DEFAULT_LIMITS) (starts DEFAULT_LIMITS "meters" (fun id => id) (fun id => id) ex_url)
    ex_handler 0 (ex_served rq) w ts broker_handler_occurs ltac:(by exists rq)) as Hr.
  destruct (run _ _ _) as [r w']. etrans; [exact Hr|apply IH].
Qed.
Lemma ex_end_run : broker_run DEFAULT_LIMITS "meters" (fun id => id) (fun id => id) ex_url ex_end.
Proof. apply serve_all_run. Qed.
Lemma default_nonneg : 0 <= requestsTotal DEFAULT_LIMITS /\ 0 <= requestsPerMinute DEFAULT_LIMITS /\ 0 <= mutationsTotal DEFAULT_LIMITS.
Proof. cbn. lia. Qed.

Example session_budgets_witness :
  length (forwarded_for ex_id (th_world ex_end)) = 2%nat /\
  sumZ (mutations_of_request <$> forwarded_for ex_id (th_world ex_end)) = 1 /\
  sumZ (mutations_of_request <$> forwarded_for ex_id (th_world ex_end)) <= 120.
Proof.
  split; [vm_compute; reflexivity|]. split; [vm_compute; reflexivity|].
  exact (proj2 (session_budgets_hold DEFAULT_LIMITS "meters" (fun id => id) (fun id => id) ex_url default_nonneg ex_end ex_id ex_end_run)).
Defined.

Example requests_reach_own_witness :
  exists f, w_sent (th_world ex_end) !! 1%nat = Some f /\ sr_visitorHash (fw_record f) = "visitor" /\
            fw_origin f = "https://box.vercel.run" /\ sr_genesisHash (fw_record f) = Some (stored (text "local")).
Proof.
  destruct (w_sent (th_world ex_end) !! 1%nat) as [f|] eqn:Hf; [|vm_compute in Hf; discriminate].
  pose proof (requests_reach_own_sandbox DEFAULT_LIMITS "meters" (fun id => id) (fun id => id) ex_url default_nonneg ex_end f ex_end_run
    (list_elem_of_lookup_2 _ _ _ Hf)) as (_ & Hv & _ & _ & _ & Hd & _).
  exists f. split; [reflexivity|]. rewrite Hv. split; [|split; [apply Hd|]].
  all: vm_compute in Hf; injection Hf as <-; vm_compute; try reflexivity; discriminate.
Defined.

