(* ===== verification/Gateway.v ===== *)
(** * Hosted gateway: one sandbox's front door

    [HostedGateway] of [packages/hosted-gateway/src/server.mjs]: the process
    that starts a sandbox's runtime, pins the identity the runtime shows, and
    forwards the broker's requests to it, mutations one at a time.  Its methods
    are trees of events (Programs).  JavaScript runs from one [await] to the
    next without interruption: such a stretch of code is one event whose effect
    on the gateway is a function below, and reads the clock at most once; where
    a stretch is split into several events, more interleavings are allowed than
    the program has.

    Parameters: SHA-256 of a token and the URL parser. *)
From S2P Require Import Prelude Js TxBytes Utf8 Json RpcPolicy Programs.
Open Scope Z_scope.

(** ** Constants and data *)

Definition GATEWAY_PROGRAM_ID : js_string := text "2EpQ2iKz921Ce2rremdnFrqG15DQq3Y2rSXbgixceDQE".
Definition UPGRADEABLE_LOADER_ID : js_string := text "BPFLoaderUpgradeab1e11111111111111111111111".
Definition PUBLIC_GENESIS : list js_string :=
  text <$> ["5eykt4UsFv8P8NJdTREpY1vzqKqZKvdpKuc147dw2N9d"; "EtWTRABZaYq6iMfeYKouRu166VU2xqa1wcaWoxPkrZBG";
            "4uhcVJyU9pJkvQyS88uRDiswHXSCkY3zQawwpjk2NsNY"].
Definition GUIDED_ASSETS : list js_string := text <$> ["xstocks-test-kox"; "backpack-test-mu"; "ondo-test-ibm"].
Definition MAX_BODY_BYTES : Z := 32 * 1024.
Definition MAX_RUNTIME_WRITE_BYTES : Z := 4 * 1024.
Definition MAX_RESPONSE_BYTES : Z := 2 * 1024 * 1024.
Definition MAX_INFLIGHT : Z := 8.
Definition MAX_MUTATIONS : Z := 4.
Definition STARTUP_TIMEOUT_MS : Z := 30000.
Definition SESSION_MS : Z := 20 * 60000.

Inductive SandboxKind := wallet | guided.
Inductive Phase := starting | ready | expired | startup_failed | child_exited | identity_failed | stopped.
Inductive ChildState := no_child | running | signalled | exited.
#[global] Instance SandboxKind_eq_dec : EqDecision SandboxKind. Proof. solve_decision. Defined.
#[global] Instance Phase_eq_dec : EqDecision Phase. Proof. solve_decision. Defined.
#[global] Instance ChildState_eq_dec : EqDecision ChildState. Proof. solve_decision. Defined.

(** The configuration; the token is given by its digest. *)
Record config := Config { cf_kind : SandboxKind; cf_tokenDigest : string; cf_expiresAtMs : Z }.

(** [this.identity]; [None] is [null]. *)
Record identity := Identity {
  gi_runtimeId : option json; gi_genesisHash : option js_string; gi_domain : option js_string; gi_rpcUrl : option js_string;
}.

(** A request: its headers, the chunks of its body, whether the stream then
    ends, and what [JSON.parse] makes of the body. *)
Record Request := MkRequest {
  rq_authorization : option string; rq_method : string; rq_url : string; rq_contentLength : option string;
  rq_transferEncoding : option string; rq_contentType : option string;
  rq_chunks : list Z; rq_ended : bool; rq_json : option json;
}.
Record Response := MkResponse {
  rs_status : Z; rs_declared : option string; rs_chunks : list Z; rs_ended : bool; rs_json : option json;
}.
Definition rs_ok (r : Response) : bool := between 200 299 (rs_status r).

(** [HttpError] and [RpcPolicyError] by their status, or another error. *)
Inductive failure := HttpError (status : Z) | OtherError.
Abbreviation res := (Prelude.result failure).
Definition demand (b : bool) (status : Z) : res unit := require b (HttpError status).
Definition or_throw (b : bool) : res unit := require b OtherError.

(** ** Checks of texts and values *)

(** [plainRecord(value)] *)
Definition plainRecord (v : option json) : option (list (js_string * json)) :=
  match v with Some (JObj fields) => Some fields | _ => None end.
Definition field (fields : list (js_string * json)) (key : string) : option json := prop fields key.

(** [/^[A-Za-z0-9._:-]{3,128}$/.test(value)], which tests [String(value)] *)
Definition is_runtime_char (u : Z) : bool :=
  between 65 90 u || between 97 122 u || between 48 57 u || (u =? 46) || (u =? 95) || (u =? 58) || (u =? 45).
Definition RUNTIME_ID (v : option json) : bool :=
  let s := match v with Some v => js_String v | None => text "undefined" end in
  between 3 128 (len s) && forallb is_runtime_char s.
(** [/^[a-f0-9]{64}$/] *)
Definition HEX_32 (s : js_string) : bool := (len s =? 64) && forallb (fun u => between 48 57 u || between 97 102 u) s.
Definition one_of_texts (l : list js_string) (v : option json) : bool :=
  match v with Some (JStr s) => bool_decide (s ∈ l) | _ => false end.

(** [a === b] for parsed values: two objects are never the same. *)
Definition strict_eq (a b : option json) : bool :=
  match a, b with
  | None, None | Some JNull, Some JNull => true
  | Some (JBool x), Some (JBool y) => Bool.eqb x y
  | Some (JNum x), Some (JNum y) => bool_decide (x = y)
  | Some (JStr x), Some (JStr y) => bool_decide (x = y)
  | _, _ => false
  end.
Definition is_null (v : option json) : bool := match v with Some JNull => true | _ => false end.

(** [/^application\/json(?:\s*;\s*charset=utf-8)?$/i] on a header *)
Definition is_space (c : ascii) : bool :=
  let u := ascii_Z c in between 9 13 u || (u =? 32) || (u =? 160).
Fixpoint skip_spaces (l : list ascii) : list ascii :=
  match l with c :: rest => if is_space c then skip_spaces rest else l | [] => [] end.
Definition lower (c : ascii) : ascii := if between 65 90 (ascii_Z c) then ascii_of_N (Z.to_N (ascii_Z c + 32)) else c.
Definition exactContentType (header : option string) : bool :=
  let l := lower <$> chars (default "" header) in
  let prefix := chars "application/json" in
  bool_decide (take (length prefix) l = prefix)
  && match drop (length prefix) l with
     | [] => true
     | rest => match skip_spaces rest with
               | c :: rest' => bool_decide (c = ";"%char) && bool_decide (skip_spaces rest' = chars "charset=utf-8")
               | [] => false
               end
     end.

(** [/^\d+$/.test(text) && Number(text) <= maximum] *)
Definition declared_within (declared : option string) (maximum : Z) : bool :=
  match declared with
  | Some s => all_digits (chars s) && (BigInt (chars s) <=? maximum)
  | None => true
  end.

(** ** [base58Bytes] and [safeRpcUrl] *)

Definition BASE58_ALPHABET : list ascii := chars "123456789ABCDEFGHJKLMNPQRSTUVWXYZabcdefghijkmnopqrstuvwxyz".
Fixpoint index_of (l : list ascii) (u : Z) : option Z :=
  match l with
  | [] => None
  | c :: rest => if ascii_Z c =? u then Some 0 else Z.succ <$> index_of rest u
  end.
Fixpoint base58_number (number : Z) (s : js_string) : option Z :=
  match s with
  | [] => Some number
  | u :: rest => match index_of BASE58_ALPHABET u with Some d => base58_number (number * 58 + d) rest | None => None end
  end.
(** The bytes of a number, most significant first: 44 base58 digits are fewer
    than 34 bytes. *)
Fixpoint number_bytes (fuel : nat) (number : Z) (acc : bytes) : bytes :=
  match fuel with
  | O => acc
  | S fuel' => if number =? 0 then acc else number_bytes fuel' (number / 256) (number mod 256 :: acc)
  end.
Fixpoint leading_ones (s : js_string) : bytes :=
  match s with u :: rest => if u =? 49 then 0 :: leading_ones rest else [] | [] => [] end.
Definition base58Bytes (value : js_string) : res bytes :=
  or_throw (between 32 44 (len value)) ;;
  match base58_number 0 value with
  | None => Err OtherError
  | Some number =>
      let l := leading_ones value ++ number_bytes 34 number [] in
      or_throw (Nat.eqb (length l) 32) ;; Ok l
  end.

Record Url := MkUrl {
  url_protocol : string; url_hostname : string; url_port : string; url_pathname : string; url_username : string;
  url_password : string; url_search : string; url_hash : string; url_href : js_string;
}.

Section gateway.
Context (hashToken : string -> string) (new_URL : js_string -> option Url) (cf : config).

(** A port the parser returns is empty or all digits. *)
Definition safeRpcUrl (value : option json) : res js_string :=
  match new_URL (match value with Some v => js_String v | None => text "undefined" end) with
  | None => Err OtherError
  | Some url =>
      let port := BigInt (chars (url_port url)) in
      or_throw (bool_decide (url_protocol url = "http:") && bool_decide (url_hostname url = "127.0.0.1")
                && negb (bool_decide (url_port url = "")) && between 1 65535 port && bool_decide (url_pathname url = "/")
                && bool_decide (url_username url = "") && bool_decide (url_password url = "")
                && bool_decide (url_search url = "") && bool_decide (url_hash url = "")) ;;
      Ok (url_href url)
  end.

(** ** Reading bodies *)

Fixpoint overflows (maximum size : Z) (chunks : list Z) : bool :=
  match chunks with [] => false | c :: rest => (maximum <? size + c) || overflows maximum (size + c) rest end.
Definition readBody (maximum : Z) (rq : Request) : res unit :=
  demand (declared_within (rq_contentLength rq) maximum) 413 ;;
  demand (negb (overflows maximum 0 (rq_chunks rq))) 413 ;;
  or_throw (rq_ended rq).
Definition parseJson (rq : Request) : res json := match rq_json rq with Some v => Ok v | None => Err (HttpError 400) end.
Definition boundedResponse (r : Response) : res unit :=
  demand (declared_within (rs_declared r) MAX_RESPONSE_BYTES) 502 ;;
  demand (negb (overflows MAX_RESPONSE_BYTES 0 (rs_chunks r))) 502 ;;
  or_throw (rs_ended r).
Definition responseJson (r : Response) : res json := match rs_json r with Some v => Ok v | None => Err (HttpError 502) end.

Definition routes : list (string * string) :=
  match cf_kind cf with
  | wallet => [("GET /manifest", "manifest"); ("POST /faucet", "faucet"); ("POST /advance", "advance"); ("POST /rpc", "rpc")]
  | guided => [("GET /state", "state"); ("GET /receipt", "receipt"); ("POST /start", "start"); ("POST /step", "step")]
  end.
Definition route (method url : string) : option string := om_get routes (method +:+ " " +:+ url).

(** [(length && length !== '0') || transferEncoding] *)
Definition announces_body (rq : Request) : bool :=
  match rq_contentLength rq with Some s => negb (bool_decide (s = "")) && negb (bool_decide (s = "0")) | None => false end
  || match rq_transferEncoding rq with Some s => negb (bool_decide (s = "")) | None => false end.
Definition authorized (header : option string) : bool :=
  let candidate := match header with
                   | Some h => if bool_decide (take 7 (chars h) = chars "Bearer ") then unchars (drop 7 (chars h)) else ""
                   | None => ""
                   end in
  bool_decide (hashToken candidate = cf_tokenDigest cf).

(** A guided start request: exactly its three keys. *)
Definition start_request (fields : list (js_string * json)) : bool :=
  let keys := js_sort fields.*1 in
  Nat.eqb (length keys) 3 && bool_decide (js_join (text ",") keys = text "assetId,expectedRevision,runtimeId")
  && RUNTIME_ID (field fields "runtimeId")
  && match field fields "expectedRevision" with Some (JNum (Int z)) => isSafeInteger z && (0 <=? z) | _ => false end
  && one_of_texts GUIDED_ASSETS (field fields "assetId").

(** The method of an accepted RPC envelope, for the route [rpc]. *)
Definition read_request (r : string) (rq : Request) : res (option js_string) :=
  if bool_decide (rq_method rq = "POST") then
    demand (exactContentType (rq_contentType rq)) 415 ;;
    readBody (if bool_decide (r = "rpc") then MAX_BODY_BYTES else MAX_RUNTIME_WRITE_BYTES) rq ;;
    value ← parseJson rq;
    if bool_decide (r = "rpc") then
      match validateRpcEnvelope value with Ok (method, _) => Ok (Some method) | Err Refused => Err (HttpError 400) end
    else
      match plainRecord (Some value) with
      | None => Err (HttpError 400)
      | Some fields =>
          demand (negb (bool_decide (cf_kind cf = guided) && bool_decide (r = "start")) || start_request fields) 400 ;;
          Ok None
      end
  else demand (negb (announces_body rq)) 400 ;; Ok None.

Definition is_mutation (r : string) (envelope : option js_string) : bool :=
  bool_decide (r ∈ ["faucet"; "advance"; "start"; "step"])
  || bool_decide (r = "rpc") && bool_decide (envelope = Some (text "sendTransaction")).

(** ** The gateway's own state, and its uninterrupted stretches *)

(** A promise of the queue: the promise whose settling calls its operation,
    if it waits for one ([.then(operation, operation)]), and whether it has
    settled.  [result] and [result.then(() => undefined, ...)] settle together
    and are one. *)
Record promise := Promise { p_after : option nat; p_settled : bool }.

(** [this]; [mutationTail] is a promise, by its place among those created. *)
Record state := State {
  phase : Phase; runtimeId : option json; gw_identity : option identity; inflight : Z; mutationCount : Z;
  guidedStartClaimed : bool; closing : bool; child : ChildState; mutationTail : nat; promises : list promise;
}.
(** [Promise.resolve()] *)
Definition resolved : promise := Promise None true.
Definition initial_state : state := State starting (Some JNull) None 0 0 false false no_child 0 [resolved].

Definition set_phase (p : Phase) (g : state) : state :=
  State p (runtimeId g) (gw_identity g) (inflight g) (mutationCount g) (guidedStartClaimed g) (closing g) (child g)
    (mutationTail g) (promises g).
Definition set_gw_identity (i : option identity) (g : state) : state :=
  State (phase g) (runtimeId g) i (inflight g) (mutationCount g) (guidedStartClaimed g) (closing g) (child g)
    (mutationTail g) (promises g).
Definition set_inflight (n : Z) (g : state) : state :=
  State (phase g) (runtimeId g) (gw_identity g) n (mutationCount g) (guidedStartClaimed g) (closing g) (child g)
    (mutationTail g) (promises g).
Definition set_mutationCount (n : Z) (g : state) : state :=
  State (phase g) (runtimeId g) (gw_identity g) (inflight g) n (guidedStartClaimed g) (closing g) (child g)
    (mutationTail g) (promises g).
Definition set_promises (tail : nat) (l : list promise) (g : state) : state :=
  State (phase g) (runtimeId g) (gw_identity g) (inflight g) (mutationCount g) (guidedStartClaimed g) (closing g) (child g)
    tail l.
Definition set_claimed (g : state) : state :=
  State (phase g) (runtimeId g) (gw_identity g) (inflight g) (mutationCount g) true (closing g) (child g)
    (mutationTail g) (promises g).
Definition set_closing (g : state) : state :=
  State (phase g) (runtimeId g) (gw_identity g) (inflight g) (mutationCount g) (guidedStartClaimed g) true (child g)
    (mutationTail g) (promises g).
Definition set_child (c : ChildState) (g : state) : state :=
  State (phase g) (runtimeId g) (gw_identity g) (inflight g) (mutationCount g) (guidedStartClaimed g) (closing g) c
    (mutationTail g) (promises g).
Definition set_runtime (rid : option json) (i : option identity) (g : state) : state :=
  State (phase g) rid i (inflight g) (mutationCount g) (guidedStartClaimed g) (closing g) (child g)
    (mutationTail g) (promises g).

Definition stopChild (g : state) : state := match child g with running => set_child signalled g | _ => g end.
Definition fail (p : Phase) (g : state) : state :=
  if closing g || bool_decide (phase g ∈ [expired; startup_failed; child_exited; identity_failed]) then g
  else stopChild (set_phase p g).
Definition close (reason : Phase) (g : state) : state :=
  if closing g then g
  else stopChild ((if bool_decide (reason = expired) then fun g => g else set_phase reason) (set_closing g)).
Definition expire (g : state) : state := if closing g then g else close expired (set_phase expired g).
Definition fail_child (g : state) : state :=
  fail (if bool_decide (phase g = starting) then startup_failed else child_exited) (set_child exited g).

Inductive admission := Accepted (r : string) | Healthy (isReady : bool) (rid : option json) | Rejected (status : Z).

(** [handle] up to the reading of the body. *)
Definition admit_request (rq : Request) (now : Z) (g : state) : admission * state :=
  if negb (authorized (rq_authorization rq)) then (Rejected 401, g)
  else if cf_expiresAtMs cf <=? now then (Rejected 503, expire g)
  else if bool_decide (rq_method rq = "GET") && bool_decide (rq_url rq = "/health") then
    if announces_body rq then (Rejected 400, g)
    else if bool_decide (phase g = ready) || bool_decide (phase g = starting)
    then (Healthy (bool_decide (phase g = ready)) (runtimeId g), g) else (Rejected 503, g)
  else if negb (bool_decide (phase g = ready)) then (Rejected 503, g)
  else if MAX_INFLIGHT <=? inflight g then (Rejected 429, g)
  else match route (rq_method rq) (rq_url rq) with
       | None => (Rejected 404, g)
       | Some r => (Accepted r, set_inflight (inflight g + 1) g)
       end.

(** [operation] up to [forward]. *)
Definition begin_operation (r : string) (now : Z) (g : state) : res unit * state :=
  if negb (bool_decide (phase g = ready)) then (Err (HttpError 503), g)
  else if cf_expiresAtMs cf <=? now then (Err (HttpError 503), expire g)
  else if bool_decide (cf_kind cf = guided) && bool_decide (r = "start") then
    if guidedStartClaimed g then (Err (HttpError 409), g) else (Ok tt, set_claimed g)
  else (Ok tt, g).

(** [mutate] joins the queue: a promise after [mutationTail], which it becomes. *)
Definition join_queue (g : state) : res nat * state :=
  if MAX_MUTATIONS <=? mutationCount g then (Err (HttpError 429), g)
  else
    let mine := length (promises g) in
    (Ok mine, set_promises mine (promises g ++ [Promise (Some (mutationTail g)) false])
                (set_mutationCount (mutationCount g + 1) g)).
(** The operation of a promise may be called: what it waits for has settled. *)
Definition turn_has_come (g : state) (mine : nat) : bool :=
  match promises g !! mine with
  | Some (Promise (Some before) _) => match promises g !! before with Some p => p_settled p | None => false end
  | Some (Promise None _) => true
  | None => false
  end.
(** The operation has returned or thrown. *)
Definition settle (mine : nat) (g : state) : state :=
  set_promises (mutationTail g) (alter (fun p => Promise (p_after p) true) mine (promises g)) g.

(** [this.phase === 'ready' && this.now() < this.expiresAtMs] *)
Definition still_ready (now : Z) (g : state) : bool := bool_decide (phase g = ready) && (now <? cf_expiresAtMs cf).

(** [verifyRpc] sets the endpoint it is about to ask. *)
Definition with_rpcUrl (url : js_string) (g : state) : state :=
  set_gw_identity (Some match gw_identity g with
                        | Some i => Identity (gi_runtimeId i) (gi_genesisHash i) (gi_domain i) (Some url)
                        | None => Identity None None None (Some url)
                        end) g.
(** [{ ...this.identity, genesisHash, deploymentDomainHex, rpcUrl }] *)
Definition pin_chain (genesis domain url : js_string) (g : state) : state :=
  set_gw_identity (Some (Identity (match gw_identity g with Some i => gi_runtimeId i | None => None end)
                           (Some genesis) (Some domain) (Some url))) g.

(** ** Events *)

(** What is sent to the runtime: a request to its API, or an RPC call. *)
Inductive target := ToRuntime (r : string) (post : bool) | ToRpc (url : js_string) (method : js_string).
(** What the runtime takes as a mutation: a [POST] to its API, or a
    transaction sent to its chain. *)
Definition target_mutates (t : target) : bool :=
  match t with
  | ToRuntime _ post => post
  | ToRpc _ method => bool_decide (method = text "sendTransaction")
  end.

Inductive event :=
  | Admit (rq : Request)
  | ReleaseSlot
  | JoinQueue
  | AwaitTurn (mine : nat)
  | Settle (mine : nat)
  | LeaveQueue
  | Begin (r : string)
  | Send (t : target)
  | Receive
  | ReadIdentity
  | SetRpcUrl (url : js_string)
  | RestoreIdentity (previous : option identity)
  | PinChain (genesis domain url : js_string)
  | SetRuntime (rid : option json) (i : identity)
  | FailAs (p : Phase)
  | FailStarting
  | BecomeReady
  | ReadPhase
  | ReadClock
  | Deliver (r : string) (value : json)
  | Sleep
  | SpawnChild
  | ChildGone
  | ExpireNow
  | CloseAs (reason : Phase).

Definition answer (e : event) : Type :=
  match e with
  | Admit _ => admission
  | JoinQueue => res nat
  | Begin _ => res unit
  | Receive => res Response
  | ReadIdentity => option json * option identity
  | SetRpcUrl _ => option identity
  | ReadPhase => Phase
  | ReadClock => Z
  | Deliver _ _ => bool
  | SpawnChild => bool
  | _ => unit
  end.
Abbreviation gw := (call event answer failure).
Abbreviation ask e := (trigger_result (answer:=answer) (F:=failure) e (fun r => r)).
Abbreviation act e := (trigger (answer:=answer) (F:=failure) e).

Definition throw_unless (b : bool) : gw unit := if b then mret tt else raise OtherError.

(** ** Talking to the runtime *)

Definition upstream (t : target) : gw Response :=
  act (Send t) ;;
  response ← ask Receive;
  lift_result (boundedResponse response) ;;
  mret response.

(** [this.fetch(this.identity.rpcUrl, ...)] *)
Definition rpcUpstream (method : js_string) : gw Response :=
  i ← act ReadIdentity;
  match snd i with
  | Some (Identity _ _ _ (Some url)) => upstream (ToRpc url method)
  | _ => raise OtherError
  end.

(** [value?.name], and [value.name], which throws on [null] *)
Definition optional_field (v : option json) (name : string) : option json :=
  match v with Some (JObj fields) => field fields name | _ => None end.

Definition verify_chain (genesis : js_string) : gw unit :=
  response ← rpcUpstream (text "getGenesisHash");
  throw_unless (rs_ok response) ;;
  value ← lift_result (responseJson response);
  throw_unless (strict_eq (optional_field (Some value) "result") (Some (JStr genesis))) ;;
  program ← rpcUpstream (text "getAccountInfo");
  value ← lift_result (responseJson program);
  let account := optional_field (optional_field (Some value) "result") "value" in
  throw_unless (rs_ok program && strict_eq (optional_field account "executable") (Some (JBool true))
                && strict_eq (optional_field account "owner") (Some (JStr UPGRADEABLE_LOADER_ID))).
Definition verifyRpc (url genesis : js_string) : gw unit :=
  previous ← act (SetRpcUrl url);
  verified ← attempt (verify_chain genesis);
  match verified with
  | Ok _ => mret tt
  | Err e => act (RestoreIdentity previous) ;; raise e
  end.

(** What a manifest must show of a fresh wallet runtime. *)
Definition check_manifest (value : json) : res (option json * js_string * js_string * js_string) :=
  match plainRecord (Some value) with
  | None => Err OtherError
  | Some manifest =>
      match field manifest "genesisHash", field manifest "deploymentDomainHex" with
      | Some (JStr genesis), Some (JStr domain) =>
          or_throw (is_int (field manifest "schemaVersion") 1 && is_text (field manifest "kind") "surfnet"
                    && RUNTIME_ID (field manifest "runtimeId")
                    && strict_eq (field manifest "programId") (Some (JStr GATEWAY_PROGRAM_ID))
                    && negb (bool_decide (genesis ∈ PUBLIC_GENESIS)) && HEX_32 domain) ;;
          base58Bytes genesis ;;
          url ← safeRpcUrl (field manifest "rpcUrl");
          Ok (field manifest "runtimeId", genesis, domain, url)
      | _, _ => Err OtherError
      end
  end.
Definition discoverWallet : gw unit :=
  response ← upstream (ToRuntime "manifest" false);
  throw_unless (rs_ok response) ;;
  value ← lift_result (responseJson response);
  manifest ← lift_result (check_manifest value);
  let '(rid, genesis, domain, url) := manifest in
  verifyRpc url genesis ;;
  act (SetRuntime rid (Identity rid (Some genesis) (Some domain) (Some url))).

Definition check_idle (value : json) : res (option json) :=
  match plainRecord (Some value) with
  | None => Err OtherError
  | Some st =>
      or_throw (is_int (field st "schemaVersion") 4 && RUNTIME_ID (field st "runtimeId") && is_text (field st "status") "idle"
                && is_null (field st "asset") && is_null (field st "snapshot")) ;;
      Ok (field st "runtimeId")
  end.
Definition discoverGuided : gw unit :=
  response ← upstream (ToRuntime "state" false);
  throw_unless (rs_ok response) ;;
  value ← lift_result (responseJson response);
  rid ← lift_result (check_idle value);
  act (SetRuntime rid (Identity rid None None None)).

(** ** Checks of guided answers *)

(** The chain a snapshot shows, against what is pinned: [None] when the value
    has no snapshot; otherwise the chain and whether it is already pinned. *)
Definition check_guided (value : option json) (rid : option json) (pinned : option identity)
    : res (option (js_string * js_string * js_string * bool)) :=
  match plainRecord value with
  | None => Err OtherError
  | Some st =>
      let asset := field st "asset" in
      or_throw (is_int (field st "schemaVersion") 4 && strict_eq (field st "runtimeId") rid
                && (is_null asset || match plainRecord asset with
                                     | Some a => one_of_texts GUIDED_ASSETS (field a "id") | None => false end)) ;;
      match field st "snapshot" with
      | None | Some JNull => Ok None
      | Some (JObj snapshot) =>
          match field snapshot "genesisHash", pinned with
          | Some (JStr genesis), Some i =>
              or_throw (match plainRecord (field snapshot "asset") with
                        | Some a => strict_eq (field a "id") (optional_field asset "id") | None => false end
                        && strict_eq (field snapshot "dividendXProgram") (Some (JStr GATEWAY_PROGRAM_ID))
                        && negb (bool_decide (genesis ∈ PUBLIC_GENESIS))) ;;
              domain ← base58Bytes genesis;
              let domainHex := text (hex domain) in
              url ← safeRpcUrl (field snapshot "rpcUrl");
              match gi_genesisHash i with
              | None => Ok (Some (genesis, domainHex, url, false))
              | Some g =>
                  or_throw (bool_decide (g = genesis) && bool_decide (gi_domain i = Some domainHex)
                            && bool_decide (gi_rpcUrl i = Some url)) ;;
                  Ok (Some (genesis, domainHex, url, true))
              end
          | _, _ => Err OtherError
          end
      | Some _ => Err OtherError
      end
  end.
Definition validateGuidedState (value : option json) : gw unit :=
  now ← act ReadIdentity;
  checked ← lift_result (check_guided value (fst now) (snd now));
  match checked with
  | Some (genesis, domain, url, false) => verifyRpc url genesis ;; act (PinChain genesis domain url)
  | _ => mret tt
  end.

(** [value] is falsy in JavaScript. *)
Definition falsy (v : option json) : bool :=
  match v with
  | None | Some JNull | Some (JBool false) => true
  | Some (JStr s) => bool_decide (s = [])
  | Some (JNum (Int z)) => z =? 0
  | _ => false
  end.
Fixpoint validate_checkpoints (rid asset : option json) (checkpoints : list json) : gw unit :=
  match checkpoints with
  | [] => mret tt
  | checkpoint :: rest =>
      let snapshot := optional_field (Some checkpoint) "snapshot" in
      (if falsy snapshot then mret tt
       else validateGuidedState (Some (JObj (
              [(text "schemaVersion", JNum (Int 4))]
              ++ match rid with Some v => [(text "runtimeId", v)] | None => [] end
              ++ match asset with Some v => [(text "asset", v)] | None => [] end
              ++ match snapshot with Some v => [(text "snapshot", v)] | None => [] end)))) ;;
      validate_checkpoints rid asset rest
  end.
Definition validateGuidedReceipt (value : json) : gw unit :=
  now ← act ReadIdentity;
  match plainRecord (Some value) with
  | None => raise OtherError
  | Some receipt =>
      let asset := field receipt "asset" in
      throw_unless (is_int (field receipt "schemaVersion") 4 && strict_eq (field receipt "runtimeId") (fst now)
                    && match plainRecord asset with Some a => one_of_texts GUIDED_ASSETS (field a "id") | None => false end) ;;
      match field receipt "checkpoints" with
      | Some (JArr checkpoints) => validate_checkpoints (field receipt "runtimeId") asset checkpoints
      | _ => mret tt
      end
  end.

(** ** Forwarding *)

(** A manifest still shows what the gateway pinned. *)
Definition same_manifest (value : json) (pinned : option identity) : res unit :=
  match plainRecord (Some value), pinned with
  | Some manifest, Some i =>
      url ← safeRpcUrl (field manifest "rpcUrl");
      or_throw (strict_eq (field manifest "runtimeId") (gi_runtimeId i)
                && strict_eq (field manifest "genesisHash") (JStr <$> gi_genesisHash i)
                && strict_eq (field manifest "deploymentDomainHex") (JStr <$> gi_domain i)
                && bool_decide (Some url = gi_rpcUrl i)
                && strict_eq (field manifest "programId") (Some (JStr GATEWAY_PROGRAM_ID)))
  | _, _ => Err OtherError
  end.
Definition same_genesis (value : json) (pinned : option identity) : res unit :=
  match pinned with
  | Some i => or_throw (strict_eq (optional_field (Some value) "result") (JStr <$> gi_genesisHash i))
  | None => Err OtherError
  end.

Definition check_answer (r : string) (envelope : option js_string) (value : json) : gw unit :=
  (if bool_decide (r = "manifest") then i ← act ReadIdentity; lift_result (same_manifest value (snd i)) else mret tt) ;;
  (if bool_decide (cf_kind cf = guided) && bool_decide (r ∈ ["state"; "start"; "step"])
   then validateGuidedState (Some value) else mret tt) ;;
  (if bool_decide (cf_kind cf = guided) && bool_decide (r = "receipt") then validateGuidedReceipt value else mret tt) ;;
  (if bool_decide (r = "rpc") && bool_decide (envelope = Some (text "getGenesisHash"))
   then i ← act ReadIdentity; lift_result (same_genesis value (snd i)) else mret tt).

Definition forward (r : string) (post : bool) (envelope : option js_string) : gw (Z * json) :=
  response ← (if bool_decide (r = "rpc")
              then match envelope with Some method => rpcUpstream method | None => raise OtherError end
              else upstream (ToRuntime r post));
  lift_result (demand (between 200 599 (rs_status response)) 502) ;;
  value ← lift_result (responseJson response);
  checked ← attempt (if rs_ok response then check_answer r envelope value else mret tt);
  match checked with
  | Ok _ => mret (rs_status response, value)
  | Err _ => act (FailAs identity_failed) ;; raise (HttpError 503)
  end.

(** [try { return await result } finally { this.mutationCount -= 1 }] *)
Definition mutate {A} (operation : gw A) : gw A :=
  mine ← ask JoinQueue;
  act (AwaitTurn mine) ;;
  result ← attempt operation;
  act (Settle mine) ;;
  act LeaveQueue ;;
  lift_result result.

Definition operation (r : string) (post : bool) (envelope : option js_string) : gw (Z * json) :=
  ask (Begin r) ;; forward r post envelope.

(** The [try] of [handle] once a slot is reserved. *)
Definition serve (r : string) (rq : Request) : gw (Z * json) :=
  envelope ← lift_result (read_request r rq);
  let post := bool_decide (rq_method rq = "POST") in
  result ← (if is_mutation r envelope then mutate (operation r post envelope) else operation r post envelope);
  delivered ← act (Deliver r (snd result));
  if (delivered : bool) then mret result else raise (HttpError 503).

(** The status and the body of the response. *)
Definition handle (rq : Request) : prog event answer (Z * option json) :=
  Vis (Admit rq) (fun admitted =>
  match admitted with
  | Rejected status => Pure (status, None)
  | Healthy _ _ => Pure (200, None)
  | Accepted r =>
      bind (serve r rq) (fun served =>
      bind (match served with
            | Ok (status, value) => Pure (status, Some value)
            | Err (HttpError status) => Pure (status, None)
            | Err OtherError => Vis ReadPhase (fun p => Pure (if bool_decide (p = identity_failed) then 503 else 502, None))
            end) (fun response =>
      Vis ReleaseSlot (fun _ => Pure response)))
  end).

(** ** Starting, and ending *)

(** A round of [discover] that fails waits 100 of its 30000 milliseconds. *)
Definition rounds : nat := 301.
Fixpoint discover (n : nat) (deadline : Z) : gw unit :=
  match n with
  | O => act FailStarting
  | S n' =>
      p ← act ReadPhase;
      now ← act ReadClock;
      if bool_decide (p = starting) && (now <? deadline) then
        found ← attempt (match cf_kind cf with wallet => discoverWallet | guided => discoverGuided end);
        match found with
        | Ok _ => act BecomeReady
        | Err _ => act Sleep ;; discover n' deadline
        end
      else act FailStarting
  end.

Definition start_gateway : gw unit :=
  now ← act ReadClock;
  throw_unless (negb (cf_expiresAtMs cf <=? now) && negb (now + SESSION_MS <? cf_expiresAtMs cf)) ;;
  spawned ← act SpawnChild;
  if (spawned : bool) then
    t ← act ReadClock;
    discover rounds (t + STARTUP_TIMEOUT_MS)
  else act (FailAs startup_failed).

(** ** What an event does *)

(** What the world keeps a record of. *)
Inductive entry :=
  | Sent (t : target)
  | QueueJoined (mine : nat)
  | TurnTaken (mine : nat)
  | OperationSettled (mine : nat)
  | SlotTaken
  | SlotReleased
  | QueueLeft
  | OperationBegun (r : string)
  | ReadyReached
  | Delivered (r : string) (value : json).
Record world := World { gw_state : state; gw_log : list entry }.
Definition become (g : state) (w : world) : world := World g (gw_log w).
Definition noted (l : list entry) (w : world) : world := World (gw_state w) (gw_log w ++ l).

Definition gateway_step (i : nat) (e : event) (w : world) : answer e -> world -> Prop :=
  let g := gw_state w in
  match e return answer e -> world -> Prop with
  | Admit rq => fun x w' => exists now, x = fst (admit_request rq now g) /\
      w' = noted (match x with Accepted _ => [SlotTaken] | _ => [] end) (become (snd (admit_request rq now g)) w)
  | ReleaseSlot => fun _ w' => w' = noted [SlotReleased] (become (set_inflight (inflight g - 1) g) w)
  | JoinQueue => fun x w' => x = fst (join_queue g) /\
      w' = noted (match x with Ok mine => [QueueJoined mine] | Err _ => [] end) (become (snd (join_queue g)) w)
  | AwaitTurn mine => fun _ w' => turn_has_come g mine = true /\ w' = noted [TurnTaken mine] w
  | Settle mine => fun _ w' => w' = noted [OperationSettled mine] (become (settle mine g) w)
  | LeaveQueue => fun _ w' => w' = noted [QueueLeft] (become (set_mutationCount (mutationCount g - 1) g) w)
  | Begin r => fun x w' => exists now, x = fst (begin_operation r now g) /\
      w' = noted (if is_ok x then [OperationBegun r] else []) (become (snd (begin_operation r now g)) w)
  | Send t => fun _ w' => w' = noted [Sent t] w
  | Receive | Sleep | ReadClock => fun _ w' => w' = w
  | ReadIdentity => fun x w' => x = (runtimeId g, gw_identity g) /\ w' = w
  | SetRpcUrl url => fun x w' => x = gw_identity g /\ w' = become (with_rpcUrl url g) w
  | RestoreIdentity previous => fun _ w' => w' = become (set_gw_identity previous g) w
  | PinChain genesis domain url => fun _ w' => w' = become (pin_chain genesis domain url g) w
  | SetRuntime rid i => fun _ w' => w' = become (set_runtime rid (Some i) g) w
  | FailAs p => fun _ w' => w' = become (fail p g) w
  | FailStarting => fun _ w' => w' = become (if bool_decide (phase g = starting) then fail startup_failed g else g) w
  | BecomeReady => fun _ w' => w' = noted [ReadyReached] (become (if bool_decide (phase g = starting) then set_phase ready g else g) w)
  | ReadPhase => fun x w' => x = phase g /\ w' = w
  | Deliver r value => fun x w' => exists now, x = still_ready now g /\
      w' = noted (if still_ready now g then [Delivered r value] else []) w
  | SpawnChild => fun x w' => w' = if x then become (set_child running g) w else w
  | ChildGone => fun _ w' => w' = become (fail_child g) w
  | ExpireNow => fun _ w' => w' = become (expire g) w
  | CloseAs reason => fun _ w' => w' = become (close reason g) w
  end.
End gateway.
