(* ===== verification/GatewayProps.v ===== *)
(** * Hosted gateway: the theorems

    Any number of requests, the expiry timer, the exit of the runtime and the
    closing of the gateway interleave at every [await]; nothing is assumed of
    the runtime's answers.  Mutations reach the runtime one at a time, in the
    order in which they joined the queue; a guided runtime is started at most
    once; slots are bounded and none is lost; an ended gateway stays ended and
    delivers nothing more; and a wallet's identity never changes once the
    gateway was ready. *)
From S2P Require Import Prelude Js TxBytes Utf8 Json RpcPolicy Programs Credits Gateway.
Open Scope Z_scope.

Abbreviation gw := (call event answer failure).

(** ** Credits

    A weight for each thing a program may hold: a slot, a place in the queue,
    the turn, the claim to start a guided runtime, the discovery of a wallet's
    identity, and for each promise of the queue the wait for it and the duty to
    settle it. *)
Record weights := Weights {
  w_slot : Z; w_queue : Z; w_turn : Z; w_claim : Z; w_discovery : Z; w_wait : nat -> Z; w_hold : nat -> Z;
}.
Definition none (_ : nat) : Z := 0.
Definition only (p q : nat) : Z := if bool_decide (q = p) then 1 else 0.
Definition nonneg (k : weights) : Prop :=
  (0 <= w_slot k /\ 0 <= w_queue k /\ 0 <= w_turn k /\ 0 <= w_claim k /\ 0 <= w_discovery k) /\
  forall p, 0 <= w_wait k p /\ 0 <= w_hold k p.

(** The weights of a credit, by computation. *)
#[local] Ltac weighs := split; [cbn; lia|intros ?; cbn; unfold none; lia].

Section gateway.
Context (hashToken : string -> string) (new_URL : js_string -> option Url) (cf : config) (k : weights) (k_ok : nonneg k).

Definition claims (r : string) : bool := bool_decide (cf_kind cf = guided) && bool_decide (r = "start").
Definition claim (r : string) : Z := if claims r then w_claim k else 0.
Definition discovery : Z := if bool_decide (cf_kind cf = wallet) then w_discovery k else 0.
Definition send_turn (t : target) : Z := if target_mutates t then w_turn k else 0.
Definition send_claim (t : target) : Z := match t with ToRuntime r _ => claim r | ToRpc _ _ => 0 end.

Definition earn (e : event) : answer e -> Z :=
  match e return answer e -> Z with
  | Admit _ => fun x => match x with Accepted _ => w_slot k | _ => 0 end
  | JoinQueue => fun x => match x with Ok mine => w_queue k + w_wait k mine | Err _ => 0 end
  | AwaitTurn mine => fun _ => w_turn k + w_hold k mine
  | Begin r => fun x => if is_ok x then claim r else 0
  | Send t => fun _ => send_turn t
  | SetRpcUrl _ | RestoreIdentity _ | SetRuntime _ _ | PinChain _ _ _ => fun _ => discovery
  | _ => fun _ => 0
  end.
Definition spend (e : event) : Z :=
  match e with
  | ReleaseSlot => w_slot k
  | LeaveQueue => w_queue k
  | AwaitTurn mine => w_wait k mine
  | Settle mine => w_turn k + w_hold k mine
  | Send t => send_turn t + send_claim t
  | SetRpcUrl _ | RestoreIdentity _ | SetRuntime _ _ | PinChain _ _ _ | BecomeReady => discovery
  | _ => 0
  end.
Definition ended (p : Phase) : bool := negb (bool_decide (p ∈ [starting; ready])).
(** A phase that is set by name is one of an ended gateway. *)
Definition event_ok (e : event) : Prop := match e with FailAs p | CloseAs p => ended p = true | _ => True end.
(** A request that is accepted has the route of its method and URL. *)
Definition routed (e : event) : answer e -> Prop :=
  match e return answer e -> Prop with
  | Admit rq => fun x => match x with Accepted r => route cf (rq_method rq) (rq_url rq) = Some r | _ => True end
  | _ => fun _ => True
  end.
Abbreviation Obeys := (obeys event_ok routed earn spend).
Abbreviation Keeps c m := (Obeys c%Z m (fun _ d => d = c%Z)).

(** A program that ends with the credit it began with, if it has [least]. *)
Definition even {A} (least : Z) (m : gw A) : Prop := forall c, 0 <= least <= c -> Keeps c m.


(** [keep] runs through a program that only keeps its credit. *)
#[local] Ltac keep_step :=
  lazymatch goal with
  | |- obeys _ _ _ _ _ (_ ≫= _) _ => apply credit_bind; [|intros ?]
  | |- obeys _ _ _ _ _ (attempt _) _ => apply credit_attempt
  | |- obeys _ _ _ _ _ (trigger _) _ => apply credit_event; [done|cbn; lia|done]
  | |- obeys _ _ _ _ _ (trigger_result _ _) _ => apply credit_event; [done|cbn; lia|done]
  | |- obeys _ _ _ _ _ (raise _) _ => reflexivity
  | |- obeys _ _ _ _ _ (mret _) _ => reflexivity
  | |- obeys _ _ _ _ _ (lift_result _) _ => reflexivity
  | |- obeys _ _ _ _ _ (throw_unless ?b) _ => destruct b; reflexivity
  | |- obeys _ _ _ _ _ (if ?b then _ else _) _ => destruct b eqn:?
  | |- obeys _ _ _ _ _ (match ?x with _ => _ end) _ => destruct x eqn:?
  | |- obeys _ _ _ _ _ _ _ => solve [eauto with lia gateway]
  end.
#[local] Ltac keep := intros c Hc; repeat keep_step.

Lemma upstream_even t : target_mutates t = false -> send_claim t = 0 -> even 0 (upstream t).
Proof.
  intros Ht Hs. unfold upstream. intros c Hc.
  apply credit_bind; [apply credit_event; [done|cbn; unfold send_turn; rewrite Ht, Hs; lia|intros x; cbn; unfold send_turn; rewrite Ht, Hs; lia]|intros _].
  repeat keep_step.
Qed.

Lemma rpcUpstream_even method : bool_decide (method = text "sendTransaction") = false -> even 0 (rpcUpstream method).
Proof.
  intros Hm. unfold rpcUpstream. intros c Hc. apply credit_bind; [repeat keep_step|intros i].
  repeat case_match; try done. by apply upstream_even.
Qed.

Lemma verify_chain_even genesis : even 0 (verify_chain genesis).
Proof.
  unfold verify_chain. intros c Hc. apply credit_bind; [by apply rpcUpstream_even|intros response].
  do 3 (apply credit_bind; [repeat keep_step|intros ?]). apply credit_bind; [by apply rpcUpstream_even|intros program].
  repeat keep_step.
Qed.

Lemma discovery_nonneg : 0 <= discovery.
Proof. unfold discovery. destruct k_ok as [(? & ? & ? & ? & ?) Htk]. case_bool_decide; lia. Qed.

Lemma verifyRpc_even url genesis : even discovery (verifyRpc url genesis).
Proof.
  unfold verifyRpc. intros c Hc. apply credit_bind; [apply credit_event; [done|cbn; lia|done]|intros previous].
  apply credit_bind; [apply credit_attempt, verify_chain_even; lia|intros [[]|e]]; [done|].
  apply credit_bind; [apply credit_event; [done|cbn; lia|done]|done].
Qed.

Lemma claim_other r : r <> "start" -> claim r = 0.
Proof. intros Hr. unfold claim, claims. by rewrite (bool_decide_false _ Hr), andb_false_r. Qed.

Lemma discover_round_even : even discovery (match cf_kind cf with wallet => discoverWallet new_URL | guided => discoverGuided end).
Proof.
  intros c Hc. pose proof discovery_nonneg. destruct (cf_kind cf); unfold discoverWallet, discoverGuided.
  all: apply credit_bind; [apply upstream_even; [done|by apply claim_other|lia]|intros response].
  all: do 3 (apply credit_bind; [repeat keep_step|intros ?]).
  - destruct a1 as [[[rid genesis] domain] url]. apply credit_bind; [by apply verifyRpc_even|intros _]. repeat keep_step.
  - repeat keep_step.
Qed.

(** What the discovery may spend. *)
Definition within (c : Z) : Prelude.result failure unit -> Z -> Prop := fun _ d => c - discovery <= d <= c.

Lemma keeps_within {A} c (m : gw A) (f : A -> gw unit) :
  discovery <= c -> Keeps c m -> (forall a, Obeys c (f a) (within c)) -> Obeys c (m ≫= f) (within c).
Proof.
  intros Hc Hm Hf. apply obeys_bind. eapply obeys_weaken; [|exact Hm]. pose proof discovery_nonneg.
  intros [a|e] d ->; [apply Hf|unfold within; cbn; lia].
Qed.
Lemma spends_within c (e : event) (f : answer e -> Prelude.result failure unit) :
  event_ok e -> 0 <= spend e <= c -> spend e <= discovery -> (forall x, earn e x = 0) -> Obeys c (trigger_result e f) (within c).
Proof. intros Ha Hs Hd He. cbn. split; [done|]. split; [done|]. intros x _. rewrite He. unfold within. lia. Qed.

Lemma discover_obeys n deadline c : discovery <= c -> Obeys c (discover new_URL cf n deadline) (within c).
Proof.
  intros Hc. pose proof discovery_nonneg. revert c Hc. induction n as [|n IH]; intros c Hc; cbn [discover].
  - apply spends_within; [done|cbn; lia|cbn; lia|done].
  - apply keeps_within; [done|repeat keep_step|intros p]. apply keeps_within; [done|repeat keep_step|intros now].
    destruct (_ && _); [|apply spends_within; [done|cbn; lia|cbn; lia|done]].
    apply keeps_within; [done|apply credit_attempt, discover_round_even; lia|intros [[]|e]].
    + apply spends_within; [done|cbn; lia|cbn; lia|done].
    + apply keeps_within; [done|repeat keep_step|intros _]. by apply IH.
Qed.

Lemma start_obeys c : discovery <= c -> Obeys c (start_gateway new_URL cf) (within c).
Proof.
  intros Hc. pose proof discovery_nonneg. unfold start_gateway.
  do 2 (apply keeps_within; [done|repeat keep_step|intros ?]). apply keeps_within; [done|repeat keep_step|intros spawned].
  destruct spawned; [|apply spends_within; [done|cbn; lia|cbn; lia|done]].
  apply keeps_within; [done|repeat keep_step|intros t]. by apply discover_obeys.
Qed.

(** ** Requests *)

Lemma validateGuidedState_even value : even discovery (validateGuidedState new_URL value).
Proof.
  intros c Hc. pose proof discovery_nonneg. unfold validateGuidedState.
  do 2 (apply credit_bind; [repeat keep_step|intros ?]). repeat (case_match; try done).
  apply credit_bind; [by apply verifyRpc_even|intros _]. repeat keep_step.
Qed.
Lemma validate_checkpoints_even rid asset checkpoints : even discovery (validate_checkpoints new_URL rid asset checkpoints).
Proof.
  intros c Hc. induction checkpoints as [|v rest IH]; cbn [validate_checkpoints]; [done|].
  apply credit_bind; [|intros _; exact IH]. destruct (falsy _); [done|by apply validateGuidedState_even].
Qed.
Lemma validateGuidedReceipt_even value : even discovery (validateGuidedReceipt new_URL value).
Proof.
  intros c Hc. pose proof discovery_nonneg. unfold validateGuidedReceipt. apply credit_bind; [repeat keep_step|intros ?].
  destruct (plainRecord _); [|done]. apply credit_bind; [repeat keep_step|intros ?].
  repeat (case_match; try done). by apply validate_checkpoints_even.
Qed.

Lemma check_answer_even r envelope value : even 0 (check_answer new_URL cf r envelope value).
Proof.
  intros c Hc. unfold check_answer.
  assert (Hg : bool_decide (cf_kind cf = guided) = true -> discovery = 0).
  { intros Hk%bool_decide_eq_true. unfold discovery. by rewrite Hk. }
  destruct (bool_decide (cf_kind cf = guided)) eqn:Hk.
  - specialize (Hg eq_refl). apply credit_bind; [repeat keep_step|intros _].
    apply credit_bind; [destruct (_ && _); [apply validateGuidedState_even; lia|done]|intros _].
    apply credit_bind; [destruct (_ && _); [apply validateGuidedReceipt_even; lia|done]|intros _]. repeat keep_step.
  - cbn [andb]. repeat keep_step.
Qed.

Definition turn (r : string) (envelope : option js_string) : Z := if is_mutation r envelope then w_turn k else 0.
Abbreviation Ends c c' m := (Obeys c%Z m (fun _ d => d = c'%Z)).

(** A request is sent, with the claim and the turn it needs. *)
Lemma send_ends t c : send_turn t <= c -> 0 <= c -> 0 <= send_turn t -> 0 <= send_claim t -> Ends (c + send_claim t) c (upstream t).
Proof.
  intros Ht Hc Hn Hs. unfold upstream. apply obeys_bind. cbn. split; [done|]. split; [lia|]. intros _ _. split; [lia|].
  replace (c + send_claim t - (send_turn t + send_claim t) + send_turn t) with c by lia.
  change (Keeps c (response ← trigger_result (F:=failure) Receive (fun r => r); lift_result (boundedResponse response) ;; mret response)).
  repeat keep_step.
Qed.

Lemma turn_nonneg r envelope : 0 <= turn r envelope.
Proof. unfold turn. destruct k_ok as [(? & ? & ? & ? & ?) Htk]. case_match; lia. Qed.
Lemma claim_nonneg r : 0 <= claim r.
Proof. unfold claim. destruct k_ok as [(? & ? & ? & ? & ?) Htk]. case_match; lia. Qed.

Lemma ends_bind {A B} c c' (m : gw A) (f : A -> gw B) : Ends c c' m -> (forall a, Keeps c' (f a)) -> Ends c c' (m ≫= f).
Proof. intros Hm Hf. apply obeys_bind. eapply obeys_weaken; [|exact Hm]. intros [a|e] d ->; [apply Hf|done]. Qed.

Lemma turn_rpc url method : turn "rpc" (Some method) = send_turn (ToRpc url method).
Proof.
  unfold turn, send_turn, is_mutation. cbn. rewrite (bool_decide_ext (Some method = _) (method = text "sendTransaction")); [done|].
  split; [by intros [= ->]|by intros ->].
Qed.

(** The methods of the routes: a route other than [rpc] is a mutation where
    its method is [POST]. *)
Definition post_ok (r : string) (post : bool) : Prop := r <> "rpc" -> forall envelope, is_mutation r envelope = post.

(** A method and a URL, read from a route. *)
#[local] Ltac spell m H :=
  let c := fresh in destruct m as [|c m]; cbn in H;
  [first [discriminate H | done] | first [discriminate H | injection H as <- H; spell m H]].
Lemma route_method method url r : route cf method url = Some r -> post_ok r (bool_decide (method = "POST")).
Proof.
  unfold route, post_ok, is_mutation. intros Hr Hne envelope. rewrite (bool_decide_false _ Hne), andb_false_l, orb_false_r.
  unfold routes in Hr. destruct (cf_kind cf); cbn [om_get] in Hr.
  all: repeat match type of Hr with context [bool_decide (?x = ?y)] =>
      destruct (decide (x = y)) as [Hk|Hk];
      [rewrite (bool_decide_true _ Hk) in Hr; injection Hr as <-|rewrite (bool_decide_false _ Hk) in Hr; clear Hk]
    end; try done.
  all: first [transitivity true; [vm_compute; reflexivity|]; symmetry; apply bool_decide_eq_true; spell method Hk
             |transitivity false; [vm_compute; reflexivity|]; symmetry; apply bool_decide_eq_false; intros ->; discriminate Hk].
Qed.

Lemma forward_ends r post envelope c :
  post_ok r post -> turn r envelope <= c -> Ends (c + claim r) c (forward new_URL cf r post envelope).
Proof.
  intros Hpost Hc. pose proof (turn_nonneg r envelope). pose proof (claim_nonneg r). unfold forward. apply ends_bind.
  - case_bool_decide as Hr.
    + subst r. rewrite claim_other by done. replace (c + 0) with c by lia. destruct envelope as [method|]; [|done].
      unfold rpcUpstream. apply credit_bind; [repeat keep_step|intros [rid [[? ? ? [url|]]|]]]; cbn [snd]; try done.
      replace c with (c + send_claim (ToRpc url method)) at 1 by (cbn; lia).
      rewrite (turn_rpc url) in *. apply send_ends; cbn; lia.
    + assert (Ht : send_turn (ToRuntime r post) = turn r envelope).
      { unfold send_turn, turn. cbn. by rewrite (Hpost Hr). }
      apply send_ends; rewrite ?Ht; cbn; lia.
  - intros response. do 2 (apply credit_bind; [repeat keep_step|intros ?]).
    apply credit_bind; [apply credit_attempt; destruct (rs_ok response); [apply check_answer_even; lia|done]|intros [[]|]]; [done|].
    repeat keep_step.
Qed.

Lemma operation_keeps r post envelope c : post_ok r post -> turn r envelope <= c -> Keeps c (operation new_URL cf r post envelope).
Proof.
  intros Hpost Hc. pose proof (turn_nonneg r envelope). pose proof (claim_nonneg r). unfold operation. apply obeys_bind. cbn.
  split; [done|]. split; [lia|]. intros [u|e] _; cbn; [|lia]. split; [lia|].
  replace (c - 0 + claim r) with (c + claim r) by lia. by apply forward_ends.
Qed.

Lemma mutate_keeps {A} (op : gw A) c : 0 <= c -> (forall c', w_turn k <= c' -> Keeps c' op) -> Keeps c (mutate op).
Proof.
  intros Hc Hop. destruct k_ok as [(? & Hq & Ht & ? & ?) Htk]. unfold mutate. apply obeys_bind. cbn. split; [done|]. split; [lia|].
  intros [mine|e] _; cbn; [|lia]. destruct (Htk mine) as [Hwait Hhold].
  split; [lia|]. split; [done|]. split; [lia|]. intros _ _. split; [lia|].
  apply obeys_bind, obeys_bind. eapply obeys_weaken; [|apply Hop; lia]. intros r d ->. cbn. split; [done|]. split; [lia|].
  intros _ _. split; [lia|]. split; [done|]. split; [lia|]. intros _ _. split; [lia|]. lia.
Qed.

Lemma serve_keeps r rq c :
  route cf (rq_method rq) (rq_url rq) = Some r -> 0 <= c -> Keeps c (serve new_URL cf r rq).
Proof.
  intros Hr%route_method Hc. unfold serve. apply credit_bind; [done|intros envelope]. cbv zeta. apply credit_bind.
  - destruct (is_mutation r envelope) eqn:Hm.
    + apply mutate_keeps; [done|]. intros c' Hc'. apply operation_keeps; [done|]. unfold turn. by rewrite Hm.
    + apply operation_keeps; [done|]. unfold turn. by rewrite Hm.
  - intros result. repeat keep_step.
Qed.

Lemma handle_obeys rq : Obeys 0 (handle new_URL cf rq) (fun _ d => d = 0).
Proof.
  destruct k_ok as [(Hs & _) Htk]. unfold handle. cbn. split; [done|]. split; [lia|]. intros [r|b rid|status] Hr; cbn; [|lia..].
  split; [lia|]. apply obeys_bind. eapply obeys_weaken; [|apply serve_keeps; [exact Hr|lia]]. intros served d ->. apply obeys_bind.
  assert (Hrel : forall response : Z * option json,
    Obeys (0 - 0 + w_slot k) (Vis ReleaseSlot (fun _ => Pure response)) (fun _ d => d = 0)).
  { intros response. cbn. split; [done|]. split; [lia|]. intros _ _. lia. }
  destruct served as [[status value]|[status|]]; [apply Hrel..|]. cbn. split; [done|]. split; [lia|]. intros p _. split; [lia|].
  split; [done|]. split; [lia|]. intros _ _. lia.
Qed.
End gateway.

(** ** Runs *)

(** What starts a program: the gateway itself, an incoming request, the
    expiry timer, the exit of the runtime, and a signal to the process. *)
Inductive source := Starting | Incoming (rq : Request) | Timer | ChildEnds | Closing.
Inductive reply := Answered (status : Z) (value : option json) | Quiet.

Section runs.
Context (hashToken : string -> string) (new_URL : js_string -> option Url) (cf : config).

Definition program (s : source) : prog event answer reply :=
  match s with
  | Starting => bind (start_gateway new_URL cf) (fun _ => Pure Quiet)
  | Incoming rq => bind (handle new_URL cf rq) (fun r => Pure (Answered (fst r) (snd r)))
  | Timer => Vis ExpireNow (fun _ => Pure Quiet)
  | ChildEnds => Vis ChildGone (fun _ => Pure Quiet)
  | Closing => Vis (CloseAs stopped) (fun _ => Pure Quiet)
  end.
Definition starts (p : prog event answer reply) : Prop := exists s, p = program s /\ s <> Starting.
Definition first_world : world := World initial_state [].
Abbreviation gthreads := (threads (event:=event) (answer:=answer) (W:=world) (R:=reply)).
Abbreviation gstep := (thread_step (gateway_step hashToken cf) starts).
Definition gateway_run (s : gthreads) : Prop := rtc gstep (Threads first_world [(0%nat, program Starting)]) s.

Definition count (f : entry -> bool) (l : list entry) : Z := Z.of_nat (length (List.filter f l)).
Lemma count_app f l l' : count f (l ++ l') = count f l + count f l'.
Proof. unfold count. rewrite List.filter_app, length_app. lia. Qed.
Lemma count_nil f : count f [] = 0.
Proof. done. Qed.
Lemma count_cons f e l : count f (e :: l) = (if f e then 1 else 0) + count f l.
Proof. unfold count. simpl. destruct (f e); simpl; lia. Qed.

(** Every program but the start pays for itself and keeps nothing. *)
Lemma program_obeys k s :
  nonneg k -> s <> Starting \/ w_discovery k = 0 ->
  obeys event_ok (routed cf) (earn cf k) (spend cf k) 0 (program s) (fun _ d => d = 0).
Proof.
  intros Hk Hs. destruct s as [|rq| | |]; cbn [program].
  - destruct Hs as [|Hd]; [done|]. assert (Hd0 : discovery cf k = 0) by (unfold discovery; case_bool_decide; lia).
    apply obeys_bind. eapply obeys_weaken; [|apply start_obeys; [done|lia]]. unfold within. intros r d Hr. cbn. lia.
  - apply obeys_bind. eapply obeys_weaken; [|by apply handle_obeys]. done.
  - cbn. split; [done|]. split; [lia|]. intros _ _. lia.
  - cbn. split; [done|]. split; [lia|]. intros _ _. lia.
  - cbn. split; [done|]. split; [lia|]. intros _ _. lia.
Qed.
End runs.

(** [cases Ho] is the effect of an event, by cases on all its branches. *)
#[local] Ltac cases Ho :=
  cbn in Ho; repeat match goal with
  | H : _ /\ _ |- _ => destruct H
  | H : exists _, _ |- _ => destruct H
  end; subst;
  unfold admit_request, begin_operation, join_queue, fail_child, fail, expire, close, stopChild, still_ready, with_rpcUrl, pin_chain in *;
  repeat (case_match; subst; cbn in *); simplify_eq; cbn.

(** The credits of an event, by cases. *)
#[local] Ltac credits :=
  cbn in *; do 2 (repeat progress unfold claim, claims, send_turn, send_claim, discovery, none in *; cbn in *; repeat (case_match; cbn in *)).

(** ** A guided runtime is started at most once *)

Section theorems.
Context (hashToken : string -> string) (new_URL : js_string -> option Url) (cf : config).
Abbreviation Step := (gateway_step hashToken cf).
Abbreviation Run := (gateway_run hashToken new_URL cf).
Abbreviation gthreads := (threads (event:=event) (answer:=answer) (W:=world) (R:=reply)).
Abbreviation gstep := (thread_step Step (starts new_URL cf)).

Lemma step_routed i e w x w' : Step i e w x w' -> routed cf e x.
Proof. destruct e; try done. intros (now & -> & _). cbn. unfold admit_request. by repeat case_match; simplify_eq/=. Qed.

Definition start_sent (e : entry) : bool := match e with Sent (ToRuntime r _) => claims cf r | _ => false end.
Definition claim_weights : weights := Weights 0 0 0 1 0 none none.

(** A claim that was not used yet. *)
Definition claims_left (w : world) : Z := Z.b2z (guidedStartClaimed (gw_state w)) - count start_sent (gw_log w).

Lemma start_step i e w x w' :
  Step i e w x w' ->
  claims_left w - spend cf claim_weights e + earn cf claim_weights e x <= claims_left w'.
Proof.
  intros Ho. unfold claims_left. destruct (guidedStartClaimed (gw_state w)) eqn:Hc; destruct e; cases Ho; rewrite ?count_app, ?count_cons, ?count_nil;
    repeat match goal with K : guidedStartClaimed _ = _ |- _ => rewrite K; clear K end; credits; first [lia | congruence].
Qed.

(** However requests interleave, a guided runtime is sent at most one
    start request. *)
Theorem gateway_starts_once s : Run s -> count start_sent (gw_log (th_world s)) <= 1.
Proof.
  intros Hr. destruct (solvent_reachable event_ok (routed cf) (earn cf claim_weights) (spend cf claim_weights) Step (fun _ => True)
    claims_left (starts new_URL cf) (fun _ c => 0 <= c))
    with (w := first_world) (ts := [(0%nat, program new_URL cf Starting)]) (c := 0) (s := s) as (_ & Hs & _); try done.
  - intros i e w x w' _ _ _ Ho. split_and!; [done|by eapply step_routed|by eapply start_step].
  - intros p (src & -> & Hsrc). eapply obeys_weaken; [|apply program_obeys; [weighs|by left]]. cbn. lia.
  - apply Forall_singleton. eapply obeys_weaken; [|apply program_obeys; [weighs|by right]]. cbn. lia.
  - unfold claims_left in Hs. destruct (guidedStartClaimed (gw_state (th_world s))); cbn in Hs; lia.
Qed.

(** ** Mutations run one at a time *)

(** Reads a log of mutations: those that joined the queue and wait, in order,
    and the one that runs.  It fails where a turn is taken that is not the next
    one's, where two overlap, where one settles that does not run, and where a
    mutating request is sent outside a turn. *)
Definition turn_entry (st : option (list nat * option nat)) (e : entry) : option (list nat * option nat) :=
  match st, e with
  | Some (waiting, busy), QueueJoined p => Some (waiting ++ [p], busy)
  | Some (next :: waiting, None), TurnTaken p => if bool_decide (p = next) then Some (waiting, Some p) else None
  | Some _, TurnTaken _ => None
  | Some (waiting, Some q), OperationSettled p => if bool_decide (p = q) then Some (waiting, None) else None
  | Some _, OperationSettled _ => None
  | Some (_, busy), Sent t => if target_mutates t && bool_decide (busy = None) then None else st
  | _, _ => st
  end.
Definition turns (l : list entry) : option (list nat * option nat) := fold_left turn_entry l (Some ([], None)).
#[local] Arguments turns : simpl never.

Lemma turns_snoc l e : turns (l ++ [e]) = turn_entry (turns l) e.
Proof. unfold turns. by rewrite fold_left_app. Qed.
Lemma turn_entry_other st e :
  match e with QueueJoined _ | TurnTaken _ | OperationSettled _ | Sent _ => False | _ => True end -> turn_entry st e = st.
Proof. destruct e; try done; by destruct st as [[[|] [|]]|]. Qed.

(** The promises of the queue form a chain that settles in order: [n] joined
    it, and the first [m] of them have settled. *)
Definition chain (n m : nat) : list promise :=
  resolved :: ((fun p => Promise (Some p) (bool_decide (p < m)%nat)) <$> seq 0 n).
Definition first_unsettled (busy : option nat) (m : nat) : nat := if busy is Some _ then S (S m) else S m.
Definition chained (w : world) (n m : nat) (busy : option nat) : Prop :=
  mutationTail (gw_state w) = n /\ promises (gw_state w) = chain n m /\
  (forall p, busy = Some p -> p = S m) /\ (m + (if busy is Some _ then 1 else 0) <= n)%nat /\
  turns (gw_log w) = Some (seq (first_unsettled busy m) (S n - first_unsettled busy m), busy).
Definition queue_ok (w : world) : Prop := exists n m busy, chained w n m busy.

Lemma chain_length n m : length (chain n m) = S n.
Proof. unfold chain. cbn. by rewrite length_fmap, length_seq. Qed.
Lemma chain_lookup n m p : (p <= n)%nat ->
  chain n m !! p = Some (match p with O => resolved | S q => Promise (Some q) (bool_decide (q < m)%nat) end).
Proof.
  intros Hp. unfold chain. destruct p as [|q]; [done|].
  rewrite lookup_cons, list_lookup_fmap, lookup_seq_lt by lia. done.
Qed.
Lemma chain_settled n m p : (p <= n)%nat -> p_settled <$> chain n m !! p = Some (bool_decide (p <= m)%nat).
Proof.
  intros Hp. rewrite chain_lookup by done. destruct p as [|q]; cbn; [by rewrite bool_decide_true by lia|].
  done.
Qed.
Lemma chain_join n m : (m <= n)%nat -> chain n m ++ [Promise (Some n) false] = chain (S n) m.
Proof.
  intros Hm. unfold chain. rewrite seq_S, fmap_app. cbn. by rewrite (bool_decide_false (n < m)%nat) by lia.
Qed.
Lemma chain_settle n m : (m < n)%nat -> alter (fun p => Promise (p_after p) true) (S m) (chain n m) = chain n (S m).
Proof.
  intros Hm. apply list_eq. intros p. destruct (decide (p <= n)%nat) as [Hp|Hp].
  - destruct (decide (p = S m)) as [->|Hne].
    + rewrite list_lookup_alter_eq, !chain_lookup by done. cbn. by rewrite bool_decide_true by lia.
    + rewrite list_lookup_alter_ne, !chain_lookup by done. destruct p as [|q]; [done|]. do 2 f_equal. apply bool_decide_ext. lia.
  - rewrite !lookup_ge_None_2; [done|rewrite chain_length; lia|rewrite length_alter, chain_length; lia].
Qed.

(** A turn comes where all those before have settled. *)
Lemma chain_turn w n m busy p :
  chained w n m busy -> (1 <= p <= n)%nat -> turn_has_come (gw_state w) p = true -> (p <= S m)%nat.
Proof.
  intros (_ & Hp & _) [H1 H2]. unfold turn_has_come. rewrite Hp, chain_lookup by done. destruct p as [|q]; [lia|].
  pose proof (chain_settled n m q ltac:(lia)) as Hs. destruct (chain n m !! q) as [pr|]; [|done].
  injection Hs as ->. intros Hle%bool_decide_eq_true. lia.
Qed.

(** ** The credits of the queue: the turn, the wait for a promise, and the
    duty to settle one *)
Inductive queue_credit := Turn | Wait (p : nat) | Hold (p : nat).
Definition queue_weights_of (c : queue_credit) : weights :=
  match c with
  | Turn => Weights 0 0 1 0 0 none none
  | Wait p => Weights 0 0 0 0 0 (only p) none
  | Hold p => Weights 0 0 0 0 0 none (only p)
  end.
Definition queue_balance (c : queue_credit) (w : world) : Z :=
  match turns (gw_log w) with
  | Some (waiting, busy) =>
      match c with
      | Turn => if busy is Some _ then 1 else 0
      | Wait p => if bool_decide (p ∈ waiting) then 1 else 0
      | Hold p => if bool_decide (busy = Some p) then 1 else 0
      end
  | None => 0
  end.

Lemma queue_frame i e w x w' :
  Step i e w x w' ->
  match e with
  | JoinQueue | AwaitTurn _ | Settle _ | Send _ => True
  | _ => turns (gw_log w') = turns (gw_log w) /\ mutationTail (gw_state w') = mutationTail (gw_state w) /\
         promises (gw_state w') = promises (gw_state w)
  end.
Proof. intros Ho. destruct e; try done; cases Ho; rewrite ?app_nil_r, ?turns_snoc, ?turn_entry_other; done. Qed.

Lemma queue_weights_nonneg c : nonneg (queue_weights_of c).
Proof. destruct c; (split; [cbn; lia|intros q; cbn; unfold none, only; repeat case_match; lia]). Qed.

Lemma join_step i w w' x :
  queue_ok w -> Step i JoinQueue w x w' ->
  queue_ok w' /\ forall c, queue_balance c w + earn cf (queue_weights_of c) JoinQueue x <= queue_balance c w'.
Proof.
  intros (n & m & busy & Ht & Hp & Hr & Hle & Hl) [-> ->]. unfold join_queue.
  destruct (_ <=? _); cbn [fst snd].
  - split; [exists n, m, busy; unfold chained; cbn; rewrite app_nil_r; done|].
    intros c. unfold queue_balance. cbn. rewrite app_nil_r. destruct c; lia.
  - assert (Hmine : length (promises (gw_state w)) = S n) by (by rewrite Hp, chain_length).
    assert (Hl' : turns (gw_log w ++ [QueueJoined (S n)]) = Some (seq (first_unsettled busy m) (S n - first_unsettled busy m) ++ [S n], busy))
      by (rewrite turns_snoc, Hl; by destruct (seq _ _), busy).
    split.
    + exists (S n), m, busy. unfold chained. cbn. rewrite Hmine, Ht, Hp, chain_join, Hl' by (destruct busy; lia).
      split_and!; try done; [lia|]. do 2 f_equal. unfold first_unsettled in *.
      destruct busy; [replace (S (S n) - S (S m))%nat with (S (S n - S (S m))) by lia|
                         replace (S (S n) - S m)%nat with (S (S n - S m)) by lia];
        rewrite seq_S; do 2 f_equal; lia.
    + intros c. unfold queue_balance. cbn. rewrite Hmine, Hl, Hl'. destruct c as [|p|p]; cbn; unfold none, only; [lia| |lia].
      assert (Hnin : S n ∉ seq (first_unsettled busy m) (S n - first_unsettled busy m)).
      { intros Hin%elem_of_seq. unfold first_unsettled in *. destruct busy; lia. }
      destruct (decide (S n = p)) as [<-|Hne].
      * rewrite (bool_decide_false _ Hnin), !bool_decide_true; [lia|apply elem_of_app; right; left|done].
      * rewrite (bool_decide_false (S n = p)) by done. rewrite (bool_decide_ext (p ∈ _ ++ [S n]) (p ∈ seq (first_unsettled busy m) (S n - first_unsettled busy m)))
          by (rewrite elem_of_app, list_elem_of_singleton; intuition congruence). lia.
Qed.

Lemma await_step i p w w' x :
  queue_ok w -> 1 <= queue_balance (Wait p) w -> Step i (AwaitTurn p) w x w' ->
  queue_ok w' /\ forall c, queue_balance c w - spend cf (queue_weights_of c) (AwaitTurn p)
    + earn cf (queue_weights_of c) (AwaitTurn p) x <= queue_balance c w'.
Proof.
  intros (n & m & busy & Hch) Hw [Hturn ->]. pose proof Hch as (Ht & Hp & Hr & Hle & Hl).
  assert (Hin : p ∈ seq (first_unsettled busy m) (S n - first_unsettled busy m)).
  { unfold queue_balance in Hw. rewrite Hl in Hw. case_bool_decide; [done|lia]. }
  apply elem_of_seq in Hin. pose proof (chain_turn _ _ _ _ p Hch ltac:(destruct busy; cbn in *; lia) Hturn).
  destruct busy as [q|]; cbn [first_unsettled] in *; [lia|]. assert (p = S m) as -> by lia.
  replace (S n - S m)%nat with (S (S n - S (S m))) in Hl by lia. cbn [seq] in Hl.
  assert (Hl' : turns (gw_log w ++ [TurnTaken (S m)]) = Some (seq (S (S m)) (S n - S (S m)), Some (S m))).
  { rewrite turns_snoc, Hl. cbn. by rewrite bool_decide_true. }
  split.
  - exists n, m, (Some (S m)). unfold chained. cbn. rewrite Ht, Hp, Hl'. split_and!; try done; [by intros ? [= <-]|lia].
  - intros c. unfold queue_balance. cbn. rewrite Hl, Hl'. destruct c as [|q|q]; cbn; unfold none, only; [lia| |].
    + rewrite (bool_decide_ext (q ∈ S m :: _) (S m = q \/ q ∈ seq (S (S m)) (S n - S (S m))))
        by (rewrite elem_of_cons; intuition congruence).
      repeat case_bool_decide; try lia; intuition.
    + repeat case_bool_decide; try lia; congruence.
Qed.

Lemma settle_step i p w w' x :
  queue_ok w -> 1 <= queue_balance (Hold p) w -> Step i (Settle p) w x w' ->
  queue_ok w' /\ forall c, queue_balance c w - spend cf (queue_weights_of c) (Settle p) <= queue_balance c w'.
Proof.
  intros (n & m & busy & Ht & Hp & Hr & Hle & Hl) Hw Ho. cbn in Ho. subst w'.
  assert (busy = Some p) as ->.
  { unfold queue_balance in Hw. rewrite Hl in Hw. case_bool_decide; [done|lia]. }
  assert (p = S m) as -> by (by apply Hr). cbn [first_unsettled] in Hl.
  assert (Hl' : turns (gw_log w ++ [OperationSettled (S m)]) = Some (seq (S (S m)) (S n - S (S m)), None)).
  { rewrite turns_snoc, Hl. cbn. rewrite bool_decide_true by done. by destruct (seq _ _). }
  split.
  - exists n, (S m), None. unfold chained. cbn. rewrite Ht, Hp, chain_settle by lia. split_and!; [done..|lia|exact Hl'].
  - intros c. unfold queue_balance. cbn. rewrite Hl, Hl'. destruct c as [|q|q]; cbn; unfold none, only; [lia|lia|].
    repeat case_bool_decide; try lia; congruence.
Qed.

Lemma send_step i t w w' x :
  queue_ok w -> spend cf (queue_weights_of Turn) (Send t) <= queue_balance Turn w -> Step i (Send t) w x w' ->
  queue_ok w' /\ forall c, queue_balance c w' = queue_balance c w.
Proof.
  intros (n & m & busy & Hch) Hw Ho. cbn in Ho. subst w'. pose proof Hch as (Ht & Hp & Hr & Hle & Hl).
  assert (Hl' : turns (gw_log w ++ [Sent t]) = turns (gw_log w)).
  { rewrite turns_snoc, Hl. unfold queue_balance in Hw. rewrite Hl in Hw. cbn in Hw.
    assert (Hb : target_mutates t = true -> busy <> None).
    { intros Hm ->. unfold send_turn in Hw. rewrite Hm in Hw. cbn in Hw. revert Hw. unfold send_claim, claim. destruct t; cbn; repeat case_match; lia. }
    destruct (target_mutates t) eqn:Hm; [|by destruct (seq _ _), busy; cbn; rewrite ?Hm].
    specialize (Hb eq_refl). destruct busy; [|done]. destruct (seq _ _); cbn; by rewrite ?Hm. }
  split; [exists n, m, busy; unfold chained in *; cbn; by rewrite Hl'|]. intros c. unfold queue_balance. cbn. by rewrite Hl'.
Qed.

Lemma queue_step i e w x w' :
  queue_ok w -> (forall c, 0 <= spend cf (queue_weights_of c) e <= queue_balance c w) -> Step i e w x w' ->
  queue_ok w' /\ routed cf e x /\
  forall c, queue_balance c w - spend cf (queue_weights_of c) e + earn cf (queue_weights_of c) e x <= queue_balance c w'.
Proof.
  intros Hok Hpaid Ho. pose proof (step_routed _ _ _ _ _ Ho) as Hx. pose proof (queue_frame _ _ _ _ _ Ho) as Hf.
  destruct e; try (destruct Hf as (Hl & Ht & Hp); split;
    [destruct Hok as (n & m & busy & Hch); exists n, m, busy; unfold chained in *; by rewrite Hl, Ht, Hp|split; [done|]];
    intros c; unfold queue_balance; rewrite Hl; destruct c; credits; lia).
  - destruct (join_step _ _ _ _ Hok Ho) as [H1 H2]. split_and!; [done|done|]. intros c. specialize (H2 c). cbn in *. lia.
  - destruct (await_step i mine w w' x Hok) as [H1 H2]; [|done|done].
    etrans; [|apply (Hpaid (Wait mine))]. cbn. unfold only. by rewrite bool_decide_true.
  - destruct (settle_step i mine w w' x Hok) as [H1 H2]; [|done|].
    + etrans; [|apply (Hpaid (Hold mine))]. cbn. unfold only. by rewrite bool_decide_true.
    + split_and!; [done|done|]. intros c. specialize (H2 c). cbn in *. lia.
  - destruct (send_step i t w w' x Hok (proj2 (Hpaid Turn)) Ho) as [H1 H2]. split_and!; [done|done|].
    intros c. rewrite H2. destruct c; cbn; unfold send_claim, claim; destruct t; cbn; repeat case_match; lia.
Qed.

(** C21: However requests interleave, the mutations reach the runtime one at a
    time, in the order in which they joined the queue: every mutating request
    is sent within a turn, a turn is only taken when the one before is over,
    and it is the turn of the mutation that has waited longest. *)
Theorem gateway_mutations_serial s : Run s -> turns (gw_log (th_world s)) <> None.
Proof.
  intros Hr. destruct (funded_reachable_from Turn event_ok (routed cf) (fun c => earn cf (queue_weights_of c))
    (fun c => spend cf (queue_weights_of c)) Step queue_ok queue_balance (starts new_URL cf) (fun _ d => 0 <= d))
    with (s0 := Threads first_world [(0%nat, program new_URL cf Starting)]) (s := s) as ((n & m & busy & _ & _ & _ & _ & Hl) & _).
  - intros i e w x w' Hg _ Hp Ho. by eapply queue_step.
  - intros p c (src & -> & Hsrc). eapply obeys_weaken; [|apply program_obeys; [apply queue_weights_nonneg|by left]]. cbn. lia.
  - apply funded_start.
    + by exists 0%nat, 0%nat, None.
    + by intros [].
    + intros c. apply Forall_singleton. eapply obeys_weaken; [|apply program_obeys; [apply queue_weights_nonneg|right; by destruct c]]. cbn. lia.
  - done.
  - by rewrite Hl.
Qed.

(** ** Slots and the queue are bounded, and nothing is lost *)

Definition slot_weights : weights := Weights 1 0 0 0 0 none none.
Definition queue_weights : weights := Weights 0 1 0 0 0 none none.
Definition bounds_ok (w : world) : Prop := inflight (gw_state w) <= MAX_INFLIGHT /\ mutationCount (gw_state w) <= MAX_MUTATIONS.

Lemma slots_exact i e w x w' :
  Step i e w x w' ->
  inflight (gw_state w') = inflight (gw_state w) - spend cf slot_weights e + earn cf slot_weights e x /\
  mutationCount (gw_state w') = mutationCount (gw_state w) - spend cf queue_weights e + earn cf queue_weights e x.
Proof. intros Ho. destruct e; cases Ho; credits; lia. Qed.

Lemma bounds_step i e w x w' : bounds_ok w -> Step i e w x w' -> bounds_ok w'.
Proof.
  unfold bounds_ok, MAX_INFLIGHT, MAX_MUTATIONS. intros [H1 H2] Ho. destruct e; cases Ho; unfold MAX_INFLIGHT, MAX_MUTATIONS in *; lia.
Qed.

Definition finished (t : nat * prog event answer reply) : Prop := match t.2 with Pure _ => True | Vis _ _ => False end.

Lemma held_exactly k held s :
  nonneg k -> w_discovery k = 0 ->
  (forall i e w x w', Step i e w x w' -> held (gw_state w') = held (gw_state w) - spend cf k e + earn cf k e x) ->
  held initial_state = 0 -> Run s ->
  bounds_ok (th_world s) /\ 0 <= held (gw_state (th_world s)) /\ (Forall finished (th_threads s) -> held (gw_state (th_world s)) = 0).
Proof.
  intros Hk Hd Hstep H0 Hr.
  destruct (balanced_reachable event_ok (routed cf) (earn cf k) (spend cf k) Step bounds_ok (fun w => held (gw_state w))
    (starts new_URL cf) (fun _ c => c = 0)) with (w := first_world) (ts := [(0%nat, program new_URL cf Starting)]) (s := s)
    as (Hb & cs & [Hcs Hob] & Hsum); try done.
  - intros i e w x w' Hg _ _ Ho. split_and!; [by eapply bounds_step|by eapply step_routed|by eapply Hstep].
  - intros p (src & -> & Hsrc). apply program_obeys; [done|by left].
  - apply Forall_singleton. apply program_obeys; [done|by right].
  - rewrite <- Hsum. split_and!; [done|by apply sumZ_nonneg|]. clear Hsum Hcs. intros Hf.
    induction Hob as [|c [i p] cs ts Hc _ IH]; [done|]. apply Forall_cons in Hf as [Hp Hf].
    destruct p as [r|]; [|done]. cbn in Hc |- *. rewrite Hc, IH by done. done.
Qed.

(** The gateway never serves more than [MAX_INFLIGHT] requests, nor has
    more than [MAX_MUTATIONS] in its queue; and however requests fail, every
    slot and every place is given back: when all programs have ended, none is
    taken. *)
Theorem gateway_slots_bounded s :
  Run s ->
  0 <= inflight (gw_state (th_world s)) <= MAX_INFLIGHT /\ 0 <= mutationCount (gw_state (th_world s)) <= MAX_MUTATIONS /\
  (Forall finished (th_threads s) -> inflight (gw_state (th_world s)) = 0 /\ mutationCount (gw_state (th_world s)) = 0).
Proof.
  intros Hr.
  destruct (held_exactly slot_weights inflight s) as ([Hi Hm] & H1 & H2); [weighs|done|by intros; eapply slots_exact|done|done|].
  destruct (held_exactly queue_weights mutationCount s) as (_ & H3 & H4); [weighs|done|by intros; eapply slots_exact|done|done|].
  split_and!; [done..|]. auto.
Qed.

(** ** An ended gateway stays ended *)

Definition is_service (e : entry) : bool := match e with SlotTaken | OperationBegun _ | Delivered _ _ => true | _ => false end.
Definition services (s : gthreads) : list entry := List.filter is_service (gw_log (th_world s)).

Lemma ended_step i e w x w' :
  event_ok e -> ended (phase (gw_state w)) = true -> Step i e w x w' ->
  ended (phase (gw_state w')) = true /\ List.filter is_service (gw_log w') = List.filter is_service (gw_log w).
Proof.
  intros Ha He Ho.
  assert (Hnr : phase (gw_state w) <> ready) by (intros Hp; by rewrite Hp in He).
  assert (Hns : phase (gw_state w) <> starting) by (intros Hp; by rewrite Hp in He).
  destruct e; cases Ho; rewrite ?List.filter_app; cbn; rewrite ?app_nil_r;
    first [done | split; [by repeat case_match|done] | exfalso; breflect; congruence].
Qed.

(** Where events are allowed, so is every step of a run. *)
Lemma run_event s s' :
  Run s -> gstep s s' -> th_world s' = th_world s \/ exists i e x, event_ok e /\ Step i e (th_world s) x (th_world s').
Proof.
  intros Hr Hst. pose (k := slot_weights).
  assert (Hst' : forall p, starts new_URL cf p -> obeys event_ok (routed cf) (earn cf k) (spend cf k) 0 p (fun _ c => c = 0)).
  { intros p (src & -> & Hsrc). apply program_obeys; [weighs|by left]. }
  destruct (balanced_reachable event_ok (routed cf) (earn cf k) (spend cf k) Step (fun _ => True) (fun w => inflight (gw_state w))
    (starts new_URL cf) (fun _ c => c = 0)) with (w := first_world) (ts := [(0%nat, program new_URL cf Starting)]) (s := s)
    as (_ & cs & Hp & _); try done.
  - intros i e w x w' _ _ _ Ho. split_and!; [done|by eapply step_routed|by eapply slots_exact].
  - apply Forall_singleton. apply program_obeys; [weighs|by right].
  - destruct (pays_step event_ok (routed cf) (earn cf k) (spend cf k) Step _ _ _ _ _ Hst' Hst Hp)
      as [(cs' & _ & Hw & _)|(i & e & x & Ha & _ & Ho & _)]; [by left|right; eauto].
Qed.

(** C22: Once a gateway has ended — expired, closed, or failed — it stays so,
    and from then on admits no request, begins no operation and delivers no
    answer, not even of the operations under way. *)
Theorem gateway_end_is_final s s' :
  Run s -> rtc gstep s s' -> ended (phase (gw_state (th_world s))) = true ->
  ended (phase (gw_state (th_world s'))) = true /\ services s' = services s.
Proof.
  intros Hr Hss. revert Hr. induction Hss as [s|s1 s2 s3 H12 _ IH]; intros Hr He; [done|].
  assert (Hr2 : Run s2) by (eapply rtc_r; done). specialize (IH Hr2). unfold services in *.
  destruct (run_event _ _ Hr H12) as [Hw|(i & e & x & Ha & Ho)]; [rewrite Hw in IH; auto|].
  destruct (ended_step _ _ _ _ _ Ha He Ho) as [He2 Hl]. destruct (IH He2) as [He3 Hl3]. split; [done|congruence].
Qed.

(** ** A wallet's identity *)

Definition is_ready (e : entry) : bool := match e with ReadyReached => true | _ => false end.
Definition discovery_weights : weights := Weights 0 0 0 0 1 none none.
(** What [forward] compares the runtime's answers with. *)
Definition pinned (w : world) : option json * option identity := (runtimeId (gw_state w), gw_identity (gw_state w)).
(** Discovery is over once the gateway was ready. *)
Definition discovery_open (w : world) : Z := 1 - count is_ready (gw_log w).
Definition ready_noted (w : world) : Prop := phase (gw_state w) = ready -> 1 <= count is_ready (gw_log w).

Lemma count_nonneg f l : 0 <= count f l.
Proof. unfold count. lia. Qed.

Lemma discovery_step i e w x w' :
  cf_kind cf = wallet -> event_ok e -> ready_noted w -> Step i e w x w' ->
  ready_noted w' /\
  discovery_open w - spend cf discovery_weights e + earn cf discovery_weights e x <= discovery_open w' /\
  (spend cf discovery_weights e = 0 -> pinned w' = pinned w).
Proof.
  intros Hk Ha Hg Ho. unfold discovery_open, ready_noted, pinned in *. pose proof (count_nonneg is_ready (gw_log w)).
  destruct e; cases Ho; rewrite ?count_app, ?count_cons, ?count_nil; cbn in *; unfold discovery, send_turn, send_claim, claim, none in *;
    rewrite ?Hk in *; cbn in *; (split; [|split; [repeat case_match; cbn in *; try lia|try done]]);
    first [exact Hg | done | intros _; lia | intros ->; discriminate | intros Hp; apply Hg in Hp; lia].
Qed.

Lemma count_grows f i e w x w' : Step i e w x w' -> count f (gw_log w) <= count f (gw_log w').
Proof. intros Ho. destruct e; cases Ho; rewrite ?count_app; try lia; match goal with |- context [count f ?l] => pose proof (count_nonneg f l); lia end. Qed.

(** Once a wallet's gateway is ready, the identity every manifest and
    genesis answer is compared with never changes. *)
Theorem wallet_identity_pinned s s' :
  cf_kind cf = wallet -> Run s -> phase (gw_state (th_world s)) = ready -> rtc gstep s s' ->
  pinned (th_world s') = pinned (th_world s).
Proof.
  intros Hk Hr Hp Hss. set (k := discovery_weights).
  assert (Hst : forall p, starts new_URL cf p -> obeys event_ok (routed cf) (earn cf k) (spend cf k) 0 p (fun _ c => 0 <= c)).
  { intros p (src & -> & Hsrc). eapply obeys_weaken; [|apply program_obeys; [weighs|by left]]. cbn. lia. }
  set (sol := solvent event_ok (routed cf) (earn cf k) (spend cf k) ready_noted discovery_open (fun (_ : reply) c => 0 <= c)).
  assert (Hsound : forall i e w x w', ready_noted w -> event_ok e -> spend cf k e <= discovery_open w -> Step i e w x w' ->
    ready_noted w' /\ (routed cf) e x /\ discovery_open w - spend cf k e + earn cf k e x <= discovery_open w').
  { intros i e w x w' Hg Ha _ Ho. destruct (discovery_step _ _ _ _ _ Hk Ha Hg Ho) as (? & ? & _). split_and!; [done|by eapply step_routed|done]. }
  assert (Hs : sol s).
  { eapply (solvent_steps _ _ _ _ Step); [exact Hsound|exact Hst|exact Hr|].
    apply (solvent_start _ _ _ _ _ _ _ _ _ 1); [done|done|done| |done]. apply Forall_singleton. cbn [program snd].
    apply obeys_bind. eapply obeys_weaken; [|apply start_obeys; [weighs|by unfold discovery; rewrite Hk]].
    unfold within, discovery. rewrite Hk. intros r d [Hd _]. exact Hd. }
  assert (Hn : 1 <= count is_ready (gw_log (th_world s))) by (by apply Hs).
  clear Hr Hp. induction Hss as [s|s1 s2 s3 H12 _ IH]; [done|].
  pose proof (solvent_step _ _ _ _ _ _ _ _ _ Hsound Hst _ _ H12 Hs) as Hs2. destruct Hs as (Hg & cs & Hpays & Hsum).
  destruct (pays_step _ _ _ _ _ _ _ _ _ _ Hst H12 Hpays) as [(cs' & _ & Hw & _)|(i & e & x & Ha & Hsp & Ho & _)].
  - rewrite <- Hw. apply IH; [done|by rewrite Hw].
  - destruct (discovery_step _ _ _ _ _ Hk Ha Hg Ho) as (_ & Hb & Hsame). unfold discovery_open in *.
    assert (H0 : spend cf k e = 0) by lia. rewrite <- (Hsame H0). apply IH; [done|].
    etrans; [exact Hn|by eapply count_grows].
Qed.
End theorems.

(** ** Runs *)

Definition gw_ex_now : Z := 1771027200000.
Definition gw_ex_config (kind : SandboxKind) : config := Config kind "token" (gw_ex_now + 600000).
Definition gw_ex_rpc (port : string) : js_string := text ("http://127.0.0.1:" +:+ port +:+ "/").
Definition gw_ex_url (s : js_string) : option Url :=
  if bool_decide (s = gw_ex_rpc "8899") then Some (MkUrl "http:" "127.0.0.1" "8899" "/" "" "" "" "" s)
  else if bool_decide (s = gw_ex_rpc "8900") then Some (MkUrl "http:" "127.0.0.1" "8900" "/" "" "" "" "" s)
  else None.
Definition gw_ex_genesis (last : Z) : js_string := replicate 31 49 ++ [last].
Definition gw_ex_chain (url : js_string) : js_string := gw_ex_genesis (if bool_decide (url = gw_ex_rpc "8899") then 49 else 50).

Definition gw_ex_manifest : json :=
  JObj [(text "schemaVersion", JNum (Int 1)); (text "kind", JStr (text "surfnet")); (text "runtimeId", JStr (text "runtime"));
        (text "programId", JStr GATEWAY_PROGRAM_ID); (text "genesisHash", JStr (gw_ex_genesis 49));
        (text "deploymentDomainHex", JStr (replicate 64 48)); (text "rpcUrl", JStr (gw_ex_rpc "8899"))].
Definition gw_ex_state (snapshot : option (string * Z)) : json :=
  let asset := JObj [(text "id", JStr (text "xstocks-test-kox"))] in
  JObj [(text "schemaVersion", JNum (Int 4)); (text "runtimeId", JStr (text "runtime"));
        (text "status", JStr (text (if snapshot is Some _ then "ready" else "idle")));
        (text "asset", if snapshot is Some _ then asset else JNull);
        (text "snapshot", match snapshot with
                          | None => JNull
                          | Some (port, last) => JObj [(text "asset", asset); (text "dividendXProgram", JStr GATEWAY_PROGRAM_ID);
                                                       (text "genesisHash", JStr (gw_ex_genesis last)); (text "rpcUrl", JStr (gw_ex_rpc port))]
                          end)].

(** What the runtime answers to the last request it was sent; [second] is what
    a guided runtime shows from its third answer on. *)
Definition gw_ex_answer (second : string * Z) (l : list entry) : json :=
  let to_runtime := count (fun e => match e with Sent (ToRuntime _ _) => true | _ => false end) l in
  match last (List.filter (fun e => match e with Sent _ => true | _ => false end) l) with
  | Some (Sent (ToRuntime r _)) =>
      if bool_decide (r = "manifest") then gw_ex_manifest
      else gw_ex_state (if to_runtime =? 1 then None else if to_runtime =? 2 then Some ("8899", 49) else Some second)
  | Some (Sent (ToRpc url method)) =>
      if bool_decide (method = text "getGenesisHash") then JObj [(text "result", JStr (gw_ex_chain url))]
      else JObj [(text "result", JObj [(text "value", JObj [(text "executable", JBool true); (text "owner", JStr UPGRADEABLE_LOADER_ID)])])]
  | _ => JNull
  end.

Definition gw_ex_handler (kind : SandboxKind) (second : string * Z) (e : event) (w : world) : option (answer e * world) :=
  let g := gw_state w in
  let cf := gw_ex_config kind in
  match e return option (answer e * world) with
  | Admit rq =>
      let r := admit_request id cf rq gw_ex_now g in
      Some (fst r, noted (match fst r with Accepted _ => [SlotTaken] | _ => [] end) (become (snd r) w))
  | ReleaseSlot => Some (tt, noted [SlotReleased] (become (set_inflight (inflight g - 1) g) w))
  | JoinQueue => let x := join_queue g in
      Some (fst x, noted (match fst x with Ok mine => [QueueJoined mine] | Err _ => [] end) (become (snd x) w))
  | AwaitTurn mine => if turn_has_come g mine then Some (tt, noted [TurnTaken mine] w) else None
  | Settle mine => Some (tt, noted [OperationSettled mine] (become (settle mine g) w))
  | LeaveQueue => Some (tt, noted [QueueLeft] (become (set_mutationCount (mutationCount g - 1) g) w))
  | Begin r =>
      let x := begin_operation cf r gw_ex_now g in
      Some (fst x, noted (if is_ok (fst x) then [OperationBegun r] else []) (become (snd x) w))
  | Send t => Some (tt, noted [Sent t] w)
  | Receive => Some (Ok (MkResponse 200 None [100] true (Some (gw_ex_answer second (gw_log w)))), w)
  | ReadClock => Some (gw_ex_now, w)
  | Sleep => Some (tt, w)
  | ReadIdentity => Some ((runtimeId g, gw_identity g), w)
  | SetRpcUrl url => Some (gw_identity g, become (with_rpcUrl url g) w)
  | RestoreIdentity previous => Some (tt, become (set_gw_identity previous g) w)
  | PinChain genesis domain url => Some (tt, become (pin_chain genesis domain url g) w)
  | SetRuntime rid i => Some (tt, become (set_runtime rid (Some i) g) w)
  | FailAs p => Some (tt, become (fail p g) w)
  | FailStarting => Some (tt, become (if bool_decide (phase g = starting) then fail startup_failed g else g) w)
  | BecomeReady => Some (tt, noted [ReadyReached] (become (if bool_decide (phase g = starting) then set_phase ready g else g) w))
  | ReadPhase => Some (phase g, w)
  | Deliver r value => Some (still_ready cf gw_ex_now g, noted (if still_ready cf gw_ex_now g then [Delivered r value] else []) w)
  | SpawnChild => Some (true, become (set_child running g) w)
  | ChildGone => Some (tt, become (fail_child g) w)
  | ExpireNow => Some (tt, become (expire g) w)
  | CloseAs reason => Some (tt, become (close reason g) w)
  end.

Lemma gw_ex_occurs kind second i e w x w' :
  gw_ex_handler kind second e w = Some (x, w') -> gateway_step id (gw_ex_config kind) i e w x w'.
Proof.
  destruct e; intros He; cbn in He;
    try (injection He as <- <-; cbn; first [done | by exists gw_ex_now]).
  destruct (turn_has_come _ _) eqn:Hc; [|done]. by injection He as <- <-.
Qed.

Definition gw_ex_get (url : string) : Request := MkRequest (Some "Bearer token") "GET" url None None None [] true None.
Definition gw_ex_post (url : string) (body : json) : Request :=
  MkRequest (Some "Bearer token") "POST" url None None (Some "application/json") [100] true (Some body).
Definition gw_ex_run (kind : SandboxKind) second (schedule : list (source + nat)) : threads (event:=event) (answer:=answer) :=
  play (gw_ex_handler kind second) (sum_map (program gw_ex_url (gw_ex_config kind)) id <$> schedule)
    (Threads first_world [(0%nat, program gw_ex_url (gw_ex_config kind) Starting)]).

Lemma gw_ex_more kind second l l' :
  Forall (fun a => match a with inl Starting => False | _ => True end) l' ->
  rtc (thread_step (gateway_step id (gw_ex_config kind)) (starts gw_ex_url (gw_ex_config kind)))
    (gw_ex_run kind second l) (gw_ex_run kind second (l ++ l')).
Proof.
  intros Hs. unfold gw_ex_run. rewrite fmap_app. unfold play. rewrite fold_left_app. apply play_run.
  - intros. by eapply gw_ex_occurs.
  - apply Forall_fmap. eapply Forall_impl; [exact Hs|]. intros [src|j] Ha; [|done]. cbn. exists src. by split; [|destruct src].
Qed.
Lemma gw_ex_run_ok kind second schedule :
  Forall (fun a => match a with inl Starting => False | _ => True end) schedule ->
  gateway_run id gw_ex_url (gw_ex_config kind) (gw_ex_run kind second schedule).
Proof. apply (gw_ex_more kind second []). Qed.

Definition gw_ex_start : json :=
  JObj [(text "runtimeId", JStr (text "runtime")); (text "expectedRevision", JNum (Int 0)); (text "assetId", JStr (text "xstocks-test-kox"))].
Fixpoint alternate (n j k : nat) : list (source + nat) := match n with O => [] | S n' => inr j :: inr k :: alternate n' j k end.

(** A wallet becomes ready, shows its manifest, and is sent two transactions at once. *)
Definition gw_ex_wallet : list (source + nat) :=
  replicate 40 (inr 0%nat) ++ [inl (Incoming (gw_ex_get "/manifest"))] ++ replicate 20 (inr 1%nat)
  ++ [inl (Incoming (gw_ex_post "/rpc" ex_send)); inl (Incoming (gw_ex_post "/rpc" ex_send))] ++ alternate 30 2 3.
Definition gw_ex_wallet_end := gw_ex_run wallet ("8899", 49) gw_ex_wallet.
(** A guided runtime becomes ready and is asked to start twice at once. *)
Definition gw_ex_guided : list (source + nat) :=
  replicate 40 (inr 0%nat) ++ [inl (Incoming (gw_ex_post "/start" gw_ex_start)); inl (Incoming (gw_ex_post "/start" gw_ex_start))]
  ++ alternate 40 1 2.
Definition gw_ex_guided_end := gw_ex_run guided ("8899", 49) gw_ex_guided.

Lemma gw_ex_wallet_run : gateway_run id gw_ex_url (gw_ex_config wallet) gw_ex_wallet_end.
Proof. apply gw_ex_run_ok. repeat constructor. Qed.
Lemma gw_ex_guided_run : gateway_run id gw_ex_url (gw_ex_config guided) gw_ex_guided_end.
Proof. apply gw_ex_run_ok. repeat constructor. Qed.
(** The statuses of the answered requests. *)
Definition gw_ex_replies (s : threads (event:=event) (answer:=answer) (W:=world) (R:=reply)) : list Z :=
  omap (fun t => match snd t with Pure (Answered status _) => Some status | _ => None end) (th_threads s).

Example gateway_starts_once_witness :
  gw_ex_replies gw_ex_guided_end = [200; 409] /\
  count (start_sent (gw_ex_config guided)) (gw_log (th_world gw_ex_guided_end)) = 1 /\
  count (start_sent (gw_ex_config guided)) (gw_log (th_world gw_ex_guided_end)) <= 1.
Proof.
  split; [vm_compute; reflexivity|]. split; [vm_compute; reflexivity|].
  exact (gateway_starts_once id gw_ex_url (gw_ex_config guided) gw_ex_guided_end gw_ex_guided_run).
Defined.

Example gateway_mutations_witness :
  turns (gw_log (th_world gw_ex_wallet_end)) = Some ([], None) /\
  promises (gw_state (th_world gw_ex_wallet_end)) = [resolved; Promise (Some 0%nat) true; Promise (Some 1%nat) true] /\ turns (gw_log (th_world gw_ex_wallet_end)) <> None.
Proof.
  split; [vm_compute; reflexivity|]. split; [vm_compute; reflexivity|].
  exact (gateway_mutations_serial id gw_ex_url (gw_ex_config wallet) gw_ex_wallet_end gw_ex_wallet_run).
Defined.

Example gateway_slots_witness :
  inflight (gw_state (th_world (gw_ex_run wallet ("8899", 49) (take 67 gw_ex_wallet)))) = 2 /\
  inflight (gw_state (th_world gw_ex_wallet_end)) = 0.
Proof.
  split; [vm_compute; reflexivity|].
  destruct (gateway_slots_bounded id gw_ex_url (gw_ex_config wallet) gw_ex_wallet_end gw_ex_wallet_run) as (_ & _ & H).
  apply H. vm_compute. repeat constructor.
Defined.

(** The wallet's runtime exits while two transactions are under way: neither
    is answered. *)
Definition gw_ex_ending : list (source + nat) := alternate 8 2 3 ++ [inl ChildEnds; inr 4%nat].
Definition gw_ex_rest : list (source + nat) := alternate 30 2 3.
Example gateway_end_witness :
  let s := gw_ex_run wallet ("8899", 49) (take 63 gw_ex_wallet ++ gw_ex_ending) in
  let s' := gw_ex_run wallet ("8899", 49) ((take 63 gw_ex_wallet ++ gw_ex_ending) ++ gw_ex_rest) in
  phase (gw_state (th_world s)) = child_exited /\ gw_ex_replies s' = [200; 503; 503] /\ services s' = services s.
Proof.
  split; [vm_compute; reflexivity|]. split; [vm_compute; reflexivity|].
  refine (proj2 (gateway_end_is_final id gw_ex_url (gw_ex_config wallet) _ _ _ _ _)).
  - apply gw_ex_run_ok. repeat constructor.
  - apply gw_ex_more. repeat constructor.
  - vm_compute. reflexivity.
Defined.

Example wallet_identity_witness :
  let s := gw_ex_run wallet ("8899", 49) (take 40 gw_ex_wallet) in
  let s' := gw_ex_run wallet ("8899", 49) (take 40 gw_ex_wallet ++ drop 40 gw_ex_wallet) in
  gw_ex_replies s' = [200; 200; 200] /\ pinned (th_world s') = pinned (th_world s).
Proof.
  split; [vm_compute; reflexivity|].
  refine (wallet_identity_pinned id gw_ex_url (gw_ex_config wallet) _ _ _ _ _ _).
  - reflexivity.
  - apply gw_ex_run_ok. repeat constructor.
  - vm_compute. reflexivity.
  - apply gw_ex_more. repeat constructor.
Defined.

(** A guided runtime's chain is not pinned as firmly: of two requests whose
    answers are both checked before either chain is pinned, the second pins
    another chain over the first, and both are answered. *)
Definition gw_ex_race : list (source + nat) :=
  replicate 40 (inr 0%nat) ++ [inl (Incoming (gw_ex_get "/state")); inl (Incoming (gw_ex_get "/state"))]
  ++ replicate 5 (inr 1%nat) ++ replicate 5 (inr 2%nat) ++ replicate 30 (inr 1%nat) ++ replicate 30 (inr 2%nat).
Example guided_pin_overwritten :
  let s := gw_ex_run guided ("8900", 50) gw_ex_race in
  gateway_run id gw_ex_url (gw_ex_config guided) s /\ gw_ex_replies s = [200; 200] /\ phase (gw_state (th_world s)) = ready /\
  length (List.filter is_service (gw_log (th_world s))) = 6%nat /\
  (gw_identity (gw_state (th_world s)) ≫= gi_genesisHash) = Some (gw_ex_genesis 50) /\
  (gw_identity (gw_state (th_world (gw_ex_run guided ("8900", 50) (take 70 gw_ex_race)))) ≫= gi_genesisHash) = Some (gw_ex_genesis 49).
Proof.
  split; [apply gw_ex_run_ok; repeat constructor|]. repeat split; vm_compute; reflexivity.
Qed.
