(* ===== verification/Base58.v ===== *)
(** * Base58 texts of signatures and addresses

    [base58Encode] of [packages/devnet-runtime/src/transactions.ts], and that
    the gateway's [base58Bytes] reads back what it writes for a 32-byte value. *)
From S2P Require Import Prelude Js TxBytes Utf8 Json Gateway.
Open Scope Z_scope.

(** ** The encoder *)

(** One pass of the inner loop: the digits, least significant first, and the
    carry that is left. *)
Fixpoint carry_digits (carry : Z) (digits : list Z) : list Z * Z :=
  match digits with
  | [] => ([], carry)
  | d :: rest =>
      let c := carry + d * 256 in
      let '(rest', over) := carry_digits (c / 58) rest in
      (c mod 58 :: rest', over)
  end.
(** [while (carry > 0)]; a carry is below 256, so two rounds are enough. *)
Fixpoint push_digits (fuel : nat) (carry : Z) : list Z :=
  match fuel with
  | O => []
  | S fuel' => if 0 <? carry then carry mod 58 :: push_digits fuel' (carry / 58) else []
  end.
Definition add_byte (digits : list Z) (byte : Z) : list Z :=
  let '(digits', over) := carry_digits byte digits in digits' ++ push_digits 2 over.
(** The zero bytes in front, of all bytes but the last. *)
Fixpoint leading_zeros (l : bytes) : nat :=
  match l with b :: ((_ :: _) as rest) => if b =? 0 then S (leading_zeros rest) else 0%nat | _ => 0%nat end.
Definition base58_digit (d : Z) : Z := nth (Z.to_nat d) (text (unchars BASE58_ALPHABET)) 0.
Definition base58Encode (input : bytes) : js_string :=
  match input with
  | [] => []
  | _ => replicate (leading_zeros input) 49 ++ (base58_digit <$> reverse (fold_left add_byte input [0]))
  end.

(** ** Digits and their number *)

Fixpoint number58 (digits : list Z) : Z := match digits with [] => 0 | d :: rest => d + 58 * number58 rest end.
Definition number256 (l : bytes) : Z := fold_left (fun v b => v * 256 + b) l 0.
Definition digit_ok (d : Z) : Prop := 0 <= d < 58.
(** No zero on top, but for the number zero. *)
Definition minimal (digits : list Z) : Prop := digits = [0] \/ exists low d, digits = low ++ [d] /\ d <> 0.

Lemma number58_app l k : number58 (l ++ k) = number58 l + 58 ^ Z.of_nat (length l) * number58 k.
Proof.
  induction l as [|d l IH]; cbn -[Z.mul Z.pow Z.of_nat]; [lia|]. rewrite IH, Nat2Z.inj_succ, Z.pow_succ_r by lia. ring.
Qed.

Lemma number58_bounds l : Forall digit_ok l -> 0 <= number58 l < 58 ^ Z.of_nat (length l).
Proof.
  unfold digit_ok. induction 1 as [|d l Hd _ IH]; cbn -[Z.mul Z.pow Z.of_nat]; [lia|].
  rewrite Nat2Z.inj_succ, Z.pow_succ_r by lia. lia.
Qed.

Lemma carry_digits_spec digits carry :
  Forall digit_ok digits -> 0 <= carry < 256 ->
  let '(digits', over) := carry_digits carry digits in
  number58 digits' + 58 ^ Z.of_nat (length digits) * over = carry + 256 * number58 digits /\
  Forall digit_ok digits' /\ length digits' = length digits /\ 0 <= over < 256.
Proof.
  unfold digit_ok. intros Hd. revert carry. induction Hd as [|d l Hd _ IH]; intros carry Hc; cbn -[Z.mul Z.pow Z.of_nat]; [by split_and!; try lia|].
  assert (Hq : 0 <= (carry + d * 256) / 58 < 256) by (split; [apply Z.div_pos; lia|apply Z.div_lt_upper_bound; lia]).
  specialize (IH _ Hq). destruct (carry_digits _ l) as [l' over]. destruct IH as (Hv & Hok & Hl & Hb).
  pose proof (Z.div_mod (carry + d * 256) 58 ltac:(lia)). pose proof (Z.mod_pos_bound (carry + d * 256) 58 ltac:(lia)).
  split_and!; [|by constructor|cbn; lia|lia|lia]. cbn -[Z.mul Z.pow Z.of_nat]. rewrite Nat2Z.inj_succ, Z.pow_succ_r by lia. nia.
Qed.

Lemma push_digits_spec carry :
  0 <= carry < 256 ->
  number58 (push_digits 2 carry) = carry /\ Forall digit_ok (push_digits 2 carry) /\
  (carry = 0 -> push_digits 2 carry = []) /\ (0 < carry -> exists low d, push_digits 2 carry = low ++ [d] /\ d <> 0).
Proof.
  intros Hc. unfold digit_ok. cbn [push_digits].
  pose proof (Z.div_mod carry 58 ltac:(lia)). pose proof (Z.mod_pos_bound carry 58 ltac:(lia)).
  destruct (0 <? carry) eqn:E0; [|by cbn; split_and!; try lia].
  assert (Hq : 0 <= carry / 58 < 58) by lia. destruct (0 <? carry / 58) eqn:E1.
  - rewrite (Z.mod_small (carry / 58)) by lia. cbn -[Z.mul Z.div Z.modulo]. split_and!; [lia|rewrite ?Forall_cons; by split_and!; try lia|lia|]. intros _. exists [carry mod 58], (carry / 58). split; [done|lia].
  - cbn -[Z.mul Z.div Z.modulo]. split_and!; [lia|rewrite ?Forall_cons; by split_and!; try lia|lia|]. intros _. exists [], (carry mod 58). split; [done|lia].
Qed.

(** The top digit stays below 58 only when nothing carries out, so a carry pass
    keeps a number without a zero on top. *)
Lemma add_byte_spec digits byte :
  Forall digit_ok digits -> minimal digits -> byte_ok byte ->
  number58 (add_byte digits byte) = 256 * number58 digits + byte /\
  Forall digit_ok (add_byte digits byte) /\ minimal (add_byte digits byte).
Proof.
  intros Hd Hm Hb. unfold add_byte. pose proof (carry_digits_spec digits byte Hd Hb) as Hs.
  destruct (carry_digits byte digits) as [digits' over] eqn:Hc. destruct Hs as (Hv & Hok & Hl & Hover).
  destruct (push_digits_spec over Hover) as (Hpv & Hpo & H0 & H1).
  split_and!; [rewrite number58_app, Hpv, Hl; lia|by apply Forall_app|].
  destruct (decide (over = 0)) as [->|Hn].
  2:{ destruct H1 as (low & d & -> & Hnz); [lia|]. right. exists (digits' ++ low), d. by rewrite app_assoc. }
  rewrite (H0 eq_refl), app_nil_r. clear H0 H1 Hpv Hpo. destruct Hm as [->|(low & d & -> & Hnz)].
  - destruct digits' as [|d' [|]]; try (cbn in Hl; lia). destruct (decide (d' = 0)) as [->|]; [by left|]. right. by exists [], d'.
  - right. rewrite length_app in Hl. cbn in Hl. destruct digits' as [|d' low' _] using rev_ind; [cbn in Hl; lia|].
    exists low', d'. split; [done|]. intros ->. rewrite number58_app in Hv. cbn -[Z.mul Z.pow Z.of_nat] in Hv.
    rewrite length_app in Hl, Hv. cbn in Hl, Hv. apply Forall_app in Hok as [Hok _], Hd as [Hd Hdd]. apply Forall_singleton in Hdd.
    apply number58_bounds in Hok. pose proof (number58_bounds _ Hd). rewrite number58_app in Hv. cbn -[Z.mul Z.pow Z.of_nat] in Hv.
    assert (Hlen : length low' = length low) by lia. rewrite Hlen in Hok. unfold digit_ok in Hdd. unfold byte_ok in Hb. nia.
Qed.

Lemma encode_digits_spec l digits :
  Forall byte_ok l -> Forall digit_ok digits -> minimal digits ->
  number58 (fold_left add_byte l digits) = fold_left (fun v b => v * 256 + b) l (number58 digits) /\
  Forall digit_ok (fold_left add_byte l digits) /\ minimal (fold_left add_byte l digits).
Proof.
  intros Hl. revert digits. induction Hl as [|b l Hb _ IH]; intros digits Hd Hm; [done|]. cbn [fold_left].
  destruct (add_byte_spec _ _ Hd Hm Hb) as (Hv & Hd' & Hm'). destruct (IH _ Hd' Hm') as (-> & ? & ?). rewrite Hv.
  by replace (256 * number58 digits + b) with (number58 digits * 256 + b) by lia.
Qed.

(** ** Reading a text back *)

Lemma base58_alphabet d : digit_ok d -> index_of BASE58_ALPHABET (base58_digit d) = Some d /\ (base58_digit d = 49 <-> d = 0).
Proof.
  intros Hd. assert (H : forallb (fun n => bool_decide (index_of BASE58_ALPHABET (base58_digit (Z.of_nat n)) = Some (Z.of_nat n))
    && Bool.eqb (base58_digit (Z.of_nat n) =? 49) (Nat.eqb n 0)) (seq 0 58) = true) by (vm_compute; reflexivity).
  rewrite forallb_forall in H. unfold digit_ok in Hd. specialize (H (Z.to_nat d)). rewrite in_seq, Z2Nat.id in H by lia.
  apply andb_prop in H as [H1%bool_decide_eq_true H2%eqb_prop]; [|lia]. split; [done|].
  rewrite <- Z.eqb_eq, H2, Nat.eqb_eq. lia.
Qed.

Lemma base58_number_app acc s t : base58_number acc (s ++ t) = base58_number acc s ≫= (fun v => base58_number v t).
Proof. revert acc. induction s as [|u s IH]; intros acc; cbn; [done|]. by case_match. Qed.

Lemma base58_number_digits acc ds :
  Forall digit_ok ds -> base58_number acc (base58_digit <$> reverse ds) = Some (acc * 58 ^ Z.of_nat (length ds) + number58 ds).
Proof.
  intros Hd. revert acc. induction Hd as [|d ds Hd _ IH]; intros acc; [cbn; f_equal; lia|].
  rewrite reverse_cons, fmap_app, base58_number_app, IH. cbn -[Z.mul Z.pow Z.of_nat base58_digit index_of BASE58_ALPHABET]. rewrite (proj1 (base58_alphabet d Hd)).
  rewrite Nat2Z.inj_succ, Z.pow_succ_r by lia. f_equal. ring.
Qed.

Lemma base58_number_ones k s : base58_number 0 (replicate k 49 ++ s) = base58_number 0 s.
Proof. induction k as [|k IH]; [done|exact IH]. Qed.

Lemma leading_ones_ones k s : leading_ones (replicate k 49 ++ s) = replicate k 0 ++ leading_ones s.
Proof. induction k as [|k IH]; [done|]. cbn. by rewrite IH. Qed.

Lemma leading_ones_digits ds :
  Forall digit_ok ds -> minimal ds -> leading_ones (base58_digit <$> reverse ds) = if decide (ds = [0]) then [0] else [].
Proof.
  intros Hd [->|(low & d & -> & Hnz)]; [done|]. rewrite decide_False.
  - rewrite reverse_snoc. cbn -[base58_digit]. apply Forall_app in Hd as [_ Hd]; apply Forall_inv in Hd.
    pose proof (base58_alphabet d Hd) as [_ H]. destruct (base58_digit d =? 49) eqn:E; [|done]. apply Z.eqb_eq in E. tauto.
  - intros H. apply (app_inj_tail low [] d 0) in H as [_ ->]. done.
Qed.

Lemma number256_snoc l b : number256 (l ++ [b]) = number256 l * 256 + b.
Proof. unfold number256. by rewrite fold_left_app. Qed.
Lemma number256_zeros k l : number256 (replicate k 0 ++ l) = number256 l.
Proof. induction k as [|k IH]; [done|exact IH]. Qed.
Lemma number256_bounds l : Forall byte_ok l -> 0 <= number256 l < 256 ^ Z.of_nat (length l).
Proof.
  induction l as [|b l IH] using rev_ind; [done|]. rewrite Forall_app, Forall_singleton. intros [Hl Hb]. specialize (IH Hl).
  rewrite number256_snoc, length_app. cbn -[Z.pow]. rewrite Nat.add_1_r, Nat2Z.inj_succ, Z.pow_succ_r by lia.
  unfold byte_ok in Hb. lia.
Qed.
Lemma number256_top b l : byte_ok b -> b <> 0 -> Forall byte_ok l -> 256 ^ Z.of_nat (length l) <= number256 (b :: l).
Proof.
  intros Hb Hnz. unfold byte_ok in Hb. induction l as [|c l IH] using rev_ind; intros Hl; [cbn; lia|].
  apply Forall_app in Hl as [Hl Hc]; apply Forall_inv in Hc. specialize (IH Hl). rewrite app_comm_cons, number256_snoc, length_app.
  cbn -[Z.pow number256]. rewrite Nat.add_1_r, Nat2Z.inj_succ, Z.pow_succ_r by lia. unfold byte_ok in Hc. lia.
Qed.

Lemma number_bytes_read l acc fuel :
  Forall byte_ok l -> (length l <= fuel)%nat -> (l = [] \/ exists b l', l = b :: l' /\ b <> 0) ->
  number_bytes fuel (number256 l) acc = l ++ acc.
Proof.
  revert acc fuel. induction l as [|b l IH] using rev_ind; intros acc fuel Hl Hf Htop; [by destruct fuel|].
  apply Forall_app in Hl as [Hl Hb]; apply Forall_inv in Hb. rewrite length_app in Hf. cbn in Hf. destruct fuel as [|fuel]; [lia|].
  cbn -[Z.div Z.modulo]. rewrite number256_snoc. unfold byte_ok in Hb. pose proof (number256_bounds l Hl).
  rewrite Z.div_add_l, (Z.div_small b), Z.add_0_r, (Z.add_comm _ b), Z.mod_add, (Z.mod_small b) by lia.
  assert (Hl' : l = [] \/ exists c l', l = c :: l' /\ c <> 0).
  { destruct l as [|c l]; [by left|]. right. destruct Htop as [|(b' & l' & [= -> _] & Hnz)]; [done|]. eauto. }
  rewrite (IH (b :: acc) fuel Hl ltac:(lia) Hl'), <- app_assoc. destruct (_ =? 0) eqn:E; [|done]. apply Z.eqb_eq in E. exfalso.
  destruct Hl' as [->|(c & l' & -> & Hnz)].
  - destruct Htop as [|(b' & l' & [= -> _] & Hnz)]; [done|]. cbn in E. lia.
  - apply Forall_cons in Hl as [Hc Hl]. pose proof (number256_top _ _ Hc Hnz Hl).
    pose proof (Z.pow_pos_nonneg 256 (Z.of_nat (length l'))). lia.
Qed.

Lemma leading_zeros_spec l :
  l <> [] -> exists b rest, l = replicate (leading_zeros l) 0 ++ b :: rest /\ (b = 0 -> rest = []).
Proof.
  induction l as [|b [|c l] IH]; intros Hl; [done|by exists b, []|]. cbn [leading_zeros]. destruct (b =? 0) eqn:E.
  - destruct IH as (b' & rest & Heq & H); [done|]. exists b', rest. apply Z.eqb_eq in E as ->. split; [|done].
    exact (f_equal (cons 0) Heq).
  - exists b, (c :: l). split; [done|lia].
Qed.

Lemma base58_length k l m :
  (k <= 31)%nat -> length l = (32 - k)%nat -> Forall byte_ok l -> 256 ^ Z.of_nat (31 - k) <= number256 l < 58 ^ Z.of_nat m ->
  (0 < m)%nat -> 58 ^ Z.of_nat (m - 1) <= number256 l -> (32 <= k + m <= 44)%nat.
Proof.
  intros Hk Hl Hb [Hlo Hhi] Hm Htop. apply number256_bounds in Hb. rewrite Hl in Hb. split.
  - destruct (decide (k + m < 32)%nat) as [Hlt|]; [|lia]. exfalso.
    assert (58 ^ Z.of_nat m <= 256 ^ Z.of_nat (31 - k)); [|lia].
    etrans; [apply (Z.pow_le_mono_r 58 _ (Z.of_nat (31 - k))); lia|apply Z.pow_le_mono_l; lia].
  - destruct (decide (44 < k + m)%nat) as [Hgt|]; [|lia]. exfalso.
    assert (58 ^ Z.of_nat (44 - k) <= 58 ^ Z.of_nat (m - 1)) by (apply Z.pow_le_mono_r; lia).
    assert (Ht : forallb (fun k => 256 ^ Z.of_nat (32 - k) <=? 58 ^ Z.of_nat (44 - k)) (seq 0 32) = true) by (vm_compute; reflexivity).
    rewrite forallb_forall in Ht. specialize (Ht k). rewrite in_seq in Ht. cbv beta in Ht. apply Z.leb_le in Ht; lia.
Qed.

Lemma minimal_length ds :
  Forall digit_ok ds -> minimal ds ->
  (0 < length ds)%nat /\ (ds = [0] \/ 58 ^ Z.of_nat (length ds - 1) <= number58 ds).
Proof.
  intros Hd [->|(low & d & -> & Hnz)]; [split; [cbn; lia|by left]|]. rewrite length_app. cbn [length].
  apply Forall_app in Hd as [Hl Hd]; apply Forall_inv in Hd. split; [lia|]. right.
  rewrite number58_app. cbn [number58]. replace (length low + 1 - 1)%nat with (length low) by lia.
  pose proof (number58_bounds _ Hl). unfold digit_ok in Hd. nia.
Qed.

(** The gateway's [base58Bytes] reads back every 32-byte value from the
    text [base58Encode] writes for it, zero bytes in front included. *)
Theorem base58_roundtrip l : Forall byte_ok l -> length l = 32%nat -> base58Bytes (base58Encode l) = Ok l.
Proof.
  intros Hb Hlen. destruct (leading_zeros_spec l) as (b & rest & Heq & Hz); [by destruct l|]. set (k := leading_zeros l) in *.
  destruct (encode_digits_spec l [0] Hb) as (Hv & Hd & Hm); [by repeat constructor|by left|]. cbn [number58] in Hv.
  set (ds := fold_left add_byte l [0]) in *. change (number58 ds = number256 l) in Hv.
  assert (Hn : number256 l = number256 (b :: rest)) by (rewrite Heq; apply number256_zeros).
  assert (Hl : (length (b :: rest) = 32 - k /\ k <= 31)%nat) by (rewrite Heq, length_app, length_replicate in Hlen; cbn in *; lia).
  assert (Hbr : Forall byte_ok (b :: rest)) by (rewrite Heq in Hb; by apply Forall_app in Hb as [_ Hb]).
  assert (He : base58Encode l = replicate k 49 ++ (base58_digit <$> reverse ds)) by (unfold base58Encode; by destruct l).
  assert (Hnum : base58_number 0 (base58Encode l) = Some (number256 l)).
  { rewrite He, base58_number_ones, base58_number_digits, Hv by done. f_equal. }
  assert (Hread : (32 <= length (base58Encode l) <= 44)%nat /\ leading_ones (base58Encode l) ++ number_bytes 34 (number256 l) [] = l).
  { rewrite He, leading_ones_ones, leading_ones_digits, length_app, length_replicate, length_fmap, length_reverse by done.
    destruct (minimal_length ds Hd Hm) as [Hpos Htop]. apply Forall_cons in Hbr as [Hb0 Hrest].
    destruct (decide (b = 0)) as [->|Hnz].
    - rewrite (Hz eq_refl) in *. assert (k = 31%nat) as Hk by (cbn in Hl; lia). rewrite Hn in Hv |- *. cbn in Hv.
      assert (ds = [0]) as Hds.
      { destruct Htop as [|Htop]; [done|]. pose proof (Z.pow_pos_nonneg 58 (Z.of_nat (length ds - 1))). lia. }
      rewrite Hds, Hk, Heq, Hk. split; [cbn; lia|done].
    - pose proof (number256_top b rest Hb0 Hnz Hrest) as Hlow. cbn [length] in Hl.
      rewrite decide_False; [|intros ->; cbn in Hv; pose proof (Z.pow_pos_nonneg 256 (Z.of_nat (length rest))); lia].
      destruct Htop as [->|Htop]; [cbn in Hv; pose proof (Z.pow_pos_nonneg 256 (Z.of_nat (length rest))); lia|].
      pose proof (number58_bounds _ Hd). replace (length rest) with (31 - k)%nat in Hlow by lia. split.
      + apply (base58_length k (b :: rest)); [lia|cbn; lia|by constructor|lia|lia|lia].
      + rewrite Hn, app_nil_r, number_bytes_read, app_nil_r; [done|by constructor|cbn; lia|right; eauto]. }
  destruct Hread as [Hlen' Hread]. unfold base58Bytes, or_throw, len, between. rewrite Hnum, Hread, Hlen.
  rewrite (proj2 (Z.leb_le _ _)), (proj2 (Z.leb_le _ _)) by lia. done.
Qed.

Example base58_roundtrip_witness :
  base58Encode (replicate 31 0 ++ [200]) = text "111111111111111111111111111111" ++ text "14T" /\
  base58Bytes (base58Encode (replicate 31 0 ++ [200])) = Ok (replicate 31 0 ++ [200]).
Proof.
  split; [vm_compute; reflexivity|]. apply base58_roundtrip; [repeat constructor; lia|reflexivity].
Defined.
