(* ===== verification/DevnetSteps.v ===== *)
(** * Devnet runtime: resumable steps

    [executeResumableStep] of [packages/devnet-runtime/src/transactions.ts]:
    each step of provisioning the devnet registry signs a transaction, writes
    it to the private state file before it is sent, and after a crash first
    finds out what became of the attempt it finds there.  A call is a tree of
    events; the invocations of one process run one after another.

    The chain is the outside world: it processes a transaction that was sent at
    any later moment, once, with or without an error.  Where a node reports a
    signature as confirmed or finalized without an error, or confirms it, its
    transaction took effect; where it reports an error, nothing follows: that
    report may be of a fork that is dropped.

    Parameter: the bytes of the first signature of a serialized transaction. *)
From stdpp Require Import gmap strings.
From S2P Require Import Prelude Js TxBytes Utf8 Base58 Programs.
Open Scope Z_scope.

(** ** Data *)

Definition MAX_BOOTSTRAP_SPEND_LAMPORTS : Z := 150000000.
Definition MAX_CATALOG_EXPANSION_SPEND_LAMPORTS : Z := 300000000.

(** The serialized transaction is its base64 text, which both [sendRawTransaction]s send. *)
Record StoredAttempt := MkStored {
  sa_signature : js_string; sa_blockhash : string; sa_lastValidBlockHeight : Z; sa_serialized : string;
  sa_preparedAt : Z; sa_submittedAt : option Z;
}.
(** [state.steps] *)
Abbreviation steps := (gmap string (list StoredAttempt)).

(** Codes of [DevnetRuntimeError], or another error. *)
Inductive failure := Code (code : string) | OtherError.
Abbreviation res := (Prelude.result failure).
Definition invariant (condition : bool) (code : string) : res unit := require condition (Code code).

Inductive Confirmation := processed | confirmed | finalized.
(** [value[0]] of [getSignatureStatuses]: whether [err] is set, and how far it is confirmed. *)
Record SignatureStatus := MkStatus { st_err : bool; st_confirmation : option Confirmation }.
Definition is_confirmed (s : SignatureStatus) : bool :=
  match st_confirmation s with Some confirmed | Some finalized => true | _ => false end.

Record Blockhash := MkBlockhash { bh_blockhash : string; bh_lastValidBlockHeight : Z }.
(** What [simulateTransaction] returns: whether [err] is set, and the administrator's lamports. *)
Record Simulation := MkSimulation { sim_err : bool; sim_adminLamports : option Z }.

(** [context] without the connection: [budget], and [state.initialAdminLamports]. *)
Record StepContext := MkContext { cx_budget : option (Z * Z); cx_initialAdminLamports : option Z }.

(** ** Events *)

Inductive event :=
  | Check (name : string)                               (* [check()] of the step *)
  | ReadAttempts (name : string)                        (* [context.state.steps[name]?.attempts ?? []] *)
  | GetStatus (signature : js_string)                   (* [getSignatureStatuses] *)
  | GetBlockHeight
  | GetLatestBlockhash
  | SignTransaction (name : string) (latest : Blockhash)
  | Simulate (serialized : string)
  | ReadClock
  | PushAttempt (name : string) (attempt : StoredAttempt)
  | MarkSubmitted (name : string) (time : Z)             (* [submittedAt ??= ...] of the last attempt *)
  | WriteState                                          (* [writePrivateJson(statePath, state)] *)
  | SendRaw (name : string) (serialized : string)       (* [sendRawTransaction] *)
  | Confirm (signature : js_string).                    (* [confirmTransaction], its [value.err] *)

Definition answer (e : event) : Type :=
  match e with
  | Check _ => res bool
  | ReadAttempts _ => list StoredAttempt
  | GetStatus _ => res (option SignatureStatus)
  | GetBlockHeight => res Z
  | GetLatestBlockhash => res Blockhash
  | SignTransaction _ _ => res string
  | Simulate _ => res Simulation
  | ReadClock => Z
  | PushAttempt _ _ | MarkSubmitted _ _ => unit
  | WriteState => res unit
  | SendRaw _ _ => res js_string
  | Confirm _ => res bool
  end.
Abbreviation rt := (call event answer failure).
Abbreviation ask e := (trigger_result (answer:=answer) (F:=failure) e (fun r => r)).
Abbreviation act e := (trigger (answer:=answer) (F:=failure) e).
Definition check_that (condition : bool) (code : string) : rt unit := lift_result (invariant condition code).

(** ** Steps *)

Section steps.
Context (signature_bytes : string -> bytes).
(** [base58Encode(signed.signatures[0])] *)
Definition signature_of (serialized : string) : js_string := base58Encode (signature_bytes serialized).

Definition assertBootstrapBudget (initialLamports projectedLamports maxSpendLamports : Z) : res unit :=
  invariant ((projectedLamports <=? initialLamports) && (initialLamports - projectedLamports <=? maxSpendLamports)) "BOOTSTRAP_BUDGET_EXCEEDED".

Definition persistedStepConfirmed (name : string) : rt bool :=
  attempts ← act (ReadAttempts name);
  match last attempts with
  | None => mret false
  | Some previous =>
      status ← ask (GetStatus (sa_signature previous));
      mret match status with Some s => negb (st_err s) && is_confirmed s | None => false end
  end.

(** A confirmed attempt: [null] when its effect is gone and the step may be repeated. *)
Definition reconcile_confirmed (name : string) (previous : StoredAttempt) (repeatableAfterConfirmed : bool) : rt (option js_string) :=
  present ← ask (Check name);
  if (present : bool) then mret (Some (sa_signature previous))
  else check_that repeatableAfterConfirmed "CONFIRMED_STEP_RECONCILIATION_FAILED" ;; mret None.

Definition confirm_sent (name : string) (signature : js_string) : rt unit :=
  err ← ask (Confirm signature);
  check_that (negb err) "TRANSACTION_FAILED" ;;
  present ← ask (Check name);
  check_that present "STEP_RECONCILIATION_FAILED".

Definition reconcilePersistedAttempt (name : string) (repeatableAfterConfirmed : bool) : rt (option js_string) :=
  attempts ← act (ReadAttempts name);
  match last attempts with
  | None => mret None
  | Some previous =>
      let sig := sa_signature previous in
      status ← ask (GetStatus sig);
      if match status with Some s => st_err s | None => false end then mret None
      else if match status with Some s => is_confirmed s | None => false end
      then reconcile_confirmed name previous repeatableAfterConfirmed
      else
        blockHeight ← ask GetBlockHeight;
        if sa_lastValidBlockHeight previous <? blockHeight then
          finalStatus ← ask (GetStatus sig);
          if match finalStatus with Some s => st_err s | None => false end then mret None
          else if match finalStatus with Some s => is_confirmed s | None => false end
          then reconcile_confirmed name previous repeatableAfterConfirmed
          else raise (Code "EXPIRED_SIGNATURE_UNRESOLVED")
        else
          returned ← ask (SendRaw name (sa_serialized previous));
          check_that (js_eq returned sig) "SIGNATURE_RETRY_MISMATCH" ;;
          now ← act ReadClock;
          act (MarkSubmitted name now) ;;
          ask WriteState ;;
          confirm_sent name sig ;;
          mret (Some sig)
  end.

(** A new attempt: signed, simulated, written and only then sent. *)
Definition prepare_and_send (cx : StepContext) (name : string) : rt (option js_string) :=
  latest ← ask GetLatestBlockhash;
  serialized ← ask (SignTransaction name latest);
  simulation ← ask (Simulate serialized);
  check_that (negb (sim_err simulation)) "SIMULATION_FAILED" ;;
  match sim_adminLamports simulation with
  | None => raise (Code "BUDGET_SIMULATION_MISSING")
  | Some projectedAdmin =>
      check_that (isSafeInteger projectedAdmin) "BUDGET_SIMULATION_MISSING" ;;
      let initial := match cx_budget cx with Some (initial, _) => initial | None => default (-1) (cx_initialAdminLamports cx) end in
      check_that (0 <=? initial) "BOOTSTRAP_BUDGET_MISSING" ;;
      lift_result (assertBootstrapBudget initial projectedAdmin
        (match cx_budget cx with Some (_, maxSpend) => maxSpend | None => MAX_BOOTSTRAP_SPEND_LAMPORTS end)) ;;
      let signature := signature_of serialized in
      preparedAt ← act ReadClock;
      act (PushAttempt name (MkStored signature (bh_blockhash latest) (bh_lastValidBlockHeight latest) serialized preparedAt None)) ;;
      ask WriteState ;;
      returned ← ask (SendRaw name serialized);
      check_that (js_eq returned signature) "SIGNATURE_SUBMISSION_MISMATCH" ;;
      submittedAt ← act ReadClock;
      act (MarkSubmitted name submittedAt) ;;
      ask WriteState ;;
      confirm_sent name signature ;;
      mret (Some signature)
  end.

Definition executeResumableStep (cx : StepContext) (name : string) (repeatableAfterConfirmed : bool) : rt (option js_string) :=
  present ← ask (Check name);
  if (present : bool) then mret None
  else
    reconciled ← reconcilePersistedAttempt name repeatableAfterConfirmed;
    match reconciled with
    | Some (u :: s) => mret (Some (u :: s))
    | _ =>
        present ← ask (Check name);
        if (present : bool) then mret None else prepare_and_send cx name
    end.

(** The command-line operations send without a record: once, if the simulation accepts it. *)
Definition simulateSendAndConfirm (name : string) : rt js_string :=
  latest ← ask GetLatestBlockhash;
  serialized ← ask (SignTransaction name latest);
  simulation ← ask (Simulate serialized);
  check_that (negb (sim_err simulation)) "SIMULATION_FAILED" ;;
  signature ← ask (SendRaw name serialized);
  err ← ask (Confirm signature);
  check_that (negb err) "TRANSACTION_FAILED" ;;
  mret signature.

(** ** A process: steps one after another, as [provisionAsset] makes them *)

Record step_call := StepCall { sc_context : StepContext; sc_name : string; sc_repeatable : bool }.
Fixpoint run_steps (calls : list step_call) : rt (list (string * option js_string)) :=
  match calls with
  | [] => mret []
  | c :: rest =>
      r ← executeResumableStep (sc_context c) (sc_name c) (sc_repeatable c);
      rs ← run_steps rest;
      mret ((sc_name c, r) :: rs)
  end.

(** The steps of [provisionAsset] for the asset [id]. *)
Definition provision_steps (cx : StepContext) (id : string) : list step_call :=
  [StepCall cx ("create_mint_" +:+ id) false; StepCall cx ("register_policy_" +:+ id) false;
   StepCall cx ("observe_profile_" +:+ id) true; StepCall cx ("create_series_" +:+ id) false].

(** ** The world *)

(** [w_memory] is [context.state.steps]; [w_file] what the state file holds;
    [w_sent] every transaction given to [sendRawTransaction], by its step;
    [w_processed] what became of a signature: [true] when its transaction took
    effect, [false] when it failed; [w_failed] the signatures whose status a
    node reported with an error; and [w_found] the steps whose [check()]
    answered [true] to the process that runs. *)
Record world := World {
  w_memory : steps; w_file : steps; w_sent : list (string * string); w_processed : gmap js_string bool;
  w_failed : list js_string; w_found : list string;
}.
Definition initial_world : world := World ∅ ∅ [] ∅ [] [].
Definition set_memory (m : steps) (w : world) : world := World m (w_file w) (w_sent w) (w_processed w) (w_failed w) (w_found w).
Definition set_file (f : steps) (w : world) : world := World (w_memory w) f (w_sent w) (w_processed w) (w_failed w) (w_found w).
Definition add_sent (t : string * string) (w : world) : world :=
  World (w_memory w) (w_file w) (w_sent w ++ [t]) (w_processed w) (w_failed w) (w_found w).
Definition set_processed (signature : js_string) (ok : bool) (w : world) : world :=
  World (w_memory w) (w_file w) (w_sent w) (<[signature := ok]> (w_processed w)) (w_failed w) (w_found w).
Definition add_failed (signatures : list js_string) (w : world) : world :=
  World (w_memory w) (w_file w) (w_sent w) (w_processed w) (w_failed w ++ signatures) (w_found w).
Definition add_found (names : list string) (w : world) : world :=
  World (w_memory w) (w_file w) (w_sent w) (w_processed w) (w_failed w) (w_found w ++ names).
Definition attempts_of (s : steps) (name : string) : list StoredAttempt := default [] (s !! name).

(** The chain processes a transaction that was sent. *)
Inductive chain_step : world -> world -> Prop :=
  | processes w name serialized ok :
      (name, serialized) ∈ w_sent w -> w_processed w !! signature_of serialized = None ->
      chain_step w (set_processed (signature_of serialized) ok w).

(** A status without an error is true of the chain where it is confirmed. *)
Definition status_true (w : world) (signature : js_string) (status : SignatureStatus) : Prop :=
  st_err status = false -> is_confirmed status = true -> w_processed w !! signature = Some true.

Definition mark_submitted (time : Z) (a : StoredAttempt) : StoredAttempt :=
  MkStored (sa_signature a) (sa_blockhash a) (sa_lastValidBlockHeight a) (sa_serialized a) (sa_preparedAt a)
    (Some (default time (sa_submittedAt a))).
(** The last element of a list changed. *)
Fixpoint alter_last {A} (f : A -> A) (l : list A) : list A :=
  match l with [] => [] | [a] => [f a] | a :: rest => a :: alter_last f rest end.

Definition step_occurs (e : event) (w : world) : answer e -> world -> Prop :=
  match e return answer e -> world -> Prop with
  | GetBlockHeight | GetLatestBlockhash | SignTransaction _ _ | Simulate _ | ReadClock => fun _ w' => w' = w
  | Check name => fun x w' => w' = add_found (match x with Ok true => [name] | _ => [] end) w
  | ReadAttempts name => fun x w' => w' = w /\ x = attempts_of (w_memory w) name
  | GetStatus signature => fun x w' =>
      match x with Ok (Some s) => status_true w signature s | _ => True end /\
      w' = add_failed (match x with Ok (Some s) => if st_err s then [signature] else [] | _ => [] end) w
  | PushAttempt name a => fun _ w' => w' = set_memory (<[name := attempts_of (w_memory w) name ++ [a]]> (w_memory w)) w
  | MarkSubmitted name time => fun _ w' =>
      w' = set_memory (<[name := alter_last (mark_submitted time) (attempts_of (w_memory w) name)]> (w_memory w)) w
  | WriteState => fun x w' => w' = set_file (w_memory w) w \/ (is_ok x = false /\ w' = w)
  | SendRaw name serialized => fun x w' => w' = add_sent (name, serialized) w \/ (is_ok x = false /\ w' = w)
  | Confirm signature => fun x w' => w' = w /\ (x = Ok false -> w_processed w !! signature = Some true)
  end.

(** A new process reads the state file, and has found nothing yet. *)
Definition reload (w : world) : world := World (w_file w) (w_file w) (w_sent w) (w_processed w) (w_failed w) [].
End steps.
