(* ===== verification/DevnetStepsProps.v ===== *)
(** * Devnet runtime: the theorems on resumable steps

    A process may be killed between any two events and started again, any
    number of times; the chain processes what was sent at any later moment.
    Of a step that is not repeatable, a second transaction is only signed once
    the node reported the one before it with an error; every transaction sent
    was in the state file before; and a step that returns was found done, with
    a recorded signature that took effect or with none. *)
From stdpp Require Import gmap strings.
From S2P Require Import Prelude Js TxBytes Utf8 Base58 Programs Processes DevnetSteps.
Open Scope Z_scope.

Section props.
Context (signature_bytes : string -> bytes).
Abbreviation sig_of := (signature_of signature_bytes).
Abbreviation Occurs := step_occurs.
Abbreviation Outside := (chain_step signature_bytes).

(** ** Assertions *)

(** The signatures and transactions a state records for a step. *)
Definition core (a : StoredAttempt) : js_string * string := (sa_signature a, sa_serialized a).
Definition recorded (s : steps) (m : string) : list (js_string * string) := core <$> attempts_of s m.
(** The memory of the process records what the file does. *)
Definition clean (w : world) : Prop := forall m, recorded (w_memory w) m = recorded (w_file w) m.
Definition succeeded (sig : js_string) (w : world) : Prop := w_processed w !! sig = Some true.
(** The last attempt of a step was reported with an error. *)
Definition failed_last (n : string) (w : world) : Prop :=
  forall p, last (recorded (w_file w) n) = Some p -> p.1 ∈ w_failed w.
(** A new attempt that the file does not have yet. *)
Definition pushed (m : string) (p : js_string * string) (w : world) : Prop :=
  forall m', recorded (w_memory w) m' = recorded (w_file w) m' ++ (if decide (m' = m) then [p] else []).

(** All attempts of step [n] but the last were reported with an error; what was sent is in the
    file; and what is in the file has the signature of its transaction. *)
Record recorded_ok (n : string) (w : world) : Prop := {
  earlier_failed : forall i p, recorded (w_file w) n !! i = Some p -> (S i < length (recorded (w_file w) n))%nat ->
    p.1 ∈ w_failed w;
  sent_recorded : forall m ser, (m, ser) ∈ w_sent w -> (sig_of ser, ser) ∈ recorded (w_file w) m;
  signatures_match : forall m p, p ∈ recorded (w_file w) m -> p.1 = sig_of p.2;
}.

(** The records are the same, and more is known. *)
Record grown (w w' : world) : Prop := {
  same_memory : w_memory w' = w_memory w; same_file : w_file w' = w_file w; same_sent : w_sent w' = w_sent w;
  more_processed : w_processed w ⊆ w_processed w'; more_failed : w_failed w ⊆ w_failed w'; more_found : w_found w ⊆ w_found w';
}.
Lemma grown_refl w : grown w w.
Proof. by split. Qed.
Lemma grown_failed l w : grown w (add_failed l w).
Proof. split; cbn; try done. by apply list_subseteq_app_l. Qed.
Lemma grown_found l w : grown w (add_found l w).
Proof. split; cbn; try done. by apply list_subseteq_app_l. Qed.

Definition kept (Q : world -> Prop) : Prop := forall w w', grown w w' -> Q w -> Q w'.
Lemma kept_stable (Q : world -> Prop) : kept Q -> stable Outside Q.
Proof. intros Hk w _ [w0 name ser ok Hs Hn]. apply Hk. split; cbn; try done. by apply insert_subseteq. Qed.

Lemma kept_and (P Q : world -> Prop) : kept P -> kept Q -> kept (fun w => P w /\ Q w).
Proof. intros HP HQ w w' ? []. split; [eapply HP|eapply HQ]; done. Qed.
Lemma kept_impl (a : Prop) (Q : world -> Prop) : kept Q -> kept (fun w => a -> Q w).
Proof. intros HQ w w' ? H Ha. eapply HQ; [done..|]. by apply H. Qed.
Lemma kept_pure (a : Prop) : kept (fun _ => a).
Proof. by intros w w' _. Qed.
Lemma kept_clean : kept clean.
Proof. intros w w' [Hm Hf _ _ _ _] H m. by rewrite Hm, Hf. Qed.
Lemma kept_succeeded sig : kept (succeeded sig).
Proof. intros w w' [_ _ _ Hp _ _] H. by eapply lookup_weaken. Qed.
Lemma kept_failed sig : kept (fun w => sig ∈ w_failed w).
Proof. intros w w' [_ _ _ _ Hf _]. apply Hf. Qed.
Lemma kept_found name : kept (fun w => name ∈ w_found w).
Proof. intros w w' [_ _ _ _ _ Hf]. apply Hf. Qed.
Lemma kept_failed_last n : kept (failed_last n).
Proof. intros w w' [_ Hf _ _ He _] H p. rewrite Hf. intros Hl. by apply He, H. Qed.
Lemma kept_pushed m p : kept (pushed m p).
Proof. intros w w' [Hm Hf _ _ _ _] H m'. by rewrite Hm, Hf. Qed.
Lemma kept_recorded m p : kept (fun w => p ∈ recorded (w_file w) m).
Proof. intros w w' [_ Hf _ _ _ _]. by rewrite Hf. Qed.
Lemma kept_memory m (Q : list (js_string * string) -> Prop) : kept (fun w => Q (recorded (w_file w) m)).
Proof. intros w w' [_ Hf _ _ _ _]. by rewrite Hf. Qed.
Lemma kept_recorded_ok n : kept (recorded_ok n).
Proof.
  intros w w' [Hm Hf Hs Hp He Hd] [H1 H2 H3]. split; rewrite ?Hf, ?Hs; [|done|done].
  intros i p Hi Hl. apply He. by eapply H1.
Qed.
End props.

Create HintDb steps.
#[export] Hint Resolve kept_and kept_impl kept_pure kept_clean kept_succeeded kept_failed kept_found kept_failed_last kept_pushed kept_recorded
  kept_memory : steps.

(** ** Steps keep the invariant *)
Section steps.
Context (signature_bytes : string -> bytes).
Context (signatures_nonempty : forall serialized, signature_bytes serialized <> []).
Context (n : string).
Abbreviation sig_of := (signature_of signature_bytes).
Abbreviation Occurs := step_occurs.
Abbreviation Outside := (chain_step signature_bytes).
Abbreviation Inv := (recorded_ok signature_bytes n).
Abbreviation Triple := (triple (F:=failure) Occurs Outside Inv).

Lemma outside_ok w w' : Outside w w' -> Inv w -> Inv w'.
Proof. apply kept_stable, kept_recorded_ok. Qed.

(** An event that leaves the records as they are. *)
Lemma triple_observe {A} (e : event) (as_result : answer e -> Prelude.result failure A) (Pre : world -> Prop) (Q : A -> world -> Prop) :
  kept Pre -> (forall a, kept (Q a)) ->
  (forall w x w', Inv w -> Pre w -> Occurs e w x w' -> grown w w' /\ forall a, as_result x = Ok a -> Q a w') ->
  Triple Pre (trigger_result e as_result) Q.
Proof.
  intros Hk Hq H. apply triple_event; [exact outside_ok|by apply kept_stable|intros a; by apply kept_stable|].
  intros w x w' Hi Hp Ho. destruct (H _ _ _ Hi Hp Ho) as [Hg Ha]. split; [by eapply kept_recorded_ok|done].
Qed.
Lemma triple_throw {A} (r : Prelude.result failure A) (Pre : world -> Prop) (Q : A -> world -> Prop) :
  (forall a, kept (Q a)) -> (forall a w, Inv w -> r = Ok a -> Pre w -> Q a w) -> Triple Pre (lift_result r) Q.
Proof. intros Hq. apply triple_result; [exact outside_ok|]. intros a. by apply kept_stable. Qed.
Lemma triple_mret {A} (a : A) (Pre : world -> Prop) (Q : A -> world -> Prop) :
  kept (Q a) -> (forall w, Inv w -> Pre w -> Q a w) -> Triple Pre (mret (M:=call event answer failure) a) Q.
Proof.
  intros Hk H w Hi Hp w' Hw. split; [by eapply outside_star; [exact outside_ok|..]|]. cbn.
  eapply stable_star; [by apply kept_stable|done|by apply H].
Qed.
Lemma triple_check (b : bool) code (Pre : world -> Prop) :
  kept Pre -> Triple Pre (check_that b code) (fun _ w => b = true /\ Pre w).
Proof.
  intros Hk. apply triple_throw; [by intros; apply kept_and; [apply kept_pure|]|]. intros [] w _ H Hp. split; [|done].
  by apply require_Ok_inv in H.
Qed.
(** Events whose answers say nothing. *)
Lemma triple_ask {A} (e : event) (as_result : answer e -> Prelude.result failure A) (Pre : world -> Prop) :
  kept Pre -> (forall w x w', Occurs e w x w' -> w' = w) -> Triple Pre (trigger_result e as_result) (fun _ => Pre).
Proof.
  intros Hk H. apply triple_observe; [done..|]. intros w x w' _ Hp Ho. rewrite (H _ _ _ Ho). split; [apply grown_refl|done].
Qed.
(** [check()] is remembered where it answers [true]. *)
Lemma triple_present name (Pre : world -> Prop) :
  kept Pre ->
  Triple Pre (trigger_result (answer:=answer) (F:=failure) (Check name) (fun r => r))
    (fun b w => Pre w /\ (b = true -> name ∈ w_found w)).
Proof.
  intros Hk. apply triple_observe; [done|auto with steps|]. intros w x w' _ Hp Ho. cbn in Ho. subst w'.
  assert (Hg := grown_found (match x with Ok true => [name] | _ => [] end) w). split; [done|].
  intros b ->. split; [by eapply Hk|]. intros ->. cbn. apply elem_of_app. right. by apply list_elem_of_singleton.
Qed.

Lemma signature_nonempty ser : sig_of ser <> [].
Proof.
  unfold signature_of, base58Encode. pose proof (signatures_nonempty ser). destruct (signature_bytes ser) as [|b l]; [done|].
  intros Hnil. apply app_eq_nil in Hnil as [_ Hnil]. apply fmap_nil_inv in Hnil. apply (f_equal reverse) in Hnil.
  rewrite reverse_involutive in Hnil. revert Hnil. generalize (b :: l). intros l'.
  assert (Hd : forall ds, ds <> [] -> fold_left add_byte l' ds <> []); [|by apply Hd].
  induction l' as [|c l' IH]; intros ds Hds; cbn; [done|]. apply IH. unfold add_byte.
  destruct ds as [|d ds]; [done|]. cbn. by destruct (carry_digits _ ds).
Qed.

(** ** The reconciliation of an attempt *)

Definition landed (name : string) (sig : js_string) (w : world) : Prop :=
  succeeded sig w /\ exists ser, (sig, ser) ∈ recorded (w_file w) name.
Lemma kept_landed name sig : kept (landed name sig).
Proof. apply kept_and; [apply kept_succeeded|]. apply (kept_memory name (fun l => exists ser, (sig, ser) ∈ l)). Qed.
#[local] Hint Resolve kept_landed : steps.

(** A step that was found done, with a signature of its own. *)
Definition reconciled (name : string) (r : option js_string) (w : world) : Prop :=
  clean w /\ match r with
             | None => name = n -> failed_last n w
             | Some s => landed name s w /\ s <> [] /\ name ∈ w_found w
             end.
Lemma kept_reconciled name r : kept (reconciled name r).
Proof. unfold reconciled. destruct r; auto with steps. Qed.
#[local] Hint Resolve kept_reconciled : steps.

(** A transaction that was sent now. *)
Definition delivered (name : string) (r : option js_string) (w : world) : Prop := r <> None /\ reconciled name r w.
Lemma kept_delivered name r : kept (delivered name r).
Proof. apply kept_and; auto with steps. Qed.
#[local] Hint Resolve kept_delivered : steps.

(** The last attempt that the file records. *)
Definition previous_is (name : string) (a : StoredAttempt) (w : world) : Prop :=
  clean w /\ last (recorded (w_file w) name) = Some (core a).
Lemma kept_previous name a : kept (previous_is name a).
Proof. apply kept_and; [apply kept_clean|]. apply (kept_memory name (fun l => last l = Some (core a))). Qed.
#[local] Hint Resolve kept_previous : steps.

Lemma previous_in name a w : Inv w -> previous_is name a w ->
  (sa_signature a, sa_serialized a) ∈ recorded (w_file w) name /\ sa_signature a = sig_of (sa_serialized a).
Proof.
  intros [_ _ H3] [_ Hl]. apply last_Some_elem_of in Hl. split; [done|]. exact (H3 _ _ Hl).
Qed.

Lemma previous_failed name a w : previous_is name a w -> sa_signature a ∈ w_failed w -> reconciled name None w.
Proof. intros [Hc Hl] Hp. split; [done|]. intros <- p. rewrite Hl. by intros [= <-]. Qed.

Lemma previous_landed name a w :
  Inv w -> previous_is name a w -> succeeded (sa_signature a) w -> name ∈ w_found w -> reconciled name (Some (sa_signature a)) w.
Proof.
  intros Hi Hp Hs Hf. destruct (previous_in _ _ _ Hi Hp) as [Hin Hsig]. split; [by destruct Hp|].
  split; [split; [done|eauto]|]. split; [|done]. rewrite Hsig. apply signature_nonempty.
Qed.

(** ** What the events do to the records *)

Lemma recorded_ok_ext w w' :
  (forall m, recorded (w_file w') m = recorded (w_file w) m) -> w_sent w' = w_sent w -> w_failed w' = w_failed w -> Inv w -> Inv w'.
Proof.
  intros Hf Hs Hp [H1 H2 H3]. split; rewrite ?Hs, ?Hp.
  - intros i p. rewrite Hf. apply H1.
  - intros m ser Hin. rewrite Hf. by apply H2.
  - intros m p. rewrite Hf. apply H3.
Qed.

Lemma core_alter_last time l : core <$> alter_last (mark_submitted time) l = core <$> l.
Proof. induction l as [|a [|b l] IH]; [done|done|]. change (alter_last ?f (a :: b :: l)) with (a :: alter_last f (b :: l)). by rewrite !fmap_cons, IH. Qed.

Lemma recorded_marked s name time m :
  recorded (<[name := alter_last (mark_submitted time) (attempts_of s name)]> s) m = recorded s m.
Proof.
  unfold recorded, attempts_of. destruct (decide (m = name)) as [->|Hm]; [|by rewrite lookup_insert_ne].
  rewrite lookup_insert_eq. apply core_alter_last.
Qed.

Lemma recorded_pushed s name a m :
  recorded (<[name := attempts_of s name ++ [a]]> s) m = recorded s m ++ (if decide (m = name) then [core a] else []).
Proof.
  unfold recorded, attempts_of. destruct (decide (m = name)) as [->|Hm].
  - rewrite lookup_insert_eq. cbn. by rewrite fmap_app.
  - by rewrite lookup_insert_ne, app_nil_r.
Qed.

(** A transaction the file records is sent. *)
Lemma triple_send name ser sig (Pre : world -> Prop) :
  kept Pre -> (forall w, Inv w -> Pre w -> (sig, ser) ∈ recorded (w_file w) name) ->
  (forall w w', w_memory w' = w_memory w -> w_file w' = w_file w -> w_processed w' = w_processed w -> Pre w -> Pre w') ->
  Triple Pre (trigger_result (SendRaw name ser) (fun r => r)) (fun _ => Pre).
Proof.
  intros Hk Hin Hpre. apply triple_event; [exact outside_ok|by apply kept_stable|intros a; by apply kept_stable|].
  intros w x w' Hi Hp [->|[_ ->]]; [|done]. split; [|intros a _; by eapply (Hpre w)].
  pose proof (Hin w Hi Hp) as Hrec. destruct Hi as [H1 H2 H3]. split; cbn; [done| |done].
  intros m ser'. rewrite elem_of_app, list_elem_of_singleton. intros [|[= -> ->]]; [by apply H2|].
  pose proof (H3 _ _ Hrec) as Hsig. cbn in Hsig. by rewrite <- Hsig.
Qed.

Definition in_file (name : string) (sig : js_string) (ser : string) (w : world) : Prop :=
  clean w /\ (sig, ser) ∈ recorded (w_file w) name.
Lemma kept_in_file name sig ser : kept (in_file name sig ser).
Proof. apply kept_and; auto with steps. Qed.
#[local] Hint Resolve kept_in_file : steps.

(** The tail both ways of sending share: submit, note it, wait, check. *)
Lemma submit_ok name ser sig code :
  Triple (in_file name sig ser)
    (returned ← trigger_result (answer:=answer) (F:=failure) (SendRaw name ser) (fun r => r);
     check_that (js_eq returned sig) code ;;
     now ← trigger (answer:=answer) (F:=failure) ReadClock;
     trigger (answer:=answer) (F:=failure) (MarkSubmitted name now) ;;
     trigger_result (answer:=answer) (F:=failure) WriteState (fun r => r) ;;
     confirm_sent name sig ;;
     mret (Some sig))
    (delivered name).
Proof.
  eapply triple_bind; [apply (triple_send _ _ sig); [auto with steps|by intros w _ []|]|intros returned].
  { intros w w' Hm Hf _ [Hc Hin]. split; [|by rewrite Hf]. intros m. by rewrite Hm, Hf. }
  eapply triple_bind; [apply triple_check; auto with steps|intros u].
  eapply triple_bind; [apply triple_ask; [auto with steps|done]|intros now].
  eapply triple_bind.
  { apply triple_event with (Q := fun _ => in_file name sig ser); [exact outside_ok|apply kept_stable; auto with steps|intros a; apply kept_stable; auto with steps|].
    intros w x w' Hi [_ [Hc Hin]] Ho. cbn in Ho. subst w'. split; [by apply (recorded_ok_ext w)|]. intros a _. split; [|done].
    intros m. cbn. rewrite recorded_marked. apply Hc. }
  intros u'. eapply triple_bind.
  { apply triple_event with (Q := fun _ => in_file name sig ser); [exact outside_ok|apply kept_stable; auto with steps|intros a; apply kept_stable; auto with steps|].
    intros w x w' Hi [Hc Hin] [->|[_ ->]]; [|by split]. split; [by apply (recorded_ok_ext w); [exact Hc|..]|]. intros a _. split; [done|].
    cbn. by rewrite Hc. }
  intros u''. eapply triple_bind.
  { instantiate (1 := fun _ w => (in_file name sig ser w /\ succeeded sig w) /\ name ∈ w_found w). unfold confirm_sent.
    eapply triple_bind.
    { apply triple_observe with (Q := fun err w => in_file name sig ser w /\ (err = false -> succeeded sig w)); [auto with steps|auto with steps|].
      intros w x w' _ Hp [-> Hx]. split; [apply grown_refl|]. intros err ->. split; [done|]. intros ->. by apply Hx. }
    intros err. eapply triple_bind; [apply triple_check; auto with steps|intros u3].
    eapply triple_bind; [apply triple_present; auto with steps|intros present].
    eapply triple_post; [|apply triple_check; auto with steps]. intros u4 w (Hpr & (Hn & Hf & Hs) & Hfd).
    split; [|by apply Hfd]. split; [done|]. apply Hs. by destruct err. }
  intros u3. apply triple_mret; [auto with steps|]. intros w [_ _ H3] [[[Hc Hin] Hs] Hfd]. split; [done|]. split; [done|].
  split; [split; [done|eauto]|]. split; [|done]. pose proof (H3 _ _ Hin) as Hsig. cbn in Hsig. rewrite Hsig. apply signature_nonempty.
Qed.

(** A transaction sent without a record is confirmed when its signature is returned. *)
Lemma simulate_send_ok name :
  triple (F:=failure) Occurs Outside (fun _ => True) (fun _ => True) (simulateSendAndConfirm name) succeeded.
Proof.
  assert (Hs : forall sig, stable Outside (succeeded sig)) by (intros sig; apply kept_stable; auto with steps).
  unfold simulateSendAndConfirm. do 3 (apply triple_bind with (Q := fun _ _ => True); [by apply triple_event|intros ?]).
  apply triple_bind with (Q := fun _ _ => True); [by apply triple_result|intros _].
  apply triple_bind with (Q := fun _ _ => True); [by apply triple_event|intros sig].
  apply triple_bind with (Q := fun err w => err = false -> succeeded sig w).
  { apply triple_event; [done|done|intros err w w' Ho H He; eapply Hs; [done|by apply H]|].
    intros w x w' _ _ [-> Hx]. split; [done|]. intros err -> ->. by apply Hx. }
  intros err. apply triple_bind with (Q := fun _ => succeeded sig).
  - apply triple_result; [done|done|]. intros u w _ Hok H. apply H. apply require_Ok_inv in Hok. by destruct err.
  - intros _. apply (triple_result _ _ (fun _ => True) ltac:(done) (Ok sig)); [done|]. by intros ? w _ [= <-].
Qed.

(** ** The reconciliation, the new attempt, the step *)

Lemma triple_read name :
  Triple clean (trigger (ReadAttempts name)) (fun l w => clean w /\ recorded (w_file w) name = core <$> l).
Proof.
  apply triple_observe; [auto with steps| |].
  - intros l. apply kept_and; [auto with steps|]. apply (kept_memory name (fun r => r = core <$> l)).
  - intros w x w' _ Hc [-> ->]. split; [done|]. intros l [= <-]. split; [done|]. symmetry. apply Hc.
Qed.

(** What a status says of the attempt it was asked for. *)
Definition status_known (a : StoredAttempt) (status : option SignatureStatus) (w : world) : Prop :=
  match status with
  | Some s => if st_err s then sa_signature a ∈ w_failed w
              else is_confirmed s = true -> succeeded (sa_signature a) w
  | None => True
  end.
Lemma kept_status_known a status : kept (status_known a status).
Proof. unfold status_known. destruct status as [s|]; [destruct (st_err s)|]; auto with steps. Qed.
#[local] Hint Resolve kept_status_known : steps.

Lemma triple_status name a (Pre : world -> Prop) :
  kept Pre ->
  Triple (fun w => previous_is name a w /\ Pre w) (trigger_result (GetStatus (sa_signature a)) (fun r => r))
    (fun status w => previous_is name a w /\ status_known a status w).
Proof.
  intros Hk. apply triple_observe; [auto with steps|auto with steps|]. intros w x w' _ [Hp _] [Hx ->].
  split; [apply grown_failed|]. intros status ->. split; [eapply kept_previous; [apply grown_failed|done]|].
  destruct status as [s|]; [|done]. cbn. destruct (st_err s) eqn:He.
  - apply elem_of_app. right. by apply list_elem_of_singleton.
  - intros Hc. by apply Hx.
Qed.

(** [persistedStepConfirmed] is true only of a step whose last attempt took effect. *)
Lemma persisted_ok name :
  Triple clean (persistedStepConfirmed name)
    (fun b w => b = true -> exists a, previous_is name a w /\ succeeded (sa_signature a) w).
Proof.
  assert (HQ : forall b : bool, kept (fun w => b = true -> exists a, previous_is name a w /\ succeeded (sa_signature a) w)).
  { intros b w w' Hg H Hb. destruct (H Hb) as (a & Ha & Hsu). exists a.
    split; [by eapply kept_previous|by eapply kept_succeeded]. }
  unfold persistedStepConfirmed. eapply triple_bind; [apply triple_read|intros l]. destruct (last l) as [a|] eqn:Hl.
  - apply (triple_pre _ _ _ _ _ (fun w => previous_is name a w /\ True)).
    { intros w _ [Hc Hr]. split; [|done]. split; [done|]. by rewrite Hr, fmap_last, Hl. }
    eapply triple_bind; [apply triple_status; auto with steps|intros status]. apply triple_mret; [by apply (HQ _)|].
    intros w _ [Hp Hs] Hb. exists a. split; [done|]. destruct status as [s|]; [|done]. cbn in Hs.
    destruct (st_err s); [done|]. by apply Hs.
  - by apply triple_mret; [apply (HQ false)|].
Qed.

Lemma reconcile_confirmed_ok name a rep :
  (name = n -> rep = false) ->
  Triple (fun w => previous_is name a w /\ succeeded (sa_signature a) w) (reconcile_confirmed name a rep) (reconciled name).
Proof.
  intros Hn. unfold reconcile_confirmed. eapply triple_bind; [apply triple_present; auto with steps|intros [|]].
  - apply triple_mret; [auto with steps|]. intros w Hi [[Hp Hs] Hf]. eapply previous_landed; [done..|]. by apply Hf.
  - eapply triple_bind; [apply triple_check; auto with steps|intros u]. apply triple_mret; [auto with steps|].
    intros w _ (Hr & ([Hc _] & _) & _). split; [done|]. intros ->. rewrite Hn in Hr; done.
Qed.

(** Both times a status is read: a failed attempt is over, a confirmed one is checked. *)
Lemma known_ok name a rep (status : option SignatureStatus) (other : call event answer failure (option js_string)) :
  (name = n -> rep = false) -> Triple (previous_is name a) other (reconciled name) ->
  Triple (fun w => previous_is name a w /\ status_known a status w)
    (if match status with Some s => st_err s | None => false end then mret None
     else if match status with Some s => is_confirmed s | None => false end then reconcile_confirmed name a rep else other)
    (reconciled name).
Proof.
  intros Hn Hother. destruct status as [s|]; [|eapply triple_pre; [|exact Hother]; by intros w _ []]. cbn.
  destruct (st_err s); [|destruct (is_confirmed s)].
  - apply triple_mret; [auto with steps|]. intros w _ [Hp Hf]. by eapply previous_failed.
  - eapply triple_pre; [|by apply reconcile_confirmed_ok]. intros w _ [Hp Hs]. split; [done|by apply Hs].
  - eapply triple_pre; [|exact Hother]. by intros w _ [].
Qed.

Lemma reconcile_ok name rep :
  (name = n -> rep = false) -> Triple clean (reconcilePersistedAttempt name rep) (reconciled name).
Proof.
  intros Hn. unfold reconcilePersistedAttempt. eapply triple_bind; [apply triple_read|intros l].
  destruct (last l) as [a|] eqn:Hl.
  - apply (triple_pre _ _ _ _ _ (fun w => previous_is name a w /\ True)).
    { intros w _ [Hc Hr]. split; [|done]. split; [done|]. by rewrite Hr, fmap_last, Hl. }
    eapply triple_bind; [apply triple_status; auto with steps|intros status]. apply known_ok; [done|].
    eapply triple_bind; [apply triple_ask; [auto with steps|done]|intros height]. destruct (_ <? _).
    + apply (triple_pre _ _ _ _ _ (fun w => previous_is name a w /\ True)); [done|].
      eapply triple_bind; [apply triple_status; auto with steps|intros final]. apply known_ok; [done|].
      apply triple_throw; [auto with steps|done].
    + eapply triple_post; [|eapply triple_pre; [|apply submit_ok]]; [by intros r w []|]. intros w Hi Hp. split; [by destruct Hp|]. by apply previous_in.
  - apply triple_mret; [auto with steps|]. intros w _ [Hc Hr]. split; [done|]. intros -> p. by rewrite Hr, fmap_last, Hl.
Qed.

Lemma pushed_written name sig ser w :
  Inv w -> pushed name (sig, ser) w -> (name = n -> failed_last n w) -> sig = sig_of ser ->
  Inv (set_file (w_memory w) w).
Proof.
  intros [H1 H2 H3] Hp Hl ->. split; cbn.
  - intros i p. rewrite Hp. destruct (decide (n = name)) as [<-|Hne]; [|rewrite app_nil_r; apply H1].
    rewrite length_app. cbn. intros Hi Hlt. rewrite lookup_app_l in Hi by lia.
    destruct (decide (S i < length (recorded (w_file w) n))%nat); [by eapply H1|]. apply Hl; [done|].
    rewrite last_lookup. replace (pred (length (recorded (w_file w) n))) with i by lia. done.
  - intros m ser' Hin. rewrite Hp. apply elem_of_app. left. by apply H2.
  - intros m p. rewrite Hp, elem_of_app. intros [Hin|Hin]; [by eapply H3|]. destruct (decide _); [|by apply elem_of_nil in Hin].
    by apply list_elem_of_singleton in Hin as ->.
Qed.

Definition may_attempt (name : string) (w : world) : Prop := clean w /\ (name = n -> failed_last n w).
Lemma kept_may_attempt name : kept (may_attempt name).
Proof. apply kept_and; auto with steps. Qed.
#[local] Hint Resolve kept_may_attempt : steps.

(** The write-ahead: a new attempt reaches the file. *)
Lemma write_ahead_ok name a (rest : call event answer failure (option js_string)) :
  sa_signature a = sig_of (sa_serialized a) ->
  Triple (in_file name (sa_signature a) (sa_serialized a)) rest (delivered name) ->
  Triple (may_attempt name)
    (trigger (PushAttempt name a) ;; trigger_result (answer:=answer) (F:=failure) WriteState (fun r => r) ;; rest) (delivered name).
Proof.
  intros Hsig Hrest. set (Q := fun (_ : unit) w => pushed name (core a) w /\ (name = n -> failed_last n w)).
  assert (HQ : forall u, kept (Q u)) by (intros u; apply kept_and; auto with steps).
  apply triple_bind with (Q := Q); [|intros u].
  { apply triple_event; [exact outside_ok|apply kept_stable; auto with steps|intros u; by apply kept_stable|].
    intros w x w' Hi [Hc Hf] Ho. cbn in Ho. subst w'. split; [by apply (recorded_ok_ext w)|]. intros u _. split; [|done].
    intros m. cbn. rewrite recorded_pushed. by rewrite Hc. }
  eapply triple_bind; [|intros u'; exact Hrest].
  apply triple_event; [exact outside_ok|by apply kept_stable|intros u'; apply kept_stable; auto with steps|].
  intros w x w' Hi [Hp Hl] [->|[Hx ->]].
  - split; [by eapply pushed_written|]. intros u' _. split; [done|]. cbn. rewrite Hp, decide_True by done.
    apply elem_of_app. right. by apply list_elem_of_singleton.
  - split; [done|]. intros u' Hu. by rewrite Hu in Hx.
Qed.

Lemma prepare_ok cx name : Triple (may_attempt name) (prepare_and_send signature_bytes cx name) (delivered name).
Proof.
  unfold prepare_and_send. do 3 (eapply triple_bind; [apply triple_ask; [auto with steps|done]|intros ?]).
  eapply triple_bind; [apply triple_check; auto with steps|intros u].
  apply (triple_pre _ _ _ _ _ (may_attempt name)); [by intros w _ []|].
  destruct (sim_adminLamports a1) as [projected|]; [|by apply triple_throw; [auto with steps|]].
  do 2 (eapply triple_bind; [apply triple_check; auto with steps|intros ?];
        apply (triple_pre _ _ _ _ _ (may_attempt name)); [by intros w _ []|]).
  eapply triple_bind; [by apply (triple_throw _ _ (fun _ => may_attempt name)); [auto with steps|]|intros u'].
  eapply triple_bind; [apply triple_ask; [auto with steps|done]|intros now].
  apply write_ahead_ok; [done|]. apply submit_ok.
Qed.

(** What a step returns: it was found done, with a recorded signature that
    took effect or with none. *)
Definition done_with (name : string) (r : option js_string) (w : world) : Prop :=
  clean w /\ name ∈ w_found w /\ match r with Some s => landed name s w | None => True end.
Lemma kept_done_with name r : kept (done_with name r).
Proof. apply kept_and; [auto with steps|]. apply kept_and; [auto with steps|]. destruct r; auto with steps. Qed.
#[local] Hint Resolve kept_done_with : steps.

Lemma execute_ok cx name rep :
  (name = n -> rep = false) -> Triple clean (executeResumableStep signature_bytes cx name rep) (done_with name).
Proof.
  intros Hn. unfold executeResumableStep. eapply triple_bind; [apply triple_present; auto with steps|intros [|]].
  { apply triple_mret; [auto with steps|]. intros w _ [Hc Hf]. split_and!; [done|by apply Hf|done]. }
  apply (triple_pre _ _ _ _ _ clean); [by intros w _ []|].
  eapply triple_bind; [by apply reconcile_ok|intros r].
  assert (Hrest : r = None -> Triple (reconciled name r)
    (present ← trigger_result (answer:=answer) (F:=failure) (Check name) (fun r => r);
     if (present : bool) then mret None else prepare_and_send signature_bytes cx name) (done_with name)).
  { intros ->. eapply triple_bind; [apply triple_present; auto with steps|intros [|]].
    - apply triple_mret; [auto with steps|]. intros w _ [[Hc _] Hf]. split_and!; [done|by apply Hf|done].
    - eapply triple_post; [|eapply triple_pre; [|apply prepare_ok]]; [|by intros w _ [[] _]]. intros [sig|] w [Hr Hd]; [|done].
      destruct Hd as (Hc & Hl & _ & Hf). by split_and!. }
  destruct r as [[|u s]|]; [|apply triple_mret; [auto with steps|]; intros w _ (Hc & Hs & _ & Hf); done|by apply Hrest].
  intros w Hi (_ & _ & Hnil & _). done.
Qed.

(** ** Processes, crashes, restarts *)

Definition not_repeated (c : step_call) : Prop := sc_name c = n -> sc_repeatable c = false.
(** What a process that goes on keeps of a step it has returned from. *)
Definition returned_done (r : string * option js_string) (w : world) : Prop :=
  r.1 ∈ w_found w /\
  match r.2 with
  | Some sig => succeeded sig w /\ (exists ser, (sig, ser) ∈ recorded (w_memory w) r.1) /\ exists ser, (sig, ser) ∈ recorded (w_file w) r.1
  | None => True
  end.
Definition all_done (rs : list (string * option js_string)) (w : world) : Prop :=
  clean w /\ Forall (fun r => returned_done r w) rs.
Lemma kept_returned_done r : kept (returned_done r).
Proof.
  intros w w' [Hm Hf _ Hp _ Hd] [H1 H2]. split; [by apply Hd|]. destruct (r.2) as [sig|]; [|done].
  rewrite Hm, Hf. destruct H2 as (Hs & ? & ?). split; [by eapply lookup_weaken|done].
Qed.
Lemma kept_all_done rs : kept (all_done rs).
Proof.
  apply kept_and; [auto with steps|]. intros w w' Hg H.
  eapply Forall_impl; [exact H|]. intros r. by apply kept_returned_done.
Qed.
#[local] Hint Resolve kept_returned_done kept_all_done : steps.

(** The records of the file and of memory only grow, by the events of the
    process itself too. *)
Lemma returned_done_event r e w x w' : Occurs e w x w' -> returned_done r w -> returned_done r w'.
Proof.
  intros Ho.
  destruct e as [name|name|sig| | |name latest|ser|  |name a|name time| |name ser|sig]; cbn in Ho.
  all: try (by subst w').
  all: try (subst w'; apply kept_returned_done; first [apply grown_found | apply grown_failed]).
  all: try match type of Ho with ?y = ?z /\ _ => by destruct Ho as [-> _] end.
  - destruct Ho as [_ ->]. apply kept_returned_done, grown_failed.
  - subst w'. intros [H1 H2]. split; [done|]. destruct (r.2); [|done]. destruct H2 as (Hs & [ser Hin] & Hf). split_and!; [done| |done].
    exists ser. cbn. rewrite recorded_pushed. apply elem_of_app. by left.
  - subst w'. intros [H1 H2]. split; [done|]. destruct (r.2); [|done]. destruct H2 as (Hs & [ser Hin] & Hf). split_and!; [done| |done].
    exists ser. cbn. by rewrite recorded_marked.
  - destruct Ho as [->|[_ ->]]; [|done]. intros [H1 H2]. split; [done|]. destruct (r.2); [|done].
    destruct H2 as (Hs & Hm & Hf). by split_and!.
  - by destruct Ho as [->|[_ ->]].
Qed.

Lemma run_steps_ok calls : Forall not_repeated calls -> Triple clean (run_steps signature_bytes calls) all_done.
Proof.
  induction 1 as [|c calls Hc _ IH]; cbn [run_steps]; [apply triple_mret; [auto with steps|by split]|].
  eapply triple_bind; [by apply execute_ok|intros r].
  eapply triple_bind.
  - apply (triple_pre _ _ _ _ _ (fun w => clean w /\ returned_done (sc_name c, r) w)); [|apply triple_frame; [| |exact IH]].
    + intros w _ (Hw & Hfd & Hr). split; [done|]. split; [done|]. destruct r; [|done]. destruct Hr as [Hs [ser Hin]].
      split_and!; [done|exists ser; by rewrite Hw|by exists ser].
    + apply kept_stable; auto with steps.
    + intros e w x w'. apply returned_done_event.
  - intros rs. apply triple_mret; [auto with steps|]. intros w _ [[Hw Hrs] Hr]. split; [done|]. by constructor.
Qed.

Definition process_starts (p : call event answer failure (list (string * option js_string))) : Prop :=
  exists calls, p = run_steps signature_bytes calls /\ Forall not_repeated calls.
Definition bootstrap_run (s : system) : Prop :=
  rtc (system_step Occurs Outside process_starts reload) (System initial_world None) s.

Lemma reload_ok w : Inv w -> Inv (reload w).
Proof. by apply recorded_ok_ext. Qed.

Lemma bootstrap_run_ok s :
  bootstrap_run s ->
  Inv (sys_world s) /\ forall rs, sys_running s = Some (Pure (Ok rs)) -> all_done rs (sys_world s).
Proof.
  intros Hr. destruct (system_reachable Occurs Outside Inv process_starts (yields all_done) reload) with (w := initial_world) (s := s)
    as [Hi Hs]; [exact outside_ok| | |exact Hr|].
  - intros p w (calls & -> & Hc) Hi. apply run_steps_ok; [done|by apply reload_ok|]. by intros m.
  - split; cbn; [done|intros m ser Hin; by apply elem_of_nil in Hin|]. intros m p. by rewrite elem_of_nil.
  - split; [done|]. intros rs Hrs. rewrite Hrs in Hs. by destruct (Hs _ (rtc_refl _ _)).
Qed.

(** C23: However often the processes crash and start again, of two different
    transactions that were ever sent for a step that may not be repeated, the
    node has reported one with an error: a crash, a lost reply or an expiry
    never leads to a second transaction, so that two transactions of one step
    can only take effect if one of them did although its error was reported.
    And every transaction sent is in the state file, with its signature. *)
Theorem steps_not_sent_twice s :
  bootstrap_run s ->
  (forall ser ser', (n, ser) ∈ w_sent (sys_world s) -> (n, ser') ∈ w_sent (sys_world s) -> sig_of ser <> sig_of ser' ->
     sig_of ser ∈ w_failed (sys_world s) \/ sig_of ser' ∈ w_failed (sys_world s)) /\
  (forall m ser, (m, ser) ∈ w_sent (sys_world s) ->
     exists a, a ∈ attempts_of (w_file (sys_world s)) m /\ sa_serialized a = ser /\ sa_signature a = sig_of ser).
Proof.
  intros Hr. destruct (bootstrap_run_ok s Hr) as [[H1 H2 H3] _]. split.
  - intros ser ser' Hs Hs' Hne. apply H2 in Hs as [i Hi]%list_elem_of_lookup, Hs' as [j Hj]%list_elem_of_lookup.
    pose proof (lookup_lt_Some _ _ _ Hi). pose proof (lookup_lt_Some _ _ _ Hj).
    assert (i <> j) by (intros ->; rewrite Hi in Hj; injection Hj as Hsig _; done).
    destruct (decide (S i < length (recorded (w_file (sys_world s)) n))%nat) as [Hlt|Hge]; [left; by apply (H1 _ _ Hi)|].
    right. apply (H1 _ _ Hj). lia.
  - intros m ser Hin. apply H2, list_elem_of_fmap in Hin as (a & Ha & Hin). exists a. unfold core in Ha. by injection Ha as -> ->.
Qed.

(** C24: A process that comes to its end has found each of its steps done: the
    step's own check answered that its effect is there; and where a signature
    is returned, it is one the state file records for that step, and its
    transaction took effect. *)
Theorem returned_signatures_confirmed s rs :
  bootstrap_run s -> sys_running s = Some (Pure (Ok rs)) ->
  Forall (fun r : string * option js_string =>
    r.1 ∈ w_found (sys_world s) /\
    forall sig, r.2 = Some sig ->
      w_processed (sys_world s) !! sig = Some true /\
      exists a, a ∈ attempts_of (w_file (sys_world s)) r.1 /\ sa_signature a = sig) rs.
Proof.
  intros Hr Hs. destruct (bootstrap_run_ok s Hr) as [_ H]. destruct (H rs Hs) as [_ Hall].
  eapply Forall_impl; [exact Hall|]. intros [name r] [Hf Hd]. split; [done|]. intros sig Hsig. cbn in *. subst r.
  destruct Hd as (Hsu & _ & ser & (a & Ha & Hin)%list_elem_of_fmap). split; [done|]. exists a. split; [done|].
  unfold core in Ha. by injection Ha as ->.
Qed.
End steps.

(** ** A crash between sending and noting it, and the restart *)

Definition ds_ex_bytes (serialized : string) : bytes := 1 :: ascii_bytes serialized.
Definition ds_ex_signature (serialized : string) : js_string := signature_of ds_ex_bytes serialized.
Definition ds_ex_context : StepContext := MkContext None (Some 1000000000).
Definition ds_ex_step : step_call := StepCall ds_ex_context "create_mint_x" false.

(** A chain that answers with what it has processed; where [dropped], what it
    has not processed is reported with the error of a fork that is not final. *)
Definition ds_ex_status (dropped : bool) (w : world) (signature : js_string) : option SignatureStatus :=
  match w_processed w !! signature with
  | Some ok => Some (MkStatus (negb ok) (Some confirmed))
  | None => if dropped then Some (MkStatus true (Some processed)) else None
  end.
Definition ds_ex_present (w : world) : bool :=
  existsb (fun p => bool_decide (w_processed w !! ds_ex_signature p.2 = Some true)) (w_sent w).
Definition ds_ex_handler (dropped : bool) (e : event) (w : world) : answer e * world :=
  match e return answer e * world with
  | Check name => (Ok (ds_ex_present w), add_found (if ds_ex_present w then [name] else []) w)
  | ReadAttempts name => (attempts_of (w_memory w) name, w)
  | GetStatus signature =>
      let status := ds_ex_status dropped w signature in
      (Ok status, add_failed (match status with Some s => if st_err s then [signature] else [] | None => [] end) w)
  | GetBlockHeight => (Ok 50, w)
  | GetLatestBlockhash => (Ok (MkBlockhash (if w_sent w is [] then "first" else "second") 100), w)
  | SignTransaction name latest => (Ok (name +:+ "/" +:+ bh_blockhash latest), w)
  | Simulate _ => (Ok (MkSimulation false (Some 999000000)), w)
  | ReadClock => (1771027200000, w)
  | PushAttempt name a => (tt, set_memory (<[name := attempts_of (w_memory w) name ++ [a]]> (w_memory w)) w)
  | MarkSubmitted name time =>
      (tt, set_memory (<[name := alter_last (mark_submitted time) (attempts_of (w_memory w) name)]> (w_memory w)) w)
  | WriteState => (Ok tt, set_file (w_memory w) w)
  | SendRaw name serialized => (Ok (ds_ex_signature serialized), add_sent (name, serialized) w)
  | Confirm signature => (Ok (bool_decide (w_processed w !! signature <> Some true)), w)
  end.
Lemma ds_ex_occurs dropped e w : step_occurs e w (ds_ex_handler dropped e w).1 (ds_ex_handler dropped e w).2.
Proof.
  destruct e; cbn; try done; try (by left).
  - split; [|done]. unfold ds_ex_status, status_true. destruct (w_processed w !! signature) as [[|]|] eqn:Hp; [by intros _ _|done|].
    by destruct dropped.
  - split; [done|]. intros [= H]. apply bool_decide_eq_false in H. by destruct (decide (w_processed w !! signature = Some true)).
Qed.

Definition ds_ex_process : call event answer failure (list (string * option js_string)) := run_steps ds_ex_bytes [ds_ex_step].
Definition ds_ex_land (serialized : string) (w : world) : world :=
  if bool_decide (("create_mint_x", serialized) ∈ w_sent w) && bool_decide (w_processed w !! ds_ex_signature serialized = None)
  then set_processed (ds_ex_signature serialized) true w else w.
Lemma ds_ex_land_step serialized w : chain_step ds_ex_bytes w (ds_ex_land serialized w) \/ ds_ex_land serialized w = w.
Proof.
  unfold ds_ex_land. destruct (bool_decide _ && bool_decide _) eqn:H; [|by right]. left.
  apply andb_prop in H as [H1%bool_decide_eq_true H2%bool_decide_eq_true]. by econstructor.
Qed.

Definition ds_ex_first : string := "create_mint_x/first".
Definition ds_ex_second : string := "create_mint_x/second".
(** The first process is killed after it sent; the next one has begun when the
    transaction takes effect. *)
Definition ds_ex_script :=
  [Launch ds_ex_process] ++ replicate 10 Perform ++ [Kill; Launch ds_ex_process; Perform; Elsewhere (ds_ex_land ds_ex_first)] ++ replicate 20 Perform.
Definition ds_ex_end := perform reload (ds_ex_handler false) ds_ex_script (System initial_world None).

Lemma ds_ex_bytes_nonempty serialized : ds_ex_bytes serialized <> [].
Proof. done. Qed.
Lemma ds_ex_starts n : process_starts ds_ex_bytes n ds_ex_process.
Proof. exists [ds_ex_step]. split; [done|]. by repeat constructor. Qed.
Lemma ds_ex_run dropped script n :
  Forall (fun a => match a with Elsewhere move => exists ser, move = ds_ex_land ser | Launch p => p = ds_ex_process | _ => True end) script ->
  bootstrap_run ds_ex_bytes n (perform reload (ds_ex_handler dropped) script (System initial_world None)).
Proof.
  intros Hs. apply perform_run; [intros; by apply ds_ex_occurs|]. eapply Forall_impl; [exact Hs|].
  intros [move|p| |]; [|intros ->; apply ds_ex_starts|done|done]. intros [ser ->] w. apply ds_ex_land_step.
Qed.
Lemma ds_ex_end_run n : bootstrap_run ds_ex_bytes n ds_ex_end.
Proof. apply ds_ex_run. cbn. repeat constructor; eauto. Qed.

Example returned_signatures_witness :
  exists rs, sys_running ds_ex_end = Some (Pure (Ok rs)) /\ rs = [("create_mint_x", Some (ds_ex_signature ds_ex_first))] /\
             "create_mint_x" ∈ w_found (sys_world ds_ex_end).
Proof.
  assert (H : exists rs, sys_running ds_ex_end = Some (Pure (Ok rs)) /\ rs = [("create_mint_x", Some (ds_ex_signature ds_ex_first))])
    by (eexists; split; vm_compute; reflexivity).
  destruct H as (rs & Hrs & ->). eexists. split; [exact Hrs|]. split; [reflexivity|].
  exact (proj1 (Forall_inv (returned_signatures_confirmed ds_ex_bytes ds_ex_bytes_nonempty
    "create_mint_x" ds_ex_end _ (ds_ex_end_run _) Hrs))).
Defined.

(** Where an error that is merely [processed] is not final, the step is sent
    twice and takes effect twice: the code does not look at how far an error
    is confirmed. *)
Definition ds_ex_fork :=
  [Launch ds_ex_process] ++ replicate 10 Perform ++ [Kill; Launch ds_ex_process] ++ replicate 12 Perform
  ++ [Elsewhere (ds_ex_land ds_ex_first); Elsewhere (ds_ex_land ds_ex_second)].
Definition ds_ex_fork_end := perform reload (ds_ex_handler true) ds_ex_fork (System initial_world None).
Lemma ds_ex_fork_run n : bootstrap_run ds_ex_bytes n ds_ex_fork_end.
Proof. apply ds_ex_run. cbn. repeat constructor; eauto. Qed.
Example processed_error_not_final :
  w_sent (sys_world ds_ex_fork_end) = [("create_mint_x", ds_ex_first); ("create_mint_x", ds_ex_second)] /\
  succeeded (ds_ex_signature ds_ex_first) (sys_world ds_ex_fork_end) /\
  succeeded (ds_ex_signature ds_ex_second) (sys_world ds_ex_fork_end) /\
  ds_ex_signature ds_ex_first <> ds_ex_signature ds_ex_second.
Proof.
  split; [vm_compute; reflexivity|]. split; [vm_compute; reflexivity|]. split; [vm_compute; reflexivity|]. vm_compute. discriminate.
Qed.

Example steps_not_sent_twice_witness :
  ds_ex_signature ds_ex_first ∈ w_failed (sys_world ds_ex_fork_end) \/ ds_ex_signature ds_ex_second ∈ w_failed (sys_world ds_ex_fork_end).
Proof.
  refine (proj1 (steps_not_sent_twice ds_ex_bytes ds_ex_bytes_nonempty "create_mint_x" ds_ex_fork_end (ds_ex_fork_run _))
    ds_ex_first ds_ex_second _ _ _).
  - vm_compute. left.
  - vm_compute. right. left.
  - vm_compute. discriminate.
Defined.
