(* ===== verification/WalletAmounts.v ===== *)
(** * Web wallet: amounts typed and shown

    [apps/web/src/wallet/amounts.ts] and the demo page's copy of its formatters,
    [apps/web/src/demos/amounts.ts]: claims are shown and typed exactly; stock
    is shown in displayed shares, its raw amount times the multiplier of the
    mint, cut off after some places.  Amounts are not negative. *)
From S2P Require Import Prelude Js Euclid TxBytes TxArith.
Open Scope Z_scope.

(** The messages of the errors thrown. *)
Inductive amount_error := BadMultiplier | NotPlainDecimal | TooManyPlaces | NotPositive | ExceedsU64 | BelowOneUnit.
Abbreviation res := (Prelude.result amount_error).

Record Rational := MkRational { num : Z; den : Z }.

Definition positiveFiniteBinary64 (bits : Z) : res Rational :=
  require (negb ((bits <? 0) || (MAX_U64 <? bits) || negb (Z.shiftr bits 63 =? 0))) BadMultiplier ;;
  let rawExponent := Z.land (Z.shiftr bits 52) 2047 in
  let fraction := Z.land bits (Z.shiftl 1 52 - 1) in
  require (negb ((rawExponent =? 2047) || (rawExponent =? 0) && (fraction =? 0))) BadMultiplier ;;
  let significand := if rawExponent =? 0 then fraction else Z.lor (Z.shiftl 1 52) fraction in
  let exponent := if rawExponent =? 0 then -1074 else rawExponent - 1023 - 52 in
  Ok (if 0 <=? exponent then MkRational (Z.shiftl significand exponent) 1
      else MkRational significand (Z.shiftl 1 (- exponent))).

(** The pattern of both parsers - digits, then maybe a dot and maybe more
    digits - with the two halves of [value.split('.')]. *)
Definition typed_decimal (value : string) : res (list ascii * list ascii) :=
  match split_dot (chars value) with
  | (whole, None) => if all_digits whole then Ok (whole, []) else Err NotPlainDecimal
  | (whole, Some fraction) =>
      if all_digits whole && forallb is_digit fraction then Ok (whole, fraction) else Err NotPlainDecimal
  end.

(** Token decimals are a byte, so a [nat] here. *)
Definition ten_to (decimals : nat) : Z := 10 ^ Z.of_nat decimals.

Definition positive_u64 (raw : Z) (low : amount_error) : res Z :=
  require (negb (raw <=? 0)) low ;;
  require (negb (MAX_U64 <? raw)) ExceedsU64 ;;
  Ok raw.

Definition parseRawAmount (value : string) (decimals : nat) : res Z :=
  halves ← typed_decimal value;
  let '(whole, fraction) := halves in
  require (Nat.leb (length fraction) decimals) TooManyPlaces ;;
  positive_u64 (BigInt whole * ten_to decimals + BigInt (padEnd0 decimals fraction)) NotPositive.

Definition decimal_text (whole : Z) (fraction : list ascii) : string :=
  unchars (if bool_decide (fraction = []) then toString whole else toString whole ++ "."%char :: fraction).

Definition formatClaim (raw : Z) (decimals places : nat) : string :=
  let divisor := ten_to decimals in
  decimal_text (raw ÷ divisor) (trimEnd0 (take (Nat.min decimals places) (padStart0 decimals (toString (Z.rem raw divisor))))).

(** The digits of the loop, at most [places] of them. *)
Fixpoint fraction_digits (places : nat) (remainder denominator : Z) : list ascii :=
  match places with
  | O => []
  | S places' =>
      if remainder =? 0 then []
      else toString (remainder * 10 ÷ denominator) ++ fraction_digits places' (Z.rem (remainder * 10) denominator) denominator
  end.

Definition formatStock (raw : Z) (decimals : nat) (multiplierBits : Z) (places : nat) : res string :=
  if raw =? 0 then Ok "0"
  else
    multiplier ← positiveFiniteBinary64 multiplierBits;
    let numerator := raw * num multiplier in
    let denominator := den multiplier * ten_to decimals in
    let whole := numerator ÷ denominator in
    let fraction := trimEnd0 (fraction_digits places (Z.rem numerator denominator) denominator) in
    if bool_decide (fraction = []) && (whole =? 0) && (0 <? numerator)
    then Ok (unchars ("<"%char :: chars "0." ++ replicate (places - 1) zero_char ++ ["1"%char]))
    else Ok (decimal_text whole fraction).

Definition parseStockAmount (value : string) (decimals : nat) (multiplierBits : Z) : res Z :=
  halves ← typed_decimal value;
  let '(whole, fraction) := halves in
  require (Nat.leb (length fraction) 18) TooManyPlaces ;;
  let displayNumerator := BigInt (whole ++ fraction) in
  let displayDenominator := ten_to (length fraction) in
  multiplier ← positiveFiniteBinary64 multiplierBits;
  positive_u64 (displayNumerator * ten_to decimals * den multiplier ÷ (displayDenominator * num multiplier)) BelowOneUnit.

(** ** The demo page *)

Record AmountContext := MkAmountContext {
  stockDecimals : nat; claimDecimals : nat; quoteDecimals : nat; lpDecimals : nat; stockMultiplierBits : Z;
}.
Inductive BalanceKey := stockRaw | ptRaw | drRaw | quoteRaw | lpRaw.

Definition displayBalance (value : Z) (key : BalanceKey) (context : AmountContext) : res string :=
  match key with
  | stockRaw => formatStock value (stockDecimals context) (stockMultiplierBits context) 9
  | quoteRaw => Ok (formatClaim value (quoteDecimals context) (quoteDecimals context))
  | lpRaw => Ok (formatClaim value (lpDecimals context) (lpDecimals context))
  | _ => Ok (formatClaim value (claimDecimals context) (claimDecimals context))
  end.

(** [null], or the sign of the change and its size. *)
Definition displayDelta (before after : Z) (key : BalanceKey) (context : AmountContext) : res (option (bool * string)) :=
  let delta := after - before in
  if delta =? 0 then Ok None
  else
    value ← displayBalance (if delta <? 0 then - delta else delta) key context;
    Ok (Some (0 <? delta, value)).

(** ** Texts and numbers *)

Lemma ten_to_pos d : 0 < ten_to d.
Proof. unfold ten_to. apply Z.pow_pos_nonneg; lia. Qed.

Lemma typed_decimal_Ok value w f :
  typed_decimal value = Ok (w, f) -> all_digits w = true /\ forallb is_digit f = true.
Proof.
  unfold typed_decimal. destruct (split_dot (chars value)) as [w' [f'|]].
  - destruct (all_digits w' && forallb is_digit f') eqn:E; [|done]. intros [= -> ->]. by apply andb_prop in E.
  - destruct (all_digits w') eqn:E; [|done]. by intros [= -> <-].
Qed.

Lemma typed_decimal_text whole f :
  0 <= whole -> forallb is_digit f = true -> typed_decimal (decimal_text whole f) = Ok (toString whole, f).
Proof.
  intros Hw Hf. destruct (toString_spec whole Hw) as [_ Hd]. unfold typed_decimal, decimal_text. rewrite chars_unchars.
  case_bool_decide as Hnil.
  - subst f. by rewrite split_dot_no_dot, Hd by by apply all_digits_forallb.
  - by rewrite split_dot_digits, Hd, Hf by by apply all_digits_forallb.
Qed.

(** A displayed value: its digits and how many follow the dot. *)
Lemma BigInt_decimal whole f : 0 <= whole -> BigInt (toString whole ++ f) = whole * ten_to (length f) + BigInt f.
Proof. intros Hw. rewrite BigInt_app. by destruct (toString_spec whole Hw) as [-> _]. Qed.

Lemma BigInt_padEnd0 n l : (length l <= n)%nat -> BigInt (padEnd0 n l) = BigInt l * ten_to (n - length l).
Proof. intros Hl. unfold padEnd0. by rewrite BigInt_app, BigInt_zeros, length_replicate, Z.add_0_r. Qed.

Lemma trimEnd0_scaled l : BigInt l = BigInt (trimEnd0 l) * ten_to (length l - length (trimEnd0 l)) /\ (length (trimEnd0 l) <= length l)%nat.
Proof.
  destruct (trimEnd0_value l) as [Hv Hl]. split; [|done]. rewrite Hv at 1. unfold ten_to. do 2 f_equal. lia.
Qed.

Lemma positive_u64_Ok raw low r : positive_u64 raw low = Ok r <-> r = raw /\ 0 < raw <= MAX_U64.
Proof.
  unfold positive_u64, require. destruct (raw <=? 0) eqn:H1; destruct (MAX_U64 <? raw) eqn:H2; cbn; split; try (intros [= <-]); try done;
    try (intros [-> ?]); try done; lia.
Qed.

Lemma fraction_nonneg bits : 0 <= Z.land bits FRACTION_MASK.
Proof. change FRACTION_MASK with (Z.ones 52). rewrite Z.land_ones by lia. apply Z.mod_pos_bound. lia. Qed.

Lemma positiveFinite_pos bits m : positiveFiniteBinary64 bits = Ok m -> 0 < num m /\ 0 < den m.
Proof.
  intros H. unfold positiveFiniteBinary64 in H.
  apply bind_Ok_inv in H as ([] & H1%require_Ok_inv & H). apply bind_Ok_inv in H as ([] & H2%require_Ok_inv & H).
  apply Ok_inj in H. change (Z.shiftl 1 52 - 1) with FRACTION_MASK in *.
  pose proof (significand_bounds bits) as Hs. pose proof (fraction_nonneg bits) as Hf.
  set (e := Z.land (Z.shiftr bits 52) 2047) in *.
  assert (0 < (if e =? 0 then Z.land bits FRACTION_MASK else Z.lor (Z.shiftl 1 52) (Z.land bits FRACTION_MASK))) as Hpos.
  { destruct (e =? 0) eqn:He; [|lia]. destruct (Z.land bits FRACTION_MASK =? 0) eqn:E0; [|lia].
    by rewrite orb_true_r in H2. }
  set (s := if e =? 0 then Z.land _ _ else _) in *. set (x := if e =? 0 then -1074 else _) in *.
  destruct (0 <=? x) eqn:Hx; breflect; subst m; cbn [num den]; rewrite Z.shiftl_mul_pow2 by lia.
  - pose proof (Z.pow_pos_nonneg 2 x). nia.
  - pose proof (Z.pow_pos_nonneg 2 (- x)). nia.
Qed.

(** The digits of the loop are the fraction cut off: below its value by less
    than one unit of their last place, and there are [places] of them unless
    the fraction ended. *)
Lemma fraction_digits_spec places r d :
  0 <= r < d ->
  let l := fraction_digits places r d in
  forallb is_digit l = true /\ (length l <= places)%nat /\
  BigInt l * d <= r * ten_to (length l) /\
  (r * ten_to (length l) < (BigInt l + 1) * d) /\
  (length l = places \/ BigInt l * d = r * ten_to (length l)).
Proof.
  revert r. induction places as [|places IH]; intros r Hr; cbn [fraction_digits]; cbv zeta.
  { change (BigInt []) with 0. cbn [length]. unfold ten_to. repeat split; try done; try lia. }
  destruct (r =? 0) eqn:H0; breflect.
  { subst. change (BigInt []) with 0. cbn [length]. unfold ten_to. repeat split; try done; try lia. }
  rewrite Z.quot_div_nonneg, Z.rem_mod_nonneg by lia.
  set (q := r * 10 / d). set (r' := (r * 10) mod d).
  pose proof (Z.div_mod (r * 10) d ltac:(lia)) as Hdm. fold q r' in Hdm.
  pose proof (Z.mod_pos_bound (r * 10) d ltac:(lia)) as Hr'. fold r' in Hr'.
  assert (0 <= q < 10) as Hq by nia.
  assert (toString q = [digit_char q]) as Ht.
  { unfold toString. cbn [toString_fuel]. rewrite (proj2 (Z.ltb_lt q 10)), Z.mod_small by lia. done. }
  destruct (IH r' Hr') as (Hd & Hl & Hlo & Hhi & Hend). rewrite Ht. cbn [app].
  set (l := fraction_digits places r' d) in *.
  rewrite BigInt_cons, digit_val_char by lia. cbn [length forallb].
  assert (ten_to (S (length l)) = 10 * ten_to (length l)) as -> by (unfold ten_to; rewrite Nat2Z.inj_succ, Z.pow_succ_r; lia).
  fold (ten_to (length l)). pose proof (ten_to_pos (length l)).
  split; [rewrite is_digit_char by lia; done|]. split; [lia|].
  split; [nia|]. split; [nia|]. destruct Hend as [->|Hend]; [by left|right; nia].
Qed.

Lemma parseStockAmount_text whole f d bits m :
  0 <= whole -> forallb is_digit f = true -> (length f <= 18)%nat -> positiveFiniteBinary64 bits = Ok m ->
  parseStockAmount (decimal_text whole f) d bits =
    positive_u64 ((whole * ten_to (length f) + BigInt f) * ten_to d * den m ÷ (ten_to (length f) * num m)) BelowOneUnit.
Proof.
  intros Hw Hf Hl Hm. unfold parseStockAmount. rewrite typed_decimal_text by done. rewrite bind_Ok.
  rewrite (proj2 (Nat.leb_le _ _) Hl), require_true, bind_Ok, Hm, bind_Ok, BigInt_decimal by done. done.
Qed.

(** What the text of an amount of stock says, when it says a number. *)
Record shown (text : string) (N D : Z) (places : nat) (whole : Z) (f : list ascii) : Prop := {
  shown_text : text = decimal_text whole f;
  shown_whole : 0 <= whole;
  shown_digits : forallb is_digit f = true;
  shown_length : (length f <= places)%nat;
  shown_below : (whole * ten_to (length f) + BigInt f) * D <= N * ten_to (length f);
  shown_close : N * ten_to places * ten_to (length f)
                < ((whole * ten_to (length f) + BigInt f) * ten_to places + ten_to (length f)) * D;
}.

Lemma ten_to_add n k : ten_to (n + k) = ten_to n * ten_to k.
Proof. unfold ten_to. rewrite Nat2Z.inj_add, Z.pow_add_r by lia. done. Qed.

Lemma cut_decimal_shown N D places :
  0 <= N -> 0 < D ->
  let f := trimEnd0 (fraction_digits places (Z.rem N D) D) in
  shown (decimal_text (N ÷ D) f) N D places (N ÷ D) f.
Proof.
  intros HN HD. rewrite Z.quot_div_nonneg, Z.rem_mod_nonneg by lia. cbv zeta.
  pose proof (Z.div_mod N D ltac:(lia)) as Hdm. pose proof (Z.div_pos N D HN HD) as Hq.
  destruct (fraction_digits_spec places (N mod D) D (Z.mod_pos_bound N D HD)) as (Hd & Hl & Hlo & Hhi & Hend).
  set (l := fraction_digits places (N mod D) D) in *. destruct (trimEnd0_scaled l) as [Hv Ht].
  set (f := trimEnd0 l) in *. set (q := N / D) in *. set (r := N mod D) in *.
  pose proof (ten_to_pos (length f)) as Hpf. pose proof (ten_to_pos (length l - length f)) as Hpk.
  replace (length l) with (length f + (length l - length f))%nat in Hlo, Hhi, Hend by lia.
  rewrite ten_to_add, Hv in Hlo, Hhi, Hend. set (k := ten_to (length l - length f)) in *. set (p := ten_to (length f)) in *.
  assert (BigInt f * D <= r * p) as Hbelow by nia.
  split; try done; [by apply trimEnd0_digits|lia|nia|].
  pose proof (ten_to_pos places) as Hpp. destruct Hend as [Hend|Hend].
  - assert (ten_to places = p * k) as -> by (unfold p, k; rewrite <- ten_to_add; congruence). nia.
  - assert (BigInt f * D = r * p) by nia. nia.
Qed.

Lemma formatStock_shown raw d bits places m t :
  0 < raw -> positiveFiniteBinary64 bits = Ok m -> formatStock raw d bits places = Ok t ->
  (exists rest, t = unchars ("<"%char :: rest) /\ raw * num m * ten_to places < den m * ten_to d) \/
  (exists whole f, shown t (raw * num m) (den m * ten_to d) places whole f).
Proof.
  intros Hraw Hm. destruct (positiveFinite_pos bits m Hm) as [Hn Hd]. pose proof (ten_to_pos d) as Hp.
  unfold formatStock. rewrite (proj2 (Z.eqb_neq raw 0)), Hm, bind_Ok by lia. cbv zeta.
  pose proof (cut_decimal_shown (raw * num m) (den m * ten_to d) places ltac:(lia) ltac:(lia)) as Hs. cbv zeta in Hs.
  set (f := trimEnd0 _) in *. destruct (_ && _ && _) eqn:E; intros <-%Ok_inj; [left|right; eauto].
  apply andb_prop in E as [[E1%bool_decide_eq_true E2]%andb_prop _]. breflect. eexists. split; [reflexivity|].
  pose proof (shown_close _ _ _ _ _ _ Hs) as Hc. rewrite E1, E2 in Hc. change (BigInt []) with 0 in Hc.
  change (ten_to (length (@nil ascii))) with 1 in Hc. lia.
Qed.

(** A text that says a number parses back to the raw units it stands for. *)
Lemma shown_parses t raw d bits places m whole f :
  0 < raw -> positiveFiniteBinary64 bits = Ok m -> (places <= 18)%nat ->
  shown t (raw * num m) (den m * ten_to d) places whole f ->
  exists back, parseStockAmount t d bits = positive_u64 back BelowOneUnit /\ 0 <= back <= raw /\
    ((d <= places)%nat -> den m <= num m -> raw - 1 <= back).
Proof.
  intros Hraw Hm Hp Hs. destruct (positiveFinite_pos bits m Hm) as [Hn Hd]. pose proof (ten_to_pos d).
  destruct Hs as [-> Hw Hf Hl Hbelow Hclose].
  rewrite (parseStockAmount_text whole f d bits m) by (done || lia). eexists. split; [done|].
  pose proof (ten_to_pos (length f)) as Hpf. destruct (BigInt_bounds f Hf) as [Hb0 _].
  set (v := whole * ten_to (length f) + BigInt f) in *. assert (0 <= v) by nia.
  assert (0 <= v * ten_to d * den m) by (apply Z.mul_nonneg_nonneg; [apply Z.mul_nonneg_nonneg; lia|lia]).
  assert (0 < ten_to (length f) * num m) by (apply Z.mul_pos_pos; lia).
  rewrite Z.quot_div_nonneg by lia. split; [split; [apply Z.div_pos; lia|]|intros Hdp Hmul].
  - apply Z.div_le_upper_bound; [lia|]. nia.
  - apply Z.div_le_lower_bound; [lia|].
    pose proof (ten_to_pos places). pose proof (ten_to_pos (places - d)).
    assert (ten_to places = ten_to d * ten_to (places - d)) as Hpl by (rewrite <- ten_to_add; f_equal; lia).
    rewrite Hpl in Hclose. set (s := ten_to d) in *. set (z := ten_to (places - d)) in *. set (p := ten_to (length f)) in *.
    assert (raw * num m * p * z < (v * z * s + p) * den m) as Hc by nia.
    assert (p * den m <= p * num m * z) by nia. nia.
Qed.

Lemma parseStockAmount_less rest d bits : parseStockAmount (unchars ("<"%char :: rest)) d bits = Err NotPlainDecimal.
Proof.
  unfold parseStockAmount, typed_decimal. rewrite chars_unchars. cbn [split_dot].
  change (is_dot "<"%char) with false. cbv iota. by destruct (split_dot rest) as [w [f|]].
Qed.

Lemma forallb_zeros n : forallb is_digit (replicate n zero_char) = true.
Proof. induction n as [|n IH]; [done|]. by simpl. Qed.

(** The digits of a fraction, padded to the decimals and trimmed. *)
Lemma fraction_of_claim r d :
  0 <= r < ten_to d ->
  let f := trimEnd0 (take d (padStart0 d (toString r))) in
  forallb is_digit f = true /\ (length f <= d)%nat /\ BigInt (padEnd0 d f) = r.
Proof.
  intros Hr. destruct (toString_spec r) as [Hv Hd]; [lia|]. apply all_digits_forallb in Hd. cbv zeta.
  destruct d as [|d]; [change (ten_to 0) with 1 in Hr; by replace r with 0 by lia|].
  assert (length (padStart0 (S d) (toString r)) = S d) as Hlen.
  { apply length_padStart0. apply toString_length; [lia|]. done. }
  rewrite take_ge by lia. destruct (trimEnd0_scaled (padStart0 (S d) (toString r))) as [Hs Hl].
  set (f := trimEnd0 _) in *. rewrite Hlen in Hs, Hl.
  split; [apply trimEnd0_digits; unfold padStart0; by rewrite forallb_app, Hd, forallb_zeros|]. split; [lia|].
  rewrite BigInt_padEnd0, <- Hs, BigInt_padStart0 by lia. done.
Qed.

(** C39: What the amount field of the wallet shows for a claim is what it parses
    back: its [Max] button fills in [formatClaim] of the whole balance, and
    [parseRawAmount] reads from it exactly that balance, whatever the decimals. *)
Theorem claim_amount_roundtrip (raw : Z) (decimals : nat) :
  0 < raw <= MAX_U64 -> parseRawAmount (formatClaim raw decimals decimals) decimals = Ok raw.
Proof.
  intros Hraw. unfold formatClaim. rewrite Nat.min_id. pose proof (ten_to_pos decimals) as Hp.
  rewrite Z.quot_div_nonneg, Z.rem_mod_nonneg by lia. destruct (fraction_of_claim (raw mod ten_to decimals) decimals) as (Hd & Hl & Hv).
  { by apply Z.mod_pos_bound. }
  cbv zeta in *. set (f := trimEnd0 _) in *. pose proof (Z.div_pos raw (ten_to decimals) ltac:(lia) Hp).
  unfold parseRawAmount. rewrite typed_decimal_text, bind_Ok by done.
  rewrite (proj2 (Nat.leb_le _ _) Hl), require_true, bind_Ok, Hv. destruct (toString_spec (raw / ten_to decimals)) as [-> _]; [done|].
  apply positive_u64_Ok. pose proof (Z.div_mod raw (ten_to decimals)). lia.
Qed.

(** Stock is shown cut off, never rounded up, and typed amounts are cut off
    once more: an amount of stock the wallet shows and the user types back never
    asks for more raw units than there are, and asks for at most one less when
    the places shown cover the decimals of the mint and its multiplier is one or
    more.  A balance too small to show ("<0.000000001") is refused as typed text. *)
Theorem shown_stock_typed_back (raw : Z) (decimals : nat) (multiplierBits : Z) (places : nat) (m : Rational) (text : string) :
  0 < raw <= MAX_U64 -> (places <= 18)%nat ->
  positiveFiniteBinary64 multiplierBits = Ok m -> formatStock raw decimals multiplierBits places = Ok text ->
  (forall back, parseStockAmount text decimals multiplierBits = Ok back -> 0 < back <= raw) /\
  ((decimals <= places)%nat -> den m <= num m -> 1 < raw ->
   exists back, parseStockAmount text decimals multiplierBits = Ok back /\ raw - 1 <= back <= raw).
Proof.
  intros Hraw Hp Hm Ht. destruct (positiveFinite_pos _ _ Hm) as [Hn Hd].
  destruct (formatStock_shown raw decimals multiplierBits places m text ltac:(lia) Hm Ht) as [(rest & -> & Hsmall)|(whole & f & Hs)].
  - split; [intros back; by rewrite parseStockAmount_less|intros Hdp Hmul Hr1; exfalso].
    pose proof (ten_to_pos decimals). pose proof (ten_to_pos (places - decimals)).
    replace places with (decimals + (places - decimals))%nat in Hsmall by lia. rewrite ten_to_add in Hsmall.
    assert (den m <= raw * num m) by nia. 
    assert (den m * ten_to decimals <= raw * num m * ten_to decimals) by nia. nia.
  - destruct (shown_parses text raw decimals multiplierBits places m whole f ltac:(lia) Hm Hp Hs) as (back & -> & Hb & Hclose). split.
    + intros b [-> H]%positive_u64_Ok. lia.
    + intros Hdp Hmul Hr1. exists back. specialize (Hclose Hdp Hmul). split; [apply positive_u64_Ok|]; lia.
Qed.

(** 12.34567891 claims with 8 decimals; 3.5 shares at a multiplier of 1.25 over 9 decimals. *)
Lemma claim_amount_witness :
  0 < 1234567891 <= MAX_U64 /\ formatClaim 1234567891 8 8 = "12.34567891" /\
  parseRawAmount (formatClaim 1234567891 8 8) 8 = Ok 1234567891.
Proof. split; [done|]. split; [vm_compute; reflexivity|]. apply (claim_amount_roundtrip 1234567891 8). done. Defined.

Definition ex_multiplier : Z := 4608308318706860032.

Lemma shown_stock_witness :
  positiveFiniteBinary64 ex_multiplier = Ok (MkRational 5629499534213120 4503599627370496) /\
  formatStock 3333333337 9 ex_multiplier 9 = Ok "4.166666671" /\
  parseStockAmount "4.166666671" 9 ex_multiplier = Ok 3333333336 /\
  (forall back, parseStockAmount "4.166666671" 9 ex_multiplier = Ok back -> 0 < back <= 3333333337).
Proof.
  split; [vm_compute; reflexivity|]. split; [vm_compute; reflexivity|]. split; [vm_compute; reflexivity|].
  apply (shown_stock_typed_back 3333333337 9 ex_multiplier 9 (MkRational 5629499534213120 4503599627370496) "4.166666671");
    [done|lia|vm_compute; reflexivity|vm_compute; reflexivity].
Defined.
