(* ===== verification/ProductClient.v ===== *)
(** * Web product: the client over the annual reference model

    [AnnualProductClient] of [apps/web/src/annual-product-client.ts]: the test
    wallets of a seller and a buyer, and one session per annual series, each
    owning an [AnnualReferenceModel] (Annual).  A method is a state-passing
    computation over the client; a call of a session's model keeps whatever
    the model did before it threw. *)
From S2P Require DemoMoney.
From S2P Require Import Prelude Js Calendar Annual.
Open Scope Z_scope.

(** ** Data *)

Inductive ProductAccount := seller | buyer.
Inductive AnnualStage := deposits_open | collecting | year_ended | stage_finalized.
#[global] Instance ProductAccount_eq_dec : EqDecision ProductAccount. Proof. solve_decision. Defined.
#[global] Instance AnnualStage_eq_dec : EqDecision AnnualStage. Proof. solve_decision. Defined.

(** The fields of [AssetDescriptor] and [EventDescriptor] the client reads. *)
Record ProductAsset := Asset {
  pa_id : string; pa_issuerId : string; pa_mint : string; pa_symbol : string; pa_decimals : Z;
  pa_eventFixtureId : option string;
}.
Record ProductSource := Source { ps_id : string; ps_evidenceKind : string; ps_m0 : string; ps_m1 : string }.

Record Session := MkSession {
  se_asset : ProductAsset; se_source : ProductSource; se_model : Model; stage : AnnualStage;
  sourceReplayed : bool; sourceTestExDate : option string; syntheticAdded : bool;
  syntheticTestExDate : option string; saleCompleted : bool; activeFactor : string;
}.

Abbreviation balances := (list (string * Z)).
Record Client := MkClient {
  sessions : list (string * Session);
  stock_seller : balances; stock_buyer : balances; cash_seller : Z; cash_buyer : Z;
}.

(** The errors: those of the SDK and of the model, and the client's own. *)
Inductive ProductError :=
  | ESdk (e : DemoMoney.DemoErrorCode)
  | EModel (e : AnnualReferenceErrorCode)
  | NEEDS_REVIEWED_EXAMPLE | EXCEEDS_STOCK | ALREADY_HAS_DEPOSIT | YEAR_ALREADY_STARTED | YEAR_NOT_STARTED
  | ALREADY_REPLAYED | NOT_COLLECTING | REPLAY_FIRST | ALREADY_ADDED | YEAR_NOT_ENDED | SALE_COMPLETED | NO_DR
  | INSUFFICIENT_USDC | UNKNOWN_SERIES
  | JS_SYNTAX_ERROR. (** [BigInt] of a text that is not a number *)
Abbreviation POp := (M Client ProductError).
Abbreviation pres := (result ProductError).

Definition USDC : Z := 1000000.
Definition account_name (a : ProductAccount) : string := match a with seller => "seller" | buyer => "buyer" end.
Definition product_accounts : list string := [account_name seller; account_name buyer].

Definition sdk {A} (r : result DemoMoney.DemoErrorCode A) : pres A := match r with Ok a => Ok a | Err e => Err (ESdk e) end.
Definition model_res {A} (r : res A) : pres A := match r with Ok a => Ok a | Err e => Err (EModel e) end.

(** ** Field updates *)

Definition stock_of (c : Client) (a : ProductAccount) : balances :=
  match a with seller => stock_seller c | buyer => stock_buyer c end.
(** [this.stockRaw[account][id] ?? 0n] *)
Definition stock_get (c : Client) (a : ProductAccount) (id : string) : Z := default 0 (om_get (stock_of c a) id).
Definition with_stock (a : ProductAccount) (id : string) (x : Z) (c : Client) : Client :=
  MkClient (sessions c)
    (match a with seller => om_set (stock_seller c) id x | buyer => stock_seller c end)
    (match a with seller => stock_buyer c | buyer => om_set (stock_buyer c) id x end) (cash_seller c) (cash_buyer c).
Definition with_session (id : string) (s : Session) (c : Client) : Client :=
  MkClient (om_set (sessions c) id s) (stock_seller c) (stock_buyer c) (cash_seller c) (cash_buyer c).
Definition with_cash (s b : Z) (c : Client) : Client :=
  MkClient (sessions c) (stock_seller c) (stock_buyer c) s b.

Definition se_with_model (m : Model) (s : Session) : Session :=
  MkSession (se_asset s) (se_source s) m (stage s) (sourceReplayed s) (sourceTestExDate s) (syntheticAdded s)
    (syntheticTestExDate s) (saleCompleted s) (activeFactor s).
Definition se_with_stage (x : AnnualStage) (s : Session) : Session :=
  MkSession (se_asset s) (se_source s) (se_model s) x (sourceReplayed s) (sourceTestExDate s) (syntheticAdded s)
    (syntheticTestExDate s) (saleCompleted s) (activeFactor s).
Definition se_with_replay (exDate factor : string) (s : Session) : Session :=
  MkSession (se_asset s) (se_source s) (se_model s) (stage s) true (Some exDate) (syntheticAdded s)
    (syntheticTestExDate s) (saleCompleted s) factor.
Definition se_with_synthetic (exDate factor : string) (s : Session) : Session :=
  MkSession (se_asset s) (se_source s) (se_model s) (stage s) (sourceReplayed s) (sourceTestExDate s) true
    (Some exDate) (saleCompleted s) factor.
Definition se_with_sale (s : Session) : Session :=
  MkSession (se_asset s) (se_source s) (se_model s) (stage s) (sourceReplayed s) (sourceTestExDate s) (syntheticAdded s)
    (syntheticTestExDate s) true (activeFactor s).

(** ** Helpers *)

(** [s.replace(/\.?0+$/, '')]: trailing zeros, and the dot before them. *)
Definition trim_zeros (l : list ascii) : list ascii :=
  let t := trimEnd0 l in
  if Nat.eqb (length t) (length l) then l
  else match last t with Some c => if is_dot c then removelast t else t | None => t end.

(** [BigInt(whole + fraction)] throws on anything but digits. *)
Definition addHalfPercent (value : string) : pres string :=
  match plain_decimal (chars value) with
  | None => Err JS_SYNTAX_ERROR
  | Some (whole, fraction) =>
      let denominatorPlaces := (length fraction + 3)%nat in
      let numerator := BigInt (whole ++ fraction) * 1005 in
      let digits := padStart0 (denominatorPlaces + 1) (toString numerator) in
      let cut := (length digits - denominatorPlaces)%nat in
      Ok (unchars (trim_zeros (firstn cut digits ++ "."%char :: skipn cut digits)))
  end.

Definition year_text (year : Z) : string := unchars (toString year).

Definition testExDate (source : ProductSource) (year : Z) : string :=
  if bool_decide (ps_evidenceKind source = "issuer_api") then year_text year +:+ "-03-15" else year_text year +:+ "-07-15".

Definition termFor (asset : ProductAsset) (year : Z) : AnnualTermIdentity :=
  Term "solana" (pa_issuerId asset) (pa_mint asset) (pa_symbol asset) year.

Section client.
Context (assets : list ProductAsset) (sources : list ProductSource).

(** [asset.eventFixtureId ? this.sources.find(...) : undefined] *)
Definition sourceFor (asset : ProductAsset) : option ProductSource :=
  match pa_eventFixtureId asset with
  | Some id => if bool_decide (id = "") then None else List.find (fun s => bool_decide (ps_id s = id)) sources
  | None => None
  end.

Definition requireSource (asset : ProductAsset) : pres ProductSource :=
  match sourceFor asset with Some s => Ok s | None => Err NEEDS_REVIEWED_EXAMPLE end.

Definition requireSession (id : string) : POp Session := fun c =>
  (match om_get (sessions c) id with Some s => Ok s | None => Err UNKNOWN_SERIES end, c).

(** One asset of the loop of [reset]. *)
Definition fund_asset (stock : balances * balances) (asset : ProductAsset) : pres (balances * balances) :=
  raw ← match sourceFor asset with
        | Some source => sdk (DemoMoney.toRawAmount "200" (pa_decimals asset) (ps_m0 source))
        | None => Ok 0
        end;
  Ok (om_set stock.1 (pa_id asset) raw, om_set stock.2 (pa_id asset) 0).

(** The state [reset] establishes, from any state. *)
Definition reset : pres Client :=
  stock ← foldM fund_asset ([], []) assets;
  Ok (MkClient [] stock.1 stock.2 0 (1000 * USDC)).

(** [session.model.op(...)]: the session's model runs a method. *)
Definition on_model {A} (id : string) (op : Op A) : POp A := fun c =>
  match om_get (sessions c) id with
  | None => (Err UNKNOWN_SERIES, c)
  | Some s =>
      let '(r, m') := op (se_model s) in
      (match r with Ok a => Ok a | Err e => Err (EModel e) end, with_session id (se_with_model m' s) c)
  end.

(** An assignment to the fields of a session object. *)
Definition on_session (id : string) (f : Session -> Session) : POp unit :=
  modify (fun c => match om_get (sessions c) id with Some s => with_session id (f s) c | None => c end).

Definition credit_stock (account : ProductAccount) (assetId : string) (raw : Z) : POp unit :=
  modify (fun c => with_stock account assetId (stock_get c account assetId + raw) c).

(** ** Methods *)

Definition seriesId (asset : ProductAsset) (year : Z) : pres string :=
  model_res (construct (termFor asset year) product_accounts) ;;
  model_res (annualSeriesId (termFor asset year)).

Definition previewDeposit (asset : ProductAsset) (display : string) : POp Z :=
  source ← lift (requireSource asset);
  raw ← lift (sdk (DemoMoney.toRawAmount display (pa_decimals asset) (ps_m0 source)));
  c ← get;
  ensure (negb (stock_get c seller (pa_id asset) <? raw)) EXCEEDS_STOCK ;;
  mret raw.

Definition deposit (asset : ProductAsset) (year : Z) (display : string) : POp string :=
  source ← lift (requireSource asset);
  raw ← previewDeposit asset display;
  model ← lift (model_res (construct (termFor asset year) product_accounts));
  id ← lift (model_res (annualSeriesId (term model)));
  c ← get;
  ensure (negb (om_has (sessions c) id)) ALREADY_HAS_DEPOSIT ;;
  let '(r, model') := Annual.deposit (account_name seller) raw (startSeconds model - 1) model in
  lift (model_res r) ;;
  modify (fun c => with_stock seller (pa_id asset) (stock_get c seller (pa_id asset) - raw) c) ;;
  modify (with_session id
    (MkSession asset source model' deposits_open false None false None false (ps_m0 source))) ;;
  mret id.

Definition startYear (id : string) : POp unit :=
  session ← requireSession id;
  ensure (bool_decide (stage session = deposits_open)) YEAR_ALREADY_STARTED ;;
  on_session id (se_with_stage collecting).

(** A journal record of the session's series; [seriesId] is that of its term. *)
Definition product_record (session : Session) (suffix exDate m0 m1 : string) : pres AnnualEventRecord :=
  let t := term (se_model session) in
  sid ← model_res (annualSeriesId t);
  Ok (Event (sid +:+ suffix) 1 (t_chain t) (t_issuer t) (t_mint t) (Some exDate) qualified m0 m1 true).

Definition sourceRecord (session : Session) (exDate : string) : pres AnnualEventRecord :=
  product_record session ":historical-factor-example" exDate (ps_m0 (se_source session)) (ps_m1 (se_source session)).

Definition replaySource (id : string) : POp unit :=
  session ← requireSession id;
  ensure (bool_decide (stage session = collecting)) YEAR_NOT_STARTED ;;
  ensure (negb (sourceReplayed session)) ALREADY_REPLAYED ;;
  let exDate := testExDate (se_source session) (t_year (term (se_model session))) in
  record ← lift (sourceRecord session exDate);
  on_model id (recordEvent record) ;;
  on_session id (se_with_replay exDate (ps_m1 (se_source session))).

Definition addSyntheticDividend (id : string) : POp unit :=
  session ← requireSession id;
  ensure (bool_decide (stage session = collecting)) NOT_COLLECTING ;;
  ensure (sourceReplayed session) REPLAY_FIRST ;;
  ensure (negb (syntheticAdded session)) ALREADY_ADDED ;;
  let m0 := activeFactor session in
  m1 ← lift (addHalfPercent m0);
  let exDate := year_text (t_year (term (se_model session))) +:+ "-09-15" in
  record ← lift (product_record session ":synthetic-dividend-2" exDate m0 m1);
  on_model id (recordEvent record) ;;
  on_session id (se_with_synthetic exDate m1).

Definition endYear (id : string) : POp unit :=
  session ← requireSession id;
  ensure (bool_decide (stage session = collecting)) YEAR_NOT_STARTED ;;
  on_session id (se_with_stage year_ended).

Definition product_finalize (id : string) : POp unit :=
  session ← requireSession id;
  ensure (bool_decide (stage session = year_ended)) YEAR_NOT_ENDED ;;
  on_model id (finalize (maturitySeconds (se_model session)) true) ;;
  on_session id (se_with_stage stage_finalized).

(** [session.model.getState().accounts.seller]: the constructor made it. *)
Definition seller_dr (m : Model) : Z :=
  match om_get (accounts m) (account_name seller) with Some a => drRaw a | None => 0 end.

Definition sellFortyPercentDr (id : string) : POp (Z * Z) :=
  session ← requireSession id;
  ensure (negb (saleCompleted session)) SALE_COMPLETED ;;
  let raw := seller_dr (se_model session) * 40 ÷ 100 in
  let cashRaw := (if bool_decide (pa_issuerId (se_asset session) = "backpack") then 5 else 30) * USDC in
  ensure (negb (raw <=? 0)) NO_DR ;;
  c ← get;
  ensure (negb (cash_buyer c <? cashRaw)) INSUFFICIENT_USDC ;;
  on_model id (transfer (account_name seller) (account_name buyer) dr raw) ;;
  modify (fun c => with_cash (cash_seller c) (cash_buyer c - cashRaw) c) ;;
  modify (fun c => with_cash (cash_seller c + cashRaw) (cash_buyer c) c) ;;
  on_session id se_with_sale ;;
  mret (raw, cashRaw).

Definition product_recombine (id : string) (account : ProductAccount) (raw : Z) : POp Z :=
  session ← requireSession id;
  on_model id (recombine (account_name account) raw) ;;
  credit_stock account (pa_id (se_asset session)) raw ;;
  mret raw.

Definition product_previewRedemption (id : string) (account : ProductAccount) (side : AnnualClaimSide) (raw : Z) : POp Z :=
  requireSession id ;;
  on_model id (previewRedemption (account_name account) side raw).

(** [redeem] and [closeZero] differ in [allowZero]. *)
Definition product_redeem (id : string) (account : ProductAccount) (side : AnnualClaimSide) (raw : Z) (allowZero : bool) : POp Z :=
  session ← requireSession id;
  payout ← on_model id (redeem (account_name account) side raw allowZero);
  credit_stock account (pa_id (se_asset session)) payout ;;
  mret payout.
Definition closeZero (id : string) (account : ProductAccount) (side : AnnualClaimSide) (raw : Z) : POp Z :=
  product_redeem id account side raw true.

Definition sourceEvent (id : string) : POp ProductSource :=
  session ← requireSession id;
  mret (se_source session).

(** ** Reading *)

Record ProductAnnualSeries := ProductSeries {
  pv_id : string; pv_assetId : string; pv_sourceEventId : string; pv_year : Z; pv_session : Session;
  pv_allocation : AnnualAllocation;
}.

Definition series_view (entry : string * Session) : res ProductAnnualSeries :=
  allocation ← previewAllocation (se_model entry.2);
  Ok (ProductSeries entry.1 (pa_id (se_asset entry.2)) (ps_id (se_source entry.2)) (t_year (term (se_model entry.2)))
        entry.2 allocation).

(** [getState().series]; the balances are copied. *)
Definition getState (c : Client) : pres (list ProductAnnualSeries) :=
  model_res (foldM (fun acc entry => view ← series_view entry; Ok (acc ++ [view])) [] (sessions c)).

(** ** The methods as one step relation *)

Inductive ProductCall :=
  | PDeposit (asset : ProductAsset) (year : Z) (display : string)
  | PStartYear (id : string)
  | PReplaySource (id : string)
  | PAddSyntheticDividend (id : string)
  | PEndYear (id : string)
  | PFinalize (id : string)
  | PSellFortyPercentDr (id : string)
  | PRecombine (id : string) (account : ProductAccount) (raw : Z)
  | PRedeem (id : string) (account : ProductAccount) (side : AnnualClaimSide) (raw : Z) (allowZero : bool)
  | PReset.

Definition product_exec (call : ProductCall) : POp unit :=
  match call with
  | PDeposit asset year display => deposit asset year display ;; mret tt
  | PStartYear id => startYear id
  | PReplaySource id => replaySource id
  | PAddSyntheticDividend id => addSyntheticDividend id
  | PEndYear id => endYear id
  | PFinalize id => product_finalize id
  | PSellFortyPercentDr id => sellFortyPercentDr id ;; mret tt
  | PRecombine id account raw => product_recombine id account raw ;; mret tt
  | PRedeem id account side raw allowZero => product_redeem id account side raw allowZero ;; mret tt
  | PReset => fun c => match reset with Ok c' => (Ok tt, c') | Err e => (Err e, c) end
  end.

Inductive product_reachable : Client -> Prop :=
  | product_new c : reset = Ok c -> product_reachable c
  | product_call c call : product_reachable c -> product_reachable (product_exec call c).2.
End client.
