(* ===== verification/ProductProps.v ===== *)
(** * Web product: the theorems

    The client conserves stock and cash, never leaves a series short of
    custody, is unchanged by a call that throws, and lets every holder of a
    finalized series close. *)
From Stdlib Require Zquot.
From S2P Require Import Prelude Js Payout Calendar Annual AnnualLedger AnnualProps ProductClient.
Open Scope Z_scope.

(** ** What a session's calls do to its model *)

(** Collateral paid out inside the model plus collateral in custody: all that
    was ever deposited. *)
Definition collateral_total (m : Model) : Z := om_sum collateralRaw (accounts m).

Record preserved (m m' : Model) : Prop := {
  pr_total : collateral_total m' + actualCustodyRaw m' = collateral_total m + actualCustodyRaw m;
  pr_blocked : custodyBlocked m' = custodyBlocked m;
  pr_donations : donationsRaw m' = donationsRaw m;
  pr_burned : externallyBurnedPtRaw m' = externallyBurnedPtRaw m /\ externallyBurnedDrRaw m' = externallyBurnedDrRaw m;
  pr_accounts : forall id, om_has (accounts m') id = om_has (accounts m) id;
  pr_term : term m' = term m;
}.

Lemma preserved_refl m : preserved m m.
Proof. by split. Qed.

Lemma om_has_set_present {V} (l : list (string * V)) id a b j :
  om_get l id = Some a -> om_has (om_set l id b) j = om_has l j.
Proof.
  intros Ha. unfold om_has. destruct (decide (id = j)) as [->|Hne]; [by rewrite om_get_set_eq, Ha|by rewrite om_get_set_ne].
Qed.

Lemma recordEvent_effect e m r m' :
  recordEvent e m = (Ok r, m') -> preserved m m' /\ actualCustodyRaw m' = actualCustodyRaw m /\ snapshot m' = snapshot m.
Proof.
  intros (Hs & _ & H)%recordEvent_Ok. destruct r; destruct H as [-> _]; [|by split; [apply preserved_refl|]].
  by split; [split|].
Qed.

Lemma finalize_effect t b m s m' :
  finalize t b m = (Ok s, m') -> preserved m m' /\ actualCustodyRaw m' = actualCustodyRaw m /\ snapshot m' = Some s.
Proof.
  intros (_ & _ & _ & _ & _ & _ & al & _ & -> & ->)%finalize_Ok. by split; [split|].
Qed.

Lemma transfer_effect a b side raw m u m' :
  transfer a b side raw m = (Ok u, m') -> preserved m m' /\ actualCustodyRaw m' = actualCustodyRaw m /\ snapshot m' = snapshot m.
Proof.
  unfold transfer. intros H. minv H.
  repeat first [ found requireAccount_Ok as [-> ?] | found checkedRaw_Ok as (-> & ? & ?) | found addU64_Ok as (-> & ?) ].
  breflect. match goal with H : a <> b |- _ => rename H into Hne end.
  match goal with H : om_get (accounts m) a = Some ?x, K : om_get (accounts m) b = Some ?y |- _ =>
    rename H into Ha; rename K into Hb; set (ax := x) in *; set (bx := y) in * end.
  match goal with H : assign_account a ?f m = _ |- _ => rewrite (assign_account_run a f m ax Ha) in H; injection H as _ <- end.
  match goal with H : assign_account b ?f ?m1 = _ |- _ =>
    rewrite (assign_account_run b f m1 bx) in H by (cbn; by rewrite om_get_set_ne); injection H as _ <- end.
  split; [split|]; cbn; try done.
  - unfold collateral_total. cbn. rewrite (om_sum_set_Some _ _ _ _ bx) by (by rewrite om_get_set_ne).
    rewrite (om_sum_set_Some _ _ _ _ ax) by done. destruct side; cbn; lia.
  - intros id. rewrite (om_has_set_present _ b bx) by (by rewrite om_get_set_ne). by apply (om_has_set_present _ a ax).
Qed.

Lemma recombine_effect id raw m u m' :
  recombine id raw m = (Ok u, m') ->
  preserved m m' /\ actualCustodyRaw m' = actualCustodyRaw m - raw /\ snapshot m' = snapshot m /\ 0 < raw.
Proof.
  unfold recombine. intros H. call_inv H.
  match goal with H : om_get (accounts m) id = Some ?x |- _ => rename H into Ha; set (ax := x) in * end.
  split; [split|]; cbn; try done; [| |split_and!; try done; auto].
  - unfold collateral_total. cbn. rewrite (om_sum_set_Some _ _ _ _ ax) by done. cbn. lia.
  - intros j. by apply (om_has_set_present _ id ax).
Qed.

Lemma redeem_effect id side raw z m pay m' :
  annual_ok m -> redeem id side raw z m = (Ok pay, m') ->
  preserved m m' /\ actualCustodyRaw m' = actualCustodyRaw m - pay /\ snapshot m' = snapshot m /\ 0 <= pay.
Proof.
  intros Hm (a & s & Ha & Hs & Hraw & Hle & Hpay & _ & _ & _ & ->)%redeem_Ok.
  destruct (annual_redemption_fits m s side id a raw Hm Ha Hs Hraw Hle) as [_ [Hp _]]. rewrite <- Hpay in Hp.
  split; [split|]; try (by destruct side).
  - unfold collateral_total, redeemed_state. destruct side; cbn; rewrite (om_sum_set_Some _ _ _ _ a) by done; cbn; lia.
  - intros j. destruct side; by apply (om_has_set_present _ id a).
Qed.

(** ** The invariant of a session *)

Record model_ok (m : Model) : Prop := {
  mo_reachable : reachable m;
  mo_open : custodyBlocked m = false;
  mo_exact : actualCustodyRaw m = obligation m;
  mo_unburned : externallyBurnedPtRaw m = 0 /\ externallyBurnedDrRaw m = 0;
  mo_bound : collateral_total m + actualCustodyRaw m <= U64_MAX;
  mo_accounts : forall a, om_has (accounts m) (account_name a) = true;
}.

Record session_ok (s : Session) : Prop := {
  so_model : model_ok (se_model s);
  so_stage : stage s = stage_finalized <-> snapshot (se_model s) <> None;
}.

(** The calls a session makes. *)
Definition product_model_call (call : Call) : bool :=
  match call with CRecordEvent _ | CTransfer _ _ _ _ | CRecombine _ _ | CFinalize _ _ | CRedeem _ _ _ _ => true | _ => false end.

Lemma model_ok_step call m u m' :
  model_ok m -> donationsRaw m = 0 -> exec call m = (Ok u, m') -> product_model_call call = true -> preserved m m' -> model_ok m'.
Proof.
  intros [Hr Hb He Hu Hbd Ha] Hd Hx Hc [P1 P2 P3 P5 P4 _]. pose proof (reachable_ok _ Hr) as Hok. split.
  - replace m' with (exec call m).2 by (by rewrite Hx). by apply reach_call.
  - by rewrite P2.
  - pose proof (exec_custody call m m' u Hok Hx) as Hs. unfold custody_slack in Hs. rewrite P3, Hd in Hs.
    specialize (Hs ltac:(by destruct call)). lia.
  - destruct P5, Hu. split; congruence.
  - lia.
  - intros a. by rewrite P4.
Qed.

(** ** The invariant of the client *)

(** What the sessions of an asset hold in custody. *)
Definition in_custody (a : string) (c : Client) : Z :=
  om_sum (fun s => if bool_decide (pa_id (se_asset s) = a) then actualCustodyRaw (se_model s) else 0) (sessions c).

(** All the stock of an asset there is. *)
Definition stock_total (a : string) (c : Client) : Z := stock_get c seller a + stock_get c buyer a + in_custody a c.

Record client_ok (initial : string -> Z) (c : Client) : Prop := {
  co_sessions : forall id s, om_get (sessions c) id = Some s -> session_ok s /\ donationsRaw (se_model s) = 0;
  co_stock : forall a, stock_total a c = initial a;
  co_nonneg : forall w a, 0 <= stock_get c w a;
  co_cash : cash_seller c + cash_buyer c = 1000 * USDC /\ 0 <= cash_seller c /\ 0 <= cash_buyer c;
}.

Lemma stock_get_with w a x c v b :
  stock_get (with_stock w a x c) v b = if bool_decide (w = v) && bool_decide (a = b) then x else stock_get c v b.
Proof.
  unfold stock_get. destruct w, v; try done; cbn [stock_of with_stock stock_seller stock_buyer];
    rewrite (bool_decide_true (_ = _)) by done; cbn [andb]; (destruct (decide (a = b)) as [->|Hne];
    [by rewrite om_get_set_eq, bool_decide_true|by rewrite om_get_set_ne, bool_decide_false]).
Qed.

Lemma stock_total_with w a x c b :
  stock_total b (with_stock w a x c) = stock_total b c + if bool_decide (a = b) then x - stock_get c w a else 0.
Proof.
  unfold stock_total. replace (in_custody b (with_stock w a x c)) with (in_custody b c) by (by destruct w).
  rewrite !stock_get_with. destruct (decide (a = b)) as [->|Hne].
  - rewrite (bool_decide_true (b = b)) by done. destruct w;
      rewrite ?(bool_decide_true (seller = seller)), ?(bool_decide_true (buyer = buyer)),
        ?(bool_decide_false (seller = buyer)), ?(bool_decide_false (buyer = seller)) by done; cbn [andb]; lia.
  - rewrite (bool_decide_false (a = b)), !andb_false_r by done. lia.
Qed.

Lemma in_custody_session id s s' c a :
  om_get (sessions c) id = Some s -> se_asset s' = se_asset s ->
  in_custody a (with_session id s' c) =
    in_custody a c + if bool_decide (pa_id (se_asset s) = a) then actualCustodyRaw (se_model s') - actualCustodyRaw (se_model s) else 0.
Proof.
  intros Hs Ha. unfold in_custody. cbn. rewrite (om_sum_set_Some _ _ _ _ s Hs), Ha. case_bool_decide; lia.
Qed.

(** A session evolves and the stock its custody released, [raw], is credited. *)
Lemma client_ok_evolve init c id s s' w raw :
  client_ok init c -> om_get (sessions c) id = Some s -> se_asset s' = se_asset s -> session_ok s' ->
  donationsRaw (se_model s') = 0 -> 0 <= raw -> actualCustodyRaw (se_model s') = actualCustodyRaw (se_model s) - raw ->
  client_ok init (with_stock w (pa_id (se_asset s)) (stock_get c w (pa_id (se_asset s)) + raw) (with_session id s' c)).
Proof.
  intros [Hse Hst Hnn Hca] Hs Has Hok Hd Hraw Hcu. set (c1 := with_session id s' c).
  assert (forall v b, stock_get c1 v b = stock_get c v b) as Hg by (by intros [] b).
  split; [| | |exact Hca].
  - intros j t. destruct w; cbn; (destruct (decide (id = j)) as [->|Hne];
      [rewrite om_get_set_eq; by intros [= <-]|rewrite om_get_set_ne by done; apply Hse]).
  - intros a. rewrite <- (Hst a), stock_total_with, Hg. unfold stock_total. rewrite !Hg.
    unfold c1. rewrite (in_custody_session id s s' c a Hs Has). case_bool_decide; lia.
  - intros v a. rewrite stock_get_with, Hg. destruct (_ && _); [|apply Hnn]. pose proof (Hnn w (pa_id (se_asset s))). lia.
Qed.

(** A session evolves and nothing leaves custody. *)
Lemma client_ok_session init c id s s' :
  client_ok init c -> om_get (sessions c) id = Some s -> se_asset s' = se_asset s -> session_ok s' ->
  donationsRaw (se_model s') = 0 -> actualCustodyRaw (se_model s') = actualCustodyRaw (se_model s) ->
  client_ok init (with_session id s' c).
Proof.
  intros [Hse Hst Hnn Hca] Hs Has Hok Hd Hcu. split; [| |exact Hnn|exact Hca].
  - intros j t. cbn. destruct (decide (id = j)) as [->|Hne]; [rewrite om_get_set_eq; by intros [= <-]|rewrite om_get_set_ne by done; apply Hse].
  - intros a. rewrite <- (Hst a). unfold stock_total. rewrite (in_custody_session id s s' c a Hs Has).
    assert (forall w, stock_get (with_session id s' c) w a = stock_get c w a) as Hg by (by intros []).
    rewrite !Hg. case_bool_decide; lia.
Qed.

(** ** The methods *)

Section methods.
Context (assets : list ProductAsset) (sources : list ProductSource) (init : string -> Z).

Lemma requireSession_Ok id c s c' : requireSession id c = (Ok s, c') -> c' = c /\ om_get (sessions c) id = Some s.
Proof. unfold requireSession. destruct (om_get _ _); by intros [= <- <-]. Qed.

Lemma on_model_Ok {A} id (op : Op A) c a c' :
  on_model id op c = (Ok a, c') ->
  exists s m', om_get (sessions c) id = Some s /\ op (se_model s) = (Ok a, m') /\ c' = with_session id (se_with_model m' s) c.
Proof.
  unfold on_model. destruct (om_get (sessions c) id) as [s|]; [|done]. destruct (op (se_model s)) as [[x|e] m'] eqn:Ho; [|done].
  intros [= -> <-]. by exists s, m'.
Qed.

Lemma on_session_run id f s c :
  om_get (sessions c) id = Some s -> on_session id f c = (Ok tt, with_session id (f s) c).
Proof. intros H. unfold on_session, modify. by rewrite H. Qed.

Lemma with_session_twice id s s' c : with_session id s' (with_session id s c) = with_session id s' c.
Proof. unfold with_session. cbn. by rewrite om_set_set. Qed.

Lemma get_with_session id s c : om_get (sessions (with_session id s c)) id = Some s.
Proof. apply om_get_set_eq. Qed.

(** A session whose stage or labels change. *)
Lemma session_relabel s s' :
  session_ok s -> se_model s' = se_model s -> (stage s' = stage_finalized <-> stage s = stage_finalized) -> session_ok s'.
Proof. intros [Hm Hs] He Hst. split; rewrite He; [done|]. by rewrite Hst. Qed.

(** A session whose model made a call that keeps the snapshot. *)
Lemma session_advance call s s' u m' :
  session_ok s -> donationsRaw (se_model s) = 0 -> exec call (se_model s) = (Ok u, m') -> product_model_call call = true ->
  preserved (se_model s) m' -> snapshot m' = snapshot (se_model s) -> se_model s' = m' -> stage s' = stage s -> session_ok s'.
Proof.
  intros [Hm Hs] Hd Hx Hc Hp Hsn <- Hst. split; [by eapply model_ok_step|]. by rewrite Hst, Hsn.
Qed.

Lemma discard_run {S E A} (m : M S E A) s a s' : m s = (Ok a, s') -> (m ;; mret tt) s = (Ok tt, s').
Proof. intros H. unfold mbind, M_bind. by rewrite H. Qed.

(** Takes a successful method apart. *)
Ltac product_inv H :=
  minv H;
  repeat match goal with
  | K : requireSession _ _ = (Ok _, _) |- _ => apply requireSession_Ok in K as [-> K]
  | K : on_model _ _ _ = (Ok _, _) |- _ =>
      let s := fresh "s" in let m' := fresh "m'" in
      apply on_model_Ok in K as (s & m' & ? & K & ->)
  | K : on_session _ _ _ = (Ok _, _) |- _ =>
      erewrite on_session_run in K by (first [apply get_with_session | eassumption]);
      injection K as _ <-
  | K : context [with_session _ _ (with_session _ _ _)] |- _ => rewrite with_session_twice in K
  | |- context [with_session _ _ (with_session _ _ _)] => rewrite with_session_twice
  | H1 : om_get (sessions ?c) ?id = Some ?x, H2 : om_get (sessions ?c) ?id = Some ?y |- _ =>
      tryif constr_eq x y then clear H2 else (assert (y = x) as -> by congruence; clear H2)
  end; breflect.

Lemma stage_method_ok id (from to : AnnualStage) (e : ProductError) c u c' :
  (from = stage_finalized <-> to = stage_finalized) -> client_ok init c ->
  (session ← requireSession id; ensure (bool_decide (stage session = from)) e ;; on_session id (se_with_stage to)) c = (Ok u, c') ->
  client_ok init c'.
Proof.
  intros Hst Hc H. product_inv H. destruct (co_sessions _ _ Hc id a) as [Hs Hd]; [done|].
  eapply client_ok_session; try done. eapply session_relabel; [exact Hs|done|]. cbn. subst. tauto.
Qed.

(** A journal record and the labels that go with it. *)
Lemma record_method_ok id record f c s r m' :
  client_ok init c -> om_get (sessions c) id = Some s -> recordEvent record (se_model s) = (Ok r, m') ->
  (forall x, se_model (f x) = se_model x /\ stage (f x) = stage x /\ se_asset (f x) = se_asset x) ->
  client_ok init (with_session id (f (se_with_model m' s)) c).
Proof.
  intros Hc Hs Hr Hf. destruct (co_sessions _ _ Hc id s Hs) as [Hok Hd].
  destruct (recordEvent_effect _ _ _ _ Hr) as (Hp & Hcu & Hsn). destruct (Hf (se_with_model m' s)) as (F1 & F2 & F3).
  eapply client_ok_session; [done|exact Hs|by rewrite F3| | |].
  - eapply (session_advance (CRecordEvent record) s); [done|done|by eapply discard_run|done|done|done|done|]. by rewrite F2.
  - rewrite F1. cbn. by rewrite (pr_donations _ _ Hp).
  - by rewrite F1.
Qed.

Lemma finalize_method_ok id c u c' : client_ok init c -> product_finalize id c = (Ok u, c') -> client_ok init c'.
Proof.
  intros Hc H. unfold product_finalize in H. product_inv H.
  match goal with K : finalize ?t ?b _ = (Ok ?sn, ?m) |- _ => rename K into Hf; destruct (finalize_effect t b _ sn m Hf) as (Hp & Hcu & Hsn) end.
  match goal with K : om_get (sessions c) id = Some ?x |- _ => destruct (co_sessions _ _ Hc id x K) as [[Hm Hst] Hd] end.
  eapply client_ok_session; try done.
  - split; cbn; [by eapply (model_ok_step (CFinalize _ _)); [done|done|eapply discard_run, Hf|done|]|]. by rewrite Hsn.
  - cbn. by rewrite (pr_donations _ _ Hp).
Qed.

Lemma client_ok_cash c n :
  client_ok init c -> 0 <= n <= cash_buyer c -> client_ok init (with_cash (cash_seller c + n) (cash_buyer c - n) c).
Proof. intros [C1 C2 C3 C4] Hn. split; [exact C1|exact C2|intros [] a; [apply (C3 seller)|apply (C3 buyer)]|cbn; lia]. Qed.

Lemma sell_method_ok id c r c' : client_ok init c -> sellFortyPercentDr id c = (Ok r, c') -> client_ok init c'.
Proof.
  intros Hc H. unfold sellFortyPercentDr in H. product_inv H.
  match goal with K : transfer ?a ?b ?sd ?n _ = (Ok ?x, ?m) |- _ =>
    rename K into Ht; destruct (transfer_effect a b sd n _ x m Ht) as (Hp & Hcu & Hsn) end.
  match goal with K : om_get (sessions c) id = Some ?x |- _ => rename K into Hs; rename x into s; destruct (co_sessions _ _ Hc id s Hs) as [Hok Hd] end.
  set (cash := (if bool_decide _ then 5 else 30) * USDC) in *.
  assert (0 <= cash) as Hcash by (unfold cash, USDC; case_bool_decide; lia).
  pose proof (client_ok_cash (with_session id (se_with_sale (se_with_model m' s)) c) cash) as Hgoal. cbn [cash_buyer] in Hgoal.
  match goal with |- client_ok init ?x => assert (x = with_cash (cash_seller c + cash) (cash_buyer c - cash)
    (with_session id (se_with_sale (se_with_model m' s)) c)) as -> by (unfold with_session, with_cash; cbn; by rewrite om_set_set) end.
  apply Hgoal; [|cbn; lia]. eapply client_ok_session; [done|exact Hs|done| | |done].
  - eapply (session_advance (CTransfer _ _ _ _) s); [done|done|exact Ht|done..].
  - cbn. by rewrite (pr_donations _ _ Hp).
Qed.

Lemma recombine_method_ok id w raw c r c' :
  client_ok init c -> product_recombine id w raw c = (Ok r, c') -> client_ok init c'.
Proof.
  intros Hc H. unfold product_recombine, credit_stock in H. product_inv H.
  match goal with K : recombine ?a ?n _ = (Ok ?x, ?m) |- _ =>
    rename K into Ht; destruct (recombine_effect a n _ x m Ht) as (Hp & Hcu & Hsn & Hraw) end.
  match goal with K : om_get (sessions c) id = Some ?x |- _ => rename K into Hs; rename x into s; destruct (co_sessions _ _ Hc id s Hs) as [Hok Hd] end.
  replace (stock_get (with_session id (se_with_model m' s) c) w (pa_id (se_asset s)))
    with (stock_get c w (pa_id (se_asset s))) by (by destruct w).
  eapply client_ok_evolve; [done|exact Hs|done| | |lia|exact Hcu].
  - eapply (session_advance (CRecombine _ _) s); [done|done|exact Ht|done..].
  - cbn. by rewrite (pr_donations _ _ Hp).
Qed.

Lemma redeem_method_ok id w side raw z c r c' :
  client_ok init c -> product_redeem id w side raw z c = (Ok r, c') -> client_ok init c'.
Proof.
  intros Hc H. unfold product_redeem, credit_stock in H. product_inv H.
  match goal with K : om_get (sessions c) id = Some ?x |- _ => rename K into Hs; rename x into s; destruct (co_sessions _ _ Hc id s Hs) as [Hok Hd] end.
  pose proof (reachable_ok _ (mo_reachable _ (so_model _ Hok))) as Hm.
  match goal with K : redeem ?a ?sd ?n ?z _ = (Ok ?x, ?m) |- _ =>
    rename K into Ht; destruct (redeem_effect a sd n z _ x m Hm Ht) as (Hp & Hcu & Hsn & Hraw) end.
  match goal with |- context [stock_get (with_session id ?x c) w ?a] =>
    replace (stock_get (with_session id x c) w a) with (stock_get c w a) by (by destruct w) end.
  eapply client_ok_evolve; [done|exact Hs|done| | |lia|exact Hcu].
  - eapply (session_advance (CRedeem _ _ _ _) s); [done|done|by eapply discard_run|done..].
  - cbn. by rewrite (pr_donations _ _ Hp).
Qed.

Lemma construct_effect t m :
  construct t product_accounts = Ok m ->
  reachable m /\ custodyBlocked m = false /\ actualCustodyRaw m = 0 /\ accountableRaw m = 0 /\ snapshot m = None /\
  donationsRaw m = 0 /\ (externallyBurnedPtRaw m = 0 /\ externallyBurnedDrRaw m = 0) /\ accounts m = [("seller", Account 0 0 0); ("buyer", Account 0 0 0)].
Proof.
  intros H. split; [by eapply reach_new|]. unfold construct in H.
  change (foldM new_account [] product_accounts) with (@Ok AnnualReferenceErrorCode _ [("seller", Account 0 0 0); ("buyer", Account 0 0 0)]) in H.
  minv H. done.
Qed.

(** The session a deposit starts. *)
Lemma deposit_effect m raw now u m' :
  reachable m -> custodyBlocked m = false -> actualCustodyRaw m = 0 -> accountableRaw m = 0 -> snapshot m = None ->
  donationsRaw m = 0 -> (externallyBurnedPtRaw m = 0 /\ externallyBurnedDrRaw m = 0) -> accounts m = [("seller", Account 0 0 0); ("buyer", Account 0 0 0)] ->
  Annual.deposit "seller" raw now m = (Ok u, m') ->
  model_ok m' /\ snapshot m' = None /\ donationsRaw m' = 0 /\ actualCustodyRaw m' = raw /\ 0 < raw.
Proof.
  intros Hr Hb Hc Hq Hs Hd Hub Ha Hdep.
  assert (reachable m') as Hr' by (replace m' with (exec (CDeposit "seller" raw now) m).2 by (cbn [exec]; by rewrite Hdep); by apply reach_call).
  unfold Annual.deposit in Hdep. call_inv Hdep. unfold u64 in *. rewrite Ha in *.
  split; [|split_and!; cbn; try done; auto; lia]. split; cbn; [done|done| |done| |].
  - unfold obligation. cbn. rewrite Hs. lia.
  - unfold collateral_total. cbn.
    match goal with K : om_get _ "seller" = Some ?x |- _ => assert (x = Account 0 0 0) as -> by (vm_compute in K; congruence) end.
    rewrite bool_decide_true by done. cbn. lia.
  - intros w. by destruct w.
Qed.

Lemma deposit_method_ok asset year display c id c' :
  client_ok init c -> deposit sources asset year display c = (Ok id, c') -> client_ok init c'.
Proof.
  intros Hc H. unfold deposit in H. minv H.
  match goal with K : previewDeposit _ _ _ _ = (Ok ?x, _) |- _ => rename K into Hpv end.
  unfold previewDeposit in Hpv. minv Hpv. breflect.
  repeat match goal with K : model_res ?r = Ok ?x |- _ => unfold model_res in K; destruct r eqn:?; [|done]; injection K as -> end.
  match goal with K : construct _ _ = Ok ?x |- _ => rename K into Hcon; rename x into m end.
  match goal with K : negb (om_has _ ?i) = true |- _ => idtac | K : om_has _ ?i = false |- _ => rename K into Hnew end.
  destruct (construct_effect _ _ Hcon) as (Hr & Hb & Hcu & Hq & Hs & Hd & Hub & Ha).
  match goal with K : (let '(_, _) := ?d in _) c = _ |- _ =>
    rename K into Hrest; destruct d as [[v|e] m'] eqn:Hdep; [|done] end.
  match type of Hdep with Annual.deposit _ ?n _ _ = _ => rename n into raw end. minv Hrest.
  destruct (deposit_effect _ _ _ _ _ Hr Hb Hcu Hq Hs Hd Hub Ha Hdep) as (Hm & Hsn & Hdn & Hact & Hraw).
  destruct Hc as [C1 C2 C3 C4]. split; [| | |exact C4].
  - intros j t. cbn. match goal with |- om_get (om_set _ ?i _) j = _ -> _ =>
      destruct (decide (i = j)) as [->|Hne]; [rewrite om_get_set_eq|rewrite om_get_set_ne by done; apply C1] end.
    intros [= <-]. split; [split; [exact Hm|cbn; rewrite Hsn; done]|exact Hdn].
  - intros b. rewrite <- (C2 b).
    match goal with |- stock_total b (with_session ?i ?s ?x) = _ =>
      transitivity (stock_total b x + if bool_decide (pa_id asset = b) then raw else 0) end.
    + unfold stock_total, in_custody, stock_get. cbn. unfold om_has in Hnew.
      rewrite om_sum_set_None by (by destruct (om_get _ _)). cbn. rewrite Hact. destruct (bool_decide _); lia.
    + rewrite stock_total_with. destruct (bool_decide _); lia.
  - intros w b. assert (forall i s x, stock_get (with_session i s x) w b = stock_get x w b) as -> by (by destruct w).
    rewrite stock_get_with. destruct (_ && _); [lia|apply C3].
Qed.

Lemma replay_method_ok id c u c' : client_ok init c -> replaySource id c = (Ok u, c') -> client_ok init c'.
Proof.
  intros Hc H. unfold replaySource in H. product_inv H.
  match goal with K : recordEvent ?r _ = (Ok ?x, ?m) |- client_ok init (with_session id (se_with_replay ?d ?f _) c) =>
    apply (record_method_ok id r (se_with_replay d f) c _ x m); try done end.
Qed.

Lemma synthetic_method_ok id c u c' : client_ok init c -> addSyntheticDividend id c = (Ok u, c') -> client_ok init c'.
Proof.
  intros Hc H. unfold addSyntheticDividend in H. product_inv H.
  match goal with K : recordEvent ?r _ = (Ok ?x, ?m) |- client_ok init (with_session id (se_with_synthetic ?d ?f _) c) =>
    apply (record_method_ok id r (se_with_synthetic d f) c _ x m); try done end.
Qed.

Lemma product_exec_ok c0 call c u c' :
  reset assets sources = Ok c0 -> client_ok init c0 -> client_ok init c ->
  product_exec assets sources call c = (Ok u, c') -> client_ok init c'.
Proof.
  intros H0 Hc0 Hc H. destruct call; cbn [product_exec] in H.
  - minv H. by eapply deposit_method_ok.
  - eapply (stage_method_ok id deposits_open collecting); [done|exact Hc|exact H].
  - by eapply replay_method_ok.
  - by eapply synthetic_method_ok.
  - eapply (stage_method_ok id collecting year_ended); [done|exact Hc|exact H].
  - by eapply finalize_method_ok.
  - minv H. by eapply sell_method_ok.
  - minv H. by eapply recombine_method_ok.
  - minv H. by eapply redeem_method_ok.
  - rewrite H0 in H. by injection H as _ <-.
Qed.

(** *** A method that throws changes nothing *)

Abbreviation whole := (fun c : Client => c).

(** A call that leaves a sound client alone when it throws. *)
Definition safe {A} (m : POp A) : Prop := forall c e c', client_ok init c -> m c = (Err e, c') -> c' = c.

Lemma safe_bind {A B} (m : POp A) (f : A -> POp B) : keeps whole m -> (forall a, safe (f a)) -> safe (m ≫= f).
Proof.
  intros Hm Hf c e c' Hc [H|(a & c1 & H1 & H2)]%M_bind_Err_inv.
  - specialize (Hm c). rewrite H in Hm. done.
  - specialize (Hm c). rewrite H1 in Hm. cbn in Hm. subst c1. by eapply Hf.
Qed.

Lemma safe_last {A B} (m : POp A) (f : A -> POp B) : safe m -> (forall a, succeeds (f a)) -> safe (m ≫= f).
Proof.
  intros Hm Hf c e c' Hc [H|(a & c1 & H1 & H2)]%M_bind_Err_inv; [by eapply Hm|].
  specialize (Hf a c1). by rewrite H2 in Hf.
Qed.

Lemma atomic_then_ret {A} (m : POp A) : atomic whole m -> atomic whole (m ;; mret tt).
Proof. intros H c e c' [Hm|(a & c1 & _ & Hm)]%M_bind_Err_inv; [by eapply H|done]. Qed.

Lemma safe_atomic {A} (m : POp A) : atomic whole m -> safe m.
Proof. intros H c e c' _. apply H. Qed.

Lemma om_set_present {V} (l : list (string * V)) k v : om_get l k = Some v -> om_set l k v = l.
Proof.
  induction l as [|[k1 v1] l IH]; simpl; [done|]. case_bool_decide; [by intros [= ->]|]. intros Hg. by rewrite IH.
Qed.

Lemma safe_on_model {A} id (op : Op A) call :
  (forall m e m', op m = (Err e, m') -> exec call m = (Err e, m')) -> safe (on_model id op).
Proof.
  intros Hop c e c' Hc. unfold on_model. destruct (om_get (sessions c) id) as [s|] eqn:Hs; [|by intros [= _ <-]].
  destruct (op (se_model s)) as [[x|er] m'] eqn:Ho; [done|]. intros [= _ <-]. apply Hop in Ho.
  destruct (co_sessions _ _ Hc id s Hs) as [[Hm _] _].
  apply (annual_exec_atomic call _ _ _ (reachable_ok _ (mo_reachable _ Hm))) in Ho as ->.
  unfold with_session. replace (se_with_model (se_model s) s) with s by (by destruct s). rewrite om_set_present by done. by destruct c.
Qed.

Lemma discard_Err {S E A} (m : M S E A) s e s' : m s = (Err e, s') -> (m ;; mret tt) s = (Err e, s').
Proof. intros H. unfold mbind, M_bind. by rewrite H. Qed.

Lemma keeps_requireSession id : keeps whole (requireSession id).
Proof. by intros c. Qed.
Lemma succeeds_on_session id f : succeeds (on_session id f).
Proof. done. Qed.
Lemma succeeds_credit w a n : succeeds (credit_stock w a n).
Proof. done. Qed.
#[local] Hint Resolve keeps_requireSession succeeds_on_session succeeds_credit : atomic.

Ltac solve_succeeds := repeat first [ solve [eauto with atomic nocore] | apply succeeds_bind; [|intros ?] ].
Ltac solve_safe_model call :=
  apply safe_last; [apply (safe_on_model _ _ call); intros ???; first [done | apply discard_Err]|intros ?; solve_succeeds].
Ltac solve_safe :=
  repeat first
    [ apply safe_bind; [solve [repeat first [ solve [eauto with atomic nocore] | apply keeps_bind; [|intros ?] ]]|intros ?; cbv zeta] ].

Lemma product_call_safe call : safe (product_exec assets sources call).
Proof.
  destruct call; cbn [product_exec].
  - apply safe_atomic. apply atomic_then_ret. unfold deposit, previewDeposit. solve_atomic.
  - apply safe_atomic. unfold startYear. solve_atomic.
  - unfold replaySource. solve_safe. solve_safe_model (CRecordEvent a2).
  - unfold addSyntheticDividend. solve_safe. solve_safe_model (CRecordEvent a4).
  - apply safe_atomic. unfold endYear. solve_atomic.
  - unfold product_finalize. solve_safe. solve_safe_model (CFinalize (maturitySeconds (se_model a)) true).
  - apply safe_last; [|done]. unfold sellFortyPercentDr. solve_safe.
    solve_safe_model (CTransfer (account_name seller) (account_name buyer) dr (seller_dr (se_model a) * 40 ÷ 100)).
  - apply safe_last; [|done]. unfold product_recombine. solve_safe. solve_safe_model (CRecombine (account_name account) raw).
  - apply safe_last; [|done]. unfold product_redeem. solve_safe. solve_safe_model (CRedeem (account_name account) side raw allowZero).
  - intros c e c' _. destruct (reset _ _); [done|]. by intros [= _ <-].
Qed.
End methods.

(** ** Reachable clients *)

Lemma reset_ok assets sources c0 : reset assets sources = Ok c0 -> client_ok (fun a => stock_total a c0) c0.
Proof.
  unfold reset. intros (st & Hf & [= <-])%bind_Ok_inv. split; [done|done| |cbn; unfold USDC; lia].
  enough (forall a, 0 <= default 0 (om_get st.1 a) /\ 0 <= default 0 (om_get st.2 a)) as Hn by (intros [] a; apply Hn).
  refine (foldM_inv (fund_asset sources) (fun _ s => forall a, 0 <= default 0 (om_get s.1 a) /\ 0 <= default 0 (om_get s.2 a)) _ _ _ _ _ Hf); [done|].
  intros _ s asset s' IH (raw & Hr & [= <-])%bind_Ok_inv a. cbn.
  assert (0 <= raw) as Hraw.
  { destruct (sourceFor _ _); [|injection Hr as <-; done]. unfold sdk in Hr. destruct (DemoMoney.toRawAmount _ _ _) eqn:Hm; [|done].
    injection Hr as ->. apply DemoMoney.toRawAmount_floor in Hm as (? & ? & _ & _ & _ & [? _] & _). done. }
  destruct (decide (pa_id asset = a)) as [->|Hne]; [by rewrite !om_get_set_eq|by rewrite !om_get_set_ne].
Qed.

Lemma product_reachable_ok assets sources c0 c :
  reset assets sources = Ok c0 -> product_reachable assets sources c -> client_ok (fun a => stock_total a c0) c.
Proof.
  intros H0 Hr. induction Hr as [c Hc|c call Hc IH].
  - rewrite H0 in Hc. injection Hc as <-. by eapply reset_ok.
  - destruct (product_exec assets sources call c) as [[u|e] c'] eqn:Hx; cbn.
    + eapply product_exec_ok; [exact H0|by eapply reset_ok|exact IH|exact Hx].
    + by rewrite (product_call_safe assets sources _ call c e c' IH Hx).
Qed.

(** C38: stock and cash are conserved: in every state the product client can
    reach, the stock of each asset in the two wallets and in the custody of
    its series is what the client started with, the cash adds up to the
    buyer's first 1000 USDC, no balance is negative, and every series holds in
    custody exactly what it owes. *)
Theorem product_conservation assets sources c0 c :
  reset assets sources = Ok c0 -> product_reachable assets sources c ->
  (forall a, stock_total a c = stock_total a c0) /\
  cash_seller c + cash_buyer c = 1000 * USDC /\ 0 <= cash_seller c /\ 0 <= cash_buyer c /\
  (forall w a, 0 <= stock_get c w a) /\
  (forall id s, om_get (sessions c) id = Some s -> actualCustodyRaw (se_model s) = obligation (se_model s)).
Proof.
  intros H0 Hr. destruct (product_reachable_ok _ _ _ _ H0 Hr) as [C1 C2 C3 (C4 & C5 & C6)]. split_and!; try done.
  intros id s Hs. destruct (C1 _ _ Hs) as [[[] _] _]. done.
Qed.

(** A method of the product client that throws leaves the whole client,
    with the models of its sessions, as it was. *)
Theorem product_failed_call_atomic assets sources c0 c call e c' :
  reset assets sources = Ok c0 -> product_reachable assets sources c ->
  product_exec assets sources call c = (Err e, c') -> c' = c.
Proof. intros H0 Hr Hx. eapply product_call_safe; [by eapply product_reachable_ok|exact Hx]. Qed.

(** A finalized series without claims has paid everything. *)
Lemma settled_custody m sn :
  model_ok m -> snapshot m = Some sn -> ptSupplyRaw m = 0 -> drSupplyRaw m = 0 -> actualCustodyRaw m = 0.
Proof.
  intros Hm Hs Hp Hd. pose proof (reachable_ok _ (mo_reachable _ Hm)) as Hok.
  destruct (mo_unburned _ Hm) as [U1 U2]. rewrite (mo_exact _ Hm). unfold obligation. rewrite Hs.
  destruct (ao_books _ Hok) as [_ B1 B2 [B3 _]]. pose proof (ao_snapshot _ Hok) as Hsn. unfold snapshot_ok in Hsn. rewrite Hs in Hsn.
  destruct Hsn as (_ & Hden & Hpp & Hdd). unfold pt_pool_of, dr_pool_of, floor_share in Hpp, Hdd. cbn in Hpp, Hdd.
  destruct (Z.eq_dec (accountableRaw m) 0) as [Hz|Hz].
  - destruct (finalized_pools m sn Hok Hs) as (Hsum & R1 & R2 & _). cbn in Hsum.
    rewrite Hden, Hz, Zquot.Zquot_0_r in Hpp, Hdd. lia.
  - rewrite Hden in Hpp, Hdd. replace (redeemedPtClaimsRaw m) with (accountableRaw m) in Hpp by lia.
    replace (redeemedDrClaimsRaw m) with (accountableRaw m) in Hdd by lia.
    rewrite Z.mul_comm, Z.quot_mul in Hpp, Hdd by lia. lia.
Qed.

Lemma close_run c id s w side raw a sn :
  om_get (sessions c) id = Some s -> model_ok (se_model s) -> snapshot (se_model s) = Some sn ->
  om_get (accounts (se_model s)) (account_name w) = Some a -> 0 < raw <= side_raw side a ->
  exists pay c', closeZero id w side raw c = (Ok pay, c') /\ 0 <= pay /\
    forall v b, stock_get c' v b = stock_get c v b +
      if bool_decide (w = v) && bool_decide (pa_id (se_asset s) = b) then pay else 0.
Proof.
  intros Hs Hm Hsn Ha Hraw. pose proof (reachable_ok _ (mo_reachable _ Hm)) as Hok.
  destruct (annual_redemption_fits _ sn side _ a raw Hok Ha Hsn ltac:(lia) ltac:(lia)) as [Hpos [Hp0 Hp1]].
  set (pay := (pool_redeem (side_pool side (se_model s) sn) raw).1) in *.
  assert (raw <= U64_MAX /\ u64 (collateralRaw a + pay)) as [Hmax Hu].
  { pose proof Ha as Ha'. destruct (accounts_ok_get _ _ _ (ao_accounts _ Hok) _ a Ha) as ([A1 [A2 A3]] & A4 & A5).
    destruct (finalized_pools _ sn Hok Hsn) as (_ & R1 & R2 & _). pose proof (mo_bound _ Hm) as Hbd.
    pose proof (mo_exact _ Hm) as He. unfold obligation in He. rewrite Hsn in He. unfold collateral_total in Hbd.
    destruct (ao_accounts _ Hok) as (Hnd & Hall & _).
    assert (collateralRaw a <= om_sum collateralRaw (accounts (se_model s))).
    { apply (om_sum_ge _ _ (account_name w)); [|done]. intros k v Hin. apply (om_In_get _ _ _ Hnd) in Hin. by apply Hall in Hin as [_ [? _]]. }
    destruct (ao_books _ Hok) as [(? & ? & ? & ? & _) B1 B2 [B3 B4]].
    split; [destruct side; cbn in Hraw; lia|]. unfold u64. clearbody pay.
    destruct side; cbn in Hp1; lia. }
  pose proof (annual_redeem_run (se_model s) (account_name w) side raw true a sn Hok Ha Hsn ltac:(lia) ltac:(lia) (mo_open _ Hm)
    ltac:(rewrite (mo_exact _ Hm); lia) ltac:(done) Hu) as Hrun. fold pay in Hrun.
  set (m' := redeemed_state side (account_name w) a raw pay (se_model s)) in *.
  exists pay, (with_stock w (pa_id (se_asset s)) (stock_get c w (pa_id (se_asset s)) + pay) (with_session id (se_with_model m' s) c)).
  split_and!; [|done|].
  - unfold closeZero, product_redeem. erewrite M_bind_run by (unfold requireSession; by rewrite Hs).
    erewrite M_bind_run by (unfold on_model; rewrite Hs, Hrun; reflexivity). unfold credit_stock, mbind, M_bind, modify. cbn.
    by destruct w.
  - intros v b. rewrite stock_get_with. destruct w, v; cbn; repeat (case_bool_decide; subst; try done); cbn; unfold stock_get; cbn; lia.
Qed.

(** Every holder of a finalized series can close: whatever happened
    before, redeeming claims that are held succeeds, credits exactly the
    holder's stock, and when no claims are left the series has paid out all of
    its custody. *)
Theorem product_holder_can_close assets sources c0 c id s w side raw a :
  reset assets sources = Ok c0 -> product_reachable assets sources c ->
  om_get (sessions c) id = Some s -> stage s = stage_finalized ->
  (ptSupplyRaw (se_model s) = 0 -> drSupplyRaw (se_model s) = 0 -> actualCustodyRaw (se_model s) = 0) /\
  (om_get (accounts (se_model s)) (account_name w) = Some a -> 0 < raw <= side_raw side a ->
   exists pay c', closeZero id w side raw c = (Ok pay, c') /\ 0 <= pay /\
     forall v b, stock_get c' v b = stock_get c v b +
       if bool_decide (w = v) && bool_decide (pa_id (se_asset s) = b) then pay else 0).
Proof.
  intros H0 Hr Hs Hst. destruct (co_sessions _ _ (product_reachable_ok _ _ _ _ H0 Hr) id s Hs) as [[Hm Hsn] _].
  apply Hsn in Hst. destruct (snapshot (se_model s)) as [sn|] eqn:Hsn'; [clear Hst|done].
  pose proof (reachable_ok _ (mo_reachable _ Hm)) as Hok. split.
  - intros Hp Hd. by apply (settled_custody _ sn).
  - intros Ha Hraw. by apply (close_run c id s w side raw a sn).
Qed.

(** ** Witness: a full year of one asset *)

Definition ex_asset : ProductAsset := Asset "xstocks:M" "xstocks" "M" "KOx" 8 (Some "e1").
Definition ex_sources : list ProductSource := [Source "e1" "issuer_api" "1.02" "1.0302"].
Definition ex_year_calls (id : string) : list ProductCall :=
  [PDeposit ex_asset 2027 "100"; PStartYear id; PReplaySource id; PAddSyntheticDividend id; PSellFortyPercentDr id;
   PRecombine id seller 100000000; PEndYear id; PFinalize id; PRedeem id buyer dr 1000000000 false; PStartYear id].
Definition ex_id : string := match annualSeriesId (termFor ex_asset 2027) with Ok id => id | Err _ => "" end.
Definition ex_start : Client := match reset [ex_asset] ex_sources with Ok c => c | Err _ => MkClient [] [] [] 0 0 end.
Definition product_run (calls : list ProductCall) (c : Client) : Client :=
  foldl (fun c call => (product_exec [ex_asset] ex_sources call c).2) c calls.
Definition ex_end : Client := product_run (ex_year_calls ex_id) ex_start.

Lemma product_reachable_run calls c :
  product_reachable [ex_asset] ex_sources c -> product_reachable [ex_asset] ex_sources (product_run calls c).
Proof. revert c. induction calls as [|x l IH]; intros c Hc; [done|]. apply IH. by apply product_call. Qed.

Lemma ex_start_eq : reset [ex_asset] ex_sources = Ok ex_start.
Proof. vm_compute. reflexivity. Qed.
Lemma ex_end_reachable : product_reachable [ex_asset] ex_sources ex_end.
Proof. apply product_reachable_run, product_new, ex_start_eq. Qed.

Definition ex_session_end : Session :=
  match om_get (sessions ex_end) ex_id with Some s => s
  | None => MkSession ex_asset (Source "" "" "" "") (MkModel (Term "" "" "" "" 0) 0 0 0 0 0 0 0 0 0 0 0 false [] [] None 0 0)
              deposits_open false None false None false ""
  end.

Example product_conservation_witness :
  stock_total (pa_id ex_asset) ex_end = 19607843137 /\ actualCustodyRaw (se_model ex_session_end) = obligation (se_model ex_session_end).
Proof.
  destruct (product_conservation _ _ _ _ ex_start_eq ex_end_reachable) as (H1 & _ & _ & _ & _ & H2). split.
  - rewrite H1. vm_compute. reflexivity.
  - apply (H2 ex_id). vm_compute. reflexivity.
Defined.

Example product_failed_call_witness :
  exists c', product_exec [ex_asset] ex_sources (PFinalize ex_id) ex_end = (Err YEAR_NOT_ENDED, c') /\ c' = ex_end.
Proof.
  assert (exists c', product_exec [ex_asset] ex_sources (PFinalize ex_id) ex_end = (Err YEAR_NOT_ENDED, c')) as [c' Hx]
    by (eexists; vm_compute; reflexivity).
  exists c'. split; [exact Hx|]. exact (product_failed_call_atomic _ _ _ _ _ _ _ ex_start_eq ex_end_reachable Hx).
Defined.

Example product_holder_witness :
  exists pay c', closeZero ex_id seller pt 1000 ex_end = (Ok pay, c') /\ 0 <= pay.
Proof.
  destruct (product_holder_can_close [ex_asset] ex_sources ex_start ex_end ex_id ex_session_end seller pt 1000
    (match om_get (accounts (se_model ex_session_end)) (account_name seller) with Some a => a | None => Account 0 0 0 end)
    ex_start_eq ex_end_reachable) as [_ Hc].
  - vm_compute. reflexivity.
  - vm_compute. reflexivity.
  - destruct Hc as (pay & c' & H1 & H2 & _); [vm_compute; reflexivity|vm_compute; split; [reflexivity|discriminate]|].
    exists pay, c'. split; [exact H1|exact H2].
Defined.
