(* ===== verification/AmmAccounting.v ===== *)
(** * AMM integration: accounting of the market steps

    [packages/amm-integration/src]: the balances of a run ([types.ts]), the
    checks each confirmed step must pass ([accounting.ts]) and the quoting of
    a swap ([quote.ts]).  Raydium's curve calculator is a parameter. *)
From S2P Require Import Prelude.
Open Scope Z_scope.

(** ** [types.ts] *)

Record CollateralBalances := Collateral { col_provider : Z; col_vault : Z; col_supply : Z }.
Record PtBalances := Pt { pt_provider : Z; pt_otherKnown : Z; pt_supply : Z }.
(** A token the pool holds: its vault and, within it, the fees owed. *)
Record PoolToken := PoolTok { poolVault : Z; poolProtocolFees : Z; poolFundFees : Z; poolCreatorFees : Z }.
Record DrBalances := Dr { dr_provider : Z; dr_buyer : Z; dr_pool : PoolToken; dr_otherKnown : Z; dr_supply : Z }.
Record QuoteBalances := Quote {
  qt_provider : Z; qt_buyer : Z; qt_pool : PoolToken; qt_otherKnown : Z; qt_supply : Z; controlledTotal : option Z;
}.
Record LpBalances := Lp { lp_provider : Z; lp_mintSupply : Z; internalPoolLpAmount : Z }.
Record AssetBalances := Balances {
  collateral : CollateralBalances; pt : PtBalances; dr : DrBalances; testQuote : QuoteBalances; lp : LpBalances;
}.

(** [AmmIntegrationError] by its code. *)
Inductive AmmCode :=
  | NEGATIVE_ACCOUNTING_VALUE | COLLATERAL_CONSERVATION_FAILED | PT_CONSERVATION_FAILED | DR_CONSERVATION_FAILED
  | QUOTE_CONSERVATION_FAILED | PREFINAL_BACKING_FAILED | SWAP_DELTA_FAILED | RECOMBINE_AMOUNT_INVALID
  | RECOMBINE_DELTA_FAILED | RECOMBINE_UNRELATED_BALANCE_CHANGED | PROVIDER_LP_REMAINS
  | LOCKED_LIQUIDITY_BOUNDARY_MISSING | WITHDRAW_ACCOUNTING_INVALID | WITHDRAW_RESIDUAL_MISMATCH
  | WITHDRAW_DELTA_FAILED | WITHDRAW_UNRELATED_BALANCE_CHANGED | AMOUNT_INVALID | SLIPPAGE_INVALID
  | MINIMUM_OUTPUT_ZERO | CREATOR_FEE_POOL_REFUSED | SWAP_AMOUNT_INVALID | RAYDIUM_FEE_INVALID | SWAP_QUOTE_INVALID
  | ELF_INVALID | BUFFER_OUT_OF_RANGE (** Node's [RangeError] of a read past the end *).
Abbreviation ares := (result AmmCode).
Abbreviation invariant := (require (E:=AmmCode)).

(** ** [accounting.ts] *)

Definition accounting_values (v : AssetBalances) : list Z :=
  [col_provider (collateral v); col_vault (collateral v); col_supply (collateral v);
   pt_provider (pt v); pt_otherKnown (pt v); pt_supply (pt v);
   dr_provider (dr v); dr_buyer (dr v); poolVault (dr_pool (dr v)); poolProtocolFees (dr_pool (dr v));
   poolFundFees (dr_pool (dr v)); poolCreatorFees (dr_pool (dr v)); dr_otherKnown (dr v); dr_supply (dr v);
   qt_provider (testQuote v); qt_buyer (testQuote v); poolVault (qt_pool (testQuote v));
   poolProtocolFees (qt_pool (testQuote v)); poolFundFees (qt_pool (testQuote v)); poolCreatorFees (qt_pool (testQuote v));
   qt_otherKnown (testQuote v); qt_supply (testQuote v);
   lp_provider (lp v); lp_mintSupply (lp v); internalPoolLpAmount (lp v)].

Definition assertControlledConservation (v : AssetBalances) : ares unit :=
  foldM (fun _ amount => invariant (0 <=? amount) NEGATIVE_ACCOUNTING_VALUE) tt (accounting_values v) ;;
  invariant (match controlledTotal (testQuote v) with Some t => 0 <=? t | None => true end) NEGATIVE_ACCOUNTING_VALUE ;;
  invariant (col_provider (collateral v) + col_vault (collateral v) =? col_supply (collateral v))
    COLLATERAL_CONSERVATION_FAILED ;;
  invariant (pt_provider (pt v) + pt_otherKnown (pt v) =? pt_supply (pt v)) PT_CONSERVATION_FAILED ;;
  invariant (dr_provider (dr v) + dr_buyer (dr v) + poolVault (dr_pool (dr v)) + dr_otherKnown (dr v) =? dr_supply (dr v))
    DR_CONSERVATION_FAILED ;;
  let controlledQuote := qt_provider (testQuote v) + qt_buyer (testQuote v) + poolVault (qt_pool (testQuote v))
    + qt_otherKnown (testQuote v) in
  invariant (controlledQuote =? default (qt_supply (testQuote v)) (controlledTotal (testQuote v))) QUOTE_CONSERVATION_FAILED.

Definition sameQuoteScope (before after : AssetBalances) : bool :=
  match controlledTotal (testQuote before), controlledTotal (testQuote after) with
  | None, None => qt_supply (testQuote before) =? qt_supply (testQuote after)
  | Some b, Some a => b =? a
  | _, _ => false
  end.

Definition assertPrefinalBacking (v : AssetBalances) : ares unit :=
  assertControlledConservation v ;;
  invariant ((col_vault (collateral v) =? pt_supply (pt v)) && (pt_supply (pt v) =? dr_supply (dr v))) PREFINAL_BACKING_FAILED.

Record ExactSwapExpectation := Expect {
  ex_inputQuote : Z; ex_outputDr : Z; ex_minimumDr : Z; ex_protocolFee : Z; ex_fundFee : Z;
}.

Definition assertSwapDelta (before after : AssetBalances) (expected : ExactSwapExpectation) : ares Z :=
  let received := dr_buyer (dr after) - dr_buyer (dr before) in
  invariant ((received =? ex_outputDr expected) && (ex_minimumDr expected <=? received)
    && (qt_buyer (testQuote before) - qt_buyer (testQuote after) =? ex_inputQuote expected)) SWAP_DELTA_FAILED ;;
  invariant ((poolVault (dr_pool (dr before)) - poolVault (dr_pool (dr after)) =? received)
    && (poolVault (qt_pool (testQuote after)) - poolVault (qt_pool (testQuote before)) =? ex_inputQuote expected)
    && (poolProtocolFees (qt_pool (testQuote after)) - poolProtocolFees (qt_pool (testQuote before)) =? ex_protocolFee expected)
    && (poolFundFees (qt_pool (testQuote after)) - poolFundFees (qt_pool (testQuote before)) =? ex_fundFee expected)
    && (poolCreatorFees (qt_pool (testQuote after)) =? poolCreatorFees (qt_pool (testQuote before)))
    && (poolProtocolFees (dr_pool (dr after)) =? poolProtocolFees (dr_pool (dr before)))
    && (poolFundFees (dr_pool (dr after)) =? poolFundFees (dr_pool (dr before)))
    && (poolCreatorFees (dr_pool (dr after)) =? poolCreatorFees (dr_pool (dr before)))
    && (dr_provider (dr after) =? dr_provider (dr before)) && (dr_otherKnown (dr after) =? dr_otherKnown (dr before))
    && (dr_supply (dr after) =? dr_supply (dr before))
    && (qt_provider (testQuote after) =? qt_provider (testQuote before))
    && (qt_otherKnown (testQuote after) =? qt_otherKnown (testQuote before))
    && sameQuoteScope before after
    && (pt_provider (pt after) =? pt_provider (pt before)) && (pt_otherKnown (pt after) =? pt_otherKnown (pt before))
    && (pt_supply (pt after) =? pt_supply (pt before))
    && (col_provider (collateral after) =? col_provider (collateral before))
    && (col_vault (collateral after) =? col_vault (collateral before))
    && (col_supply (collateral after) =? col_supply (collateral before))
    && (lp_provider (lp after) =? lp_provider (lp before)) && (lp_mintSupply (lp after) =? lp_mintSupply (lp before))
    && (internalPoolLpAmount (lp after) =? internalPoolLpAmount (lp before))) SWAP_DELTA_FAILED ;;
  assertControlledConservation before ;;
  assertControlledConservation after ;;
  Ok received.

Definition assertRecombineDelta (before after : AssetBalances) (amount : Z) : ares unit :=
  invariant (0 <? amount) RECOMBINE_AMOUNT_INVALID ;;
  invariant ((col_provider (collateral after) - col_provider (collateral before) =? amount)
    && (col_vault (collateral before) - col_vault (collateral after) =? amount)
    && (pt_provider (pt before) - pt_provider (pt after) =? amount)
    && (dr_provider (dr before) - dr_provider (dr after) =? amount)
    && (pt_supply (pt before) - pt_supply (pt after) =? amount)
    && (dr_supply (dr before) - dr_supply (dr after) =? amount)
    && (col_supply (collateral after) =? col_supply (collateral before))) RECOMBINE_DELTA_FAILED ;;
  invariant ((dr_buyer (dr after) =? dr_buyer (dr before))
    && (poolVault (dr_pool (dr after)) =? poolVault (dr_pool (dr before)))
    && (qt_provider (testQuote after) =? qt_provider (testQuote before))
    && (qt_buyer (testQuote after) =? qt_buyer (testQuote before))
    && (poolVault (qt_pool (testQuote after)) =? poolVault (qt_pool (testQuote before)))
    && (pt_otherKnown (pt after) =? pt_otherKnown (pt before)) && (dr_otherKnown (dr after) =? dr_otherKnown (dr before))
    && (qt_otherKnown (testQuote after) =? qt_otherKnown (testQuote before))
    && sameQuoteScope before after
    && (poolProtocolFees (dr_pool (dr after)) =? poolProtocolFees (dr_pool (dr before)))
    && (poolFundFees (dr_pool (dr after)) =? poolFundFees (dr_pool (dr before)))
    && (poolCreatorFees (dr_pool (dr after)) =? poolCreatorFees (dr_pool (dr before)))
    && (poolProtocolFees (qt_pool (testQuote after)) =? poolProtocolFees (qt_pool (testQuote before)))
    && (poolFundFees (qt_pool (testQuote after)) =? poolFundFees (qt_pool (testQuote before)))
    && (poolCreatorFees (qt_pool (testQuote after)) =? poolCreatorFees (qt_pool (testQuote before)))
    && (lp_provider (lp after) =? lp_provider (lp before)) && (lp_mintSupply (lp after) =? lp_mintSupply (lp before))
    && (internalPoolLpAmount (lp after) =? internalPoolLpAmount (lp before))) RECOMBINE_UNRELATED_BALANCE_CHANGED.

Definition assertWithdrawBoundary (v : AssetBalances) : ares unit :=
  invariant ((lp_provider (lp v) =? 0) && (lp_mintSupply (lp v) =? 0)) PROVIDER_LP_REMAINS ;;
  invariant ((internalPoolLpAmount (lp v) =? 100) && (0 <? poolVault (dr_pool (dr v)))
             && (0 <? poolVault (qt_pool (testQuote v)))) LOCKED_LIQUIDITY_BOUNDARY_MISSING.

Definition ceilDiv (numerator denominator : Z) : ares Z :=
  invariant ((0 <=? numerator) && (0 <? denominator)) WITHDRAW_ACCOUNTING_INVALID ;;
  Ok ((numerator + denominator - 1) ÷ denominator).

Definition feeExcluded (value : PoolToken) : ares Z :=
  let result := poolVault value - poolProtocolFees value - poolFundFees value - poolCreatorFees value in
  invariant (0 <=? result) WITHDRAW_ACCOUNTING_INVALID ;;
  Ok result.

(** The fees a pool token's vault owes. *)
Definition pool_fees (value : PoolToken) : Z := poolProtocolFees value + poolFundFees value + poolCreatorFees value.

Definition assertSoleProviderWithdrawal (before after : AssetBalances) : ares unit :=
  let burned := lp_provider (lp before) in
  invariant ((0 <? burned) && (lp_mintSupply (lp before) =? burned)
             && (internalPoolLpAmount (lp before) =? burned + 100)) WITHDRAW_ACCOUNTING_INVALID ;;
  assertWithdrawBoundary after ;;
  let drFees := pool_fees (dr_pool (dr before)) in
  let quoteFees := pool_fees (qt_pool (testQuote before)) in
  drShare ← feeExcluded (dr_pool (dr before));
  drResidual ← ceilDiv (100 * drShare) (internalPoolLpAmount (lp before));
  quoteShare ← feeExcluded (qt_pool (testQuote before));
  quoteResidual ← ceilDiv (100 * quoteShare) (internalPoolLpAmount (lp before));
  let expectedDr := drResidual + drFees in
  let expectedQuote := quoteResidual + quoteFees in
  invariant ((poolVault (dr_pool (dr after)) =? expectedDr) && (poolVault (qt_pool (testQuote after)) =? expectedQuote))
    WITHDRAW_RESIDUAL_MISMATCH ;;
  invariant ((dr_provider (dr after) - dr_provider (dr before)
                =? poolVault (dr_pool (dr before)) - poolVault (dr_pool (dr after)))
    && (qt_provider (testQuote after) - qt_provider (testQuote before)
          =? poolVault (qt_pool (testQuote before)) - poolVault (qt_pool (testQuote after)))) WITHDRAW_DELTA_FAILED ;;
  invariant ((internalPoolLpAmount (lp after) =? internalPoolLpAmount (lp before) - burned)
    && (poolProtocolFees (dr_pool (dr after)) =? poolProtocolFees (dr_pool (dr before)))
    && (poolFundFees (dr_pool (dr after)) =? poolFundFees (dr_pool (dr before)))
    && (poolCreatorFees (dr_pool (dr after)) =? poolCreatorFees (dr_pool (dr before)))
    && (poolProtocolFees (qt_pool (testQuote after)) =? poolProtocolFees (qt_pool (testQuote before)))
    && (poolFundFees (qt_pool (testQuote after)) =? poolFundFees (qt_pool (testQuote before)))
    && (poolCreatorFees (qt_pool (testQuote after)) =? poolCreatorFees (qt_pool (testQuote before)))
    && (dr_buyer (dr after) =? dr_buyer (dr before)) && (dr_otherKnown (dr after) =? dr_otherKnown (dr before))
    && (dr_supply (dr after) =? dr_supply (dr before))
    && (qt_buyer (testQuote after) =? qt_buyer (testQuote before))
    && (qt_otherKnown (testQuote after) =? qt_otherKnown (testQuote before))
    && sameQuoteScope before after
    && (pt_provider (pt after) =? pt_provider (pt before)) && (pt_supply (pt after) =? pt_supply (pt before))
    && (col_provider (collateral after) =? col_provider (collateral before))
    && (col_vault (collateral after) =? col_vault (collateral before))
    && (col_supply (collateral after) =? col_supply (collateral before))) WITHDRAW_UNRELATED_BALANCE_CHANGED ;;
  assertControlledConservation after.

(** ** [quote.ts] *)

Definition FEE_RATE_DENOMINATOR : Z := 1000000.

Definition minimumOutput (expectedOutput slippageBps : Z) : ares Z :=
  invariant ((0 <? expectedOutput) && isSafeInteger slippageBps && (0 <=? slippageBps) && (slippageBps <=? 500)) SLIPPAGE_INVALID ;;
  let result := expectedOutput * (10000 - slippageBps) ÷ 10000 in
  invariant (0 <? result) MINIMUM_OUTPUT_ZERO ;;
  Ok result.

(** The fee rates of [AmmConfigSnapshot]. *)
Record AmmFees := Fees { tradeFeeRate : Z; protocolFeeRate : Z; fundFeeRate : Z }.

Record CurveResult := Curve { cv_inputAmount : Z; cv_outputAmount : Z; cv_tradeFee : Z; cv_protocolFee : Z; cv_fundFee : Z; cv_creatorFee : Z }.

Record CreatorDisabledSwapQuote := SwapQuote {
  sw_inputAmount : Z; sw_outputAmount : Z; sw_minimumOutput : Z; sw_tradeFee : Z; sw_protocolFee : Z; sw_fundFee : Z;
  sw_creatorFee : Z; sdkSwapResult : Z * Z;
}.

Definition bn (value : Z) : ares Z := invariant (0 <=? value) AMOUNT_INVALID ;; Ok value.

Section quote.
(** [CurveCalculator.swapBaseInput(input, inputReserve, outputReserve,
    tradeFeeRate, 0, protocolFeeRate, fundFeeRate, true)] *)
Context (swapBaseInput : Z -> Z -> Z -> Z -> Z -> Z -> Z -> bool -> CurveResult).

Definition quoteCreatorDisabledSwap (inputAmount inputReserve outputReserve : Z) (config : AmmFees) (enableCreatorFee : bool)
    (slippageBps : Z) : ares CreatorDisabledSwapQuote :=
  invariant (negb enableCreatorFee) CREATOR_FEE_POOL_REFUSED ;;
  invariant ((0 <? inputAmount) && (0 <? inputReserve) && (0 <? outputReserve)) SWAP_AMOUNT_INVALID ;;
  invariant ((0 <? tradeFeeRate config) && (tradeFeeRate config <? FEE_RATE_DENOMINATOR)) RAYDIUM_FEE_INVALID ;;
  input ← bn inputAmount;
  reserveIn ← bn inputReserve;
  reserveOut ← bn outputReserve;
  trade ← bn (tradeFeeRate config);
  creator ← bn 0;
  protocol ← bn (protocolFeeRate config);
  fund ← bn (fundFeeRate config);
  let result := swapBaseInput input reserveIn reserveOut trade creator protocol fund true in
  let outputAmount := cv_outputAmount result in
  invariant ((cv_creatorFee result =? 0) && (0 <? outputAmount)) SWAP_QUOTE_INVALID ;;
  minimum ← minimumOutput outputAmount slippageBps;
  Ok (SwapQuote inputAmount outputAmount minimum (cv_tradeFee result) (cv_protocolFee result) (cv_fundFee result)
        0 (cv_inputAmount result, cv_outputAmount result)).
End quote.

(** ** What the checks establish *)

(** Balances that add up, all non-negative. *)
Record conserved (v : AssetBalances) : Prop := {
  cv_nonneg : Forall (Z.le 0) (accounting_values v);
  cv_collateral : col_provider (collateral v) + col_vault (collateral v) = col_supply (collateral v);
  cv_pt : pt_provider (pt v) + pt_otherKnown (pt v) = pt_supply (pt v);
  cv_dr : dr_provider (dr v) + dr_buyer (dr v) + poolVault (dr_pool (dr v)) + dr_otherKnown (dr v) = dr_supply (dr v);
  cv_quote : qt_provider (testQuote v) + qt_buyer (testQuote v) + poolVault (qt_pool (testQuote v)) + qt_otherKnown (testQuote v)
             = default (qt_supply (testQuote v)) (controlledTotal (testQuote v));
}.

(** Every PT and every DR stands for one unit of collateral in the vault. *)
Record backed (v : AssetBalances) : Prop := {
  bk_conserved : conserved v;
  bk_pt : col_vault (collateral v) = pt_supply (pt v);
  bk_dr : pt_supply (pt v) = dr_supply (dr v);
}.

Lemma nonneg_loop l :
  foldM (fun (_ : unit) amount => invariant (0 <=? amount) NEGATIVE_ACCOUNTING_VALUE) tt l = Ok tt <-> Forall (Z.le 0) l.
Proof.
  induction l as [|x l IH]; simpl; [done|]. rewrite Forall_cons. destruct (Z.leb_spec 0 x); cbn; [by rewrite IH; tauto|].
  split; [done|lia].
Qed.

Lemma conservation_spec v : assertControlledConservation v = Ok tt <-> conserved v.
Proof.
  unfold assertControlledConservation. split.
  - intros ([] & Hn & H)%bind_Ok_inv. apply nonneg_loop in Hn. minv H. by split; breflect.
  - intros [Hn H1 H2 H3 H4]. rewrite (proj2 (nonneg_loop _) Hn). cbn -[Z.add].
    rewrite H1, H2, H3, H4, !Z.eqb_refl. destruct (controlledTotal (testQuote v)) as [t|] eqn:Ht; [|done].
    cbn in H4. rewrite (proj2 (Z.leb_le 0 t)); [done|]. unfold accounting_values in Hn.
    repeat match goal with X : Forall _ (_ :: _) |- _ => apply Forall_cons in X as [? X] end. lia.
Qed.

Lemma backing_spec v : assertPrefinalBacking v = Ok tt <-> backed v.
Proof.
  unfold assertPrefinalBacking. split.
  - intros ([] & Hc & H)%bind_Ok_inv. apply conservation_spec in Hc. apply require_Ok_inv in H. breflect. by split.
  - intros [Hc H1 H2]. apply conservation_spec in Hc. rewrite Hc, H1, H2. cbn. by rewrite Z.eqb_refl.
Qed.

(** What differs between two balances of one run in the quote token's scope. *)
Definition quote_scope (v : AssetBalances) : Z := default (qt_supply (testQuote v)) (controlledTotal (testQuote v)).

Lemma sameQuoteScope_spec before after :
  sameQuoteScope before after = true ->
  quote_scope after = quote_scope before /\ (controlledTotal (testQuote after) = None <-> controlledTotal (testQuote before) = None).
Proof.
  unfold sameQuoteScope, quote_scope. destruct (controlledTotal (testQuote before)), (controlledTotal (testQuote after)); cbn; try done;
    intros; breflect; split; try done; congruence.
Qed.

(** The balances a swap of [input] quote for [output] DR leads to. *)
Definition swapped (v : AssetBalances) (e : ExactSwapExpectation) : AssetBalances :=
  let q := testQuote v in let d := dr v in
  Balances (collateral v) (pt v)
    (Dr (dr_provider d) (dr_buyer d + ex_outputDr e)
       (PoolTok (poolVault (dr_pool d) - ex_outputDr e) (poolProtocolFees (dr_pool d)) (poolFundFees (dr_pool d)) (poolCreatorFees (dr_pool d)))
       (dr_otherKnown d) (dr_supply d))
    (Quote (qt_provider q) (qt_buyer q - ex_inputQuote e)
       (PoolTok (poolVault (qt_pool q) + ex_inputQuote e) (poolProtocolFees (qt_pool q) + ex_protocolFee e)
          (poolFundFees (qt_pool q) + ex_fundFee e) (poolCreatorFees (qt_pool q)))
       (qt_otherKnown q) (qt_supply q) (controlledTotal q))
    (lp v).

(** Two balances equal up to the quote supply outside the controlled scope. *)
Definition in_scope (v : AssetBalances) : AssetBalances :=
  let q := testQuote v in
  Balances (collateral v) (pt v) (dr v)
    (Quote (qt_provider q) (qt_buyer q) (qt_pool q) (qt_otherKnown q) (quote_scope v)
       (match controlledTotal q with Some _ => Some 0 | None => None end)) (lp v).

Lemma PoolToken_eq a b :
  poolVault a = poolVault b -> poolProtocolFees a = poolProtocolFees b -> poolFundFees a = poolFundFees b ->
  poolCreatorFees a = poolCreatorFees b -> a = b.
Proof. destruct a, b. cbn. congruence. Qed.

Lemma swap_accepted before after e r :
  assertSwapDelta before after e = Ok r ->
  r = ex_outputDr e /\ ex_minimumDr e <= r /\ conserved before /\ conserved after /\ in_scope after = in_scope (swapped before e).
Proof.
  unfold assertSwapDelta. intros (u1 & H1%require_Ok_inv & H)%bind_Ok_inv. apply bind_Ok_inv in H as (u2 & H2%require_Ok_inv & H).
  apply bind_Ok_inv in H as ([] & Hb%conservation_spec & H). apply bind_Ok_inv in H as ([] & Ha%conservation_spec & [= <-]).
  breflect. found sameQuoteScope_spec as [Hs Hsn].
  split_and!; [lia|lia|done|done|]. unfold in_scope, swapped. rewrite Hs. cbn.
  destruct before as [[] [] [] [] []], after as [[] [] [] [] []]; cbn in *. unfold quote_scope in *. cbn in *.
  subst. f_equal.
  - f_equal; [lia|]. apply PoolToken_eq; cbn; lia.
  - f_equal; [lia| |]; [apply PoolToken_eq; cbn; lia|].
    destruct Hsn as [Hn1 Hn2], controlledTotal0, controlledTotal1; first [done | by specialize (Hn1 eq_refl) | by specialize (Hn2 eq_refl)].
Qed.

Lemma recombine_accepted before after n :
  assertRecombineDelta before after n = Ok tt ->
  0 < n /\ col_vault (collateral after) = col_vault (collateral before) - n /\ pt_supply (pt after) = pt_supply (pt before) - n /\
  dr_supply (dr after) = dr_supply (dr before) - n /\ dr_buyer (dr after) = dr_buyer (dr before) /\
  dr_pool (dr after) = dr_pool (dr before) /\ dr_otherKnown (dr after) = dr_otherKnown (dr before) /\
  (conserved before -> Forall (Z.le 0) (accounting_values after) -> conserved after).
Proof.
  unfold assertRecombineDelta. intros (u1 & H1%require_Ok_inv & H)%bind_Ok_inv. apply bind_Ok_inv in H as (u2 & H2%require_Ok_inv & H%require_Ok_inv).
  breflect. found sameQuoteScope_spec as [Hs _]. split_and!; try lia.
  - by apply PoolToken_eq.
  - unfold quote_scope in Hs. intros [Hn C1 C2 C3 C4] Hn'. split; lia || done.
Qed.

(** A proportional withdrawal of all provider liquidity: [share] leaves
    [residual] behind. *)
Lemma residual_spec share total residual :
  ceilDiv (100 * share) total = Ok residual -> 0 <= share -> 100 < total ->
  share - residual = (total - 100) * share / total /\ 100 * share <= residual * total.
Proof.
  unfold ceilDiv. intros (u & Hr%require_Ok_inv & [= <-])%bind_Ok_inv Hs Ht. breflect.
  rewrite Z.quot_div_nonneg by lia. set (q := (100 * share + total - 1) / total).
  assert (total * q <= 100 * share + total - 1 < total * q + total) as Hq by (unfold q; Z.to_euclidean_division_equations; lia).
  split; [|lia]. apply (Z.div_unique _ _ _ (total * q - 100 * share)); lia.
Qed.

Lemma withdrawal_accepted before after :
  assertSoleProviderWithdrawal before after = Ok tt ->
  conserved after /\ collateral after = collateral before /\ pt_supply (pt after) = pt_supply (pt before) /\
  dr_supply (dr after) = dr_supply (dr before) /\ dr_buyer (dr after) = dr_buyer (dr before) /\
  let burned := lp_provider (lp before) in let total := internalPoolLpAmount (lp before) in
  let share t := poolVault t - pool_fees t in
  dr_provider (dr after) - dr_provider (dr before) = burned * share (dr_pool (dr before)) / total /\
  qt_provider (testQuote after) - qt_provider (testQuote before) = burned * share (qt_pool (testQuote before)) / total /\
  100 * share (dr_pool (dr before)) <= share (dr_pool (dr after)) * total /\
  100 * share (qt_pool (testQuote before)) <= share (qt_pool (testQuote after)) * total.
Proof.
  unfold assertSoleProviderWithdrawal, assertWithdrawBoundary, feeExcluded. intros H. minv H.
  match goal with K : assertControlledConservation after = Ok _ |- _ => rename K into Hc end.
  match type of Hc with _ = Ok ?x => destruct x end. apply conservation_spec in Hc. breflect.
  assert (internalPoolLpAmount (lp before) - 100 = lp_provider (lp before)) as Hburn by lia.
  match goal with K : ceilDiv (100 * ?s) _ = Ok ?x, K' : ceilDiv (100 * ?s') _ = Ok ?x' |- _ =>
    destruct (residual_spec s _ x K ltac:(lia) ltac:(lia)) as [E1 B1]; destruct (residual_spec s' _ x' K' ltac:(lia) ltac:(lia)) as [E2 B2] end.
  rewrite Hburn in E1, E2. cbv zeta.
  assert (forall t, poolVault t - pool_fees t = poolVault t - poolProtocolFees t - poolFundFees t - poolCreatorFees t) as Hsh
    by (intros t; unfold pool_fees; lia).
  rewrite !Hsh. unfold pool_fees in *. split_and!; try done.
  - destruct (collateral before), (collateral after); cbn in *; congruence.
  - rewrite <- E1. lia.
  - rewrite <- E2. lia.
  - etrans; [exact B1|]. apply Z.eq_le_incl. f_equal. lia.
  - etrans; [exact B2|]. apply Z.eq_le_incl. f_equal. lia.
Qed.

(** A quote promises the curve's output less the slippage, rounded down. *)
Lemma quote_spec curve input reserveIn reserveOut config creatorFee bps q :
  quoteCreatorDisabledSwap curve input reserveIn reserveOut config creatorFee bps = Ok q ->
  sw_outputAmount q = cv_outputAmount (curve input reserveIn reserveOut (tradeFeeRate config) 0 (protocolFeeRate config)
                                         (fundFeeRate config) true) /\
  creatorFee = false /\ 0 <= bps <= 500 /\ 0 < sw_minimumOutput q <= sw_outputAmount q /\
  sw_minimumOutput q = sw_outputAmount q * (10000 - bps) / 10000.
Proof.
  unfold quoteCreatorDisabledSwap, minimumOutput, bn. intros H. minv H. cbn. destruct creatorFee; [done|]. breflect.
  rewrite Z.quot_div_nonneg in * by nia. split_and!; try done; try lia.
  apply Z.div_le_upper_bound; nia.
Qed.

(** ** A run of the market *)

(** The steps a run records between two of its checkpoints. *)
Inductive market_step : AssetBalances -> AssetBalances -> Prop :=
  | market_swap before after e r : assertSwapDelta before after e = Ok r -> market_step before after
  | market_withdraw before after : assertSoleProviderWithdrawal before after = Ok tt -> market_step before after
  | market_recombine before after n :
      assertRecombineDelta before after n = Ok tt -> Forall (Z.le 0) (accounting_values after) -> market_step before after.

Lemma market_step_backed before after : market_step before after -> backed before -> backed after.
Proof.
  intros Hs [Bc B1 B2]. destruct Hs as [before after e r H|before after H|before after n H Hn].
  - apply swap_accepted in H as (_ & _ & _ & Ha & He).
    pose proof (f_equal collateral He) as Hc. pose proof (f_equal pt He) as Hp. pose proof (f_equal (fun v => dr_supply (dr v)) He) as Hd.
    cbn in Hc, Hp, Hd. by split; rewrite ?Hc, ?Hp, ?Hd.
  - apply withdrawal_accepted in H as (Ha & Hc & Hp & Hd & _). by split; rewrite ?Hc, ?Hp, ?Hd.
  - apply recombine_accepted in H as (_ & Hc & Hp & Hd & _ & _ & _ & Hcons). split; [by apply Hcons|lia|lia].
Qed.

(** The checks of a market run are sound: if the claims were backed one to
    one by vaulted collateral at one checkpoint and every following step
    passes its check (a swap, the withdrawal of all liquidity, a
    recombination), they are backed at every later checkpoint, where the final
    backing check passes too; and the DR of the buyer and of the pool alone
    never exceed the collateral in the vault. *)
Theorem market_run_keeps_backing first last :
  assertPrefinalBacking first = Ok tt -> rtc market_step first last ->
  assertPrefinalBacking last = Ok tt /\
  dr_buyer (dr last) + poolVault (dr_pool (dr last)) <= col_vault (collateral last).
Proof.
  intros Hb Hr. apply backing_spec in Hb. assert (backed last) as Hl.
  { induction Hr as [|x y z Hxy Hyz IH]; [done|]. apply IH. by eapply market_step_backed. }
  split; [by apply backing_spec|]. destruct Hl as [[Hn _ _ Hd _] B1 B2]. unfold accounting_values in Hn.
  repeat match goal with X : Forall _ (_ :: _) |- _ => apply Forall_cons in X as [? X] end. lia.
Qed.

(** Market steps move exactly what they say: a quote promises the curve's
    output less at most five per cent; an accepted swap moved the
    quoted amounts and fees and nothing else, for at least the minimum; an
    accepted withdrawal paid the provider the exact floor share of each pool
    token, so that the value behind every remaining unit of locked liquidity
    did not fall. *)
Theorem market_steps_exact before after :
  (forall curve input reserveIn reserveOut config creatorFee bps q,
     quoteCreatorDisabledSwap curve input reserveIn reserveOut config creatorFee bps = Ok q ->
     sw_outputAmount q = cv_outputAmount (curve input reserveIn reserveOut (tradeFeeRate config) 0 (protocolFeeRate config)
                                            (fundFeeRate config) true) /\
     creatorFee = false /\ 0 <= bps <= 500 /\ 0 < sw_minimumOutput q <= sw_outputAmount q /\
     sw_minimumOutput q = sw_outputAmount q * (10000 - bps) / 10000) /\
  (forall e r, assertSwapDelta before after e = Ok r ->
     r = ex_outputDr e /\ ex_minimumDr e <= r /\ in_scope after = in_scope (swapped before e)) /\
  (assertSoleProviderWithdrawal before after = Ok tt ->
     let total := internalPoolLpAmount (lp before) in
     let share t := poolVault t - pool_fees t in
     dr_provider (dr after) - dr_provider (dr before) = lp_provider (lp before) * share (dr_pool (dr before)) / total /\
     qt_provider (testQuote after) - qt_provider (testQuote before) = lp_provider (lp before) * share (qt_pool (testQuote before)) / total /\
     100 * share (dr_pool (dr before)) <= share (dr_pool (dr after)) * total /\
     100 * share (qt_pool (testQuote before)) <= share (qt_pool (testQuote after)) * total).
Proof.
  split_and!.
  - intros *. apply quote_spec.
  - intros e r (H1 & H2 & _ & _ & H3)%swap_accepted. done.
  - intros (_ & _ & _ & _ & _ & H)%withdrawal_accepted. exact H.
Qed.

(** ** Witnesses: the run of [FLOW], with the mock quote token *)

Definition ex_added : AssetBalances :=
  Balances (Collateral 0 10000 10000) (Pt 10000 0 10000) (Dr 0 0 (PoolTok 10000 0 0 0) 0 10000)
    (Quote 0 2000 (PoolTok 20000 0 0 0) 0 22000 None) (Lp 14042 14042 14142).
Definition ex_swap : ExactSwapExpectation := Expect 2000 906 900 1 1.
Definition ex_swapped : AssetBalances := swapped ex_added ex_swap.
Definition ex_withdrawn : AssetBalances :=
  Balances (Collateral 0 10000 10000) (Pt 10000 0 10000) (Dr 9029 906 (PoolTok 65 0 0 0) 0 10000)
    (Quote 21842 0 (PoolTok 158 1 1 0) 0 22000 None) (Lp 0 0 100).
Definition ex_recombined : AssetBalances :=
  Balances (Collateral 9029 971 10000) (Pt 971 0 971) (Dr 0 906 (PoolTok 65 0 0 0) 0 971)
    (Quote 21842 0 (PoolTok 158 1 1 0) 0 22000 None) (Lp 0 0 100).

Example market_run_witness : assertPrefinalBacking ex_recombined = Ok tt /\ 906 + 65 <= 971.
Proof.
  refine (market_run_keeps_backing ex_added ex_recombined _ _); [reflexivity|].
  eapply rtc_l; [apply (market_swap ex_added ex_swapped ex_swap 906); reflexivity|].
  eapply rtc_l; [apply (market_withdraw ex_swapped ex_withdrawn); vm_compute; reflexivity|].
  eapply rtc_l; [apply (market_recombine ex_withdrawn ex_recombined 9029); [reflexivity|]|reflexivity].
  unfold accounting_values. repeat constructor; vm_compute; discriminate.
Defined.

Example market_steps_witness : 9029 - 0 = 14042 * 9094 / 14142 /\ 100 * 9094 <= 65 * 14142.
Proof.
  destruct (market_steps_exact ex_swapped ex_withdrawn) as (_ & _ & H). destruct (H ltac:(vm_compute; reflexivity)) as (H1 & _ & H2 & _).
  split; [exact H1|exact H2].
Defined.
