(* ===== verification/GuidedDemo.v ===== *)
(** * Guided runtime: the demo, its readings and its checks

    [packages/guided-runtime/src/contract.ts] and [internal.ts], and the parts
    of [runtime.ts] that compute: what one reading of the chain must show, the
    balances and the public snapshot made of it, and the checks every step of
    the demo puts its balances through.  The texts of addresses in a snapshot
    and in a receipt are left out; the accounts they name are checked. *)
From S2P Require Import Prelude Calendar TxBytes TxQuotes TxAccounts AmmAccounting.
Open Scope Z_scope.

(** ** Data *)

Inductive DemoStep :=
  | core_split | core_recombine_partial | core_recombine_rest
  | dividend_split | dividend_quarter_one | dividend_quarter_two | dividend_recombine
  | create_pool | add_liquidity | buy_dr | remove_liquidity
  | recombine | settle_year | redeem_buyer | redeem_provider.
#[global] Instance DemoStep_eq_dec : EqDecision DemoStep. Proof. solve_decision. Defined.

Definition DEMO_STEPS : list DemoStep :=
  [core_split; core_recombine_partial; core_recombine_rest;
   dividend_split; dividend_quarter_one; dividend_quarter_two; dividend_recombine;
   create_pool; add_liquidity; buy_dr; remove_liquidity;
   recombine; settle_year; redeem_buyer; redeem_provider].

Record DemoAsset := MkAsset { as_id : string; as_symbol : string; as_decimals : Z }.
#[global] Instance DemoAsset_eq_dec : EqDecision DemoAsset. Proof. solve_decision. Defined.
Definition DEMO_ASSETS : list DemoAsset :=
  [MkAsset "xstocks-test-kox" "TestKOx" 8; MkAsset "backpack-test-mu" "TestMU" 6; MkAsset "ondo-test-ibm" "TestIBMon" 9].

Inductive DemoStatus := idle | preparing | ready | running | failed | complete.
#[global] Instance DemoStatus_eq_dec : EqDecision DemoStatus. Proof. solve_decision. Defined.

Inductive TransactionStatus := submitted | confirmed | finalized.
#[global] Instance TransactionStatus_eq_dec : EqDecision TransactionStatus. Proof. solve_decision. Defined.
(** A step, or the [None] that stands for ['setup']. *)
Record DemoTransaction := MkTransaction {
  dt_step : option DemoStep; dt_name : string; dt_signature : string; dt_status : TransactionStatus; dt_slot : option Z;
}.

Record DemoWallet := MkWallet { w_stockRaw : Z; w_ptRaw : Z; w_drRaw : Z; w_quoteRaw : Z; w_lpRaw : Z }.
Record PoolView := MkPoolView { pv_drRaw : Z; pv_quoteRaw : Z; pv_lockedLpRaw : Z }.
Record SwapView := MkSwapView { sv_inputQuoteRaw : Z; sv_outputDrRaw : Z; sv_minimumDrRaw : Z }.
Record DemoSnapshot := MkSnapshot {
  sn_asset : DemoAsset; sn_observedAt : Z; sn_slot : Z; sn_unixTimestamp : Z; sn_genesisHash : string;
  sn_phase : SeriesLifecyclePhase; sn_eventCount : Z; sn_stockDecimals : Z; sn_claimDecimals : Z; sn_quoteDecimals : Z;
  sn_lpDecimals : Z; sn_stockMultiplierBits : Z; sn_provider : DemoWallet; sn_buyer : DemoWallet; sn_pool : option PoolView;
  sn_vaultRaw : Z; sn_ptSupplyRaw : Z; sn_drSupplyRaw : Z; sn_backingVerified : bool; sn_swap : option SwapView;
}.

(** [KnownAddresses], [RuntimeSigners] and [PoolAddresses], as far as a reading depends on them. *)
Record KnownAddresses := MkKnown {
  kn_assetPolicy : PublicKey; kn_series : PublicKey; kn_accumulator : PublicKey; kn_ptMint : PublicKey; kn_drMint : PublicKey;
  kn_vault : PublicKey;
}.
Record RuntimeSigners := MkSigners { sg_provider : PublicKey; sg_buyer : PublicKey; sg_collateralMint : PublicKey }.
Record PoolAddresses := MkPool { pl_poolId : PublicKey; pl_lpMint : PublicKey; pl_vaultA : PublicKey; pl_vaultB : PublicKey }.

#[global] Instance DemoTransaction_eq_dec : EqDecision DemoTransaction. Proof. solve_decision. Defined.
#[global] Instance DemoWallet_eq_dec : EqDecision DemoWallet. Proof. solve_decision. Defined.
#[global] Instance PoolView_eq_dec : EqDecision PoolView. Proof. solve_decision. Defined.
#[global] Instance SwapView_eq_dec : EqDecision SwapView. Proof. solve_decision. Defined.
#[global] Instance DemoSnapshot_eq_dec : EqDecision DemoSnapshot. Proof. solve_decision. Defined.
#[global] Instance CollateralBalances_eq_dec : EqDecision CollateralBalances. Proof. solve_decision. Defined.
#[global] Instance PtBalances_eq_dec : EqDecision PtBalances. Proof. solve_decision. Defined.
#[global] Instance PoolToken_eq_dec : EqDecision PoolToken. Proof. solve_decision. Defined.
#[global] Instance DrBalances_eq_dec : EqDecision DrBalances. Proof. solve_decision. Defined.
#[global] Instance QuoteBalances_eq_dec : EqDecision QuoteBalances. Proof. solve_decision. Defined.
#[global] Instance LpBalances_eq_dec : EqDecision LpBalances. Proof. solve_decision. Defined.
#[global] Instance AssetBalances_eq_dec : EqDecision AssetBalances. Proof. solve_decision. Defined.

(** An [HttpError], or another error by its message. *)
Inductive failure := HttpError (status : Z) (message : string) | Thrown (message : string).
Abbreviation res := (Prelude.result failure).
(** [if (!b) throw new Error(message)] *)
Definition assert_that (b : bool) (message : string) : res unit := require b (Thrown message).
(** A check of the AMM integration or of the SDK: its error is thrown on. *)
Definition passes {E A} (r : Prelude.result E A) (message : string) : res A :=
  match r with Ok a => Ok a | Err _ => Err (Thrown message) end.

(** ** Constants *)

Definition TEST_QUOTE_DECIMALS : Z := 6.
Definition CIRCLE_USDC_REQUIRED_FUNDING_RAW : Z := 11 * 10 ^ 6.
Definition POOL_SEED_DR_UNITS : Z := 24.
Definition POOL_ADD_DR_UNITS : Z := 36.
(** [USDC_FLOW] *)
Definition seedQuoteRaw : Z := 4 * 10 ^ 6.
Definition addQuoteRaw : Z := 6 * 10 ^ 6.
Definition buyerQuoteRaw : Z := 1 * 10 ^ 6.
Definition flow_slippageBps : Z := 50.

Definition HALF_DAY : Z := 12 * 3600 * 1000.
Definition END_YEAR_MS : Z := Date_UTC 2028 0 2 + HALF_DAY.
(** Month, day and the bits of the multiplier: 1.01, 1.02, 1.03 and 1.04. *)
Definition QUARTERS : list (Z * Z * Z) :=
  [(2, 15, 4607227454796291113); (5, 15, 4607272490792564818); (8, 15, 4607317526788838523); (11, 15, 4607362562785112228)].
Definition ONE_BITS : Z := 4607182418800017408.
Definition quarter_bits (index : nat) : Z := match QUARTERS !! index with Some (_, _, bits) => bits | None => ONE_BITS end.
Definition quarter_effectiveMs (index : nat) : Z :=
  match QUARTERS !! index with Some (month, day, _) => Date_UTC 2027 month day + HALF_DAY | None => 0 end.
(** [m0Bits] of the event of a quarter: the multiplier of the one before. *)
Definition quarter_m0Bits (index : nat) : Z := match index with O => ONE_BITS | S index' => quarter_bits index' end.

Definition stockRaw (asset : DemoAsset) (units : Z) : Z := units * 10 ^ as_decimals asset.

(** ** One reading of the chain *)

(** What [coherentRead] reads at one slot, decoded: account [i] of its list,
    each owned by the program it must be owned by. *)
Record MintReading := MkMintReading { mi_decimals : Z; mi_supply : Z }.
Record QuoteMintReading := MkQuoteMint { qm_decimals : Z; qm_supply : Z; qm_bytes_kept : bool; qm_authorities_kept : bool }.
Record PoolReading := MkPoolReading {
  po_vaultA : PublicKey; po_vaultB : PublicKey; po_mintLp : PublicKey; po_mintA : PublicKey; po_mintB : PublicKey;
  po_lpAmount : Z; po_feesA : Z * Z * Z; po_feesB : Z * Z * Z;
  po_amountA : Z; po_amountB : Z; po_lpMint : MintReading; po_providerLp : TokenAccount;
}.
Record Reading := MkReading {
  rd_clock : ChainClock; rd_policy_collateralMint : PublicKey; rd_series : SeriesSnapshot; rd_accumulator_series : PublicKey;
  rd_stockMint : MintReading; rd_activeBits : Z; rd_vault : TokenAccount;
  rd_providerStock : TokenAccount; rd_providerPt : TokenAccount; rd_providerDr : TokenAccount; rd_providerQuote : TokenAccount;
  rd_buyerStock : TokenAccount; rd_buyerPt : TokenAccount; rd_buyerDr : TokenAccount; rd_buyerQuote : TokenAccount;
  rd_ptMint : MintReading; rd_drMint : MintReading; rd_quoteMint : QuoteMintReading; rd_pool : option PoolReading;
}.

Section reading.
Context (usdc : PublicKey) (asset : DemoAsset) (signers : RuntimeSigners) (known : KnownAddresses) (pool : option PoolAddresses).

(** [account.mint.equals(mint) && account.owner.equals(authority)] *)
Definition held (account : TokenAccount) (mint authority : PublicKey) : bool :=
  key_equals (t_mint account) mint && key_equals (t_owner account) authority.

Definition check_token_accounts (r : Reading) : bool :=
  let provider := sg_provider signers in let buyer := sg_buyer signers in let stock := sg_collateralMint signers in
  held (rd_providerStock r) stock provider && held (rd_providerPt r) (kn_ptMint known) provider
  && held (rd_providerDr r) (kn_drMint known) provider && held (rd_providerQuote r) usdc provider
  && held (rd_buyerStock r) stock buyer && held (rd_buyerPt r) (kn_ptMint known) buyer
  && held (rd_buyerDr r) (kn_drMint known) buyer && held (rd_buyerQuote r) usdc buyer.

Definition check_pool (addresses : PoolAddresses) (p : PoolReading) : res unit :=
  assert_that (held (po_providerLp p) (pl_lpMint addresses) (sg_provider signers)) "token account identity mismatch" ;;
  assert_that (key_equals (po_vaultA p) (pl_vaultA addresses) && key_equals (po_vaultB p) (pl_vaultB addresses)
               && key_equals (po_mintLp p) (pl_lpMint addresses)
               && (key_equals (po_mintA p) (kn_drMint known) && key_equals (po_mintB p) usdc
                   || key_equals (po_mintB p) (kn_drMint known) && key_equals (po_mintA p) usdc)) "POOL_IDENTITY_MISMATCH".

Definition check_reading (r : Reading) : res unit :=
  let s := rd_series r in let stock := sg_collateralMint signers in
  assert_that (check_token_accounts r) "token account identity mismatch" ;;
  assert_that (qm_bytes_kept (rd_quoteMint r)) "USDC_MINT_BYTES_CHANGED" ;;
  assert_that ((qm_decimals (rd_quoteMint r) =? TEST_QUOTE_DECIMALS) && qm_authorities_kept (rd_quoteMint r)) "USDC_MINT_IDENTITY_CHANGED" ;;
  assert_that (key_equals (rd_policy_collateralMint r) stock && key_equals (s_assetPolicy s) (kn_assetPolicy known)
               && key_equals (s_collateralMint s) stock && key_equals (s_ptMint s) (kn_ptMint known)
               && key_equals (s_drMint s) (kn_drMint known) && key_equals (s_vault s) (kn_vault known)
               && key_equals (rd_accumulator_series r) (kn_series known) && held (rd_vault r) stock (kn_series known))
    "COHERENT_SNAPSHOT_IDENTITY_MISMATCH" ;;
  assert_that ((mi_decimals (rd_stockMint r) =? as_decimals asset) && (mi_decimals (rd_ptMint r) =? as_decimals asset)
               && (mi_decimals (rd_drMint r) =? as_decimals asset)) "SELECTED_ASSET_DECIMALS_MISMATCH" ;;
  match pool, rd_pool r with
  | None, None => Ok tt
  | Some addresses, Some p => check_pool addresses p
  | _, _ => Err (Thrown "COHERENT_SNAPSHOT_ACCOUNT_MISSING")
  end.

(** The DR side and the quote side of the pool: a vault with its protocol, fund and creator fees. *)
Definition dr_is_a (p : PoolReading) : bool := key_equals (po_mintA p) (kn_drMint known).
Definition side_a (p : PoolReading) : PoolToken := let '(f, g, h) := po_feesA p in PoolTok (po_amountA p) f g h.
Definition side_b (p : PoolReading) : PoolToken := let '(f, g, h) := po_feesB p in PoolTok (po_amountB p) f g h.
Definition dr_side (p : PoolReading) : PoolToken := if dr_is_a p then side_a p else side_b p.
Definition quote_side (p : PoolReading) : PoolToken := if dr_is_a p then side_b p else side_a p.
Definition no_pool : PoolToken := PoolTok 0 0 0 0.

Definition readAmmBalances (requirePool : bool) (r : Reading) : res AssetBalances :=
  assert_that (negb requirePool || bool_decide (is_Some (rd_pool r))) "POOL_UNAVAILABLE" ;;
  let dr_pool := from_option dr_side no_pool (rd_pool r) in
  let quote_pool := from_option quote_side no_pool (rd_pool r) in
  assert_that (t_amount (rd_providerQuote r) + t_amount (rd_buyerQuote r) + poolVault quote_pool =? CIRCLE_USDC_REQUIRED_FUNDING_RAW)
    "LOCAL_USDC_CONSERVATION_FAILED" ;;
  Ok (Balances
    (Collateral (t_amount (rd_providerStock r)) (t_amount (rd_vault r)) (mi_supply (rd_stockMint r)))
    (Pt (t_amount (rd_providerPt r)) (t_amount (rd_buyerPt r)) (mi_supply (rd_ptMint r)))
    (Dr (t_amount (rd_providerDr r)) (t_amount (rd_buyerDr r)) dr_pool 0 (mi_supply (rd_drMint r)))
    (Quote (t_amount (rd_providerQuote r)) (t_amount (rd_buyerQuote r)) quote_pool 0 (qm_supply (rd_quoteMint r))
       (Some CIRCLE_USDC_REQUIRED_FUNDING_RAW))
    (Lp (from_option (fun p => t_amount (po_providerLp p)) 0 (rd_pool r)) (from_option (fun p => mi_supply (po_lpMint p)) 0 (rd_pool r))
       (from_option po_lpAmount 0 (rd_pool r)))).

Definition backing_verified (r : Reading) (custodyHealthy : bool) : bool :=
  let poolDr := from_option (fun p => poolVault (dr_side p)) 0 (rd_pool r) in
  let poolQuote := from_option (fun p => poolVault (quote_side p)) 0 (rd_pool r) in
  (t_amount (rd_providerStock r) + t_amount (rd_buyerStock r) + t_amount (rd_vault r) =? mi_supply (rd_stockMint r))
  && (t_amount (rd_providerPt r) + t_amount (rd_buyerPt r) =? mi_supply (rd_ptMint r))
  && (t_amount (rd_providerDr r) + t_amount (rd_buyerDr r) + poolDr =? mi_supply (rd_drMint r))
  && (t_amount (rd_providerQuote r) + t_amount (rd_buyerQuote r) + poolQuote =? CIRCLE_USDC_REQUIRED_FUNDING_RAW)
  && custodyHealthy.

Definition snapshot_of (r : Reading) (genesisHash : string) (now : Z) (swap : option SwapView) : res DemoSnapshot :=
  let s := rd_series r in
  poolView ← (match rd_pool r with
              | None => Ok None
              | Some p =>
                  assert_that (negb (po_lpAmount p <? mi_supply (po_lpMint p))) "LOCKED_LP_ACCOUNTING_INVALID" ;;
                  Ok (Some (MkPoolView (poolVault (dr_side p)) (poolVault (quote_side p)) (po_lpAmount p - mi_supply (po_lpMint p))))
              end);
  custodyHealthy ← (if is_final s then required ← passes (requiredCustodyRaw s) "INVALID_SERIES"; Ok (t_amount (rd_vault r) =? required)
                    else Ok ((t_amount (rd_vault r) =? mi_supply (rd_ptMint r)) && (mi_supply (rd_ptMint r) =? mi_supply (rd_drMint r))));
  Ok (MkSnapshot asset now (ck_slot (rd_clock r)) (unixTimestamp (rd_clock r)) genesisHash (TxQuotes.phase s) (eventCount s)
    (mi_decimals (rd_stockMint r)) (mi_decimals (rd_ptMint r)) (qm_decimals (rd_quoteMint r))
    (from_option (fun p => mi_decimals (po_lpMint p)) 9 (rd_pool r)) (rd_activeBits r)
    (MkWallet (t_amount (rd_providerStock r)) (t_amount (rd_providerPt r)) (t_amount (rd_providerDr r)) (t_amount (rd_providerQuote r))
       (from_option (fun p => t_amount (po_providerLp p)) 0 (rd_pool r)))
    (MkWallet (t_amount (rd_buyerStock r)) (t_amount (rd_buyerPt r)) (t_amount (rd_buyerDr r)) (t_amount (rd_buyerQuote r)) 0)
    poolView (t_amount (rd_vault r)) (mi_supply (rd_ptMint r)) (mi_supply (rd_drMint r)) (backing_verified r custodyHealthy) swap).
End reading.

(** ** The checks of the steps *)

Section checks.
Context (asset : DemoAsset).
Abbreviation raw units := (stockRaw asset units).

(** [fundStock] *)
Definition check_unfunded (b : AssetBalances) : res unit :=
  assert_that ((col_supply (collateral b) =? 0) && (col_provider (collateral b) =? 0) && (pt_supply (pt b) =? 0)
               && (dr_supply (dr b) =? 0)) "FUND_STOCK_INITIAL_BALANCES_INVALID".
Definition check_funded (b : AssetBalances) : res unit :=
  assert_that ((col_provider (collateral b) =? raw 100) && (col_supply (collateral b) =? raw 100) && (col_vault (collateral b) =? 0)
               && (pt_supply (pt b) =? 0) && (dr_supply (dr b) =? 0)) "FUND_STOCK_DELTA_FAILED".

(** [depositStock] *)
Definition check_split (b : AssetBalances) : res unit :=
  assert_that ((col_provider (collateral b) =? 0) && (col_vault (collateral b) =? raw 100) && (pt_supply (pt b) =? raw 100)
               && (dr_supply (dr b) =? raw 100)) "SPLIT_DELTA_FAILED" ;;
  passes (assertPrefinalBacking b) "PREFINAL_BACKING_FAILED".

(** [recombineStock] of 40 or 60 units *)
Definition check_recombined (units : Z) (before after : AssetBalances) : res unit :=
  passes (assertRecombineDelta before after (raw units)) "RECOMBINE_DELTA_FAILED" ;;
  passes (assertPrefinalBacking after) "PREFINAL_BACKING_FAILED" ;;
  let left_over := if units =? 40 then raw 60 else 0 in
  assert_that ((col_provider (collateral after) =? (if units =? 40 then raw 40 else raw 100))
               && (col_vault (collateral after) =? left_over) && (pt_supply (pt after) =? left_over)
               && (dr_supply (dr after) =? left_over)) "RECOMBINE_BALANCES_INVALID".
Definition check_dividend_checkpoint (observed : DemoSnapshot) : res unit :=
  assert_that ((sn_eventCount observed =? 2) && (sn_stockMultiplierBits observed =? quarter_bits 1)
               && bool_decide (sn_phase observed = open)) "DIVIDEND_RECOMBINE_CHECKPOINT_INVALID".

(** [createPool] *)
Definition check_seeded (b : AssetBalances) : res unit :=
  assert_that ((poolVault (dr_pool (dr b)) =? raw POOL_SEED_DR_UNITS) && (poolVault (qt_pool (testQuote b)) =? seedQuoteRaw)
               && (dr_provider (dr b) =? raw POOL_ADD_DR_UNITS)) "SEED_DELTA_FAILED" ;;
  passes (assertPrefinalBacking b) "PREFINAL_BACKING_FAILED".

(** The local [ceilDiv] of [addLiquidity], which divides by what is positive there. *)
Definition ceil_div (numerator denominator : Z) : Z := (numerator + denominator - 1) ÷ denominator.
Definition check_added (before after : AssetBalances) : res unit :=
  let mintedLp := lp_provider (lp after) - lp_provider (lp before) in
  let lpBefore := internalPoolLpAmount (lp before) in
  assert_that (negb ((mintedLp <=? 0) || (lpBefore <=? 0))) "ADD_LIQUIDITY_LP_INVALID" ;;
  let expectedDr := ceil_div (mintedLp * poolVault (dr_pool (dr before))) lpBefore in
  let expectedQuote := ceil_div (mintedLp * poolVault (qt_pool (testQuote before))) lpBefore in
  let contributedDr := dr_provider (dr before) - dr_provider (dr after) in
  let rawRoundingDust := dr_provider (dr after) in
  let oneLpDrQuantum := ceil_div (poolVault (dr_pool (dr before))) lpBefore in
  assert_that ((dr_provider (dr before) =? raw POOL_ADD_DR_UNITS) && (contributedDr =? expectedDr)
    && (contributedDr =? poolVault (dr_pool (dr after)) - poolVault (dr_pool (dr before)))
    && negb ((rawRoundingDust <? 0) || (oneLpDrQuantum <=? rawRoundingDust))
    && (poolVault (dr_pool (dr after)) + rawRoundingDust =? raw 60)
    && (expectedQuote =? addQuoteRaw)
    && (qt_provider (testQuote before) - qt_provider (testQuote after) =? expectedQuote)
    && (poolVault (qt_pool (testQuote after)) - poolVault (qt_pool (testQuote before)) =? expectedQuote)
    && (internalPoolLpAmount (lp after) - internalPoolLpAmount (lp before) =? mintedLp)
    && (lp_provider (lp before) <? lp_provider (lp after))) "ADD_LIQUIDITY_DELTA_FAILED" ;;
  passes (assertPrefinalBacking after) "PREFINAL_BACKING_FAILED".

(** [removeLiquidity] *)
Definition check_removed (before after : AssetBalances) : res unit :=
  passes (assertSoleProviderWithdrawal before after) "WITHDRAW_DELTA_FAILED" ;;
  passes (assertWithdrawBoundary after) "PROVIDER_LP_REMAINS".

(** [recombine]: as many DR as came back, or all PT. *)
Definition recombined_amount (before : AssetBalances) : Z :=
  if dr_provider (dr before) <? pt_provider (pt before) then dr_provider (dr before) else pt_provider (pt before).
Definition check_recombined_rest (before after : AssetBalances) : res unit :=
  passes (assertRecombineDelta before after (recombined_amount before)) "RECOMBINE_DELTA_FAILED" ;;
  passes (assertPrefinalBacking after) "PREFINAL_BACKING_FAILED".

(** [recordQuarter]: the texts of the balances, and so the balances, are unchanged. *)
Definition same_balances (before after : AssetBalances) : res unit :=
  assert_that (bool_decide (before = after)) "DIVIDEND_EVENT_CHANGED_RAW_BALANCES".
Definition check_early_quarter (index : nat) (after : AssetBalances) : res unit :=
  if Nat.ltb index 2 then
    assert_that ((col_provider (collateral after) =? 0) && (col_vault (collateral after) =? raw 100)
                 && (pt_provider (pt after) =? raw 100) && (dr_provider (dr after) =? raw 100)) "EARLY_DIVIDEND_RAW_BALANCES_INVALID"
  else Ok tt.
Definition check_quarter (index : nat) (observed : DemoSnapshot) : res unit :=
  assert_that ((sn_eventCount observed =? Z.of_nat index + 1) && (sn_stockMultiplierBits observed =? quarter_bits index)
               && bool_decide (sn_phase observed = open)) "DIVIDEND_QUARTER_CHECKPOINT_INVALID".

(** [settleYear] *)
Definition check_early_dividends (before : DemoSnapshot) : res unit :=
  assert_that ((sn_eventCount before =? 2) && (sn_stockMultiplierBits before =? quarter_bits 1)
               && bool_decide (sn_phase before = open)) "EARLY_DIVIDEND_CHECKPOINT_MISSING".
Definition check_journal (q : CoherentQuoteSnapshot) : res unit :=
  let s := qs_series q in
  assert_that ((eventCount s =? 4) && (unresolvedCount s =? 0) && (maturityUnixTimestamp s <=? unixTimestamp (qs_clock q)))
    "SYNTHETIC_JOURNAL_INCOMPLETE".
Definition check_finalized (q : CoherentQuoteSnapshot) : res unit :=
  assert_that (is_final (qs_series q) && (eventCount (qs_series q) =? 4)) "FINALIZATION_FAILED".

(** [assertFinalResidual] *)
Definition check_residual (q : CoherentQuoteSnapshot) (b : AssetBalances) : res unit :=
  required ← (if is_final (qs_series q) then passes (requiredCustodyRaw (qs_series q)) "INVALID_SERIES" else Ok 0);
  assert_that (is_final (qs_series q) && (qs_vaultRaw q =? required) && (pt_supply (pt b) =? 0)
    && (dr_supply (dr b) =? poolVault (dr_pool (dr b))) && (0 <? poolVault (dr_pool (dr b)))
    && (dr_provider (dr b) =? 0) && (dr_buyer (dr b) =? 0) && (lp_provider (lp b) =? 0)
    && (internalPoolLpAmount (lp b) =? 100)) "FINAL_RESIDUAL_BACKING_FAILED".
End checks.
