(* ===== verification/GuidedRuntime.v ===== *)
(** * Guided runtime: its state machine

    [GuidedDemoRuntime] of [packages/guided-runtime/src/runtime.ts], with the
    sending of a transaction of [packages/amm-integration/src/transactions.ts].
    A request is accepted in one stretch that no other interrupts, its work is
    launched once the new state is written, and the state is written after
    every change, in the order of the changes.  What a step does on the chain
    is a program: the transactions it sends, and the checks its readings must
    pass.  The instructions of the set-up are known by their names. *)
From S2P Require Import Prelude Js Calendar TxBytes Utf8 TxQuotes TxAccounts AmmAccounting GuidedDemo Programs.
Open Scope Z_scope.

(** ** State *)

(** [activeStep]: [Some None] is ['setup']. *)
Record DemoState := MkState {
  ds_revision : Z; ds_sessionId : option string; ds_asset : option DemoAsset; ds_status : DemoStatus;
  ds_activeStep : option (option DemoStep); ds_nextStep : option DemoStep; ds_completedSteps : list DemoStep;
  ds_snapshot : option DemoSnapshot; ds_transactions : list DemoTransaction; ds_error : option string;
}.
Record DemoFailure := MkFailure {
  fl_step : option (option DemoStep); fl_error : string; fl_snapshot : option DemoSnapshot; fl_lastKnownObservedAt : option Z;
}.
Record PublicReceipt := MkReceipt {
  rc_asset : DemoAsset; rc_sessionId : string; rc_transactions : list DemoTransaction;
  rc_checkpoints : list (option DemoStep * DemoSnapshot); rc_failure : option DemoFailure;
}.
(** What [persist] writes, without the time it was saved at. *)
Record Saved := MkSaved { sd_state : DemoState; sd_receipt : option PublicReceipt }.

#[global] Instance DemoState_eq_dec : EqDecision DemoState. Proof. solve_decision. Defined.
#[global] Instance DemoFailure_eq_dec : EqDecision DemoFailure. Proof. solve_decision. Defined.
#[global] Instance PublicReceipt_eq_dec : EqDecision PublicReceipt. Proof. solve_decision. Defined.
#[global] Instance Saved_eq_dec : EqDecision Saved. Proof. solve_decision. Defined.

(** [AmmConfigSnapshot]: the fee rates the swap is quoted with, and all else as one text. *)
Record AmmConfig := MkConfig { ac_fees : AmmFees; ac_rest : string }.
#[global] Instance AmmFees_eq_dec : EqDecision AmmFees. Proof. solve_decision. Defined.
#[global] Instance AmmConfig_eq_dec : EqDecision AmmConfig. Proof. solve_decision. Defined.

(** [this]; [persistenceTail] is the number of writes asked for, of those begun and of those settled. *)
Record Runtime := MkRuntime {
  rt_state : DemoState; rt_receipt : option PublicReceipt; rt_connection : bool; rt_signers : option RuntimeSigners;
  rt_known : option KnownAddresses; rt_pool : option PoolAddresses; rt_manifest : option string; rt_preflight : option AmmConfig;
  rt_swap : option SwapView; rt_surfnet : bool; rt_asked : nat; rt_begun : nat; rt_settled : nat;
}.

Definition first_state : DemoState := MkState 0 None None idle None None [] None [] None.
Definition first_runtime : Runtime := MkRuntime first_state None false None None None None None None false 0 0 0.

Definition set_state (st : DemoState) (g : Runtime) : Runtime :=
  MkRuntime st (rt_receipt g) (rt_connection g) (rt_signers g) (rt_known g) (rt_pool g) (rt_manifest g) (rt_preflight g)
    (rt_swap g) (rt_surfnet g) (rt_asked g) (rt_begun g) (rt_settled g).
Definition set_receipt (receipt : option PublicReceipt) (g : Runtime) : Runtime :=
  MkRuntime (rt_state g) receipt (rt_connection g) (rt_signers g) (rt_known g) (rt_pool g) (rt_manifest g) (rt_preflight g)
    (rt_swap g) (rt_surfnet g) (rt_asked g) (rt_begun g) (rt_settled g).
Definition set_tail (asked begun settled : nat) (g : Runtime) : Runtime :=
  MkRuntime (rt_state g) (rt_receipt g) (rt_connection g) (rt_signers g) (rt_known g) (rt_pool g) (rt_manifest g) (rt_preflight g)
    (rt_swap g) (rt_surfnet g) asked begun settled.
(** [stopSurfnet], and the fields of the session set to [null]. *)
Definition forget_session (g : Runtime) : Runtime :=
  MkRuntime (rt_state g) None false None None None None None None false (rt_asked g) (rt_begun g) (rt_settled g).
Definition set_signers (s : RuntimeSigners) (g : Runtime) : Runtime :=
  MkRuntime (rt_state g) (rt_receipt g) (rt_connection g) (Some s) (rt_known g) (rt_pool g) (rt_manifest g) (rt_preflight g)
    (rt_swap g) true (rt_asked g) (rt_begun g) (rt_settled g).
Definition set_connection (g : Runtime) : Runtime :=
  MkRuntime (rt_state g) (rt_receipt g) true (rt_signers g) (rt_known g) (rt_pool g) (rt_manifest g) (rt_preflight g)
    (rt_swap g) (rt_surfnet g) (rt_asked g) (rt_begun g) (rt_settled g).
Definition set_manifest (genesisHash : string) (g : Runtime) : Runtime :=
  MkRuntime (rt_state g) (rt_receipt g) (rt_connection g) (rt_signers g) (rt_known g) (rt_pool g) (Some genesisHash) (rt_preflight g)
    (rt_swap g) (rt_surfnet g) (rt_asked g) (rt_begun g) (rt_settled g).
Definition set_preflight (config : AmmConfig) (g : Runtime) : Runtime :=
  MkRuntime (rt_state g) (rt_receipt g) (rt_connection g) (rt_signers g) (rt_known g) (rt_pool g) (rt_manifest g) (Some config)
    (rt_swap g) (rt_surfnet g) (rt_asked g) (rt_begun g) (rt_settled g).
Definition set_known (known : KnownAddresses) (g : Runtime) : Runtime :=
  MkRuntime (rt_state g) (rt_receipt g) (rt_connection g) (rt_signers g) (Some known) (rt_pool g) (rt_manifest g) (rt_preflight g)
    (rt_swap g) (rt_surfnet g) (rt_asked g) (rt_begun g) (rt_settled g).
Definition set_pool (pool : PoolAddresses) (g : Runtime) : Runtime :=
  MkRuntime (rt_state g) (rt_receipt g) (rt_connection g) (rt_signers g) (rt_known g) (Some pool) (rt_manifest g) (rt_preflight g)
    (rt_swap g) (rt_surfnet g) (rt_asked g) (rt_begun g) (rt_settled g).
Definition set_swap (swap : SwapView) (g : Runtime) : Runtime :=
  MkRuntime (rt_state g) (rt_receipt g) (rt_connection g) (rt_signers g) (rt_known g) (rt_pool g) (rt_manifest g) (rt_preflight g)
    (Some swap) (rt_surfnet g) (rt_asked g) (rt_begun g) (rt_settled g).

(** ** Uninterrupted stretches *)

(** [persist] up to its first [await]: the value is captured and joins the queue of writes. *)
Definition capture (g : Runtime) : (nat * Saved) * Runtime :=
  ((rt_asked g, MkSaved (rt_state g) (rt_receipt g)), set_tail (S (rt_asked g)) (rt_begun g) (rt_settled g) g).

Definition next_revision (st : DemoState) : DemoState :=
  MkState (ds_revision st + 1) (ds_sessionId st) (ds_asset st) (ds_status st) (ds_activeStep st) (ds_nextStep st)
    (ds_completedSteps st) (ds_snapshot st) (ds_transactions st) (ds_error st).
(** [receipt.transactions = structuredClone(state.transactions)] *)
Definition copy_transactions (transactions : list DemoTransaction) (receipt : PublicReceipt) : PublicReceipt :=
  MkReceipt (rc_asset receipt) (rc_sessionId receipt) transactions (rc_checkpoints receipt) (rc_failure receipt).
Definition update (mutator : DemoState -> DemoState) (g : Runtime) : (nat * Saved) * Runtime :=
  let st := next_revision (mutator (rt_state g)) in
  capture (set_receipt (copy_transactions (ds_transactions st) <$> rt_receipt g) (set_state st g)).

Definition push_submitted (tx : DemoTransaction) (st : DemoState) : DemoState :=
  MkState (ds_revision st) (ds_sessionId st) (ds_asset st) (ds_status st) (ds_activeStep st) (ds_nextStep st)
    (ds_completedSteps st) (ds_snapshot st) (ds_transactions st ++ [tx]) (ds_error st).
Definition set_transactions (transactions : list DemoTransaction) (st : DemoState) : DemoState :=
  MkState (ds_revision st) (ds_sessionId st) (ds_asset st) (ds_status st) (ds_activeStep st) (ds_nextStep st)
    (ds_completedSteps st) (ds_snapshot st) transactions (ds_error st).

(** The last transaction of that signature and name, marked; [None] when there is none. *)
Definition is_submission (name signature : string) (tx : DemoTransaction) : bool :=
  bool_decide (dt_signature tx = signature) && bool_decide (dt_name tx = name).
Definition mark (slot : Z) (status : TransactionStatus) (tx : DemoTransaction) : DemoTransaction :=
  MkTransaction (dt_step tx) (dt_name tx) (dt_signature tx) status (Some slot).
Fixpoint mark_last (name signature : string) (slot : Z) (status : TransactionStatus) (l : list DemoTransaction)
    : option (list DemoTransaction) :=
  match l with
  | [] => None
  | tx :: rest =>
      match mark_last name signature slot status rest with
      | Some rest' => Some (tx :: rest')
      | None => if is_submission name signature tx then Some (mark slot status tx :: rest) else None
      end
  end.
(** [confirmed], whose mutator throws when the submission is not in the journal. *)
Definition mark_confirmed (name signature : string) (slot : Z) (status : TransactionStatus) (g : Runtime)
    : res (nat * Saved) * Runtime :=
  match mark_last name signature slot status (ds_transactions (rt_state g)) with
  | None => (Err (Thrown "SUBMISSION_JOURNAL_MISSING"), g)
  | Some transactions => let '(w, g') := update (set_transactions transactions) g in (Ok w, g')
  end.

Definition begin_session (sessionId : string) (asset : DemoAsset) (st : DemoState) : DemoState :=
  MkState (ds_revision st) (Some sessionId) (Some asset) preparing (Some None) None [] None [] None.
Definition begin_running (step : DemoStep) (st : DemoState) : DemoState :=
  MkState (ds_revision st) (ds_sessionId st) (ds_asset st) running (Some (Some step)) None
    (ds_completedSteps st) (ds_snapshot st) (ds_transactions st) None.

Section runtime.
Context (runtimeId : string).

(** [beginStart] up to the write of the new state; a new session gets a fresh id. *)
Definition start_session (expectedRuntimeId : js_string) (expectedRevision : Z) (assetId : js_string) (sessionId : string) (g : Runtime)
    : res (nat * Saved) * Runtime :=
  if negb (bool_decide (expectedRuntimeId = text runtimeId) && (expectedRevision =? ds_revision (rt_state g)))
  then (Err (HttpError 409 "stale runtime or revision"), g)
  else if negb (bool_decide (ds_status (rt_state g) ∈ [idle; complete; failed]))
  then (Err (HttpError 409 "a demo operation is already active"), g)
  else match find (fun asset => bool_decide (text (as_id asset) = assetId)) DEMO_ASSETS with
       | None => (Err (HttpError 400 "unsupported test stock profile"), g)
       | Some asset => let '(w, g') := update (begin_session sessionId asset) (forget_session g) in (Ok w, g')
       end.

(** [beginStep] up to the write of the new state. *)
Definition start_step (expectedRuntimeId sessionId : js_string) (expectedRevision : Z) (step : DemoStep) (g : Runtime)
    : res (nat * Saved) * Runtime :=
  let st := rt_state g in
  if negb (bool_decide (expectedRuntimeId = text runtimeId) && bool_decide (Some sessionId = text <$> ds_sessionId st)
           && (expectedRevision =? ds_revision st))
  then (Err (HttpError 409 "stale runtime, session, or revision"), g)
  else if negb (bool_decide (ds_status st = ready) && bool_decide (ds_nextStep st = Some step))
  then (Err (HttpError 409 "only the exact next step is accepted"), g)
  else let '(w, g') := update (begin_running step) g in (Ok w, g').

Definition push_checkpoint (checkpoint : option DemoStep * DemoSnapshot) (receipt : PublicReceipt) : PublicReceipt :=
  MkReceipt (rc_asset receipt) (rc_sessionId receipt) (rc_transactions receipt) (rc_checkpoints receipt ++ [checkpoint])
    (rc_failure receipt).
(** The ends of [runSetup] and of [runStep]; pushing to a receipt of [null] throws. *)
Definition be_ready (snapshot : DemoSnapshot) (st : DemoState) : DemoState :=
  MkState (ds_revision st) (ds_sessionId st) (ds_asset st) ready None (Some core_split) (ds_completedSteps st)
    (Some snapshot) (ds_transactions st) (ds_error st).
Definition complete_step (step : DemoStep) (snapshot : DemoSnapshot) (st : DemoState) : DemoState :=
  let completed := ds_completedSteps st ++ [step] in
  let next := DEMO_STEPS !! length completed in
  MkState (ds_revision st) (ds_sessionId st) (ds_asset st) (match next with Some _ => ready | None => complete end) None next
    completed (Some snapshot) (ds_transactions st) (ds_error st).
Definition finish (step : option DemoStep) (snapshot : DemoSnapshot) (g : Runtime) : res (nat * Saved) * Runtime :=
  match rt_receipt g with
  | None => (Err (Thrown "TypeError"), g)
  | Some receipt =>
      let g' := set_receipt (Some (push_checkpoint (step, snapshot) receipt)) g in
      let '(w, g'') := update (match step with None => be_ready snapshot | Some s => complete_step s snapshot end) g' in
      (Ok w, g'')
  end.

(** The last stretch of [fail]. *)
Definition be_failed (message : string) (observed : option DemoSnapshot) (st : DemoState) : DemoState :=
  MkState (ds_revision st) (ds_sessionId st) (ds_asset st) failed None None (ds_completedSteps st)
    (match observed with Some s => Some s | None => ds_snapshot st end) (ds_transactions st) (Some message).
Definition note_failure (failure : DemoFailure) (receipt : PublicReceipt) : PublicReceipt :=
  MkReceipt (rc_asset receipt) (rc_sessionId receipt) (rc_transactions receipt) (rc_checkpoints receipt) (Some failure).
Definition mark_failed (f : DemoFailure) (g : Runtime) : (nat * Saved) * Runtime :=
  update (be_failed (fl_error f) (fl_snapshot f)) (set_receipt (note_failure f <$> rt_receipt g) g).
End runtime.

(** ** Events *)

(** What a transaction asks of the chain, where the code computes it. *)
Inductive Instructions :=
  | SetUp | MintStock (raw : Z) | RefreshObservation (validUntil : Z)
  | Deposit (inputRaw : Z) (guard : Guard) | Recombine (amountRaw : Z) (guard : Guard)
  | Redeem (side : ClaimSideName) (amountRaw : Z) (guard : Guard)
  | UpdateMultiplier (bits effectiveTimestamp : Z) | RecordEvent (index : nat) (m0Bits m1Bits observedSlot : Z)
  | BeginFinalization (journalVersion : Z) (journalHash : bytes) | AccumulateEvent (index : nat) | CompleteFinalization
  | CreatePool (drRaw quoteRaw : Z) | AddLiquidity (drRaw : Z) | Swap (inputAmount minimumOut : Z) | Withdraw (lpRaw slippageBps : Z).

(** What Raydium says of the pool: whether its configuration is the expected
    one, whether creator fees are on, when it opens, whether mint A is the DR,
    and its reserves of mint A and of mint B. *)
Record PoolInfo := MkPoolInfo {
  pi_configMatches : bool; pi_enableCreatorFee : bool; pi_openTime : Z; pi_quoteIsA : bool; pi_baseReserve : Z; pi_quoteReserve : Z;
}.
Record SignatureStatus := MkStatus { ss_err : bool; ss_confirmation : option TransactionStatus; ss_slot : Z }.

Inductive job := SetupJob | StepJob (step : DemoStep).
Definition job_step (j : job) : option DemoStep := match j with SetupJob => None | StepJob step => Some step end.
#[global] Instance job_eq_dec : EqDecision job. Proof. solve_decision. Defined.

(** A view of the fields a session needs, as [requireSession] returns it. *)
Record Session := MkSession { se_signers : RuntimeSigners; se_known : KnownAddresses; se_genesisHash : string; se_pool : option PoolAddresses }.

Inductive event :=
  | StartSession (expectedRuntimeId : js_string) (expectedRevision : Z) (assetId : js_string)
  | StartStep (expectedRuntimeId sessionId : js_string) (expectedRevision : Z) (step : DemoStep)
  | Finish (step : option DemoStep) (snapshot : DemoSnapshot)
  | MarkFailed (j : job) (f : DemoFailure)
  | PushSubmitted (step : option DemoStep) (name signature : string)
  | MarkConfirmed (name signature : string) (slot : Z) (status : TransactionStatus)
  | Persist
  | AwaitTail (w : nat * Saved)                        (* the write [w]: its turn comes, *)
  | WriteState (w : nat * Saved)                       (* [writePrivateJson(STATE_PATH, value)], *)
  | WriteSession (sessionId : string) (w : nat * Saved)
  | SettleTail (w : nat * Saved)
  | Launch (j : job)
  | TakeJob (j : job)
  | ReadSession | ReadAsset | ReadSwap | ReadConnection | ReadPreflight | ReadSurfnet | ReadFailing
  | LoadCaptures | StartSurfnet | Connect | SetManifest (genesisHash : string) | SetPreflight (config : AmmConfig)
  | SetReceipt | SetKnown | FundQuote | VerifyEnvironment
  | SetPool | SetSwap (swap : SwapView)
  | ReadChain | FetchClock | FetchQuoteSnapshot (owner : option bool) | FetchMultiplier | FetchClaimAmount (side : ClaimSideName)
  | ReadTime | TimeTravel (ms : Z)
  | GetLatestBlockhash (name : string) | Simulate (name : string)
  | SendRaw (step : option DemoStep) (name : string) (transaction : Instructions)
  | ConfirmTransaction (signature : string) | GetStatus (signature : string)
  | LoadRaydium | BuildRaydium (transaction : Instructions) | FetchWalletTokens | GetPoolInfo
  (* the server: its queue of mutations, and what it answers with *)
  | JoinMutations | AwaitMutation (ticket : nat) | LeaveMutation
  | ReadPublicState | ReadPublicReceipt.

Definition answer (e : event) : Type :=
  match e with
  | StartSession _ _ _ | StartStep _ _ _ _ | Finish _ _ | MarkConfirmed _ _ _ _ => res (nat * Saved)
  | MarkFailed _ _ | PushSubmitted _ _ _ | Persist => nat * Saved
  | WriteState _ | WriteSession _ _ => res unit
  | ReadSession => res Session
  | ReadAsset => res DemoAsset
  | ReadSwap => option SwapView
  | ReadConnection | ReadSurfnet => bool
  | ReadPreflight => option AmmConfig
  | ReadFailing => option (option DemoStep) * option Z * bool
  | Connect => res string
  | VerifyEnvironment => res AmmConfig
  | ReadChain => res Reading
  | FetchClock => res ChainClock
  | FetchQuoteSnapshot _ => res CoherentQuoteSnapshot
  | FetchMultiplier | FetchClaimAmount _ => res Z
  | ReadTime => Z
  | GetLatestBlockhash _ => res unit
  | Simulate _ => res bool
  | SendRaw _ _ _ => res string
  | ConfirmTransaction _ => res bool
  | GetStatus _ => res (option SignatureStatus)
  | GetPoolInfo => res PoolInfo
  | LoadCaptures | StartSurfnet | SetKnown | FundQuote | SetPool | TimeTravel _ | LoadRaydium | FetchWalletTokens => res unit
  | BuildRaydium _ => res bool
  | SetReceipt => res unit
  | JoinMutations => nat
  | ReadPublicState => DemoState
  | ReadPublicReceipt => option PublicReceipt
  | _ => unit
  end.
Abbreviation rt := (call event answer failure).
Abbreviation ask e := (trigger_result (answer:=answer) (F:=failure) e (fun r => r)).
Abbreviation act e := (trigger (answer:=answer) (F:=failure) e).
Definition throw_unless (b : bool) (message : string) : rt unit := lift_result (assert_that b message).

(** ** Writing the state *)

(** The write of a captured value waits for those before it; the tail moves on
    whether or not it succeeds. *)
Definition write_values (w : nat * Saved) : rt unit :=
  ask (WriteState w) ;;
  match ds_sessionId (sd_state (snd w)) with
  | Some sessionId => if bool_decide (sessionId = "") then mret tt else ask (WriteSession sessionId w)
  | None => mret tt
  end.
Definition write (w : nat * Saved) : rt unit :=
  act (AwaitTail w) ;;
  written ← attempt (write_values w);
  act (SettleTail w) ;;
  lift_result written.

Definition persist : rt unit := w ← act Persist; write w.
Definition submitted_ (step : option DemoStep) (name signature : string) : rt unit :=
  w ← act (PushSubmitted step name signature); write w.
Definition confirmed_ (name signature : string) (slot : Z) (status : TransactionStatus) : rt unit :=
  w ← ask (MarkConfirmed name signature slot status); write w.

(** ** Sending *)

(** [simulateSendAndConfirm], whose [onSubmitted] is [submitted]: the slot and
    the status it confirms. *)
Definition simulateSendAndConfirm (step : option DemoStep) (name : string) (transaction : Instructions) (signers : nat)
    : rt (string * Z * TransactionStatus) :=
  throw_unless (negb (Nat.eqb signers 0)) "SIGNERS_REQUIRED" ;;
  ask (GetLatestBlockhash name) ;;
  simulation_err ← ask (Simulate name);
  throw_unless (negb simulation_err) "SIMULATION_FAILED" ;;
  signature ← ask (SendRaw step name transaction);
  submitted_ step name signature ;;
  confirmation_err ← ask (ConfirmTransaction signature);
  throw_unless (negb confirmation_err) "TRANSACTION_FAILED" ;;
  status ← ask (GetStatus signature);
  match status with
  | Some (MkStatus false (Some (confirmed as s)) slot) | Some (MkStatus false (Some (finalized as s)) slot) => mret (signature, slot, s)
  | _ => raise (Thrown "TRANSACTION_CONFIRMATION_INVALID")
  end.
(** [payer] and the other signers *)
Definition buildSimulateSend (step : option DemoStep) (name : string) (transaction : Instructions) (otherSigners : nat) :=
  simulateSendAndConfirm step name transaction (S otherSigners).

Definition send (step : option DemoStep) (name : string) (transaction : Instructions) (otherSigners : nat) : rt unit :=
  connected ← act ReadConnection;
  throw_unless connected "SESSION_UNAVAILABLE" ;;
  result ← buildSimulateSend step name transaction otherSigners;
  let '(signature, slot, status) := result in
  confirmed_ name signature slot status.
Definition sendRaydium (step : DemoStep) (name : string) (transaction : Instructions) (signers : nat) : rt unit :=
  ask ReadSession ;;
  result ← simulateSendAndConfirm (Some step) name transaction signers;
  let '(signature, slot, status) := result in
  confirmed_ name signature slot status.

(** ** Reading *)

Section programs.
Context (usdc : PublicKey) (swapBaseInput : Z -> Z -> Z -> Z -> Z -> Z -> Z -> bool -> CurveResult).

Definition coherentRead : rt (Session * Reading) :=
  session ← ask ReadSession;
  r ← ask ReadChain;
  asset ← ask ReadAsset;
  lift_result (check_reading usdc asset (se_signers session) (se_known session) (se_pool session) r) ;;
  mret (session, r).
Definition read_balances (requirePool : bool) : rt AssetBalances :=
  value ← coherentRead;
  lift_result (readAmmBalances (se_known (fst value)) requirePool (snd value)).
Definition take_snapshot : rt DemoSnapshot :=
  ask ReadSession ;;
  value ← coherentRead;
  asset ← ask ReadAsset;
  now ← act ReadTime;
  swap ← act ReadSwap;
  lift_result (snapshot_of asset (se_known (fst value)) (snd value) (se_genesisHash (fst value)) now swap).
Definition stock_units (units : Z) : rt Z := asset ← ask ReadAsset; mret (stockRaw asset units).

Definition now_of (q : CoherentQuoteSnapshot) : Z := unixTimestamp (qs_clock q).
(** A balance of the holder, which is read whenever a holder is asked for. *)
Definition present (v : option Z) : rt Z := match v with Some z => mret z | None => raise (Thrown "TypeError") end.
Definition need_pool (session : Session) : rt unit := throw_unless (bool_decide (is_Some (se_pool session))) "POOL_UNAVAILABLE".

(** ** Steps *)

Definition refreshObservation (step : option DemoStep) (label : string) : rt unit :=
  connected ← act ReadConnection;
  throw_unless connected "SESSION_UNAVAILABLE" ;;
  clock ← ask FetchClock;
  send step ("refresh_test_asset_observation_" +:+ label) (RefreshObservation (unixTimestamp clock + 7200)) 0.

Definition travelTo (timestampMs : Z) : rt unit :=
  surfnet ← act ReadSurfnet;
  throw_unless surfnet "SESSION_UNAVAILABLE" ;;
  ask ReadSession ;;
  current ← ask FetchClock;
  throw_unless (negb (timestampMs / 1000 <? unixTimestamp current)) "BACKWARD_TEST_CLOCK_FORBIDDEN" ;;
  ask (TimeTravel timestampMs).

Definition fundStock : rt unit :=
  ask ReadSession ;;
  before ← read_balances false;
  lift_result (check_unfunded before) ;;
  raw ← stock_units 100;
  send None "mint_100_selected_test_stock" (MintStock raw) 0 ;;
  after ← read_balances false;
  asset ← ask ReadAsset;
  lift_result (check_funded asset after).

(** The provider is the holder [true]. *)
Definition depositStock (step : DemoStep) (name : string) : rt unit :=
  ask ReadSession ;;
  q ← ask (FetchQuoteSnapshot (Some true));
  asset ← ask ReadAsset;
  owned ← present (qs_holderCollateralRaw q);
  quote ← lift_result (passes (quoteDeposit (qs_series q) (qs_policy q) (qs_vaultRaw q) (stockRaw asset 100) owned
                                (now_of q) (ck_slot (qs_clock q)) (now_of q + 300) None) "INVALID_QUOTE");
  send (Some step) name (Deposit (inputRaw quote) (dq_guard quote)) 0 ;;
  current ← read_balances false;
  lift_result (check_split asset current).

(** A deposit quoted after the cutoff must be refused as not eligible, and only so. *)
Definition post_cutoff_refused (q : CoherentQuoteSnapshot) (asset : DemoAsset) (owned : Z) : res unit :=
  assert_that (negb (now_of q <? Date_UTC 2027 0 1 ÷ 1000)) "DIVIDEND_CLOCK_BEFORE_CUTOFF" ;;
  assert_that ((0 <? stockRaw asset 1) && (stockRaw asset 1 <=? MAX_U64) && (0 <=? owned) && (owned <=? MAX_U64)) "INVALID_AMOUNT" ;;
  assert_that (stockRaw asset 1 <=? owned) "INVALID_QUOTE" ;;
  e ← passes (deriveEligibility (qs_series q) (qs_policy q) (qs_vaultRaw q) (now_of q) (ck_slot (qs_clock q))) "INVALID_SERIES";
  assert_that (negb (depositsOpen e)) "POST_CUTOFF_DEPOSIT_REOPENED".
Definition recombineStock (step : DemoStep) (units : Z) : rt unit :=
  ask ReadSession ;;
  before ← read_balances false;
  asset ← ask ReadAsset;
  q ← ask (FetchQuoteSnapshot (Some true));
  ownedPt ← present (qs_holderPtRaw q);
  ownedDr ← present (qs_holderDrRaw q);
  let amount := stockRaw asset units in
  quote ← lift_result (passes (quoteRecombine (qs_series q) (qs_vaultRaw q) amount ownedPt ownedDr (now_of q) (now_of q + 300) None) "INVALID_QUOTE");
  send (Some step) (if bool_decide (step = dividend_recombine) then "recombine_40_pt_dr_after_two_dividends"
                    else if units =? 40 then "recombine_40_pt_dr" else "recombine_remaining_60_pt_dr")
    (Recombine amount (rq_guard quote)) 0 ;;
  after ← read_balances false;
  lift_result (check_recombined asset units before after) ;;
  if bool_decide (step = dividend_recombine) then
    observed ← take_snapshot;
    lift_result (check_dividend_checkpoint observed) ;;
    postCutoff ← ask (FetchQuoteSnapshot (Some true));
    owned ← present (qs_holderCollateralRaw postCutoff);
    lift_result (post_cutoff_refused postCutoff asset owned)
  else mret tt.

Definition createPool : rt unit :=
  ask ReadSession ;;
  config ← ask VerifyEnvironment;
  preflight ← act ReadPreflight;
  throw_unless (bool_decide (preflight = Some config)) "RAYDIUM_CONFIG_CHANGED" ;;
  ask LoadRaydium ;;
  seed ← stock_units POOL_SEED_DR_UNITS;
  ask (BuildRaydium (CreatePool seed seedQuoteRaw)) ;;
  sendRaydium create_pool "create_cpmm_pool" (CreatePool seed seedQuoteRaw) 1 ;;
  ask FetchWalletTokens ;;
  info ← ask GetPoolInfo;
  throw_unless (pi_configMatches info && negb (pi_enableCreatorFee info)) "POOL_IDENTITY_MISMATCH" ;;
  ask SetPool ;;
  clock ← ask FetchClock;
  (if unixTimestamp clock <=? pi_openTime info then travelTo ((pi_openTime info + 1) * 1000) else mret tt) ;;
  balances ← read_balances true;
  asset ← ask ReadAsset;
  lift_result (check_seeded asset balances).

Definition addLiquidity : rt unit :=
  session ← ask ReadSession;
  need_pool session ;;
  before ← read_balances true;
  ask LoadRaydium ;;
  ask GetPoolInfo ;;
  raw ← stock_units POOL_ADD_DR_UNITS;
  ask (BuildRaydium (AddLiquidity raw)) ;;
  sendRaydium add_liquidity "add_cpmm_liquidity" (AddLiquidity raw) 1 ;;
  ask FetchWalletTokens ;;
  ask GetPoolInfo ;;
  after ← read_balances true;
  asset ← ask ReadAsset;
  lift_result (check_added asset before after).

Definition buyDr : rt unit :=
  session ← ask ReadSession;
  need_pool session ;;
  before ← read_balances true;
  ask LoadRaydium ;;
  info ← ask GetPoolInfo;
  let inputReserve := if pi_quoteIsA info then pi_baseReserve info else pi_quoteReserve info in
  let outputReserve := if pi_quoteIsA info then pi_quoteReserve info else pi_baseReserve info in
  config ← ask VerifyEnvironment;
  quote ← lift_result (passes (quoteCreatorDisabledSwap swapBaseInput buyerQuoteRaw inputReserve outputReserve (ac_fees config)
                                (pi_enableCreatorFee info) flow_slippageBps) "SWAP_QUOTE_INVALID");
  ask LoadRaydium ;;
  bounded ← ask (BuildRaydium (Swap buyerQuoteRaw (sw_minimumOutput quote)));
  throw_unless bounded "SWAP_INSTRUCTION_BOUNDS_MISMATCH" ;;
  sendRaydium buy_dr "buyer_swap_quote_for_dr" (Swap buyerQuoteRaw (sw_minimumOutput quote)) 1 ;;
  after ← read_balances true;
  lift_result (passes (assertSwapDelta before after (Expect buyerQuoteRaw (sw_outputAmount quote) (sw_minimumOutput quote)
                        (sw_protocolFee quote) (sw_fundFee quote))) "SWAP_DELTA_FAILED") ;;
  act (SetSwap (MkSwapView buyerQuoteRaw (sw_outputAmount quote) (sw_minimumOutput quote))) ;;
  throw_unless (0 <? dr_buyer (dr after)) "BUYER_DR_MISSING".

Definition removeLiquidity : rt unit :=
  session ← ask ReadSession;
  need_pool session ;;
  before ← read_balances true;
  ask LoadRaydium ;;
  ask FetchWalletTokens ;;
  ask GetPoolInfo ;;
  ask (BuildRaydium (Withdraw (lp_provider (lp before)) flow_slippageBps)) ;;
  sendRaydium remove_liquidity "withdraw_all_provider_lp" (Withdraw (lp_provider (lp before)) flow_slippageBps) 1 ;;
  after ← read_balances true;
  lift_result (check_removed before after).

Definition recombineRest : rt unit :=
  ask ReadSession ;;
  before ← read_balances true;
  let amount := recombined_amount before in
  q ← ask (FetchQuoteSnapshot (Some true));
  ownedPt ← present (qs_holderPtRaw q);
  ownedDr ← present (qs_holderDrRaw q);
  quote ← lift_result (passes (quoteRecombine (qs_series q) (qs_vaultRaw q) amount ownedPt ownedDr (now_of q) (now_of q + 300) None) "INVALID_QUOTE");
  send (Some recombine) "recombine_recovered_dr_with_pt" (Recombine amount (rq_guard quote)) 0 ;;
  after ← read_balances true;
  lift_result (check_recombined_rest before after).

Definition digit (n : nat) : string := unchars (toString (Z.of_nat n)).
(** [this.pool !== null] *)
Definition with_pool (session : Session) : bool := bool_decide (is_Some (se_pool session)).
Definition recordQuarter (index : nat) (step : DemoStep) : rt unit :=
  session ← ask ReadSession;
  before ← read_balances (with_pool session);
  travelTo (quarter_effectiveMs index + 1000) ;;
  activeBits ← ask FetchMultiplier;
  (if activeBits =? quarter_bits index then mret tt
   else
     throw_unless (activeBits =? quarter_m0Bits index) "TEST_MULTIPLIER_SEQUENCE_INVALID" ;;
     send (Some step) ("update_test_multiplier_q" +:+ digit (S index))
       (UpdateMultiplier (quarter_bits index) (quarter_effectiveMs index ÷ 1000)) 0) ;;
  refreshObservation (Some step) ("quarter-" +:+ digit (S index)) ;;
  clock ← ask FetchClock;
  send (Some step) ("record_synthetic_dividend_q" +:+ digit (S index))
    (RecordEvent index (quarter_m0Bits index) (quarter_bits index) (ck_slot clock)) 0 ;;
  after ← read_balances (with_pool session);
  lift_result (same_balances before after) ;;
  asset ← ask ReadAsset;
  lift_result (check_early_quarter asset index after) ;;
  observed ← take_snapshot;
  lift_result (check_quarter index observed).

Fixpoint accumulate_quarters (index count : nat) : rt unit :=
  match count with
  | O => mret tt
  | S count' =>
      send (Some settle_year) ("accumulate_synthetic_dividend_q" +:+ digit (S index)) (AccumulateEvent index) 0 ;;
      accumulate_quarters (S index) count'
  end.
Definition settleYear : rt unit :=
  ask ReadSession ;;
  before ← take_snapshot;
  lift_result (check_early_dividends before) ;;
  recordQuarter 2 settle_year ;;
  recordQuarter 3 settle_year ;;
  travelTo END_YEAR_MS ;;
  refreshObservation (Some settle_year) "end-year" ;;
  q ← ask (FetchQuoteSnapshot None);
  lift_result (check_journal q) ;;
  send (Some settle_year) "begin_annual_finalization"
    (BeginFinalization (journalVersion (qs_series q)) (journalHash (qs_series q))) 0 ;;
  accumulate_quarters 0 (length QUARTERS) ;;
  ask (FetchQuoteSnapshot None) ;;
  send (Some settle_year) "complete_annual_finalization" CompleteFinalization 0 ;;
  final ← ask (FetchQuoteSnapshot None);
  lift_result (check_finalized final).

Definition assertFinalResidual : rt unit :=
  ask ReadSession ;;
  q ← ask (FetchQuoteSnapshot None);
  balances ← read_balances true;
  lift_result (check_residual q balances).
(** The buyer redeems DR, the provider ([true]) PT. *)
Definition redeem (provider : bool) : rt unit :=
  let side := if provider then TxBytes.pt else TxBytes.dr in
  ask ReadSession ;;
  q ← ask (FetchQuoteSnapshot (Some provider));
  amount ← ask (FetchClaimAmount side);
  throw_unless (0 <? amount) "REDEMPTION_CLAIM_MISSING" ;;
  quote ← lift_result (passes (quoteRedemption (qs_series q) (qs_vaultRaw q) side amount amount false (now_of q) (now_of q + 300) None) "INVALID_QUOTE");
  send (Some (if provider then redeem_provider else redeem_buyer))
    (if provider then "provider_redeem_remaining_pt" else "buyer_redeem_purchased_dr") (Redeem side amount (xq_guard quote)) 0 ;;
  if provider then assertFinalResidual else mret tt.

Definition step_body (step : DemoStep) : rt unit :=
  match step with
  | core_split => depositStock core_split "split_100_test_stock"
  | core_recombine_partial => recombineStock core_recombine_partial 40
  | core_recombine_rest => recombineStock core_recombine_rest 60
  | dividend_split => depositStock dividend_split "split_100_test_stock_for_dividend"
  | dividend_quarter_one => recordQuarter 0 dividend_quarter_one
  | dividend_quarter_two => recordQuarter 1 dividend_quarter_two
  | dividend_recombine => recombineStock dividend_recombine 40
  | create_pool => createPool
  | add_liquidity => addLiquidity
  | buy_dr => buyDr
  | remove_liquidity => removeLiquidity
  | recombine => recombineRest
  | settle_year => settleYear
  | redeem_buyer => redeem false
  | redeem_provider => redeem true
  end.

(** A checkpoint is taken only of verified backing. *)
Definition conclude (step : option DemoStep) : rt unit :=
  snapshot ← take_snapshot;
  throw_unless (sn_backingVerified snapshot) "BACKING_VERIFICATION_FAILED" ;;
  w ← ask (Finish step snapshot);
  write w.
Definition runStep (step : DemoStep) : rt unit := step_body step ;; conclude (Some step).

Definition PUBLIC_CLUSTER_GENESIS_HASHES : list string :=
  ["5eykt4UsFv8P8NJdTREpY1vzqKqZKvdpKuc147dw2N9d"; "EtWTRABZaYq6iMfeYKouRu166VU2xqa1wcaWoxPkrZBG";
   "4uhcVJyU9pJkvQyS88uRDiswHXSCkY3zQawwpjk2NsNY"].
Definition runSetup : rt unit :=
  ask LoadCaptures ;;
  ask StartSurfnet ;;
  genesisHash ← ask Connect;
  throw_unless (negb (bool_decide (genesisHash ∈ PUBLIC_CLUSTER_GENESIS_HASHES))) "LOCAL_USDC_FUNDING_REQUIRES_NON_PUBLIC_GENESIS" ;;
  ask FundQuote ;;
  act (SetManifest genesisHash) ;;
  config ← ask VerifyEnvironment;
  act (SetPreflight config) ;;
  ask SetReceipt ;;
  persist ;;
  send None "initialize_dividendx_config" SetUp 0 ;;
  send None "fund_test_participants" SetUp 0 ;;
  send None "create_test_collateral_mint" SetUp 1 ;;
  ask ReadAsset ;;
  send None "register_test_asset" SetUp 0 ;;
  refreshObservation None "setup" ;;
  send None "create_2027_series" SetUp 0 ;;
  ask SetKnown ;;
  send None "create_provider_token_accounts" SetUp 0 ;;
  send None "create_buyer_token_accounts" SetUp 0 ;;
  fundStock ;;
  conclude None.

Definition fail (j : job) (e : failure) : rt unit :=
  let message := match e with HttpError _ message | Thrown message => message end in
  failing ← act ReadFailing;
  let '(failedStep, lastKnownObservedAt, readable) := failing in
  observed ← (if (readable : bool) then attempt take_snapshot else mret (Err (Thrown "unobserved")));
  w ← act (MarkFailed j (MkFailure failedStep (String.substring 0 500 message)
                        (match observed with Ok snapshot => Some snapshot | Err _ => None end) lastKnownObservedAt));
  attempt (write w) ;;
  mret tt.

(** [void this.run...(...).catch((error) => this.fail(error))] *)
Definition job_body (j : job) : rt unit :=
  act (TakeJob j) ;;
  done ← attempt (match j with SetupJob => runSetup | StepJob step => runStep step end);
  match done with Ok _ => mret tt | Err e => fail j e end.

Definition beginStart (expectedRuntimeId : js_string) (expectedRevision : Z) (assetId : js_string) : rt unit :=
  w ← ask (StartSession expectedRuntimeId expectedRevision assetId);
  write w ;;
  act (Launch SetupJob).
Definition beginStep (expectedRuntimeId sessionId : js_string) (expectedRevision : Z) (step : DemoStep) : rt unit :=
  w ← ask (StartStep expectedRuntimeId sessionId expectedRevision step);
  write w ;;
  act (Launch (StepJob step)).
End programs.

(** ** What an event does *)

(** What the world keeps a record of: accepted requests with the revision they
    expected, ends of jobs, transactions sent, and values captured and written. *)
Inductive entry :=
  | Accepted (j : job) (revision : Z)
  | Concluded (step : option DemoStep)
  | ConcludedFailed (j : job)
  | Captured (value : Saved)
  | Sent (step : option DemoStep) (name : string) (transaction : Instructions)
  | Wrote (ticket : nat) (value : Saved)
  | WriteFailed (ticket : nat).
(** The server's queue of mutations: those that joined, and those that left. *)
Record World := MkWorld {
  w_rt : Runtime; w_file : option Saved; w_sessions : gmap string Saved; w_pending : list job;
  w_joined : nat; w_left : nat; w_log : list entry;
}.
Definition first_world : World := MkWorld first_runtime None ∅ [] 0 0 [].
Definition become (g : Runtime) (w : World) : World := MkWorld g (w_file w) (w_sessions w) (w_pending w) (w_joined w) (w_left w) (w_log w).
Definition noted (l : list entry) (w : World) : World :=
  MkWorld (w_rt w) (w_file w) (w_sessions w) (w_pending w) (w_joined w) (w_left w) (w_log w ++ l).
Definition set_pending (l : list job) (w : World) : World :=
  MkWorld (w_rt w) (w_file w) (w_sessions w) l (w_joined w) (w_left w) (w_log w).
Definition set_queue (joined left_queue : nat) (w : World) : World :=
  MkWorld (w_rt w) (w_file w) (w_sessions w) (w_pending w) joined left_queue (w_log w).
Definition wrote (ticket : nat) (value : Saved) (w : World) : World :=
  MkWorld (w_rt w) (Some value) (w_sessions w) (w_pending w) (w_joined w) (w_left w) (w_log w ++ [Wrote ticket value]).
Definition wrote_session (sessionId : string) (value : Saved) (w : World) : World :=
  MkWorld (w_rt w) (w_file w) (<[sessionId := value]> (w_sessions w)) (w_pending w) (w_joined w) (w_left w) (w_log w).

Definition requireSession (g : Runtime) : res Session :=
  match rt_connection g, rt_signers g, rt_known g, rt_manifest g, rt_receipt g with
  | true, Some signers, Some known, Some genesisHash, Some _ => Ok (MkSession signers known genesisHash (rt_pool g))
  | _, _, _, _, _ => Err (Thrown "SESSION_UNAVAILABLE")
  end.
Definition asset_of (g : Runtime) : res DemoAsset :=
  match ds_asset (rt_state g) with Some asset => Ok asset | None => Err (Thrown "ASSET_UNAVAILABLE") end.
Definition new_receipt (g : Runtime) : res unit * Runtime :=
  match asset_of g with
  | Ok asset => (Ok tt, set_receipt (Some (MkReceipt asset (default "" (ds_sessionId (rt_state g))) [] [] None)) g)
  | Err e => (Err e, g)
  end.

(** A value captured for a write. *)
Definition capturing (x : res (nat * Saved)) : list entry := match x with Ok (_, value) => [Captured value] | Err _ => [] end.

Section world.
Context (runtimeId : string) (writes_fail : bool).

(** An assignment that follows a call which may throw. *)
Definition assigned (x : res unit) (w w' : World) (sets : Runtime -> Prop) : Prop :=
  if is_ok x then exists g, sets g /\ w' = become g w else w' = w.

Definition guided_step (i : nat) (e : event) (w : World) : answer e -> World -> Prop :=
  let g := w_rt w in
  match e return answer e -> World -> Prop with
  | StartSession rid revision assetId => fun x w' => exists sessionId,
      let r := start_session runtimeId rid revision assetId sessionId g in
      x = fst r /\ w' = noted ((if is_ok (fst r) then [Accepted SetupJob revision] else []) ++ capturing (fst r)) (become (snd r) w)
  | StartStep rid sessionId revision step => fun x w' =>
      let r := start_step runtimeId rid sessionId revision step g in
      x = fst r /\ w' = noted ((if is_ok (fst r) then [Accepted (StepJob step) revision] else []) ++ capturing (fst r)) (become (snd r) w)
  | Finish step snapshot => fun x w' =>
      let r := finish step snapshot g in
      x = fst r /\ w' = noted ((if is_ok (fst r) then [Concluded step] else []) ++ capturing (fst r)) (become (snd r) w)
  | MarkFailed j f => fun x w' =>
      x = fst (mark_failed f g) /\ w' = noted [ConcludedFailed j; Captured (snd (fst (mark_failed f g)))] (become (snd (mark_failed f g)) w)
  | PushSubmitted step name signature => fun x w' =>
      let r := update (push_submitted (MkTransaction step name signature submitted None)) g in
      x = fst r /\ w' = noted [Captured (snd (fst r))] (become (snd r) w)
  | MarkConfirmed name signature slot status => fun x w' =>
      let r := mark_confirmed name signature slot status g in x = fst r /\ w' = noted (capturing (fst r)) (become (snd r) w)
  | Persist => fun x w' => x = fst (capture g) /\ w' = noted [Captured (snd (fst (capture g)))] (become (snd (capture g)) w)
  | AwaitTail (ticket, _) => fun _ w' =>
      rt_begun g = ticket /\ rt_settled g = ticket /\ w' = become (set_tail (rt_asked g) (S (rt_begun g)) (rt_settled g) g) w
  | WriteState (ticket, value) => fun x w' =>
      x = Ok tt /\ w' = wrote ticket value w \/ writes_fail = true /\ is_ok x = false /\ w' = noted [WriteFailed ticket] w
  | WriteSession sessionId (_, value) => fun x w' =>
      x = Ok tt /\ w' = wrote_session sessionId value w \/ writes_fail = true /\ is_ok x = false /\ w' = w
  | SettleTail _ => fun _ w' => w' = become (set_tail (rt_asked g) (rt_begun g) (S (rt_settled g)) g) w
  | Launch j => fun _ w' => w' = set_pending (w_pending w ++ [j]) w
  | TakeJob j => fun _ w' => exists before after, w_pending w = before ++ j :: after /\ w' = set_pending (before ++ after) w
  | ReadSession => fun x w' => x = requireSession g /\ w' = w
  | ReadAsset => fun x w' => x = asset_of g /\ w' = w
  | ReadSwap => fun x w' => x = rt_swap g /\ w' = w
  | ReadConnection => fun x w' => x = rt_connection g /\ w' = w
  | ReadPreflight => fun x w' => x = rt_preflight g /\ w' = w
  | ReadSurfnet => fun x w' => x = rt_surfnet g /\ w' = w
  | ReadFailing => fun x w' => w' = w /\
      x = (ds_activeStep (rt_state g), sn_observedAt <$> ds_snapshot (rt_state g), bool_decide (is_Some (rt_known g)) && rt_connection g)
  | StartSurfnet => fun x w' => assigned x w w' (fun g' => exists signers, g' = set_signers signers g)
  | Connect => fun x w' => w' = if is_ok x then become (set_connection g) w else w
  | SetManifest genesisHash => fun _ w' => w' = become (set_manifest genesisHash g) w
  | SetPreflight config => fun _ w' => w' = become (set_preflight config g) w
  | SetReceipt => fun x w' => x = fst (new_receipt g) /\ w' = become (snd (new_receipt g)) w
  | SetKnown => fun x w' => assigned x w w' (fun g' => exists known, g' = set_known known g)
  | SetPool => fun x w' => assigned x w w' (fun g' => exists pool, g' = set_pool pool g)
  | SetSwap swap => fun _ w' => w' = become (set_swap swap g) w
  | SendRaw step name transaction => fun _ w' => w' = noted [Sent step name transaction] w
  | JoinMutations => fun x w' => x = w_joined w /\ w' = set_queue (S (w_joined w)) (w_left w) w
  | AwaitMutation ticket => fun _ w' => w_left w = ticket /\ w' = w
  | LeaveMutation => fun _ w' => w' = set_queue (w_joined w) (S (w_left w)) w
  | ReadPublicState => fun x w' => x = rt_state g /\ w' = w
  | ReadPublicReceipt => fun x w' => x = rt_receipt g /\ w' = w
  | _ => fun _ w' => w' = w
  end.
End world.
