(* ===== verification/GuidedServer.v ===== *)
(** * Guided runtime: its local server

    [packages/guided-runtime/src/server.ts]: which requests reach the runtime,
    the queue in which its mutations wait for one another, and what is
    answered.  Headers of responses and the texts of errors are left out. *)
From S2P Require Import Prelude Js Utf8 Json Gateway TxBytes GuidedDemo Programs GuidedRuntime.
Open Scope Z_scope.

Definition PORT : Z := 4181.
Definition ORIGINS : list string :=
  ["http://127.0.0.1:4174"; "http://localhost:4174"; "http://127.0.0.1:4184"; "http://localhost:4184"].
Definition SERVER_MAX_BODY_BYTES : Z := 2048.

(** A request: its headers, the path [new URL] finds ([None] when it throws),
    and its body, as the sizes of its chunks and as JSON, [None] when it does
    not parse. *)
Record HttpRequest := MkRequest {
  hq_method : string; hq_host : string; hq_origin : option string; hq_path : option string; hq_contentType : string;
  hq_demoHeader : option string; hq_chunks : list Z; hq_ended : bool; hq_json : option json;
}.
Inductive body_of_response := NoBody | StateBody (st : DemoState) | ReceiptBody (receipt : PublicReceipt) | ErrorBody.
Record HttpResponse := MkResponse { hr_status : Z; hr_body : body_of_response; hr_allowedOrigin : option string }.

Definition http (b : bool) (status : Z) : GuidedDemo.res unit := require b (HttpError status "").

Definition allowed_origin (origin : option string) : bool :=
  match origin with Some o => bool_decide (o ∈ ORIGINS) | None => false end.

(** [body], then the check that it is an object. *)
Definition json_type (contentType : string) : bool :=
  let l := lower <$> chars contentType in
  bool_decide (take 16 l = chars "application/json")
  && match drop 16 l with [] => true | c :: _ => bool_decide (c = ";"%char) end.
Definition read_body (rq : HttpRequest) : GuidedDemo.res (list (js_string * json)) :=
  http (json_type (hq_contentType rq)) 415 ;;
  http (negb (overflows SERVER_MAX_BODY_BYTES 0 (hq_chunks rq))) 413 ;;
  assert_that (hq_ended rq) "aborted" ;;
  match hq_json rq with Some (JObj fields) => Ok fields | _ => Err (HttpError 400 "") end.
Definition exactKeys (fields : list (js_string * json)) (expected : list string) : GuidedDemo.res unit :=
  http (bool_decide (js_sort fields.*1 = js_sort (text <$> expected))) 400.

Definition mutationHeaders (rq : HttpRequest) : GuidedDemo.res unit :=
  http (allowed_origin (hq_origin rq)) 403 ;;
  http (bool_decide (hq_demoHeader rq = Some "1")) 403.

(** [Number.isSafeInteger(value) && Number(value) >= 0] *)
Definition revision_of (v : option json) : option Z :=
  match v with Some (JNum (Int z)) => if isSafeInteger z && (0 <=? z) then Some z else None | _ => None end.
Definition text_of (v : option json) : option js_string := match v with Some (JStr s) => Some s | _ => None end.

Definition step_name (step : DemoStep) : string :=
  match step with
  | core_split => "core-split" | core_recombine_partial => "core-recombine-partial" | core_recombine_rest => "core-recombine-rest"
  | dividend_split => "dividend-split" | dividend_quarter_one => "dividend-quarter-one"
  | dividend_quarter_two => "dividend-quarter-two" | dividend_recombine => "dividend-recombine"
  | create_pool => "create-pool" | add_liquidity => "add-liquidity" | buy_dr => "buy-dr" | remove_liquidity => "remove-liquidity"
  | recombine => "recombine" | settle_year => "settle-year" | redeem_buyer => "redeem-buyer" | redeem_provider => "redeem-provider"
  end.
Definition step_of (s : js_string) : option DemoStep := find (fun step => bool_decide (text (step_name step) = s)) DEMO_STEPS.

Definition parse_start (fields : list (js_string * json)) : GuidedDemo.res (js_string * Z * js_string) :=
  exactKeys fields ["runtimeId"; "expectedRevision"; "assetId"] ;;
  match text_of (Json.prop fields "runtimeId"), revision_of (Json.prop fields "expectedRevision"), text_of (Json.prop fields "assetId") with
  | Some runtimeId, Some revision, Some assetId =>
      http (existsb (fun asset => bool_decide (text (as_id asset) = assetId)) DEMO_ASSETS) 400 ;;
      Ok (runtimeId, revision, assetId)
  | _, _, _ => Err (HttpError 400 "")
  end.
Definition parse_step (fields : list (js_string * json)) : GuidedDemo.res (js_string * js_string * Z * DemoStep) :=
  exactKeys fields ["runtimeId"; "sessionId"; "expectedRevision"; "step"] ;;
  match text_of (Json.prop fields "runtimeId"), text_of (Json.prop fields "sessionId"), revision_of (Json.prop fields "expectedRevision"),
        text_of (Json.prop fields "step") ≫= step_of with
  | Some runtimeId, Some sessionId, Some revision, Some step => Ok (runtimeId, sessionId, revision, step)
  | _, _, _, _ => Err (HttpError 400 "")
  end.

(** [serialize]: an operation starts when those before it have settled. *)
Definition serialize {A} (operation : rt A) : rt A :=
  ticket ← act JoinMutations;
  act (AwaitMutation ticket) ;;
  result ← attempt operation;
  act LeaveMutation ;;
  lift_result result.

Definition respond_state (rq : HttpRequest) (status : Z) : rt HttpResponse :=
  st ← act ReadPublicState; mret (MkResponse status (StateBody st) (hq_origin rq)).

Section server.
(** The server's own port. *)
Context (port : Z).
Definition allowedHosts : list string :=
  let digits := unchars (toString port) in ["127.0.0.1:" +:+ digits; "localhost:" +:+ digits].

Definition answer_request (rq : HttpRequest) : rt HttpResponse :=
  lift_result (http (bool_decide (hq_host rq ∈ allowedHosts)) 403) ;;
  lift_result (http (match hq_origin rq with Some o => bool_decide (o = "") || bool_decide (o ∈ ORIGINS) | None => true end) 403) ;;
  match hq_path rq with
  | None => raise (Thrown "TypeError")
  | Some path =>
      if bool_decide (hq_method rq = "OPTIONS") then
        lift_result (http (allowed_origin (hq_origin rq)) 403) ;;
        mret (MkResponse 204 NoBody (hq_origin rq))
      else if bool_decide (hq_method rq = "GET") && bool_decide (path = "/state") then respond_state rq 200
      else if bool_decide (hq_method rq = "GET") && bool_decide (path = "/receipt") then
        receipt ← act ReadPublicReceipt;
        match receipt with
        | Some r => mret (MkResponse 200 (ReceiptBody r) (hq_origin rq))
        | None => raise (HttpError 404 "")
        end
      else if bool_decide (hq_method rq = "POST") && bool_decide (path = "/start") then
        lift_result (mutationHeaders rq) ;;
        fields ← lift_result (read_body rq);
        request ← lift_result (parse_start fields);
        let '(runtimeId, revision, assetId) := request in
        serialize (beginStart runtimeId revision assetId) ;;
        respond_state rq 202
      else if bool_decide (hq_method rq = "POST") && bool_decide (path = "/step") then
        lift_result (mutationHeaders rq) ;;
        fields ← lift_result (read_body rq);
        request ← lift_result (parse_step fields);
        let '(runtimeId, sessionId, revision, step) := request in
        serialize (beginStep runtimeId sessionId revision step) ;;
        respond_state rq 202
      else raise (HttpError 404 "")
  end.
Definition handle_request (rq : HttpRequest) : prog event answer HttpResponse :=
  bind (answer_request rq) (fun r =>
    match r with
    | Ok response => Pure response
    | Err e => Pure (MkResponse (match e with HttpError status _ => status | Thrown _ => 500 end) ErrorBody
                       (if allowed_origin (hq_origin rq) then hq_origin rq else None))
    end).
End server.
