(* ===== verification/GuidedWork.v ===== *)
(** * Guided runtime: what its programs have in common

    Whatever is counted along a run, the programs of the steps only read,
    send, and write what they capture; a way of counting ([Account]) says what
    these cost, and the bodies of all steps keep their credit under it. *)
From S2P Require Import Prelude Programs Credits TxQuotes AmmAccounting GuidedDemo GuidedRuntime GuidedServer.
Open Scope Z_scope.

(** Events that no way of counting charges. *)
Definition plain (e : event) : bool :=
  match e with
  | StartSession _ _ _ | StartStep _ _ _ _ | Finish _ _ | MarkFailed _ _ | PushSubmitted _ _ _ | MarkConfirmed _ _ _ _ | Persist
  | AwaitTail _ | WriteState _ | WriteSession _ _ | SettleTail _ | Launch _ | TakeJob _ | SetReceipt | SendRaw _ _ _ => false
  | _ => true
  end.

(** A way of counting: which events are allowed, which answers are expected,
    what is earned and spent, and what a program of a step has to hold. *)
Class Account := {
  pay_allowed : event -> Prop; pay_sane : forall e, answer e -> Prop;
  pay_earn : forall e, answer e -> Z; pay_spend : event -> Z;
  pay_floor : option DemoStep -> Z;
  floor_nonneg step : 0 <= pay_floor step;
  plain_event e : plain e = true -> pay_allowed e /\ pay_spend e = 0 /\ forall x, pay_earn e x = 0;
  send_event step name transaction : pay_allowed (SendRaw step name transaction) /\
    0 <= pay_spend (SendRaw step name transaction) <= pay_floor step /\
    forall x, pay_earn (SendRaw step name transaction) x = pay_spend (SendRaw step name transaction);
  receipt_event : pay_allowed SetReceipt /\ 0 <= pay_spend SetReceipt <= pay_floor None /\
    forall x, pay_earn SetReceipt x = pay_spend SetReceipt;
  submitted_keeps c step name signature : 0 <= c ->
    obeys pay_allowed pay_sane pay_earn pay_spend c (submitted_ step name signature) (fun _ d => d = c);
  confirmed_keeps c name signature slot status : 0 <= c ->
    obeys pay_allowed pay_sane pay_earn pay_spend c (confirmed_ name signature slot status) (fun _ d => d = c);
  persist_keeps c : 0 <= c -> obeys pay_allowed pay_sane pay_earn pay_spend c persist (fun _ d => d = c);
}.

Section work.
Context {account : Account} (usdc : PublicKey) (swapBaseInput : Z -> Z -> Z -> Z -> Z -> Z -> Z -> bool -> CurveResult).
Abbreviation Obeys := (obeys pay_allowed pay_sane pay_earn pay_spend).
Abbreviation Keeps c m := (Obeys c%Z m (fun _ d => d = c%Z)).

(** [m] needs what a program of [step] has to hold, and keeps it. *)
Definition works {A} (step : option DemoStep) (m : rt A) : Prop := forall c, pay_floor step <= c -> Keeps c m.

Lemma works_keeps {A} step c (m : rt A) : works step m -> pay_floor step <= c -> Keeps c m.
Proof. intros Hm Hc. by apply Hm. Qed.
Lemma plain_keeps {A} e (f : answer e -> res A) c : plain e = true -> 0 <= c -> Keeps c (trigger_result e f).
Proof. intros He Hc. destruct (plain_event e He) as (Ha & Hs & Hx). apply credit_event; [done|lia|]. intros x. by rewrite Hs, Hx. Qed.
Lemma plain_trigger e c : plain e = true -> 0 <= c -> Keeps c (act e).
Proof. apply (plain_keeps e Ok). Qed.
Lemma send_keeps step name transaction c : pay_floor step <= c -> Keeps c (ask (SendRaw step name transaction)).
Proof. intros Hc. destruct (send_event step name transaction) as (Ha & Hs & Hx). apply credit_event; [done|lia|done]. Qed.
Lemma receipt_keeps c : pay_floor None <= c -> Keeps c (ask SetReceipt).
Proof. intros Hc. destruct receipt_event as (Ha & Hs & Hx). apply credit_event; [done|lia|done]. Qed.

#[local] Ltac head t := lazymatch t with ?f _ => head f | _ => t end.
(** [work] runs through a program that keeps its credit. *)
#[local] Ltac work_step :=
  lazymatch goal with
  | |- obeys _ _ _ _ _ (_ ≫= _) _ => apply credit_bind; [|intros ?]
  | |- obeys _ _ _ _ _ (attempt _) _ => apply credit_attempt
  | |- obeys _ _ _ _ _ (trigger _) _ => apply plain_trigger; [reflexivity|lia]
  | |- obeys _ _ _ _ _ (trigger_result (SendRaw _ _ _) _) _ => apply send_keeps; lia
  | |- obeys _ _ _ _ _ (trigger_result SetReceipt _) _ => apply receipt_keeps; lia
  | |- obeys _ _ _ _ _ (trigger_result _ _) _ => apply plain_keeps; [reflexivity|lia]
  | |- obeys _ _ _ _ _ (raise _) _ => reflexivity
  | |- obeys _ _ _ _ _ (mret _) _ => reflexivity
  | |- obeys _ _ _ _ _ (lift_result _) _ => reflexivity
  | |- obeys _ _ _ _ _ (throw_unless _ _) _ => reflexivity
  | |- obeys _ _ _ _ _ (if ?b then _ else _) _ => destruct b
  | |- obeys _ _ _ _ _ (match ?x with _ => _ end) _ => destruct x
  | |- obeys _ _ _ _ _ _ _ => eapply works_keeps; [|eassumption]; solve [eauto with guided]
  end.
#[local] Ltac work :=
  intros c Hc; lazymatch type of Hc with pay_floor ?step <= _ => pose proof (floor_nonneg step) end;
  lazymatch goal with |- obeys _ _ _ _ _ ?m _ => try (let h := head m in unfold h) end; repeat work_step.
#[local] Create HintDb guided.

Lemma submitted_works step step' name signature : works step (submitted_ step' name signature).
Proof. intros c Hc. pose proof (floor_nonneg step). apply submitted_keeps. lia. Qed.
Lemma confirmed_works step name signature slot status : works step (confirmed_ name signature slot status).
Proof. intros c Hc. pose proof (floor_nonneg step). apply confirmed_keeps. lia. Qed.
Lemma persist_works step : works step persist.
Proof. intros c Hc. pose proof (floor_nonneg step). apply persist_keeps. lia. Qed.
#[local] Hint Resolve submitted_works confirmed_works persist_works : guided.
Lemma simulate_works step name transaction signers : works step (simulateSendAndConfirm step name transaction signers).
Proof. work. Qed.
#[local] Hint Resolve simulate_works : guided.
Lemma buildSimulateSend_works step name transaction others : works step (buildSimulateSend step name transaction others).
Proof. apply simulate_works. Qed.
#[local] Hint Resolve buildSimulateSend_works : guided.
Lemma send_works step name transaction others : works step (send step name transaction others).
Proof. work. Qed.
Lemma sendRaydium_works step name transaction signers : works (Some step) (sendRaydium step name transaction signers).
Proof. work. Qed.
Lemma coherentRead_works step : works step (coherentRead usdc).
Proof. work. Qed.
#[local] Hint Resolve send_works sendRaydium_works coherentRead_works : guided.
Lemma read_balances_works step requirePool : works step (read_balances usdc requirePool).
Proof. work. Qed.
Lemma take_snapshot_works step : works step (take_snapshot usdc).
Proof. work. Qed.
Lemma stock_units_works step units : works step (stock_units units).
Proof. work. Qed.
Lemma present_works step v : works step (present v).
Proof. work. Qed.
Lemma refreshObservation_works step label : works step (refreshObservation step label).
Proof. work. Qed.
Lemma travelTo_works step ms : works step (travelTo ms).
Proof. work. Qed.
Lemma need_pool_works step session : works step (need_pool session).
Proof. work. Qed.
#[local] Hint Resolve need_pool_works read_balances_works take_snapshot_works stock_units_works present_works refreshObservation_works
  travelTo_works : guided.

Lemma fundStock_works : works None (fundStock usdc).
Proof. work. Qed.
Lemma depositStock_works step name : works (Some step) (depositStock usdc step name).
Proof. work. Qed.
Lemma recombineStock_works step units : works (Some step) (recombineStock usdc step units).
Proof. work. Qed.
Lemma createPool_works : works (Some create_pool) (createPool usdc).
Proof. work. Qed.
Lemma addLiquidity_works : works (Some add_liquidity) (addLiquidity usdc).
Proof. work. Qed.
Lemma buyDr_works : works (Some buy_dr) (buyDr usdc swapBaseInput).
Proof. work. Qed.
Lemma removeLiquidity_works : works (Some remove_liquidity) (removeLiquidity usdc).
Proof. work. Qed.
Lemma recombineRest_works : works (Some recombine) (recombineRest usdc).
Proof. work. Qed.
Lemma recordQuarter_works index step : works (Some step) (recordQuarter usdc index step).
Proof. work. Qed.
#[local] Hint Resolve fundStock_works depositStock_works recombineStock_works createPool_works addLiquidity_works buyDr_works
  removeLiquidity_works recombineRest_works recordQuarter_works : guided.
Lemma accumulate_works index count : works (Some settle_year) (accumulate_quarters index count).
Proof.
  revert index. induction count as [|count IH]; intros index c Hc; cbn [accumulate_quarters]; [done|].
  pose proof (floor_nonneg (Some settle_year)). repeat work_step.
Qed.
#[local] Hint Resolve accumulate_works : guided.
Lemma settleYear_works : works (Some settle_year) (settleYear usdc).
Proof. work. Qed.
Lemma assertFinalResidual_works step : works step (assertFinalResidual usdc).
Proof. work. Qed.
#[local] Hint Resolve settleYear_works assertFinalResidual_works : guided.
Lemma redeem_works (provider : bool) : works (Some (if provider then redeem_provider else redeem_buyer)) (redeem usdc provider).
Proof. work. Qed.
Lemma step_body_works step : works (Some step) (step_body usdc swapBaseInput step).
Proof. destruct step; cbn [step_body]; first [apply (redeem_works true) | apply (redeem_works false) | eauto with guided]. Qed.


(** ** Jobs and requests *)

(** The set-up, up to its conclusion. *)
Lemma setup_obeys c (Q : res unit -> Z -> Prop) :
  pay_floor None <= c -> Obeys c (conclude usdc None) Q -> (forall e, Q (Err e) c) -> Obeys c (runSetup usdc) Q.
Proof.
  intros Hc Hend He. pose proof (floor_nonneg None). unfold runSetup.
  repeat lazymatch goal with |- obeys _ _ _ _ _ (_ ≫= _) _ => apply obeys_after; [solve [repeat work_step]|intros ?|done] end.
  exact Hend.
Qed.
Lemma step_obeys step c (Q : res unit -> Z -> Prop) :
  pay_floor (Some step) <= c -> Obeys c (conclude usdc (Some step)) Q -> (forall e, Q (Err e) c) ->
  Obeys c (runStep usdc swapBaseInput step) Q.
Proof. intros Hc Hend He. apply obeys_after; [by apply step_body_works|by intros _|done]. Qed.

Lemma serialize_keeps {A} c (m : rt A) : 0 <= c -> Keeps c m -> Keeps c (serialize m).
Proof.
  intros Hc Hm. unfold serialize. repeat (apply credit_bind; [first [by apply plain_trigger|by apply credit_attempt]|intros ?]). reflexivity.
Qed.
(** A request keeps its credit when what it asks to begin does. *)
Lemma answer_keeps port c rq :
  0 <= c -> (forall rid revision assetId, Keeps c (beginStart rid revision assetId)) ->
  (forall rid sessionId revision step, Keeps c (beginStep rid sessionId revision step)) -> Keeps c (answer_request port rq).
Proof.
  intros Hc Hstart Hstep. unfold answer_request, respond_state.
  repeat first [ apply serialize_keeps; [done|first [by apply Hstart|by apply Hstep]] | work_step ].
Qed.
End work.
