(* ===== verification/GuidedProps.v ===== *)
(** * Guided runtime: the theorems

    Any number of requests and jobs interleave at every [await]; nothing is
    assumed of the chain's answers.  Where writes do not fail, jobs never
    overlap and every transaction is sent for the step the state shows as
    active; the demo goes through its steps in order and takes a checkpoint of
    verified backing after each.  Whether or not writes fail, of the requests
    that expect the same revision only one is accepted, and the state file
    follows the changes in their order. *)
From S2P Require Import Prelude Js Utf8 Json TxQuotes AmmAccounting GuidedDemo Programs Credits GuidedRuntime GuidedServer GuidedWork.
Open Scope Z_scope.

(** ** The programs of the process *)

Inductive source := Incoming (rq : HttpRequest) | Background (j : job).
Inductive reply := Responded (r : HttpResponse) | Done.

Section guided.
Context (usdc : PublicKey) (swapBaseInput : Z -> Z -> Z -> Z -> Z -> Z -> Z -> bool -> CurveResult) (port : Z) (runtimeId : string).

Definition program (s : source) : prog event answer reply :=
  match s with
  | Incoming rq => bind (handle_request port rq) (fun r => Pure (Responded r))
  | Background j => bind (job_body usdc swapBaseInput j) (fun _ => Pure Done)
  end.
Definition starts (p : prog event answer reply) : Prop := exists s, p = program s.
Abbreviation gthreads := (threads (event:=event) (answer:=answer) (W:=World) (R:=reply)).
Definition guided_run (writes_fail : bool) (s : gthreads) : Prop :=
  rtc (thread_step (guided_step runtimeId writes_fail) starts) (Threads first_world []) s.

(** ** The right to run a step

    Accepting a request gives one token of the step's kind, handed on by
    [Launch] and [TakeJob]; it is needed to send, to conclude and to fail. *)
Section tokens.
Context (k : option DemoStep).
Definition token (step : option DemoStep) : Z := Z.b2z (bool_decide (step = k)).
Definition earn (e : event) : answer e -> Z :=
  match e return answer e -> Z with
  | StartSession _ _ _ => fun x => if is_ok x then token None else 0
  | StartStep _ _ _ step => fun x => if is_ok x then token (Some step) else 0
  | TakeJob j => fun _ => token (job_step j)
  | Finish step _ => fun x => if is_ok x then 0 else token step
  | SendRaw step _ _ => fun _ => token step
  | SetReceipt => fun _ => token None
  | _ => fun _ => 0
  end.
Definition spend (e : event) : Z :=
  match e with
  | Launch j | MarkFailed j _ => token (job_step j)
  | Finish step _ | SendRaw step _ _ => token step
  | SetReceipt => token None
  | _ => 0
  end.
(** A checkpoint is taken of verified backing only. *)
Definition event_ok (e : event) : Prop := match e with Finish _ snapshot => sn_backingVerified snapshot = true | _ => True end.
(** Writes succeed. *)
Definition sound_answer (e : event) : answer e -> Prop :=
  match e return answer e -> Prop with WriteState _ | WriteSession _ _ => fun x => is_ok x = true | _ => fun _ => True end.
Abbreviation Obeys := (obeys event_ok sound_answer earn spend).
Abbreviation Keeps c m := (Obeys c%Z m (fun _ d => d = c%Z)).

Lemma token_nonneg step : 0 <= token step.
Proof. unfold token. case_bool_decide; cbn; lia. Qed.

(** A write keeps the credit, and succeeds. *)
Lemma write_values_obeys c w : 0 <= c -> Obeys c (write_values w) (fun r d => d = c /\ is_ok r = true).
Proof.
  intros Hc. unfold write_values. apply obeys_ask; [done|cbn; lia|]. intros [u|e] Hx; [|done]. split; [done|].
  destruct (ds_sessionId _) as [sid|]; [|cbn; split; [lia|done]]. destruct (bool_decide _); [cbn; split; [lia|done]|].
  split; [done|]. split; [cbn; lia|]. intros x Hok. split; [done|]. split; [cbn; lia|done].
Qed.
Lemma write_obeys c w : 0 <= c -> Obeys c (write w) (fun r d => d = c /\ is_ok r = true).
Proof.
  intros Hc. unfold write. apply obeys_act; [done|cbn; lia|]. intros x _. split; [done|]. apply obeys_bind, obeys_bind.
  eapply obeys_weaken; [|apply write_values_obeys; cbn; lia]. intros [u|e] d [-> Hr]; [|done].
  split; [done|]. split; [cbn; lia|]. intros x' _. split; [done|]. split; [cbn; lia|done].
Qed.
Lemma write_keeps c w : 0 <= c -> Keeps c (write w).
Proof. intros Hc. eapply obeys_weaken; [|by apply write_obeys]. by intros r d [-> _]. Qed.

#[local, refine] Instance token_account : Account := {
  pay_allowed := event_ok; pay_sane := sound_answer; pay_earn := earn; pay_spend := spend; pay_floor := token;
}.
Proof.
  - exact token_nonneg.
  - intros [] He; try discriminate He; by split.
  - intros step name transaction. pose proof (token_nonneg step). split; [done|]. split; [cbn; lia|done].
  - pose proof (token_nonneg None). split; [done|]. split; [cbn; lia|done].
  - intros c step name signature Hc. apply credit_bind; [apply credit_event; [done|cbn; lia|done]|intros w; by apply write_keeps].
  - intros c name signature slot status Hc. apply credit_bind; [apply credit_event; [done|cbn; lia|done]|intros w; by apply write_keeps].
  - intros c Hc. apply credit_bind; [apply credit_event; [done|cbn; lia|done]|intros w; by apply write_keeps].
Defined.

(** ** Jobs and requests *)

(** A job that returns has given its token up; one that throws still has it. *)
Definition concludes (step : option DemoStep) (c : Z) : Prelude.result failure unit -> Z -> Prop :=
  fun r d => match r with Ok _ => d = c | Err _ => d = c + token step end.

Lemma conclude_obeys step c : 0 <= c -> Obeys (c + token step) (conclude usdc step) (concludes step c).
Proof.
  intros Hc. pose proof (token_nonneg step). unfold conclude.
  apply obeys_after; [apply (take_snapshot_works (account:=token_account) _ step); cbn; lia|intros snapshot|done].
  unfold throw_unless, assert_that. destruct (sn_backingVerified snapshot) eqn:Hv; [|done].
  change (Obeys (c + token step) (w ← ask (Finish step snapshot); write w) (concludes step c)).
  apply obeys_ask; [done|cbn; lia|]. intros [w|e] _; [|cbn; split; lia]. split; [done|].
  eapply obeys_weaken; [|apply write_obeys; cbn; lia]. intros [[]|] d [-> Hr]; [cbn; lia|done].
Qed.
Lemma runStep_obeys step c : 0 <= c -> Obeys (c + token (Some step)) (runStep usdc swapBaseInput step) (concludes (Some step) c).
Proof. intros Hc. apply (step_obeys (account:=token_account)); [cbn; lia|by apply conclude_obeys|done]. Qed.
Lemma runSetup_obeys c : 0 <= c -> Obeys (c + token None) (runSetup usdc) (concludes None c).
Proof. intros Hc. apply (setup_obeys (account:=token_account)); [cbn; lia|by apply conclude_obeys|done]. Qed.

Lemma fail_obeys j e c : 0 <= c -> Obeys (c + token (job_step j)) (fail usdc j e) (fun _ d => d = c).
Proof.
  intros Hc. pose proof (token_nonneg (job_step j)). unfold fail. assert (Ht : token (job_step j) <= c + token (job_step j)) by lia.
  apply obeys_act; [done|cbn; lia|]. intros [[failedStep last] readable] _. split; [done|].
  replace (c + token (job_step j) - spend ReadFailing + _) with (c + token (job_step j)) by (cbn; lia).
  apply obeys_bind. apply (obeys_weaken _ _ _ _ _ _ (fun r d => d = c + token (job_step j) /\ is_ok r = true)).
  - intros [observed|e'] d [-> Hr]; [|done]. apply obeys_act; [done|cbn; lia|]. intros w _. split; [done|].
    replace (c + token (job_step j) - _ + _) with c by (cbn; lia).
    apply obeys_bind, obeys_bind. eapply obeys_weaken; [|apply write_obeys; lia]. intros r d [-> _]. done.
  - destruct readable; [|done]. apply obeys_bind. eapply obeys_weaken; [|apply (take_snapshot_works (account:=token_account) _ (job_step j)); cbn; lia].
    by intros r d ->.
Qed.

Lemma job_obeys j : Obeys 0 (job_body usdc swapBaseInput j) (fun _ d => d = 0).
Proof.
  pose proof (token_nonneg (job_step j)). unfold job_body. apply obeys_act; [done|cbn; lia|]. intros x _. split; [done|].
  replace (0 - _ + _) with (0 + token (job_step j)) by (cbn; lia).
  apply obeys_bind, obeys_bind. apply (obeys_weaken _ _ _ _ _ _ (concludes (job_step j) 0)).
  - intros [u|e] d Hd; cbn in Hd |- *; subst d; [done|]. by apply fail_obeys.
  - destruct j; [by apply runSetup_obeys|by apply runStep_obeys].
Qed.

Lemma beginStart_obeys rid revision assetId c : 0 <= c -> Keeps c (beginStart rid revision assetId).
Proof.
  intros Hc. pose proof (token_nonneg None). unfold beginStart. apply obeys_ask; [done|cbn; lia|]. intros [w|e] _; cbn [is_ok earn]; [|cbn; lia].
  split; [done|]. apply obeys_bind. eapply obeys_weaken; [|apply write_obeys; cbn; lia]. intros [u|e] d [-> Hr]; [|done].
  split; [done|]. split; [cbn; lia|]. intros ? _. split; [done|]. cbn. lia.
Qed.
Lemma beginStep_obeys rid sessionId revision step c : 0 <= c -> Keeps c (beginStep rid sessionId revision step).
Proof.
  intros Hc. pose proof (token_nonneg (Some step)). unfold beginStep. apply obeys_ask; [done|cbn; lia|]. intros [w|e] _; cbn [is_ok earn]; [|cbn; lia].
  split; [done|]. apply obeys_bind. eapply obeys_weaken; [|apply write_obeys; cbn; lia]. intros [u|e] d [-> Hr]; [|done].
  split; [done|]. split; [cbn; lia|]. intros ? _. split; [done|]. cbn. lia.
Qed.
Lemma guided_program_obeys p : starts p -> Obeys 0 p (fun _ _ => True).
Proof.
  intros [[rq|j] ->]; cbn [program].
  - apply obeys_bind, obeys_bind. eapply obeys_weaken; [|apply (answer_keeps (account:=token_account)); [done|..]]; [by intros [r|e] d _|..].
    + intros. by apply beginStart_obeys.
    + intros. by apply beginStep_obeys.
  - apply obeys_bind. eapply obeys_weaken; [|apply job_obeys]. by intros r d _.
Qed.
End tokens.

(** ** What holds of the state *)

(** The step whose job is accepted and not over yet. *)
Definition busy (st : DemoState) : bool := bool_decide (ds_status st ∈ [preparing; running]).
Definition open_job (g : Runtime) : option (option DemoStep) := if busy (rt_state g) then ds_activeStep (rt_state g) else None.
Definition checkpoints (g : Runtime) : list (option DemoStep * DemoSnapshot) := from_option rc_checkpoints [] (rt_receipt g).

Record demo_ok (g : Runtime) : Prop := {
  ok_active : match ds_status (rt_state g) with
              | preparing => ds_activeStep (rt_state g) = Some None
              | running => exists step, ds_activeStep (rt_state g) = Some (Some step) /\
                             DEMO_STEPS !! length (ds_completedSteps (rt_state g)) = Some step
              | _ => ds_activeStep (rt_state g) = None
              end;
  ok_next : match ds_status (rt_state g) with
            | ready => ds_nextStep (rt_state g) = DEMO_STEPS !! length (ds_completedSteps (rt_state g)) /\ is_Some (ds_nextStep (rt_state g))
            | complete => ds_nextStep (rt_state g) = None /\ ds_completedSteps (rt_state g) = DEMO_STEPS
            | _ => ds_nextStep (rt_state g) = None
            end;
  ok_order : ds_completedSteps (rt_state g) = take (length (ds_completedSteps (rt_state g))) DEMO_STEPS;
  ok_checkpoints : match ds_status (rt_state g) with
                   | idle | preparing => checkpoints g = [] /\ ds_completedSteps (rt_state g) = []
                   | failed => checkpoints g = [] /\ ds_completedSteps (rt_state g) = []
                               \/ (checkpoints g).*1 = None :: (Some <$> ds_completedSteps (rt_state g))
                   | _ => (checkpoints g).*1 = None :: (Some <$> ds_completedSteps (rt_state g))
                   end;
  ok_verified : Forall (fun c : option DemoStep * DemoSnapshot => sn_backingVerified c.2 = true) (checkpoints g);
}.

(** Reads a log: the job that is open.  It fails where a job is accepted while
    another is open, and where one sends or ends that is not. *)
Definition job_entry (st : option (option (option DemoStep))) (e : entry) : option (option (option DemoStep)) :=
  match st, e with
  | None, _ => None
  | Some None, Accepted j _ => Some (Some (job_step j))
  | Some (Some _), Accepted _ _ => None
  | Some o, Concluded step => if bool_decide (o = Some step) then Some None else None
  | Some o, ConcludedFailed j => if bool_decide (o = Some (job_step j)) then Some None else None
  | Some o, Sent step _ _ => if bool_decide (o = Some step) then Some o else None
  | _, _ => st
  end.
Definition jobs_of (l : list entry) : option (option (option DemoStep)) := fold_left job_entry l (Some None).
#[local] Arguments jobs_of : simpl never.

Lemma jobs_app l l' : jobs_of (l ++ l') = fold_left job_entry l' (jobs_of l).
Proof. unfold jobs_of. apply fold_left_app. Qed.

Definition good (w : World) : Prop := jobs_of (w_log w) = Some (open_job (w_rt w)) /\ demo_ok (w_rt w).

(** Tokens of a kind not yet given out. *)
Definition pending (k : option DemoStep) (l : list job) : Z := sumZ (map (fun j => token k (job_step j)) l).
Definition balance (k : option DemoStep) (w : World) : Z :=
  from_option (token k) 0 (open_job (w_rt w)) - pending k (w_pending w).

Lemma token_open k w : good w -> token k k <= balance k w -> 0 <= pending k (w_pending w) -> open_job (w_rt w) = Some k.
Proof.
  unfold balance, token. rewrite bool_decide_true by done. cbn. intros _ Hb Hp.
  destruct (open_job (w_rt w)) as [o|]; cbn in Hb; [|lia]. case_bool_decide; [congruence|cbn in Hb; lia].
Qed.
Lemma pending_nonneg k l : 0 <= pending k l.
Proof. unfold pending. apply sumZ_nonneg, Forall_fmap, Forall_true. intros j. apply token_nonneg. Qed.
Lemma pending_app k l l' : pending k (l ++ l') = pending k l + pending k l'.
Proof. unfold pending. by rewrite map_app, sumZ_app. Qed.

(** Two moments that differ in nothing the demo's course depends on. *)
Definition same_demo (g g' : Runtime) : Prop :=
  ds_status (rt_state g') = ds_status (rt_state g) /\ ds_activeStep (rt_state g') = ds_activeStep (rt_state g) /\
  ds_nextStep (rt_state g') = ds_nextStep (rt_state g) /\ ds_completedSteps (rt_state g') = ds_completedSteps (rt_state g) /\
  checkpoints g' = checkpoints g.

Lemma same_demo_ok g g' : same_demo g g' -> demo_ok g -> demo_ok g'.
Proof. intros (H1 & H2 & H3 & H4 & H5) []. split; by rewrite ?H1, ?H2, ?H3, ?H4, ?H5. Qed.
Lemma same_demo_open g g' : same_demo g g' -> open_job g' = open_job g.
Proof. intros (H1 & H2 & _). unfold open_job, busy. by rewrite H1, H2. Qed.

Lemma good_same w w' :
  same_demo (w_rt w) (w_rt w') -> jobs_of (w_log w') = jobs_of (w_log w) -> good w -> good w'.
Proof. intros Hs Hj [Hl Hd]. split; [by rewrite Hj, (same_demo_open _ _ Hs)|by eapply same_demo_ok]. Qed.
Lemma balance_same k w w' : same_demo (w_rt w) (w_rt w') -> w_pending w' = w_pending w -> balance k w' = balance k w.
Proof. intros Hs Hp. unfold balance. by rewrite (same_demo_open _ _ Hs), Hp. Qed.

Lemma checkpoints_update f g : checkpoints (snd (update f g)) = checkpoints g.
Proof. unfold checkpoints, update. cbn. by destruct (rt_receipt g). Qed.
Lemma same_demo_update f g :
  (forall st, ds_status (f st) = ds_status st /\ ds_activeStep (f st) = ds_activeStep st /\ ds_nextStep (f st) = ds_nextStep st /\
              ds_completedSteps (f st) = ds_completedSteps st) ->
  same_demo g (snd (update f g)).
Proof. intros Hf. destruct (Hf (rt_state g)) as (? & ? & ? & ?). unfold same_demo. by rewrite checkpoints_update. Qed.
Lemma jobs_captured l v : jobs_of (l ++ [Captured v]) = jobs_of l.
Proof. rewrite jobs_app. cbn. by destruct (jobs_of l) as [[]|]. Qed.
Lemma jobs_wrote l n v : jobs_of (l ++ [Wrote n v]) = jobs_of l.
Proof. rewrite jobs_app. cbn. by destruct (jobs_of l) as [[]|]. Qed.
Lemma jobs_write_failed l n : jobs_of (l ++ [WriteFailed n]) = jobs_of l.
Proof. rewrite jobs_app. cbn. by destruct (jobs_of l) as [[]|]. Qed.
Lemma jobs_capturing l r : jobs_of (l ++ capturing r) = jobs_of l.
Proof. destruct r as [[n v]|e]; [apply jobs_captured|by rewrite app_nil_r]. Qed.

(** The events that decide nothing about jobs. *)
Definition quiet (e : event) : Prop :=
  match e with
  | StartSession _ _ _ | StartStep _ _ _ _ | Finish _ _ | MarkFailed _ _ | Launch _ | TakeJob _ | SendRaw _ _ _ | SetReceipt => False
  | _ => True
  end.
#[local] Ltac unchanged :=
  unfold same_demo, checkpoints; cbn; split_and!; try done;
  rewrite ?app_nil_r, ?jobs_captured, ?jobs_wrote, ?jobs_write_failed, ?jobs_capturing; try done; by destruct (rt_receipt _).
Lemma quiet_step fails i e w x w' :
  quiet e -> guided_step runtimeId fails i e w x w' ->
  same_demo (w_rt w) (w_rt w') /\ jobs_of (w_log w') = jobs_of (w_log w) /\ w_pending w' = w_pending w.
Proof.
  intros Hq Ho. destruct e; try done; cbn in Ho; unfold assigned, mark_confirmed, requireSession in Ho;
    repeat match goal with
    | H : _ /\ _ |- _ => destruct H
    | H : _ \/ _ |- _ => destruct H
    | H : exists _, _ |- _ => destruct H
    | H : context [is_ok ?r] |- _ => destruct r; cbn [is_ok] in H
    | H : context [match ?w with (_, _) => _ end] |- _ => destruct w
    | H : context [match ?o with Some _ => _ | None => _ end] |- _ => destruct o eqn:?; cbn in H
    end; subst; try unchanged.
Qed.

Lemma quiet_sound fails i e w x w' :
  quiet e -> good w -> guided_step runtimeId fails i e w x w' -> good w' /\ forall k, balance k w - spend k e + earn k e x = balance k w'.
Proof.
  intros Hq Hg Ho. destruct (quiet_step _ _ _ _ _ _ Hq Ho) as (Hs & Hj & Hp). split; [by eapply good_same|].
  intros k. rewrite (balance_same k w w' Hs Hp). destruct e; try done; cbn; lia.
Qed.

(** A token of a step shows that its job is the open one. *)
Lemma holds_token step w :
  good w -> (forall k, 0 <= token k step <= balance k w) -> open_job (w_rt w) = Some step.
Proof. intros Hg Hb. apply token_open; [done|apply Hb|apply pending_nonneg]. Qed.

Lemma open_job_status g :
  open_job g = match ds_status (rt_state g) with preparing | running => ds_activeStep (rt_state g) | _ => None end.
Proof. unfold open_job, busy. by destruct (ds_status (rt_state g)). Qed.
Lemma open_preparing w : good w -> open_job (w_rt w) = Some None -> ds_status (rt_state (w_rt w)) = preparing.
Proof.
  intros [_ [Ha _ _ _ _]]. rewrite open_job_status. destruct (ds_status _); try done. by destruct Ha as (step & -> & _).
Qed.
Lemma open_running w step : good w -> open_job (w_rt w) = Some (Some step) ->
  ds_status (rt_state (w_rt w)) = running /\ DEMO_STEPS !! length (ds_completedSteps (rt_state (w_rt w))) = Some step.
Proof.
  intros [_ [Ha _ _ _ _]]. rewrite open_job_status. destruct (ds_status _); try done; [by rewrite Ha|].
  destruct Ha as (step' & -> & Hl). by intros [= ->].
Qed.

Lemma start_session_ok rid revision assetId sessionId g v g' :
  start_session runtimeId rid revision assetId sessionId g = (Ok v, g') ->
  open_job g = None /\ open_job g' = Some None /\ demo_ok g'.
Proof.
  unfold start_session. destruct (_ && _); [|done]. cbn [negb]. destruct (bool_decide _) eqn:Hst; [|done]. cbn [negb].
  destruct (find _ _) as [asset|]; [|done]. intros [= <- <-]. rewrite !open_job_status. apply bool_decide_eq_true in Hst.
  split; [destruct (ds_status (rt_state g)); try done; by (repeat (apply elem_of_cons in Hst as [Hst|Hst]; [done|]); apply elem_of_nil in Hst)|].
  split; [done|]. by split.
Qed.

Lemma start_step_ok rid sessionId revision step g v g' :
  start_step runtimeId rid sessionId revision step g = (Ok v, g') -> demo_ok g ->
  open_job g = None /\ open_job g' = Some (Some step) /\ demo_ok g'.
Proof.
  unfold start_step. destruct (_ && _ && _); [|done]. cbn [negb]. destruct (bool_decide _ && bool_decide _) eqn:Hst; [|done].
  apply andb_prop in Hst as [Hs%bool_decide_eq_true Hn%bool_decide_eq_true]. cbn [negb]. intros [= <- <-] [Ha Hx Ho Hc Hv].
  rewrite !open_job_status, Hs in *. destruct Hx as [Hx _]. split; [done|]. split; [done|].
  assert (Hck : checkpoints (snd (update (begin_running step) g)) = checkpoints g) by apply checkpoints_update.
  split; cbn; [exists step; split; [done|congruence]|done|done|..]; cbn in Hck; by rewrite Hck.
Qed.

Lemma take_snoc {A} (l : list A) n x : l !! n = Some x -> take (S n) l = take n l ++ [x].
Proof. apply take_S_r. Qed.

Lemma finish_ok step snapshot w v g' :
  good w -> open_job (w_rt w) = Some step -> sn_backingVerified snapshot = true ->
  finish step snapshot (w_rt w) = (Ok v, g') -> open_job g' = None /\ demo_ok g'.
Proof.
  intros Hg Ho Hb. unfold finish. destruct (rt_receipt (w_rt w)) as [receipt|] eqn:Hr; [|done].
  pose proof (proj2 Hg) as [Ha Hx Hord Hc Hv]. assert (Hck : checkpoints (w_rt w) = rc_checkpoints receipt) by (unfold checkpoints; by rewrite Hr).
  rewrite Hck in Hc, Hv. set (g1 := set_receipt _ _). intros Hf.
  assert (Hck' : checkpoints g' = rc_checkpoints receipt ++ [(step, snapshot)]).
  { destruct step; injection Hf as <- <-; done. }
  assert (Hv' : Forall (fun c : option DemoStep * DemoSnapshot => sn_backingVerified c.2 = true) (checkpoints g')).
  { rewrite Hck'. apply Forall_app. split; [done|]. by repeat constructor. }
  rewrite open_job_status. destruct step as [s|].
  - destruct (open_running w s Hg Ho) as [Hst Hl]. rewrite Hst in Hc. set (n := length (ds_completedSteps (rt_state (w_rt w)))) in *.
    assert (Hlen : length (ds_completedSteps (rt_state (w_rt w)) ++ [s]) = S n) by (rewrite length_app; cbn; lia).
    assert (Hord' : ds_completedSteps (rt_state (w_rt w)) ++ [s] = take (S n) DEMO_STEPS) by (rewrite (take_snoc _ _ _ Hl); congruence).
    assert (Hck2 : (checkpoints g').*1 = None :: (Some <$> ds_completedSteps (rt_state (w_rt w)) ++ [s])).
    { rewrite Hck', fmap_app, Hc, fmap_app. done. }
    assert (Hn : DEMO_STEPS !! length (ds_completedSteps (rt_state (w_rt w)) ++ [s]) = DEMO_STEPS !! S n) by (by rewrite Hlen).
    injection Hf as <- <-. cbn in Hck2 |- *. rewrite Hn. destruct (DEMO_STEPS !! S n) as [next|] eqn:Hnext.
    + split; [done|]. split; cbn; rewrite ?Hn; first [done | exact Hck2 | exact Hv' | rewrite Hlen; exact Hord' | split; [done|by eexists]].
    + assert (Hall : ds_completedSteps (rt_state (w_rt w)) ++ [s] = DEMO_STEPS).
      { rewrite Hord'. apply take_ge. by apply lookup_ge_None in Hnext. }
      split; [done|]. split; cbn; rewrite ?Hn; first [done | exact Hck2 | exact Hv' | rewrite Hlen; exact Hord'].
  - pose proof (open_preparing w Hg Ho) as Hst. rewrite Hst in Hc. destruct Hc as [Hc0 Hcomp]. injection Hf as <- <-.
    split; [done|]. split; cbn; rewrite ?Hcomp; first [done | exact Hv' | split; [done|by eexists] | unfold checkpoints; cbn; by rewrite Hc0].
Qed.

Lemma mark_failed_ok f w : good w -> is_Some (open_job (w_rt w)) -> open_job (snd (mark_failed f (w_rt w))) = None /\ demo_ok (snd (mark_failed f (w_rt w))).
Proof.
  intros Hg Ho. rewrite open_job_status in *. split; [done|]. pose proof (proj2 Hg) as [Ha Hx Hord Hc Hv].
  assert (Hck : checkpoints (snd (mark_failed f (w_rt w))) = checkpoints (w_rt w)).
  { unfold mark_failed. rewrite checkpoints_update. unfold checkpoints. cbn. by destruct (rt_receipt (w_rt w)). }
  split; rewrite ?Hck; cbn; try done. destruct (ds_status (rt_state (w_rt w))); try (by destruct Ho); [by left|by right].
Qed.

Lemma jobs_conclude l step : jobs_of l = Some (Some step) -> jobs_of (l ++ [Concluded step]) = Some None.
Proof. intros Hl. rewrite jobs_app, Hl. cbn. by rewrite bool_decide_true. Qed.

Lemma opens_sound w w' j revision v :
  good w -> open_job (w_rt w) = None -> open_job (w_rt w') = Some (job_step j) -> demo_ok (w_rt w') ->
  w_pending w' = w_pending w -> w_log w' = w_log w ++ [Accepted j revision; Captured v] ->
  good w' /\ forall k, balance k w + token k (job_step j) <= balance k w'.
Proof.
  intros [Hl _] H1 H2 Hd Hp Hlog. rewrite H1 in Hl. split; [split; [|done]|].
  - rewrite Hlog, jobs_app, Hl. cbn. by rewrite H2.
  - intros k. unfold balance. rewrite H1, H2, Hp. cbn. lia.
Qed.
Lemma ends_sound w w' step :
  open_job (w_rt w) = Some step -> open_job (w_rt w') = None -> demo_ok (w_rt w') -> w_pending w' = w_pending w ->
  jobs_of (w_log w') = Some None -> good w' /\ forall k, balance k w - token k step <= balance k w'.
Proof.
  intros H1 H2 Hd Hp Hl. split; [split; [by rewrite H2|done]|]. intros k. unfold balance. rewrite H1, H2, Hp. cbn. lia.
Qed.

(** A refused request, and an end that throws, change nothing. *)
Lemma start_session_err rid0 rid revision assetId sessionId g e g' :
  start_session rid0 rid revision assetId sessionId g = (Err e, g') -> g' = g.
Proof. unfold start_session. intros Hr. repeat (case_match; try done); by injection Hr. Qed.
Lemma start_step_err rid0 rid sessionId revision step g e g' :
  start_step rid0 rid sessionId revision step g = (Err e, g') -> g' = g.
Proof. unfold start_step. intros Hr. repeat (case_match; try done); by injection Hr. Qed.
Lemma finish_err step snapshot g e g' : finish step snapshot g = (Err e, g') -> g' = g.
Proof. unfold finish. intros Hr. repeat (case_match; try done); by injection Hr. Qed.
Lemma mark_confirmed_err name signature slot status g e g' :
  mark_confirmed name signature slot status g = (Err e, g') -> g' = g.
Proof. unfold mark_confirmed. intros Hr. repeat (case_match; try done); by injection Hr. Qed.

Lemma noted_nothing w : noted [] (become (w_rt w) w) = w.
Proof. destruct w. unfold noted, become. cbn. by rewrite app_nil_r. Qed.

(** What the events about jobs do. *)
Definition sound (e : event) (w : World) (x : answer e) (w' : World) : Prop :=
  good w' /\ forall k, balance k w - spend k e + earn k e x <= balance k w'.

Lemma start_session_sound i rid revision assetId w x w' :
  good w -> guided_step runtimeId false i (StartSession rid revision assetId) w x w' ->
  sound (StartSession rid revision assetId) w x w'.
Proof.
  intros Hg (sessionId & -> & ->). destruct (start_session _ _ _ _ _ _) as [[v|e] g'] eqn:Hr.
  - destruct (start_session_ok _ _ _ _ _ _ _ Hr) as (H1 & H2 & Hd). destruct v as [n v].
    destruct (opens_sound w (noted [Accepted SetupJob revision; Captured v] (become g' w)) SetupJob revision v) as [Hg' Hb]; try done.
    split; [done|]. intros k. specialize (Hb k). cbn in Hb |- *. lia.
  - pose proof (start_session_err _ _ _ _ _ _ _ _ Hr) as ->.
    cbn [fst snd is_ok app capturing]. rewrite noted_nothing. split; [done|]. intros k. cbn. lia.
Qed.

Lemma start_step_sound i rid sessionId revision step w x w' :
  good w -> guided_step runtimeId false i (StartStep rid sessionId revision step) w x w' ->
  sound (StartStep rid sessionId revision step) w x w'.
Proof.
  intros Hg (-> & ->). destruct (start_step _ _ _ _ _ _) as [[v|e] g'] eqn:Hr.
  - destruct (start_step_ok _ _ _ _ _ _ _ Hr (proj2 Hg)) as (H1 & H2 & Hd). destruct v as [n v].
    destruct (opens_sound w (noted [Accepted (StepJob step) revision; Captured v] (become g' w)) (StepJob step) revision v) as [Hg' Hb]; try done.
    split; [done|]. intros k. specialize (Hb k). cbn in Hb |- *. lia.
  - pose proof (start_step_err _ _ _ _ _ _ _ _ Hr) as ->.
    cbn [fst snd is_ok app capturing]. rewrite noted_nothing. split; [done|]. intros k. cbn. lia.
Qed.

Lemma finish_sound i step snapshot w x w' :
  good w -> sn_backingVerified snapshot = true -> (forall k, 0 <= token k step <= balance k w) ->
  guided_step runtimeId false i (Finish step snapshot) w x w' -> sound (Finish step snapshot) w x w'.
Proof.
  intros Hg Hv Hb (-> & ->). pose proof (holds_token step w Hg Hb) as Ho. destruct (finish _ _ _) as [[v|e] g'] eqn:Hr.
  - destruct (finish_ok _ _ _ _ _ Hg Ho Hv Hr) as [H2 Hd]. destruct v as [n v].
    destruct (ends_sound w (noted [Concluded step; Captured v] (become g' w)) step) as [Hg' Hk]; try done.
    { cbn. rewrite cons_middle, app_assoc, jobs_captured. apply jobs_conclude. rewrite (proj1 Hg). by rewrite Ho. }
    split; [done|]. intros k. specialize (Hk k). cbn in Hk |- *. lia.
  - pose proof (finish_err _ _ _ _ _ Hr) as ->.
    cbn [fst snd is_ok app capturing]. rewrite noted_nothing. split; [done|]. intros k. cbn. lia.
Qed.

Lemma mark_failed_sound i j f w x w' :
  good w -> (forall k, 0 <= token k (job_step j) <= balance k w) ->
  guided_step runtimeId false i (MarkFailed j f) w x w' -> sound (MarkFailed j f) w x w'.
Proof.
  intros Hg Hb (-> & ->). pose proof (holds_token _ w Hg Hb) as Ho. destruct (mark_failed_ok f w Hg ltac:(by eexists)) as [H2 Hd].
  destruct (mark_failed f (w_rt w)) as [[n v] g'] eqn:Hr. cbn in H2, Hd.
  destruct (ends_sound w (noted [ConcludedFailed j; Captured v] (become g' w)) (job_step j)) as [Hg' Hk]; try done.
  { cbn. rewrite cons_middle, app_assoc, jobs_captured, jobs_app, (proj1 Hg), Ho. cbn. by rewrite bool_decide_true. }
  split; [done|]. intros k. specialize (Hk k). cbn in Hk |- *. lia.
Qed.

Lemma send_sound i step name transaction w x w' :
  good w -> (forall k, 0 <= token k step <= balance k w) ->
  guided_step runtimeId false i (SendRaw step name transaction) w x w' -> sound (SendRaw step name transaction) w x w'.
Proof.
  intros Hg Hb ->. pose proof (holds_token _ w Hg Hb) as Ho. split; [split; [|apply Hg]|].
  - cbn. rewrite jobs_app, (proj1 Hg), Ho. cbn. by rewrite bool_decide_true.
  - intros k. change (balance k (noted [Sent step name transaction] w)) with (balance k w). cbn [spend earn]. lia.
Qed.

Lemma receipt_sound i w x w' :
  good w -> (forall k, 0 <= token k None <= balance k w) ->
  guided_step runtimeId false i SetReceipt w x w' -> sound SetReceipt w x w'.
Proof.
  intros Hg Hb [-> ->]. pose proof (open_preparing w Hg (holds_token _ w Hg Hb)) as Hst.
  assert (Hs : same_demo (w_rt w) (snd (new_receipt (w_rt w)))).
  { unfold same_demo, new_receipt. destruct (asset_of (w_rt w)); cbn [snd]; split_and!; try done.
    pose proof (proj2 Hg) as [_ _ _ Hc _]. rewrite Hst in Hc. by destruct Hc as [-> _]. }
  split; [by apply (good_same w)|]. intros k. rewrite (balance_same k w (become (snd (new_receipt (w_rt w))) w)) by done. cbn. lia.
Qed.

Lemma guided_sound i e w x w' :
  good w -> event_ok e -> (forall k, 0 <= spend k e <= balance k w) -> guided_step runtimeId false i e w x w' ->
  good w' /\ sound_answer e x /\ forall k, balance k w - spend k e + earn k e x <= balance k w'.
Proof.
  intros Hg He Hb Ho. assert (Hs : sound_answer e x).
  { destruct e; try done; cbn in Ho; destruct (_ : nat * Saved) as [n v]; destruct Ho as [[-> _]|[? _]]; done. }
  enough (sound e w x w') as [? ?] by done. destruct e; try (match type of Ho with guided_step _ _ _ ?e _ _ _ =>
    destruct (quiet_sound false i e w x w' I Hg Ho) as [Hg' Hk]; split; [done|]; intros k; rewrite Hk; lia end).
  - by eapply start_session_sound.
  - by eapply start_step_sound.
  - by eapply finish_sound.
  - by eapply mark_failed_sound.
  - cbn in Ho. subst w'. split; [done|]. intros k.
    change (balance k (set_pending (w_pending w ++ [j]) w)) with (from_option (token k) 0 (open_job (w_rt w)) - pending k (w_pending w ++ [j])).
    unfold balance. rewrite pending_app. unfold pending. cbn [spend earn map sumZ]. lia.
  - destruct Ho as (before & after & Hp & ->). split; [done|]. intros k.
    change (balance k (set_pending (before ++ after) w)) with (from_option (token k) 0 (open_job (w_rt w)) - pending k (before ++ after)).
    unfold balance. rewrite Hp, (cons_middle j), !pending_app. unfold pending. cbn [spend earn map sumZ]. lia.
  - by eapply receipt_sound.
  - by eapply send_sound.
Qed.

Lemma guided_reachable s : guided_run false s -> good (th_world s).
Proof.
  intros Hr. refine (proj1 (funded_reachable None event_ok sound_answer earn spend (guided_step runtimeId false) good balance starts
    (fun _ _ => True) guided_sound (fun p k => guided_program_obeys k p) first_world s _ _ Hr)); [|done]. split; [done|]. by split.
Qed.

(** C25: Where writes do not fail, jobs never overlap: a request is accepted
    only while no job is open, and whatever is sent, concluded or given up
    belongs to the one job that is, which is the step the state shows. *)
Theorem guided_jobs_exclusive s :
  guided_run false s -> jobs_of (w_log (th_world s)) = Some (open_job (w_rt (th_world s))).
Proof. intros Hr. apply (guided_reachable s Hr). Qed.

(** C26: Where writes do not fail, the demo goes through its steps in their
    order, one after another, and has taken a checkpoint of verified backing
    after the set-up and after each completed step; it is complete exactly
    after the last. *)
Theorem guided_steps_in_order s : guided_run false s -> demo_ok (w_rt (th_world s)).
Proof. intros Hr. apply (guided_reachable s Hr). Qed.
End guided.
