(* ===== verification/GuidedStore.v ===== *)
(** * Guided runtime: revisions and the state file

    Whether or not writes fail: of the requests that expect the same revision
    only one is accepted, and the values of the state are written to the file
    one at a time, in the order of the changes.  Where writes do not fail the
    file holds the current state as soon as all writes asked for are settled. *)
From Stdlib Require Import Sorted.
From S2P Require Import Prelude TxQuotes AmmAccounting Programs Credits GuidedDemo GuidedRuntime GuidedServer GuidedWork GuidedProps.
Open Scope Z_scope.

Definition revision (g : Runtime) : Z := ds_revision (rt_state g).
Definition accepted (l : list entry) : list Z := omap (fun e => match e with Accepted _ r => Some r | _ => None end) l.
Definition captures (l : list entry) : list Saved := omap (fun e => match e with Captured v => Some v | _ => None end) l.
Definition attempts (l : list entry) : list nat := omap (fun e => match e with Wrote n _ | WriteFailed n => Some n | _ => None end) l.
Definition writes (l : list entry) : list (nat * Saved) := omap (fun e => match e with Wrote n v => Some (n, v) | _ => None end) l.
#[local] Arguments captures : simpl never.
#[local] Arguments attempts : simpl never.
#[local] Arguments writes : simpl never.
Definition saved_revision (v : Saved) : Z := ds_revision (sd_state v).

(** ** What an event does to the revision and to the queue of writes *)

(** The values captured by an event, and the requests it accepts: a captured
    value holds the state after the event. *)
Record captured_step (w w' : World) (n : nat) (v : Saved) (l : list entry) : Prop := {
  cs_ticket : n = rt_asked (w_rt w);
  cs_asked : rt_asked (w_rt w') = S (rt_asked (w_rt w));
  cs_begun : rt_begun (w_rt w') = rt_begun (w_rt w) /\ rt_settled (w_rt w') = rt_settled (w_rt w);
  cs_value : sd_state v = rt_state (w_rt w');
  cs_log : w_log w' = w_log w ++ l ++ [Captured v];
  cs_entries : captures l = [] /\ attempts l = [] /\ writes l = [];
  cs_file : w_file w' = w_file w;
  cs_revision : revision (w_rt w) <= revision (w_rt w') /\
                (accepted l = [] \/ accepted l = [revision (w_rt w)] /\ revision (w_rt w) < revision (w_rt w'));
}.
(** An event that neither captures, nor writes, nor moves the queue. *)
Record still_step (w w' : World) : Prop := {
  ss_queue : rt_asked (w_rt w') = rt_asked (w_rt w) /\ rt_begun (w_rt w') = rt_begun (w_rt w) /\ rt_settled (w_rt w') = rt_settled (w_rt w);
  ss_state : rt_state (w_rt w') = rt_state (w_rt w);
  ss_log : captures (w_log w') = captures (w_log w) /\ attempts (w_log w') = attempts (w_log w) /\
           writes (w_log w') = writes (w_log w) /\ accepted (w_log w') = accepted (w_log w);
  ss_file : w_file w' = w_file w;
}.

(** The value an event captures, if it does. *)
Definition capture_of (e : event) : answer e -> option (nat * Saved) :=
  match e return answer e -> option (nat * Saved) with
  | StartSession _ _ _ | StartStep _ _ _ _ | Finish _ _ | MarkConfirmed _ _ _ _ =>
      fun x => match x with Ok w => Some w | Err _ => None end
  | MarkFailed _ _ | PushSubmitted _ _ _ | Persist => fun x => Some x
  | _ => fun _ => None
  end.
Definition on_queue (e : event) : bool := match e with AwaitTail _ | WriteState _ | SettleTail _ => true | _ => false end.

Section store.
Context (runtimeId : string) (fails : bool).
Abbreviation Step := (guided_step runtimeId fails).

(** [g] may differ from the state of [w] in the fields of the session. *)
Lemma update_captured f g w l :
  (forall st, ds_revision (f st) = ds_revision st) ->
  revision g = revision (w_rt w) /\ rt_asked g = rt_asked (w_rt w) /\ rt_begun g = rt_begun (w_rt w) /\ rt_settled g = rt_settled (w_rt w) ->
  captures l = [] /\ attempts l = [] /\ writes l = [] ->
  accepted l = [] \/ accepted l = [revision g] ->
  captured_step w (noted (l ++ [Captured (snd (fst (update f g)))]) (become (snd (update f g)) w)) (rt_asked g) (snd (fst (update f g))) l.
Proof.
  intros Hf (Hr & Ha & Hb & Hs) Hl Hacc. split; try done; try (cbn; rewrite ?Ha, ?Hb, ?Hs; done).
  unfold revision, update in *. cbn. rewrite Hf. split; [lia|].
  destruct Hacc as [H|H]; [by left|right]. rewrite H. split; [by f_equal|lia].
Qed.

Lemma start_session_captured i rid r assetId w n v w' :
  Step i (StartSession rid r assetId) w (Ok (n, v)) w' -> exists l, captured_step w w' n v l.
Proof.
  intros (sessionId & Hx & ->). unfold start_session in *. destruct (_ && _) eqn:Hr; [|done]. apply andb_prop in Hr as [_ Hr].
  cbn [negb] in *. destruct (bool_decide _); [|done]. cbn [negb] in *. destruct (find _ _) as [asset|]; [|done].
  apply Z.eqb_eq in Hr. injection Hx as -> ->. exists [Accepted SetupJob r].
  refine (update_captured (begin_session sessionId asset) (forget_session (w_rt w)) w _ _ _ _ _); try done. right. by rewrite Hr.
Qed.
Lemma start_step_captured i rid sessionId r step w n v w' :
  Step i (StartStep rid sessionId r step) w (Ok (n, v)) w' -> exists l, captured_step w w' n v l.
Proof.
  intros (Hx & ->). unfold start_step in *. destruct (_ && _ && _) eqn:Hr; [|done]. apply andb_prop in Hr as [_ Hr].
  cbn [negb] in *. destruct (_ && _); [|done]. cbn [negb] in *. apply Z.eqb_eq in Hr. injection Hx as -> ->.
  exists [Accepted (StepJob step) r]. refine (update_captured (begin_running step) (w_rt w) w _ _ _ _ _); try done. right. by rewrite Hr.
Qed.
Lemma finish_captured i step snapshot w n v w' :
  Step i (Finish step snapshot) w (Ok (n, v)) w' -> exists l, captured_step w w' n v l.
Proof.
  intros (Hx & ->). unfold finish in *. destruct (rt_receipt (w_rt w)) as [receipt|]; [|done]. injection Hx as -> ->.
  exists [Concluded step]. refine (update_captured (match step with None => be_ready snapshot | Some s => complete_step s snapshot end)
    (set_receipt (Some (push_checkpoint (step, snapshot) receipt)) (w_rt w)) w _ _ _ _ _); try done; [by destruct step|by left].
Qed.
Lemma mark_failed_captured i j f w x w' :
  Step i (MarkFailed j f) w x w' -> exists l, captured_step w w' (fst x) (snd x) l.
Proof.
  intros (-> & ->). exists [ConcludedFailed j].
  refine (update_captured (be_failed (fl_error f) (fl_snapshot f)) (set_receipt (note_failure f <$> rt_receipt (w_rt w)) (w_rt w)) w [ConcludedFailed j] _ _ _ _);
    try done. by left.
Qed.
Lemma push_captured i step name signature w x w' :
  Step i (PushSubmitted step name signature) w x w' -> exists l, captured_step w w' (fst x) (snd x) l.
Proof.
  intros (-> & ->). exists []. refine (update_captured (push_submitted (MkTransaction step name signature submitted None)) (w_rt w) w [] _ _ _ _);
    try done. by left.
Qed.
Lemma mark_confirmed_captured i name signature slot status w n v w' :
  Step i (MarkConfirmed name signature slot status) w (Ok (n, v)) w' -> exists l, captured_step w w' n v l.
Proof.
  intros (Hx & ->). unfold mark_confirmed in *. destruct (mark_last _ _ _ _ _) as [transactions|]; [|done]. injection Hx as -> ->.
  exists []. refine (update_captured (set_transactions transactions) (w_rt w) w [] _ _ _ _); try done. by left.
Qed.
Lemma persist_captured i w x w' : Step i Persist w x w' -> exists l, captured_step w w' (fst x) (snd x) l.
Proof. intros (-> & ->). exists []. split; try done. cbn. split; [unfold revision; cbn; lia|by left]. Qed.

(** Every event captures a value, moves the queue, or leaves both alone. *)
Lemma captures_event i e w x w' :
  Step i e w x w' -> forall n v, capture_of e x = Some (n, v) -> exists l, captured_step w w' n v l.
Proof.
  intros Ho n v Hc. destruct e; try done; cbn in Hc.
  - destruct x as [z|]; [|done]. injection Hc as ->. by eapply start_session_captured.
  - destruct x as [z|]; [|done]. injection Hc as ->. by eapply start_step_captured.
  - destruct x as [z|]; [|done]. injection Hc as ->. by eapply finish_captured.
  - injection Hc as ->. by eapply (mark_failed_captured i j f w (n, v)).
  - injection Hc as ->. by eapply (push_captured i step name signature w (n, v)).
  - destruct x as [z|]; [|done]. injection Hc as ->. by eapply mark_confirmed_captured.
  - injection Hc as ->. by eapply (persist_captured i w (n, v)).
Qed.

Lemma still_refl w : still_step w w.
Proof. by split. Qed.

Lemma still_become w g' :
  rt_asked g' = rt_asked (w_rt w) -> rt_begun g' = rt_begun (w_rt w) -> rt_settled g' = rt_settled (w_rt w) ->
  rt_state g' = rt_state (w_rt w) -> still_step w (become g' w).
Proof. intros. by split. Qed.
(** What throws changes nothing, and is not noted. *)
Lemma still_throws (r : res (nat * Saved) * Runtime) (accepts : entry) (e : failure) w w' :
  Err e = fst r -> (forall g' e', r = (Err e', g') -> g' = w_rt w) ->
  w' = noted ((if is_ok (fst r) then [accepts] else []) ++ capturing (fst r)) (become (snd r) w) -> still_step w w'.
Proof. intros Hr Hg ->. destruct r as [x g']. cbn in *. subst x. rewrite (Hg _ _ eq_refl). cbn. rewrite noted_nothing. apply still_refl. Qed.

Lemma still_event i e w x w' :
  Step i e w x w' -> on_queue e = false -> capture_of e x = None -> still_step w w'.
Proof.
  intros Ho Hq Hc. destruct e; try done; cbn in Ho, Hc;
    try lazymatch type of Ho with
    | _ = w => subst; apply still_refl
    | _ /\ _ = w => destruct Ho as [_ ->]; apply still_refl
    | _ = w /\ _ => destruct Ho as [-> _]; apply still_refl
    | _ = become _ w => subst; by apply still_become
    | _ = set_pending _ w => subst; by split
    | _ = set_queue _ _ w => subst; by split
    | _ /\ _ = set_queue _ _ w => destruct Ho as [_ ->]; by split
    end.
  - destruct x as [|e]; [done|]. destruct Ho as (sid & Hx & ->). eapply still_throws; [exact Hx| |done].
    intros g' e'. apply start_session_err.
  - destruct x as [|e]; [done|]. destruct Ho as (Hx & ->). eapply still_throws; [exact Hx| |done]. intros g' e'. apply start_step_err.
  - destruct x as [|e]; [done|]. destruct Ho as (Hx & ->). eapply still_throws; [exact Hx| |done]. intros g' e'. apply finish_err.
  - destruct x as [|e]; [done|]. destruct Ho as (Hx & ->).
    destruct (mark_confirmed _ _ _ _ _) as [r g] eqn:Hr. cbn in *. subst r. apply mark_confirmed_err in Hr as ->.
    cbn. rewrite noted_nothing. apply still_refl.
  - destruct w0 as [n v]. destruct Ho as [[_ ->]|(_ & _ & ->)]; [by split|apply still_refl].
  - destruct Ho as (before & after & _ & ->). by split.
  - unfold assigned in Ho. destruct (is_ok x); [destruct Ho as (g & (signers & ->) & ->); by apply still_become|subst; apply still_refl].
  - destruct (is_ok x); subst; [by apply still_become|apply still_refl].
  - destruct Ho as [_ ->]. unfold new_receipt. destruct (asset_of _); by apply still_become.
  - unfold assigned in Ho. destruct (is_ok x); [destruct Ho as (g & (known & ->) & ->); by apply still_become|subst; apply still_refl].
  - unfold assigned in Ho. destruct (is_ok x); [destruct Ho as (g & (pool & ->) & ->); by apply still_become|subst; apply still_refl].
  - subst w'. split; try done. cbn. unfold captures, attempts, writes, accepted. rewrite !omap_app. cbn. by rewrite !app_nil_r.
Qed.

(** ** Revisions *)

Lemma revision_event i e w x w' :
  Step i e w x w' ->
  revision (w_rt w) <= revision (w_rt w') /\
  (accepted (w_log w') = accepted (w_log w) \/
   accepted (w_log w') = accepted (w_log w) ++ [revision (w_rt w)] /\ revision (w_rt w) < revision (w_rt w')).
Proof.
  intros Ho. destruct (on_queue e) eqn:Hq.
  - destruct e; try done; cbn in Ho; destruct w0 as [n v]; [destruct Ho as (_ & _ & ->)|destruct Ho as [[_ ->]|(_ & _ & ->)]|subst w'];
      (split; [done|left; cbn; unfold accepted; by rewrite ?omap_app, ?app_nil_r]).
  - destruct (capture_of e x) as [[n v]|] eqn:Hc.
    + destruct (captures_event _ _ _ _ _ Ho _ _ Hc) as [l Hs]. destruct (cs_revision _ _ _ _ _ Hs) as [Hr Ha]. split; [done|].
      rewrite (cs_log _ _ _ _ _ Hs). unfold accepted in *. rewrite !omap_app. destruct Ha as [->|[-> Hlt]]; [left|right]; cbn; by rewrite ?app_nil_r.
    + destruct (still_event _ _ _ _ _ Ho Hq Hc) as [_ Hst (_ & _ & _ & Ha) _]. unfold revision. rewrite Hst. split; [done|]. by left.
Qed.

Definition revisions_ok (w : World) : Prop :=
  StronglySorted Z.lt (accepted (w_log w)) /\ Forall (fun r => r < revision (w_rt w)) (accepted (w_log w)).

Lemma sorted_snoc {A} (R : A -> A -> Prop) l x : StronglySorted R l -> Forall (fun y => R y x) l -> StronglySorted R (l ++ [x]).
Proof.
  induction 1 as [|y l Hl IH Hy]; intros Hx; cbn; [by repeat constructor|]. apply Forall_cons in Hx as [Hyx Hx].
  constructor; [by apply IH|]. apply Forall_app. by split; [|constructor].
Qed.
Lemma sublist_sorted {A} (R : A -> A -> Prop) l l' : sublist l l' -> StronglySorted R l' -> StronglySorted R l.
Proof.
  induction 1 as [|x l l' Hl IH|x l l' Hl IH]; intros Hs; [done| |]; apply StronglySorted_inv in Hs as [Hs Hx]; [|by apply IH].
  constructor; [by apply IH|]. apply Forall_forall. intros y Hy. rewrite Forall_forall in Hx. apply Hx. by eapply elem_of_sublist.
Qed.
Lemma seq_sorted i n : StronglySorted lt (seq i n).
Proof.
  revert i. induction n as [|n IH]; intros i; cbn; constructor; [apply IH|]. apply Forall_forall. intros j Hj%elem_of_seq. lia.
Qed.
Lemma revisions_step i e w x w' : Step i e w x w' -> revisions_ok w -> revisions_ok w'.
Proof.
  intros Ho [Hs Hf]. destruct (revision_event _ _ _ _ _ Ho) as [Hr Ha]. unfold revisions_ok. destruct Ha as [->|[-> Hlt]].
  - split; [done|]. eapply Forall_impl; [exact Hf|]. cbn. lia.
  - split; [by apply sorted_snoc|]. apply Forall_app. split; [eapply Forall_impl; [exact Hf|]; cbn; lia|by repeat constructor].
Qed.

(** ** The queue of writes *)

(** Where a captured value is: waiting for its turn, at its turn, or attempted. *)
Inductive right := Waiting (c : nat * Saved) | Turn (c : nat * Saved) | Attempted (c : nat * Saved).
#[local] Instance right_eq_dec : EqDecision right. Proof. solve_decision. Defined.

Section tickets.
Context (k : right).
Definition ticket (h : right) : Z := Z.b2z (bool_decide (h = k)).
Definition right_earn (e : event) (x : answer e) : Z :=
  match capture_of e x with
  | Some c => ticket (Waiting c)
  | None => match e with AwaitTail c => ticket (Turn c) | WriteState c => ticket (Attempted c) | _ => 0 end
  end.
Definition right_spend (e : event) : Z :=
  match e with
  | AwaitTail c => ticket (Waiting c) | WriteState c => ticket (Turn c) | SettleTail c => ticket (Attempted c)
  | _ => 0
  end.
Definition any_event (e : event) : Prop := True.
Definition any_answer (e : event) (x : answer e) : Prop := True.
Abbreviation Obeys := (obeys any_event any_answer right_earn right_spend).
Abbreviation Keeps c m := (Obeys c%Z m (fun _ d => d = c%Z)).

Lemma ticket_nonneg h : 0 <= ticket h.
Proof. unfold ticket. case_bool_decide; cbn; lia. Qed.

(** A captured value is written, and its place given up. *)
Lemma right_write c v : 0 <= c -> Obeys (c + ticket (Waiting v)) (write v) (fun _ d => d = c).
Proof.
  intros Hc. pose proof (ticket_nonneg (Waiting v)). pose proof (ticket_nonneg (Turn v)). pose proof (ticket_nonneg (Attempted v)).
  unfold write. apply obeys_act; [done|cbn; lia|]. intros x _. split; [done|]. apply obeys_bind, obeys_bind.
  apply (obeys_weaken _ _ _ _ _ _ (fun r d => d = c + ticket (Attempted v))).
  - intros r d ->. split; [done|]. split; [cbn; lia|]. intros y _. split; [done|]. cbn. lia.
  - unfold write_values. apply obeys_ask; [done|cbn; lia|]. intros [u|e] _; (split; [done|]); [|cbn; lia].
    destruct (ds_sessionId _) as [sid|]; [|cbn; lia]. destruct (bool_decide _); [cbn; lia|].
    split; [done|]. split; [cbn; lia|]. intros y _. cbn. split; [done|]. destruct y; cbn; lia.
Qed.
(** An event that captures, and what is done with what it captured. *)
Lemma right_captures {A} (e : event) (f : answer e -> res (nat * Saved)) (h : nat * Saved -> rt A) c Q :
  0 <= c -> right_spend e = 0 -> (forall x, match f x with Ok v => capture_of e x = Some v | Err _ => right_earn e x = 0 end) ->
  (forall v, Obeys (c + ticket (Waiting v)) (h v) Q) -> (forall err, Q (Err err) c) -> Obeys c (trigger_result e f ≫= h) Q.
Proof.
  intros Hc Hs Hx Hh He. apply obeys_ask; [done|lia|]. intros x _. rewrite Hs. specialize (Hx x).
  assert (Hn : 0 <= right_earn e x).
  { unfold right_earn. destruct (capture_of e x); [apply ticket_nonneg|]. destruct e; try done; apply ticket_nonneg. }
  split; [done|]. destruct (f x) as [v|err]; [|rewrite Hx; replace (c - 0 + 0) with c by lia; apply He].
  unfold right_earn. rewrite Hx. replace (c - 0 + _) with (c + ticket (Waiting v)) by lia. apply Hh.
Qed.
Lemma right_then {A} v (g : unit -> rt A) c Q :
  0 <= c -> (forall u, Obeys c (g u) Q) -> (forall err, Q (Err err) c) -> Obeys (c + ticket (Waiting v)) (write v ≫= g) Q.
Proof.
  intros Hc Hg He. apply obeys_bind. eapply obeys_weaken; [|by apply right_write]. intros [u|err] d ->; [apply Hg|apply He].
Qed.
#[local] Ltac captures := apply right_captures; [lia|done|by intros []|intros v; by apply right_write|done].

#[local, refine] Instance ticket_account : Account := {
  pay_allowed := any_event; pay_sane := any_answer; pay_earn := right_earn; pay_spend := right_spend; pay_floor _ := 0;
}.
Proof.
  - done.
  - intros [] He; try discriminate He; by split.
  - by intros step name transaction.
  - done.
  - intros c step name signature Hc. captures.
  - intros c name signature slot status Hc. captures.
  - intros c Hc. captures.
Defined.

Context (usdc : PublicKey) (swapBaseInput : Z -> Z -> Z -> Z -> Z -> Z -> Z -> bool -> CurveResult) (port : Z).
Lemma conclude_rights step c : 0 <= c -> Keeps c (conclude usdc step).
Proof.
  intros Hc. apply obeys_after; [by apply (take_snapshot_works (account:=ticket_account) _ None)|intros snapshot|done].
  apply credit_bind; [done|]. intros _. captures.
Qed.
Lemma fail_rights j e c : 0 <= c -> Keeps c (fail usdc j e).
Proof.
  intros Hc. apply credit_bind; [by apply (plain_trigger (account:=ticket_account))|]. intros [[failedStep last] readable].
  apply credit_bind.
  - destruct readable; [|done]. apply credit_attempt. by apply (take_snapshot_works (account:=ticket_account) _ None).
  - intros observed. apply right_captures; [lia|done|done| |done]. intros v. apply obeys_bind, obeys_bind.
    eapply obeys_weaken; [|by apply right_write]. by intros r d ->.
Qed.
Lemma job_rights j c : 0 <= c -> Keeps c (job_body usdc swapBaseInput j).
Proof.
  intros Hc. apply credit_bind; [by apply credit_event|]. intros _. apply credit_bind; [apply credit_attempt|].
  - destruct j as [|step]; [apply (setup_obeys (account:=ticket_account))|apply (step_obeys (account:=ticket_account))];
      try done; by apply conclude_rights.
  - intros [u|e]; [done|by apply fail_rights].
Qed.
Lemma beginStart_rights rid revision assetId c : 0 <= c -> Keeps c (beginStart rid revision assetId).
Proof.
  intros Hc. apply right_captures; [lia|done|by intros []| |done]. intros v. apply right_then; [done|intros _|done]. by apply credit_event.
Qed.
Lemma beginStep_rights rid sessionId revision step c : 0 <= c -> Keeps c (beginStep rid sessionId revision step).
Proof.
  intros Hc. apply right_captures; [lia|done|by intros []| |done]. intros v. apply right_then; [done|intros _|done]. by apply credit_event.
Qed.
Lemma program_rights p : starts usdc swapBaseInput port p -> Obeys 0 p (fun _ _ => True).
Proof.
  intros [[rq|j] ->]; cbn [program].
  - apply obeys_bind, obeys_bind. eapply obeys_weaken; [|apply (answer_keeps (account:=ticket_account)); [done|..]]; [by intros [r|e] d _|..].
    + intros. by apply beginStart_rights.
    + intros. by apply beginStep_rights.
  - apply obeys_bind. eapply obeys_weaken; [|by apply job_rights]. by intros r d _.
Qed.
End tickets.

(** What holds of the queue and of the file at every moment. *)
Record queue_ok (w : World) : Prop := {
  qo_asked : length (captures (w_log w)) = rt_asked (w_rt w);
  qo_order : (rt_settled (w_rt w) <= rt_begun (w_rt w) <= S (rt_settled (w_rt w)))%nat /\ (rt_begun (w_rt w) <= rt_asked (w_rt w))%nat;
  qo_attempts : attempts (w_log w) = seq 0 (rt_settled (w_rt w)) \/
                rt_begun (w_rt w) = S (rt_settled (w_rt w)) /\ attempts (w_log w) = seq 0 (S (rt_settled (w_rt w)));
  qo_writes : Forall (fun c => captures (w_log w) !! fst c = Some (snd c)) (writes (w_log w));
  qo_tickets : sublist (writes (w_log w)).*1 (attempts (w_log w));
  qo_all : fails = false -> (writes (w_log w)).*1 = attempts (w_log w);
  qo_file : w_file w = snd <$> last (writes (w_log w));
  qo_state : forall v, last (captures (w_log w)) = Some v -> sd_state v = rt_state (w_rt w);
  qo_revisions : StronglySorted Z.le (map saved_revision (captures (w_log w))) /\
                 Forall (fun v => saved_revision v <= revision (w_rt w)) (captures (w_log w));
}.

(** Where a captured value stands. *)
Definition holds (h : right) (w : World) : Prop :=
  match h with
  | Waiting (n, v) => captures (w_log w) !! n = Some v /\ (rt_begun (w_rt w) <= n)%nat
  | Turn (n, v) => captures (w_log w) !! n = Some v /\ rt_settled (w_rt w) = n /\ rt_begun (w_rt w) = S n /\ attempts (w_log w) = seq 0 n
  | Attempted (n, v) =>
      captures (w_log w) !! n = Some v /\ rt_settled (w_rt w) = n /\ rt_begun (w_rt w) = S n /\ attempts (w_log w) = seq 0 (S n)
  end.
#[local] Instance holds_dec h w : Decision (holds h w).
Proof. destruct h as [[n v]|[n v]|[n v]]; cbn; apply _. Defined.
Definition standing (h : right) (w : World) : Z := Z.b2z (bool_decide (holds h w)).

Definition gains (e : event) (x : answer e) : option right :=
  match capture_of e x with
  | Some c => Some (Waiting c)
  | None => match e with AwaitTail c => Some (Turn c) | WriteState c => Some (Attempted c) | _ => None end
  end.
Definition gives_up (e : event) : option right :=
  match e with
  | AwaitTail c => Some (Waiting c) | WriteState c => Some (Turn c) | SettleTail c => Some (Attempted c)
  | _ => None
  end.
(** What an event has to show of the rights. *)
Definition moves (e : event) (w : World) (x : answer e) (w' : World) : Prop :=
  (forall h, gains e x = Some h -> ~ holds h w /\ holds h w') /\ (forall h, holds h w -> gives_up e <> Some h -> holds h w').

Lemma holds_given_up e w : (forall k, 0 <= right_spend k e <= standing k w) -> forall h, gives_up e = Some h -> holds h w.
Proof.
  intros Hb h Hh. specialize (Hb h). assert (Hs : right_spend h e = 1).
  { destruct e; try done; injection Hh as <-; cbn; unfold ticket; by rewrite bool_decide_true. }
  unfold standing in Hb. case_bool_decide; [done|cbn in Hb; lia].
Qed.
Lemma moves_standing e w x w' :
  (forall k, 0 <= right_spend k e <= standing k w) -> moves e w x w' ->
  forall k, standing k w - right_spend k e + right_earn k e x <= standing k w'.
Proof.
  intros Hb [Hg Hk] k. pose proof (holds_given_up e w Hb) as Hs. specialize (Hk k).
  assert (right_spend k e = from_option (ticket k) 0 (gives_up e)) as -> by (by destruct e).
  assert (right_earn k e x = from_option (ticket k) 0 (gains e x)) as ->.
  { unfold right_earn, gains. destruct (capture_of e x); [done|]. by destruct e. }
  unfold standing. destruct (gives_up e) as [h|], (gains e x) as [h'|]; cbn [from_option]; unfold ticket;
    try specialize (Hs _ eq_refl); try specialize (Hg _ eq_refl); repeat case_bool_decide; subst; cbn; try lia; exfalso; try tauto.
  all: match goal with Hk : holds _ _ -> Some ?h <> Some ?k -> _ |- _ => assert (Some h <> Some k) by congruence; tauto | _ => idtac end.
  all: assert (@None right <> Some k) by done; tauto.
Qed.

Lemma captures_app l l' : captures (l ++ l') = captures l ++ captures l'.
Proof. apply omap_app. Qed.
Lemma attempts_app l l' : attempts (l ++ l') = attempts l ++ attempts l'.
Proof. apply omap_app. Qed.
Lemma writes_app l l' : writes (l ++ l') = writes l ++ writes l'.
Proof. apply omap_app. Qed.

Lemma capture_queue w w' n v l e x :
  captured_step w w' n v l -> capture_of e x = Some (n, v) -> gives_up e = None -> queue_ok w -> queue_ok w' /\ moves e w x w'.
Proof.
  intros [Hn Ha [Hb Hs] Hv Hl (Hc & Hat & Hw) Hf [Hr _]] He Hg [qa [qb1 qb2] qt qw qk qall qf qs [qr1 qr2]].
  assert (Hcap : captures (w_log w') = captures (w_log w) ++ [v]) by (by rewrite Hl, !captures_app, Hc).
  assert (Hatt : attempts (w_log w') = attempts (w_log w)) by (rewrite Hl, !attempts_app, Hat; cbn; by rewrite app_nil_r).
  assert (Hwr : writes (w_log w') = writes (w_log w)) by (rewrite Hl, !writes_app, Hw; cbn; by rewrite app_nil_r).
  assert (Hv' : saved_revision v = revision (w_rt w')) by (unfold saved_revision; by rewrite Hv).
  split; [split; rewrite ?Hcap, ?Hatt, ?Hwr, ?Ha, ?Hb, ?Hs, ?Hf; try done|].
  - rewrite length_app. cbn. lia.
  - lia.
  - eapply Forall_impl; [exact qw|]. intros [m u] Hm. by apply lookup_app_l_Some.
  - intros u. rewrite last_snoc. by intros [= <-].
  - rewrite map_app. cbn. split.
    + apply sorted_snoc; [done|]. apply Forall_fmap. eapply Forall_impl; [exact qr2|]. cbn. lia.
    + apply Forall_app. split; [eapply Forall_impl; [exact qr2|]; cbn; lia|repeat constructor; lia].
  - unfold moves, gains. rewrite He, Hg. split.
    + intros h [= <-]. cbn. rewrite Hcap, Hb. split; [intros [Hx _]; apply lookup_lt_Some in Hx; lia|].
      split; [rewrite lookup_app_r by lia; by rewrite Hn, qa, Nat.sub_diag|lia].
    + intros h Hh _. destruct h as [[m u]|[m u]|[m u]]; cbn in *; rewrite Hcap, Hb, ?Hs, ?Hatt; destruct Hh as [Hm Hh];
        (split; [by apply lookup_app_l_Some|done]).
Qed.

Lemma still_queue w w' e x : still_step w w' -> gains e x = None -> queue_ok w -> queue_ok w' /\ moves e w x w'.
Proof.
  intros [(Ha & Hb & Hs) Hst (Hc & Hat & Hw & _) Hf] Hg [qa qb qt qw qk qall qf qs qr].
  split; [split; unfold revision; by rewrite ?Hc, ?Hat, ?Hw, ?Ha, ?Hb, ?Hs, ?Hf, ?Hst|].
  split; [by rewrite Hg|]. intros h Hh _. destruct h as [[m u]|[m u]|[m u]]; cbn in *; by rewrite ?Hc, ?Hat, ?Hb, ?Hs.
Qed.

(** The turn of a value comes when all before it are settled. *)
Lemma await_queue i c w x w' :
  Step i (AwaitTail c) w x w' -> holds (Waiting c) w -> queue_ok w -> queue_ok w' /\ moves (AwaitTail c) w x w'.
Proof.
  destruct c as [n v]. intros (Hb & Hs & ->) [Hc Hle] [qa [qb1 qb2] qt qw qk qall qf qs qr]. pose proof (lookup_lt_Some _ _ _ Hc).
  assert (Hat : attempts (w_log w) = seq 0 (rt_settled (w_rt w))) by (destruct qt as [|[? _]]; [done|lia]).
  split; [split; cbn; try done; [lia|by left]|]. split.
  - intros h [= <-]. cbn. rewrite Hb, Hs. split; [intros (_ & _ & ? & _); lia|]. split; [done|]. split; [done|]. split; [lia|]. by rewrite Hat, Hs.
  - intros h Hh Hne. destruct h as [[m u]|[m u]|[m u]]; cbn in *; [|lia|lia]. destruct Hh as [Hm Hb']. split; [done|].
    assert (m <> n) by (intros ->; apply Hne; congruence). lia.
Qed.

Lemma seq_snoc n : seq 0 (S n) = seq 0 n ++ [n].
Proof. by rewrite seq_S. Qed.
Lemma seq_grows n : seq 0 n <> seq 0 (S n).
Proof. intros Hf%(f_equal length). rewrite !length_seq in Hf. lia. Qed.
Lemma write_queue i c w x w' :
  Step i (WriteState c) w x w' -> holds (Turn c) w -> queue_ok w -> queue_ok w' /\ moves (WriteState c) w x w'.
Proof.
  destruct c as [n v]. intros Ho (Hc & Hs & Hb & Hat) [qa [qb1 qb2] qt qw qk qall qf qs qr].
  assert (Hq : rt_asked (w_rt w') = rt_asked (w_rt w) /\ rt_begun (w_rt w') = rt_begun (w_rt w) /\ rt_settled (w_rt w') = rt_settled (w_rt w)
    /\ rt_state (w_rt w') = rt_state (w_rt w) /\ captures (w_log w') = captures (w_log w) /\ attempts (w_log w') = seq 0 (S n)).
  { rewrite seq_snoc. destruct Ho as [[_ ->]|(_ & _ & ->)]; cbn; rewrite captures_app, attempts_app, Hat; cbn; by rewrite ?app_nil_r. }
  destruct Hq as (Ha' & Hb' & Hs' & Hst & Hc' & Hat').
  assert (Hm : moves (WriteState (n, v)) w x w').
  { split.
    - intros h [= <-]. cbn. rewrite Hc', Hs', Hb', Hat', Hat. split; [|done]. intros (_ & _ & _ & Hf). exact (seq_grows _ Hf).
    - intros h Hh Hne. destruct h as [[m u]|[m u]|[m u]]; cbn in *; [by rewrite Hc', Hb'| |].
      + destruct Hh as (Hm & Hs1 & _). exfalso. apply Hne. assert (m = n) as -> by lia. congruence.
      + destruct Hh as (_ & Hs1 & _ & Hf). assert (m = n) as -> by lia. rewrite Hat in Hf. destruct (seq_grows _ Hf). }
  split; [|done]. split; unfold revision; rewrite ?Ha', ?Hb', ?Hs', ?Hst, ?Hc'; try done.
  - right. split; [lia|]. by rewrite Hat', Hs.
  - destruct Ho as [[_ ->]|(_ & _ & ->)]; cbn; rewrite writes_app; cbn; [|by rewrite app_nil_r]. apply Forall_app. by repeat constructor.
  - rewrite Hat', seq_snoc. rewrite Hat in qk. destruct Ho as [[_ ->]|(_ & _ & ->)]; cbn; rewrite writes_app; cbn.
    + rewrite fmap_app. by apply sublist_app.
    + rewrite app_nil_r. by apply sublist_inserts_r.
  - intros Hf. rewrite Hat', seq_snoc, <- Hat, <- (qall Hf). destruct Ho as [[_ ->]|(? & _ & _)]; [|congruence].
    cbn. by rewrite writes_app, fmap_app.
  - destruct Ho as [[_ ->]|(_ & _ & ->)]; cbn; rewrite writes_app; cbn; [change (writes [Wrote n v]) with [(n, v)]; by rewrite last_snoc|by rewrite app_nil_r].
Qed.

Lemma settle_queue i c w x w' :
  Step i (SettleTail c) w x w' -> holds (Attempted c) w -> queue_ok w -> queue_ok w' /\ moves (SettleTail c) w x w'.
Proof.
  destruct c as [n v]. intros -> (Hc & Hs & Hb & Hat) [qa [qb1 qb2] qt qw qk qall qf qs qr].
  split; [split; cbn; try done; [lia|left; by rewrite Hat, Hs]|]. split; [done|].
  intros h Hh Hne. destruct h as [[m u]|[m u]|[m u]]; cbn in *; [done| |].
  - destruct Hh as (_ & Hs1 & _ & Hf). assert (m = n) as -> by lia. rewrite Hat in Hf. destruct (seq_grows _ (eq_sym Hf)).
  - destruct Hh as (Hm & Hs1 & _). exfalso. apply Hne. assert (m = n) as -> by lia. congruence.
Qed.

Lemma queue_sound i e w x w' :
  queue_ok w -> any_event e -> (forall k, 0 <= right_spend k e <= standing k w) -> Step i e w x w' ->
  queue_ok w' /\ any_answer e x /\ forall k, standing k w - right_spend k e + right_earn k e x <= standing k w'.
Proof.
  intros Hq _ Hb Ho. enough (queue_ok w' /\ moves e w x w') as [? Hm] by (split; [done|]; split; [done|by apply moves_standing]).
  pose proof (holds_given_up e w Hb) as Hg. destruct (on_queue e) eqn:Hqu.
  - destruct e; try done; [eapply await_queue|eapply write_queue|eapply settle_queue]; eauto.
  - assert (gives_up e = None) by (by destruct e). destruct (capture_of e x) as [[n v]|] eqn:Hc.
    + destruct (captures_event _ _ _ _ _ Ho _ _ Hc) as [l Hs]. by eapply capture_queue.
    + apply still_queue; [by eapply still_event| |done]. unfold gains. rewrite Hc. by destruct e.
Qed.
End store.

Section guided.
Context (usdc : PublicKey) (swapBaseInput : Z -> Z -> Z -> Z -> Z -> Z -> Z -> bool -> CurveResult) (port : Z) (runtimeId : string).

Lemma queue_reachable fails s : guided_run usdc swapBaseInput port runtimeId fails s -> queue_ok fails (th_world s).
Proof.
  intros Hr. refine (proj1 (funded_reachable (Waiting (O, MkSaved first_state None)) any_event any_answer right_earn right_spend
    (guided_step runtimeId fails) (queue_ok fails) standing (starts usdc swapBaseInput port) (fun _ _ => True)
    (queue_sound runtimeId fails) (fun p k => program_rights k usdc swapBaseInput port p) first_world s _ _ Hr)).
  - split; cbn; try done; try lia; first [by left|by constructor|by split; constructor].
  - intros k. unfold standing. case_bool_decide; done.
Qed.

(** Whether or not writes fail, no two accepted requests expected the same
    revision: the revisions the accepted requests expected grow from one to the
    next, and every one of them is below the revision shown after it. *)
Theorem guided_revision_lock fails s :
  guided_run usdc swapBaseInput port runtimeId fails s ->
  StronglySorted Z.lt (accepted (w_log (th_world s))) /\
  Forall (fun r => r < revision (w_rt (th_world s))) (accepted (w_log (th_world s))).
Proof.
  intros Hr. refine (world_reachable _ _ revisions_ok _ _ (revisions_step runtimeId fails) Hr _). split; constructor.
Qed.

(** Whether or not writes fail, the state file holds what was written last,
    and what is written are the values of the state in the order they were
    captured, each at most once: the revision in the file never goes back. *)
Theorem guided_file_in_order fails s :
  guided_run usdc swapBaseInput port runtimeId fails s ->
  let w := th_world s in
  w_file w = snd <$> last (writes (w_log w)) /\
  StronglySorted lt (writes (w_log w)).*1 /\
  Forall (fun c => captures (w_log w) !! fst c = Some (snd c)) (writes (w_log w)) /\
  StronglySorted Z.le (map saved_revision (captures (w_log w))).
Proof.
  intros Hr. destruct (queue_reachable fails s Hr) as [_ _ qt qw qk _ qf _ [qr _]]. split; [done|]. split; [|done].
  apply (sublist_sorted _ _ _ qk). destruct qt as [->|[_ ->]]; apply seq_sorted.
Qed.

(** Where writes do not fail, the state file holds the state shown whenever
    all the writes asked for are settled. *)
Theorem guided_file_current s :
  guided_run usdc swapBaseInput port runtimeId false s ->
  let g := w_rt (th_world s) in
  (0 < rt_asked g)%nat -> rt_settled g = rt_asked g -> exists v, w_file (th_world s) = Some v /\ sd_state v = rt_state g.
Proof.
  intros Hr g H0 Hall. destruct (queue_reachable false s Hr) as [qa [qb1 qb2] qt qw _ qall qf qs _]. fold g in qa, qb1, qb2, qt, qs.
  assert (Hseq : (writes (w_log (th_world s))).*1 = seq 0 (rt_asked g)).
  { rewrite (qall eq_refl). destruct qt as [->|[? _]]; [by rewrite Hall|lia]. }
  destruct (last (writes (w_log (th_world s)))) as [[n v]|] eqn:Hl.
  - exists v. split; [by rewrite qf|]. apply qs. rewrite last_lookup, qa.
    assert (Hn : last (seq 0 (rt_asked g)) = Some n) by (by rewrite <- Hseq, fmap_last, Hl).
    rewrite last_lookup, length_seq in Hn. apply lookup_seq in Hn as [-> _].
    rewrite last_lookup in Hl. apply (Forall_lookup_1 _ _ _ _ qw Hl).
  - apply last_None in Hl. rewrite Hl in Hseq. destruct (rt_asked g); [lia|done].
Qed.
End guided.
