(* ===== verification/GuidedExamples.v ===== *)
(** * Guided runtime: runs

    A chain that answers as the transactions sent so far make it, and the runs
    the theorems are applied to: a set-up and a first step, and what a write
    that fails leads to. *)
From Stdlib Require Import Sorted.
From S2P Require Import Prelude Js Utf8 Json TxBytes TxQuotes TxAccounts AmmAccounting Programs GuidedDemo GuidedRuntime GuidedServer.
From S2P Require Import GuidedWork GuidedProps GuidedStore.
Open Scope Z_scope.

(** ** The chain *)

Definition gx_sent (name : string) (w : World) : bool :=
  existsb (fun e => match e with Sent _ n _ => bool_decide (n = name) | _ => false end) (w_log w).
Definition gx_funded (w : World) : bool := gx_sent "mint_100_selected_test_stock" w.
Definition gx_split (w : World) : bool := gx_sent "split_100_test_stock" w.
Definition gx_hundred (b : bool) : Z := if b then 100 * 10 ^ 8 else 0.

Definition gx_usdc : PublicKey := [9].
Definition gx_signers : RuntimeSigners := MkSigners [7] [8] [3].
Definition gx_known : KnownAddresses := MkKnown [2] [1] [10] [4] [5] [6].
Definition gx_clock : ChainClock := Clock 20 0 0 0 1767225599 20.
Definition gx_series (w : World) : SeriesSnapshot :=
  Series [1] [2] [3] [4] [5] [6] 2026 9 1767225600 1798761600 open (gx_hundred (gx_split w)) 0 0 0 4 [7] [7] 0 0 0 0 0 0 0 0.
Definition gx_policy : AssetPolicySnapshot := Policy [2] [3] 8 0 true 10 1800000000 [7] (Scale 0 0 0 0) [7] true.
Definition gx_account (mint owner : PublicKey) (amount : Z) : TokenAccount := MkAccount mint owner amount None None true false.
Definition gx_reading (w : World) : Reading :=
  let provider := gx_hundred (gx_funded w && negb (gx_split w)) in let split := gx_hundred (gx_split w) in
  MkReading gx_clock [3] (gx_series w) [1] (MkMintReading 8 (gx_hundred (gx_funded w))) 4607182418800017408 (gx_account [3] [1] split)
    (gx_account [3] [7] provider) (gx_account [4] [7] split) (gx_account [5] [7] split) (gx_account gx_usdc [7] (10 * 10 ^ 6))
    (gx_account [3] [8] 0) (gx_account [4] [8] 0) (gx_account [5] [8] 0) (gx_account gx_usdc [8] (1 * 10 ^ 6))
    (MkMintReading 8 split) (MkMintReading 8 split) (MkQuoteMint 6 (50 * 10 ^ 6) true true) None.
Definition gx_quote (w : World) : CoherentQuoteSnapshot :=
  QuoteSnapshot 20 gx_clock gx_policy (gx_series w) (Accumulator [10] [1] 0 [] []) (Profile 8 0 (Scale 0 0 0 0) [7] true)
    (gx_hundred (gx_split w)) (Some (gx_hundred (gx_funded w && negb (gx_split w)))) (Some (gx_hundred (gx_split w)))
    (Some (gx_hundred (gx_split w))).
Definition gx_config : AmmConfig := MkConfig (Fees 2500 120000 40000) "".

(** ** The answers *)

Definition gx_take (j : job) (l : list job) : option (list job) :=
  match l with j' :: rest => if bool_decide (j' = j) then Some rest else None | [] => None end.

(** Every answer the chain and the file system may give; the writes in [bad] fail. *)
Definition gx_handler (bad : list nat) (e : event) (w : World) : option (answer e * World) :=
  let g := w_rt w in
  match e return option (answer e * World) with
  | StartSession rid revision assetId =>
      let r := start_session "runtime" rid revision assetId "session" g in
      Some (fst r, noted ((if is_ok (fst r) then [Accepted SetupJob revision] else []) ++ capturing (fst r)) (become (snd r) w))
  | StartStep rid sessionId revision step =>
      let r := start_step "runtime" rid sessionId revision step g in
      Some (fst r, noted ((if is_ok (fst r) then [Accepted (StepJob step) revision] else []) ++ capturing (fst r)) (become (snd r) w))
  | Finish step snapshot =>
      let r := finish step snapshot g in
      Some (fst r, noted ((if is_ok (fst r) then [Concluded step] else []) ++ capturing (fst r)) (become (snd r) w))
  | MarkFailed j f =>
      Some (fst (mark_failed f g), noted [ConcludedFailed j; Captured (snd (fst (mark_failed f g)))] (become (snd (mark_failed f g)) w))
  | PushSubmitted step name signature =>
      let r := update (push_submitted (MkTransaction step name signature submitted None)) g in
      Some (fst r, noted [Captured (snd (fst r))] (become (snd r) w))
  | MarkConfirmed name signature slot status =>
      let r := mark_confirmed name signature slot status g in Some (fst r, noted (capturing (fst r)) (become (snd r) w))
  | Persist => Some (fst (capture g), noted [Captured (snd (fst (capture g)))] (become (snd (capture g)) w))
  | AwaitTail (ticket, _) =>
      if Nat.eqb (rt_begun g) ticket && Nat.eqb (rt_settled g) ticket
      then Some (tt, become (set_tail (rt_asked g) (S (rt_begun g)) (rt_settled g) g) w) else None
  | WriteState (ticket, value) =>
      if bool_decide (ticket ∈ bad) then Some (Err (Thrown "EIO"), noted [WriteFailed ticket] w) else Some (Ok tt, wrote ticket value w)
  | WriteSession sessionId (_, value) => Some (Ok tt, wrote_session sessionId value w)
  | SettleTail _ => Some (tt, become (set_tail (rt_asked g) (rt_begun g) (S (rt_settled g)) g) w)
  | Launch j => Some (tt, set_pending (w_pending w ++ [j]) w)
  | TakeJob j => (fun rest => (tt, set_pending rest w)) <$> gx_take j (w_pending w)
  | ReadSession => Some (requireSession g, w)
  | ReadAsset => Some (asset_of g, w)
  | ReadSwap => Some (rt_swap g, w)
  | ReadConnection => Some (rt_connection g, w)
  | ReadPreflight => Some (rt_preflight g, w)
  | ReadSurfnet => Some (rt_surfnet g, w)
  | ReadFailing =>
      Some (ds_activeStep (rt_state g), sn_observedAt <$> ds_snapshot (rt_state g), bool_decide (is_Some (rt_known g)) && rt_connection g, w)
  | LoadCaptures | FundQuote | LoadRaydium | FetchWalletTokens => Some (Ok tt, w)
  | TimeTravel _ | GetLatestBlockhash _ => Some (Ok tt, w)
  | StartSurfnet => Some (Ok tt, become (set_signers gx_signers g) w)
  | Connect => Some (Ok "surfnet", become (set_connection g) w)
  | SetManifest genesisHash => Some (tt, become (set_manifest genesisHash g) w)
  | SetPreflight config => Some (tt, become (set_preflight config g) w)
  | SetReceipt => Some (fst (new_receipt g), become (snd (new_receipt g)) w)
  | SetKnown => Some (Ok tt, become (set_known gx_known g) w)
  | VerifyEnvironment => Some (Ok gx_config, w)
  | SetPool => Some (Err (Thrown "no pool"), w)
  | SetSwap swap => Some (tt, become (set_swap swap g) w)
  | ReadChain => Some (Ok (gx_reading w), w)
  | FetchClock => Some (Ok gx_clock, w)
  | FetchQuoteSnapshot _ => Some (Ok (gx_quote w), w)
  | FetchMultiplier | FetchClaimAmount _ => Some (Ok 0, w)
  | ReadTime => Some (0, w)
  | Simulate _ => Some (Ok false, w)
  | SendRaw step name transaction => Some (Ok name, noted [Sent step name transaction] w)
  | ConfirmTransaction _ => Some (Ok false, w)
  | GetStatus _ => Some (Ok (Some (MkStatus false (Some confirmed) 20)), w)
  | BuildRaydium _ => Some (Ok false, w)
  | GetPoolInfo => Some (Err (Thrown "no pool"), w)
  | JoinMutations => Some (w_joined w, set_queue (S (w_joined w)) (w_left w) w)
  | AwaitMutation ticket => if Nat.eqb (w_left w) ticket then Some (tt, w) else None
  | LeaveMutation => Some (tt, set_queue (w_joined w) (S (w_left w)) w)
  | ReadPublicState => Some (rt_state g, w)
  | ReadPublicReceipt => Some (rt_receipt g, w)
  end.

Lemma gx_take_spec j l rest : gx_take j l = Some rest -> exists before after, l = before ++ j :: after /\ rest = before ++ after.
Proof.
  destruct l as [|j' l]; [done|]. cbn. case_bool_decide; [|done]. intros [= <-]. subst j'. by exists [], l.
Qed.
Lemma gx_occurs bad fails i e w x w' :
  bad = [] \/ fails = true -> gx_handler bad e w = Some (x, w') -> guided_step "runtime" fails i e w x w'.
Proof.
  intros Hb He. destruct e; cbn in He; try (injection He as <- <-; cbn; first [done | by exists "session"]).
  - destruct w0 as [n v]. destruct (Nat.eqb _ _) eqn:H1; [|done]. destruct (Nat.eqb (rt_settled _) _) eqn:H2; [|done].
    injection He as <- <-. apply Nat.eqb_eq in H1, H2. done.
  - destruct w0 as [n v]. case_bool_decide as Hn; injection He as <- <-; [|by left]. right. split; [|done].
    destruct Hb as [->|Hb]; [|done]. by apply not_elem_of_nil in Hn.
  - destruct w0 as [n v]. injection He as <- <-. by left.
  - destruct (gx_take j _) as [rest|] eqn:Ht; [|done]. injection He as <- <-. apply gx_take_spec in Ht as (before & after & Hl & ->).
    by exists before, after.
  - injection He as <- <-. by exists (set_signers gx_signers (w_rt w)); split; [exists gx_signers|].
  - injection He as <- <-. by exists (set_known gx_known (w_rt w)); split; [exists gx_known|].
  - destruct (Nat.eqb _ _) eqn:H1; [|done]. injection He as <- <-. by apply Nat.eqb_eq in H1.
Qed.

(** ** Runs *)

Definition gx_swap (_ _ _ _ _ _ _ : Z) (_ : bool) : CurveResult := Curve 0 0 0 0 0 0.
Definition gx_post (path : string) (body : json) : HttpRequest :=
  MkRequest "POST" "127.0.0.1:4181" (Some "http://127.0.0.1:4174") (Some path) "application/json" (Some "1") [100] true (Some body).
Definition gx_start (revision : Z) : source :=
  Incoming (gx_post "/start" (JObj [(text "runtimeId", JStr (text "runtime")); (text "expectedRevision", JNum (Int revision));
                                    (text "assetId", JStr (text "xstocks-test-kox"))])).
Definition gx_step (revision : Z) (step : DemoStep) : source :=
  Incoming (gx_post "/step" (JObj [(text "runtimeId", JStr (text "runtime")); (text "sessionId", JStr (text "session"));
                                   (text "expectedRevision", JNum (Int revision)); (text "step", JStr (text (step_name step)))])).

Abbreviation gx_program := (program gx_usdc gx_swap PORT).
Definition gx_run (bad : list nat) (schedule : list (source + nat)) : threads (event:=event) (answer:=answer) :=
  play (gx_handler bad) (sum_map gx_program id <$> schedule) (Threads first_world []).
Lemma gx_run_ok bad fails schedule :
  bad = [] \/ fails = true -> guided_run gx_usdc gx_swap PORT "runtime" fails (gx_run bad schedule).
Proof.
  intros Hb. apply play_run.
  - intros i e w x w'. by apply gx_occurs.
  - apply Forall_fmap, Forall_true. intros [src|j]; [by exists src|done].
Qed.

(** Set-up and the first step; two requests ask for the same start, and two for the same step. *)
Definition gx_setup : list (source + nat) :=
  [inl (gx_start 0); inl (gx_start 0)] ++ replicate 40 (inr 0%nat) ++ replicate 40 (inr 1%nat)
  ++ inl (Background SetupJob) :: replicate 400 (inr 2%nat).
Definition gx_demo : list (source + nat) :=
  gx_setup ++ [inl (gx_step 20 core_split); inl (gx_step 20 core_split)] ++ replicate 40 (inr 3%nat) ++ replicate 40 (inr 4%nat)
  ++ inl (Background (StepJob core_split)) :: replicate 100 (inr 5%nat).
Definition gx_demo_end := gx_run [] gx_demo.
(** The write of the new state fails when a start is accepted: no job follows, and every request is refused. *)
Definition gx_wedged : list (source + nat) :=
  inl (gx_start 0) :: replicate 40 (inr 0%nat) ++ inl (gx_start 1) :: replicate 40 (inr 1%nat)
  ++ inl (gx_step 1 core_split) :: replicate 40 (inr 2%nat).
Definition gx_wedged_end := gx_run [0%nat] gx_wedged.
(** The write that concludes the set-up fails after the first step was accepted. *)
Definition gx_overlap : list (source + nat) :=
  inl (gx_start 0) :: replicate 40 (inr 0%nat) ++ inl (Background SetupJob) :: replicate 179 (inr 1%nat)
  ++ inl (gx_step 20 core_split) :: replicate 10 (inr 2%nat) ++ replicate 20 (inr 1%nat) ++ replicate 40 (inr 2%nat)
  ++ replicate 100 (inr 1%nat) ++ inl (Background (StepJob core_split)) :: replicate 30 (inr 3%nat).
Definition gx_overlap_end := gx_run [20%nat] gx_overlap.
(** In the midst of the first step. *)
Definition gx_midst : list (source + nat) :=
  gx_setup ++ inl (gx_step 20 core_split) :: replicate 40 (inr 3%nat) ++ inl (Background (StepJob core_split)) :: replicate 20 (inr 4%nat).
Definition gx_midst_end := gx_run [] gx_midst.

(** What the requests are answered: the status of a response, [None] for what has not responded. *)
Definition gx_statuses (s : threads (event:=event) (answer:=answer) (W:=World) (R:=reply)) : list (option Z) :=
  map (fun t => match snd t with Pure (Responded r) => Some (hr_status r) | _ => None end) (th_threads s).
Definition gx_status (s : threads (event:=event) (answer:=answer) (W:=World) (R:=reply)) : DemoStatus := ds_status (rt_state (w_rt (th_world s))).

Example gx_demo_completes :
  gx_statuses gx_demo_end = [Some 202; Some 409; None; Some 202; Some 409; None] /\ gx_status gx_demo_end = ready /\
  ds_completedSteps (rt_state (w_rt (th_world gx_demo_end))) = [core_split] /\ revision (w_rt (th_world gx_demo_end)) = 24.
Proof. by vm_compute. Qed.
(** A failed write of the first new state leaves the status at preparing, with no job to end it. *)
Example gx_wedged_refuses :
  gx_statuses gx_wedged_end = [Some 500; Some 409; Some 409] /\ gx_status gx_wedged_end = preparing /\ w_pending (th_world gx_wedged_end) = [].
Proof. by vm_compute. Qed.
(** A failed write of the end of a job marks the demo as failed while the job accepted since then sends its transactions. *)
Example gx_overlap_sends :
  gx_status gx_overlap_end = failed /\ jobs_of (w_log (th_world gx_overlap_end)) = None /\
  gx_sent "split_100_test_stock" (th_world gx_overlap_end) = true.
Proof. by vm_compute. Qed.

(** ** The theorems at these runs *)

Lemma gx_demo_run : guided_run gx_usdc gx_swap PORT "runtime" false gx_demo_end.
Proof. apply gx_run_ok. by left. Qed.
Lemma gx_midst_run : guided_run gx_usdc gx_swap PORT "runtime" false gx_midst_end.
Proof. apply gx_run_ok. by left. Qed.
Lemma gx_overlap_run : guided_run gx_usdc gx_swap PORT "runtime" true gx_overlap_end.
Proof. apply gx_run_ok. by right. Qed.

Example guided_jobs_exclusive_witness :
  jobs_of (w_log (th_world gx_midst_end)) = Some (open_job (w_rt (th_world gx_midst_end))) /\
  open_job (w_rt (th_world gx_midst_end)) = Some (Some core_split) /\ gx_sent "split_100_test_stock" (th_world gx_midst_end) = true.
Proof.
  split; [apply (guided_jobs_exclusive gx_usdc gx_swap PORT "runtime" gx_midst_end gx_midst_run)|by vm_compute].
Defined.
Example guided_steps_in_order_witness :
  demo_ok (w_rt (th_world gx_demo_end)) /\ (checkpoints (w_rt (th_world gx_demo_end))).*1 = [None; Some core_split].
Proof.
  split; [apply (guided_steps_in_order gx_usdc gx_swap PORT "runtime" gx_demo_end gx_demo_run)|by vm_compute].
Defined.
Example guided_revision_lock_witness :
  StronglySorted Z.lt (accepted (w_log (th_world gx_demo_end))) /\ accepted (w_log (th_world gx_demo_end)) = [0; 20].
Proof.
  split; [apply (guided_revision_lock gx_usdc gx_swap PORT "runtime" false gx_demo_end gx_demo_run)|by vm_compute].
Defined.
(** A write fails, and the file goes on with those after it. *)
Example guided_file_in_order_witness :
  StronglySorted lt (writes (w_log (th_world gx_overlap_end))).*1 /\
  saved_revision <$> w_file (th_world gx_overlap_end) = Some 24 /\ 20%nat ∉ (writes (w_log (th_world gx_overlap_end))).*1.
Proof.
  split; [apply (guided_file_in_order gx_usdc gx_swap PORT "runtime" true gx_overlap_end gx_overlap_run)|].
  split; [by vm_compute|by apply (bool_decide_unpack _); vm_compute].
Defined.
Example guided_file_current_witness :
  (exists v, w_file (th_world gx_demo_end) = Some v /\ sd_state v = rt_state (w_rt (th_world gx_demo_end))) /\
  rt_asked (w_rt (th_world gx_demo_end)) = 25%nat.
Proof.
  split; [|by vm_compute].
  apply (guided_file_current gx_usdc gx_swap PORT "runtime" gx_demo_end gx_demo_run); [by vm_compute; lia|by vm_compute].
Defined.
