(* ===== verification/IssuerSchema.v ===== *)
(** * Issuer readers: the schema of what is read

    [packages/issuer-readers/src/schema.ts], [catalog.ts], [types.ts] and the
    parts of [transport.ts] that decide something: checks of [unknown] values,
    the assets that may be read, [stableJson], and the binary64 value of an
    exact decimal text.  An error is its code.  Comparison by locale and
    [Date.parse], which the language leaves to the implementation, are
    parameters. *)
From S2P Require Import Prelude Js Calendar IsoTime TxBytes Utf8 Json.
Open Scope Z_scope.

Abbreviation res := (Prelude.result string).
Abbreviation check := (require (E:=string)).

(** ** Values of a kind *)

Definition object (v : option json) (code : string) : res (list (js_string * json)) :=
  match v with Some (JObj fields) => Ok fields | _ => Err code end.
Definition array (v : option json) (code : string) : res (list json) :=
  match v with Some (JArr l) => Ok l | _ => Err code end.
Definition str (v : option json) (code : string) : res js_string :=
  match v with Some (JStr s) => Ok s | _ => Err code end.
Definition bool_of (v : option json) (code : string) : res bool :=
  match v with Some (JBool b) => Ok b | _ => Err code end.

Definition integer (v : option json) (code : string) : res Z :=
  match v with Some (JNum (Int z)) => check (isSafeInteger z) code ;; Ok z | _ => Err code end.
Definition is_false (v : option json) : bool := match v with Some (JBool false) => true | _ => false end.
Definition is_null (v : option json) : bool := match v with Some JNull => true | _ => false end.

(** ** Texts *)

Definition digit (u : Z) : bool := between 48 57 u.
Definition digits (l : js_string) : bool := negb (bool_decide (l = [])) && forallb digit l.
Fixpoint cut_dot (l : js_string) : js_string * option js_string :=
  match l with
  | [] => ([], None)
  | u :: l' => if u =? 46 then ([], Some l') else let '(w, f) := cut_dot l' in (u :: w, f)
  end.
(** Digits without a leading zero, or [0]; then, after a dot, digits, if any. *)
Definition decimal_parts (l : js_string) : option (js_string * js_string) :=
  let '(w, f) := cut_dot l in
  if digits w && (bool_decide (w = [48]) || negb (bool_decide (head w = Some 48))) then
    match f with None => Some (w, []) | Some f => if digits f then Some (w, f) else None end
  else None.
(** [/^0(?:\.0+)?$/] *)
Definition zero_text (l : js_string) : bool :=
  match decimal_parts l with Some (w, f) => forallb (Z.eqb 48) (w ++ f) | None => false end.
Definition exactDecimal (v : option json) (positive : bool) (maxFraction : Z) : res js_string :=
  s ← str v "numeric_factor_not_exact_string";
  match decimal_parts s with
  | None => Err "invalid_decimal_string"
  | Some (_, f) =>
      check (len f <=? maxFraction) "invalid_decimal_string" ;;
      check (negb (positive && zero_text s)) "invalid_decimal_string" ;;
      Ok s
  end.

Definition number_of (l : js_string) : Z := fold_left (fun acc u => acc * 10 + (u - 48)) l 0.
Definition date_fields (l : js_string) : option (Z * Z * Z) :=
  match l with
  | [y1; y2; y3; y4; d1; m1; m2; d2; e1; e2] =>
      if digits [y1; y2; y3; y4; m1; m2; e1; e2] && (d1 =? 45) && (d2 =? 45)
      then Some (number_of [y1; y2; y3; y4], number_of [m1; m2], number_of [e1; e2]) else None
  | _ => None
  end.
Definition civilDate (v : option json) : res js_string :=
  s ← str v "malformed_schema";
  match date_fields s with
  | Some (y, m, d) => check (civil_ok y m d) "malformed_civil_date" ;; Ok s
  | None => Err "malformed_civil_date"
  end.

Definition line_end (u : Z) : bool := (u =? 10) || (u =? 13) || (u =? 8232) || (u =? 8233).
(** The zone at the end, [Z] or an offset in hours and minutes, and before it
    any characters of one line. *)
Definition zoned (rest : js_string) : bool :=
  match reverse rest with
  | 90 :: middle => forallb (fun u => negb (line_end u)) middle
  | d1 :: d2 :: 58 :: d3 :: d4 :: sign :: middle =>
      digits [d1; d2; d3; d4] && ((sign =? 43) || (sign =? 45)) && forallb (fun u => negb (line_end u)) middle
  | _ => false
  end.
Definition timestamp_text (s : js_string) : bool :=
  bool_decide (is_Some (date_fields (take 10 s))) && match drop 10 s with 84 :: rest => zoned rest | _ => false end.

Section platform.
(** [Date.parse], where it is a finite number. *)
Context (Date_parse : js_string -> option Z).
Definition timestamp (v : option json) (code : string) : res js_string :=
  s ← str v code;
  check (timestamp_text s && bool_decide (is_Some (Date_parse s))) code ;;
  Ok s.
End platform.

(** [Number(text)] of an exact decimal text, as the bits of the binary64 next
    to it, ties to even. *)
Definition round_half_even (n d : Z) : Z :=
  let q := n / d in let r := n mod d in
  if 2 * r <? d then q else if d <? 2 * r then q + 1 else if Z.even q then q else q + 1.
Definition INFINITY_BITS : Z := 2047 * 2 ^ 52.
Definition ratio_bits (n d : Z) : Z :=
  if n =? 0 then 0
  else
    let l := Z.log2 n - Z.log2 d in
    (* 2^e <= n/d < 2^(e+1) *)
    let e := if (if 0 <=? l then n <? d * 2 ^ l else n * 2 ^ (- l) <? d) then l - 1 else l in
    let x := Z.max (e - 52) (-1074) in
    let q := if 0 <=? x then round_half_even n (d * 2 ^ x) else round_half_even (n * 2 ^ (- x)) d in
    Z.min ((x + 1074) * 2 ^ 52 + q) INFINITY_BITS.
Definition Number_bits (s : js_string) : Z :=
  match decimal_parts s with
  | Some (w, f) => ratio_bits (number_of (w ++ f)) (10 ^ len f)
  | None => 0
  end.

Example number_one : Number_bits (text "1") = 4607182418800017408. Proof. by vm_compute. Qed.
Example number_tenth : Number_bits (text "0.1") = 4591870180066957722. Proof. by vm_compute. Qed.
Example number_101 : Number_bits (text "1.01") = 4607227454796291113. Proof. by vm_compute. Qed.
Example number_long : Number_bits (text "1.00000000000000011102230246251565404236316680908203125") = 4607182418800017408. Proof. by vm_compute. Qed.
Example number_tie_up : Number_bits (text "1.00000000000000033306690738754696212708950042724609375") = 4607182418800017410. Proof. by vm_compute. Qed.

(** ** [stableJson] *)

(** [JSON.stringify] of a string: quotes, control characters and unpaired
    surrogates are escaped. *)
Definition hex4 (u : Z) : js_string := ascii_Z <$> [hex_char (u / 4096); hex_char (u / 256 mod 16); hex_char (u / 16 mod 16); hex_char (u mod 16)].
Definition escape_unit (u : Z) : js_string :=
  if (u =? 34) || (u =? 92) then [92; u]
  else if u =? 8 then text "\b" else if u =? 9 then text "\t" else if u =? 10 then text "\n"
  else if u =? 12 then text "\f" else if u =? 13 then text "\r"
  else if u <? 32 then 92 :: 117 :: hex4 u else [u].
Fixpoint escape (l : js_string) : js_string :=
  match l with
  | [] => []
  | u :: rest =>
      if is_high u then
        match rest with
        | v :: rest' => if is_low v then u :: v :: escape rest' else 92 :: 117 :: hex4 u ++ escape rest
        | [] => 92 :: 117 :: hex4 u
        end
      else if is_low u then 92 :: 117 :: hex4 u ++ escape rest
      else escape_unit u ++ escape rest
  end.
Definition stringify (s : js_string) : js_string := [34] ++ escape s ++ [34].

Section stable.
(** [a.localeCompare(b) <= 0] *)
Context (locale_leb : js_string -> js_string -> bool).
Fixpoint insert_entry (x : js_string * js_string) (l : list (js_string * js_string)) : list (js_string * js_string) :=
  match l with [] => [x] | y :: l' => if locale_leb x.1 y.1 then x :: y :: l' else y :: insert_entry x l' end.
(** [sort], which is stable. *)
Definition sort_entries (l : list (js_string * js_string)) : list (js_string * js_string) := foldr insert_entry [] l.
Fixpoint stableJson (v : json) : js_string :=
  match v with
  | JNull => text "null"
  | JBool b => text (if b then "true" else "false")
  | JNum (Int z) => int_text z
  | JNum (OtherNumber t) => t
  | JStr s => stringify s
  | JArr l => [91] ++ js_join [44] (map stableJson l) ++ [93]
  | JObj fields =>
      [123] ++ js_join [44] (map (fun e : js_string * js_string => stringify e.1 ++ [58] ++ e.2)
                               (sort_entries (map (fun f : js_string * json => (f.1, stableJson f.2)) fields))) ++ [125]
  end.
End stable.

(** [l.includes(part)], of texts and of bytes. *)
Fixpoint contains (part l : js_string) : bool :=
  bool_decide (take (length part) l = part) || match l with [] => false | _ :: l' => contains part l' end.

(** ** The assets that may be read *)

Inductive IssuerId := xstocks | backpack | ondo.
#[global] Instance IssuerId_eq_dec : EqDecision IssuerId. Proof. solve_decision. Defined.
Definition issuer_text (i : IssuerId) : js_string := text (match i with xstocks => "xstocks" | backpack => "backpack" | ondo => "ondo" end).
Record SelectedAsset := MkAsset {
  issuerId : IssuerId; symbol : js_string; underlying : js_string; mint : js_string; decimals : Z; tokenProgram : js_string; chain : js_string;
}.
#[global] Instance SelectedAsset_eq_dec : EqDecision SelectedAsset. Proof. solve_decision. Defined.
Definition MAINNET : js_string := text "solana:mainnet-beta".
Definition frozen_asset (row : IssuerId * string * string * string * Z) : SelectedAsset :=
  let '(i, s, u, m, d) := row in
  MkAsset i (text s) (text u) (text m) d (text "TokenzQdBNbLqP5VEhdkAS6EPFLC1PHnBqCXEpPxuEb") MAINNET.
Definition SELECTED_ASSETS : list SelectedAsset := frozen_asset <$> [
  (xstocks, "KOx", "KO", "XsaBXg8dU5cPM6ehmVctMkVqoiRG2ZjMo1cyBJ3AykQ", 8);
  (xstocks, "AAPLx", "AAPL", "XsbEhLAtcf6HdfpFZ5xEMdqW8nfAvcsP5bdudRLJzJp", 8);
  (xstocks, "MSFTx", "MSFT", "XspzcW1PRtgf6Wj92HCiZdjzKCyFekVD8P5Ueh3dRMX", 8);
  (xstocks, "MUx", "MU", "XsQLZycSZ7QnBBdBXQaTbQdiUcbRqjNJgyBGAMzhHav", 8);
  (xstocks, "NKEx", "NKE", "XsGYpMvKbVt6ViHqRd7cF3s746dAMFBQWcC49hB9VVP", 8);
  (xstocks, "IBMx", "IBM", "XspwhyYPdWVM8XBHZnpS9hgyag9MKjLRyE3tVfmCbSr", 8);
  (backpack, "MU.US", "MU", "MUxEsUKSMACyw5fZf68wxf5FLnZVhtU9CwH8uNNGay1", 6);
  (backpack, "NKE.US", "NKE", "NKEda5nHhNGgjrE9nDdMvaEmkmJ96qqxzBVZEcKmjSg", 6);
  (backpack, "IBM.US", "IBM", "BMKdM4yUxX12moFqVk195k7coMbaybd4RUKCUdm7D1Sk", 6);
  (ondo, "KOon", "KO", "e6G4pfFcrdKxJuZ4YXixRFfMbpMvgXG2Mjcus71ondo", 9);
  (ondo, "AAPLon", "AAPL", "123mYEnRLM2LLYsJW3K6oyYh8uP1fngj732iG638ondo", 9);
  (ondo, "MSFTon", "MSFT", "FRmH6iRkMr33DLG6zVLR7EM4LojBFAuq6NtFzG6ondo", 9);
  (ondo, "MUon", "MU", "Fz9edBpaURPPzpKVRR1A8PENYDEgHqwx5D5th28ondo", 9);
  (ondo, "NKEon", "NKE", "g646pcdG2Rt5DH9WZzL7VVnVDWCCMTTrnktwE74ondo", 9);
  (ondo, "IBMon", "IBM", "C8bZkgSxXkyT1RgxByp2teJ24hgimPLoyEYoNa9ondo", 9)].

Definition selectAssets (issuers : option (list IssuerId)) (symbols : option (list js_string)) : res (list SelectedAsset) :=
  let selected := List.filter (fun asset =>
    match issuers with None => true | Some l => bool_decide (issuerId asset ∈ l) end
    && match symbols with None => true | Some l => bool_decide (symbol asset ∈ l) end) SELECTED_ASSETS in
  check (match symbols with None => true
         | Some l => forallb (fun s => existsb (fun asset => bool_decide (symbol asset = s)) SELECTED_ASSETS) l end) "unknown_selected_symbol" ;;
  check (negb (bool_decide (selected = []))) "empty_selection" ;;
  Ok selected.

(** ** Requests *)

Record RequestObservation := MkObservation {
  rq_endpoint : js_string; rq_retrievedAt : js_string; rq_status : option Z; rq_dataDigest : option js_string; rq_error : option string;
}.
Definition stopCode (request : RequestObservation) : option string :=
  match rq_status request with
  | Some 401 | Some 403 => Some "issuer_authentication_failed"
  | Some 429 => Some "issuer_rate_limited"
  | _ => None
  end.
Definition failedRequest (endpoint : js_string) (code : string) (now : js_string) : RequestObservation :=
  MkObservation endpoint now None None (Some code).

Definition SETTLEMENT_BLOCKERS : list string :=
  ["authoritative_event_to_mint_factor_binding"; "official_civil_ex_dates"; "revision_and_cancellation_semantics";
   "complete_annual_coverage_and_finality"; "live_custody_admission"].
