(* ===== verification/IssuerTransport.v ===== *)
(** * Issuer readers: what is asked of an issuer

    [packages/issuer-readers/src/transport.ts]: one public request, from the
    response of [fetch] to the observation of it, and the events of the readers:
    their requests and the time.  SHA-256 and [JSON.parse] of a decoded text are
    parameters; a request that is not to an allowed address, and the deadline,
    are told from the outcome. *)
From S2P Require Import Prelude Js Utf8 Json TxBytes Programs IssuerSchema.
Open Scope Z_scope.

Definition is_some {A} (o : option A) : bool := match o with Some _ => true | None => false end.
Definition PUBLIC_TIMEOUT_MS : Z := 15000.
Definition PUBLIC_MAX_BYTES : Z := 2 * 1024 * 1024.

(** A response: its body is absent or a stream of chunks, of which one may fail
    to be read ([None]). *)
Record response := MkResponse {
  rs_status : Z; rs_redirected : bool; rs_url : js_string; rs_contentLength : option js_string; rs_body : option (list (option bytes));
}.
(** How the race of [fetch] and the deadline ends. *)
Inductive fetch_outcome := FetchFailed | DeadlineFirst | Fetched (r : response).

Definition declared_too_long (r : response) (maxBytes : Z) : bool :=
  match rs_contentLength r with Some l => digits l && (maxBytes <? number_of l) | None => false end.
Fixpoint read_chunks (maxBytes : Z) (chunks : list (option bytes)) (read : bytes) : res bytes :=
  match chunks with
  | [] => Ok read
  | None :: _ => Err "response_read_failed"%string
  | Some chunk :: rest =>
      if maxBytes <? byte_length read + byte_length chunk then Err "response_too_large"%string
      else read_chunks maxBytes rest (read ++ chunk)
  end.
Definition readBody (r : response) (maxBytes : Z) : res bytes :=
  check (negb (declared_too_long r maxBytes)) "response_too_large" ;;
  match rs_body r with None => Ok [] | Some chunks => read_chunks maxBytes chunks [] end.
Definition response_ok (r : response) : bool := (200 <=? rs_status r) && (rs_status r <=? 299).

Section transport.
Context (sha256_hex : bytes -> js_string) (JSON_parse : bytes -> option json).
(** [href] is the address asked, [endpoint] its path and query. *)
Definition observePublicJson (allowed : bool) (href endpoint : js_string) (maxBytes : Z) (outcome : fetch_outcome) (now : js_string)
    : res (RequestObservation * option json) :=
  check allowed "endpoint_not_allowed" ;;
  match outcome with
  | FetchFailed => Err "request_failed"%string
  | DeadlineFirst => Err "request_timed_out"%string
  | Fetched r =>
      check (negb (rs_redirected r)) "redirect_refused" ;;
      check (bool_decide (rs_url r = []) || bool_decide (rs_url r = href)) "unexpected_response_url" ;;
      body ← readBody r maxBytes;
      let request error := MkObservation endpoint now (Some (rs_status r)) (Some (text "sha256:" ++ sha256_hex body)) error in
      if response_ok r then
        match JSON_parse body with
        | Some v => Ok (request None, Some v)
        | None => Ok (request (Some "malformed_json"%string), None)
        end
      else Ok (request (Some "http_status"%string), None)
  end.

(** ** Bounds *)

Lemma read_chunks_bound maxBytes chunks read l :
  byte_length read <= maxBytes -> read_chunks maxBytes chunks read = Ok l -> byte_length l <= maxBytes.
Proof.
  revert read. induction chunks as [|[chunk|] chunks IH]; intros read Hr; cbn; [by intros [= <-]| |done].
  destruct (Z.ltb_spec maxBytes (byte_length read + byte_length chunk)); [done|]. apply IH.
  unfold byte_length in *. rewrite length_app. lia.
Qed.
Lemma readBody_bound r maxBytes l : 0 <= maxBytes -> readBody r maxBytes = Ok l -> byte_length l <= maxBytes.
Proof.
  intros Hm. unfold readBody. destruct (declared_too_long r maxBytes); [done|]. cbn. destruct (rs_body r) as [chunks|].
  - by apply read_chunks_bound.
  - by intros [= <-].
Qed.

(** What an answered request says of the response it came from. *)
Definition observed_from (href : js_string) (maxBytes : Z) (outcome : fetch_outcome) (request : RequestObservation) (value : option json) : Prop :=
  exists r body, outcome = Fetched r /\ rs_redirected r = false /\ (rs_url r = [] \/ rs_url r = href) /\ readBody r maxBytes = Ok body /\
    byte_length body <= maxBytes /\ rq_status request = Some (rs_status r) /\ rq_dataDigest request = Some (text "sha256:" ++ sha256_hex body) /\
    (forall v, value = Some v -> response_ok r = true /\ rq_error request = None /\ JSON_parse body = Some v) /\
    (value = None -> is_Some (rq_error request)).

(** A value is only taken from the allowed address that was asked, without a
    redirect, from a successful response that is at most [maxBytes] long, whose
    digest is the one recorded; without a value there is an error. *)
Theorem observation_sound allowed href endpoint maxBytes outcome now request value :
  0 <= maxBytes -> observePublicJson allowed href endpoint maxBytes outcome now = Ok (request, value) ->
  allowed = true /\ observed_from href maxBytes outcome request value.
Proof.
  intros Hm H. unfold observePublicJson in H. minv H. destruct outcome as [| |r]; [done..|].
  match goal with R : _ = Ok (request, value) |- _ => minv R; rename R into Hanswer end. cbv zeta in *.
  match goal with R : readBody _ _ = Ok ?b |- _ => rename b into body, R into Hbody end.
  match goal with R : (_ || _) = true |- _ => apply orb_prop in R as Hurl end. pose proof (readBody_bound _ _ _ Hm Hbody) as Hlen.
  assert (Hu : rs_url r = [] \/ rs_url r = href) by (destruct Hurl; breflect; auto).
  split; [done|]. exists r, body. split; [done|]. split; [by breflect|]. do 3 (split; [done|]).
  destruct (response_ok r) eqn:Hok; [destruct (JSON_parse body) as [v|] eqn:Hv|]; simplify_eq; cbn;
    (do 2 (split; [done|])); by (split; [by intros ? [= <-]|eauto]).
Qed.
End transport.

(** ** The events of the readers *)

(** The answer of the transport of Ondo: the record, and the bytes, if any, as
    the value they decode to, if they do. *)
Record ondo_observed := MkOndoObserved { oo_record : RequestObservation; oo_raw : option (option json) }.
Inductive event :=
  | ObserveRegistry (asset : SelectedAsset)
  | ObserveHistory (asset : SelectedAsset) (page : Z)
  | ObserveBackpack
  | LoadOndoTransport
  | LoadOndoKey
  | ObserveOndo (endpoint : js_string)
  | Now.
(** A request answers with what was observed and the value, or throws. *)
Definition answer (e : event) : Type :=
  match e with
  | ObserveRegistry _ | ObserveHistory _ _ | ObserveBackpack => res (RequestObservation * option json)
  | LoadOndoTransport => res unit
  | LoadOndoKey => res js_string
  | ObserveOndo _ => res ondo_observed
  | Now => js_string
  end.
Abbreviation reading := (call event answer string).
Abbreviation act e := (trigger (answer:=answer) (F:=string) e).
