(* ===== verification/IssuerXstocks.v ===== *)
(** * Issuer readers: the event history of xStocks

    [packages/issuer-readers/src/xstocks.ts]: an issuer's registry and the
    pages of its history, what of them is refused, their reduction to one
    revision per version and one head per event, and the reading of several
    assets request by request. *)
From S2P Require Import Prelude Js Utf8 Json Programs IssuerSchema IssuerTransport.
Open Scope Z_scope.

Definition XSTOCKS_MAX_PAGES : nat := 100.

(** What the source fixes to [null] or [false] is left out. *)
Record XstocksEventRevision := MkRevision {
  eventId : js_string; sourceVersion : Z; r_symbol : js_string; xstockIsin : js_string; spvSymbol : js_string; spvIsin : js_string;
  action : js_string; status : js_string; multiplierOld : js_string; multiplierNew : js_string; createdTime : js_string;
  effectiveTime : js_string; grossCashflowUsd : option js_string; netCashflowUsd : option js_string;
  withholdingTaxRate : option js_string; fromUnits : option js_string; toUnits : option js_string;
  redemptionPriceUsd : option js_string; notes : option js_string; sourceDigest : js_string;
}.
#[global] Instance XstocksEventRevision_eq_dec : EqDecision XstocksEventRevision. Proof. solve_decision. Defined.
Record XstocksPage := MkPage {
  currentPage : Z; pageSize : Z; totalPages : Z; totalNodes : Z; hasNextPage : bool; hasPreviousPage : bool;
  pg_records : list XstocksEventRevision;
}.

(** A component of an observation: its value, or why there is none. *)
Inductive lack := failed | unavailable | skipped.
Inductive component (A : Type) := Observed (a : A) | Lacking (state : lack) (code : string).
Arguments Observed {A} a.
Arguments Lacking {A} state code.
Record IdentityObservation := MkIdentity { expectedMint : js_string; observedMint : js_string; expectedDecimals : Z; observedDecimals : option Z }.
Record XstocksUnderlying := MkUnderlying { un_symbol : js_string; un_isin : js_string; un_listingCountry : js_string }.
Record XstocksRegistry := MkRegistry { rg_id : js_string; rg_isin : js_string; rg_isTradingHalted : bool; rg_underlying : option XstocksUnderlying }.
(** [corporateActions]: complete, partial with the code of what stopped it, or absent. *)
Record XstocksHistory := MkHistory { hs_records : list XstocksEventRevision; hs_latestObservedHeads : list XstocksEventRevision }.
Inductive CorporateActions := Complete (value : XstocksHistory) | Partial (code : string) (value : XstocksHistory) | NoActions (state : lack) (code : string).
Record XstocksObservation := MkXstocks {
  xo_asset : SelectedAsset; xo_identity : component IdentityObservation; xo_registry : component XstocksRegistry;
  xo_corporateActions : CorporateActions; xo_blockers : list string;
}.
Record Stopped := MkStopped { st_code : string; st_remainingSelectedAssetsSkipped : Z }.
Inductive IssuerState := issuer_observed | issuer_partial | issuer_unavailable | issuer_failed.
Record XstocksReport := MkReport {
  xr_state : IssuerState; xr_assets : list XstocksObservation; xr_requests : list RequestObservation; xr_stopped : option Stopped;
}.

(** ** What one answer says *)

Definition bad_registry : string := "xstocks_registry_malformed".
Definition own (fields : list (js_string * json)) (key : string) : option json := Json.prop fields key.
Fixpoint mapM {A B} (f : A -> res B) (l : list A) : res (list B) :=
  match l with [] => Ok [] | a :: l' => b ← f a; bs ← mapM f l'; Ok (b :: bs) end.
(** [.filter] whose test may throw. *)
Fixpoint filterM {A} (f : A -> res bool) (l : list A) : res (list A) :=
  match l with [] => Ok [] | a :: l' => b ← f a; bs ← filterM f l'; Ok (if (b : bool) then a :: bs else bs) end.
Definition nullable {A} (f : option json -> res A) (v : option json) : res (option A) :=
  if is_null v then Ok None else a ← f v; Ok (Some a).
Definition is_family (issuer : IssuerId) (asset : SelectedAsset) : bool := bool_decide (issuerId asset = issuer) && bool_decide (chain asset = MAINNET).

Definition parse_underlying (v : option json) : res XstocksUnderlying :=
  source ← object v bad_registry;
  s ← str (own source "symbol") bad_registry;
  i ← str (own source "isin") bad_registry;
  c ← str (own source "listingCountry") bad_registry;
  Ok (MkUnderlying s i c).
Definition parseXstocksRegistry (value : json) (asset : SelectedAsset) : res (IdentityObservation * XstocksRegistry) :=
  check (is_family xstocks asset) "asset_identity_family_mismatch" ;;
  root ← object (Some value) bad_registry;
  id ← str (own root "id") bad_registry;
  s ← str (own root "symbol") bad_registry;
  isin ← str (own root "isin") bad_registry;
  check (bool_decide (s = symbol asset)) "xstocks_symbol_mismatch" ;;
  underlying ← nullable parse_underlying (own root "underlying");
  isTradingHalted ← bool_of (own root "isTradingHalted") bad_registry;
  deployments ← array (own root "deployments") bad_registry;
  rows ← mapM (fun item => object (Some item) bad_registry) deployments;
  matches ← filterM (fun item => network ← str (own item "network") bad_registry; Ok (bool_decide (network = text "Solana"))) rows;
  match matches with
  | [deployment] =>
      observedMint ← str (own deployment "address") bad_registry;
      check (bool_decide (observedMint = mint asset)) "xstocks_mint_mismatch" ;;
      Ok (MkIdentity (mint asset) observedMint (decimals asset) None, MkRegistry id isin isTradingHalted underlying)
  | [] => Err "xstocks_solana_deployment_missing"
  | _ => Err "xstocks_solana_deployment_duplicate"
  end.

Section read.
Context (Date_parse : js_string -> option Z) (locale_leb : js_string -> js_string -> bool).
Definition bad_history : string := "xstocks_history_malformed".
Definition exact (v : option json) : res js_string := exactDecimal v false 1000.
Definition positive_exact (v : option json) : res js_string := exactDecimal v true 1000.

Definition parse_node (symbol sourceDigest : js_string) (item : json) : res XstocksEventRevision :=
  node ← object (Some item) bad_history;
  nodeSymbol ← str (own node "xstockSymbol") bad_history;
  check (bool_decide (nodeSymbol = symbol)) "xstocks_event_symbol_mismatch" ;;
  spvSymbol ← str (own node "spvSymbol") bad_history;
  xstockIsin ← str (own node "xstockIsin") bad_history;
  spvIsin ← str (own node "spvIsin") bad_history;
  eventId ← str (own node "eventId") bad_history;
  version ← integer (own node "version") bad_history;
  action ← str (own node "caType") bad_history;
  status ← str (own node "status") bad_history;
  old ← positive_exact (own node "multiplierOld");
  new ← positive_exact (own node "multiplierNew");
  created ← timestamp Date_parse (own node "createdTimeUtc") "malformed_timestamp";
  effective ← timestamp Date_parse (own node "effectiveTimeUtc") "malformed_timestamp";
  gross ← nullable exact (own node "grossCashflowUsd");
  net ← nullable exact (own node "netCashflowUsd");
  tax ← nullable exact (own node "withholdingTaxRate");
  from ← nullable exact (own node "fromUnits");
  to ← nullable exact (own node "toUnits");
  redemption ← nullable exact (own node "redemptionPriceUsd");
  notes ← nullable (fun v => str v bad_history) (own node "notes");
  Ok (MkRevision eventId version nodeSymbol xstockIsin spvSymbol spvIsin action status old new created effective gross net tax from to
        redemption notes sourceDigest).
(** [Math.ceil(a / b)] of a count and a page size. *)
Definition ceil (a b : Z) : Z := (a + b - 1) / b.
Definition parseXstocksHistoryPage (value : json) (requestedPage : Z) (symbol sourceDigest : js_string) : res XstocksPage :=
  root ← object (Some value) bad_history;
  pagination ← object (own root "page") bad_history;
  current ← integer (own pagination "currentPage") bad_history;
  size ← integer (own pagination "pageSize") bad_history;
  pages ← integer (own pagination "totalPages") bad_history;
  total ← integer (own pagination "totalNodes") bad_history;
  next ← bool_of (own pagination "hasNextPage") bad_history;
  previous ← bool_of (own pagination "hasPreviousPage") bad_history;
  check (negb (negb (current =? requestedPage) || (size <? 1) || (100 <? size) || (pages <? 1) || (total <? 0)
               || negb (Bool.eqb next (current <? pages)) || negb (Bool.eqb previous (1 <? current)) || (pages <? current)))
    "xstocks_pagination_inconsistent" ;;
  check (pages =? Z.max 1 (ceil total size)) "xstocks_pagination_inconsistent" ;;
  nodes ← array (own root "nodes") bad_history;
  check (negb ((size <? Z.of_nat (length nodes)) || (total <? Z.of_nat (length nodes)))) "xstocks_pagination_inconsistent" ;;
  records ← mapM (parse_node symbol sourceDigest) nodes;
  check (negb (existsb (fun r => bool_decide (eventId r = []) || (sourceVersion r <? 0)) records)) bad_history ;;
  Ok (MkPage current size pages total next previous records).

(** ** Revisions *)

Definition text_or_null (v : option js_string) : json := from_option JStr JNull v.
(** A revision without its digest, in the order the source writes its fields. *)
Definition semantic_json (r : XstocksEventRevision) : json :=
  JObj [(text "eventId", JStr (eventId r)); (text "sourceVersion", JNum (Int (sourceVersion r))); (text "symbol", JStr (r_symbol r));
        (text "xstockIsin", JStr (xstockIsin r)); (text "spvSymbol", JStr (spvSymbol r)); (text "spvIsin", JStr (spvIsin r));
        (text "action", JStr (action r)); (text "status", JStr (status r)); (text "multiplierOld", JStr (multiplierOld r));
        (text "multiplierNew", JStr (multiplierNew r)); (text "createdTime", JStr (createdTime r));
        (text "effectiveTime", JStr (effectiveTime r)); (text "grossCashflowUsd", text_or_null (grossCashflowUsd r));
        (text "netCashflowUsd", text_or_null (netCashflowUsd r)); (text "withholdingTaxRate", text_or_null (withholdingTaxRate r));
        (text "fromUnits", text_or_null (fromUnits r)); (text "toUnits", text_or_null (toUnits r));
        (text "redemptionPriceUsd", text_or_null (redemptionPriceUsd r)); (text "notes", text_or_null (notes r));
        (text "officialExDate", JNull); (text "settlementClassification", JNull); (text "sourceFinalityAttested", JBool false)].
Definition semanticRevision (r : XstocksEventRevision) : js_string := stableJson locale_leb (semantic_json r).
Definition revision_key (r : XstocksEventRevision) : js_string := eventId r ++ [0] ++ int_text (sourceVersion r).

(** The first revision of every version. *)
Definition add_version (versions : list (js_string * XstocksEventRevision)) (r : XstocksEventRevision) :=
  if om_has versions (revision_key r) then versions else om_set versions (revision_key r) r.
Definition add_head (heads : list (js_string * XstocksEventRevision)) (r : XstocksEventRevision) :=
  match om_get heads (eventId r) with
  | Some current => if sourceVersion current <? sourceVersion r then om_set heads (eventId r) r else heads
  | None => om_set heads (eventId r) r
  end.
(** A later record of a version that says something else. *)
Definition contradicts (versions : list (js_string * XstocksEventRevision)) (r : XstocksEventRevision) : bool :=
  match om_get versions (revision_key r) with
  | Some existing => negb (bool_decide (semanticRevision existing = semanticRevision r))
  | None => false
  end.
Definition reduce_step (versions : list (js_string * XstocksEventRevision)) (r : XstocksEventRevision)
    : res (list (js_string * XstocksEventRevision)) :=
  check (negb (contradicts versions r)) "xstocks_conflicting_event_revision" ;;
  Ok (add_version versions r).
Definition reduceXstocksRevisions (input : list XstocksEventRevision) : res XstocksHistory :=
  versions ← foldM reduce_step [] input;
  let records := versions.*2 in
  Ok (MkHistory records (fold_left add_head records []).*2).

Definition validateEventRelationships (records : list XstocksEventRevision) (registry : XstocksRegistry) (asset : SelectedAsset) : res unit :=
  foldM (fun _ r =>
    check (bool_decide (xstockIsin r = rg_isin registry)) "xstocks_event_identity_mismatch" ;;
    check (match rg_underlying registry with
           | None => true
           | Some u => bool_decide (spvSymbol r = underlying asset) && bool_decide (spvSymbol r = un_symbol u) && bool_decide (spvIsin r = un_isin u)
           end) "xstocks_event_identity_mismatch") tt records.

(** ** Reading *)

(** The path of a request. *)
Context (endpoint : event -> js_string).

Definition truthy (v : option json) : option json :=
  match v with
  | None | Some JNull | Some (JBool false) | Some (JStr []) | Some (JNum (Int 0)) => None
  | Some v => Some v
  end.
Definition same_totals (p q : XstocksPage) : bool :=
  (totalPages p =? totalPages q) && (totalNodes p =? totalNodes q) && (pageSize p =? pageSize q).
(** The text pages are compared by. *)
Definition signature_of (p : XstocksPage) : js_string := stableJson locale_leb (JArr (semantic_json <$> pg_records p)).
Definition accept_page (pages : list XstocksPage) (signatures : list js_string) (value : json) (page : Z) (symbol digest : js_string) : res XstocksPage :=
  parsed ← parseXstocksHistoryPage value page symbol digest;
  check (negb (bool_decide (signature_of parsed ∈ signatures))) "xstocks_repeated_page" ;;
  check (match head pages with None => true | Some first => same_totals parsed first end) "xstocks_pagination_inconsistent" ;;
  Ok parsed.

Record pages_read := MkPagesRead {
  pr_pages : list XstocksPage; pr_failure : option string; pr_stop : option string; pr_requests : list RequestObservation;
}.
(** The [while] loop, from page [page], with [left] more pages within the limit. *)
Fixpoint read_pages (left_pages : nat) (asset : SelectedAsset) (page : Z) (pages : list XstocksPage) (signatures : list js_string)
    (requests : list RequestObservation) : reading pages_read :=
  match left_pages with
  | O => mret (MkPagesRead pages (Some "xstocks_page_limit_exceeded") None requests)
  | S left' =>
      response ← act (ObserveHistory asset page);
      match response with
      | Err code =>
          now ← act Now;
          mret (MkPagesRead pages (Some code) None (requests ++ [failedRequest (endpoint (ObserveHistory asset page)) code now]))
      | Ok (request, value) =>
          let requests' := requests ++ [request] in
          match stopCode request, truthy value, rq_dataDigest request with
          | Some stop, _, _ => mret (MkPagesRead pages (Some stop) (Some stop) requests')
          | None, Some v, Some (u :: digest) =>
              match accept_page pages signatures v page (symbol asset) (u :: digest) with
              | Err code => mret (MkPagesRead pages (Some code) None requests')
              | Ok parsed =>
                  if hasNextPage parsed
                  then read_pages left' asset (page + 1) (pages ++ [parsed]) (signatures ++ [signature_of parsed]) requests'
                  else mret (MkPagesRead (pages ++ [parsed]) None None requests')
              end
          | None, _, _ => mret (MkPagesRead pages (Some (default "xstocks_history_unavailable" (rq_error request))) None requests')
          end
      end
  end.

Definition reduce_checked (records : list XstocksEventRevision) (registry : XstocksRegistry) (asset : SelectedAsset) : res XstocksHistory :=
  reduced ← reduceXstocksRevisions records;
  validateEventRelationships (hs_records reduced) registry asset ;;
  Ok reduced.
Definition corporate_actions (read : pages_read) (registry : XstocksRegistry) (asset : SelectedAsset) : CorporateActions :=
  let all := pr_pages read ≫= pg_records in
  match pr_failure read with
  | Some code =>
      if bool_decide (pr_pages read = []) then NoActions failed code
      else match reduce_checked all registry asset with Ok h => Partial code h | Err e => NoActions failed e end
  | None =>
      match (check (match pr_pages read with [] => false | first :: _ => Z.of_nat (length all) =? totalNodes first end)
               "xstocks_pagination_inconsistent" ;; reduce_checked all registry asset) with
      | Ok h => Complete h
      | Err e => NoActions failed e
      end
  end.

Definition assetFailure (asset : SelectedAsset) (code : string) : XstocksObservation :=
  MkXstocks asset (Lacking failed code) (Lacking failed code) (NoActions skipped "identity_not_verified") SETTLEMENT_BLOCKERS.

(** One asset: what is observed of it, the requests, and the code that stops the reading of the others. *)
Definition read_asset (maxPages : nat) (asset : SelectedAsset) : reading (XstocksObservation * list RequestObservation * option string) :=
  response ← act (ObserveRegistry asset);
  match response with
  | Err code =>
      now ← act Now;
      mret (assetFailure asset code, [failedRequest (endpoint (ObserveRegistry asset)) code now], None)
  | Ok (request, value) =>
      match stopCode request, truthy value with
      | Some stop, _ => mret (assetFailure asset stop, [request], Some stop)
      | None, None => mret (assetFailure asset (default "xstocks_registry_unavailable" (rq_error request)), [request], None)
      | None, Some v =>
          match parseXstocksRegistry v asset with
          | Err code => mret (assetFailure asset code, [request], None)
          | Ok (observed, registry) =>
              read ← read_pages maxPages asset 1 [] [] [request];
              mret (MkXstocks asset (Observed observed) (Observed registry) (corporate_actions read registry asset)
                      (SETTLEMENT_BLOCKERS ++ if rg_isTradingHalted registry then ["issuer_trading_halted"] else []),
                    pr_requests read, pr_stop read)
          end
      end
  end.
Fixpoint read_assets (maxPages : nat) (assets : list SelectedAsset) (observations : list XstocksObservation) (requests : list RequestObservation)
    : reading (list XstocksObservation * list RequestObservation * option Stopped) :=
  match assets with
  | [] => mret (observations, requests, None)
  | asset :: rest =>
      one ← read_asset maxPages asset;
      let '(observation, more, stop) := one in
      match stop with
      | Some code => mret (observations ++ [observation], requests ++ more, Some (MkStopped code (Z.of_nat (length rest))))
      | None => read_assets maxPages rest (observations ++ [observation]) (requests ++ more)
      end
  end.
Definition skipped_asset (asset : SelectedAsset) : XstocksObservation :=
  MkXstocks asset (Lacking skipped "issuer_requests_stopped") (Lacking failed "issuer_requests_stopped")
    (NoActions skipped "identity_not_verified") SETTLEMENT_BLOCKERS.
Definition identity_observed (o : XstocksObservation) : bool := match xo_identity o with Observed _ => true | _ => false end.
Definition hard_failure (o : XstocksObservation) : bool :=
  negb (identity_observed o) || match xo_corporateActions o with NoActions (failed | skipped) _ => true | _ => false end.
Definition is_partial (o : XstocksObservation) : bool := match xo_corporateActions o with Partial _ _ => true | _ => false end.
Definition readXstocks (maxPages : nat) (assets : list SelectedAsset) : reading XstocksReport :=
  lift_result (check (forallb (is_family xstocks) assets) "asset_identity_family_mismatch") ;;
  done ← read_assets maxPages assets [] [];
  let '(observed, requests, stopped) := done in
  let observations := observed ++ (if bool_decide (is_Some stopped) then skipped_asset <$> drop (length observed) assets else []) in
  let hardFailures := length (List.filter hard_failure observations) in
  let state := if Nat.eqb hardFailures (length observations) then issuer_failed
               else if negb (Nat.eqb hardFailures 0) || existsb is_partial observations then issuer_partial else issuer_observed in
  mret (MkReport state observations requests stopped).
End read.
