(* ===== verification/IssuerBackpack.v ===== *)
(** * Issuer readers: Backpack's listings

    [packages/issuer-readers/src/backpack.ts]: one registry of all assets, read
    in one request; what of it is refused, and what is said of each selected
    asset. *)
From S2P Require Import Prelude Js Utf8 Json Programs IssuerSchema IssuerTransport IssuerXstocks.
Open Scope Z_scope.

Record BackpackListing := MkListing {
  bl_displayName : js_string; bl_depositEnabled : bool; bl_withdrawEnabled : bool; bl_nativeDecimals : Z; bl_minimumDeposit : js_string;
  bl_minimumWithdrawal : js_string; bl_maximumWithdrawal : option js_string; bl_withdrawalFee : js_string; bl_available : bool;
}.
(** [corporateActions] is always unavailable. *)
Record BackpackObservation := MkBackpack {
  bo_asset : SelectedAsset; bo_identity : component IdentityObservation; bo_listing : component BackpackListing; bo_blockers : list string;
}.
Record StoppedRequests := MkStoppedRequests { sq_code : string; sq_remainingRequestsSkipped : Z }.
Record BackpackReport := MkBackpackReport {
  br_state : IssuerState; br_assets : list BackpackObservation; br_requests : list RequestObservation; br_stopped : option StoppedRequests;
}.

(** The only row of an array whose field has a value. *)
Definition exactly_one (v : option json) (code field : string) (value : js_string) (missing duplicate : string) : res (list (js_string * json)) :=
  l ← array v code;
  rows ← mapM (fun item => object (Some item) code) l;
  matches ← filterM (fun row => s ← str (own row field) code; Ok (bool_decide (s = value))) rows;
  match matches with [row] => Ok row | [] => Err missing | _ => Err duplicate end.
Definition bad_backpack : string := "backpack_registry_malformed".
Definition parse_listing (token : list (js_string * json)) (observedDecimals : Z) : res BackpackListing :=
  maximum ← nullable (fun v => str v bad_backpack) (own token "maximumWithdrawal");
  name ← str (own token "displayName") bad_backpack;
  deposit ← bool_of (own token "depositEnabled") bad_backpack;
  withdraw ← bool_of (own token "withdrawEnabled") bad_backpack;
  minimumDeposit ← exact (own token "minimumDeposit");
  minimumWithdrawal ← exact (own token "minimumWithdrawal");
  maximumWithdrawal ← (match maximum with None => Ok None | Some s => t ← exact (Some (JStr s)); Ok (Some t) end);
  fee ← exact (own token "withdrawalFee");
  Ok (MkListing name deposit withdraw observedDecimals minimumDeposit minimumWithdrawal maximumWithdrawal fee (deposit && withdraw)).
Definition parseBackpackRegistry (value : json) (asset : SelectedAsset) : res (IdentityObservation * BackpackListing) :=
  check (is_family backpack asset) "asset_identity_family_mismatch" ;;
  parent ← exactly_one (Some value) bad_backpack "symbol" (symbol asset) "backpack_symbol_missing" "backpack_symbol_duplicate";
  token ← exactly_one (own parent "tokens") bad_backpack "blockchain" (text "Solana") "backpack_solana_token_missing" "backpack_solana_token_duplicate";
  observedMint ← str (own token "contractAddress") bad_backpack;
  observedDecimals ← integer (own token "nativeDecimals") bad_backpack;
  check (bool_decide (observedMint = mint asset)) "backpack_mint_mismatch" ;;
  check (observedDecimals =? decimals asset) "backpack_decimals_mismatch" ;;
  listing ← parse_listing token observedDecimals;
  str (own parent "displayName") bad_backpack ;;
  check (match own parent "coingeckoId" with Some JNull | Some (JStr _) => true | _ => false end) bad_backpack ;;
  Ok (MkIdentity (mint asset) observedMint (decimals asset) (Some observedDecimals), listing).

Definition BACKPACK_BLOCKERS : list string := SETTLEMENT_BLOCKERS ++ ["issuer_corporate_action_ledger_unavailable"%string].
Definition backpack_failed (code : string) (skip : bool) (asset : SelectedAsset) : BackpackObservation :=
  let state := if skip then skipped else failed in
  MkBackpack asset (Lacking state code) (Lacking state code) BACKPACK_BLOCKERS.
Definition observe_backpack (value : json) (asset : SelectedAsset) : BackpackObservation :=
  match parseBackpackRegistry value asset with
  | Ok (identity, listing) =>
      MkBackpack asset (Observed identity) (Observed listing)
        (BACKPACK_BLOCKERS ++ (if bl_depositEnabled listing then [] else ["issuer_deposits_disabled"%string])
         ++ (if bl_withdrawEnabled listing then [] else ["issuer_withdrawals_disabled"%string]))
  | Err code => backpack_failed code false asset
  end.
Definition backpack_observed (o : BackpackObservation) : bool := match bo_identity o with Observed _ => true | _ => false end.
(** The state of a group from how many of its observations fail. *)
Definition group_state {A} (fails : A -> bool) (l : list A) : IssuerState :=
  let failures := length (List.filter fails l) in
  if Nat.eqb failures 0 then issuer_observed else if Nat.eqb failures (length l) then issuer_failed else issuer_partial.

Section backpack.
Context (endpoint : event -> js_string).
Definition readBackpack (assets : list SelectedAsset) : reading BackpackReport :=
  lift_result (check (forallb (is_family backpack) assets) "asset_identity_family_mismatch") ;;
  response ← act ObserveBackpack;
  match response with
  | Err code =>
      now ← act Now;
      mret (MkBackpackReport issuer_failed (backpack_failed code false <$> assets) [failedRequest (endpoint ObserveBackpack) code now] None)
  | Ok (request, value) =>
      match stopCode request, truthy value with
      | Some stop, _ => mret (MkBackpackReport issuer_failed (backpack_failed stop true <$> assets) [request] (Some (MkStoppedRequests stop 0)))
      | None, None =>
          mret (MkBackpackReport issuer_failed (backpack_failed (default "backpack_registry_unavailable"%string (rq_error request)) false <$> assets) [request] None)
      | None, Some v =>
          let observed := observe_backpack v <$> assets in
          mret (MkBackpackReport (group_state (fun o => negb (backpack_observed o)) observed) observed [request] None)
      end
  end.
End backpack.
