(* ===== verification/IssuerOndo.v ===== *)
(** * Issuer readers: Ondo's notices

    [packages/issuer-readers/src/ondo.ts]: addresses and statuses of all
    assets, then the multiplier and the dividend of each, over a transport with
    a key; after a refusal nothing more is asked. *)
From S2P Require Import Prelude Js Utf8 Json Programs IssuerSchema IssuerTransport IssuerXstocks IssuerBackpack.
Open Scope Z_scope.

Definition ONDO_SOLANA_CHAIN_ID : js_string := text "solana-900".

Record PauseReason := MkReason { pr_code : js_string; pr_message : js_string; pr_documentation : js_string }.
Record OndoPauseNotice := MkNotice {
  pn_symbol : js_string; pn_status : js_string; pn_type : js_string; pn_reason : option PauseReason; pn_start : option js_string;
  pn_end : option js_string; pn_eventId : option js_string; pn_updateSharesMultiplier : option bool;
}.
Record OndoMultiplierObservation := MkMultiplier { om_history : list (js_string * Z); om_sourceTimestampMs : Z }.
Record OndoDividendNotice := MkDividend {
  dn_ticker : js_string; dn_dividendYield : js_string; dn_payoutFrequency : js_string; dn_lastCashAmount : js_string; dn_lastPaymentDate : js_string;
  dn_sourceTimestampMs : Z;
}.
Record OndoObservation := MkOndo {
  oo_asset : SelectedAsset; oo_identity : component IdentityObservation; oo_pauses : component (list OndoPauseNotice);
  oo_multiplier : component OndoMultiplierObservation; oo_dividend : component OndoDividendNotice; oo_blockers : list string;
}.
Record OndoReport := MkOndoReport {
  or_state : IssuerState; or_assets : list OndoObservation; or_requests : list RequestObservation; or_stopped : option StoppedRequests;
}.

Definition parseRaw (observed : ondo_observed) : res json :=
  match oo_raw observed with
  | None => Err (default "ondo_component_unavailable"%string (rq_error (oo_record observed)))
  | Some None => Err "ondo_schema_malformed"%string
  | Some (Some v) => Ok v
  end.
Definition ondo_stopCode (record : RequestObservation) : option string :=
  match rq_status record with
  | Some 401 | Some 403 => Some "issuer_authentication_failed"%string
  | Some 429 => Some "issuer_rate_limited"%string
  | _ => if bool_decide (rq_error record = Some "secret_reflection_refused"%string) then rq_error record else None
  end.
Definition unixMillis (v : option json) : res Z :=
  z ← integer v "malformed_timestamp"; check (0 <=? z) "malformed_timestamp" ;; Ok z.

Definition parseOndoAddresses (value : json) (asset : SelectedAsset) : res IdentityObservation :=
  let code := "ondo_addresses_malformed"%string in
  check (is_family ondo asset) "asset_identity_family_mismatch" ;;
  row ← exactly_one (Some value) code "symbol" (symbol asset) "ondo_symbol_missing" "ondo_symbol_duplicate";
  address ← exactly_one (own row "addresses") code "networkChainId" ONDO_SOLANA_CHAIN_ID "ondo_solana_address_missing" "ondo_solana_address_duplicate";
  observedMint ← str (own address "address") code;
  observedDecimals ← integer (own address "decimals") code;
  check (bool_decide (observedMint = mint asset)) "ondo_mint_mismatch" ;;
  check (observedDecimals =? decimals asset) "ondo_decimals_mismatch" ;;
  Ok (MkIdentity (mint asset) observedMint (decimals asset) (Some observedDecimals)).

(** A field that may be absent, but not [null]. *)
Definition optional {A} (f : option json -> res A) (v : option json) : res (option A) :=
  match v with None => Ok None | Some _ => a ← f v; Ok (Some a) end.
Section ondo.
Context (Date_parse : js_string -> option Z).
Definition bad_status : string := "ondo_status_malformed".
Definition parse_reason (v : option json) : res PauseReason :=
  source ← object v bad_status;
  c ← str (own source "code") bad_status;
  m ← str (own source "message") bad_status;
  d ← str (own source "documentation") bad_status;
  Ok (MkReason c m d).
Definition parse_status (selected : list js_string) (result : list (js_string * list OndoPauseNotice)) (item : json)
    : res (list (js_string * list OndoPauseNotice)) :=
  row ← object (Some item) bad_status;
  s ← str (own row "symbol") bad_status;
  status ← str (own row "status") bad_status;
  type ← str (own row "type") bad_status;
  check (bool_decide (status = text "active") || bool_decide (status = text "upcoming")) bad_status ;;
  check (bool_decide (type = text "scheduled") || bool_decide (type = text "unscheduled")) bad_status ;;
  reason ← optional parse_reason (own row "reason");
  update ← optional (fun v => bool_of v bad_status) (own row "updateSharesMultiplier");
  if bool_decide (s ∈ selected) then
    start ← optional (fun v => timestamp Date_parse v bad_status) (own row "start");
    end' ← optional (fun v => timestamp Date_parse v bad_status) (own row "end");
    eventId ← optional (fun v => str v bad_status) (own row "eventId");
    Ok (om_set result s (default [] (om_get result s) ++ [MkNotice s status type reason start end' eventId update]))
  else Ok result.
Definition parseOndoStatuses (value : json) (selected : list js_string) : res (list (js_string * list OndoPauseNotice)) :=
  rows ← array (Some value) bad_status;
  foldM (parse_status selected) (fold_left (fun m s => om_set m s []) selected []) rows.

Definition parse_multiplier_row (item : json) : res (js_string * Z) :=
  row ← object (Some item) "ondo_multiplier_malformed";
  m ← exactDecimal (own row "sharesMultiplier") true 18;
  t ← unixMillis (own row "changeTimestamp");
  Ok (m, t).
Definition parseOndoMultiplier (value : json) : res OndoMultiplierObservation :=
  root ← object (Some value) "ondo_multiplier_malformed";
  rows ← array (own root "history") "ondo_multiplier_malformed";
  history ← mapM parse_multiplier_row rows;
  t ← unixMillis (own root "timestamp");
  Ok (MkMultiplier history t).
Definition FREQUENCIES : list string := ["monthly"; "quarterly"; "semi-annually"; "annually"; "irregular"; "none"]%string.
Definition parseOndoDividend (value : json) (expectedTicker : js_string) : res OndoDividendNotice :=
  let code := "ondo_dividend_malformed"%string in
  root ← object (Some value) code;
  ticker ← str (own root "ticker") code;
  check (bool_decide (ticker = expectedTicker)) "ondo_dividend_ticker_mismatch" ;;
  frequency ← str (own root "payoutFrequency") code;
  check (existsb (fun f => bool_decide (frequency = text f)) FREQUENCIES) code ;;
  yield ← exactDecimal (own root "dividendYield") false 18;
  amount ← exactDecimal (own root "lastCashAmount") false 18;
  date ← civilDate (own root "lastPaymentDate");
  t ← unixMillis (own root "timestamp");
  Ok (MkDividend ticker yield frequency amount date t).

Definition ONDO_BLOCKERS : list string := SETTLEMENT_BLOCKERS ++ ["authenticated_notices_are_not_an_event_ledger"%string].
Definition ondo_failed (code : string) (state : lack) (asset : SelectedAsset) : OndoObservation :=
  MkOndo asset (Lacking state code) (Lacking state code) (Lacking state code) (Lacking state code) ONDO_BLOCKERS.
Definition unavailableOndo (assets : list SelectedAsset) (code : string) : OndoReport :=
  MkOndoReport issuer_unavailable (ondo_failed code unavailable <$> assets) [] None.
(** [{...unavailableOndo(assets, code), state: "failed", requests, stopped}] *)
Definition failed_ondo (assets : list SelectedAsset) (code : string) (requests : list RequestObservation) (stopped : option StoppedRequests) : OndoReport :=
  MkOndoReport issuer_failed (ondo_failed code unavailable <$> assets) requests stopped.

(** ** Reading *)

(** One request: its record, and what was observed unless it threw. *)
Definition request (endpoint : js_string) : reading (RequestObservation * option ondo_observed) :=
  response ← act (ObserveOndo endpoint);
  match response with
  | Ok observed => mret (oo_record observed, Some observed)
  | Err code => now ← act Now; mret (MkObservation endpoint now None None (Some code), None)
  end.
(** What a parser makes of a response, or the code of what went wrong. *)
Definition parsed {A} (r : RequestObservation * option ondo_observed) (missing : string) (parse : json -> res A) : res A :=
  match r.2 with
  | Some observed => v ← parseRaw observed; parse v
  | None => Err (default missing (rq_error r.1))
  end.
Definition as_component {A} (r : res A) : component A := match r with Ok a => Observed a | Err code => Lacking failed code end.
Definition remaining (assets : list SelectedAsset) : Z := Z.of_nat (length assets) * 2.

(** One asset: its multiplier and dividend, their requests, and why the others
    are not read, with the requests that saves. *)
Definition read_ondo_asset (identity : component IdentityObservation) (pauses : component (list OndoPauseNotice)) (asset : SelectedAsset)
    (rest : list SelectedAsset) : reading (OndoObservation * list RequestObservation * option StoppedRequests) :=
  m ← request (text "/v1/assets/" ++ symbol asset ++ text "/shares-multiplier?range=all");
  match ondo_stopCode m.1 with
  | Some stop =>
      mret (MkOndo asset identity pauses (Lacking failed stop) (Lacking skipped "issuer_requests_stopped") ONDO_BLOCKERS, [m.1],
            Some (MkStoppedRequests stop (1 + remaining rest)))
  | None =>
      let multiplier := as_component (parsed m "ondo_multiplier_unavailable" parseOndoMultiplier) in
      d ← request (text "/v1/assets/" ++ symbol asset ++ text "/dividends");
      match ondo_stopCode d.1 with
      | Some stop =>
          mret (MkOndo asset identity pauses multiplier (Lacking failed stop) ONDO_BLOCKERS, [m.1; d.1], Some (MkStoppedRequests stop (remaining rest)))
      | None =>
          mret (MkOndo asset identity pauses multiplier
                  (as_component (parsed d "ondo_dividend_unavailable" (fun v => parseOndoDividend v (underlying asset)))) ONDO_BLOCKERS,
                [m.1; d.1], None)
      end
  end.
Fixpoint read_ondo_assets (identity : SelectedAsset -> component IdentityObservation) (pauses : SelectedAsset -> component (list OndoPauseNotice))
    (assets : list SelectedAsset) (observations : list OndoObservation) (requests : list RequestObservation)
    : reading (list OndoObservation * list RequestObservation * option StoppedRequests) :=
  match assets with
  | [] => mret (observations, requests, None)
  | asset :: rest =>
      one ← read_ondo_asset (identity asset) (pauses asset) asset rest;
      let '(observation, more, stop) := one in
      match stop with
      | Some _ =>
          mret (observations ++ [observation] ++ (ondo_failed "issuer_requests_stopped" skipped <$> rest), requests ++ more, stop)
      | None => read_ondo_assets identity pauses rest (observations ++ [observation]) (requests ++ more)
      end
  end.
Definition is_observed_part {A} (c : component A) : bool := match c with Observed _ => true | _ => false end.
Definition ondo_fails (o : OndoObservation) : bool :=
  negb (is_observed_part (oo_identity o) && is_observed_part (oo_pauses o) && is_observed_part (oo_multiplier o) && is_observed_part (oo_dividend o)).
Definition pauses_of (statuses : res (list (js_string * list OndoPauseNotice))) (asset : SelectedAsset) : component (list OndoPauseNotice) :=
  match statuses with Ok m => Observed (default [] (om_get m (symbol asset))) | Err code => Lacking failed code end.
Definition readOndo (assets : list SelectedAsset) : reading OndoReport :=
  lift_result (check (forallb (is_family ondo) assets) "asset_identity_family_mismatch") ;;
  a ← request (text "/v1/assets/all/addresses");
  match ondo_stopCode a.1 with
  | Some stop => mret (failed_ondo assets stop [a.1] (Some (MkStoppedRequests stop (1 + remaining assets))))
  | None =>
      match parsed a "ondo_addresses_unavailable" Ok with
      | Err code => mret (failed_ondo assets code [a.1] None)
      | Ok addresses =>
          s ← request (text "/v1/status/assets");
          match ondo_stopCode s.1 with
          | Some stop => mret (failed_ondo assets stop [a.1; s.1] (Some (MkStoppedRequests stop (remaining assets))))
          | None =>
              let statuses := parsed s "ondo_status_unavailable" (fun v => parseOndoStatuses v (remove_dups (symbol <$> assets))) in
              done ← read_ondo_assets (fun asset => as_component (parseOndoAddresses addresses asset)) (pauses_of statuses) assets [] [a.1; s.1];
              let '(observations, requests, stopped) := done in
              mret (MkOndoReport (group_state ondo_fails observations) observations requests stopped)
          end
      end
  end.
End ondo.
