(* ===== verification/IssuerXstocksProps.v ===== *)
(** * Issuer readers: the event history of xStocks is complete and one

    The reduction of an issuer's records keeps one revision per version and the
    latest of every event, refuses records that contradict each other, and does
    not depend on their order; a history observed as complete is that of all
    the pages the issuer announced, within the limit. *)
From S2P Require Import Prelude Js Utf8 Json Programs IssuerSchema IssuerTransport IssuerXstocks.
Open Scope Z_scope.

Section reduction.
Context (locale_leb : js_string -> js_string -> bool).
Implicit Types (r head : XstocksEventRevision) (l : list XstocksEventRevision) (m : list (js_string * XstocksEventRevision)).
Abbreviation meaning := (semanticRevision locale_leb).
Abbreviation reduce := (reduceXstocksRevisions locale_leb).

(** ** What the reduction promises *)

Definition version_of (r : XstocksEventRevision) : js_string * Z := (eventId r, sourceVersion r).
(** Two records of a version say the same. *)
Definition consistent (l : list XstocksEventRevision) : Prop :=
  forall r r', r ∈ l -> r' ∈ l -> version_of r = version_of r' -> meaning r = meaning r'.
(** One of the records of every version, with the meaning of all. *)
Definition versions_of (l records : list XstocksEventRevision) : Prop :=
  NoDup (version_of <$> records) /\ records ⊆ l /\
  forall r, r ∈ l -> exists r', r' ∈ records /\ version_of r' = version_of r /\ meaning r' = meaning r.
(** The record of the latest version of every event. *)
Definition heads_of (l heads : list XstocksEventRevision) : Prop :=
  NoDup (eventId <$> heads) /\ heads ⊆ l /\
  forall r, r ∈ l -> exists head, head ∈ heads /\ eventId head = eventId r /\ sourceVersion r <= sourceVersion head.

(** ** The two maps *)

Lemma revision_key_version r r' : revision_key r = revision_key r' <-> version_of r = version_of r'.
Proof.
  unfold revision_key, version_of. split; [|by intros [= -> ->]].
  intros E. assert (forall (a b c d : js_string), a ++ [0] ++ c = b ++ [0] ++ d -> 0 ∉ c -> 0 ∉ d -> a = b /\ c = d) as Hsplit.
  { clear. induction a as [|x a IH]; intros [|y b] c d; cbn; intros E Hc Hd.
    - by injection E.
    - injection E as <- ->. exfalso. apply Hc, elem_of_app. right. left.
    - injection E as -> <-. exfalso. apply Hd, elem_of_app. right. left.
    - injection E as -> E. destruct (IH b c d E Hc Hd) as [-> ->]. done. }
  destruct (Hsplit _ _ _ _ E) as [-> Hv]; [apply int_text_nonzero..|]. by apply int_text_inj in Hv as ->.
Qed.

Definition versions_ok (seen : list XstocksEventRevision) m : Prop :=
  NoDup m.*1 /\ (forall k r, om_get m k = Some r -> k = revision_key r /\ r ∈ seen) /\
  forall r, r ∈ seen -> exists r', om_get m (revision_key r) = Some r' /\ meaning r' = meaning r.

Lemma versions_ok_add seen m r : versions_ok seen m -> contradicts locale_leb m r = false -> versions_ok (seen ++ [r]) (add_version m r).
Proof.
  intros (Hnd & Hget & Hall) Hc. unfold contradicts in Hc. unfold add_version, om_has.
  destruct (om_get m (revision_key r)) as [r0|] eqn:Hr.
  - apply negb_false_iff, bool_decide_eq_true in Hc. split; [done|]. split.
    + intros k r' Hk. destruct (Hget k r' Hk). split; [done|]. apply elem_of_app. by left.
    + intros r' [Hr'| ->%list_elem_of_singleton]%elem_of_app; eauto.
  - split; [by apply om_set_NoDup|]. split.
    + intros k r' Hk. destruct (decide (k = revision_key r)) as [->|Hne].
      * rewrite om_get_set_eq in Hk. injection Hk as <-. split; [done|]. apply elem_of_app. right. left.
      * rewrite om_get_set_ne in Hk by done. destruct (Hget k r' Hk). split; [done|]. apply elem_of_app. by left.
    + intros r' [Hr'| ->%list_elem_of_singleton]%elem_of_app; [|exists r; by rewrite om_get_set_eq].
      destruct (Hall r' Hr') as (r0 & Hg & Hm). exists r0. rewrite om_get_set_ne; [done|]. intros E. by rewrite E, Hg in Hr.
Qed.

Lemma reduce_versions seen l m m' : versions_ok seen m -> foldM (reduce_step locale_leb) m l = Ok m' -> versions_ok (seen ++ l) m'.
Proof.
  revert seen m. induction l as [|r l IH]; intros seen m Hm; cbn; [intros [= ->]; by rewrite app_nil_r|].
  unfold reduce_step. destruct (contradicts locale_leb m r) eqn:Hc; cbn; [done|]. intros Hf.
  rewrite cons_middle, app_assoc. eapply IH; [|done]. by apply versions_ok_add.
Qed.

Lemma versions_ok_consistent l m : versions_ok l m -> consistent l.
Proof.
  intros (_ & _ & Hall) r r' Hr Hr' E. apply revision_key_version in E.
  destruct (Hall r Hr) as (a & Ha & <-), (Hall r' Hr') as (b & Hb & <-). rewrite E in Ha. congruence.
Qed.

Lemma reduce_fails seen l m e :
  versions_ok seen m -> foldM (reduce_step locale_leb) m l = Err e -> e = "xstocks_conflicting_event_revision"%string /\ ~ consistent (seen ++ l).
Proof.
  revert seen m. induction l as [|r l IH]; intros seen m Hm; cbn; [done|].
  unfold reduce_step. destruct (contradicts locale_leb m r) eqn:Hc; cbn.
  - intros [= <-]. split; [done|]. intros Hcons. unfold contradicts in Hc. destruct (om_get m (revision_key r)) as [r0|] eqn:Hr; [|done].
    apply negb_true_iff, bool_decide_eq_false in Hc. apply Hc. destruct Hm as (_ & Hget & _). destruct (Hget _ _ Hr) as [Hk Hin].
    apply Hcons; [apply elem_of_app; by left|apply elem_of_app; right; left|]. by apply revision_key_version.
  - intros Hf. rewrite cons_middle, app_assoc. eapply IH; [|done]. by apply versions_ok_add.
Qed.

Definition heads_ok (seen : list XstocksEventRevision) m : Prop :=
  NoDup m.*1 /\ (forall k r, om_get m k = Some r -> k = eventId r /\ r ∈ seen) /\
  forall r, r ∈ seen -> exists r', om_get m (eventId r) = Some r' /\ sourceVersion r <= sourceVersion r'.

Lemma heads_ok_set seen m r :
  heads_ok seen m -> (forall current, om_get m (eventId r) = Some current -> sourceVersion current <= sourceVersion r) ->
  heads_ok (seen ++ [r]) (om_set m (eventId r) r).
Proof.
  intros (Hnd & Hget & Hall) Hle. split; [by apply om_set_NoDup|]. split.
  - intros k r' Hk. destruct (decide (k = eventId r)) as [->|Hne].
    + rewrite om_get_set_eq in Hk. injection Hk as <-. split; [done|]. apply elem_of_app. right. left.
    + rewrite om_get_set_ne in Hk by done. destruct (Hget k r' Hk). split; [done|]. apply elem_of_app. by left.
  - intros r' [Hr'| ->%list_elem_of_singleton]%elem_of_app; [|exists r; by rewrite om_get_set_eq].
    destruct (Hall r' Hr') as (r0 & Hg & Hm). destruct (decide (eventId r' = eventId r)) as [E|Hne].
    + exists r. rewrite E, om_get_set_eq. split; [done|]. rewrite E in Hg. specialize (Hle _ Hg). lia.
    + exists r0. by rewrite om_get_set_ne.
Qed.
Lemma heads_ok_add seen m r : heads_ok seen m -> heads_ok (seen ++ [r]) (add_head m r).
Proof.
  intros Hm. unfold add_head. destruct (om_get m (eventId r)) as [current|] eqn:Hr; [|apply heads_ok_set; [done|by rewrite Hr]].
  destruct (Z.ltb_spec (sourceVersion current) (sourceVersion r)).
  - apply heads_ok_set; [done|]. rewrite Hr. intros ? [= <-]. lia.
  - destruct Hm as (Hnd & Hget & Hall). split; [done|]. split.
    + intros k r' Hk. destruct (Hget k r' Hk). split; [done|]. apply elem_of_app. by left.
    + intros r' [Hr'| ->%list_elem_of_singleton]%elem_of_app; eauto.
Qed.
Lemma heads_ok_all seen l m : heads_ok seen m -> heads_ok (seen ++ l) (fold_left add_head l m).
Proof.
  revert seen m. induction l as [|r l IH]; intros seen m Hm; cbn; [by rewrite app_nil_r|].
  rewrite cons_middle, app_assoc. by apply IH, heads_ok_add.
Qed.

(** The values of a map whose keys are those of its values. *)
Lemma values_keys {K} (key : XstocksEventRevision -> K) `{!EqDecision K} (m : list (K * XstocksEventRevision)) :
  NoDup m.*1 -> (forall k r, om_get m k = Some r -> k = key r) -> m.*1 = key <$> m.*2.
Proof.
  intros Hnd Hk. assert (Forall (fun e => e.1 = key e.2) m) as Hall.
  { apply Forall_forall. intros [k r] Hin%list_elem_of_In. cbn. by apply Hk, om_In_get. }
  clear Hnd Hk. induction Hall as [|[k r] m E _ IH]; csimpl in *; [done|]. by rewrite IH, E.
Qed.

Lemma versions_ok_versions l m : versions_ok l m -> versions_of l m.*2.
Proof.
  intros (Hnd & Hget & Hall). split; [|split].
  - assert (NoDup (revision_key <$> m.*2)) as H.
    { rewrite <- (values_keys revision_key); [done..|]. intros k r Hk. by destruct (Hget k r Hk). }
    eapply (NoDup_fmap_1 (fun v : js_string * Z => v.1 ++ [0] ++ int_text v.2)). rewrite <- list_fmap_compose. exact H.
  - intros r [k Hk]%om_values_get; [|done]. by destruct (Hget k r Hk).
  - intros r Hr. destruct (Hall r Hr) as (r' & Hg & Hm). exists r'. split; [apply om_values_get; eauto|].
    split; [|done]. destruct (Hget _ _ Hg) as [E _]. by apply revision_key_version.
Qed.
Lemma heads_ok_heads l m : heads_ok l m -> heads_of l m.*2.
Proof.
  intros (Hnd & Hget & Hall). split; [|split].
  - rewrite <- (values_keys eventId); [done..|]. intros k r Hk. by destruct (Hget k r Hk).
  - intros r [k Hk]%om_values_get; [|done]. by destruct (Hget k r Hk).
  - intros r Hr. destruct (Hall r Hr) as (r' & Hg & Hm). exists r'. split; [apply om_values_get; eauto|].
    split; [|done]. by destruct (Hget _ _ Hg) as [E _].
Qed.
Lemma heads_of_versions l records heads : versions_of l records -> heads_of records heads -> heads_of l heads.
Proof.
  intros (_ & Hsub & Hall) (Hnd & Hsub' & Hheads). split; [done|]. split; [set_solver|].
  intros r Hr. destruct (Hall r Hr) as (r' & Hr' & E & _). injection E as <- <-. by apply Hheads.
Qed.

Lemma reduction_spec l :
  match reduce l with
  | Ok h => consistent l /\ versions_of l (hs_records h) /\ heads_of l (hs_latestObservedHeads h)
  | Err code => code = "xstocks_conflicting_event_revision"%string /\ ~ consistent l
  end.
Proof.
  unfold reduceXstocksRevisions. assert (versions_ok [] []) as H0.
  { split; [constructor|]. split; [done|]. intros r H. by apply not_elem_of_nil in H. }
  assert (heads_ok [] []) as H1.
  { split; [constructor|]. split; [done|]. intros r H. by apply not_elem_of_nil in H. }
  destruct (foldM (reduce_step locale_leb) [] l) as [m|e] eqn:Hf; cbn; [|by apply (reduce_fails [] l [] e)].
  apply (reduce_versions [] l [] m H0) in Hf as Hm. split; [by eapply versions_ok_consistent|].
  apply versions_ok_versions in Hm. split; [done|].
  eapply heads_of_versions; [done|]. apply heads_ok_heads. exact (heads_ok_all [] m.*2 [] H1).
Qed.

(** ** Order *)

Lemma consistent_perm l l' : l ≡ₚ l' -> consistent l -> consistent l'.
Proof. intros E H r r' Hr Hr'. apply H; by rewrite E. Qed.
Lemma versions_perm l l' records records' :
  l ≡ₚ l' -> versions_of l records -> versions_of l' records' -> consistent l -> meaning <$> records ≡ₚ meaning <$> records'.
Proof.
  intros E (Hnd & Hsub & Hall) (Hnd' & Hsub' & Hall') Hc. apply (keyed_perm version_of); [done..| |]; intros r Hr.
  - apply Hall'. rewrite <- E. by apply Hsub.
  - apply Hall. rewrite E. by apply Hsub'.
Qed.
Lemma heads_perm l l' heads heads' :
  l ≡ₚ l' -> heads_of l heads -> heads_of l' heads' -> consistent l -> meaning <$> heads ≡ₚ meaning <$> heads'.
Proof.
  assert (forall l1 h1 h2, heads_of l1 h1 -> heads_of l1 h2 -> consistent l1 ->
    forall r, r ∈ h1 -> exists r', r' ∈ h2 /\ eventId r' = eventId r /\ meaning r' = meaning r) as Hhalf.
  { intros l1 h1 h2 (Hnd1 & Hsub1 & Hall1) (Hnd2 & Hsub2 & Hall2) Hc r Hr.
    destruct (Hall2 r (Hsub1 r Hr)) as (r' & Hr' & E & Hle). exists r'. split; [done|]. split; [done|].
    destruct (Hall1 r' (Hsub2 r' Hr')) as (r0 & Hr0 & E0 & Hle0).
    assert (r0 = r) as ->.
    { rewrite E in E0. apply list_elem_of_lookup in Hr as [i Hi], Hr0 as [j Hj].
      assert (i = j) as ->; [|congruence]. eapply (NoDup_lookup _ _ _ (eventId r)); [exact Hnd1|..]; rewrite list_lookup_fmap.
      - by rewrite Hi. - by rewrite Hj; cbn; rewrite E0. }
    apply Hc; [by apply Hsub2|by apply Hsub1|]. unfold version_of. rewrite E. f_equal. lia. }
  intros E Hh Hh' Hc. assert (heads_of l heads') as Hh2.
  { destruct Hh' as (? & Hs & Ha). split; [done|]. split.
    - intros r Hr. rewrite E. by apply Hs.
    - intros r Hr. apply Ha. by rewrite <- E. }
  apply (keyed_perm eventId); [by destruct Hh|by destruct Hh2|by eapply Hhalf..].
Qed.

(** The reduction of an issuer's records refuses them exactly when two
    records of one version of an event say different things; otherwise it
    keeps, of the records it was given, one of every version, with the meaning
    of all its copies, and as heads, one per event, the records of the latest
    versions. *)
Theorem xstocks_reduction (input : list XstocksEventRevision) :
  match reduceXstocksRevisions locale_leb input with
  | Ok h => consistent input /\ versions_of input (hs_records h) /\ heads_of input (hs_latestObservedHeads h)
  | Err code => code = "xstocks_conflicting_event_revision"%string /\ ~ consistent input
  end.
Proof. apply reduction_spec. Qed.

(** The order in which an issuer's records are read is immaterial: whether
    they are refused, which versions are kept and which are the heads, as far
    as what they say goes, depends only on the records. *)
Theorem xstocks_order_immaterial (input input' : list XstocksEventRevision) :
  input ≡ₚ input' ->
  match reduceXstocksRevisions locale_leb input, reduceXstocksRevisions locale_leb input' with
  | Ok h, Ok h' =>
      semanticRevision locale_leb <$> hs_records h ≡ₚ semanticRevision locale_leb <$> hs_records h' /\
      semanticRevision locale_leb <$> hs_latestObservedHeads h ≡ₚ semanticRevision locale_leb <$> hs_latestObservedHeads h'
  | Err code, Err code' => code = code'
  | _, _ => False
  end.
Proof.
  intros E. pose proof (reduction_spec input) as H. pose proof (reduction_spec input') as H'.
  destruct (reduce input) as [h|code], (reduce input') as [h'|code'].
  - destruct H as (Hc & Hv & Hh), H' as (_ & Hv' & Hh'). split; [by eapply versions_perm|by eapply heads_perm].
  - destruct H as [Hc _], H' as [_ H']. by apply H', (consistent_perm input).
  - destruct H as [_ H], H' as [Hc _]. by apply H, (consistent_perm input').
  - destruct H as [-> _], H' as [-> _]. done.
Qed.
End reduction.

(** ** A history read to its end *)

Section history.
Context (Date_parse : js_string -> option Z) (locale_leb : js_string -> js_string -> bool) (endpoint : event -> js_string).
Implicit Types (pages : list XstocksPage) (t : trace (answer:=answer)) (asset : SelectedAsset).

(** The issuer answered page [number] of the history with page [p]. *)
Definition answered (t : trace (answer:=answer)) (asset : SelectedAsset) (number : Z) (p : XstocksPage) : Prop :=
  exists request v digest,
    existT (ObserveHistory asset number) (Ok (request, Some v)) ∈ t /\ stopCode request = None /\ rq_dataDigest request = Some digest /\
    parseXstocksHistoryPage Date_parse v number (symbol asset) digest = Ok p.
(** The pages from the first on, each as the issuer answered it, none twice,
    and all announcing the same totals. *)
Definition pages_read_ok (t : trace (answer:=answer)) (asset : SelectedAsset) (pages : list XstocksPage) : Prop :=
  (forall i p, pages !! i = Some p -> answered t asset (Z.of_nat i + 1) p /\
     match head pages with None => True | Some first => same_totals p first = true end) /\
  NoDup (signature_of locale_leb <$> pages).
(** All the pages the issuer announced, and all their records. *)
Definition all_pages (t : trace (answer:=answer)) (asset : SelectedAsset) (maxPages : nat) (pages : list XstocksPage) : Prop :=
  pages_read_ok t asset pages /\ (length pages <= maxPages)%nat /\
  match head pages with
  | None => False
  | Some first => Z.of_nat (length pages) = totalPages first /\ Z.of_nat (length (pages ≫= pg_records)) = totalNodes first
  end.
Definition complete_history (t : trace (answer:=answer)) (asset : SelectedAsset) (maxPages : nat) (h : XstocksHistory) : Prop :=
  exists pages, all_pages t asset maxPages pages /\ reduceXstocksRevisions locale_leb (pages ≫= pg_records) = Ok h.

Lemma parse_page_spec v number s d p :
  parseXstocksHistoryPage Date_parse v number s d = Ok p ->
  currentPage p = number /\ hasNextPage p = (number <? totalPages p) /\ number <= totalPages p.
Proof.
  unfold parseXstocksHistoryPage. intros H. minv H. breflect. subst. cbn. split; [done|]. split; [|done]. by apply eqb_prop.
Qed.

Lemma truthy_Some (value : option json) v : truthy value = Some v -> value = Some v.
Proof. unfold truthy. repeat case_match; congruence. Qed.
Lemma page_answered_later t t' asset number p : t `prefix_of` t' -> answered t asset number p -> answered t' asset number p.
Proof. intros [more ->] (request & v & digest & H & Hs). exists request, v, digest. split; [|done]. apply elem_of_app. by left. Qed.
Lemma pages_read_later t t' asset pages : t `prefix_of` t' -> pages_read_ok t asset pages -> pages_read_ok t' asset pages.
Proof. intros Ht [H Hnd]. split; [|done]. intros i p Hp. destruct (H i p Hp). split; [by eapply page_answered_later|done]. Qed.

Lemma accept_page_ok t asset pages v digest p :
  pages_read_ok t asset pages ->
  answered t asset (Z.of_nat (length pages) + 1) p ->
  accept_page Date_parse locale_leb pages (signature_of locale_leb <$> pages) v (Z.of_nat (length pages) + 1) (symbol asset) digest = Ok p ->
  pages_read_ok t asset (pages ++ [p]).
Proof.
  intros [Hp Hnd] Ha. unfold accept_page. intros H. minv H. breflect. split.
  - intros i q [Hi|[Hi Hq]]%lookup_app_Some.
    + destruct (Hp i q Hi). split; [done|]. by destruct pages.
    + destruct (i - length pages)%nat eqn:Hd; [|done]. cbn in Hq. injection Hq as <-.
      replace i with (length pages) by lia. split; [done|]. destruct pages as [|first pages]; [|done].
      cbn. unfold same_totals. by rewrite !Z.eqb_refl.
  - rewrite fmap_app. apply NoDup_app. split; [done|]. split; [|apply NoDup_singleton].
    cbn. by intros s Hs ->%list_elem_of_singleton.
Qed.

(** What the loop over the pages returns. *)
Definition loop_ok (maxPages : nat) (asset : SelectedAsset) (read : pages_read) (t : trace (answer:=answer)) : Prop :=
  pr_failure read = None ->
  pages_read_ok t asset (pr_pages read) /\ (length (pr_pages read) <= maxPages)%nat /\
  exists p, last (pr_pages read) = Some p /\ totalPages p = Z.of_nat (length (pr_pages read)).

Lemma read_pages_ok left_pages asset pages requests t :
  pages_read_ok t asset pages ->
  ensures (read_pages Date_parse locale_leb endpoint left_pages asset (Z.of_nat (length pages) + 1) pages (signature_of locale_leb <$> pages) requests)
    (loop_ok (length pages + left_pages) asset) t.
Proof.
  revert pages requests t. induction left_pages as [|left_pages IH]; intros pages requests t Hp; [done|]. cbn [read_pages].
  apply (ensures_trigger (answer:=answer) (ObserveHistory asset _)). intros [[request value]|code]; [|by apply (ensures_trigger (answer:=answer) Now)].
  set (t' := t ++ _). destruct (stopCode request) eqn:Hs; [done|]. destruct (truthy value) as [v|] eqn:Hv; [|done].
  destruct (rq_dataDigest request) as [[|u digest]|] eqn:Hd; [done| |done].
  destruct (accept_page _ _ _ _ _ _ _ _) as [p|code] eqn:Ha; [|done].
  apply truthy_Some in Hv as ->.
  assert (parseXstocksHistoryPage Date_parse v (Z.of_nat (length pages) + 1) (symbol asset) (u :: digest) = Ok p) as Hparse.
  { unfold accept_page in Ha. pose proof Ha as H. minv H. congruence. }
  assert (pages_read_ok t' asset (pages ++ [p])) as Hp'.
  { apply (accept_page_ok t' asset pages v (u :: digest)); [by eapply pages_read_later; [eexists|]| |done].
    exists request, v, (u :: digest). split; [apply elem_of_app; right; left|done]. }
  assert (length (pages ++ [p]) = S (length pages)) as Hlen by (rewrite length_app; cbn; lia).
  destruct (hasNextPage p) eqn:Hn.
  - replace (Z.of_nat (length pages) + 1 + 1) with (Z.of_nat (length (pages ++ [p])) + 1) by lia.
    replace (length pages + S left_pages)%nat with (length (pages ++ [p]) + left_pages)%nat by lia.
    change [signature_of locale_leb p] with (signature_of locale_leb <$> [p]). rewrite <- fmap_app. by apply IH.
  - apply ensures_ret. intros _. cbn. rewrite Hlen. split; [done|]. split; [lia|]. exists p. rewrite last_snoc. split; [done|].
    destruct (parse_page_spec _ _ _ _ _ Hparse) as (_ & E & Hle). rewrite E in Hn. breflect. lia.
Qed.

Lemma corporate_actions_complete maxPages asset registry read t h :
  loop_ok maxPages asset read t -> corporate_actions locale_leb read registry asset = Complete h -> complete_history t asset maxPages h.
Proof.
  unfold loop_ok, corporate_actions. destruct (pr_failure read); [by repeat case_match|].
  intros Hloop. destruct (Hloop eq_refl) as (Hok & Hlen & p & Hlast & Htotal).
  destruct (_ ;; _) as [h'|] eqn:Hr; [|done]. intros [= ->]. unfold reduce_checked in Hr. minv Hr. subst.
  exists (pr_pages read). split; [|done]. split; [done|]. split; [done|].
  destruct (pr_pages read) as [|first rest] eqn:Hpages; [done|]. breflect. split; [|done].
  rewrite last_lookup in Hlast. destruct Hok as [Hok _]. destruct (Hok _ _ Hlast) as [_ Hsame]. unfold same_totals in Hsame. breflect. cbn in *. lia.
Qed.

(** ** The report *)

(** What one observation says is so. *)
Definition observation_ok (t : trace (answer:=answer)) (maxPages : nat) (o : XstocksObservation) : Prop :=
  (forall h, xo_corporateActions o = Complete h -> complete_history t (xo_asset o) maxPages h) /\
  (forall i, xo_identity o = Observed i -> expectedMint i = mint (xo_asset o) /\ observedMint i = mint (xo_asset o)) /\
  (forall code, xo_corporateActions o <> NoActions unavailable code).
Definition is_complete (o : XstocksObservation) : Prop := exists h, xo_corporateActions o = Complete h.

Lemma complete_later t t' asset maxPages h : t `prefix_of` t' -> complete_history t asset maxPages h -> complete_history t' asset maxPages h.
Proof. intros Ht (pages & [Hok Hrest] & Hr). exists pages. split; [|done]. split; [by eapply pages_read_later|done]. Qed.
Lemma observation_later t t' maxPages o : t `prefix_of` t' -> observation_ok t maxPages o -> observation_ok t' maxPages o.
Proof. intros Ht [Hc Hi]. split; [|done]. intros h Hh. eapply complete_later; [done|by apply Hc]. Qed.
Lemma assetFailure_ok t maxPages asset code : observation_ok t maxPages (assetFailure asset code).
Proof. done. Qed.

Lemma registry_mint v asset identity registry :
  parseXstocksRegistry v asset = Ok (identity, registry) -> expectedMint identity = mint asset /\ observedMint identity = mint asset.
Proof.
  unfold parseXstocksRegistry. intros H. minv H. case_match; [done|]. case_match; [|done]. minv R11. breflect. by simplify_eq.
Qed.
Lemma corporate_actions_available read registry asset code : corporate_actions locale_leb read registry asset <> NoActions unavailable code.
Proof. unfold corporate_actions. by repeat case_match. Qed.

Lemma read_asset_ok maxPages asset t :
  ensures (read_asset Date_parse locale_leb endpoint maxPages asset) (fun r t' => xo_asset r.1.1 = asset /\ observation_ok t' maxPages r.1.1) t.
Proof.
  unfold read_asset. apply (ensures_trigger (answer:=answer) (ObserveRegistry asset)).
  intros [[request value]|code]; [|by apply (ensures_trigger (answer:=answer) Now)].
  destruct (stopCode request); [done|]. destruct (truthy value) as [v|]; [|done].
  destruct (parseXstocksRegistry v asset) as [[identity registry]|code] eqn:Hr; [|done].
  eapply ensures_bind; [apply (read_pages_ok maxPages asset []); by split; [|constructor]|].
  intros read t' _ Hloop. apply ensures_ret. split; [done|]. split; [|split]; cbn.
  - intros h. by apply corporate_actions_complete.
  - intros i [= <-]. by eapply registry_mint.
  - apply corporate_actions_available.
Qed.

Lemma read_assets_ok maxPages assets observations requests t :
  Forall (observation_ok t maxPages) observations ->
  ensures (read_assets Date_parse locale_leb endpoint maxPages assets observations requests)
    (fun r t' => Forall (observation_ok t' maxPages) r.1.1 /\
       exists n, xo_asset <$> r.1.1 = (xo_asset <$> observations) ++ take n assets /\ (r.2 = None -> n = length assets)) t.
Proof.
  revert observations requests t. induction assets as [|asset assets IH]; intros observations requests t Hok; cbn [read_assets].
  { apply ensures_ret. split; [done|]. exists 0%nat. by rewrite app_nil_r. }
  eapply ensures_bind; [apply read_asset_ok|]. intros [[o more] stop] t' Ht [Ha Ho]. cbn in *.
  assert (Forall (observation_ok t' maxPages) (observations ++ [o])) as Hok'.
  { apply Forall_app. split; [|by apply Forall_singleton]. eapply Forall_impl; [exact Hok|]. intros. by eapply observation_later. }
  destruct stop as [code|].
  - apply ensures_ret. cbn. split; [done|]. exists 1%nat. by rewrite fmap_app, <- Ha.
  - eapply always_mono; [|by apply IH]. intros [[[done' more'] stop']|] t'' _; [|done]. cbn. intros (Hd & n & E & Hn).
    split; [done|]. exists (S n). rewrite E, fmap_app, <- app_assoc. cbn. rewrite Ha. split; [done|]. intros H. by rewrite (Hn H).
Qed.

Lemma observed_complete t maxPages o : observation_ok t maxPages o -> hard_failure o = false -> is_partial o = false -> is_complete o.
Proof.
  intros (_ & _ & Hu). unfold hard_failure, is_partial, is_complete. destruct (xo_corporateActions o) as [h| |[] code]; cbn; rewrite ?orb_true_r; try done; [by eauto|].
  by destruct (Hu code).
Qed.

(** What a report says is so: every selected asset is there, in order; a
    history said to be complete is; and the state [observed] means that every
    history is complete. *)
Definition report_ok (t : trace (answer:=answer)) (maxPages : nat) (assets : list SelectedAsset) (report : XstocksReport) : Prop :=
  xo_asset <$> xr_assets report = assets /\ Forall (observation_ok t maxPages) (xr_assets report) /\
  (xr_state report = issuer_observed -> Forall is_complete (xr_assets report)).

Lemma no_failures (observations : list XstocksObservation) :
  length (List.filter hard_failure observations) = 0%nat -> existsb is_partial observations = false ->
  Forall (fun o => hard_failure o = false /\ is_partial o = false) observations.
Proof.
  induction observations as [|o l IH]; cbn; intros Hf Hp; [constructor|]. apply orb_false_elim in Hp as [Hp Hps].
  destruct (hard_failure o) eqn:Ho; [done|]. constructor; [done|]. by apply IH.
Qed.

Lemma readXstocks_ok maxPages assets t :
  ensures (readXstocks Date_parse locale_leb endpoint maxPages assets) (fun report t' => report_ok t' maxPages assets report) t.
Proof.
  unfold readXstocks. eapply ensures_bind; [by apply (ensures_lift _ (fun _ _ => True))|]. intros _ t1 _ _.
  eapply ensures_bind; [by apply read_assets_ok|]. intros [[observed requests] stopped] t' _ (Hok & n & E & Hn). cbn in Hok, E, Hn.
  apply ensures_ret. set (observations := observed ++ _).
  assert (Forall (observation_ok t' maxPages) observations) as Hall.
  { apply Forall_app. split; [done|]. case_bool_decide; [|constructor]. by apply Forall_fmap, Forall_true. }
  split; [|split]; cbn; [|done|].
  - unfold observations. rewrite fmap_app, E. assert (length observed = length (take n assets)) as Hl by (rewrite <- E; by rewrite length_fmap).
    case_bool_decide as Hst; cbn.
    + rewrite <- list_fmap_compose. replace (xo_asset ∘ skipped_asset) with (@id SelectedAsset) by done. rewrite list_fmap_id, Hl, length_take.
      destruct (Nat.le_ge_cases n (length assets)); [by rewrite Nat.min_l, take_drop|by rewrite Nat.min_r, take_ge, drop_all, app_nil_r].
    + rewrite app_nil_r. destruct stopped; [by destruct Hst|]. by rewrite (Hn eq_refl), firstn_all.
  - destruct (Nat.eqb_spec (length (List.filter hard_failure observations)) (length observations)); [done|].
    destruct (Nat.eqb_spec (length (List.filter hard_failure observations)) 0) as [H0|]; cbn; [|done].
    destruct (existsb is_partial observations) eqn:Hp; [done|]. intros _.
    eapply Forall_impl; [apply Forall_and; split; [exact Hall|by apply no_failures]|]. intros o (Ho & Hh & Hq). by eapply observed_complete.
Qed.

(** C32: Whatever the issuer answers, a report names every selected asset, in
    order; a history said to be complete comes from all the pages the issuer
    announced, each answered for its number and none twice, within the page
    limit, with as many records as announced, reduced without contradiction;
    an observed identity has the catalog's mint; and a report is [observed]
    only when every history is complete. *)
Theorem xstocks_report_ok {W} (handler : forall e : event, W -> answer e * W) (maxPages : nat) (assets : list SelectedAsset) (w : W)
    (report : XstocksReport) (t : trace (answer:=answer)) (w' : W) :
  run (traced handler) (readXstocks Date_parse locale_leb endpoint maxPages assets) ([], w) = (Ok report, (t, w')) ->
  report_ok t maxPages assets report.
Proof. exact (fun E => ensures_run handler _ _ w [] report (t, w') (readXstocks_ok maxPages assets []) E). Qed.
End history.
