(* ===== verification/IssuerReader.v ===== *)
(** * Issuer readers: a report over all issuers

    [packages/issuer-readers/src/reader.ts]: the selected assets, grouped by
    issuer and read one issuer after the other; Ondo only with a key. *)
From S2P Require Import Prelude Js Utf8 Json Programs IssuerSchema IssuerTransport IssuerXstocks IssuerBackpack IssuerOndo.
Open Scope Z_scope.

Inductive issuer_group := XstocksGroup (r : XstocksReport) | BackpackGroup (r : BackpackReport) | OndoGroup (r : OndoReport).
Record IssuerReadReport := MkReadReport {
  ir_requestedYear : Z; ir_startedAt : js_string; ir_completedAt : js_string; ir_selected : list SelectedAsset; ir_issuers : list issuer_group;
}.
(** The characters [trim] removes. *)
Definition white_space (u : Z) : bool :=
  between 9 13 u || (u =? 32) || (u =? 160) || (u =? 5760) || between 8192 8202 u || (u =? 8232) || (u =? 8233) || (u =? 8239) || (u =? 8287)
  || (u =? 12288) || (u =? 65279).
Definition usable_key (key : js_string) : bool := negb (forallb white_space key).
Definition validateYear (year : Z) : res Z := check (isSafeInteger year && (1000 <=? year) && (year <=? 9999)) "invalid_year" ;; Ok year.
Definition grouped (selected : list SelectedAsset) (i : IssuerId) : list SelectedAsset := List.filter (fun asset => bool_decide (issuerId asset = i)) selected.

Section reader.
Context (Date_parse : js_string -> option Z) (locale_leb : js_string -> js_string -> bool) (endpoint : event -> js_string).
(** The transport and the key of Ondo, loaded unless they are given. *)
Definition ondo_key (transport : bool) (apiKey : option js_string) : reading (res js_string) :=
  loaded ← (if transport then mret (Ok tt) else act LoadOndoTransport);
  match loaded with
  | Err code => mret (Err code)
  | Ok _ =>
      key ← (match apiKey with Some key => mret (Ok key) | None => act LoadOndoKey end);
      match key with
      | Err code => mret (Err code)
      | Ok key => mret (if usable_key key then Ok key else Err "ondo_api_key_missing"%string)
      end
  end.
Definition read_group (i : IssuerId) (assets : list SelectedAsset) (transport : bool) (apiKey : option js_string) : reading (list issuer_group) :=
  match assets with
  | [] => mret []
  | _ =>
      match i with
      | xstocks => r ← readXstocks Date_parse locale_leb endpoint XSTOCKS_MAX_PAGES assets; mret [XstocksGroup r]
      | backpack => r ← readBackpack endpoint assets; mret [BackpackGroup r]
      | ondo =>
          key ← ondo_key transport apiKey;
          match key with
          | Err code => mret [OndoGroup (unavailableOndo assets code)]
          | Ok _ => r ← readOndo Date_parse assets; mret [OndoGroup r]
          end
      end
  end.
Definition readSelectedIssuers (year : Z) (issuers : option (list IssuerId)) (symbols : option (list js_string)) (transport : bool)
    (apiKey : option js_string) : reading IssuerReadReport :=
  lift_result (validateYear year) ;;
  startedAt ← act Now;
  selected ← lift_result (selectAssets issuers symbols);
  x ← read_group xstocks (grouped selected xstocks) transport apiKey;
  b ← read_group backpack (grouped selected backpack) transport apiKey;
  o ← read_group ondo (grouped selected ondo) transport apiKey;
  completedAt ← act Now;
  mret (MkReadReport year startedAt completedAt selected (x ++ b ++ o)).
End reader.
