(* ===== verification/IssuerReaderProps.v ===== *)
(** * Issuer readers: what is asked and what is reported

    However the issuers answer, one that refuses (401, 403, 429, or a reflected
    secret) is not asked again, the requests made are recorded and those saved
    counted, and the report has every selected asset under its issuer. *)
From S2P Require Import Prelude Js Utf8 Json Programs IssuerSchema IssuerTransport IssuerXstocks IssuerBackpack IssuerOndo IssuerReader.
From S2P Require Import IssuerXstocksProps.
Open Scope Z_scope.

(** ** Traces in which refusals end requests *)

Abbreviation step := {e : event & answer e}.
Implicit Types (s t : list step) (i : IssuerId).

Definition asks (x : step) : option IssuerId :=
  match projT1 x with
  | ObserveRegistry _ | ObserveHistory _ _ => Some xstocks
  | ObserveBackpack => Some backpack
  | ObserveOndo _ => Some ondo
  | LoadOndoTransport | LoadOndoKey | Now => None
  end.
Definition observed_refusal (r : res (RequestObservation * option json)) : bool :=
  match r with Ok (request, _) => bool_decide (is_Some (stopCode request)) | Err _ => false end.
(** The issuer refuses with this answer. *)
Definition refused (x : step) : bool :=
  match x with
  | existT (ObserveRegistry _) r | existT (ObserveHistory _ _) r | existT ObserveBackpack r => observed_refusal r
  | existT (ObserveOndo _) (Ok observed) => bool_decide (is_Some (ondo_stopCode (oo_record observed)))
  | existT (ObserveOndo _) (Err code) => bool_decide (code = "secret_reflection_refused"%string)
  | _ => false
  end.
(** Whoever refuses is not asked again. *)
Fixpoint refusals_final (t : list step) : Prop :=
  match t with
  | [] => True
  | x :: t' => (refused x = true -> Forall (fun y => asks y <> asks x) t') /\ refusals_final t'
  end.
Definition calm (t : list step) : Prop := Forall (fun x => refused x = false) t.
Definition about (i : IssuerId) (t : list step) : Prop := Forall (fun x => asks x = Some i \/ asks x = None) t.

Lemma refused_asks x : refused x = true -> is_Some (asks x).
Proof. destruct x as [[] ?]; cbn; try done; eauto. Qed.
Lemma calm_final s t : calm s -> refusals_final t -> refusals_final (s ++ t).
Proof. intros Hs Ht. induction Hs as [|x s Hx _ IH]; cbn; [done|]. split; [by rewrite Hx|done]. Qed.
Lemma final_app s t : refusals_final s -> refusals_final t -> (forall x y, x ∈ s -> y ∈ t -> is_Some (asks x) -> asks y <> asks x) -> refusals_final (s ++ t).
Proof.
  induction s as [|x s IH]; cbn; [done|]. intros [Hx Hs] Ht Hd. split.
  - intros Hr. apply Forall_app. split; [by apply Hx|]. apply Forall_forall. intros y Hy. apply Hd; [left|done|by apply refused_asks].
  - apply IH; [done|done|]. intros x' y Hx' Hy. apply Hd; [by right|done].
Qed.

Definition idle (t : list step) : Prop := Forall (fun x => asks x = None) t.
Lemma idle_calm t : idle t -> calm t.
Proof. intros H. eapply Forall_impl; [exact H|]. intros x Hx. destruct (refused x) eqn:Hr; [|done]. apply refused_asks in Hr as [i Hi]. congruence. Qed.
Lemma refusal_last x t : idle t -> refusals_final (x :: t).
Proof.
  intros Ht. split.
  - intros [i Hi]%refused_asks. eapply Forall_impl; [exact Ht|]. intros y Hy. congruence.
  - rewrite <- (app_nil_r t). by apply calm_final; [apply idle_calm|].
Qed.

Lemma about_apart i j s t x y : i <> j -> about i s -> about j t -> x ∈ s -> y ∈ t -> is_Some (asks x) -> asks y <> asks x.
Proof.
  intros Hij Hs Ht Hx Hy [k Hk]. apply (proj1 (Forall_forall _ _) Hs) in Hx. apply (proj1 (Forall_forall _ _) Ht) in Hy.
  destruct Hx as [Hx|Hx], Hy as [Hy|Hy]; congruence.
Qed.
Lemma parts_final sx sb so n :
  about xstocks sx -> about backpack sb -> about ondo so -> refusals_final sx -> refusals_final sb -> refusals_final so -> idle n ->
  refusals_final (sx ++ sb ++ so ++ n).
Proof.
  intros Hx Hb Ho Fx Fb Fo Hn.
  assert (Hnone : forall x y s, x ∈ s -> y ∈ n -> is_Some (asks x) -> asks y <> asks x).
  { intros x y s _ Hy [k Hk]. apply (proj1 (Forall_forall _ _) Hn) in Hy. congruence. }
  assert (Fn : refusals_final n) by (rewrite <- (app_nil_r n); by apply calm_final; [apply idle_calm|]).
  apply final_app; [done|apply final_app; [done|apply final_app; [done|done|]|]|]; intros x y Hxin Hyin; rewrite ?elem_of_app in Hyin.
  - by apply (Hnone _ _ _ Hxin).
  - destruct Hyin as [Hy|Hy]; [by apply (about_apart backpack ondo sb so)|by apply (Hnone _ _ _ Hxin)].
  - destruct Hyin as [Hy|[Hy|Hy]]; [by apply (about_apart xstocks backpack sx sb)|by apply (about_apart xstocks ondo sx so)|by apply (Hnone _ _ _ Hxin)].
Qed.

(** What a part of a reading adds to the trace: requests to one issuer only,
    none refused unless the part says that it was stopped, by the last. *)
Definition adds (i : IssuerId) (t : list step) (stopped : bool) (t' : list step) : Prop :=
  exists s, t' = t ++ s /\ about i s /\ if stopped then exists s0 x s1, s = s0 ++ x :: s1 /\ calm s0 /\ idle s1 else calm s.
Lemma adds_nil i t : adds i t false t.
Proof. exists []. rewrite app_nil_r. by repeat constructor. Qed.
Lemma adds_trans i t t1 t2 stopped : adds i t false t1 -> adds i t1 stopped t2 -> adds i t stopped t2.
Proof.
  intros (s1 & -> & Ha1 & Hc1) (s2 & -> & Ha2 & Hc2). exists (s1 ++ s2). rewrite app_assoc. split; [done|].
  split; [by apply Forall_app|]. destruct stopped; [|by apply Forall_app].
  destruct Hc2 as (s0 & x & s3 & -> & Hc0 & Hi). exists (s1 ++ s0), x, s3. rewrite app_assoc. split; [done|]. by split; [apply Forall_app|].
Qed.
Lemma adds_step i t (x : step) : asks x = Some i \/ asks x = None -> adds i t (refused x) (t ++ [x]).
Proof.
  intros Ha. exists [x]. split; [done|]. split; [by apply Forall_singleton|]. destruct (refused x) eqn:Hr; [|by apply Forall_singleton].
  exists [], x, []. by repeat constructor.
Qed.
Lemma adds_final i t stopped t' : adds i t stopped t' -> exists s, t' = t ++ s /\ about i s /\ refusals_final s.
Proof.
  intros (s & -> & Ha & Hs). exists s. split; [done|]. split; [done|]. destruct stopped.
  - destruct Hs as (s0 & x & s1 & -> & Hc & Hi). apply calm_final; [done|]. by apply refusal_last.
  - rewrite <- (app_nil_r s). by apply calm_final.
Qed.
(** A reading adds to the trace; [stop] says of its value whether it was stopped. *)
Definition tracks {A} (i : IssuerId) (stop : A -> bool) (m : reading A) (t : list step) : Prop := ensures m (fun a t' => adds i t (stop a) t') t.
Lemma tracks_from {A} i (stop : A -> bool) (m : reading A) t t1 :
  adds i t false t1 -> tracks i stop m t1 -> ensures m (fun a t' => adds i t (stop a) t') t1.
Proof. intros Ha Hm. eapply always_mono; [|exact Hm]. intros [a|e] t' _ H; [by eapply adds_trans|done]. Qed.
Lemma tracks_ret {A} i (stop : A -> bool) (a : A) t : stop a = false -> tracks i stop (mret a) t.
Proof. intros Hs. apply ensures_ret. rewrite Hs. apply adds_nil. Qed.
(** One question to the issuer, or for the time or a key. *)
Lemma tracks_ask {A} i (stop : A -> bool) (e : event) (f : answer e -> reading A) t :
  (forall x, asks (existT e x) = Some i \/ asks (existT e x) = None) ->
  (forall x, refused (existT e x) = false -> forall t1, tracks i stop (f x) t1) ->
  (forall x, refused (existT e x) = true -> exists a, f x = mret a /\ stop a = true) ->
  tracks i stop (act e ≫= f) t.
Proof.
  intros He Hgo Hstop. apply ensures_trigger. intros x. pose proof (adds_step i t (existT e x) (He x)) as Ha.
  destruct (refused (existT e x)) eqn:Hr.
  - destruct (Hstop x Hr) as (a & -> & Hs). apply ensures_ret. by rewrite Hs.
  - by apply tracks_from, Hgo.
Qed.
Lemma tracks_bind {A B} i (stop1 : A -> bool) (stop2 : B -> bool) (m : reading A) (f : A -> reading B) t :
  tracks i stop1 m t -> (forall a, stop1 a = false -> forall t1, tracks i stop2 (f a) t1) ->
  (forall a, stop1 a = true -> exists b, f a = mret b /\ stop2 b = true) -> tracks i stop2 (m ≫= f) t.
Proof.
  intros Hm Hgo Hstop. eapply ensures_bind; [exact Hm|]. intros a t1 _ Ha. cbv beta in Ha. destruct (stop1 a) eqn:Hs.
  - destruct (Hstop a Hs) as (b & -> & Hb). apply ensures_ret. by rewrite Hb.
  - by apply tracks_from, Hgo.
Qed.

Definition never {A} (_ : A) : bool := false.

Lemma lift_tracks {A} i (r : res A) t : tracks i never (lift_result r) t.
Proof. apply ensures_lift. intros a _. apply adds_nil. Qed.

(** ** The three readers *)

Section readers.
Context (Date_parse : js_string -> option Z) (locale_leb : js_string -> js_string -> bool) (endpoint : event -> js_string).

Lemma now_tracks {A} i (stop : A -> bool) (f : js_string -> reading A) t : (forall x t1, tracks i stop (f x) t1) -> tracks i stop (act Now ≫= f) t.
Proof. intros H. apply tracks_ask; [by right|by intros|done]. Qed.

Lemma read_pages_tracks n asset page pages signatures requests t :
  tracks xstocks (fun r => is_some (pr_stop r)) (read_pages Date_parse locale_leb endpoint n asset page pages signatures requests) t.
Proof.
  revert page pages signatures requests t. induction n as [|n IH]; intros page pages signatures requests t; [by apply tracks_ret|]. cbn [read_pages].
  apply tracks_ask; [by left| |].
  - intros [[request value]|code] Hr t1; [|by apply now_tracks; intros; apply tracks_ret]. cbn in Hr. apply bool_decide_eq_false in Hr.
    destruct (stopCode request); [by destruct Hr|]. repeat case_match; try by apply tracks_ret. apply IH.
  - intros [[request value]|code] Hr; [|done]. cbn in Hr. apply bool_decide_eq_true in Hr as [stop Hs]. rewrite Hs. by eexists.
Qed.
Lemma read_asset_tracks n asset t : tracks xstocks (fun r => is_some r.2) (read_asset Date_parse locale_leb endpoint n asset) t.
Proof.
  unfold read_asset. apply tracks_ask; [by left| |].
  - intros [[request value]|code] Hr t1; [|by apply now_tracks; intros; apply tracks_ret]. cbn in Hr. apply bool_decide_eq_false in Hr.
    destruct (stopCode request); [by destruct Hr|]. destruct (truthy value); [|by apply tracks_ret].
    destruct (parseXstocksRegistry _ _) as [[observed registry]|code]; [|by apply tracks_ret].
    eapply tracks_bind; [apply read_pages_tracks| |]; intros read Hs; [intros; by apply tracks_ret|by eexists].
  - intros [[request value]|code] Hr; [|done]. cbn in Hr. apply bool_decide_eq_true in Hr as [stop Hs]. rewrite Hs. by eexists.
Qed.
Lemma read_assets_tracks n assets observations requests t :
  tracks xstocks (fun r => is_some r.2) (read_assets Date_parse locale_leb endpoint n assets observations requests) t.
Proof.
  revert observations requests t. induction assets as [|asset assets IH]; intros observations requests t; cbn [read_assets]; [by apply tracks_ret|].
  eapply tracks_bind; [apply read_asset_tracks| |]; intros [[observation more] [stop|]] Hs; try done. by eexists.
Qed.
Lemma readXstocks_tracks n assets t : tracks xstocks (fun r => is_some (xr_stopped r)) (readXstocks Date_parse locale_leb endpoint n assets) t.
Proof.
  unfold readXstocks. refine (tracks_bind _ never _ _ _ _ (lift_tracks _ _ _) _ _); [|done]. intros [] _ t1.
   eapply tracks_bind; [apply read_assets_tracks| |]; intros [[observed requests] stopped] Hs; [intros; by apply tracks_ret|by eexists].
Qed.

Lemma readBackpack_tracks assets t : tracks backpack (fun r => is_some (br_stopped r)) (readBackpack endpoint assets) t.
Proof.
  unfold readBackpack. refine (tracks_bind _ never _ _ _ _ (lift_tracks _ _ _) _ _); [|done]. intros [] _ t1.
   apply tracks_ask; [by left| |].
  - intros [[request value]|code] Hr t2; [|by apply now_tracks; intros; apply tracks_ret]. cbn in Hr. apply bool_decide_eq_false in Hr.
    destruct (stopCode request); [by destruct Hr|]. by case_match; apply tracks_ret.
  - intros [[request value]|code] Hr; [|done]. cbn in Hr. apply bool_decide_eq_true in Hr as [stop Hs]. rewrite Hs. by eexists.
Qed.

Lemma request_tracks e t : tracks ondo (fun r => is_some (ondo_stopCode r.1)) (request e) t.
Proof.
  unfold request. apply (ensures_trigger (answer:=answer) (ObserveOndo e)). intros [observed|code].
  - apply ensures_ret. pose proof (adds_step ondo t (existT (ObserveOndo e) (Ok observed)) (or_introl eq_refl)) as Ha. cbn in Ha.
    cbn. by destruct (ondo_stopCode (oo_record observed)).
  - apply (ensures_trigger (answer:=answer) Now). intros now. apply ensures_ret. cbn [fst]. rewrite <- app_assoc. eexists. split; [reflexivity|].
    split; [by repeat constructor; auto|]. unfold ondo_stopCode. cbn. case_bool_decide as Hc; cbn.
    + exists [], (existT (ObserveOndo e) (Err code)), [existT Now now]. by repeat constructor.
    + repeat constructor. cbn. apply bool_decide_eq_false. congruence.
Qed.
Lemma read_ondo_asset_tracks identity pauses asset rest t : tracks ondo (fun r => is_some r.2) (read_ondo_asset identity pauses asset rest) t.
Proof.
  unfold read_ondo_asset. eapply tracks_bind; [apply request_tracks| |]; intros m Hm; cbv beta in Hm; destruct (ondo_stopCode m.1); try done; [|by eexists].
  intros t1. eapply tracks_bind; [apply request_tracks| |]; intros d Hd; cbv beta in Hd; destruct (ondo_stopCode d.1); try done; [|by eexists].
  intros t2. by apply tracks_ret.
Qed.
Lemma read_ondo_assets_tracks identity pauses assets observations requests t :
  tracks ondo (fun r => is_some r.2) (read_ondo_assets identity pauses assets observations requests) t.
Proof.
  revert observations requests t. induction assets as [|asset assets IH]; intros observations requests t; cbn [read_ondo_assets]; [by apply tracks_ret|].
  eapply tracks_bind; [apply read_ondo_asset_tracks| |]; intros [[observation more] [stop|]] Hs; try done. by eexists.
Qed.
Lemma readOndo_tracks assets t : tracks ondo (fun r => is_some (or_stopped r)) (readOndo Date_parse assets) t.
Proof.
  unfold readOndo. refine (tracks_bind _ never _ _ _ _ (lift_tracks _ _ _) _ _); [|done]. intros [] _ t1.
  eapply tracks_bind; [apply request_tracks| |]; intros a Ha; cbv beta in Ha; destruct (ondo_stopCode a.1); try done; [|by eexists].
  intros t2. destruct (parsed a _ _) as [addresses|code]; [|by apply tracks_ret].
  eapply tracks_bind; [apply request_tracks| |]; intros s Hs; cbv beta in Hs; destruct (ondo_stopCode s.1); try done; [|by eexists].
  intros t3. eapply tracks_bind; [apply read_ondo_assets_tracks| |]; intros [[observations requests] stopped] Hst; [intros; by apply tracks_ret|by eexists].
Qed.
Lemma ondo_key_tracks transport apiKey t : tracks ondo never (ondo_key transport apiKey) t.
Proof.
  unfold ondo_key. assert (forall (loaded : res unit) t1, tracks ondo never (match loaded with
    | Err code => mret (Err code)
    | Ok _ => key ← (match apiKey with Some key => mret (Ok key) | None => act LoadOndoKey end);
              match key with Err code => mret (Err code) | Ok key => mret (if usable_key key then Ok key else Err "ondo_api_key_missing"%string) end
    end) t1) as Hrest.
  { intros [[]|code] t1; [|by apply tracks_ret]. destruct apiKey as [key|]; [by apply tracks_ret|].
    apply tracks_ask; [by right| |done]. intros [key|code] _ t2; by apply tracks_ret. }
  destruct transport; [apply (Hrest (Ok tt))|]. apply tracks_ask; [by right| |done]. intros loaded _ t1. apply Hrest.
Qed.

(** ** Every asset is reported *)

Definition group_issuer (g : issuer_group) : IssuerId :=
  match g with XstocksGroup _ => xstocks | BackpackGroup _ => backpack | OndoGroup _ => ondo end.
Definition group_assets (g : issuer_group) : list SelectedAsset :=
  match g with
  | XstocksGroup r => xo_asset <$> xr_assets r
  | BackpackGroup r => bo_asset <$> br_assets r
  | OndoGroup r => oo_asset <$> or_assets r
  end.

Lemma observe_backpack_asset v asset : bo_asset (observe_backpack v asset) = asset.
Proof. unfold observe_backpack. by destruct (parseBackpackRegistry v asset) as [[]|]. Qed.
Lemma fmap_same {A} (f : SelectedAsset -> A) (g : A -> SelectedAsset) (l : list SelectedAsset) : (forall a, g (f a) = a) -> g <$> (f <$> l) = l.
Proof. intros H. rewrite <- list_fmap_compose. rewrite <- (list_fmap_id l) at 2. apply list_fmap_ext. intros i a _. apply H. Qed.
Lemma readBackpack_assets assets t : ensures (readBackpack endpoint assets) (fun r _ => bo_asset <$> br_assets r = assets) t.
Proof.
  unfold readBackpack. eapply ensures_bind; [by apply (ensures_lift _ (fun _ _ => True))|]. intros [] t1 _ _.
  apply (ensures_trigger (answer:=answer) ObserveBackpack). intros [[request value]|code].
  - destruct (stopCode request); [apply ensures_ret; by apply fmap_same|]. destruct (truthy value); apply ensures_ret; apply fmap_same; [|done].
    intros a. apply observe_backpack_asset.
  - apply (ensures_trigger (answer:=answer) Now). intros now. apply ensures_ret. by apply fmap_same.
Qed.

(** The requests to Ondo in a trace, each with its answer, and the record that
    is made of one. *)
Definition ondo_answers (t : list step) : list (js_string * res ondo_observed) :=
  omap (fun x : step => match x return option (js_string * res ondo_observed) with existT (ObserveOndo e) r => Some (e, r) | _ => None end) t.
Definition recorded_as (request : js_string * res ondo_observed) (record : RequestObservation) : Prop :=
  match request.2 with
  | Ok observed => record = oo_record observed
  | Err code => rq_endpoint record = request.1 /\ rq_status record = None /\ rq_error record = Some code
  end.
(** From [t0] to [t] the requests are those recorded. *)
Definition recorded (t0 t : list step) (records : list RequestObservation) : Prop :=
  exists s, t = t0 ++ s /\ Forall2 recorded_as (ondo_answers s) records.
Definition saved (stopped : option StoppedRequests) : Z := match stopped with Some s => sq_remainingRequestsSkipped s | None => 0 end.
Definition ondo_total (requests : list RequestObservation) (stopped : option StoppedRequests) : Z := Z.of_nat (length requests) + saved stopped.

Lemma recorded_nil t : recorded t t [].
Proof. exists []. by rewrite app_nil_r. Qed.
Lemma recorded_step t0 t l x l' : recorded t0 t l -> Forall2 recorded_as (ondo_answers [x]) l' -> recorded t0 (t ++ [x]) (l ++ l').
Proof.
  intros (s & -> & H) Hx. exists (s ++ [x]). rewrite app_assoc. split; [done|]. unfold ondo_answers in *. rewrite omap_app. by apply Forall2_app.
Qed.
Lemma request_one {B} e (f : RequestObservation * option ondo_observed -> reading B) (Q : B -> list step -> Prop) t0 t l :
  recorded t0 t l -> (forall r t1, recorded t0 t1 (l ++ [r.1]) -> ensures (f r) Q t1) -> ensures (request e ≫= f) Q t.
Proof.
  intros Hl H. unfold request. apply (ensures_bind _ _ (fun r t1 => recorded t0 t1 (l ++ [r.1]))); [|intros r t1 _; apply H].
  apply (ensures_trigger (answer:=answer) (ObserveOndo e)). intros [observed|code].
  - apply ensures_ret. apply recorded_step; [done|by repeat constructor].
  - apply (ensures_trigger (answer:=answer) Now). intros now. apply ensures_ret. rewrite <- (app_nil_r (l ++ _)).
    apply recorded_step; [|constructor]. apply recorded_step; [done|by repeat constructor].
Qed.
Lemma read_ondo_asset_spec identity pauses asset rest t0 t l : recorded t0 t l ->
  ensures (read_ondo_asset identity pauses asset rest)
    (fun r t' => oo_asset r.1.1 = asset /\ recorded t0 t' (l ++ r.1.2) /\ ondo_total r.1.2 r.2 = 2 + match r.2 with Some _ => remaining rest | None => 0 end) t.
Proof.
  intros Hl. unfold read_ondo_asset. apply (request_one _ _ _ t0 t l Hl). intros m t1 Hm. destruct (ondo_stopCode m.1).
  { apply ensures_ret. split; [done|]. split; [done|]. unfold ondo_total. cbn. lia. }
  apply (request_one _ _ _ t0 t1 _ Hm). intros d t2 Hd. rewrite <- app_assoc in Hd. by destruct (ondo_stopCode d.1); apply ensures_ret.
Qed.
Lemma read_ondo_assets_spec identity pauses assets observations requests t0 t : recorded t0 t requests ->
  ensures (read_ondo_assets identity pauses assets observations requests)
    (fun r t' => oo_asset <$> r.1.1 = (oo_asset <$> observations) ++ assets /\ recorded t0 t' r.1.2 /\
                 ondo_total r.1.2 r.2 = Z.of_nat (length requests) + remaining assets) t.
Proof.
  revert observations requests t. induction assets as [|asset assets IH]; intros observations requests t Hl; cbn [read_ondo_assets].
  { apply ensures_ret. unfold ondo_total, saved, remaining. cbn [fst snd length]. split; [by rewrite app_nil_r|]. split; [done|lia]. }
  eapply ensures_bind; [by apply read_ondo_asset_spec|]. intros [[observation more] [stop|]] t1 _ (Ha & Hr & Ht); cbn [fst snd] in *.
  - apply ensures_ret. cbn [fst snd]. split; [|split; [done|]].
    + rewrite !fmap_app. cbn. rewrite Ha. by rewrite fmap_same.
    + unfold ondo_total, saved, remaining in *. rewrite length_app. cbn [length]. lia.
  - eapply always_mono; [|by apply IH]. intros [[[done' more'] stop']|] t2 _; [|done]. cbn [fst snd]. intros (E & Hr2 & Et). split; [|split; [done|]].
    + rewrite E, fmap_app, <- app_assoc. cbn. by rewrite Ha.
    + rewrite Et, length_app. unfold ondo_total, saved, remaining in *. cbn [length] in *. lia.
Qed.
Lemma readOndo_spec assets t :
  ensures (readOndo Date_parse assets)
    (fun r t' => oo_asset <$> or_assets r = assets /\ recorded t t' (or_requests r) /\
       (ondo_total (or_requests r) (or_stopped r) = 2 + remaining assets \/ (or_stopped r = None /\ length (or_requests r) = 1%nat /\ or_state r = issuer_failed))) t.
Proof.
  unfold readOndo. eapply ensures_bind; [by apply (ensures_lift _ (fun _ t1 => recorded t t1 [])); intros; apply recorded_nil|]. intros [] t1 _ H0.
  apply (request_one _ _ _ _ _ _ H0). intros a t2 Ha. destruct (ondo_stopCode a.1).
  { apply ensures_ret. split; [by apply fmap_same|]. split; [done|]. left. unfold ondo_total. cbn. lia. }
  destruct (parsed a _ _) as [addresses|code]; [|by apply ensures_ret; split; [apply fmap_same|split; [|right]]].
  apply (request_one _ _ _ _ _ _ Ha). intros s t3 Hs. destruct (ondo_stopCode s.1).
  { apply ensures_ret. split; [by apply fmap_same|]. split; [done|]. left. unfold ondo_total. cbn. lia. }
  eapply ensures_bind; [apply read_ondo_assets_spec, Hs|]. intros [[observations requests] stopped] t4 _ (E & Hr & Et). cbn [fst snd] in *.
  apply ensures_ret. split; [exact E|]. split; [exact Hr|]. left. cbn [or_requests or_stopped]. rewrite Et. cbn. lia.
Qed.

(** ** The report *)

Definition group_ok (i : IssuerId) (assets : list SelectedAsset) (gs : list issuer_group) : Prop :=
  match assets with [] => gs = [] | _ => exists g, gs = [g] /\ group_issuer g = i /\ group_assets g = assets end.
Lemma read_group_ok i assets transport apiKey t :
  ensures (read_group Date_parse locale_leb endpoint i assets transport apiKey) (fun gs _ => group_ok i assets gs) t.
Proof.
  unfold read_group, group_ok. destruct assets as [|asset assets]; [by apply ensures_ret|]. destruct i.
  - eapply ensures_bind; [apply readXstocks_ok|]. intros r t1 _ (E & _). apply ensures_ret. by exists (XstocksGroup r).
  - eapply ensures_bind; [apply readBackpack_assets|]. intros r t1 _ E. apply ensures_ret. by exists (BackpackGroup r).
  - eapply ensures_bind; [apply (ondo_key_tracks transport apiKey)|]. intros [key|code] t1 _ _.
    + eapply ensures_bind; [apply readOndo_spec|]. intros r t2 _ (E & _). apply ensures_ret. by exists (OndoGroup r).
    + apply ensures_ret. exists (OndoGroup (unavailableOndo (asset :: assets) code)). split; [done|]. split; [done|]. cbn [group_assets unavailableOndo or_assets].
      by apply fmap_same.
Qed.
Lemma read_group_tracks i assets transport apiKey t :
  ensures (read_group Date_parse locale_leb endpoint i assets transport apiKey) (fun _ t' => exists s, t' = t ++ s /\ about i s /\ refusals_final s) t.
Proof.
  assert (forall {A} (m : reading A) (stop : A -> bool) (wrap : A -> list issuer_group) t0, tracks i stop m t0 ->
    ensures (r ← m; mret (wrap r)) (fun _ t' => exists s, t' = t0 ++ s /\ about i s /\ refusals_final s) t0) as Hwrap.
  { intros A m stop wrap t0 Hm. eapply ensures_bind; [exact Hm|]. intros r t1 _ Ha. apply ensures_ret. exact (adds_final _ _ _ _ Ha). }
  unfold read_group. destruct assets as [|asset assets]; [|destruct i].
  { apply ensures_ret. exists []. rewrite app_nil_r. split; [done|split; [constructor|done]]. }
  - eapply Hwrap. apply readXstocks_tracks.
  - eapply Hwrap. apply readBackpack_tracks.
  - eapply ensures_bind; [apply ondo_key_tracks|]. intros [key|code] t1 _ Ha; cbv beta in Ha; [|apply ensures_ret; exact (adds_final _ _ _ _ Ha)].
    eapply ensures_bind; [apply readOndo_tracks|]. intros r t2 _ Ha2. apply ensures_ret. exact (adds_final _ _ _ _ (adds_trans _ _ _ _ _ Ha Ha2)).
Qed.

(** What a report covers: every selected asset of the catalog, under its
    issuer, which has one group. *)
Definition covers (r : IssuerReadReport) : Prop :=
  ir_selected r ⊆ SELECTED_ASSETS /\ NoDup (group_issuer <$> ir_issuers r) /\
  (forall g, g ∈ ir_issuers r -> group_assets g = grouped (ir_selected r) (group_issuer g)) /\
  (forall asset, asset ∈ ir_selected r -> issuerId asset ∈ (group_issuer <$> ir_issuers r)).

Lemma selectAssets_catalog issuers symbols l : selectAssets issuers symbols = Ok l -> l ⊆ SELECTED_ASSETS.
Proof.
  unfold selectAssets. intros H. minv H. intros asset Hin%list_elem_of_In. apply filter_In in Hin as [Hin _]. by apply list_elem_of_In.
Qed.
Lemma group_ok_inv i selected gs : group_ok i (grouped selected i) gs ->
  (gs = [] /\ grouped selected i = []) \/ exists g, gs = [g] /\ group_issuer g = i /\ group_assets g = grouped selected i.
Proof. unfold group_ok. destruct (grouped selected i); [by left|by right]. Qed.
Lemma grouped_in selected asset : asset ∈ selected -> grouped selected (issuerId asset) <> [].
Proof.
  intros Hin%list_elem_of_In E. assert (In asset (grouped selected (issuerId asset))) as H by (apply filter_In; split; [done|by apply bool_decide_eq_true]).
  by rewrite E in H.
Qed.
Lemma groups_cover year started completed selected x b o :
  selected ⊆ SELECTED_ASSETS -> group_ok xstocks (grouped selected xstocks) x -> group_ok backpack (grouped selected backpack) b ->
  group_ok ondo (grouped selected ondo) o -> covers (MkReadReport year started completed selected (x ++ b ++ o)).
Proof.
  intros Hsel Hx%group_ok_inv Hb%group_ok_inv Ho%group_ok_inv. split; [done|]. cbn [ir_issuers ir_selected].
  assert (forall i gs, (gs = [] /\ grouped selected i = []) \/ (exists g, gs = [g] /\ group_issuer g = i /\ group_assets g = grouped selected i) ->
    (group_issuer <$> gs = [] /\ grouped selected i = [] \/ group_issuer <$> gs = [i]) /\
    forall g, g ∈ gs -> group_assets g = grouped selected (group_issuer g)) as Hone.
  { intros i gs [[-> E]|(g & -> & Hi & Ha)].
    - split; [by left|by intros g []%not_elem_of_nil].
    - split; [right; cbn; by rewrite Hi|]. intros g' ->%list_elem_of_singleton. by rewrite Hi. }
  destruct (Hone _ _ Hx) as [Ex Gx], (Hone _ _ Hb) as [Eb Gb], (Hone _ _ Ho) as [Eo Go]. split; [|split].
  - rewrite !fmap_app. destruct Ex as [[-> _]| ->], Eb as [[-> _]| ->], Eo as [[-> _]| ->]; cbn; apply (bool_decide_unpack _); by vm_compute.
  - intros g [Hg|[Hg|Hg]%elem_of_app]%elem_of_app; eauto.
  - intros asset Hin. pose proof (grouped_in _ _ Hin) as Hne. rewrite !fmap_app, !elem_of_app.
    destruct (issuerId asset); [left; destruct Ex as [[_ E]| ->]|right; left; destruct Eb as [[_ E]| ->]|right; right; destruct Eo as [[_ E]| ->]];
      [done|left|done|left|done|left].
Qed.

(** C28: However the issuers answer, an issuer that refuses a request is not
    asked again, and the report has one group for each issuer of the selected
    assets, with all of them in order. *)
Theorem issuer_reading_ok {W} (handler : forall e : event, W -> answer e * W) (w : W) (year : Z) (issuers : option (list IssuerId))
    (symbols : option (list js_string)) (transport : bool) (apiKey : option js_string) (report : IssuerReadReport) (t : trace (answer:=answer)) (w' : W) :
  run (traced handler) (readSelectedIssuers Date_parse locale_leb endpoint year issuers symbols transport apiKey) ([], w) = (Ok report, (t, w')) ->
  refusals_final t /\ covers report.
Proof.
  intros Hrun. refine (ensures_run handler _ (fun report t => refusals_final t /\ covers report) w [] report (t, w') _ Hrun). clear.
  unfold readSelectedIssuers. eapply ensures_bind; [by apply (ensures_lift _ (fun _ t => t = []))|]. intros year' t0 _ ->.
  apply (ensures_trigger (answer:=answer) Now). intros started. set (t0 := [] ++ _).
  eapply ensures_bind; [apply (ensures_lift _ (fun l t => t = t0 /\ selectAssets issuers symbols = Ok l)); by intros|].
  intros selected t1 _ [-> Hsel%selectAssets_catalog].
  do 3 (eapply ensures_bind; [apply ensures_and; [apply read_group_ok|apply read_group_tracks]|]; intros ? ? _ [? (? & -> & ? & ?)]).
  apply (ensures_trigger (answer:=answer) Now). intros completed. apply ensures_ret. split; [|by apply groups_cover].
  unfold t0. rewrite <- !app_assoc, app_nil_l. apply calm_final; [by repeat constructor|].
  apply parts_final; try done. by repeat constructor.
Qed.

(** C30: However it answers, the requests Ondo is asked are exactly those the
    report records, in order, each with what was observed or the error thrown;
    with the requests reported as saved they are two and two for each asset,
    and every asset is reported. Only when the list of addresses is not read is
    it the single request and the report a failed one. *)
Theorem ondo_requests_accounted {W} (handler : forall e : event, W -> answer e * W) (w : W) (assets : list SelectedAsset) (report : OndoReport)
    (t : trace (answer:=answer)) (w' : W) :
  run (traced handler) (readOndo Date_parse assets) ([], w) = (Ok report, (t, w')) ->
  Forall2 recorded_as (ondo_answers t) (or_requests report) /\ oo_asset <$> or_assets report = assets /\
  (Z.of_nat (length (ondo_answers t)) + saved (or_stopped report) = 2 + remaining assets \/
   (or_stopped report = None /\ length (ondo_answers t) = 1%nat /\ or_state report = issuer_failed)).
Proof.
  intros E. destruct (ensures_run handler _ _ w [] report (t, w') (readOndo_spec assets []) E) as (Ha & (s & Et & Hr) & Ht). cbn [fst app] in Et.
  subst s. split; [done|]. split; [done|]. by rewrite (Forall2_length _ _ _ Hr).
Qed.

End readers.
