(* ===== verification/OndoChecker.v ===== *)
(** * Ondo's read-only checker

    [scripts/issuers/ondo-readonly.mjs]: the transport the issuer readers load
    for Ondo, and the program that observes its endpoints.  The key is only sent
    to addresses of a fixed list, and answers in which it shows up are refused.
    The parsers of URLs, of the environment file, of UTF-8 and of JSON, and
    [path.resolve], are parameters; files and the network are events. *)
From S2P Require Import Prelude Js Utf8 TxBytes Json Programs IssuerSchema IssuerTransport IssuerReader.
Open Scope Z_scope.

Definition ONDO_ORIGIN : js_string := text "https://api.gm.ondo.finance".
Definition DEFAULT_ENV_FILE : js_string := text "/Users/node/.config/dividendx/issuer-api.env".
Definition MAX_RESPONSE_BYTES : Z := 10 * 1024 * 1024.
Definition ALLOWED_SYMBOLS : list js_string := text <$> ["KOon"; "AAPLon"; "MSFTon"; "MUon"; "NKEon"; "IBMon"]%string.
Definition MISSING_ANNUAL_SETTLEMENT_GUARANTEES : list js_string := text <$>
  ["authoritative ex-date coverage for every qualified event"; "classification of every multiplier change";
   "revision and cancellation finality"; "complete calendar-year event coverage"; "custody eligibility and settlement attestation"]%string.
Definition COMMON_ENDPOINTS : list js_string := text <$> ["/v1/assets/all/addresses"; "/v1/status/assets"]%string.
Definition STOP_STATUSES : list Z := [401; 403; 429].
Definition in_symbol_set (s : js_string) : bool := bool_decide (s ∈ ALLOWED_SYMBOLS).

(** ** Texts *)

Fixpoint trimStart (l : js_string) : js_string := match l with u :: l' => if white_space u then trimStart l' else l | [] => [] end.
Definition trim (l : js_string) : js_string := rev (trimStart (rev (trimStart l))).
(** [l.split(",")] *)
Fixpoint split_comma (l : js_string) : list js_string :=
  match l with
  | [] => [[]]
  | u :: l' =>
      if u =? 44 then [] :: split_comma l'
      else match split_comma l' with part :: parts => (u :: part) :: parts | [] => [[u]] end
  end.

Definition checked_symbols (symbols : list js_string) : res (list js_string) :=
  check (negb (bool_decide (symbols = [])) && bool_decide (NoDup symbols)) "invalid_symbols" ;;
  check (forallb in_symbol_set symbols) "invalid_symbols" ;;
  Ok symbols.
Definition parseSymbols (value : js_string) : res (list js_string) :=
  checked_symbols (List.filter (fun s => negb (bool_decide (s = []))) (trim <$> split_comma value)).

(** ** Arguments *)

Record cli_options := MkOptions {
  op_envFile : js_string; op_output : option js_string; op_rawDir : option js_string; op_symbols : list js_string; op_help : bool;
}.
Definition default_options : cli_options := MkOptions DEFAULT_ENV_FILE None None [text "KOon"] false.
(** The argument before its first equals sign, and what follows it. *)
Fixpoint split_equals (l : js_string) : js_string * option js_string :=
  match l with
  | [] => ([], None)
  | u :: l' => if u =? 61 then ([], Some l') else let '(name, value) := split_equals l' in (u :: name, value)
  end.
Definition OPTION_NAMES : list js_string := text <$> ["--env-file"; "--output"; "--raw-dir"; "--symbols"]%string.
Definition set_option (o : cli_options) (name value : js_string) : res cli_options :=
  check (negb (bool_decide (value = []))) "invalid_arguments" ;;
  if bool_decide (name = text "--env-file") then Ok (MkOptions value (op_output o) (op_rawDir o) (op_symbols o) (op_help o))
  else if bool_decide (name = text "--output") then Ok (MkOptions (op_envFile o) (Some value) (op_rawDir o) (op_symbols o) (op_help o))
  else if bool_decide (name = text "--raw-dir") then Ok (MkOptions (op_envFile o) (op_output o) (Some value) (op_symbols o) (op_help o))
  else symbols ← parseSymbols value; Ok (MkOptions (op_envFile o) (op_output o) (op_rawDir o) symbols (op_help o)).
Fixpoint parse_args (argv : list js_string) (o : cli_options) : res cli_options :=
  match argv with
  | [] => Ok o
  | argument :: rest =>
      let '(name, value) := split_equals argument in
      if bool_decide (name = text "--help") then Ok (MkOptions (op_envFile o) (op_output o) (op_rawDir o) (op_symbols o) true)
      else if bool_decide (name ∈ OPTION_NAMES) then
        match value, rest with
        | Some v, _ => match set_option o name v with Ok o' => parse_args rest o' | Err code => Err code end
        | None, v :: rest' => match set_option o name v with Ok o' => parse_args rest' o' | Err code => Err code end
        | None, [] => Err "invalid_arguments"%string
        end
      else Err "invalid_arguments"%string
  end.
Definition parseCliArgs (argv : list js_string) : res cli_options := parse_args argv default_options.

(** ** Endpoints *)

Definition multiplier_endpoint (symbol : js_string) : js_string := text "/v1/assets/" ++ symbol ++ text "/shares-multiplier?range=all".
Definition dividends_endpoint (symbol : js_string) : js_string := text "/v1/assets/" ++ symbol ++ text "/dividends".
Definition endpoints_of (symbols : list js_string) : list js_string :=
  COMMON_ENDPOINTS ++ (symbols ≫= fun s => [multiplier_endpoint s; dividends_endpoint s]).
Definition buildEndpoints (symbols : list js_string) : res (list js_string) := s ← checked_symbols symbols; Ok (endpoints_of s).

(** A parsed URL; the parameters of its query in order. *)
Record url := MkUrl {
  u_origin : js_string; u_username : js_string; u_password : js_string; u_hash : js_string; u_pathname : js_string; u_search : js_string;
  u_params : list (js_string * js_string); u_href : js_string;
}.
(** What [/^<pre>([^/]+)<post>$/] captures. *)
Definition capture (pre post l : js_string) : option js_string :=
  let middle := take (length l - length pre - length post) (drop (length pre) l) in
  if bool_decide (l = pre ++ middle ++ post) && negb (bool_decide (middle = [])) && negb (bool_decide (47 ∈ middle)) then Some middle else None.
Definition captures_symbol (post : string) (u : url) : bool :=
  match capture (text "/v1/assets/") (text post) (u_pathname u) with Some s => in_symbol_set s | None => false end.
Definition exact_endpoint (u : url) : js_string := u_pathname u ++ u_search u.

(** ** Responses *)

(** [JSON.stringify] of a parsed value; a number too large to represent is
    [null]. *)
Definition number_text (n : number) : js_string :=
  match n with
  | Int z => int_text z
  | OtherNumber t => if bool_decide (t = text "Infinity") || bool_decide (t = text "-Infinity") then text "null" else t
  end.
Definition atom_text (v : json) : js_string :=
  match v with
  | JBool b => text (if b then "true" else "false")
  | JNum n => number_text n
  | JStr s => stringify s
  | _ => text "null"
  end.
Fixpoint compact (v : json) : js_string :=
  match v with
  | JArr l => [91] ++ js_join [44] (map compact l) ++ [93]
  | JObj fields => [123] ++ js_join [44] (map (fun f : js_string * json => stringify f.1 ++ [58] ++ compact f.2) fields) ++ [125]
  | _ => atom_text v
  end.
(** [JSON.stringify(value, null, 2)] *)
Definition block (opening closing : Z) (indent : js_string) (items : list js_string) : js_string :=
  match items with
  | [] => [opening; closing]
  | _ => [opening; 10] ++ js_join [44; 10] (app (indent ++ text "  ") <$> items) ++ [10] ++ indent ++ [closing]
  end.
Fixpoint pretty (indent : js_string) (v : json) : js_string :=
  match v with
  | JArr l => block 91 93 indent (map (pretty (indent ++ text "  ")) l)
  | JObj fields => block 123 125 indent (map (fun f : js_string * json => stringify f.1 ++ text ": " ++ pretty (indent ++ text "  ") f.2) fields)
  | _ => atom_text v
  end.

(** [cancels]: whether [reader.cancel()] succeeds. *)
Fixpoint read_bounded (maxBytes : Z) (cancels : bool) (chunks : list (option bytes)) (read : bytes) : res bytes :=
  match chunks with
  | [] => Ok read
  | None :: _ => Err "response_read_failed"%string
  | Some chunk :: rest =>
      if maxBytes <? byte_length read + byte_length chunk then Err (if cancels then "response_too_large" else "response_read_failed")%string
      else read_bounded maxBytes cancels rest (read ++ chunk)
  end.
Definition readBoundedBody (r : response) (cancels : bool) (maxBytes : Z) : res bytes :=
  check (negb (declared_too_long r maxBytes)) "response_too_large" ;;
  match rs_body r with None => Ok [] | Some chunks => read_bounded maxBytes cancels chunks [] end.

Record inspection := MkInspection { in_json : option json; in_shape : string; in_count : option Z }.
Definition size {A} (l : list A) : option Z := Some (Z.of_nat (length l)).
Definition shape_of (v : json) : string * option Z :=
  match v with
  | JArr l => ("array"%string, size l)
  | JNull => ("null"%string, Some 0)
  | JObj fields => ("object"%string, match prop fields "history" with Some (JArr l) => size l | _ => size fields end)
  | JBool _ => ("boolean"%string, Some 1)
  | JNum _ => ("number"%string, Some 1)
  | JStr _ => ("string"%string, Some 1)
  end.
Record OndoRecord := MkRecord {
  re_endpoint : js_string; re_retrievedAt : js_string; re_status : option Z; re_responseShape : string; re_count : option Z;
  re_dataDigest : option js_string; re_error : option string;
}.

(** ** Paths, as the segments of an absolute path *)

Abbreviation path := (list js_string).
Definition dot_dot : js_string := text "..".
(** [relative(from, to)] *)
Fixpoint relative (from to : path) : path :=
  match from, to with
  | a :: from', b :: to' => if bool_decide (a = b) then relative from' to' else map (fun _ => dot_dot) from ++ to
  | _, _ => map (fun _ => dot_dot) from ++ to
  end.
(** [resolve(base, relative)] *)
Definition resolve_in (base rel : path) : path :=
  fold_left (fun p s => if bool_decide (s = dot_dot) then removelast p else p ++ [s]) rel base.
Definition isWithin (parent candidate : path) : bool :=
  match relative parent candidate with [] => true | s :: _ => negb (bool_decide (s = dot_dot)) end.

(** ** Names of raw files *)

(** A run of units of a class becomes one hyphen. *)
Fixpoint hyphens (bad : Z -> bool) (in_run : bool) (l : js_string) : js_string :=
  match l with
  | [] => []
  | u :: l' => if bad u then (if in_run then [] else [45]) ++ hyphens bad true l' else u :: hyphens bad false l'
  end.
Definition query_sign (u : Z) : bool := (u =? 63) || (u =? 38) || (u =? 61).
Definition slug_char (u : Z) : bool := between 65 90 u || between 97 122 u || between 48 57 u || (u =? 46) || (u =? 45).
Definition drop_hyphen (l : js_string) : js_string := match l with 45 :: l' => l' | _ => l end.
Definition slug (endpoint : js_string) : js_string :=
  let s := if bool_decide (take 4 endpoint = text "/v1/") then drop 4 endpoint else endpoint in
  let s := hyphens (fun u => negb (slug_char u)) false (hyphens query_sign false s) in
  rev (drop_hyphen (rev (drop_hyphen s))).
Definition rawFileName (index : nat) (endpoint : js_string) : js_string :=
  (ascii_Z <$> padStart0 3 (toString (Z.of_nat index + 1))) ++ [45] ++ slug endpoint ++ text ".json".

(** ** Events *)

Inductive real_path := RealAt (p : path) | Missing | Unreadable.
Inductive checker_event :=
  | ReadFile (name : js_string)
  | Realpath (p : path)
  | MakeDirectory (p : path)
  | IsDirectory (p : path)
  | FetchWithKey (u : url) (key : js_string)
  | Clock
  | WriteRaw (p : path) (content : bytes)
  | WriteReport (name : js_string) (content : js_string)
  | Stdout (content : js_string).
(** A response comes with whether its reader can be cancelled. *)
Definition checker_answer (e : checker_event) : Type :=
  match e with
  | ReadFile _ => option js_string
  | Realpath _ => real_path
  | MakeDirectory _ | WriteRaw _ _ | WriteReport _ _ => bool
  | IsDirectory _ => option bool
  | FetchWithKey _ _ => fetch_outcome * bool
  | Clock => js_string
  | Stdout _ => unit
  end.
Abbreviation checking := (call checker_event checker_answer string).
Abbreviation ask e := (trigger (answer:=checker_answer) (F:=string) e).
Abbreviation verdict r := (lift_result (event:=checker_event) (answer:=checker_answer) (F:=string) r).

Section checker.
(** [new URL(text, base)]; [parseEnv(source).ONDO_API_KEY], if the source is
    parsed; the fatal UTF-8 decoder; [JSON.parse]; [path.resolve(text)]. *)
Context (URL : option js_string -> js_string -> option url) (parseEnv : js_string -> option (option js_string))
  (sha256_hex : bytes -> js_string) (decode : bytes -> option js_string) (JSON_parse : js_string -> option json) (resolve : js_string -> path).

(** The key of the environment file with this source. *)
Definition key_of (source : option js_string) : res js_string :=
  match source with
  | None => Err "credential_file_unavailable"%string
  | Some s =>
      match parseEnv s with
      | None => Err "credential_file_invalid"%string
      | Some (Some key) => check (usable_key key) "ondo_api_key_missing" ;; Ok (trim key)
      | Some None => Err "ondo_api_key_missing"%string
      end
  end.
Definition loadApiKey (envFile : js_string) : checking js_string :=
  source ← ask (ReadFile envFile);
  verdict (key_of source).

Definition assertAllowedUrl (input : url + js_string) : res url :=
  u ← match input with
      | inl u => Ok u
      | inr s => match URL (Some ONDO_ORIGIN) s with Some u => Ok u | None => Err "endpoint_not_allowed"%string end
      end;
  check (bool_decide (u_origin u = ONDO_ORIGIN) && bool_decide (u_username u = []) && bool_decide (u_password u = []) && bool_decide (u_hash u = []))
    "endpoint_not_allowed" ;;
  if bool_decide (exact_endpoint u ∈ COMMON_ENDPOINTS) then Ok u
  else if captures_symbol "/shares-multiplier" u && bool_decide (u_params u = [(text "range", text "all")]) then Ok u
  else if captures_symbol "/dividends" u && bool_decide (u_search u = []) then Ok u
  else Err "endpoint_not_allowed"%string.

Definition inspectJson (body : bytes) (apiKey : js_string) : res inspection :=
  let keyBytes := encode apiKey in
  check (negb (negb (bool_decide (keyBytes = [])) && contains keyBytes body)) "secret_reflection_refused" ;;
  match decode body with
  | None => Ok (MkInspection None "non_utf8" None)
  | Some txt =>
      check (negb (contains apiKey txt)) "secret_reflection_refused" ;;
      if bool_decide (trim txt = []) then Ok (MkInspection None "empty" (Some 0))
      else
        match JSON_parse txt with
        | None => Ok (MkInspection None "non_json" None)
        | Some v =>
            check (negb (contains apiKey (compact v))) "secret_reflection_refused" ;;
            Ok (MkInspection (Some v) (shape_of v).1 (shape_of v).2)
        end
  end.

(** The response of the address that was asked. *)
Definition own_response (u : url) (outcome : fetch_outcome) : res response :=
  match outcome with
  | FetchFailed => Err "request_failed"%string
  | DeadlineFirst => Err "request_timed_out"%string
  | Fetched r =>
      check (negb (rs_redirected r)) "redirect_refused" ;;
      check (bool_decide (rs_url r = []) || match URL None (rs_url r) with Some u' => bool_decide (u_href u' = u_href u) | None => false end)
        "unexpected_response_url" ;;
      Ok r
  end.
Definition observeEndpoint (apiKey : js_string) (maxBytes : Z) (endpoint : url + js_string) : checking (OndoRecord * option bytes) :=
  verdict (check (usable_key apiKey) "ondo_api_key_missing") ;;
  u ← verdict (assertAllowedUrl endpoint);
  fetched ← ask (FetchWithKey u apiKey);
  r ← verdict (own_response u fetched.1);
  body ← verdict (readBoundedBody r fetched.2 maxBytes);
  inspected ← verdict (inspectJson body apiKey);
  now ← ask Clock;
  mret (MkRecord (exact_endpoint u) now (Some (rs_status r)) (in_shape inspected) (in_count inspected) (Some (text "sha256:" ++ sha256_hex body))
          (if response_ok r then None else Some "http_status"%string),
        if response_ok r && is_some (in_json inspected) then Some body else None).

(** What the issuer reader takes of an observation: its record, and the bytes as
    the value they decode to. *)
Definition requestRecord (r : OndoRecord) : RequestObservation :=
  MkObservation (re_endpoint r) (re_retrievedAt r) (re_status r) (re_dataDigest r) (re_error r).
Definition for_reader (o : OndoRecord * option bytes) : ondo_observed :=
  MkOndoObserved (requestRecord o.1) (match o.2 with Some body => Some (txt ← decode body; JSON_parse txt) | None => None end).

(** ** Where raw answers are written *)

(** From a path, its segments reversed, up to one that exists. *)
Fixpoint nearest_existing (up : path) : checking (path * path) :=
  found ← ask (Realpath (rev up));
  match found, up with
  | RealAt real, _ => mret (rev up, real)
  | Missing, _ :: up' => nearest_existing up'
  | _, _ => raise "raw_directory_invalid"%string
  end.
Definition nearestExistingRealPath (candidate : path) : checking (path * path) := nearest_existing (rev candidate).
(** Where a path leads when the part of it that exists is followed. *)
Definition projected (candidate : path) : checking path :=
  ancestor ← nearestExistingRealPath candidate;
  mret (resolve_in ancestor.2 (relative ancestor.1 candidate)).
Definition prepareRawDirectory (rawDir repoRoot : js_string) : checking path :=
  let candidate := resolve rawDir in
  let lexicalRepo := resolve repoRoot in
  verdict (check (negb (isWithin lexicalRepo candidate)) "raw_directory_inside_repository") ;;
  repo ← ask (Realpath lexicalRepo);
  realRepo ← verdict (match repo with RealAt p => Ok p | _ => Err "repository_root_unavailable"%string end);
  predicted ← projected candidate;
  verdict (check (negb (isWithin realRepo predicted)) "raw_directory_inside_repository") ;;
  made ← ask (MakeDirectory candidate);
  verdict (check made "raw_directory_unavailable") ;;
  real ← ask (Realpath candidate);
  actual ← verdict (match real with RealAt p => Ok p | _ => Err "raw_directory_invalid"%string end);
  directory ← ask (IsDirectory candidate);
  verdict (check (bool_decide (directory = Some true)) "raw_directory_invalid") ;;
  verdict (check (negb (isWithin realRepo actual)) "raw_directory_inside_repository") ;;
  mret actual.

Definition assertOutputDoesNotAliasCredential (output : option js_string) (envFile : js_string) : checking unit :=
  match output with
  | None => mret tt
  | Some name =>
      let outputPath := resolve name in
      let envPath := resolve envFile in
      verdict (check (negb (bool_decide (outputPath = envPath))) "report_output_conflicts_with_credential") ;;
      env ← ask (Realpath envPath);
      match env with
      | RealAt realEnv =>
          target ← projected outputPath;
          verdict (check (negb (bool_decide (target = realEnv))) "report_output_conflicts_with_credential")
      | _ => mret tt
      end
  end.

Definition writeRawExclusive (directory : path) (index : nat) (endpoint : js_string) (content : bytes) : checking unit :=
  written ← ask (WriteRaw (directory ++ [rawFileName index endpoint]) content);
  verdict (check written "raw_response_write_failed").

(** ** The checker *)

Inductive stop_reason := AfterError (code : string) | AfterStatus (status : Z).
Record CheckerReport := MkCheckerReport {
  cr_startedAt : js_string; cr_completedAt : js_string; cr_requestedSymbols : list js_string; cr_observations : list OndoRecord;
  cr_stopped : option (stop_reason * Z);
}.
Definition unavailable_record (endpoint now : js_string) (code : string) : OndoRecord :=
  MkRecord endpoint now None "unavailable" None None (Some code).
(** One endpoint: its record, and why the others are not asked. *)
Definition check_endpoint (apiKey : js_string) (maxBytes : Z) (directory : option path) (index : nat) (endpoint : js_string)
    : checking (OndoRecord * option stop_reason) :=
  observed ← attempt (observeEndpoint apiKey maxBytes (inr endpoint));
  match observed with
  | Err code =>
      now ← ask Clock;
      mret (unavailable_record endpoint now code,
            if bool_decide (code = "secret_reflection_refused"%string) then Some (AfterError code) else None)
  | Ok (record, raw) =>
      (match directory, raw with
       | Some d, Some content => writeRawExclusive d index endpoint content
       | _, _ => mret tt
       end) ;;
      mret (record, match re_status record with
                    | Some s => if bool_decide (s ∈ STOP_STATUSES) then Some (AfterStatus s) else None
                    | None => None
                    end)
  end.
Fixpoint check_endpoints (apiKey : js_string) (maxBytes : Z) (directory : option path) (index : nat) (endpoints : list js_string)
    (observations : list OndoRecord) : checking (list OndoRecord * option (stop_reason * Z)) :=
  match endpoints with
  | [] => mret (observations, None)
  | endpoint :: rest =>
      one ← check_endpoint apiKey maxBytes directory index endpoint;
      match one.2 with
      | Some reason => mret (observations ++ [one.1], Some (reason, Z.of_nat (length rest)))
      | None => check_endpoints apiKey maxBytes directory (S index) rest (observations ++ [one.1])
      end
  end.
Definition runChecker (apiKey : js_string) (symbols : list js_string) (rawDir : option js_string) (repoRoot : js_string) (maxBytes : Z)
    : checking CheckerReport :=
  verdict (check (usable_key apiKey) "ondo_api_key_missing") ;;
  endpoints ← verdict (buildEndpoints symbols);
  directory ← (match rawDir with Some d => p ← prepareRawDirectory d repoRoot; mret (Some p) | None => mret None end);
  startedAt ← ask Clock;
  done ← check_endpoints apiKey maxBytes directory 0 endpoints [];
  completedAt ← ask Clock;
  mret (MkCheckerReport startedAt completedAt symbols done.1 done.2).

Definition bad_status (r : OndoRecord) : bool :=
  is_some (re_error r) || match re_status r with Some s => (s <? 200) || (300 <=? s) | None => true end.
Definition reportHasFailures (r : CheckerReport) : bool := is_some (cr_stopped r) || existsb bad_status (cr_observations r).

(** ** The report as it is printed *)

Definition fields_of (l : list (string * json)) : json := JObj (prod_map text id <$> l).
Definition or_null {A} (f : A -> json) (o : option A) : json := match o with Some a => f a | None => JNull end.
Definition count_json (z : Z) : json := JNum (Int z).
Definition word (s : string) : json := JStr (text s).
Definition record_json (r : OndoRecord) : json := fields_of [
  ("endpoint", JStr (re_endpoint r)); ("retrievedAt", JStr (re_retrievedAt r)); ("status", or_null count_json (re_status r));
  ("responseShape", word (re_responseShape r)); ("count", or_null count_json (re_count r)); ("dataDigest", or_null JStr (re_dataDigest r));
  ("error", or_null word (re_error r))]%string.
Definition stopped_json (s : stop_reason * Z) : json := fields_of [
  match s.1 with AfterError code => ("afterError", word code) | AfterStatus status => ("afterStatus", count_json status) end;
  ("remainingRequestsSkipped", count_json s.2)]%string.
Definition report_json (r : CheckerReport) : json := fields_of [
  ("checker", word "ondo-readonly-v1"); ("origin", JStr ONDO_ORIGIN); ("startedAt", JStr (cr_startedAt r)); ("completedAt", JStr (cr_completedAt r));
  ("requestedSymbols", JArr (JStr <$> cr_requestedSymbols r)); ("requestMethod", word "GET");
  ("requestsAttempted", count_json (Z.of_nat (length (cr_observations r)))); ("observations", JArr (record_json <$> cr_observations r));
  ("stopped", or_null stopped_json (cr_stopped r));
  ("evidenceBoundary", fields_of [
     ("observationOnly", JBool true); ("apiPermissionScopeEstablished", JBool false); ("annualSettlementReady", JBool false);
     ("missingAnnualSettlementGuarantees", JArr (JStr <$> MISSING_ANNUAL_SETTLEMENT_GUARANTEES));
     ("note", word "Multiplier changes are not classified as dividends by this checker.")])]%string.
Definition serialized (r : CheckerReport) : js_string := pretty [] (report_json r) ++ [10].

Definition HELP_TEXT : js_string := text "Usage: node scripts/issuers/ondo-readonly.mjs [options]

Options:
  --symbols KOon,AAPLon   Allowed subset; defaults to KOon
  --env-file PATH         Env file containing ONDO_API_KEY
  --output PATH           Also write the safe JSON report
  --raw-dir PATH          Exclusively create successful JSON bodies outside the repository
  --help                  Show this help
".
(** [repoRoot] is [REPOSITORY_ROOT], two directories above the script. *)
Definition main (argv : list js_string) (repoRoot : js_string) : checking Z :=
  options ← verdict (parseCliArgs argv);
  if op_help options then ask (Stdout HELP_TEXT) ;; mret 0
  else
    assertOutputDoesNotAliasCredential (op_output options) (op_envFile options) ;;
    apiKey ← loadApiKey (op_envFile options);
    report ← runChecker apiKey (op_symbols options) (op_rawDir options) repoRoot MAX_RESPONSE_BYTES;
    verdict (check (negb (contains apiKey (serialized report))) "secret_output_refused") ;;
    (match op_output options with
     | Some name => written ← ask (WriteReport name (serialized report)); verdict (check written "report_write_failed")
     | None => mret tt
     end) ;;
    ask (Stdout (serialized report)) ;;
    mret (if reportHasFailures report then 1 else 0).
End checker.
