(* ===== verification/OndoCheckerProps.v ===== *)
(** * Ondo's checker: where its key and its files go

    A run of the checker is judged event by event, by what it has read so far:
    the key of the environment file and the real paths of the file system.
    However files and network answer, the key only leaves for addresses of the
    list, nothing that shows it is written, and raw answers are not written
    into the repository.  The issuer reader asks for the endpoints the checker
    lists. *)
From S2P Require Import Prelude Js Utf8 TxBytes Json Programs IssuerSchema IssuerTransport IssuerXstocks IssuerBackpack IssuerOndo IssuerReader OndoChecker.
Open Scope Z_scope.

(** ** What is safe *)

(** An address of the list, without credentials or fragment. *)
Definition listed (u : url) : Prop :=
  u_origin u = ONDO_ORIGIN /\ u_username u = [] /\ u_password u = [] /\ u_hash u = [] /\
  (exact_endpoint u ∈ COMMON_ENDPOINTS \/
   exists s, s ∈ ALLOWED_SYMBOLS /\
     ((u_pathname u = text "/v1/assets/" ++ s ++ text "/shares-multiplier" /\ u_params u = [(text "range", text "all")]) \/
      (u_pathname u = text "/v1/assets/" ++ s ++ text "/dividends" /\ u_search u = []))).
(** A path below another. *)
Definition below (parent candidate : path) : Prop := exists rest, candidate = parent ++ rest /\ head rest <> Some dot_dot.

Record knowledge := MkKnowledge { k_key : option js_string; k_real : list (path * path) }.
Section props.
Context (URL : option js_string -> js_string -> option url) (parseEnv : js_string -> option (option js_string))
  (sha256_hex : bytes -> js_string) (decode : bytes -> option js_string) (JSON_parse : js_string -> option json) (resolve : js_string -> path).
Abbreviation cstep := {e : checker_event & checker_answer e}.

Definition learns (k : knowledge) (x : cstep) : knowledge :=
  match x with
  | existT (ReadFile _) source => match key_of parseEnv source with Ok key => MkKnowledge (Some key) (k_real k) | Err _ => k end
  | existT (Realpath p) (RealAt real) => MkKnowledge (k_key k) ((p, real) :: k_real k)
  | _ => k
  end.
(** A text or bytes that do not show the key, of a run that has one. *)
Definition hides_key (k : knowledge) (shows : js_string -> bool) : Prop := exists key, k_key k = Some key /\ shows key = false.
(** The directory of a raw file is real, and not below the repository. *)
Definition outside (k : knowledge) (repoRoot : js_string) (p : path) : Prop :=
  exists real directory candidate name, p = directory ++ [name] /\ (resolve repoRoot, real) ∈ k_real k /\ (candidate, directory) ∈ k_real k /\
    ~ below real directory.
Definition safe (repoRoot : js_string) (k : knowledge) (x : cstep) : Prop :=
  match projT1 x with
  | ReadFile _ => k_key k = None
  | FetchWithKey u key => k_key k = Some key /\ listed u
  | WriteRaw p content => hides_key k (fun key => contains (encode key) content) /\ outside k repoRoot p
  | WriteReport _ content => hides_key k (fun key => contains key content)
  | Stdout content => hides_key k (fun key => contains key content) \/ (k_key k = None /\ content = HELP_TEXT)
  | _ => True
  end.

(** ** Addresses and paths *)

Lemma capture_spec pre post l s : capture pre post l = Some s -> l = pre ++ s ++ post.
Proof. unfold capture. case_match eqn:Hc; [|done]. intros [= <-]. breflect. by breflect. Qed.
Lemma captures_symbol_spec post u : captures_symbol post u = true ->
  exists s, s ∈ ALLOWED_SYMBOLS /\ u_pathname u = text "/v1/assets/" ++ s ++ text post.
Proof.
  unfold captures_symbol. destruct (capture _ _ _) as [s|] eqn:Hs; [|done]. intros Hin. apply capture_spec in Hs. exists s.
  unfold in_symbol_set in Hin. by breflect.
Qed.
Lemma assertAllowedUrl_listed input u : assertAllowedUrl URL input = Ok u -> listed u.
Proof.
  intros H. unfold assertAllowedUrl in H. minv H. breflect. match goal with R : match input with _ => _ end = _ |- _ => clear R end.
  repeat case_match; simplify_eq; breflect; do 4 (split; [done|]);
    [by left|right; found captures_symbol_spec as (s & Hin & Hp); exists s; by auto..].
Qed.

Lemma relative_below parent rest : head rest <> Some dot_dot -> relative parent (parent ++ rest) = rest.
Proof. intros _. induction parent as [|s parent IH]; cbn; [done|]. by rewrite bool_decide_true. Qed.
Lemma isWithin_below parent candidate : below parent candidate -> isWithin parent candidate = true.
Proof.
  intros (rest & -> & Hr). unfold isWithin. rewrite relative_below by done. destruct rest as [|s rest]; [done|].
  apply negb_true_iff, bool_decide_eq_false. intros ->. by apply Hr.
Qed.
Lemma not_within parent candidate : isWithin parent candidate = false -> ~ below parent candidate.
Proof. intros H Hb%isWithin_below. congruence. Qed.

Lemma trimStart_nonempty l : forallb white_space l = false -> trimStart l <> [].
Proof. induction l as [|u l IH]; cbn; [done|]. by destruct (white_space u). Qed.
Lemma usable_nonempty key : usable_key key = true -> key <> [].
Proof. by intros H ->. Qed.
Lemma encode_nonempty l : l <> [] -> encode l <> [].
Proof.
  intros Hl. unfold encode. assert (scalars l <> []) as Hs by (destruct l as [|u l]; cbn; repeat case_match; done).
  destruct (scalars l) as [|c cs]; [done|]. cbn. pose proof (utf8_scalar_nonempty c). by destruct (utf8_scalar c).
Qed.

(** ** The parts of a run *)

Context (repoRoot : js_string).
Abbreviation H := (holds learns (safe repoRoot)).
(** More real paths are known, and the same key. *)
Definition extends (k k' : knowledge) : Prop := k_key k' = k_key k /\ k_real k ⊆ k_real k'.
#[local] Instance extends_preorder : PreOrder extends.
Proof. split; [done|]. intros a b c [Hk Hr] [Hk' Hr']. split; [congruence|set_solver]. Qed.
Lemma extends_real k p real : extends k (MkKnowledge (k_key k) ((p, real) :: k_real k)).
Proof. split; cbn; [done|set_solver]. Qed.
Definition Ext {A} (k : knowledge) : A -> knowledge -> Prop := fun _ k' => extends k k'.

Lemma judged_extends k s : is_Some (k_key k) -> judged learns (safe repoRoot) k s -> extends k (known learns k s).
Proof.
  revert k. induction s as [|x s IH]; intros k Hk; cbn; [done|]. intros [Hx Hs].
  assert (extends k (learns k x)) as He; [|by etrans; [exact He|apply IH; [by rewrite (proj1 He)|]]].
  destruct x as [e x]. destruct e; try done; cbn in *; [by rewrite Hx in Hk; destruct Hk|]. destruct x; [apply extends_real|done..].
Qed.
Lemma ask_holds {B} k e (f : checker_answer e -> checking B) (Q : B -> knowledge -> Prop) :
  (forall x, safe repoRoot k (existT e x) /\ H (learns k (existT e x)) (f x) Q) -> H k (ask e ≫= f) Q.
Proof. apply holds_ask. Qed.

Lemma loadApiKey_holds k envFile : k_key k = None -> H k (loadApiKey parseEnv envFile) (fun key k' => k_key k' = Some key).
Proof.
  intros Hk. apply ask_holds. intros source. split; [done|]. apply holds_lift. intros key Hkey. cbn. by rewrite Hkey.
Qed.

Lemma inspectJson_hides body key i : key <> [] -> inspectJson decode JSON_parse body key = Ok i -> contains (encode key) body = false.
Proof.
  intros Hne%encode_nonempty Hi. unfold inspectJson in Hi. minv Hi. breflect.
  match goal with R : (_ && _) = false |- _ => apply andb_false_iff in R as [R|R]; [|done] end. by breflect.
Qed.
Lemma observeEndpoint_holds k key maxBytes endpoint : k_key k = Some key ->
  H k (observeEndpoint URL sha256_hex decode JSON_parse key maxBytes endpoint)
    (fun r k' => k' = k /\ forall content, r.2 = Some content -> contains (encode key) content = false).
Proof.
  intros Hk. unfold observeEndpoint. apply holds_verdict. intros _ Hne%require_Ok_inv%usable_nonempty.
  apply holds_verdict. intros u Hu%assertAllowedUrl_listed. apply ask_holds. intros [outcome cancels]. split; [done|].
  apply holds_verdict. intros r _. apply holds_verdict. intros body _. apply holds_verdict. intros i Hi%inspectJson_hides; [|done].
  apply ask_holds. intros now. split; [done|]. apply holds_ret. split; [done|]. cbn. intros content. by case_match; [intros [= <-]|].
Qed.

Lemma inspectJson_parsed body key i v :
  inspectJson decode JSON_parse body key = Ok i -> in_json i = Some v -> (txt ← decode body; JSON_parse txt) = Some v.
Proof.
  intros (? & _ & Hi)%bind_Ok_inv Hv. destruct (decode body) as [txt|]; [|by simplify_eq].
  apply bind_Ok_inv in Hi as (? & _ & Hi). case_match; [by simplify_eq|]. cbn. destruct (JSON_parse txt) as [v'|]; [|by simplify_eq].
  apply bind_Ok_inv in Hi as (? & _ & Hi). by simplify_eq.
Qed.
(** The reader can parse every answer it is given by this transport. *)
Lemma observeEndpoint_parsed key maxBytes endpoint t :
  ensures (observeEndpoint URL sha256_hex decode JSON_parse key maxBytes endpoint)
    (fun o _ => oo_raw (for_reader decode JSON_parse o) <> Some None) t.
Proof.
  unfold observeEndpoint. eapply ensures_bind; [by apply (ensures_lift _ (fun _ _ => True))|]. intros _ t1 _ _.
  eapply ensures_bind; [by apply (ensures_lift _ (fun _ _ => True))|]. intros u t2 _ _.
  apply (ensures_trigger (answer:=checker_answer) (FetchWithKey u key)). intros fetched.
  eapply ensures_bind; [by apply (ensures_lift _ (fun _ _ => True))|]. intros r t3 _ _.
  eapply ensures_bind; [by apply (ensures_lift _ (fun _ _ => True))|]. intros body t4 _ _.
  eapply ensures_bind; [apply (ensures_lift _ (fun i _ => inspectJson decode JSON_parse body key = Ok i)); by intros|]. intros i t5 _ Hi.
  apply (ensures_trigger (answer:=checker_answer) Clock). intros now. apply ensures_ret. cbn.
  destruct (response_ok r); [|done]. cbn. destruct (in_json i) as [v|] eqn:Hv; [|done]. cbn. by rewrite (inspectJson_parsed _ _ _ _ Hi Hv).
Qed.

Lemma nearest_existing_holds k up : H k (nearest_existing up) (Ext k).
Proof.
  revert k. induction up as [|s up IH]; intros k; cbn [nearest_existing]; apply ask_holds; (intros [real| |]; (split; [done|]));
    first [apply holds_raise|apply IH|apply holds_ret; apply extends_real].
Qed.
Lemma projected_holds k candidate : H k (projected candidate) (Ext k).
Proof. eapply holds_bind; [apply nearest_existing_holds|]. intros ancestor k' He. by apply holds_ret. Qed.
Lemma prepareRawDirectory_holds k rawDir :
  H k (prepareRawDirectory resolve rawDir repoRoot)
    (fun directory k' => extends k k' /\ exists real, (resolve repoRoot, real) ∈ k_real k' /\ (resolve rawDir, directory) ∈ k_real k' /\ ~ below real directory).
Proof.
  unfold prepareRawDirectory. apply holds_verdict. intros _ _. apply ask_holds. intros repo. split; [done|].
  apply holds_verdict. intros real Hreal. destruct repo as [p| |]; simplify_eq. cbn [learns].
  eapply holds_bind; [apply projected_holds|]. intros predicted k2 He. apply holds_verdict. intros _ _.
  apply ask_holds. intros made. split; [done|]. apply holds_verdict. intros _ _.
  apply ask_holds. intros found. split; [done|]. apply holds_verdict. intros actual Hactual. destruct found as [p| |]; simplify_eq. cbn [learns].
  apply ask_holds. intros directory. split; [done|]. apply holds_verdict. intros _ _. apply holds_verdict. intros _ Hout%require_Ok_inv%negb_true_iff%not_within.
  apply holds_ret. pose proof (extends_real k2 (resolve rawDir) actual) as He3. pose proof (extends_real k (resolve repoRoot) real) as He1.
  split; [etrans; [exact He1|etrans; [exact He|exact He3]]|]. exists real. destruct He as [_ Hr]. cbn [k_real] in *. set_solver.
Qed.

Lemma assertOutput_holds k output envFile : H k (assertOutputDoesNotAliasCredential resolve output envFile) (Ext k).
Proof.
  unfold assertOutputDoesNotAliasCredential. destruct output as [name|]; [|by apply holds_ret]. apply holds_verdict. intros _ _.
  apply ask_holds. intros env. split; [done|]. destruct env as [realEnv| |]; [|by apply holds_ret..]. cbn [learns].
  eapply holds_bind; [apply projected_holds|]. intros target k' He. apply holds_lift. intros ? _.
  unfold Ext. etrans; [apply extends_real|exact He].
Qed.

(** Where the raw files go. *)
Definition placed (k : knowledge) (directory : option path) : Prop :=
  forall d, directory = Some d -> exists real candidate, (resolve repoRoot, real) ∈ k_real k /\ (candidate, d) ∈ k_real k /\ ~ below real d.
Lemma check_endpoint_holds k key maxBytes directory index endpoint : k_key k = Some key -> placed k directory ->
  H k (check_endpoint URL sha256_hex decode JSON_parse key maxBytes directory index endpoint) (Ext k).
Proof.
  intros Hk Hd. unfold check_endpoint.
  eapply holds_bind; [by apply holds_attempt, (observeEndpoint_holds k)|]. cbv beta. intros observed k' [(s & -> & Hs) Ho].
  apply judged_extends in Hs as He; [|by eexists]. destruct observed as [[record raw]|code].
  - destruct Ho as [-> Hc]. eapply (holds_bind _ _ _ _ _ (fun _ k' => k' = k)); [|by intros _ k' ->; apply holds_ret].
    destruct directory as [d|]; [|by apply holds_ret]. destruct raw as [content|]; [|by apply holds_ret].
    apply ask_holds. intros written. split; [|by apply holds_lift]. cbn. split; [exists key; auto|].
    destruct (Hd d eq_refl) as (real & candidate & Hreal & Hcand & Hout). by exists real, d, candidate, (rawFileName index endpoint).
  - apply ask_holds. intros now. split; [done|]. by apply holds_ret.
Qed.
Lemma placed_extends k k' directory : placed k directory -> extends k k' -> placed k' directory.
Proof. intros Hp [_ Hr] d Hd. destruct (Hp d Hd) as (real & candidate & ? & ? & ?). exists real, candidate. auto. Qed.
Lemma check_endpoints_holds k key maxBytes directory index endpoints observations : k_key k = Some key -> placed k directory ->
  H k (check_endpoints URL sha256_hex decode JSON_parse key maxBytes directory index endpoints observations) (Ext k).
Proof.
  revert k index observations. induction endpoints as [|endpoint rest IH]; intros k index observations Hk Hd; cbn [check_endpoints]; [by apply holds_ret|].
  eapply holds_bind; [by apply check_endpoint_holds|]. intros [record [reason|]] k' He; cbn [fst snd]; [by apply holds_ret|].
  eapply holds_mono; [apply IH; [by rewrite (proj1 He)|by eapply placed_extends]|]. intros a k2 He2. unfold Ext. etrans; [exact He|exact He2].
Qed.
Lemma runChecker_holds k key symbols rawDir maxBytes : k_key k = Some key ->
  H k (runChecker URL sha256_hex decode JSON_parse resolve key symbols rawDir repoRoot maxBytes) (Ext k).
Proof.
  intros Hk. unfold runChecker. apply holds_verdict. intros _ _. apply holds_verdict. intros endpoints _.
  eapply (holds_bind _ _ _ _ _ (fun directory k' => extends k k' /\ placed k' directory)).
  { destruct rawDir as [d|]; [|by apply holds_ret]. eapply holds_bind; [apply prepareRawDirectory_holds|]. intros actual k' [He (real & ? & ? & ?)].
    apply holds_ret. split; [done|]. intros ? [= <-]. by exists real, (resolve d). }
  intros directory k1 [He1 Hd]. apply ask_holds. intros startedAt. split; [done|]. cbn [learns].
  eapply holds_bind; [by apply check_endpoints_holds; [rewrite (proj1 He1)|]|]. intros observed k2 He2.
  apply ask_holds. intros completedAt. split; [done|]. apply holds_ret. unfold Ext. cbn [learns]. etrans; [exact He1|exact He2].
Qed.
Lemma main_holds k argv : k_key k = None ->
  H k (main URL parseEnv sha256_hex decode JSON_parse resolve argv repoRoot) (fun _ _ => True).
Proof.
  intros Hk. unfold main. apply holds_verdict. intros options _. destruct (op_help options).
  { apply ask_holds. intros []. split; [by right|]. by apply holds_ret. }
  eapply holds_bind; [apply assertOutput_holds|]. intros [] k1 He1.
  eapply holds_bind; [apply loadApiKey_holds; by rewrite (proj1 He1)|]. intros key k2 Hkey.
  eapply holds_bind; [by apply runChecker_holds|]. intros report k3 He3.
  apply holds_verdict. intros _ Hsafe%require_Ok_inv%negb_true_iff.
  assert (hides_key k3 (fun key => contains key (serialized report))) as Hhides by (exists key; by rewrite (proj1 He3)).
  eapply (holds_bind _ _ _ _ _ (fun _ k' => k' = k3)).
  - destruct (op_output options) as [name|]; [|by apply holds_ret]. apply ask_holds. intros written. split; [done|]. by apply holds_lift.
  - intros _ k' ->. apply ask_holds. intros []. split; [by left|]. by apply holds_ret.
Qed.

(** C29: However files and network answer, the checker reads the key once and
    sends it only to addresses of its list; no raw file, report or output shows
    it; and raw files go to real directories that are not below the repository. *)
Theorem ondo_key_kept {W} (handler : forall e, W -> checker_answer e * W) (w : W) (argv : list js_string) :
  judged learns (safe repoRoot) (MkKnowledge None [])
    (run (traced handler) (main URL parseEnv sha256_hex decode JSON_parse resolve argv repoRoot) ([], w)).2.1.
Proof. eapply holds_run. by apply main_holds. Qed.

(** Every endpoint is observed, in order, or counted as skipped. *)
Lemma check_endpoints_accounted key maxBytes directory index endpoints observations t :
  ensures (check_endpoints URL sha256_hex decode JSON_parse key maxBytes directory index endpoints observations)
    (fun r _ => Z.of_nat (length r.1) + match r.2 with Some s => s.2 | None => 0 end = Z.of_nat (length observations) + Z.of_nat (length endpoints)) t.
Proof.
  revert index observations t. induction endpoints as [|endpoint rest IH]; intros index observations t; cbn [check_endpoints length].
  { apply ensures_ret. cbn. lia. }
  eapply (ensures_bind _ _ (fun _ _ => True)); [by apply always_true; intros []|]. intros [record [reason|]] t1 _ _; cbn [fst snd].
  - apply ensures_ret. cbn [fst snd]. rewrite length_app. cbn. lia.
  - eapply always_mono; [|apply IH]. intros [r|] t2 _; [|done]. rewrite length_app. cbn [length]. lia.
Qed.
End props.

(** ** What the issuer reader asks *)

Section reader.
Context (Date_parse : js_string -> option Z).
Abbreviation rstep := {e : event & answer e}.
Definition asked (t : list rstep) : list js_string := omap (fun x : rstep => match projT1 x with ObserveOndo e => Some e | _ => None end) t.
Lemma asked_snoc t e x : asked (t ++ [existT e x]) = asked t ++ match e with ObserveOndo s => [s] | _ => [] end.
Proof. unfold asked. rewrite omap_app. by destruct e. Qed.
Lemma request_asks {B} e (f : RequestObservation * option ondo_observed -> reading B) (Q : B -> list rstep -> Prop) t :
  (forall r t1, asked t1 = asked t ++ [e] -> ensures (f r) Q t1) -> ensures (request e ≫= f) Q t.
Proof.
  intros H. unfold request. apply (ensures_bind _ _ (fun _ t1 => asked t1 = asked t ++ [e])); [|intros r t1 _; apply H].
  apply (ensures_trigger (answer:=answer) (ObserveOndo e)). intros [observed|code]; [apply ensures_ret; by rewrite asked_snoc|].
  apply (ensures_trigger (answer:=answer) Now). intros now. apply ensures_ret. by rewrite !asked_snoc, app_nil_r.
Qed.
Definition asset_endpoints (asset : SelectedAsset) : list js_string := [multiplier_endpoint (symbol asset); dividends_endpoint (symbol asset)].
(** From a trace on, [l] was asked, with as many records. *)
Definition asks_more (t t' : list rstep) (l : list js_string) (records : list RequestObservation) : Prop :=
  asked t' = asked t ++ l /\ length l = length records.
Lemma read_ondo_asset_asks identity pauses asset rest t :
  ensures (read_ondo_asset identity pauses asset rest)
    (fun r t' => exists l, asks_more t t' l r.1.2 /\ l `prefix_of` asset_endpoints asset /\ (r.2 = None -> l = asset_endpoints asset)) t.
Proof.
  unfold read_ondo_asset. apply request_asks. intros m t1 H1. destruct (ondo_stopCode m.1).
  { apply ensures_ret. exists [multiplier_endpoint (symbol asset)]. split; [done|]. split; [by eexists|done]. }
  apply request_asks. intros d t2 H2. rewrite H1, <- app_assoc in H2.
  destruct (ondo_stopCode d.1); apply ensures_ret; exists (asset_endpoints asset); done.
Qed.
Lemma read_ondo_assets_asks identity pauses assets observations requests t :
  ensures (read_ondo_assets identity pauses assets observations requests)
    (fun r t' => exists l more, r.1.2 = requests ++ more /\ asks_more t t' l more /\ l `prefix_of` (assets ≫= asset_endpoints)) t.
Proof.
  revert observations requests t. induction assets as [|asset assets IH]; intros observations requests t; cbn [read_ondo_assets].
  { apply ensures_ret. exists [], []. unfold asks_more. by rewrite !app_nil_r. }
  eapply ensures_bind; [apply read_ondo_asset_asks|]. intros [[observation more] stop] t1 _ (l & [Ha Hl] & Hp & Hfull). cbn [fst snd] in *.
  destruct stop as [s|].
  - apply ensures_ret. exists l, more. split; [done|]. split; [done|]. rewrite bind_cons. by apply prefix_app_r.
  - rewrite Hfull in * by done. eapply always_mono; [|apply IH]. intros [[[done' all] stop']|] t2 _; [|done].
    intros (l2 & more2 & E & [Ha2 Hl2] & Hp2). cbn [fst snd] in *. exists (asset_endpoints asset ++ l2), (more ++ more2).
    split; [by rewrite E, app_assoc|]. split; [split; [by rewrite Ha2, Ha, app_assoc|rewrite !length_app; lia]|]. rewrite bind_cons. by apply prefix_app.
Qed.
Lemma endpoints_of_assets assets : endpoints_of (symbol <$> assets) = COMMON_ENDPOINTS ++ (assets ≫= asset_endpoints).
Proof. unfold endpoints_of. f_equal. induction assets as [|asset assets IH]; [done|]. cbn. by rewrite <- IH. Qed.
Lemma readOndo_asks assets t :
  ensures (readOndo Date_parse assets)
    (fun r t' => forallb (is_family ondo) assets = true /\
       exists l, asks_more t t' l (or_requests r) /\ l `prefix_of` endpoints_of (symbol <$> assets)) t.
Proof.
  rewrite endpoints_of_assets. unfold readOndo.
  eapply ensures_bind; [apply (ensures_lift _ (fun _ t' => t' = t /\ forallb (is_family ondo) assets = true)); by intros ? ?%require_Ok_inv|].
  intros _ t0 _ [-> Hf]. apply request_asks. intros a t1 H1.
  assert (asks_more t t1 [text "/v1/assets/all/addresses"] [a.1] /\ [text "/v1/assets/all/addresses"] `prefix_of` COMMON_ENDPOINTS ++ (assets ≫= asset_endpoints))
    as [Hone Hpre] by (split; [done|by eexists]).
  destruct (ondo_stopCode a.1); [apply ensures_ret; eauto|]. destruct (parsed a _ _) as [addresses|code]; [|apply ensures_ret; eauto].
  apply request_asks. intros s t2 H2. rewrite H1, <- app_assoc in H2. destruct (ondo_stopCode s.1).
  { apply ensures_ret. split; [done|]. exists COMMON_ENDPOINTS. split; [done|]. by apply prefix_app_r. }
  eapply ensures_bind; [apply read_ondo_assets_asks|]. intros [[observations requests] stopped] t3 _ (l & more & E & [Ha Hl] & Hp). cbn [fst snd] in *.
  apply ensures_ret. split; [done|]. exists (COMMON_ENDPOINTS ++ l). cbn [or_requests]. rewrite E. split; [split|].
  - by rewrite Ha, H2, <- app_assoc.
  - rewrite !length_app. cbn. lia.
  - by apply prefix_app.
Qed.

(** What [new URL(endpoint, ONDO_ORIGIN)] is for an endpoint of the list. *)
Fixpoint cut_query (l : js_string) : js_string * js_string :=
  match l with [] => ([], []) | u :: l' => if u =? 63 then ([], l) else let '(p, q) := cut_query l' in (u :: p, q) end.
Definition plain_url (e : js_string) : url :=
  let '(p, q) := cut_query e in
  let '(name, value) := split_equals (drop 1 q) in
  MkUrl ONDO_ORIGIN [] [] [] p q (match value with Some v => [(name, v)] | None => [] end) (ONDO_ORIGIN ++ e).
Definition parses_endpoints (URL : option js_string -> js_string -> option url) : Prop :=
  forall e, e ∈ endpoints_of ALLOWED_SYMBOLS -> URL (Some ONDO_ORIGIN) e = Some (plain_url e).

Lemma listed_endpoints URL e : parses_endpoints URL -> e ∈ endpoints_of ALLOWED_SYMBOLS ->
  exists u, assertAllowedUrl URL (inr e) = Ok u /\ exact_endpoint u = e.
Proof.
  intros Hurl Hin. exists (plain_url e). replace (assertAllowedUrl URL (inr e)) with (assertAllowedUrl (fun _ _ => None) (inl (plain_url e)));
    [|unfold assertAllowedUrl; by rewrite Hurl].
  assert (Forall (fun e => assertAllowedUrl (fun _ _ => None) (inl (plain_url e)) = Ok (plain_url e) /\ exact_endpoint (plain_url e) = e)
    (endpoints_of ALLOWED_SYMBOLS)) as Hall; [|by eapply Forall_forall in Hall].
  change (endpoints_of ALLOWED_SYMBOLS) with (ltac:(let l := eval vm_compute in (endpoints_of ALLOWED_SYMBOLS) in exact l)).
  repeat constructor; by vm_compute.
Qed.
Lemma ondo_symbols asset : asset ∈ SELECTED_ASSETS -> is_family ondo asset = true -> symbol asset ∈ ALLOWED_SYMBOLS.
Proof.
  intros Hin. assert (Forall (fun asset => is_family ondo asset = true -> symbol asset ∈ ALLOWED_SYMBOLS) SELECTED_ASSETS) as Hall;
    [|by eapply Forall_forall in Hall].
  apply (bool_decide_unpack _). by vm_compute.
Qed.
Lemma endpoints_mono (l k : list js_string) : l ⊆ k -> endpoints_of l ⊆ endpoints_of k.
Proof. intros H e. unfold endpoints_of. rewrite !elem_of_app, !list_elem_of_bind. intros [He|(s & He & Hs)]; [by left|]. right. exists s. auto. Qed.

(** C31: However Ondo answers, the reader asks for the checker's endpoints, in
    their order and from the first one, once for each request it reports; and
    the checker accepts every one of them. *)
Theorem reader_asks_listed {W} (handler : forall e : event, W -> answer e * W) (w : W) (URL : option js_string -> js_string -> option url)
    (assets : list SelectedAsset) (report : OndoReport) (t : list rstep) (w' : W) :
  parses_endpoints URL -> assets ⊆ SELECTED_ASSETS ->
  run (traced handler) (readOndo Date_parse assets) ([], w) = (Ok report, (t, w')) ->
  asked t `prefix_of` endpoints_of (symbol <$> assets) /\ length (asked t) = length (or_requests report) /\
  Forall (fun e => exists u, assertAllowedUrl URL (inr e) = Ok u /\ exact_endpoint u = e) (asked t).
Proof.
  intros Hurl Hsel Hrun. apply (ensures_run handler _ _ w [] report (t, w') (readOndo_asks assets [])) in Hrun as (Hf & l & [Ha Hl] & Hp).
  assert (asked t = l) as -> by exact Ha. split; [done|]. split; [done|]. apply Forall_forall. intros e He. apply listed_endpoints; [done|].
  destruct Hp as [rest Hp]. eapply endpoints_mono; [|rewrite Hp; apply elem_of_app; by left].
  intros s (asset & -> & Hin)%list_elem_of_fmap. apply ondo_symbols; [by apply Hsel|]. rewrite forallb_forall in Hf. by apply Hf, list_elem_of_In.
Qed.
End reader.
