(* ===== verification/AmmGuards.v ===== *)
(** * AMM integration: what a run may start from

    [packages/amm-integration/src/guards.ts], [manifest.ts], [constants.ts] and
    [transactions.ts]: the manifest a run is bound to, the checks of the cluster,
    of both programs, of Raydium's configuration and of Circle's test token, and
    the sending of one transaction.  Account layouts, SHA-256 and the addresses
    of token accounts are parameters; the RPC connection is events. *)
From S2P Require Import Prelude Js Utf8 TxBytes TxArith TxQuotes TxAccounts Json Programs IssuerSchema AmmAccounting.
Open Scope Z_scope.

(** A check of the integration, of the transaction library, or a thrown
    library error. *)
Inductive amm_failure := Amm (code : AmmCode) | Sdk (code : DividendXSdkErrorCode) | Refused (code : string).
Abbreviation fres := (result amm_failure).
Definition verify (b : bool) (code : string) : fres unit := require b (Refused code).
Definition from_amm {A} (r : ares A) : fres A := match r with Ok a => Ok a | Err c => Err (Amm c) end.
Definition from_sdk {A} (r : TxBytes.res A) : fres A := match r with Ok a => Ok a | Err c => Err (Sdk c) end.
Definition absent {A} (o : option A) : bool := match o with None => true | Some _ => false end.
Definition unpacked {A} (o : option A) : fres A := match o with Some a => Ok a | None => Err (Refused "TokenInvalidAccount") end.

(** ** [extractLogicalElf]

    Reads of a buffer whose range the source checks before; sums are exact below
    2^53, and larger ones exceed every length. *)

Definition read_le (n : nat) (data : bytes) (offset : Z) : ares Z :=
  invariant ((0 <=? offset) && (offset + Z.of_nat n <=? byte_length data)) BUFFER_OUT_OF_RANGE ;;
  Ok (bytesToBigIntLe (take n (drop (Z.to_nat offset) data))).
Definition u64 (data : bytes) (offset : Z) : ares Z :=
  value ← read_le 8 data offset;
  invariant (value <=? MAX_SAFE_INTEGER) ELF_INVALID ;;
  Ok value.
Definition program_header (data : bytes) (phoff phentsize : Z) (end_ index : Z) : ares Z :=
  let offset := phoff + index * phentsize in
  invariant ((56 <=? phentsize) && (offset + 56 <=? byte_length data)) ELF_INVALID ;;
  a ← u64 data (offset + 8);
  b ← u64 data (offset + 32);
  Ok (Z.max end_ (a + b)).
Definition section_header (data : bytes) (shoff shentsize : Z) (end_ index : Z) : ares Z :=
  let offset := shoff + index * shentsize in
  invariant ((64 <=? shentsize) && (offset + 64 <=? byte_length data)) ELF_INVALID ;;
  type ← read_le 4 data (offset + 4);
  if type =? 8 then Ok end_
  else a ← u64 data (offset + 24); b ← u64 data (offset + 32); Ok (Z.max end_ (a + b)).
Definition indices (n : Z) : list Z := Z.of_nat <$> seq 0 (Z.to_nat n).
Definition extractLogicalElf (data : bytes) : ares bytes :=
  invariant ((64 <=? byte_length data) && bool_decide (take 4 data = [127; 69; 76; 70])) ELF_INVALID ;;
  invariant (bool_decide (data !! 4%nat = Some 2) && bool_decide (data !! 5%nat = Some 1)) ELF_INVALID ;;
  phoff ← u64 data 32;
  shoff ← u64 data 40;
  phentsize ← read_le 2 data 54;
  phnum ← read_le 2 data 56;
  shentsize ← read_le 2 data 58;
  shnum ← read_le 2 data 60;
  invariant ((phoff + phentsize * phnum <=? byte_length data) && (shoff + shentsize * shnum <=? byte_length data)) ELF_INVALID ;;
  let end0 := Z.max (Z.max 64 (phoff + phentsize * phnum)) (shoff + shentsize * shnum) in
  end1 ← foldM (program_header data phoff phentsize) end0 (indices phnum);
  end2 ← foldM (section_header data shoff shentsize) end1 (indices shnum);
  invariant ((end2 <=? byte_length data) && (64 <? end2)) ELF_INVALID ;;
  Ok (take (Z.to_nat end2) data).

(** ** The manifest *)

Inductive ExecutionMode := mode_devnet | mode_local.
#[global] Instance ExecutionMode_eq_dec : EqDecision ExecutionMode. Proof. solve_decision. Defined.
Record ExecutionManifest := MkManifest {
  mf_mode : ExecutionMode; mf_rpcUrl : js_string; mf_genesisHash : js_string; mf_upgradeAuthority : js_string; mf_deploymentDomainHex : js_string;
  mf_dividendXElf : js_string; mf_raydiumElf : js_string; mf_maxCreatePoolFee : Z; mf_maxRunSpend : Z;
}.
Definition DEVNET_RPC_URL : js_string := text "https://api.devnet.solana.com".
Definition DEVNET_GENESIS_HASH : js_string := text "EtWTRABZaYq6iMfeYKouRu166VU2xqa1wcaWoxPkrZBG".
Definition PUBLIC_CLUSTER_GENESIS_HASHES : list js_string :=
  [text "5eykt4UsFv8P8NJdTREpY1vzqKqZKvdpKuc147dw2N9d"; DEVNET_GENESIS_HASH; text "4uhcVJyU9pJkvQyS88uRDiswHXSCkY3zQawwpjk2NsNY"].
Definition DIVIDENDX_ELF_SHA256 : js_string := text "a05714204ee277ac58cdddb0b2aa9a44371c1aba6d00bab31f33175954bd0070".
Definition RAYDIUM_CAPTURED_ELF_SHA256 : js_string := text "87ef84634086209fc2c29b4163bbe5209a1e9383aff5c429781f5fff270d75fd".
Definition MAX_CREATE_POOL_FEE_LAMPORTS : Z := 250000000.
Definition MAX_RUN_SPEND_LAMPORTS : Z := 1500000000.
Definition MAX_TRADE_FEE_RATE : Z := 10000.
Definition SERIES_YEAR : Z := 2027.

Definition manifest_text (v : option json) : fres js_string :=
  match v with Some (JStr s) => verify (negb (bool_decide (s = []))) "MANIFEST_INVALID" ;; Ok s | _ => Err (Refused "MANIFEST_INVALID") end.
Definition rawAmount (v : option json) : fres Z := s ← manifest_text v; verify (digits s) "MANIFEST_INVALID" ;; Ok (number_of s).
Definition hex_digit (u : Z) : bool := between 48 57 u || between 97 102 u || between 65 70 u.
Definition same_text (v : option json) (t : js_string) : bool := match v with Some (JStr s) => bool_decide (s = t) | _ => false end.
Record rpc_url := MkRpcUrl {
  ru_protocol : js_string; ru_hostname : js_string; ru_port : js_string; ru_username : js_string; ru_password : js_string; ru_search : js_string;
  ru_hash : js_string; ru_pathname : js_string;
}.
Definition loopback (u : rpc_url) : bool :=
  bool_decide (ru_protocol u = text "http:") && bool_decide (ru_hostname u = text "127.0.0.1")
  && (bool_decide (ru_port u = text "18899") || bool_decide (ru_port u = text "19999"))
  && bool_decide (ru_username u = []) && bool_decide (ru_password u = []) && bool_decide (ru_search u = []) && bool_decide (ru_hash u = [])
  && bool_decide (ru_pathname u = text "/").
(** [new URL(text)], and whether [new PublicKey(text)] does not throw. *)
Definition parseManifest (URL : js_string -> option rpc_url) (is_key : js_string -> bool) (value : json) : fres ExecutionManifest :=
  match value with
  | JObj input =>
      verify (is_text (prop input "schema") "dividendx-raydium-cpmm-v1") "MANIFEST_INVALID" ;;
      verify (is_text (prop input "mode") "devnet" || is_text (prop input "mode") "local-clone") "MANIFEST_INVALID" ;;
      let mode := if is_text (prop input "mode") "devnet" then mode_devnet else mode_local in
      rpcUrl ← manifest_text (prop input "rpcUrl");
      (match mode with
       | mode_devnet =>
           verify (bool_decide (rpcUrl = DEVNET_RPC_URL)) "RPC_NOT_ALLOWED" ;;
           verify (same_text (prop input "expectedGenesisHash") DEVNET_GENESIS_HASH) "GENESIS_MISMATCH"
       | mode_local =>
           match URL rpcUrl with
           | Some u => verify (loopback u) "RPC_NOT_ALLOWED"
           | None => Err (Refused "TypeError")
           end
       end) ;;
      authority ← manifest_text (prop input "expectedDividendXUpgradeAuthority");
      verify (is_key authority) "Error" ;;
      domain ← manifest_text (prop input "deploymentDomainHex");
      verify (bool_decide (length domain = 64%nat) && forallb hex_digit domain && negb (forallb (Z.eqb 48) domain)) "MANIFEST_INVALID" ;;
      dividendX ← manifest_text (prop input "expectedDividendXElfSha256");
      raydium ← manifest_text (prop input "expectedRaydiumElfSha256");
      verify (bool_decide (dividendX = DIVIDENDX_ELF_SHA256)) "PROGRAM_HASH_MISMATCH" ;;
      verify (bool_decide (raydium = RAYDIUM_CAPTURED_ELF_SHA256)) "PROGRAM_HASH_MISMATCH" ;;
      poolFee ← rawAmount (prop input "maxCreatePoolFeeLamports");
      spend ← rawAmount (prop input "maxRunSpendLamports");
      verify (poolFee <=? MAX_CREATE_POOL_FEE_LAMPORTS) "BUDGET_UNBOUNDED" ;;
      verify (spend <=? MAX_RUN_SPEND_LAMPORTS) "BUDGET_UNBOUNDED" ;;
      verify (is_int (prop input "expectedYear") SERIES_YEAR) "YEAR_MISMATCH" ;;
      genesis ← manifest_text (prop input "expectedGenesisHash");
      Ok (MkManifest mode rpcUrl genesis authority domain dividendX raydium poolFee spend)
  | _ => Err (Refused "MANIFEST_INVALID")
  end.

(** ** Accounts *)

Record AmmAccount := MkAmmAccount { ac_executable : bool; ac_owner : PublicKey; ac_data : bytes }.
Record mint_state := MkMintState {
  ms_decimals : Z; ms_supply : Z; ms_initialized : bool; ms_mintAuthority : option PublicKey; ms_freezeAuthority : option PublicKey; ms_scaled : bool;
}.
Record token_state := MkTokenState {
  tk_mint : PublicKey; tk_owner : PublicKey; tk_amount : Z; tk_initialized : bool; tk_frozen : bool; tk_native : bool;
}.
Record AmmConfig := MkAmmConfig {
  ax_disableCreatePool : bool; ax_index : Z; ax_tradeFeeRate : Z; ax_protocolFeeRate : Z; ax_fundFeeRate : Z; ax_createPoolFee : Z;
  ax_creatorFeeRate : Z; ax_rest : js_string (** bump and owners *);
}.
#[global] Instance AmmConfig_eq_dec : EqDecision AmmConfig. Proof. solve_decision. Defined.
Record ProgramIdentity := MkProgram {
  pi_address : PublicKey; pi_owner : PublicKey; pi_programData : option PublicKey; pi_deploySlot : option Z;
  pi_upgradeAuthority : option PublicKey; pi_elfSha256 : js_string;
}.
Record PreflightResult := MkPreflight {
  pf_genesisHash : js_string; pf_contextSlot : Z; pf_dividendX : ProgramIdentity; pf_raydium : ProgramIdentity; pf_config : AmmConfig;
}.
Record CircleFunding := MkCircle {
  ci_contextSlot : Z; ci_mintDataSha256 : js_string; ci_mintSupplyRaw : Z; ci_source : PublicKey; ci_provider : PublicKey; ci_buyer : PublicKey;
  ci_sourceBalanceRaw : Z;
}.

(** What the code relies on of the chain's libraries. *)
Record amm_platform := MkAmmPlatform {
  key_of : string -> PublicKey;
  sha256_hex : bytes -> js_string;
  unpack_mint : PublicKey -> AmmAccount -> PublicKey -> option mint_state;
  unpack_account : PublicKey -> AmmAccount -> PublicKey -> option token_state;
  token_address : PublicKey -> PublicKey -> PublicKey -> PublicKey (** of a mint, an owner and a program *);
  ammConfigDiscriminator : bytes;
  decode_config : bytes -> option AmmConfig;
  first_config_id : PublicKey (** [getCpmmPdaAmmConfigId(RAYDIUM_CPMM_PROGRAM_ID, 0)] *);
  scaled_mint_len : Z (** [getMintLen([ExtensionType.ScaledUiAmountConfig])] *);
}.

(** ** Events *)

(** The calls of the token, system and Raydium libraries that make an
    instruction or a transaction, with what they are given. *)
Inductive amm_instruction :=
  | InitializeConfig (config admin : PublicKey) (domainHex : js_string)
  | TransferLamports (source destination : PublicKey) (lamports : Z)
  | CreateAccount (payer account : PublicKey) (lamports space : Z) (program : PublicKey)
  | InitializeScaledUiAmount (mint authority : PublicKey) (multiplier : Z)
  | InitializeMint (mint : PublicKey) (decimals : Z) (authority : PublicKey) (freeze : option PublicKey) (program : PublicKey)
  | RegisterAsset (assetPolicy mint admin attestor : PublicKey) (issuerId : bytes) (symbol : string)
  | RefreshObservation (attestor assetPolicy mint : PublicKey) (validUntil : Z)
  | CreateSeries (payer assetPolicy series mint : PublicKey) (year : Z)
  | CreateTokenAccount (payer account owner mint program : PublicKey)
  | MintToChecked (mint account authority : PublicKey) (amount decimals : Z) (program : PublicKey)
  | TransferChecked (source mint account authority : PublicKey) (amount decimals : Z)
  | Deposit (holder series : PublicKey) (amount : Z) (guard : Guard)
  | Recombine (holder series : PublicKey) (amount : Z) (guard : Guard).
(** A transaction of instructions, or one that Raydium's client made of programs
    and data, with its payer and the other signers. *)
Inductive amm_transaction :=
  | Instructions (payer : PublicKey) (l : list amm_instruction) (others : list PublicKey)
  | RaydiumTransaction (payer : PublicKey) (content : list (PublicKey * bytes)) (others : list PublicKey).
Record PoolAddresses := MkPoolAddresses { pa_poolId : PublicKey; pa_lpMint : PublicKey; pa_vaultA : PublicKey; pa_vaultB : PublicKey }.
Record pool_info := MkPoolInfo {
  pn_configId : PublicKey; pn_mintA : PublicKey; pn_mintB : PublicKey; pn_enableCreatorFee : bool; pn_openTime : Z; pn_baseReserve : Z; pn_quoteReserve : Z;
}.
Record ConfirmedStepReceipt := MkStepReceipt { sr_name : string; sr_signature : string; sr_slot : Z; sr_finalized : bool }.
Record signature_status := MkSignatureStatus { ss_slot : Z; ss_failed : bool; ss_finality : option bool (** confirmed, or finalized *) }.
Record FlowProgress := MkProgress {
  fp_submitted : list (string * string); fp_transactions : list ConfirmedStepReceipt; fp_checkpoints : list (string * AssetBalances);
}.
Inductive raydium_request :=
  | CreatePool (owner mintA mintB : PublicKey) (amountA amountB : Z) (config : AmmConfig)
  | AddLiquidity (owner pool : PublicKey) (inputAmount : Z) (baseIn : bool)
  | Swap (owner pool : PublicKey) (inputAmount : Z) (result : Z * Z) (baseIn : bool) (slippageBps : Z)
  | WithdrawLiquidity (owner pool : PublicKey) (lpAmount slippageBps : Z).
(** What a run asks of the connection, of Raydium's client, of the SDK's readers
    ([ReadClock], [ReadConfig] and [ReadQuoteSnapshot], of TxAccounts) and of
    its caller ([Publish]). *)
Inductive amm_event :=
  | GenesisHash
  | Accounts (l : list PublicKey)
  | Account (a : PublicKey)
  | Balance (a : PublicKey)
  | RentExemption (space : Z)
  | ReadClock
  | ReadConfig (a : PublicKey)
  | ReadQuoteSnapshot (holder series : PublicKey)
  | LatestBlockhash
  | Simulate (t : amm_transaction)
  | SendRaw (t : amm_transaction)
  | ConfirmSignature (signature : string)
  | SignatureStatus (signature : string)
  | LoadRaydium (owner : PublicKey)
  | Raydium (r : raydium_request)
  | RefreshWallet
  | PoolInfo (pool : PublicKey)
  | Wait
  | Publish (p : FlowProgress).
(** A call of the RPC connection or of a library may throw. *)
Definition amm_answer (e : amm_event) : Type :=
  match e with
  | GenesisHash => fres js_string
  | Accounts _ => fres (Z * list (option AmmAccount))
  | Account _ => fres (option AmmAccount)
  | Balance _ | RentExemption _ => fres Z
  | ReadClock => fres ChainClock
  | ReadConfig _ => fres ConfigSnapshot
  | ReadQuoteSnapshot _ _ => fres CoherentQuoteSnapshot
  | LatestBlockhash | LoadRaydium _ | RefreshWallet | Publish _ => fres unit
  | Wait => unit
  | Simulate _ => fres bool
  | SendRaw _ => fres string
  | ConfirmSignature _ => fres bool
  | SignatureStatus _ => fres (option signature_status)
  | Raydium _ => fres (list (PublicKey * bytes) * list PublicKey * PoolAddresses)
  | PoolInfo _ => fres pool_info
  end.
Abbreviation amm := (call amm_event amm_answer amm_failure).
Abbreviation rpc e := (trigger_result (answer:=amm_answer) (F:=amm_failure) e id).
Abbreviation given r := (lift_result (event:=amm_event) (answer:=amm_answer) (F:=amm_failure) r).

(** ** Sending one transaction *)

(** A simulation, and a confirmation, say whether there was an error. *)
Definition transaction_signers (t : amm_transaction) : list PublicKey :=
  match t with Instructions payer _ others | RaydiumTransaction payer _ others => payer :: others end.
Definition simulateSendAndConfirm (name : string) (t : amm_transaction) (submitted : string -> string -> amm unit) : amm ConfirmedStepReceipt :=
  given (verify (negb (bool_decide (transaction_signers t = []))) "SIGNERS_REQUIRED") ;;
  rpc LatestBlockhash ;;
  simulation_err ← rpc (Simulate t);
  given (verify (negb simulation_err) "SIMULATION_FAILED") ;;
  signature ← rpc (SendRaw t);
  submitted name signature ;;
  confirmation_err ← rpc (ConfirmSignature signature);
  given (verify (negb confirmation_err) "TRANSACTION_FAILED") ;;
  status ← rpc (SignatureStatus signature);
  match status with
  | Some (MkSignatureStatus slot false (Some final)) => mret (MkStepReceipt name signature slot final)
  | _ => raise (Refused "TRANSACTION_CONFIRMATION_INVALID")
  end.

(** ** The environment *)

Section environment.
Context (env : amm_platform).
Definition TOKEN_PROGRAM : PublicKey := key_of env "TokenkegQfeZyiNwAJbNbGKPFXCWuBvf9Ss623VQ5DA".
Definition TOKEN_2022_PROGRAM : PublicKey := key_of env "TokenzQdBNbLqP5VEhdkAS6EPFLC1PHnBqCXEpPxuEb".
Definition DIVIDENDX_PROGRAM : PublicKey := key_of env "2EpQ2iKz921Ce2rremdnFrqG15DQq3Y2rSXbgixceDQE".
Definition RAYDIUM_CPMM_PROGRAM_ID : PublicKey := key_of env "DRaycpLY18LhpbydsBWbVJtxpNv9oXPgjRSfpF2bWpYb".
Definition RAYDIUM_CONFIG : PublicKey := key_of env "5MxLgy9oPdTC3YgkiePHqr3EoCRD9uLVYRQS2ANAs7wy".
Definition RAYDIUM_CREATE_POOL_FEE_RECEIVER : PublicKey := key_of env "3oE58BKVt8KuYkGxx8zBojugnymWmBiyafWgMrnb6eYy".
Definition CIRCLE_DEVNET_USDC_MINT : PublicKey := key_of env "4zMMC9srt5Ri5X14GAgXhaHii3GnPAEERYPJgZJDncDU".
Definition CIRCLE_DEVNET_USDC_MINT_AUTHORITY : PublicKey := key_of env "GrNg1XM2ctzeE2mXxXCfhcTUbejM8Z4z4wNVTy2FjMEz".
Definition CIRCLE_DEVNET_USDC_FREEZE_AUTHORITY : PublicKey := key_of env "CJtyoKSLrktozQzjERTiK3btQtiTK3nN4QrqGHLidyCT".
Definition BPF_LOADER : PublicKey := key_of env "BPFLoader2111111111111111111111111111111111".
Definition BPF_LOADER_UPGRADEABLE : PublicKey := key_of env "BPFLoaderUpgradeab1e11111111111111111111111".
Definition NATIVE_MINT : PublicKey := key_of env "So11111111111111111111111111111111111111112".
Definition CIRCLE_USDC_REQUIRED_FUNDING_RAW : Z := 11 * 10 ^ 6.
Definition ac_owned (a : AmmAccount) (owner : PublicKey) : bool := key_equals (ac_owner a) owner.
Definition is_key (k : option PublicKey) (expected : PublicKey) : bool := match k with Some k => key_equals k expected | None => false end.

Definition validateCircleDevnetUsdcMintInfo (info : option AmmAccount) : fres js_string :=
  match info with
  | None => Err (Refused "CIRCLE_USDC_MINT_INVALID")
  | Some a =>
      verify (ac_owned a TOKEN_PROGRAM && (byte_length (ac_data a) =? 82)) "CIRCLE_USDC_MINT_INVALID" ;;
      mint ← unpacked (unpack_mint env CIRCLE_DEVNET_USDC_MINT a TOKEN_PROGRAM);
      verify (ms_initialized mint && (ms_decimals mint =? 6) && is_key (ms_mintAuthority mint) CIRCLE_DEVNET_USDC_MINT_AUTHORITY
              && is_key (ms_freezeAuthority mint) CIRCLE_DEVNET_USDC_FREEZE_AUTHORITY) "CIRCLE_USDC_MINT_INVALID" ;;
      Ok (sha256_hex env (ac_data a))
  end.
Definition usdc_account (owner : PublicKey) : PublicKey := token_address env CIRCLE_DEVNET_USDC_MINT owner TOKEN_PROGRAM.
Definition funding_accounts (admin provider buyer : PublicKey) (slot : Z) (infos : list (option AmmAccount)) : fres CircleFunding :=
  match infos with
  | [mintInfo; sourceInfo; providerInfo; buyerInfo] =>
      digest ← validateCircleDevnetUsdcMintInfo mintInfo;
      mint ← unpacked (a ← mintInfo; unpack_mint env CIRCLE_DEVNET_USDC_MINT a TOKEN_PROGRAM);
      match sourceInfo with
      | None => Err (Refused "CIRCLE_USDC_FUNDING_ACCOUNT_INVALID")
      | Some a =>
          verify (ac_owned a TOKEN_PROGRAM && (byte_length (ac_data a) =? 165)) "CIRCLE_USDC_FUNDING_ACCOUNT_INVALID" ;;
          source ← unpacked (unpack_account env (usdc_account admin) a TOKEN_PROGRAM);
          verify (tk_initialized source && negb (tk_frozen source) && key_equals (tk_mint source) CIRCLE_DEVNET_USDC_MINT
                  && key_equals (tk_owner source) admin) "CIRCLE_USDC_FUNDING_ACCOUNT_INVALID" ;;
          verify (CIRCLE_USDC_REQUIRED_FUNDING_RAW <=? tk_amount source) "CIRCLE_USDC_FUNDING_INSUFFICIENT" ;;
          verify (absent providerInfo && absent buyerInfo) "CIRCLE_USDC_RECIPIENT_NOT_FRESH" ;;
          Ok (MkCircle slot digest (ms_supply mint) (usdc_account admin) (usdc_account provider) (usdc_account buyer) (tk_amount source))
      end
  | _ => Err (Refused "CIRCLE_USDC_MINT_INVALID")
  end.
Definition verifyCircleDevnetUsdcFunding (admin provider buyer : PublicKey) : amm CircleFunding :=
  response ← rpc (Accounts [CIRCLE_DEVNET_USDC_MINT; usdc_account admin; usdc_account provider; usdc_account buyer]);
  given (funding_accounts admin provider buyer response.1 response.2).

Definition data_key (data : bytes) (offset : nat) : PublicKey := take 32 (drop offset data).
Definition tag (data : bytes) : Z := bytesToBigIntLe (take 4 data).
Definition parseProgramDataAddress (a : AmmAccount) : fres PublicKey :=
  verify (ac_owned a BPF_LOADER_UPGRADEABLE && (36 <=? byte_length (ac_data a)) && (tag (ac_data a) =? 2)) "PROGRAM_LOADER_INVALID" ;;
  Ok (data_key (ac_data a) 4).
(** The program's data account: its code, slot and authority. *)
Definition program_data (info : option AmmAccount) : fres (bytes * Z * option PublicKey) :=
  match info with
  | None => Err (Refused "PROGRAM_DATA_INVALID")
  | Some a =>
      verify (ac_owned a BPF_LOADER_UPGRADEABLE && (45 <? byte_length (ac_data a)) && (tag (ac_data a) =? 3)) "PROGRAM_DATA_INVALID" ;;
      let authorityOption := default 0 (ac_data a !! 12%nat) in
      verify ((authorityOption =? 0) || (authorityOption =? 1)) "PROGRAM_DATA_INVALID" ;;
      Ok (drop 45 (ac_data a), bytesToBigIntLe (take 8 (drop 4 (ac_data a))), if authorityOption =? 1 then Some (data_key (ac_data a) 13) else None)
  end.
Definition programIdentity (address : PublicKey) (a : AmmAccount) (expectedHash : js_string) (expectedAuthority : option PublicKey)
    : amm ProgramIdentity :=
  given (verify (ac_executable a) "PROGRAM_NOT_EXECUTABLE") ;;
  code ← (if ac_owned a BPF_LOADER_UPGRADEABLE then
            programData ← given (parseProgramDataAddress a);
            info ← rpc (Account programData);
            d ← given (program_data info);
            mret (d.1.1, Some programData, Some d.1.2, d.2)
          else given (verify (ac_owned a BPF_LOADER) "PROGRAM_LOADER_INVALID") ;; mret (ac_data a, None, None, None));
  let '(elf, programData, deploySlot, authority) := code in
  let elfSha256 := sha256_hex env elf in
  given (verify (bool_decide (elfSha256 = expectedHash)) "PROGRAM_HASH_MISMATCH") ;;
  given (verify (match expectedAuthority with Some k => is_key authority k | None => true end) "PROGRAM_AUTHORITY_MISMATCH") ;;
  mret (MkProgram address (ac_owner a) programData deploySlot authority elfSha256).

Definition decodeAmmConfig (data : bytes) : fres AmmConfig :=
  verify ((byte_length data =? 236) && bool_decide (take 8 data = ammConfigDiscriminator env)) "RAYDIUM_CONFIG_INVALID" ;;
  unpacked (decode_config env data).
Definition check_config (m : ExecutionManifest) (c : AmmConfig) : fres unit :=
  verify ((ax_index c =? 0) && negb (ax_disableCreatePool c)) "RAYDIUM_CREATION_DISABLED" ;;
  verify ((0 <? ax_tradeFeeRate c) && (ax_tradeFeeRate c <=? MAX_TRADE_FEE_RATE)) "RAYDIUM_FEE_UNBOUNDED" ;;
  verify (ax_protocolFeeRate c + ax_fundFeeRate c <=? FEE_RATE_DENOMINATOR) "RAYDIUM_FEE_INVALID" ;;
  verify (ax_tradeFeeRate c + ax_creatorFeeRate c <? FEE_RATE_DENOMINATOR) "RAYDIUM_FEE_INVALID" ;;
  verify (ax_createPoolFee c <=? mf_maxCreatePoolFee m) "CREATE_POOL_FEE_BUDGET".
Definition check_fee_receiver (a : AmmAccount) : fres unit :=
  verify (ac_owned a TOKEN_PROGRAM) "FEE_RECEIVER_OWNER" ;;
  r ← unpacked (unpack_account env RAYDIUM_CREATE_POOL_FEE_RECEIVER a TOKEN_PROGRAM);
  verify (key_equals (tk_mint r) NATIVE_MINT && tk_native r && tk_initialized r && negb (tk_frozen r)) "FEE_RECEIVER_INVALID".
(** [key_text]: [new PublicKey(text)] *)
Definition verifyExecutionEnvironment (key_text : js_string -> PublicKey) (m : ExecutionManifest) : amm PreflightResult :=
  genesis ← rpc GenesisHash;
  given (verify (bool_decide (genesis = mf_genesisHash m)) "GENESIS_MISMATCH") ;;
  given (verify (negb (bool_decide (mf_mode m = mode_local) && bool_decide (genesis ∈ PUBLIC_CLUSTER_GENESIS_HASHES))) "LOCAL_MODE_PUBLIC_CLUSTER") ;;
  response ← rpc (Accounts [DIVIDENDX_PROGRAM; RAYDIUM_CPMM_PROGRAM_ID; RAYDIUM_CONFIG; RAYDIUM_CREATE_POOL_FEE_RECEIVER]);
  match response.2 with
  | [Some dividendXInfo; Some raydiumInfo; Some configInfo; Some feeInfo] =>
      dividendX ← programIdentity DIVIDENDX_PROGRAM dividendXInfo (mf_dividendXElf m) (Some (key_text (mf_upgradeAuthority m)));
      raydium ← programIdentity RAYDIUM_CPMM_PROGRAM_ID raydiumInfo (mf_raydiumElf m) None;
      given (verify (ac_owned configInfo RAYDIUM_CPMM_PROGRAM_ID) "RAYDIUM_CONFIG_OWNER") ;;
      given (verify (key_equals (first_config_id env) RAYDIUM_CONFIG) "RAYDIUM_CONFIG_INVALID") ;;
      config ← given (decodeAmmConfig (ac_data configInfo));
      given (check_config m config) ;;
      given (check_fee_receiver feeInfo) ;;
      mret (MkPreflight genesis response.1 dividendX raydium config)
  | _ => raise (Refused "REQUIRED_ACCOUNT_MISSING")
  end.
End environment.

(** ** The extracted program *)

(** Reads stay within the buffer, and a program's code is a prefix of it. *)
Definition in_range {A} (r : ares A) : Prop := r <> Err BUFFER_OUT_OF_RANGE.
Lemma in_range_bind {A B} (r : ares A) (f : A -> ares B) : in_range r -> (forall a, r = Ok a -> in_range (f a)) -> in_range (r ≫= f).
Proof. unfold in_range. destruct r as [a|c]; intros Hr Hf; [by apply Hf|]. cbn. intros [= ->]. by apply Hr. Qed.
Lemma in_range_invariant b : in_range (invariant b ELF_INVALID).
Proof. by destruct b. Qed.
Lemma in_range_fold (f : Z -> Z -> ares Z) n (z : Z) : (forall z i, 0 <= i -> in_range (f z i)) -> in_range (foldM f z (indices n)).
Proof.
  intros Hf. unfold indices. generalize (seq 0 (Z.to_nat n)). intros l. revert z.
  induction l as [|i l IH]; intros z; cbn; [done|]. apply in_range_bind; [apply Hf; lia|]. intros z' _. apply IH.
Qed.
Lemma read_le_in_range n data offset : 0 <= offset -> offset + Z.of_nat n <= byte_length data -> in_range (read_le n data offset).
Proof.
  intros Ho Hl. unfold read_le. replace ((0 <=? offset) && (offset + Z.of_nat n <=? byte_length data)) with true; [done|].
  symmetry. apply andb_true_iff. split; by apply Z.leb_le.
Qed.
Lemma u64_in_range data offset : 0 <= offset -> offset + 8 <= byte_length data -> in_range (u64 data offset).
Proof. intros Ho Hl. apply in_range_bind; [by apply read_le_in_range|]. intros v _. apply in_range_bind; [apply in_range_invariant|done]. Qed.
Lemma read_le_nonneg n data offset v : Forall byte_ok data -> read_le n data offset = Ok v -> 0 <= v.
Proof.
  intros Hd (u & _ & [= <-])%bind_Ok_inv. by apply le_value_bounds, Forall_take, Forall_drop.
Qed.
Lemma u64_nonneg data offset v : Forall byte_ok data -> u64 data offset = Ok v -> 0 <= v.
Proof. intros Hd (w & Hw & (u & _ & [= <-])%bind_Ok_inv)%bind_Ok_inv. by eapply read_le_nonneg. Qed.

(** Whatever a file holds, no read is past its end, and what is extracted is a
    part of the file from its start, longer than the header. *)
Lemma extractLogicalElf_bounds data : Forall byte_ok data ->
  in_range (extractLogicalElf data) /\
  forall elf, extractLogicalElf data = Ok elf -> elf `prefix_of` data /\ 64 < byte_length elf.
Proof.
  intros Hd. split.
  - unfold extractLogicalElf. apply in_range_bind; [apply in_range_invariant|]. intros _ H1%require_Ok_inv. breflect.
    apply in_range_bind; [apply in_range_invariant|]. intros _ _.
    apply in_range_bind; [apply u64_in_range; lia|]. intros phoff Hph%u64_nonneg; [|done].
    apply in_range_bind; [apply u64_in_range; lia|]. intros shoff Hsh%u64_nonneg; [|done].
    apply in_range_bind; [apply read_le_in_range; lia|]. intros phentsize _. apply in_range_bind; [apply read_le_in_range; lia|]. intros phnum _.
    apply in_range_bind; [apply read_le_in_range; lia|]. intros shentsize _. apply in_range_bind; [apply read_le_in_range; lia|]. intros shnum _.
    apply in_range_bind; [apply in_range_invariant|]. intros _ _.
    apply in_range_bind; [|intros end1 _; apply in_range_bind; [|intros end2 _; apply in_range_bind; [apply in_range_invariant|done]]];
      apply in_range_fold; intros z i Hi; [unfold program_header|unfold section_header];
      (apply in_range_bind; [apply in_range_invariant|]); intros _ Hh%require_Ok_inv; breflect.
    + assert (0 <= i * phentsize) by nia. apply in_range_bind; [apply u64_in_range; lia|]. intros a _. apply in_range_bind; [apply u64_in_range; lia|done].
    + assert (0 <= i * shentsize) by nia. apply in_range_bind; [apply read_le_in_range; lia|]. intros type _. destruct (type =? 8); [done|].
      apply in_range_bind; [apply u64_in_range; lia|]. intros a _. apply in_range_bind; [apply u64_in_range; lia|done].
  - intros elf H. unfold extractLogicalElf in H. minv H. breflect. simplify_eq. split; [apply prefix_take|].
    unfold byte_length in *. rewrite length_take. lia.
Qed.

(** ** The manifest that is read *)

Lemma same_text_spec v t : same_text v t = true -> v = Some (JStr t).
Proof. destruct v as [[]|]; try done. cbn. intros H%bool_decide_eq_true. by rewrite H. Qed.
(** A manifest names the reviewed programs and bounded budgets, and on the
    public cluster the fixed address and genesis. *)
Lemma parseManifest_bounds URL is_key value m : parseManifest URL is_key value = Ok m ->
  mf_maxCreatePoolFee m <= MAX_CREATE_POOL_FEE_LAMPORTS /\ mf_maxRunSpend m <= MAX_RUN_SPEND_LAMPORTS /\
  mf_dividendXElf m = DIVIDENDX_ELF_SHA256 /\ mf_raydiumElf m = RAYDIUM_CAPTURED_ELF_SHA256 /\
  (mf_mode m = mode_devnet -> mf_rpcUrl m = DEVNET_RPC_URL /\ mf_genesisHash m = DEVNET_GENESIS_HASH).
Proof.
  destruct value as [| | | | |input]; try done. intros H. unfold parseManifest in H. cbv zeta in H. minv H. unfold verify in *.
  repeat match goal with R : require _ _ = Ok _ |- _ => apply require_Ok_inv in R end.
  match goal with R : (match _ with mode_devnet => _ | mode_local => _ end) = Ok _ |- _ => rename R into Hmode end.
  breflect. subst. cbn. do 4 (split; [done|]). intros Hm. rewrite Hm in Hmode. minv Hmode.
  repeat match goal with R : require _ _ = Ok _ |- _ => apply require_Ok_inv in R end.
  match goal with R : same_text _ _ = true |- _ => apply same_text_spec in R as Hg end.
  match goal with R : manifest_text (prop input "expectedGenesisHash") = Ok ?g |- _ => rewrite Hg in R; cbn in R; injection R as <- end.
  breflect. done.
Qed.
