(* ===== verification/AmmFlow.v ===== *)
(** * AMM integration: a run against a chain

    [packages/amm-integration/src/flow.ts] and [assertSwapInstructionBounds] of
    [quote.ts]: the set-up of a series with its mints and accounts, a pool that
    is seeded, added to, swapped in and emptied, and a recombination, each step
    sent and then checked on balances read back.  A run that is not watched
    publishes to nobody. *)
From S2P Require Import Prelude Js Utf8 TxBytes TxArith TxQuotes TxAccounts TxIdentity Calendar Json Programs IssuerSchema AmmAccounting AmmGuards.
Open Scope Z_scope.

(** ** Data *)

Inductive QuoteMode := mock_quote | circle_quote.
#[global] Instance QuoteMode_eq_dec : EqDecision QuoteMode. Proof. solve_decision. Defined.
Record FlowAmounts := MkFlow {
  fl_collateralDepositRaw : Z; fl_seedDrRaw : Z; fl_seedQuoteRaw : Z; fl_addDrRaw : Z; fl_addQuoteRaw : Z; fl_buyerQuoteRaw : Z; fl_slippageBps : Z;
}.
Definition FLOW : FlowAmounts := MkFlow (100 * 10 ^ 8) (40 * 10 ^ 8) (80 * 10 ^ 6) (60 * 10 ^ 8) (120 * 10 ^ 6) (20 * 10 ^ 6) 50.
Definition USDC_FLOW : FlowAmounts := MkFlow (100 * 10 ^ 8) (40 * 10 ^ 8) (4 * 10 ^ 6) (60 * 10 ^ 8) (6 * 10 ^ 6) (1 * 10 ^ 6) 50.
Definition COLLATERAL_DECIMALS : Z := 8.
Definition CLAIM_DECIMALS : Z := 8.
Definition QUOTE_DECIMALS : Z := 6.

Record FlowSigners := MkFlowSigners {
  fs_admin : PublicKey; fs_attestor : PublicKey; fs_provider : PublicKey; fs_buyer : PublicKey; fs_collateralMint : PublicKey;
  fs_testQuoteMint : option PublicKey;
}.
Record QuotePlan := MkPlan { qp_mode : QuoteMode; qp_mint : PublicKey; qp_flow : FlowAmounts; qp_circle : option CircleFunding }.
Record KnownAddresses := MkKnown {
  kw_issuerId : bytes; kw_series : AnnualSeriesAddresses; kw_providerCollateral : PublicKey; kw_providerPt : PublicKey; kw_providerDr : PublicKey;
  kw_providerQuote : PublicKey; kw_buyerDr : PublicKey; kw_buyerQuote : PublicKey; kw_quoteMint : PublicKey; kw_quoteControlledTotal : option Z;
}.
(** What [CpmmPoolInfoLayout] decodes; the fees are protocol, fund and creator. *)
Record pool_layout := MkPoolLayout {
  py_vaultA : PublicKey; py_vaultB : PublicKey; py_mintLp : PublicKey; py_mintA : PublicKey; py_feesA : Z * Z * Z; py_feesB : Z * Z * Z; py_lpAmount : Z;
}.
Record FlowReceipt := MkReceipt {
  fr_preflight : PreflightResult; fr_recombinedRaw : Z; fr_transactions : list ConfirmedStepReceipt; fr_checkpoints : list (string * AssetBalances);
  fr_exactSwap : CreatorDisabledSwapQuote; fr_plan : QuotePlan; fr_sourceAfterRaw : option Z; fr_known : KnownAddresses; fr_pool : PoolAddresses;
}.

(** ** Progress *)

Definition add_submitted (p : FlowProgress) (name signature : string) : FlowProgress :=
  MkProgress (fp_submitted p ++ [(name, signature)]) (fp_transactions p) (fp_checkpoints p).
Definition add_transaction (p : FlowProgress) (r : ConfirmedStepReceipt) : FlowProgress :=
  MkProgress (fp_submitted p) (fp_transactions p ++ [r]) (fp_checkpoints p).
Definition add_checkpoint (p : FlowProgress) (name : string) (b : AssetBalances) : FlowProgress :=
  MkProgress (fp_submitted p) (fp_transactions p) (fp_checkpoints p ++ [(name, b)]).
(** [record(await simulateSendAndConfirm(...))] *)
Definition send (p : FlowProgress) (name : string) (t : amm_transaction) : amm FlowProgress :=
  receipt ← simulateSendAndConfirm name t (fun n s => rpc (Publish (add_submitted p n s)));
  let p' := add_transaction (add_submitted p name (sr_signature receipt)) receipt in
  rpc (Publish p') ;;
  mret p'.

(** [Buffer.compare(a, b) < 0] *)
Fixpoint lex_lt (a b : bytes) : bool :=
  match a, b with
  | _, [] => false
  | [], _ :: _ => true
  | x :: a', y :: b' => (x <? y) || ((x =? y) && lex_lt a' b')
  end.

Section flow.
Context (env : amm_platform) (key_text : js_string -> PublicKey) (decode_pool : bytes -> option pool_layout).
Context (nfc : js_string -> js_string) (sha256 : bytes -> bytes) (findProgramAddressSync : list bytes -> PublicKey -> TxBytes.res (PublicKey * Z)).
Context (getAssociatedTokenAddressSync : PublicKey -> PublicKey -> bool -> PublicKey -> TxBytes.res PublicKey).
Context (swapBaseInput : Z -> Z -> Z -> Z -> Z -> Z -> Z -> bool -> CurveResult).
Abbreviation TOKEN := (TOKEN_PROGRAM env).
Abbreviation TOKEN_2022 := (TOKEN_2022_PROGRAM env).
Abbreviation ata mint owner program := (token_address env mint owner program).

(** ** The plan *)

Definition buildQuotePlan (m : ExecutionManifest) (s : FlowSigners) (mode : QuoteMode) : amm QuotePlan :=
  match mode, fs_testQuoteMint s with
  | mock_quote, Some mint => mret (MkPlan mock_quote mint FLOW None)
  | mock_quote, None => raise (Refused "MOCK_QUOTE_SIGNER_MISSING")
  | circle_quote, mint =>
      given (verify (bool_decide (mf_mode m = mode_devnet) && bool_decide (mf_genesisHash m = DEVNET_GENESIS_HASH)) "CIRCLE_USDC_REQUIRES_PUBLIC_DEVNET") ;;
      given (verify (absent mint) "CIRCLE_USDC_SYNTHETIC_MINT_REFUSED") ;;
      circle ← verifyCircleDevnetUsdcFunding env (fs_admin s) (fs_provider s) (fs_buyer s);
      mret (MkPlan circle_quote (CIRCLE_DEVNET_USDC_MINT env) USDC_FLOW (Some circle))
  end.
Definition is_mock (q : QuotePlan) : bool := bool_decide (qp_mode q = mock_quote).
Definition requireFreshRun (s : FlowSigners) (q : QuotePlan) (a : AnnualSeriesAddresses) : amm unit :=
  response ← rpc (Accounts ([fs_collateralMint s; aa_assetPolicy a; aa_series a] ++ if is_mock q then [qp_mint q] else []));
  given (verify (forallb absent response.2) "RUN_STATE_ALREADY_EXISTS").

(** ** Setting up *)

(** [Buffer.from(text, 'hex')] *)
Definition hex_value (u : Z) : Z := if u <? 58 then u - 48 else if u <? 97 then u - 55 else u - 87.
Fixpoint hex_bytes (l : js_string) : bytes := match l with a :: b :: l' => 16 * hex_value a + hex_value b :: hex_bytes l' | _ => [] end.
Definition configure (p : FlowProgress) (m : ExecutionManifest) (s : FlowSigners) (config : PublicKey) : amm FlowProgress :=
  info ← rpc (Account config);
  match info with
  | None => send p "initialize_dividendx_config" (Instructions (fs_admin s) [InitializeConfig config (fs_admin s) (mf_deploymentDomainHex m)] [])
  | Some _ =>
      current ← rpc (ReadConfig config);
      given (verify (key_equals (admin current) (fs_admin s)
                     && bytesEqual (deploymentDomain current) (hex_bytes (mf_deploymentDomainHex m))) "DIVIDENDX_CONFIG_MISMATCH") ;;
      mret p
  end.
Definition PROVIDER_TARGET : Z := 600000000.
Definition BUYER_TARGET : Z := 50000000.
Definition ATTESTOR_TARGET : Z := 50000000.
Definition top_up (admin account : PublicKey) (lamports target : Z) : list amm_instruction :=
  if lamports <? target then [TransferLamports admin account (target - lamports)] else [].
Definition fund_participants (p : FlowProgress) (s : FlowSigners) : amm FlowProgress :=
  provider ← rpc (Balance (fs_provider s));
  buyer ← rpc (Balance (fs_buyer s));
  attestor ← rpc (Balance (fs_attestor s));
  let funding := top_up (fs_admin s) (fs_provider s) provider PROVIDER_TARGET ++ top_up (fs_admin s) (fs_buyer s) buyer BUYER_TARGET
                 ++ top_up (fs_admin s) (fs_attestor s) attestor ATTESTOR_TARGET in
  match funding with [] => mret p | _ => send p "fund_test_participants" (Instructions (fs_admin s) funding []) end.
Definition create_mints (p : FlowProgress) (s : FlowSigners) (q : QuotePlan) : amm FlowProgress :=
  rent ← rpc (RentExemption (scaled_mint_len env));
  p1 ← send p "create_test_collateral_mint" (Instructions (fs_admin s)
    [CreateAccount (fs_admin s) (fs_collateralMint s) rent (scaled_mint_len env) TOKEN_2022;
     InitializeScaledUiAmount (fs_collateralMint s) (fs_admin s) 1;
     InitializeMint (fs_collateralMint s) COLLATERAL_DECIMALS (fs_admin s) None TOKEN_2022] [fs_collateralMint s]);
  if is_mock q then
    quoteRent ← rpc (RentExemption 82);
    send p1 "create_worthless_test_quote_mint" (Instructions (fs_admin s)
      [CreateAccount (fs_admin s) (qp_mint q) quoteRent 82 TOKEN; InitializeMint (qp_mint q) QUOTE_DECIMALS (fs_admin s) None TOKEN] [qp_mint q])
  else mret p1.
Definition register (p : FlowProgress) (s : FlowSigners) (issuerId : bytes) (a : AnnualSeriesAddresses) : amm FlowProgress :=
  p1 ← send p "register_test_asset" (Instructions (fs_admin s)
    [RegisterAsset (aa_assetPolicy a) (fs_collateralMint s) (fs_admin s) (fs_attestor s) issuerId "DXT"] []);
  clock ← rpc ReadClock;
  p2 ← send p1 "refresh_test_asset_observation" (Instructions (fs_attestor s)
    [RefreshObservation (fs_attestor s) (aa_assetPolicy a) (fs_collateralMint s) (unixTimestamp clock + 7200)] []);
  send p2 "create_2027_series" (Instructions (fs_admin s) [CreateSeries (fs_admin s) (aa_assetPolicy a) (aa_series a) (fs_collateralMint s) SERIES_YEAR] []).
Definition addresses_of (s : FlowSigners) (q : QuotePlan) (issuerId : bytes) (a : AnnualSeriesAddresses) : KnownAddresses :=
  MkKnown issuerId a (ata (fs_collateralMint s) (fs_provider s) TOKEN_2022) (ata (aa_ptMint a) (fs_provider s) TOKEN) (ata (aa_drMint a) (fs_provider s) TOKEN)
    (ata (qp_mint q) (fs_provider s) TOKEN) (ata (aa_drMint a) (fs_buyer s) TOKEN) (ata (qp_mint q) (fs_buyer s) TOKEN) (qp_mint q)
    (if is_mock q then None else Some CIRCLE_USDC_REQUIRED_FUNDING_RAW).
Definition provider_quote (f : FlowAmounts) : Z := fl_seedQuoteRaw f + fl_addQuoteRaw f.
Definition create_accounts (p : FlowProgress) (s : FlowSigners) (q : QuotePlan) (k : KnownAddresses) : amm FlowProgress :=
  let a := kw_series k in
  let create account owner mint program := CreateTokenAccount (fs_admin s) account owner mint program in
  p1 ← send p "create_provider_token_accounts" (Instructions (fs_admin s)
    ([create (kw_providerCollateral k) (fs_provider s) (fs_collateralMint s) TOKEN_2022; create (kw_providerPt k) (fs_provider s) (aa_ptMint a) TOKEN;
      create (kw_providerDr k) (fs_provider s) (aa_drMint a) TOKEN; create (kw_providerQuote k) (fs_provider s) (qp_mint q) TOKEN;
      MintToChecked (fs_collateralMint s) (kw_providerCollateral k) (fs_admin s) (fl_collateralDepositRaw (qp_flow q)) COLLATERAL_DECIMALS TOKEN_2022]
     ++ if is_mock q then [MintToChecked (qp_mint q) (kw_providerQuote k) (fs_admin s) (provider_quote (qp_flow q)) QUOTE_DECIMALS TOKEN] else []) []);
  send p1 "create_buyer_token_accounts" (Instructions (fs_admin s)
    ([create (kw_buyerDr k) (fs_buyer s) (aa_drMint a) TOKEN; create (kw_buyerQuote k) (fs_buyer s) (qp_mint q) TOKEN]
     ++ if is_mock q then [MintToChecked (qp_mint q) (kw_buyerQuote k) (fs_admin s) (fl_buyerQuoteRaw (qp_flow q)) QUOTE_DECIMALS TOKEN] else []) []).
Definition held_by (t : token_state) (mint owner : PublicKey) : bool :=
  tk_initialized t && negb (tk_frozen t) && key_equals (tk_mint t) mint && key_equals (tk_owner t) owner.
(** The balance of the source of Circle's token after the transfers. *)
Definition check_funded (s : FlowSigners) (q : QuotePlan) (c : CircleFunding) (k : KnownAddresses) (infos : list (option AmmAccount)) : fres Z :=
  match infos with
  | [Some sourceInfo; Some providerInfo; Some buyerInfo] =>
      source ← unpacked (unpack_account env (ci_source c) sourceInfo TOKEN);
      provider ← unpacked (unpack_account env (kw_providerQuote k) providerInfo TOKEN);
      buyer ← unpacked (unpack_account env (kw_buyerQuote k) buyerInfo TOKEN);
      verify (held_by source (qp_mint q) (fs_admin s) && held_by provider (qp_mint q) (fs_provider s) && held_by buyer (qp_mint q) (fs_buyer s)
              && (tk_amount source =? ci_sourceBalanceRaw c - CIRCLE_USDC_REQUIRED_FUNDING_RAW)
              && (tk_amount provider =? provider_quote (qp_flow q)) && (tk_amount buyer =? fl_buyerQuoteRaw (qp_flow q)))
        "CIRCLE_USDC_FUNDING_DELTA_INVALID" ;;
      Ok (tk_amount source)
  | _ => Err (Refused "CIRCLE_USDC_FUNDING_ACCOUNT_INVALID")
  end.
Definition fund_circle (p : FlowProgress) (s : FlowSigners) (q : QuotePlan) (k : KnownAddresses) : amm (FlowProgress * option Z) :=
  match qp_circle q with
  | None => mret (p, None)
  | Some c =>
      given (verify (key_equals (kw_providerQuote k) (ci_provider c) && key_equals (kw_buyerQuote k) (ci_buyer c)) "CIRCLE_USDC_FUNDING_ACCOUNT_INVALID") ;;
      p1 ← send p "fund_circle_devnet_usdc_accounts" (Instructions (fs_admin s)
        [TransferChecked (ci_source c) (qp_mint q) (kw_providerQuote k) (fs_admin s) (provider_quote (qp_flow q)) QUOTE_DECIMALS;
         TransferChecked (ci_source c) (qp_mint q) (kw_buyerQuote k) (fs_admin s) (fl_buyerQuoteRaw (qp_flow q)) QUOTE_DECIMALS] []);
      funded ← rpc (Accounts [ci_source c; kw_providerQuote k; kw_buyerQuote k]);
      source ← given (check_funded s q c k funded.2);
      mret (p1, Some source)
  end.
(** A balance of the holder, which is read whenever a holder is asked for. *)
Definition holder_raw (o : option Z) : fres Z := match o with Some z => Ok z | None => Err (Refused "TypeError") end.
Definition deposit (p : FlowProgress) (s : FlowSigners) (q : QuotePlan) (a : AnnualSeriesAddresses) : amm FlowProgress :=
  snapshot ← rpc (ReadQuoteSnapshot (fs_provider s) (aa_series a));
  owned ← given (holder_raw (qs_holderCollateralRaw snapshot));
  let now := unixTimestamp (qs_clock snapshot) in
  quote ← given (from_sdk (quoteDeposit (qs_series snapshot) (qs_policy snapshot) (qs_vaultRaw snapshot) (fl_collateralDepositRaw (qp_flow q)) owned now
                   (ck_slot (qs_clock snapshot)) (now + 300) None));
  send p "deposit_100_test_stock" (Instructions (fs_provider s) [Deposit (fs_provider s) (aa_series a) (inputRaw quote) (dq_guard quote)] []).
Definition mode_text (m : ExecutionMode) : js_string := text (match m with mode_devnet => "devnet" | mode_local => "local-clone" end).
Definition prepareDividendX (p : FlowProgress) (m : ExecutionManifest) (s : FlowSigners) (q : QuotePlan) : amm (FlowProgress * KnownAddresses * option Z) :=
  clock ← rpc ReadClock;
  given (verify (getUTCFullYear (unixTimestamp clock * 1000) + 1 =? SERIES_YEAR) "YEAR_MISMATCH") ;;
  issuerId ← given (from_sdk (issuerIdentityHash nfc sha256 (mode_text (mf_mode m) ++ text ":" ++ mf_genesisHash m) (text "dividendx-raydium-test-issuer")));
  a ← given (from_sdk (annualSeriesAddresses findProgramAddressSync getAssociatedTokenAddressSync TOKEN_2022 issuerId (fs_collateralMint s) SERIES_YEAR
                         (DIVIDENDX_PROGRAM env)));
  requireFreshRun s q a ;;
  p ← configure p m s (aa_config a);
  p ← fund_participants p s;
  p ← create_mints p s q;
  p ← register p s issuerId a;
  let k := addresses_of s q issuerId a in
  p ← create_accounts p s q k;
  funded ← fund_circle p s q k;
  p ← deposit funded.1 s q a;
  mret (p, k, funded.2).

(** ** Reading *)

Definition missing_authority (m : mint_state) : bool := absent (ms_freezeAuthority m).
Definition check_flow_mints (s : FlowSigners) (k : KnownAddresses) (q : QuotePlan) (infos : list (option AmmAccount)) : fres unit :=
  let a := kw_series k in
  match infos with
  | [Some collateralInfo; Some ptInfo; Some drInfo; Some quoteInfo] =>
      verify (ac_owned collateralInfo TOKEN_2022 && ac_owned ptInfo TOKEN && ac_owned drInfo TOKEN && ac_owned quoteInfo TOKEN) "MINT_PROGRAM_INVALID" ;;
      collateral ← unpacked (unpack_mint env (fs_collateralMint s) collateralInfo TOKEN_2022);
      pt ← unpacked (unpack_mint env (aa_ptMint a) ptInfo TOKEN);
      dr ← unpacked (unpack_mint env (aa_drMint a) drInfo TOKEN);
      quote ← unpacked (unpack_mint env (kw_quoteMint k) quoteInfo TOKEN);
      verify ((ms_decimals collateral =? COLLATERAL_DECIMALS) && ms_scaled collateral && missing_authority collateral) "COLLATERAL_MINT_PROFILE_INVALID" ;;
      verify ((ms_decimals pt =? CLAIM_DECIMALS) && (ms_decimals dr =? CLAIM_DECIMALS) && is_key (ms_mintAuthority pt) (aa_series a)
              && is_key (ms_mintAuthority dr) (aa_series a) && missing_authority pt && missing_authority dr) "CLAIM_MINT_PROFILE_INVALID" ;;
      if is_mock q then verify ((ms_decimals quote =? QUOTE_DECIMALS) && missing_authority quote) "QUOTE_MINT_PROFILE_INVALID"
      else validateCircleDevnetUsdcMintInfo env (Some quoteInfo) ;; Ok tt
  | _ => Err (Refused "MINT_IDENTITY_INVALID")
  end.
Definition validateFlowMints (s : FlowSigners) (k : KnownAddresses) (q : QuotePlan) : amm unit :=
  response ← rpc (Accounts [fs_collateralMint s; aa_ptMint (kw_series k); aa_drMint (kw_series k); kw_quoteMint k]);
  given (check_flow_mints s k q response.2).

Definition pool_side (amount : Z) (fees : Z * Z * Z) : AmmAccounting.PoolToken := PoolTok amount fees.1.1 fees.1.2 fees.2.
Definition balance_addresses (s : FlowSigners) (k : KnownAddresses) (pool : PoolAddresses) : list (PublicKey * PublicKey) :=
  let a := kw_series k in
  [(kw_providerCollateral k, TOKEN_2022); (aa_vault a, TOKEN_2022); (kw_providerPt k, TOKEN); (kw_providerDr k, TOKEN); (kw_buyerDr k, TOKEN);
   (kw_providerQuote k, TOKEN); (kw_buyerQuote k, TOKEN); (pa_vaultA pool, TOKEN); (pa_vaultB pool, TOKEN)].
Definition mint_addresses (s : FlowSigners) (k : KnownAddresses) (pool : PoolAddresses) : list (PublicKey * PublicKey) :=
  let a := kw_series k in
  [(fs_collateralMint s, TOKEN_2022); (aa_ptMint a, TOKEN); (aa_drMint a, TOKEN); (kw_quoteMint k, TOKEN); (pa_lpMint pool, TOKEN)].
Fixpoint unpack_all {A} (unpack : PublicKey -> AmmAccount -> PublicKey -> option A) (addresses : list (PublicKey * PublicKey)) (infos : list AmmAccount)
    : fres (list A) :=
  match addresses, infos with
  | [], _ => Ok []
  | (address, program) :: addresses', info :: infos' =>
      x ← unpacked (unpack address info program); rest ← unpack_all unpack addresses' infos'; Ok (x :: rest)
  | _ :: _, [] => Err (Refused "TypeError")
  end.
Definition balances_of (s : FlowSigners) (k : KnownAddresses) (pool : PoolAddresses) (infos : list AmmAccount) : fres AssetBalances :=
  let providerLp := ata (pa_lpMint pool) (fs_provider s) TOKEN in
  tokens ← unpack_all (unpack_account env) (balance_addresses s k pool) infos;
  mints ← unpack_all (unpack_mint env) (mint_addresses s k pool) (drop 9 infos);
  lpTokens ← unpack_all (unpack_account env) [(providerLp, TOKEN)] (drop 14 infos);
  match tk_amount <$> tokens, ms_supply <$> mints, tk_amount <$> lpTokens, infos !! 15%nat with
  | [collateral; vault; pt; providerDr; buyerDr; providerQuote; buyerQuote; vaultA; vaultB], [collateralSupply; ptSupply; drSupply; quoteSupply; lpSupply],
    [lp], Some poolInfo =>
      verify (ac_owned poolInfo (RAYDIUM_CPMM_PROGRAM_ID env)) "POOL_IDENTITY_MISMATCH" ;;
      d ← unpacked (decode_pool (ac_data poolInfo));
      verify (key_equals (py_vaultA d) (pa_vaultA pool) && key_equals (py_vaultB d) (pa_vaultB pool) && key_equals (py_mintLp d) (pa_lpMint pool))
        "POOL_IDENTITY_MISMATCH" ;;
      let drIsA := key_equals (py_mintA d) (aa_drMint (kw_series k)) in
      let sideA := pool_side vaultA (py_feesA d) in
      let sideB := pool_side vaultB (py_feesB d) in
      Ok (Balances (Collateral collateral vault collateralSupply) (Pt pt 0 ptSupply)
            (Dr providerDr buyerDr (if drIsA then sideA else sideB) 0 drSupply)
            (Quote providerQuote buyerQuote (if drIsA then sideB else sideA) 0 quoteSupply (kw_quoteControlledTotal k))
            (Lp lp lpSupply (py_lpAmount d)))
  | _, _, _, _ => Err (Refused "TypeError")
  end.
Definition readBalances (s : FlowSigners) (k : KnownAddresses) (pool : PoolAddresses) : amm AssetBalances :=
  let providerLp := ata (pa_lpMint pool) (fs_provider s) TOKEN in
  response ← rpc (Accounts ((balance_addresses s k pool).*1 ++ (mint_addresses s k pool).*1 ++ [providerLp; pa_poolId pool]));
  given (verify (forallb (fun info => negb (absent info)) response.2) "ACCOUNTING_ACCOUNT_MISSING") ;;
  given (balances_of s k pool (omap id response.2)).

(** ** Checks *)

Definition assertSeedAndAdd (before after : AssetBalances) (f : FlowAmounts) : fres unit :=
  verify ((dr_provider (dr before) - dr_provider (dr after) =? fl_addDrRaw f)
          && (qt_provider (testQuote before) - qt_provider (testQuote after) =? fl_addQuoteRaw f)
          && (poolVault (dr_pool (dr after)) - poolVault (dr_pool (dr before)) =? fl_addDrRaw f)
          && (poolVault (qt_pool (testQuote after)) - poolVault (qt_pool (testQuote before)) =? fl_addQuoteRaw f)
          && (lp_provider (lp before) <? lp_provider (lp after))) "ADD_LIQUIDITY_DELTA_FAILED" ;;
  from_amm (assertPrefinalBacking after).
Fixpoint waitForPoolOpen (attempts : nat) (openTime : Z) : amm unit :=
  match attempts with
  | O => raise (Refused "POOL_OPEN_TIMEOUT")
  | S attempts' =>
      clock ← rpc ReadClock;
      if openTime <=? unixTimestamp clock then mret tt else trigger (answer:=amm_answer) Wait ;; waitForPoolOpen attempts' openTime
  end.
Definition BASE_INPUT_DISCRIMINATOR : bytes := [143; 190; 90; 218; 196; 30; 51; 222].
Definition is_swap (instruction : PublicKey * bytes) : bool :=
  key_equals instruction.1 (RAYDIUM_CPMM_PROGRAM_ID env) && (byte_length instruction.2 =? 24) && bool_decide (take 8 instruction.2 = BASE_INPUT_DISCRIMINATOR).
Definition assertSwapInstructionBounds (instructions : list (PublicKey * bytes)) (inputAmount minimumOut : Z) : fres unit :=
  match List.filter is_swap instructions with
  | [(_, data)] =>
      verify ((bytesToBigIntLe (take 8 (drop 8 data)) =? inputAmount) && (bytesToBigIntLe (take 8 (drop 16 data)) =? minimumOut))
        "SWAP_INSTRUCTION_BOUNDS_MISMATCH"
  | _ => Err (Refused "SWAP_INSTRUCTION_INVALID")
  end.

(** ** The run *)

Definition controlled (s : FlowSigners) : list PublicKey := [fs_admin s; fs_attestor s; fs_provider s; fs_buyer s].
Fixpoint balances (l : list PublicKey) : amm (list Z) :=
  match l with [] => mret [] | a :: l' => z ← rpc (Balance a); rest ← balances l'; mret (z :: rest) end.
Definition sum (l : list Z) : Z := fold_left Z.add l 0.
Definition topup (current target : Z) : Z := Z.max 0 (target - current).
Definition check_lamports (m : ExecutionManifest) (initial : list Z) : fres unit :=
  verify ((300000000 <=? mf_maxRunSpend m) && (300000000 <=? sum initial)) "RUN_SPEND_BUDGET" ;;
  match initial with
  | [admin; attestor; provider; buyer] =>
      verify (topup provider PROVIDER_TARGET + topup buyer BUYER_TARGET + topup attestor ATTESTOR_TARGET + 100000000 <=? admin) "INSUFFICIENT_ADMIN_SOL"
  | _ => Err (Refused "TypeError")
  end.
(** A request of Raydium's client, sent as a step of a signer. *)
Definition raydium_step (p : FlowProgress) (name : string) (owner : PublicKey) (made : list (PublicKey * bytes) * list PublicKey * PoolAddresses)
    : amm FlowProgress := send p name (RaydiumTransaction owner made.1.1 made.1.2).
(** A checkpoint, once its check has passed. *)
Definition checkpoint (p : FlowProgress) (name : string) (b : AssetBalances) (check : fres unit) : amm FlowProgress :=
  given check ;;
  let p' := add_checkpoint p name b in
  rpc (Publish p') ;;
  mret p'.
Definition fees_of (c : AmmConfig) : AmmFees := Fees (ax_tradeFeeRate c) (ax_protocolFeeRate c) (ax_fundFeeRate c).
Definition is_a (info : pool_info) (mint : PublicKey) : bool := key_equals (pn_mintA info) mint.

Definition seed_pool (p : FlowProgress) (s : FlowSigners) (k : KnownAddresses) (f : FlowAmounts) (fresh : PreflightResult)
    : amm (FlowProgress * PoolAddresses * pool_info * AssetBalances) :=
  rpc (LoadRaydium (fs_provider s)) ;;
  let drMint := aa_drMint (kw_series k) in
  let drFirst := lex_lt drMint (kw_quoteMint k) in
  let '(mintA, amountA) := if drFirst then (drMint, fl_seedDrRaw f) else (kw_quoteMint k, fl_seedQuoteRaw f) in
  let '(mintB, amountB) := if drFirst then (kw_quoteMint k, fl_seedQuoteRaw f) else (drMint, fl_seedDrRaw f) in
  created ← rpc (Raydium (CreatePool (fs_provider s) mintA mintB amountA amountB (pf_config fresh)));
  p ← raydium_step p "create_cpmm_pool" (fs_provider s) created;
  rpc RefreshWallet ;;
  let pool := created.2 in
  info ← rpc (PoolInfo (pa_poolId pool));
  given (verify (key_equals (pn_configId info) (RAYDIUM_CONFIG env) && key_equals (pn_mintA info) mintA && key_equals (pn_mintB info) mintB
                 && negb (pn_enableCreatorFee info)) "POOL_IDENTITY_MISMATCH") ;;
  seeded ← readBalances s k pool;
  p ← checkpoint p "seeded" seeded
        (verify ((poolVault (dr_pool (dr seeded)) =? fl_seedDrRaw f) && (poolVault (qt_pool (testQuote seeded)) =? fl_seedQuoteRaw f)) "SEED_DELTA_FAILED" ;;
         from_amm (assertPrefinalBacking seeded));
  mret (p, pool, info, seeded).
Definition add_liquidity (p : FlowProgress) (s : FlowSigners) (k : KnownAddresses) (f : FlowAmounts) (pool : PoolAddresses) (info : pool_info)
    (seeded : AssetBalances) : amm (FlowProgress * pool_info * AssetBalances) :=
  made ← rpc (Raydium (AddLiquidity (fs_provider s) (pa_poolId pool) (fl_addDrRaw f) (is_a info (aa_drMint (kw_series k)))));
  p ← raydium_step p "add_cpmm_liquidity" (fs_provider s) made;
  rpc RefreshWallet ;;
  info ← rpc (PoolInfo (pa_poolId pool));
  added ← readBalances s k pool;
  p ← checkpoint p "added" added (assertSeedAndAdd seeded added f);
  mret (p, info, added).
Definition swap_for_dr (p : FlowProgress) (m : ExecutionManifest) (s : FlowSigners) (k : KnownAddresses) (f : FlowAmounts) (pool : PoolAddresses)
    (info : pool_info) (added : AssetBalances) : amm (FlowProgress * CreatorDisabledSwapQuote * AssetBalances) :=
  waitForPoolOpen 120 (pn_openTime info) ;;
  let quoteIsA := is_a info (kw_quoteMint k) in
  let '(inputReserve, outputReserve) := if quoteIsA then (pn_baseReserve info, pn_quoteReserve info) else (pn_quoteReserve info, pn_baseReserve info) in
  given (verify (negb (pn_enableCreatorFee info)) "CREATOR_FEE_POOL_REFUSED") ;;
  preflight ← verifyExecutionEnvironment env key_text m;
  q ← given (from_amm (quoteCreatorDisabledSwap swapBaseInput (fl_buyerQuoteRaw f) inputReserve outputReserve (fees_of (pf_config preflight))
                         (pn_enableCreatorFee info) (fl_slippageBps f)));
  rpc (LoadRaydium (fs_buyer s)) ;;
  made ← rpc (Raydium (Swap (fs_buyer s) (pa_poolId pool) (fl_buyerQuoteRaw f) (sdkSwapResult q) quoteIsA (fl_slippageBps f)));
  given (assertSwapInstructionBounds made.1.1 (fl_buyerQuoteRaw f) (sw_minimumOutput q)) ;;
  p ← raydium_step p "buyer_swap_quote_for_dr" (fs_buyer s) made;
  rpc (PoolInfo (pa_poolId pool)) ;;
  swapped ← readBalances s k pool;
  p ← checkpoint p "swapped" swapped
        (from_amm (assertSwapDelta added swapped (Expect (fl_buyerQuoteRaw f) (sw_outputAmount q) (sw_minimumOutput q) (sw_protocolFee q) (sw_fundFee q))) ;;
         Ok tt);
  mret (p, q, swapped).
Definition withdraw_all (p : FlowProgress) (s : FlowSigners) (k : KnownAddresses) (f : FlowAmounts) (pool : PoolAddresses) (swapped : AssetBalances)
    : amm (FlowProgress * AssetBalances) :=
  let lpRaw := lp_provider (lp swapped) in
  given (verify (0 <? lpRaw) "LP_BALANCE_MISSING") ;;
  rpc RefreshWallet ;;
  made ← rpc (Raydium (WithdrawLiquidity (fs_provider s) (pa_poolId pool) lpRaw (fl_slippageBps f)));
  p ← raydium_step p "withdraw_all_provider_lp" (fs_provider s) made;
  rpc (PoolInfo (pa_poolId pool)) ;;
  withdrawn ← readBalances s k pool;
  p ← checkpoint p "withdrawn" withdrawn (from_amm (assertSoleProviderWithdrawal swapped withdrawn) ;; from_amm (assertWithdrawBoundary withdrawn));
  mret (p, withdrawn).
Definition recombine_all (p : FlowProgress) (s : FlowSigners) (k : KnownAddresses) (pool : PoolAddresses) (withdrawn : AssetBalances)
    : amm (FlowProgress * Z * AssetBalances) :=
  let recombineRaw := Z.min (dr_provider (dr withdrawn)) (pt_provider (pt withdrawn)) in
  given (verify (0 <? recombineRaw) "RECOMBINE_AMOUNT_INVALID") ;;
  snapshot ← rpc (ReadQuoteSnapshot (fs_provider s) (aa_series (kw_series k)));
  ownedPt ← given (holder_raw (qs_holderPtRaw snapshot));
  ownedDr ← given (holder_raw (qs_holderDrRaw snapshot));
  let now := unixTimestamp (qs_clock snapshot) in
  q ← given (from_sdk (quoteRecombine (qs_series snapshot) (qs_vaultRaw snapshot) recombineRaw ownedPt ownedDr now (now + 300) None));
  p ← send p "recombine_recovered_dr_with_pt" (Instructions (fs_provider s)
        [Recombine (fs_provider s) (aa_series (kw_series k)) recombineRaw (rq_guard q)] []);
  rpc (PoolInfo (pa_poolId pool)) ;;
  recombined ← readBalances s k pool;
  p ← checkpoint p "recombined" recombined (from_amm (assertRecombineDelta withdrawn recombined recombineRaw) ;; from_amm (assertPrefinalBacking recombined));
  mret (p, recombineRaw, recombined).

Definition start_progress : FlowProgress := MkProgress [] [] [].
Definition runAmmFlow (m : ExecutionManifest) (s : FlowSigners) (mode : QuoteMode) : amm FlowReceipt :=
  initial ← balances (controlled s);
  given (check_lamports m initial) ;;
  preflight ← verifyExecutionEnvironment env key_text m;
  plan ← buildQuotePlan m s mode;
  let f := qp_flow plan in
  prepared ← prepareDividendX start_progress m s plan;
  let '(p, k, sourceAfter) := prepared in
  validateFlowMints s k plan ;;
  fresh ← verifyExecutionEnvironment env key_text m;
  given (verify (bool_decide (pf_config fresh = pf_config preflight)) "RAYDIUM_CONFIG_CHANGED") ;;
  seed ← seed_pool p s k f fresh;
  let '(p, pool, info, seeded) := seed in
  add ← add_liquidity p s k f pool info seeded;
  let '(p, info, added) := add in
  swap ← swap_for_dr p m s k f pool info added;
  let '(p, q, swapped) := swap in
  withdrawal ← withdraw_all p s k f pool swapped;
  let '(p, withdrawn) := withdrawal in
  recombination ← recombine_all p s k pool withdrawn;
  let '(p, recombineRaw, recombined) := recombination in
  final ← balances (controlled s);
  given (verify (sum initial - sum final <=? mf_maxRunSpend m) "RUN_SPEND_BUDGET") ;;
  mret (MkReceipt fresh recombineRaw (fp_transactions p) (fp_checkpoints p) q plan sourceAfter k pool).
End flow.
