(* ===== verification/AmmFlowProps.v ===== *)
(** * AMM integration: what a run establishes

    A run that returns a receipt has taken the market from one backed checkpoint
    to the next; and however the chain answers, nothing is sent but what was
    just simulated without error, on the cluster and against the programs the
    manifest names. *)
From S2P Require Import Prelude Js Utf8 TxBytes TxArith TxQuotes TxAccounts TxIdentity Json Programs IssuerSchema AmmAccounting AmmGuards AmmFlow.
Open Scope Z_scope.

(** ** What a call returns, whatever is answered *)

Definition yields {A} (m : amm A) (Q : A -> Prop) : Prop := forall t, ensures m (fun a _ => Q a) t.
Lemma yields_bind {A B} (m : amm A) (f : A -> amm B) (P : A -> Prop) (Q : B -> Prop) :
  yields m P -> (forall a, P a -> yields (f a) Q) -> yields (m ≫= f) Q.
Proof. intros Hm Hf t. eapply ensures_bind; [apply Hm|]. intros a t' _ Ha. by apply Hf. Qed.
Lemma yields_any {A B} (m : amm A) (f : A -> amm B) (Q : B -> Prop) : (forall a, yields (f a) Q) -> yields (m ≫= f) Q.
Proof. intros Hf. apply (yields_bind _ _ (fun _ => True)); [|auto]. intros t. apply always_true. by intros []. Qed.
Lemma yields_given {A B} (r : fres A) (f : A -> amm B) (Q : B -> Prop) : (forall a, r = Ok a -> yields (f a) Q) -> yields (given r ≫= f) Q.
Proof. intros Hf. apply (yields_bind _ _ (fun a => r = Ok a)); [|done]. intros t. by apply ensures_lift. Qed.
Lemma yields_ret {A} (a : A) (Q : A -> Prop) : Q a -> yields (mret a) Q.
Proof. intros H t. by apply ensures_ret. Qed.

Lemma from_amm_Ok {A} (r : ares A) a : from_amm r = Ok a -> r = Ok a.
Proof. by destruct r as [x|]; intros [= ->]. Qed.
Lemma verify_true b code u : verify b code = Ok u -> b = true.
Proof. apply require_Ok_inv. Qed.

Section flow.
Context (env : amm_platform) (key_text : js_string -> PublicKey) (decode_pool : bytes -> option pool_layout).
Context (nfc : js_string -> js_string) (sha256 : bytes -> bytes) (findProgramAddressSync : list bytes -> PublicKey -> TxBytes.res (PublicKey * Z)).
Context (getAssociatedTokenAddressSync : PublicKey -> PublicKey -> bool -> PublicKey -> TxBytes.res PublicKey).
Context (swapBaseInput : Z -> Z -> Z -> Z -> Z -> Z -> Z -> bool -> CurveResult).

(** Sending keeps the checkpoints. *)
Lemma send_checkpoints p name t : yields (send p name t) (fun p' => fp_checkpoints p' = fp_checkpoints p).
Proof. unfold send. apply yields_any. intros receipt. apply yields_any. intros _. by apply yields_ret. Qed.
Definition kept (p p' : FlowProgress) : Prop := fp_checkpoints p' = fp_checkpoints p.
Lemma checkpoint_added p name b check :
  yields (checkpoint p name b check) (fun p' => check = Ok tt /\ fp_checkpoints p' = fp_checkpoints p ++ [(name, b)]).
Proof.
  unfold checkpoint. apply yields_given. intros [] Hc. apply yields_any. intros _. by apply yields_ret.
Qed.

#[local] Instance kept_preorder : PreOrder kept.
Proof. split; [done|]. intros a b c H1 H2. unfold kept in *. congruence. Qed.
Lemma send_kept p q name t : kept p q -> yields (send q name t) (kept p).
Proof. intros Hk u. eapply always_mono; [|apply send_checkpoints]. intros [a|e] u' _ H; [|done]. etrans; [exact Hk|exact H]. Qed.
(** Through a program that only sends. *)
Ltac sending :=
  lazymatch goal with
  | |- yields (send _ _ _) _ => apply send_kept; eauto
  | |- yields (mret _) _ => apply yields_ret; eauto
  | |- yields (raise _) _ => by intros ?
  | |- yields (send _ _ _ ≫= _) _ => eapply yields_bind; [apply send_kept; eauto; reflexivity|intros ? ?; sending]
  | |- yields (lift_result _ ≫= _) _ => apply yields_given; intros ? ?; sending
  | |- yields (_ ≫= _) _ => apply yields_any; intros ?; sending
  | |- yields (match ?x with _ => _ end) _ => destruct x; sending
  | |- yields (let _ := _ in _) _ => cbv zeta; sending
  end.

Lemma configure_kept p m s config : yields (configure p m s config) (kept p).
Proof. unfold configure. sending; reflexivity. Qed.
Lemma fund_participants_kept p s : yields (fund_participants p s) (kept p).
Proof. unfold fund_participants. sending; reflexivity. Qed.
Lemma create_mints_kept p s q : yields (create_mints env p s q) (kept p).
Proof. unfold create_mints. sending. Qed.
Lemma register_kept p s issuerId a : yields (register p s issuerId a) (kept p).
Proof. unfold register. sending. Qed.
Lemma create_accounts_kept p s q k : yields (create_accounts env p s q k) (kept p).
Proof. unfold create_accounts. sending. Qed.
Lemma fund_circle_kept p s q k : yields (fund_circle env p s q k) (fun r => kept p r.1).
Proof. unfold fund_circle. sending. reflexivity. Qed.
Lemma deposit_kept p s q a : yields (deposit p s q a) (kept p).
Proof. unfold deposit. sending; reflexivity. Qed.
Lemma prepared_kept p m s q :
  yields (prepareDividendX env nfc sha256 findProgramAddressSync getAssociatedTokenAddressSync p m s q) (fun r => kept p r.1.1).
Proof.
  unfold prepareDividendX. apply yields_any. intros clock. apply yields_given. intros _ _. apply yields_given. intros issuerId _.
  apply yields_given. intros a _. apply yields_any. intros _.
  eapply yields_bind; [apply configure_kept|]. intros p1 H1. eapply yields_bind; [apply fund_participants_kept|]. intros p2 H2.
  eapply yields_bind; [apply create_mints_kept|]. intros p3 H3. eapply yields_bind; [apply register_kept|]. intros p4 H4.
  eapply yields_bind; [apply create_accounts_kept|]. intros p5 H5. eapply yields_bind; [apply fund_circle_kept|]. intros [p6 o] H6.
  eapply yields_bind; [apply deposit_kept|]. intros p7 H7. apply yields_ret. unfold kept in *. cbn in *. congruence.
Qed.

(** ** The market *)

Definition recorded (p p' : FlowProgress) (name : string) (b : AssetBalances) : Prop := fp_checkpoints p' = fp_checkpoints p ++ [(name, b)].
Lemma seed_pool_ok p s k f fresh : yields (seed_pool env decode_pool p s k f fresh)
  (fun r => recorded p r.1.1.1 "seeded" r.2 /\ assertPrefinalBacking r.2 = Ok tt).
Proof.
  unfold seed_pool. apply yields_any. intros _. repeat case_match.
  all: apply yields_any; intros created; eapply yields_bind; [apply send_checkpoints|]; intros p1 H1; apply yields_any; intros _;
    apply yields_any; intros info; apply yields_given; intros _ _; apply yields_any; intros seeded;
    (eapply yields_bind; [apply checkpoint_added|]); intros p2 [Hc H2]; apply yields_ret; unfold recorded; cbn; rewrite <- H1;
    (split; [done|]); minv Hc; by match goal with R : from_amm _ = Ok ?u |- _ => destruct u; apply from_amm_Ok in R end.
Qed.

Lemma add_liquidity_ok p s k f pool info seeded : yields (add_liquidity env decode_pool p s k f pool info seeded)
  (fun r => recorded p r.1.1 "added" r.2 /\ assertPrefinalBacking r.2 = Ok tt).
Proof.
  unfold add_liquidity. apply yields_any. intros made. eapply yields_bind; [apply send_checkpoints|]. intros p1 H1. apply yields_any. intros _.
  apply yields_any. intros info'. apply yields_any. intros added. eapply yields_bind; [apply checkpoint_added|]. intros p2 [Hc H2].
  apply yields_ret. unfold recorded. cbn. rewrite <- H1. split; [done|]. unfold assertSeedAndAdd in Hc. minv Hc. by apply from_amm_Ok.
Qed.
(** The swap a quote promises. *)
Definition promised (f : FlowAmounts) (q : CreatorDisabledSwapQuote) : ExactSwapExpectation :=
  Expect (fl_buyerQuoteRaw f) (sw_outputAmount q) (sw_minimumOutput q) (sw_protocolFee q) (sw_fundFee q).
Lemma swap_for_dr_ok p m s k f pool info added : yields (swap_for_dr env key_text decode_pool swapBaseInput p m s k f pool info added)
  (fun r => recorded p r.1.1 "swapped" r.2 /\ exists n, assertSwapDelta added r.2 (promised f r.1.2) = Ok n).
Proof.
  unfold swap_for_dr. apply yields_any. intros _. repeat case_match.
  all: apply yields_given; intros _ _; apply yields_any; intros preflight; apply yields_given; intros q _; apply yields_any; intros _;
    apply yields_any; intros made; apply yields_given; intros _ _; (eapply yields_bind; [apply send_checkpoints|]); intros p1 H1;
    apply yields_any; intros _; apply yields_any; intros swapped; (eapply yields_bind; [apply checkpoint_added|]); intros p2 [Hc H2];
    apply yields_ret; unfold recorded; cbn; rewrite <- H1; (split; [done|]);
    apply bind_Ok_inv in Hc as (n & Hn & _); exists n; by apply from_amm_Ok.
Qed.
Lemma withdraw_all_ok p s k f pool swapped : yields (withdraw_all env decode_pool p s k f pool swapped)
  (fun r => recorded p r.1 "withdrawn" r.2 /\ assertSoleProviderWithdrawal swapped r.2 = Ok tt).
Proof.
  unfold withdraw_all. apply yields_given. intros _ _. apply yields_any. intros _. apply yields_any. intros made.
  eapply yields_bind; [apply send_checkpoints|]. intros p1 H1. apply yields_any. intros _. apply yields_any. intros withdrawn.
  eapply yields_bind; [apply checkpoint_added|]. intros p2 [Hc H2]. apply yields_ret. unfold recorded. cbn. rewrite <- H1. split; [done|].
  apply bind_Ok_inv in Hc as ([] & Hc & _). by apply from_amm_Ok.
Qed.
Lemma recombine_all_ok p s k pool withdrawn : yields (recombine_all env decode_pool p s k pool withdrawn)
  (fun r => recorded p r.1.1 "recombined" r.2 /\ r.1.2 = Z.min (dr_provider (dr withdrawn)) (pt_provider (pt withdrawn)) /\
            assertRecombineDelta withdrawn r.2 r.1.2 = Ok tt /\ assertPrefinalBacking r.2 = Ok tt).
Proof.
  unfold recombine_all. apply yields_given. intros _ _. apply yields_any. intros snapshot. apply yields_given. intros pt _.
  apply yields_given. intros dr _. apply yields_given. intros q _.
  eapply yields_bind; [apply send_checkpoints|]. intros p1 H1. apply yields_any. intros _. apply yields_any. intros recombined.
  eapply yields_bind; [apply checkpoint_added|]. intros p2 [Hc H2]. apply yields_ret. unfold recorded. cbn. rewrite <- H1. split; [done|].
  apply bind_Ok_inv in Hc as ([] & Hd & Hb). split; [done|]. by split; apply from_amm_Ok.
Qed.

(** What a receipt says: five checkpoints, backed, the later ones reached by
    market steps; what the swap and the recombination moved. *)
Record receipt_ok (r : FlowReceipt) (seeded added swapped withdrawn recombined : AssetBalances) : Prop := {
  rc_checkpoints : fr_checkpoints r = [("seeded", seeded); ("added", added); ("swapped", swapped); ("withdrawn", withdrawn); ("recombined", recombined)]%string;
  rc_backed : Forall (fun b => assertPrefinalBacking b = Ok tt) [seeded; added; swapped; withdrawn; recombined];
  rc_market : rtc market_step added recombined;
  rc_swap : dr_buyer (dr swapped) - dr_buyer (dr added) = sw_outputAmount (fr_exactSwap r) /\
            sw_minimumOutput (fr_exactSwap r) <= sw_outputAmount (fr_exactSwap r);
  rc_recombined : fr_recombinedRaw r = Z.min (dr_provider (dr withdrawn)) (pt_provider (pt withdrawn)) /\
                  col_provider (collateral recombined) = col_provider (collateral added) + fr_recombinedRaw r;
  rc_claims : dr_buyer (dr recombined) + poolVault (dr_pool (dr recombined)) <= col_vault (collateral recombined);
}.
Lemma checks_give_receipt r seeded added swapped withdrawn recombined f n :
  fr_checkpoints r = [("seeded", seeded); ("added", added); ("swapped", swapped); ("withdrawn", withdrawn); ("recombined", recombined)]%string ->
  assertPrefinalBacking seeded = Ok tt -> assertPrefinalBacking added = Ok tt -> assertSwapDelta added swapped (promised f (fr_exactSwap r)) = Ok n ->
  assertSoleProviderWithdrawal swapped withdrawn = Ok tt ->
  fr_recombinedRaw r = Z.min (dr_provider (dr withdrawn)) (pt_provider (pt withdrawn)) ->
  assertRecombineDelta withdrawn recombined (fr_recombinedRaw r) = Ok tt -> assertPrefinalBacking recombined = Ok tt ->
  receipt_ok r seeded added swapped withdrawn recombined.
Proof.
  intros Hcp Hs Ha Hswap Hw Hraw Hr Hb. pose proof (proj1 (backing_spec _) Hb) as Hbacked.
  assert (market_step added swapped) as M1 by by eapply market_swap. assert (market_step swapped withdrawn) as M2 by by apply market_withdraw.
  assert (market_step withdrawn recombined) as M3 by (eapply market_recombine; [exact Hr|apply Hbacked]).
  pose proof (proj1 (backing_spec _) Ha) as Bacc. pose proof (market_step_backed _ _ M1 Bacc) as B1. pose proof (market_step_backed _ _ M2 B1) as B2.
  pose proof (swap_accepted _ _ _ _ Hswap) as (Hn & Hmin & _ & _ & Hafter). pose proof (withdrawal_accepted _ _ Hw) as (_ & Hcol & _).
  assert (rtc market_step added recombined) as Hrun by (do 3 (eapply rtc_l; [eassumption|]); reflexivity).
  split; [done| |done| |split; [done|]|].
  - repeat constructor; try done; by apply backing_spec.
  - unfold assertSwapDelta in Hswap. minv Hswap. breflect. cbn in *. lia.
  - pose proof (f_equal collateral Hafter) as Hc. cbn in Hc. unfold assertRecombineDelta in Hr. minv Hr. breflect. rewrite <- Hc, <- Hcol. lia.
  - by apply (market_run_keeps_backing added recombined).
Qed.

Abbreviation RUN m s mode :=
  (runAmmFlow env key_text decode_pool nfc sha256 findProgramAddressSync getAssociatedTokenAddressSync swapBaseInput m s mode).
Lemma run_yields m s mode : yields (RUN m s mode) (fun r => exists seeded added swapped withdrawn recombined, receipt_ok r seeded added swapped withdrawn recombined).
Proof.
  unfold runAmmFlow. apply yields_any. intros initial. apply yields_given. intros _ _. apply yields_any. intros preflight.
  apply yields_any. intros plan. cbv zeta. eapply yields_bind; [apply prepared_kept|]. intros [[p k] sourceAfter] Hp.
  apply yields_any. intros _. apply yields_any. intros fresh. apply yields_given. intros _ _.
  eapply yields_bind; [apply seed_pool_ok|]. intros [[[p1 pool] info] seeded] [H1 Hs].
  eapply yields_bind; [apply add_liquidity_ok|]. intros [[p2 info2] added] [H2 Ha].
  eapply yields_bind; [apply swap_for_dr_ok|]. intros [[p3 q] swapped] [H3 [n Hswap]].
  eapply yields_bind; [apply withdraw_all_ok|]. intros [p4 withdrawn] [H4 Hw].
  eapply yields_bind; [apply recombine_all_ok|]. intros [[p5 raw] recombined] (H5 & Hraw & Hd & Hb).
  apply yields_any. intros final. apply yields_given. intros _ _. apply yields_ret. exists seeded, added, swapped, withdrawn, recombined.
  unfold kept, recorded in *. cbn in *. eapply (checks_give_receipt _ _ _ _ _ _ (qp_flow plan) n); try done.
  cbn. by rewrite H5, H4, H3, H2, H1, Hp.
Qed.

(** C14: However the chain and Raydium's client answer, a run that returns a
    receipt has five checkpoints at which every claim is backed by a unit in the
    vault, the later ones reached by a swap, a withdrawal and a recombination;
    the buyer got what was quoted and the provider its collateral back, and the
    claims left outside are covered by the vault. *)
Theorem amm_receipt_sound {W} (handler : forall e, W -> amm_answer e * W) (w : W) (m : ExecutionManifest) (s : FlowSigners) (mode : QuoteMode)
    (r : FlowReceipt) (t : trace (answer:=amm_answer)) (w' : W) :
  run (traced handler) (RUN m s mode) ([], w) = (Ok r, (t, w')) ->
  exists seeded added swapped withdrawn recombined, receipt_ok r seeded added swapped withdrawn recombined.
Proof. exact (ensures_run handler _ _ w [] r (t, w') (run_yields m s mode [])). Qed.

(** ** What is sent *)

(** What a run has been told: whether the cluster is the manifest's, the
    accounts read, and the transaction just simulated without an error. *)
Record told := MkTold { td_genesis : bool; td_accounts : list (PublicKey * AmmAccount); td_simulated : option amm_transaction }.
Context (m : ExecutionManifest).
Abbreviation astep := {e : amm_event & amm_answer e}.
Definition accounts_of (addresses : list PublicKey) (infos : list (option AmmAccount)) : list (PublicKey * AmmAccount) :=
  omap (fun x : PublicKey * option AmmAccount => match x.2 with Some a => Some (x.1, a) | None => None end) (zip addresses infos).
Definition learns (k : told) (x : astep) : told :=
  match x with
  | existT GenesisHash (Ok g) => MkTold (bool_decide (g = mf_genesisHash m)) (td_accounts k) (td_simulated k)
  | existT (Accounts l) (Ok (_, infos)) => MkTold (td_genesis k) (accounts_of l infos ++ td_accounts k) (td_simulated k)
  | existT (Account p) (Ok (Some a)) => MkTold (td_genesis k) ((p, a) :: td_accounts k) (td_simulated k)
  | existT (Simulate t) (Ok err) => MkTold (td_genesis k) (td_accounts k) (if err then None else Some t)
  | existT (SendRaw _) _ => MkTold (td_genesis k) (td_accounts k) None
  | _ => k
  end.
(** A program was seen to run this code: in its own account, or in the data
    account its own names. *)
Definition runs_code (k : told) (address : PublicKey) (hash : js_string) : Prop :=
  exists a, (address, a) ∈ td_accounts k /\ ac_executable a = true /\
    ((exists p d, parseProgramDataAddress env a = Ok p /\ (p, d) ∈ td_accounts k /\ sha256_hex env (drop 45 (ac_data d)) = hash) \/
     (ac_owned a (BPF_LOADER env) = true /\ sha256_hex env (ac_data a) = hash)).
Definition ready (k : told) : Prop :=
  td_genesis k = true /\ runs_code k (DIVIDENDX_PROGRAM env) (mf_dividendXElf m) /\ runs_code k (RAYDIUM_CPMM_PROGRAM_ID env) (mf_raydiumElf m).
Definition safe (k : told) (x : astep) : Prop := match projT1 x with SendRaw t => td_simulated k = Some t /\ ready k | _ => True end.
Abbreviation H := (holds learns safe).

(** More accounts are known, on the same cluster. *)
Definition grows (k k' : told) : Prop := td_genesis k' = td_genesis k /\ td_accounts k ⊆ td_accounts k'.
#[local] Instance grows_preorder : PreOrder grows.
Proof. split; [done|]. intros a b c [H1 H2] [H3 H4]. split; [congruence|set_solver]. Qed.
Lemma runs_grows k k' address hash : grows k k' -> runs_code k address hash -> runs_code k' address hash.
Proof.
  intros [_ Hk] (a & Ha & He & Hc). exists a. split; [by apply Hk|]. split; [done|].
  destruct Hc as [(p & d & Hp & Hd & Hh)|Hc]; [left|by right]. exists p, d. auto.
Qed.
Lemma ready_grows k k' : grows k k' -> ready k -> ready k'.
Proof. intros Hk (Hg & Hd & Hr). split; [by rewrite (proj1 Hk)|]. split; by eapply runs_grows. Qed.
Definition reads (e : amm_event) : bool := match e with GenesisHash | SendRaw _ => false | _ => true end.
Lemma learns_grows k e x : reads e = true -> grows k (learns k (existT e x)).
Proof.
  intros He. destruct e; try done; cbn; repeat case_match; try done; split; cbn; try done; set_solver.
Qed.

Definition sends (e : amm_event) : bool := match e with SendRaw _ => true | _ => false end.
Lemma rpc_holds {A B} k e (as_result : amm_answer e -> fres A) (f : A -> amm B) (Q : B -> told -> Prop) : sends e = false ->
  (forall a k', (exists x, as_result x = Ok a /\ k' = learns k (existT e x)) -> H k' (f a) Q) -> H k (trigger_result e as_result ≫= f) Q.
Proof.
  intros He Hf t x. unfold trigger_result. cbn [mbind call_bind bind].
  destruct (as_result x) as [a|code] eqn:Hx.
  - eapply always_mono; [|exact (Hf a _ (ex_intro _ x (conj Hx eq_refl)) _)]. intros r t' _ (s & -> & Hs & Hr). exists (existT e x :: s).
    rewrite <- app_assoc. split; [done|]. split; [|done]. split; [by destruct e|done].
  - exists [existT e x]. split; [done|]. split; [|done]. split; [by destruct e|done].
Qed.

(** A program that keeps ready. *)
Definition steady {A} (p : amm A) : Prop := forall k, ready k -> H k p (fun _ k' => ready k').
Lemma steady_ret {A} (a : A) : steady (mret a). Proof. intros k Hk. by apply holds_ret. Qed.
Lemma steady_raise {A} (e : amm_failure) : steady (raise (A:=A) e). Proof. intros k Hk. apply holds_raise. Qed.
Lemma steady_given {A} (r : fres A) : steady (given r). Proof. intros k Hk. by apply holds_lift. Qed.
Lemma steady_bind {A B} (p : amm A) (f : A -> amm B) : steady p -> (forall a, steady (f a)) -> steady (p ≫= f).
Proof. intros Hp Hf k Hk. eapply holds_bind; [by apply Hp|]. intros a k' Hk'. by apply Hf. Qed.
Lemma steady_rpc {A} e (as_result : amm_answer e -> fres A) : reads e = true -> steady (trigger_result e as_result).
Proof.
  intros He k Hk t x. exists [existT e x]. split; [done|]. split; [split; [by destruct e|done]|].
  destruct (as_result x); [|done]. eapply ready_grows; [by apply learns_grows|done].
Qed.
Lemma steady_wait {B} (f : unit -> amm B) : (forall u, steady (f u)) -> steady (trigger (answer:=amm_answer) Wait ≫= f).
Proof. intros Hf k Hk. apply holds_ask. intros x. split; [done|]. by apply Hf. Qed.
Lemma steady_send name t submitted : (forall a b, steady (submitted a b)) -> steady (simulateSendAndConfirm name t submitted).
Proof.
  intros Hsub k Hk. unfold simulateSendAndConfirm. apply holds_verdict. intros _ _. apply rpc_holds; [done|].
  intros u k1 (x & _ & ->). set (k1 := learns _ _). assert (ready k1) as H1 by (eapply ready_grows; [by apply learns_grows|done]).
  apply rpc_holds; [done|]. intros err k2 (y & Hy & ->). cbn in Hy. subst y.
  apply holds_verdict. intros _ Hok%require_Ok_inv%negb_true_iff. subst err. cbn [learns]. set (k2 := MkTold _ _ _).
  assert (ready k2) as H2 by (eapply ready_grows; [|exact H1]; by split).
  assert (H k2 (trigger_result (SendRaw t) id) (fun _ k' => ready k')) as Hsend.
  { intros u' z. exists [existT (SendRaw t) z]. split; [done|]. split; [split; [by split|done]|]. destruct (id z); [|done].
    eapply ready_grows; [|exact H2]. by split. }
  eapply holds_bind; [exact Hsend|]. intros signature k3 H3. eapply holds_bind; [by apply Hsub|]. intros u4 k4 H4.
  revert k4 H4. change (steady (confirmation_err ← rpc (ConfirmSignature signature);
    given (verify (negb confirmation_err) "TRANSACTION_FAILED") ;;
    status ← rpc (SignatureStatus signature);
    match status with
    | Some (MkSignatureStatus slot false (Some final)) => mret (MkStepReceipt name signature slot final)
    | _ => raise (Refused "TRANSACTION_CONFIRMATION_INVALID")
    end)).
  apply steady_bind; [by apply steady_rpc|]. intros err. apply steady_bind; [apply steady_given|]. intros _. apply steady_bind; [by apply steady_rpc|].
  intros status. repeat case_match; try apply steady_raise. apply steady_ret.
Qed.

Lemma publish_steady p a b : steady (rpc (Publish (add_submitted p a b))).
Proof. by apply steady_rpc. Qed.
Lemma send_steady p name t : steady (send p name t).
Proof.
  unfold send. apply steady_bind; [apply steady_send; apply publish_steady|]. intros receipt.
  apply steady_bind; [by apply steady_rpc|]. intros _. apply steady_ret.
Qed.
Create HintDb steady discriminated.
#[local] Hint Resolve send_steady steady_ret steady_raise steady_given : steady.
#[local] Hint Extern 1 (steady (trigger_result _ _)) => apply steady_rpc; reflexivity : steady.
(** Takes a program apart into parts that are known to keep ready. *)
Ltac steadily :=
  first
    [ solve [eauto 2 with steady nocore]
    | lazymatch goal with
      | |- steady (trigger _ ≫= _) => apply steady_wait; intros ?; steadily
      | |- steady (_ ≫= _) => apply steady_bind; [steadily|intros ?; steadily]
      | |- steady (match ?x with _ => _ end) => destruct x; steadily
      | |- steady (let _ := _ in _) => cbv zeta; steadily
      end ].

(** ** The environment *)

Lemma programIdentity_holds k address a hash authority : (address, a) ∈ td_accounts k ->
  H k (programIdentity env address a hash authority) (fun _ k' => grows k k' /\ runs_code k' address hash).
Proof.
  intros Ha. unfold programIdentity. apply holds_verdict. intros _ Hexec%require_Ok_inv.
  eapply (holds_bind _ _ _ _ _ (fun r k' => grows k k' /\ (sha256_hex env r.1.1.1 = hash -> runs_code k' address hash))).
  - destruct (ac_owned a (BPF_LOADER_UPGRADEABLE env)).
    + apply holds_verdict. intros p Hp. apply rpc_holds; [done|]. intros info k1 (x & Hx & ->). cbn in Hx. subst x. pose proof (learns_grows k (Account p) (Ok info) eq_refl) as Hg.
      apply holds_verdict. intros [[elf slot] owner] Hd. apply holds_ret. split; [done|]. intros Hh. cbn in Hh. exists a. split; [by apply Hg|]. split; [done|]. left.
      unfold program_data in Hd. destruct info as [d|]; [|done]. exists p, d. split; [done|]. split; [cbn; set_solver|].
      minv Hd. by simplify_eq.
    + apply holds_verdict. intros _ Hl%require_Ok_inv. apply holds_ret. split; [done|]. intros Hh. exists a. split; [done|]. split; [done|]. by right.
  - intros [[[elf programData] slot] owner] k' [Hg Hc]. apply holds_verdict. intros _ Hh%require_Ok_inv%bool_decide_eq_true.
    apply holds_verdict. intros _ _. apply holds_ret. split; [done|]. by apply Hc.
Qed.
Lemma verify_ready k : H k (verifyExecutionEnvironment env key_text m) (fun _ k' => ready k').
Proof.
  unfold verifyExecutionEnvironment. apply rpc_holds; [done|]. intros g k1 (x & Hx & ->). cbn in Hx. subst x. cbn [learns].
  apply holds_verdict. intros _ Hg%require_Ok_inv. apply holds_verdict. intros _ _. rewrite Hg. set (k1 := MkTold _ _ _).
  apply rpc_holds; [done|]. intros [slot infos] k2 (x & Hx & ->). cbn in Hx. subst x. cbn [fst snd].
  destruct infos as [|[d|] [|[r|] [|[c|] [|[f|] [|]]]]]; try apply holds_raise. set (k2 := learns k1 _).
  assert ((DIVIDENDX_PROGRAM env, d) ∈ td_accounts k2) as Hd by (apply elem_of_app; left; cbn; rewrite !elem_of_cons; auto).
  assert ((RAYDIUM_CPMM_PROGRAM_ID env, r) ∈ td_accounts k2) as Hr by (apply elem_of_app; left; cbn; rewrite !elem_of_cons; auto).
  eapply holds_bind; [by apply programIdentity_holds|]. intros dividendX k3 [G3 C3].
  eapply holds_bind; [apply programIdentity_holds; by apply G3|]. intros raydium k4 [G4 C4].
  do 5 (apply holds_verdict; intros ? _). apply holds_ret. split; [by rewrite (proj1 G4), (proj1 G3)|]. split; [by eapply runs_grows|done].
Qed.
Lemma verify_steady : steady (verifyExecutionEnvironment env key_text m).
Proof. intros k _. apply verify_ready. Qed.
#[local] Hint Resolve verify_steady : steady.

(** ** The run *)

Lemma quiet_balances k l : H k (balances l) (fun _ k' => grows k k').
Proof.
  revert k. induction l as [|a l IH]; intros k; cbn [balances]; [by apply holds_ret|]. apply rpc_holds; [done|]. intros z k1 (x & _ & ->).
  eapply holds_bind; [apply IH|]. intros rest k2 H2. apply holds_ret. exact H2.
Qed.
Lemma balances_steady l : steady (balances l).
Proof. intros k Hk. eapply holds_mono; [apply quiet_balances|]. intros a k' Hg. exact (ready_grows _ _ Hg Hk). Qed.
Lemma readBalances_steady s k pool : steady (readBalances env decode_pool s k pool).
Proof. unfold readBalances. steadily. Qed.
Lemma checkpoint_steady p name b check : steady (checkpoint p name b check).
Proof. unfold checkpoint. steadily. Qed.
Lemma wait_steady n openTime : steady (waitForPoolOpen n openTime).
Proof. induction n as [|n IH]; cbn [waitForPoolOpen]; [apply steady_raise|]. steadily. Qed.
#[local] Hint Resolve balances_steady readBalances_steady checkpoint_steady wait_steady : steady.
Lemma raydium_steady p name owner made : steady (raydium_step p name owner made).
Proof. apply send_steady. Qed.
#[local] Hint Resolve raydium_steady : steady.
Lemma plan_steady s mode : steady (buildQuotePlan env m s mode).
Proof. unfold buildQuotePlan, verifyCircleDevnetUsdcFunding. steadily. Qed.
Lemma prepare_steady p s q : steady (prepareDividendX env nfc sha256 findProgramAddressSync getAssociatedTokenAddressSync p m s q).
Proof.
  unfold prepareDividendX, requireFreshRun, configure, fund_participants, create_mints, register, create_accounts, fund_circle, deposit. steadily.
Qed.
Lemma mints_steady s k q : steady (validateFlowMints env s k q).
Proof. unfold validateFlowMints. steadily. Qed.
Lemma seed_steady p s k f fresh : steady (seed_pool env decode_pool p s k f fresh).
Proof. unfold seed_pool. steadily. Qed.
Lemma add_steady p s k f pool info seeded : steady (add_liquidity env decode_pool p s k f pool info seeded).
Proof. unfold add_liquidity. steadily. Qed.
Lemma swap_steady p s k f pool info added : steady (swap_for_dr env key_text decode_pool swapBaseInput p m s k f pool info added).
Proof. unfold swap_for_dr. steadily. Qed.
Lemma withdraw_steady p s k f pool swapped : steady (withdraw_all env decode_pool p s k f pool swapped).
Proof. unfold withdraw_all. steadily. Qed.
Lemma recombine_steady p s k pool withdrawn : steady (recombine_all env decode_pool p s k pool withdrawn).
Proof. unfold recombine_all. steadily. Qed.
#[local] Hint Resolve plan_steady prepare_steady mints_steady seed_steady add_steady swap_steady withdraw_steady recombine_steady : steady.

(** C13: However the chain and Raydium's client answer, a run only sends what was
    simulated without an error just before, once the cluster was seen to be the
    manifest's and both programs to run the code it names. *)
Theorem amm_sends_guarded {W} (handler : forall e, W -> amm_answer e * W) (w : W) (s : FlowSigners) (mode : QuoteMode) :
  judged learns safe (MkTold false [] None) (run (traced handler) (RUN m s mode) ([], w)).2.1.
Proof.
  eapply (holds_run learns safe handler _ _ (fun _ _ => True)). unfold runAmmFlow. eapply holds_bind; [apply quiet_balances|]. intros initial k1 _.
  apply holds_verdict. intros _ _. eapply holds_bind; [apply verify_ready|]. intros preflight k2 Hk2.
  eapply holds_mono; [refine ((_ : steady _) k2 Hk2); steadily|done].
Qed.
End flow.
