(* ===== verification/AmmFlowExamples.v ===== *)
(** * AMM integration: a concrete run

    A chain that answers as the run expects: libraries that read one number per
    account, and balances as the steps of the run leave them. *)
From S2P Require Import Prelude Js Utf8 TxBytes TxArith TxQuotes TxAccounts TxIdentity Json Programs IssuerSchema AmmAccounting AmmGuards AmmFlow AmmFlowProps.
Open Scope Z_scope.

Definition fx_key (n : Z) : PublicKey := repeat n 32.
Definition fx_config : AmmConfig := MkAmmConfig false 0 2500 120000 40000 150000000 0 [].
Definition fx_find (seeds : list bytes) (_ : PublicKey) : TxBytes.res (PublicKey * Z) := Ok (concat seeds, 255).
Definition fx_token_address (mint owner : PublicKey) (_ : bool) (_ : PublicKey) : TxBytes.res PublicKey := Ok (mint ++ owner).
Definition fx_signers : FlowSigners := MkFlowSigners (fx_key 1) (fx_key 2) (fx_key 3) (fx_key 4) (fx_key 5) (Some (fx_key 6)).
Definition fx_series : AnnualSeriesAddresses :=
  match annualSeriesAddresses fx_find fx_token_address [] (fx_key 7) (fx_key 5) SERIES_YEAR [] with
  | Ok a => a
  | Err _ => AnnualAddresses [] [] [] [] [] [] []
  end.
Definition fx_drIsA : bool := lex_lt (aa_drMint fx_series) (fx_key 6).
Definition fx_amount (a : AmmAccount) : option Z := head (ac_data a).
Definition fx_env : amm_platform := MkAmmPlatform
  text
  (fun l => if bool_decide (l = [1]) then DIVIDENDX_ELF_SHA256 else RAYDIUM_CAPTURED_ELF_SHA256)
  (fun address a _ => z ← fx_amount a;
     Some (MkMintState (if bool_decide (address = fx_key 6) then 6 else 8) z true (Some (aa_series fx_series)) None true))
  (fun _ a _ => z ← fx_amount a; Some (MkTokenState (text "So11111111111111111111111111111111111111112") [] z true false true))
  (fun mint owner _ => mint ++ owner)
  (repeat 0 8) (fun _ => Some fx_config) (text "5MxLgy9oPdTC3YgkiePHqr3EoCRD9uLVYRQS2ANAs7wy") 226.
Definition fx_pool_data (data : bytes) : option pool_layout :=
  match data with
  | [lpAmount; protocol; fund] =>
      let quoteFees := (protocol, fund, 0) in
      Some (MkPoolLayout [52] [53] [51] (if fx_drIsA then aa_drMint fx_series else fx_key 6) (if fx_drIsA then (0, 0, 0) else quoteFees)
              (if fx_drIsA then quoteFees else (0, 0, 0)) lpAmount)
  | _ => None
  end.
Definition fx_curve (_ _ _ _ _ _ _ : Z) (_ : bool) : CurveResult := Curve 20000000 906000000 50000 1 1 0.
Definition fx_manifest : ExecutionManifest :=
  MkManifest mode_local (text "http://127.0.0.1:18899/") (text "local") (text "admin") (repeat 49 64) DIVIDENDX_ELF_SHA256 RAYDIUM_CAPTURED_ELF_SHA256
    250000000 1500000000.

(** ** Balances *)

Definition fx_balances (providerStock providerDr buyerDr poolDr providerQuote buyerQuote poolQuote fees lp internal : Z) : AssetBalances :=
  let claims := 10 ^ 10 - providerStock in
  Balances (Collateral providerStock claims (10 ^ 10)) (Pt claims 0 claims) (Dr providerDr buyerDr (PoolTok poolDr 0 0 0) 0 claims)
    (Quote providerQuote buyerQuote (PoolTok poolQuote fees fees 0) 0 220000000 None) (Lp lp lp internal).
Definition fx_states : list AssetBalances :=
  let total := 1414213562 in
  let residualDr := (100 * 9094000000 + total - 1) / total in
  let residualQuote := (100 * 219999998 + total - 1) / total + 2 in
  let recovered := 9094000000 - residualDr in
  [fx_balances 0 6000000000 0 4000000000 120000000 20000000 80000000 0 565685324 565685424;
   fx_balances 0 0 0 (10 ^ 10) 0 20000000 200000000 0 (total - 100) total;
   fx_balances 0 0 906000000 9094000000 0 0 220000000 1 (total - 100) total;
   fx_balances 0 recovered 906000000 residualDr (220000000 - residualQuote) 0 residualQuote 1 0 100;
   fx_balances recovered 0 906000000 residualDr (220000000 - residualQuote) 0 residualQuote 1 0 100].
Definition fx_account (owner : PublicKey) (data : bytes) : option AmmAccount := Some (MkAmmAccount true owner data).
Definition fx_infos (b : AssetBalances) : list (option AmmAccount) :=
  let one z := fx_account [] [z] in
  let drVault := poolVault (dr_pool (dr b)) in
  let quoteVault := poolVault (qt_pool (testQuote b)) in
  [one (col_provider (collateral b)); one (col_vault (collateral b)); one (pt_provider (pt b)); one (dr_provider (dr b)); one (dr_buyer (dr b));
   one (qt_provider (testQuote b)); one (qt_buyer (testQuote b)); one (if fx_drIsA then drVault else quoteVault);
   one (if fx_drIsA then quoteVault else drVault); one (col_supply (collateral b)); one (pt_supply (pt b)); one (dr_supply (dr b));
   one (qt_supply (testQuote b)); one (lp_mintSupply (lp b)); one (lp_provider (lp b));
   fx_account (RAYDIUM_CPMM_PROGRAM_ID fx_env)
     [internalPoolLpAmount (lp b); poolProtocolFees (qt_pool (testQuote b)); poolFundFees (qt_pool (testQuote b))]].

(** ** The chain: how many requests for few and for many accounts it answered *)

Definition fx_few (n : nat) : list (option AmmAccount) :=
  match n with
  | 1%nat => [None; None; None; None]
  | 2%nat => fx_account (TOKEN_2022_PROGRAM fx_env) [0] :: repeat (fx_account (TOKEN_PROGRAM fx_env) [0]) 3
  | _ => [fx_account (BPF_LOADER_UPGRADEABLE fx_env) ([2; 0; 0; 0] ++ fx_key 8); fx_account (BPF_LOADER fx_env) [2];
          fx_account (RAYDIUM_CPMM_PROGRAM_ID fx_env) (repeat 0 236); fx_account (TOKEN_PROGRAM fx_env) [0]]
  end.
Definition fx_now : Z := 1780272000.
Definition fx_snapshot : CoherentQuoteSnapshot :=
  QuoteSnapshot 20 (Clock 20 0 0 0 fx_now 20)
    (Policy [10] (fx_key 5) 8 0 true 0 (fx_now + 7200) [1] (Scale 0 0 0 0) [] true)
    (Series [1] [2] [3] [4] [5] [6] 2027 9 1798761600 1830297600 TxQuotes.open (10 ^ 10) 0 0 0 4 [7] [7] 0 0 0 0 0 0 0 0)
    (Accumulator [10] [1] 0 [] []) (Profile 8 0 (Scale 0 0 0 0) [7] true) (10 ^ 10) (Some (10 ^ 10)) (Some (10 ^ 10)) (Some (10 ^ 10)).
Definition fx_chain (e : amm_event) (w : nat * nat) : amm_answer e * (nat * nat) :=
  match e return amm_answer e * (nat * nat) with
  | GenesisHash => (Ok (text "local"), w)
  | Accounts l =>
      if Nat.eqb (length l) 4 then (Ok (1, fx_few w.1), (S w.1, w.2))
      else (Ok (1, fx_infos (default (fx_balances 0 0 0 0 0 0 0 0 0 0) (fx_states !! w.2))), (w.1, S w.2))
  | Account p =>
      (Ok (if bool_decide (p = fx_key 8) then fx_account (BPF_LOADER_UPGRADEABLE fx_env) ([3; 0; 0; 0] ++ repeat 0 8 ++ [1] ++ fx_key 9 ++ [1]) else None), w)
  | Balance _ => (Ok 2000000000, w)
  | RentExemption _ => (Ok 1, w)
  | ReadClock => (Ok (Clock 20 0 0 0 fx_now 20), w)
  | ReadConfig _ => (Err (Refused "unused"), w)
  | ReadQuoteSnapshot _ _ => (Ok fx_snapshot, w)
  | LatestBlockhash | LoadRaydium _ | RefreshWallet | Publish _ => (Ok tt, w)
  | Wait => (tt, w)
  | Simulate _ | ConfirmSignature _ => (Ok false, w)
  | SendRaw _ => (Ok "signature"%string, w)
  | SignatureStatus _ => (Ok (Some (MkSignatureStatus 7 false (Some false))), w)
  | Raydium _ =>
      (Ok ([(RAYDIUM_CPMM_PROGRAM_ID fx_env, BASE_INPUT_DISCRIMINATOR ++ le_bytes 8 20000000 ++ le_bytes 8 901470000)], [],
           MkPoolAddresses [50] [51] [52] [53]), w)
  | PoolInfo _ =>
      (Ok (MkPoolInfo (RAYDIUM_CONFIG fx_env) (if fx_drIsA then aa_drMint fx_series else fx_key 6) (if fx_drIsA then fx_key 6 else aa_drMint fx_series)
             false 0 (10 ^ 10) 200000000), w)
  end.
Definition fx_run := run (traced fx_chain)
  (runAmmFlow fx_env (fun _ => fx_key 9) fx_pool_data id (fun _ => fx_key 7) fx_find fx_token_address fx_curve fx_manifest fx_signers mock_quote) ([], (0%nat, 0%nat)).
Definition fx_names : list string := match fx_run.1 with Ok r => sr_name <$> fr_transactions r | Err _ => [] end.
Example amm_run_steps : fx_names =
  ["initialize_dividendx_config"; "create_test_collateral_mint"; "create_worthless_test_quote_mint"; "register_test_asset";
   "refresh_test_asset_observation"; "create_2027_series"; "create_provider_token_accounts"; "create_buyer_token_accounts"; "deposit_100_test_stock";
   "create_cpmm_pool"; "add_cpmm_liquidity"; "buyer_swap_quote_for_dr"; "withdraw_all_provider_lp"; "recombine_recovered_dr_with_pt"]%string.
Proof. by vm_compute. Qed.
Example amm_receipt_witness :
  match fx_run.1 with
  | Ok r => exists seeded added swapped withdrawn recombined, receipt_ok r seeded added swapped withdrawn recombined
  | Err _ => False
  end.
Proof.
  destruct fx_run as [[r|code] [t w']] eqn:Hrun; [|by vm_compute in Hrun].
  exact (amm_receipt_sound fx_env (fun _ => fx_key 9) fx_pool_data id (fun _ => fx_key 7) fx_find fx_token_address fx_curve fx_chain (0%nat, 0%nat)
           fx_manifest fx_signers mock_quote r t w' Hrun).
Defined.
