(* ===== verification/IssuerExamples.v ===== *)
(** * Issuer readers: a concrete issuer

    Issuers that answer for one stock with a registry and a history of two
    pages, with [Date.parse] and comparison by locale as simple functions. *)
From S2P Require Import Prelude Js TxBytes Utf8 Json Programs IssuerSchema IssuerTransport IssuerXstocks IssuerXstocksProps.
From S2P Require Import IssuerBackpack IssuerOndo IssuerReader IssuerReaderProps OndoChecker OndoCheckerProps.
Open Scope Z_scope.

Definition ix_parse (s : js_string) : option Z := Some (len s).
Definition ix_asset : SelectedAsset := frozen_asset (xstocks, "KOx", "KO", "XsaBXg8dU5cPM6ehmVctMkVqoiRG2ZjMo1cyBJ3AykQ", 8)%string.
Definition ix_obj (l : list (string * json)) : json := JObj (prod_map text id <$> l).
Definition ix_str (s : string) : json := JStr (text s).
Definition ix_registry : json := ix_obj [
  ("id", ix_str "1"); ("symbol", ix_str "KOx"); ("isin", ix_str "CH1"); ("underlying", JNull); ("isTradingHalted", JBool false);
  ("deployments", JArr [ix_obj [("network", ix_str "Ethereum")];
                        ix_obj [("network", ix_str "Solana"); ("address", JStr (mint ix_asset))]])]%string.
Definition ix_node (id : string) (version : Z) (new : string) : json := ix_obj [
  ("xstockSymbol", ix_str "KOx"); ("spvSymbol", ix_str "KO"); ("xstockIsin", ix_str "CH1"); ("spvIsin", ix_str "US1");
  ("eventId", ix_str id); ("version", JNum (Int version)); ("caType", ix_str "DIVIDEND"); ("status", ix_str "EXECUTED");
  ("multiplierOld", ix_str "1.01"); ("multiplierNew", ix_str new); ("createdTimeUtc", ix_str "2025-01-02T03:04:05Z");
  ("effectiveTimeUtc", ix_str "2025-01-02T03:04:05Z"); ("grossCashflowUsd", JNull); ("netCashflowUsd", JNull);
  ("withholdingTaxRate", JNull); ("fromUnits", JNull); ("toUnits", JNull); ("redemptionPriceUsd", JNull); ("notes", JNull)]%string.
Definition ix_page (number pages total : Z) (nodes : list json) : json := ix_obj [
  ("page", ix_obj [("currentPage", JNum (Int number)); ("pageSize", JNum (Int 2)); ("totalPages", JNum (Int pages)); ("totalNodes", JNum (Int total));
                   ("hasNextPage", JBool (number <? pages)%Z); ("hasPreviousPage", JBool (1 <? number)%Z)]); ("nodes", JArr nodes)]%string.
Definition ix_answer (v : json) : res (RequestObservation * option json) :=
  Ok (MkObservation (text "/") (text "2026-01-01T00:00:00.000Z") (Some 200) (Some (text "digest")) None, Some v).
Definition ix_issuer (e : event) (w : unit) : answer e * unit :=
  (match e return answer e with
   | ObserveRegistry _ => ix_answer ix_registry
   | ObserveHistory _ 1 => ix_answer (ix_page 1 2 3 [ix_node "a" 0 "1.02"; ix_node "a" 1 "1.03"]%string)
   | ObserveHistory _ _ => ix_answer (ix_page 2 2 3 [ix_node "b" 0 "1.04"]%string)
   | ObserveBackpack => Err "request_failed"%string
   | LoadOndoTransport => Ok tt
   | LoadOndoKey => Err "ondo_api_key_missing"%string
   | ObserveOndo _ => Err "request_failed"%string
   | Now => text "2026-01-01T00:00:00.000Z"
   end, w).
Definition ix_run (maxPages : nat) := run (traced ix_issuer) (readXstocks ix_parse js_leb (fun _ => []) maxPages [ix_asset]) ([], tt).
Definition ix_report (maxPages : nat) : XstocksReport := match (ix_run maxPages).1 with Ok r => r | Err _ => MkReport issuer_failed [] [] None end.

(** With one page allowed, the same history is partial. *)
Example ix_limit : xr_state (ix_report 1) = issuer_partial. Proof. by vm_compute. Qed.
Example xstocks_report_witness :
  report_ok ix_parse js_leb (ix_run XSTOCKS_MAX_PAGES).2.1 XSTOCKS_MAX_PAGES [ix_asset] (ix_report XSTOCKS_MAX_PAGES) /\
  xr_state (ix_report XSTOCKS_MAX_PAGES) = issuer_observed /\
  (match xr_assets (ix_report XSTOCKS_MAX_PAGES) with
   | [o] => match xo_corporateActions o with Complete h => sourceVersion <$> hs_latestObservedHeads h | _ => [] end
   | _ => [] end) = [1; 0].
Proof.
  split; [|by vm_compute].
  apply (xstocks_report_ok ix_parse js_leb (fun _ => []) ix_issuer XSTOCKS_MAX_PAGES [ix_asset] tt (ix_report XSTOCKS_MAX_PAGES)
           (ix_run XSTOCKS_MAX_PAGES).2.1 (ix_run XSTOCKS_MAX_PAGES).2.2).
  by vm_compute.
Defined.

Definition ix_revision (id : string) (version : Z) (digest : string) : XstocksEventRevision :=
  MkRevision (text id) version (text "KOx") (text "CH1") (text "KO") (text "US1") (text "DIVIDEND") (text "EXECUTED") (text "1") (text "1.01")
    (text "2025-01-02T03:04:05Z") (text "2025-01-02T03:04:05Z") None None None None None None None (text digest).
Definition ix_input : list XstocksEventRevision := [ix_revision "a" 0 "1"; ix_revision "a" 1 "1"; ix_revision "a" 1 "2"; ix_revision "b" 7 "2"]%string.
Example xstocks_order_witness :
  match reduceXstocksRevisions js_leb ix_input, reduceXstocksRevisions js_leb (reverse ix_input) with
  | Ok h, Ok h' =>
      semanticRevision js_leb <$> hs_records h ≡ₚ semanticRevision js_leb <$> hs_records h' /\
      semanticRevision js_leb <$> hs_latestObservedHeads h ≡ₚ semanticRevision js_leb <$> hs_latestObservedHeads h'
  | Err code, Err code' => code = code'
  | _, _ => False
  end /\ is_ok (reduceXstocksRevisions js_leb ix_input) = true.
Proof. split; [apply (xstocks_order_immaterial js_leb ix_input (reverse ix_input)); by rewrite reverse_Permutation|by vm_compute]. Defined.

(** ** All issuers *)

(** Backpack does not answer, and Ondo refuses the second request. *)
Definition rx_addresses : json := JArr [].
Definition rx_issuer (e : event) (w : unit) : answer e * unit :=
  (match e return answer e with
   | ObserveOndo path =>
       if bool_decide (path = text "/v1/status/assets") then Ok (MkOndoObserved (MkObservation path (text "now") (Some 429) None (Some "http_status"%string)) None)
       else Ok (MkOndoObserved (MkObservation path (text "now") (Some 200) (Some (text "digest")) None) (Some (Some rx_addresses)))
   | e => (ix_issuer e w).1
   end, w).
Definition rx_run := run (traced rx_issuer)
  (readSelectedIssuers ix_parse js_leb (fun _ => []) 2025 None (Some [text "KOx"; text "MU.US"; text "KOon"; text "MUon"]) true (Some (text "key"))) ([], tt).
Definition rx_report : IssuerReadReport := match rx_run.1 with Ok r => r | Err _ => MkReadReport 0 [] [] [] [] end.
Example issuer_reading_witness :
  (refusals_final rx_run.2.1 /\ covers rx_report) /\ length (List.filter (fun x => bool_decide (asks x = Some ondo)) rx_run.2.1) = 2%nat /\
  group_issuer <$> ir_issuers rx_report = [xstocks; backpack; ondo].
Proof.
  split; [|split; by vm_compute].
  apply (issuer_reading_ok ix_parse js_leb (fun _ => []) rx_issuer tt 2025 None (Some [text "KOx"; text "MU.US"; text "KOon"; text "MUon"]) true
           (Some (text "key")) rx_report rx_run.2.1 rx_run.2.2).
  by vm_compute.
Defined.
Definition rx_assets : list SelectedAsset := grouped SELECTED_ASSETS ondo.
Definition rx_ondo := run (traced rx_issuer) (readOndo ix_parse rx_assets) ([], tt).
Definition rx_ondo_report : OndoReport := match rx_ondo.1 with Ok r => r | Err _ => MkOndoReport issuer_failed [] [] None end.
Example ondo_requests_witness :
  (Forall2 recorded_as (ondo_answers rx_ondo.2.1) (or_requests rx_ondo_report) /\ oo_asset <$> or_assets rx_ondo_report = rx_assets /\
   (Z.of_nat (length (ondo_answers rx_ondo.2.1)) + saved (or_stopped rx_ondo_report) = 2 + remaining rx_assets \/
    (or_stopped rx_ondo_report = None /\ length (ondo_answers rx_ondo.2.1) = 1%nat /\ or_state rx_ondo_report = issuer_failed))) /\
  or_stopped rx_ondo_report = Some (MkStoppedRequests "issuer_rate_limited" 12) /\ length (ondo_answers rx_ondo.2.1) = 2%nat.
Proof.
  split; [|by vm_compute].
  apply (ondo_requests_accounted ix_parse rx_issuer tt rx_assets rx_ondo_report rx_ondo.2.1 rx_ondo.2.2). by vm_compute.
Defined.

(** ** One request *)

Definition tx_response : response := MkResponse 200 false (text "https://a/b") (Some (text "3")) (Some [Some [1; 2]; Some [3]]).
Definition tx_parse (l : bytes) : option json := if bool_decide (l = [1; 2; 3]) then Some (JBool true) else None.
Definition tx_observed : RequestObservation := MkObservation (text "/b") (text "now") (Some 200) (Some (text "sha256:" ++ text "d")) None.
Example observation_witness :
  (true = true /\ observed_from (fun _ => text "d") tx_parse (text "https://a/b") PUBLIC_MAX_BYTES (Fetched tx_response) tx_observed (Some (JBool true))) /\
  readBody tx_response 2 = Err "response_too_large"%string.
Proof.
  split; [|by vm_compute].
  apply (observation_sound (fun _ => text "d") tx_parse true (text "https://a/b") (text "/b") PUBLIC_MAX_BYTES (Fetched tx_response) (text "now"));
    [by vm_compute|by vm_compute].
Defined.

(** ** Ondo's checker *)

Definition ox_url (base : option js_string) (e : js_string) : option url := Some (plain_url e).
Example reader_endpoints_witness :
  let r := run (traced rx_issuer) (readOndo ix_parse (grouped SELECTED_ASSETS ondo)) ([], tt) in
  exists report, r.1 = Ok report /\ asked r.2.1 = COMMON_ENDPOINTS /\
    asked r.2.1 `prefix_of` endpoints_of (symbol <$> grouped SELECTED_ASSETS ondo) /\ length (asked r.2.1) = length (or_requests report) /\
    Forall (fun e => exists u, assertAllowedUrl ox_url (inr e) = Ok u /\ exact_endpoint u = e) (asked r.2.1).
Proof.
  eexists. split; [by vm_compute|]. split; [by vm_compute|].
  eapply (reader_asks_listed ix_parse rx_issuer tt ox_url (grouped SELECTED_ASSETS ondo)); [done| |by vm_compute].
  by apply (bool_decide_unpack _); vm_compute.
Defined.

Definition ox_resolve (s : js_string) : path := List.filter (fun p => negb (bool_decide (p = []))) (split_comma ((fun u => if u =? 47 then 44 else u) <$> s)).
Definition ox_parse (s : js_string) : option json :=
  if bool_decide (s = text "[]") then Some (JArr []) else if bool_decide (s = text "4") then Some (JNum (Int 4)) else None.
(** [reflected]: the body of an answer to a request for dividends. *)
Definition ox_world (reflected : string) (e : checker_event) (w : unit) : checker_answer e * unit :=
  (match e return checker_answer e with
   | ReadFile _ => Some (text "ONDO_API_KEY=' sekret '")
   | Realpath p => RealAt p
   | MakeDirectory _ | WriteRaw _ _ | WriteReport _ _ => true
   | IsDirectory _ => Some true
   | FetchWithKey u _ =>
       let body := text (if captures_symbol "/dividends" u then reflected else "[]") in
       (Fetched (MkResponse 200 false (u_href u) None (Some [Some body])), true)
   | Clock => text "2026-01-01T00:00:00.000Z"
   | Stdout _ => tt
   end, w).
Definition ox_run (reflected : string) (argv : list string) :=
  run (traced (ox_world reflected))
    (main (fun base s => Some (plain_url (if bool_decide (take (length ONDO_ORIGIN) s = ONDO_ORIGIN) then drop (length ONDO_ORIGIN) s else s)))
       (fun _ => Some (Some (text " sekret "))) (fun _ => []) Some ox_parse ox_resolve (text <$> argv) (text "/home/divx")) ([], tt).
Definition ox_writes (reflected : string) (argv : list string) : list (js_string + js_string) :=
  omap (fun x : {e : checker_event & checker_answer e} => match projT1 x with
        | WriteRaw p _ => Some (inl (List.last p []))
        | WriteReport name _ => Some (inr name)
        | _ => None end) (ox_run reflected argv).2.1.
Definition ox_argv : list string := ["--symbols=KOon,MUon"; "--raw-dir"; "/tmp/raw"; "--output=/tmp/report.json"]%string.
Example checker_writes : (ox_run "4" ox_argv).1 = Ok 0 /\
  ox_writes "4" ox_argv = [inl (text "001-assets-all-addresses.json"); inl (text "002-status-assets.json");
    inl (text "003-assets-KOon-shares-multiplier-range-all.json"); inl (text "004-assets-KOon-dividends.json");
    inl (text "005-assets-MUon-shares-multiplier-range-all.json"); inl (text "006-assets-MUon-dividends.json"); inr (text "/tmp/report.json")].
Proof. by vm_compute. Qed.
(** An answer that shows the key is not written, and ends the run. *)
Example checker_stops : (ox_run "sekret?" ox_argv).1 = Ok 1 /\ length (ox_writes "sekret?" ox_argv) = 4%nat.
Proof. by vm_compute. Qed.
(** A directory below the repository is refused before anything is sent. *)
Example checker_refuses : ox_run "4" ["--raw-dir=/home/divx/raw"]%string =
  (Err "raw_directory_inside_repository"%string, ([existT (ReadFile DEFAULT_ENV_FILE) (Some (text "ONDO_API_KEY=' sekret '"))], tt)).
Proof. by vm_compute. Qed.
