(* ===== verification/QualificationSchema.v ===== *)
(** * Issuer readers: what a qualification accepts

    [packages/issuer-readers/src/qualification-schema.ts] and the types of
    [qualification-types.ts] it fills: the report of an observation and the
    supplement of a researcher, read back from their files and checked value by
    value.  The URL parser and [Date.parse] are parameters. *)
From S2P Require Import Prelude Js Utf8 Json IssuerSchema IssuerXstocks.
Open Scope Z_scope.

Definition QUALIFICATION_MAX_FILE_BYTES : Z := 8 * 1024 * 1024.
Definition QUALIFICATION_MAX_ASSETS : Z := 15.
Definition QUALIFICATION_MAX_SOURCE_RECORDS : Z := 10000.
Definition QUALIFICATION_MAX_SUPPLEMENT_ITEMS : Z := 100.

(** [/^[0-9a-f]{64}$/] *)
Definition SHA256 (s : js_string) : bool := (len s =? 64) && forallb (fun u => between 48 57 u || between 97 102 u) s.
Definition sha256 (v : option json) : res js_string :=
  s ← str v "malformed_digest"; check (SHA256 s) "malformed_digest" ;; Ok s.
Definition sourceDigest (v : option json) : res js_string :=
  s ← str v "malformed_digest";
  check (bool_decide (take 7 s = text "sha256:") && SHA256 (drop 7 s)) "malformed_digest" ;; Ok s.
Definition nullableString (v : option json) (code : string) : res (option js_string) := nullable (fun v => str v code) v.
Definition each_string (v : option json) (code : string) : res unit :=
  l ← array v code; foldM (fun _ item => str (Some item) code ;; Ok tt) tt l.

Definition asset_matches (frozen : SelectedAsset) (i u m : js_string) (d : Z) (p c : js_string) : bool :=
  bool_decide (issuer_text (issuerId frozen) = i) && bool_decide (underlying frozen = u) && bool_decide (mint frozen = m)
  && (decimals frozen =? d) && bool_decide (tokenProgram frozen = p) && bool_decide (chain frozen = c).
Definition catalog_asset (s : js_string) : option SelectedAsset := List.find (fun asset => bool_decide (symbol asset = s)) SELECTED_ASSETS.
Definition exactAsset (v : option json) : res SelectedAsset :=
  let code := "malformed_selected_asset"%string in
  row ← object v code;
  i ← str (own row "issuerId") code;
  s ← str (own row "symbol") code;
  u ← str (own row "underlying") code;
  m ← str (own row "mint") code;
  d ← integer (own row "decimals") code;
  p ← str (own row "tokenProgram") code;
  c ← str (own row "chain") code;
  match catalog_asset s with
  | Some frozen => check (asset_matches frozen i u m d p c) "catalog_identity_mismatch" ;; Ok frozen
  | None => Err "catalog_identity_mismatch"
  end.

Definition one_of (names : list string) (s : js_string) : bool := existsb (fun n => bool_decide (s = text n)) names.
(** A component with its state. *)
Definition component (v : option json) (code : string) : res (list (js_string * json) * js_string) :=
  row ← object v code;
  state ← str (own row "state") code;
  check (one_of ["observed"; "partial"; "failed"; "unavailable"; "skipped"] state) code ;;
  (if one_of ["observed"; "partial"] state then check (Json.has row "value") code else str (own row "code") code ;; Ok tt) ;;
  Ok (row, state).
Definition malformed_component : string := "malformed_component".
Definition has_value (state : js_string) : bool := one_of ["observed"; "partial"] state.
Definition is_observed (state : js_string) : bool := one_of ["observed"] state.
Definition empty_text (s : js_string) : bool := bool_decide (s = []).

Section schema.
Context (Date_parse : js_string -> option Z).

Definition eventRevision (v : json) : res XstocksEventRevision :=
  let code := "malformed_event_revision"%string in
  row ← object (Some v) code;
  eventId ← str (own row "eventId") code;
  sourceVersion ← integer (own row "sourceVersion") code;
  symbol ← str (own row "symbol") code;
  xstockIsin ← str (own row "xstockIsin") code;
  spvSymbol ← str (own row "spvSymbol") code;
  spvIsin ← str (own row "spvIsin") code;
  action ← str (own row "action") code;
  status ← str (own row "status") code;
  multiplierOld ← positive_exact (own row "multiplierOld");
  multiplierNew ← positive_exact (own row "multiplierNew");
  createdTime ← timestamp Date_parse (own row "createdTime") code;
  effectiveTime ← timestamp Date_parse (own row "effectiveTime") code;
  gross ← nullable exact (own row "grossCashflowUsd");
  net ← nullable exact (own row "netCashflowUsd");
  tax ← nullable exact (own row "withholdingTaxRate");
  from ← nullable exact (own row "fromUnits");
  to ← nullable exact (own row "toUnits");
  redemption ← nullable exact (own row "redemptionPriceUsd");
  notes ← nullableString (own row "notes") code;
  digest ← sourceDigest (own row "sourceDigest");
  check (negb (empty_text eventId || (sourceVersion <? 0) || negb (is_null (own row "officialExDate"))
               || negb (is_null (own row "settlementClassification")) || negb (is_false (own row "sourceFinalityAttested")))) code ;;
  Ok (MkRevision eventId sourceVersion symbol xstockIsin spvSymbol spvIsin action status multiplierOld multiplierNew createdTime effectiveTime
        gross net tax from to redemption notes digest).

(** One operand of the [||] that compares a claimed identity with the asset. *)
Definition same_string (v : option json) (expected : js_string) : res unit :=
  s ← str v "malformed_schema"; check (bool_decide (s = expected)) "observed_identity_mismatch".
Definition validateIdentity (v : option json) (asset : SelectedAsset) : res js_string :=
  let code := "malformed_identity_component"%string in
  '(part, state) ← component v code;
  if negb (is_observed state) then Ok state
  else
    identity ← object (own part "value") code;
    same_string (own identity "issuerId") (issuer_text (issuerId asset)) ;;
    same_string (own identity "chain") (chain asset) ;;
    same_string (own identity "symbol") (symbol asset) ;;
    same_string (own identity "expectedMint") (mint asset) ;;
    same_string (own identity "observedMint") (mint asset) ;;
    matches ← bool_of (own identity "mintMatches") "malformed_schema";
    check matches "observed_identity_mismatch" ;;
    expected ← integer (own identity "expectedDecimals") "malformed_schema";
    check (expected =? decimals asset) "observed_identity_mismatch" ;;
    same_string (own identity "expectedTokenProgram") (tokenProgram asset) ;;
    observedDecimals ← nullable (fun v => integer v code) (own identity "observedDecimals");
    reobserved ← bool_of (own identity "decimalsReobserved") code;
    decimalsMatch ← nullable (fun v => bool_of v code) (own identity "decimalsMatch");
    check (negb ((reobserved && (negb (bool_decide (observedDecimals = Some (decimals asset))) || negb (bool_decide (decimalsMatch = Some true))))
                 || (negb reobserved && (bool_decide (is_Some observedDecimals) || bool_decide (is_Some decimalsMatch)))
                 || negb (is_null (own identity "observedTokenProgram")) || negb (is_false (own identity "tokenProgramReobserved"))))
      "observed_identity_mismatch" ;;
    Ok state.

(** ** The report of an observation *)

Record RegistryClaim := MkRegistryClaim { rc_isin : js_string; rc_underlyingSymbol : js_string; rc_underlyingIsin : js_string }.
Record ValidatedXstocksAsset := MkXstocksAsset {
  va_registry : RegistryClaim; va_records : list XstocksEventRevision; va_componentState : js_string; va_successfulRequestDigests : list js_string;
}.
Record SourceRequest := MkSourceRequest { sr_retrievedAt : js_string; sr_dataDigest : option js_string }.
Record ValidatedObservation := MkValidated {
  vo_startedAt : js_string; vo_completedAt : js_string; vo_selected : list SelectedAsset; vo_identityStates : list (js_string * js_string);
  vo_xstocks : list (js_string * ValidatedXstocksAsset); vo_requestObservations : list SourceRequest;
}.
(** What the loop over the issuers has gathered. *)
Record gathered := MkGathered {
  seenIssuers : list IssuerId; seenAssets : list js_string; stoppedIssuers : list IssuerId; g_xstocks : list (js_string * ValidatedXstocksAsset);
  requestObservations : list SourceRequest; sourceRecords : Z; identityStates : list (js_string * js_string);
}.
Definition see_issuer (i : IssuerId) (stopped : bool) (g : gathered) : gathered :=
  MkGathered (seenIssuers g ++ [i]) (seenAssets g) (stoppedIssuers g ++ if stopped then [i] else []) (g_xstocks g) (requestObservations g)
    (sourceRecords g) (identityStates g).
Definition count_records (n : Z) (g : gathered) : gathered :=
  MkGathered (seenIssuers g) (seenAssets g) (stoppedIssuers g) (g_xstocks g) (requestObservations g) (sourceRecords g + n) (identityStates g).
Definition push_request (r : SourceRequest) (g : gathered) : gathered :=
  MkGathered (seenIssuers g) (seenAssets g) (stoppedIssuers g) (g_xstocks g) (requestObservations g ++ [r]) (sourceRecords g) (identityStates g).
Definition see_asset (s state : js_string) (g : gathered) : gathered :=
  MkGathered (seenIssuers g) (seenAssets g ++ [s]) (stoppedIssuers g) (g_xstocks g) (requestObservations g) (sourceRecords g)
    (identityStates g ++ [(s, state)]).
Definition set_xstocks (s : js_string) (a : ValidatedXstocksAsset) (g : gathered) : gathered :=
  MkGathered (seenIssuers g) (seenAssets g) (stoppedIssuers g) (om_set (g_xstocks g) s a) (requestObservations g) (sourceRecords g) (identityStates g).

Definition optional_integer (v : option json) (code : string) : res unit :=
  match v with None => Ok tt | Some _ => integer v code ;; Ok tt end.
(** Whether the group was stopped. *)
Definition issuer_stop (v : option json) : res bool :=
  let code := "malformed_issuer_stop"%string in
  if is_null v then Ok false
  else
    stopped ← object v code;
    str (own stopped "code") code ;;
    optional_integer (own stopped "remainingRequestsSkipped") code ;;
    optional_integer (own stopped "remainingSelectedAssetsSkipped") code ;;
    Ok true.
Definition is_success (status : option json) : bool := match status with Some (JNum (Int z)) => (200 <=? z) && (z <? 300) | _ => false end.
(** One request, and its digest if it succeeded. *)
Definition source_request (v : json) : res (SourceRequest * list js_string) :=
  let code := "malformed_source_record"%string in
  request ← object (Some v) code;
  str (own request "endpoint") code ;;
  retrievedAt ← timestamp Date_parse (own request "retrievedAt") code;
  nullable (fun v => integer v code) (own request "status") ;;
  digest ← nullable sourceDigest (own request "dataDigest");
  nullableString (own request "error") code ;;
  Ok (MkSourceRequest retrievedAt digest, if is_success (own request "status") then option_list digest else []).
Definition source_requests (g : gathered) (l : list json) : res (gathered * list js_string) :=
  foldM (fun acc v => '(r, ds) ← source_request v; Ok (push_request r acc.1, acc.2 ++ ds)) (count_records (Z.of_nat (length l)) g, []) l.

Definition registry_claim (state : js_string) (asset : SelectedAsset) (part : list (js_string * json)) : res RegistryClaim :=
  let code := "malformed_registry_component"%string in
  if is_observed state then
    observed ← object (own part "value") code;
    un ← object (own observed "underlying") code;
    isin ← str (own observed "isin") code;
    s ← str (own un "symbol") code;
    i ← str (own un "isin") code;
    check (bool_decide (s = underlying asset)) "observed_identity_mismatch" ;;
    Ok (MkRegistryClaim isin s i)
  else Ok (MkRegistryClaim [] [] []).
Definition refuse_attested (row : list (js_string * json)) : res unit :=
  check (is_false (own row "annualCoverageAttested") && is_false (own row "zeroDividendYearEstablished")) "readiness_assertion_refused".
Definition event_matches (registry : RegistryClaim) (asset : SelectedAsset) (r : XstocksEventRevision) : bool :=
  bool_decide (r_symbol r = symbol asset)
  && (empty_text (rc_isin registry)
      || (bool_decide (xstockIsin r = rc_isin registry) && bool_decide (spvSymbol r = rc_underlyingSymbol registry)
          && bool_decide (spvIsin r = rc_underlyingIsin registry))).
Definition xstocks_asset (detail : list (js_string * json)) (asset : SelectedAsset) (digests : list js_string) (g : gathered) : res gathered :=
  let code := "malformed_event_component"%string in
  '(registryPart, registryState) ← component (own detail "registry") malformed_component;
  '(actionPart, actionState) ← component (own detail "corporateActions") malformed_component;
  registry ← registry_claim registryState asset registryPart;
  if has_value actionState then
    action ← object (own actionPart "value") code;
    rows ← array (own action "records") code;
    records ← mapM eventRevision rows;
    fullyFetched ← bool_of (own action "fullyFetched") code;
    refuse_attested action ;;
    check (forallb (event_matches registry asset) records) "observed_event_identity_mismatch" ;;
    Ok (set_xstocks (symbol asset)
          (MkXstocksAsset registry records (if (fullyFetched : bool) then actionState else text "partial") digests)
          (count_records (Z.of_nat (length records)) g))
  else Ok (set_xstocks (symbol asset) (MkXstocksAsset registry [] actionState digests) g).
Definition backpack_asset (detail : list (js_string * json)) (g : gathered) : res gathered :=
  event ← object (own detail "corporateActions") "malformed_event_component";
  check (is_text (own event "state") "unavailable" && is_false (own event "annualCoverageAttested") && is_false (own event "zeroDividendYearEstablished"))
    "malformed_event_component" ;;
  Ok g.
Definition ondo_asset (detail : list (js_string * json)) (g : gathered) : res gathered :=
  let code := "malformed_event_component"%string in
  refuse_attested detail ;;
  '(pauses, pausesState) ← component (own detail "pauses") malformed_component;
  p ← (if has_value pausesState then l ← array (own pauses "value") code; Ok (Z.of_nat (length l)) else Ok 0);
  '(multiplier, multiplierState) ← component (own detail "multiplier") malformed_component;
  m ← (if has_value multiplierState
       then row ← object (own multiplier "value") code; l ← array (own row "history") code; Ok (Z.of_nat (length l)) else Ok 0);
  '(dividend, dividendState) ← component (own detail "dividend") malformed_component;
  d ← (if has_value dividendState then object (own dividend "value") code ;; Ok 1 else Ok 0);
  Ok (count_records (p + m + d) g).

Definition issuer_asset (selected : list SelectedAsset) (issuer : IssuerId) (digests : list js_string) (g : gathered) (v : json) : res gathered :=
  row ← object (Some v) "malformed_issuer_asset";
  asset ← exactAsset (own row "asset");
  check (bool_decide (issuerId asset = issuer) && existsb (fun item => bool_decide (symbol item = symbol asset)) selected
         && negb (bool_decide (symbol asset ∈ seenAssets g))) "issuer_grouping_mismatch" ;;
  check (is_false (own row "settlementReady")) "readiness_assertion_refused" ;;
  state ← validateIdentity (own row "identity") asset;
  each_string (own row "blockers") "malformed_asset_blockers" ;;
  detail ← object (own row "detail") "malformed_asset_detail";
  let g := see_asset (symbol asset) state g in
  match issuer with
  | xstocks => xstocks_asset detail asset digests g
  | backpack => backpack_asset detail g
  | ondo => ondo_asset detail g
  end.
Definition issuer_of_text (s : js_string) : option IssuerId := List.find (fun i => bool_decide (issuer_text i = s)) [xstocks; backpack; ondo].
Definition issuer_group (selected : list SelectedAsset) (g : gathered) (v : json) : res gathered :=
  let code := "malformed_issuer_group"%string in
  group ← object (Some v) code;
  name ← str (own group "issuerId") code;
  match issuer_of_text name with
  | Some issuer =>
      check (bool_decide (issuer ∈ (issuerId <$> selected)) && negb (bool_decide (issuer ∈ seenIssuers g))) "issuer_grouping_mismatch" ;;
      state ← str (own group "state") code;
      check (one_of ["observed"; "partial"; "unavailable"; "failed"] state) code ;;
      stopped ← issuer_stop (own group "stopped");
      requests ← array (own group "requests") "malformed_source_records";
      '(g, digests) ← source_requests (see_issuer issuer stopped g) requests;
      rows ← array (own group "assets") "malformed_issuer_assets";
      foldM (issuer_asset selected issuer digests) g rows
  | None => Err "issuer_grouping_mismatch"
  end.

Definition validateObservationReport (value : json) (requestedYear : Z) : res ValidatedObservation :=
  root ← object (Some value) "malformed_observation_report";
  check (is_text (own root "schema") "dividendx-issuer-observations-v1") "unsupported_observation_schema" ;;
  year ← integer (own root "requestedYear") "malformed_requested_year";
  check (year =? requestedYear) "requested_year_mismatch" ;;
  startedAt ← timestamp Date_parse (own root "startedAt") "malformed_observation_timestamp";
  completedAt ← timestamp Date_parse (own root "completedAt") "malformed_observation_timestamp";
  check (is_false (own root "settlementReady")) "readiness_assertion_refused" ;;
  selectedRaw ← array (own root "selected") "malformed_selected_assets";
  check (negb ((Z.of_nat (length selectedRaw) <? 1) || (QUALIFICATION_MAX_ASSETS <? Z.of_nat (length selectedRaw)))) "selected_asset_limit_exceeded" ;;
  selected ← mapM (fun v => exactAsset (Some v)) selectedRaw;
  check (bool_decide (NoDup (symbol <$> selected))) "duplicate_selected_asset" ;;
  issuers ← array (own root "issuers") "malformed_issuer_groups";
  check (Nat.eqb (length issuers) (length (remove_dups (issuerId <$> selected)))) "issuer_grouping_mismatch" ;;
  g ← foldM (issuer_group selected) (MkGathered [] [] [] [] [] 0 []) issuers;
  check (sourceRecords g <=? QUALIFICATION_MAX_SOURCE_RECORDS) "source_record_limit_exceeded" ;;
  check (forallb (fun asset => bool_decide (symbol asset ∈ seenAssets g) || bool_decide (issuerId asset ∈ stoppedIssuers g)) selected)
    "issuer_grouping_mismatch" ;;
  each_string (own root "blockers") "malformed_report_blockers" ;;
  Ok (MkValidated startedAt completedAt selected (identityStates g) (g_xstocks g) (requestObservations g)).

(** ** The supplement of a researcher *)

(** What [new URL(text)] parses. *)
Record url_parts := MkUrl { u_protocol : js_string; u_username : js_string; u_password : js_string }.
Context (URL : js_string -> option url_parts).
Definition https_url (s : js_string) : bool :=
  match URL s with
  | Some u => bool_decide (u_protocol u = text "https:") && empty_text (u_username u) && empty_text (u_password u)
  | None => false
  end.
Definition httpsUrl (v : option json) : res js_string :=
  s ← str v "malformed_source_url"; check (https_url s) "malformed_source_url" ;; Ok s.

Record SupplementIdentity := MkSupplementIdentity {
  si_issuerId : js_string; si_symbol : js_string; si_mint : js_string; si_xstockIsin : js_string; si_underlyingSymbol : js_string;
  si_underlyingIsin : js_string;
}.
Record Announcement := MkAnnouncement {
  an_id : js_string; an_underlyingSymbol : js_string; an_officialCivilExDate : js_string; an_payableDate : js_string;
  an_grossCashflowUsd : js_string; an_currency : js_string; an_sourceUrl : js_string; an_sourceSha256 : js_string;
}.
Record Join := MkJoin { jn_eventId : js_string; jn_sourceVersion : Z; jn_companyAnnouncementId : js_string }.
Record SupplementEvent := MkSupplementEvent {
  se_eventId : js_string; se_sourceVersion : Z; se_symbol : js_string; se_underlyingSymbol : js_string; se_xstockIsin : js_string;
  se_underlyingIsin : js_string; se_action : js_string; se_status : js_string; se_multiplierOld : js_string; se_multiplierNew : js_string;
  se_createdTime : js_string; se_effectiveTime : js_string; se_grossCashflowUsd : option js_string;
}.
Record ValidatedSupplement := MkSupplement {
  vs_asOf : js_string; vs_identity : SupplementIdentity; vs_announcements : list (js_string * Announcement); vs_joins : list Join;
  vs_issuerEvents : list SupplementEvent; vs_currentMintObservation : option (list (js_string * json));
}.

Definition supplement_identity (v : option json) : res SupplementIdentity :=
  let code := "malformed_supplement_identity"%string in
  row ← object v code;
  i ← str (own row "issuerId") code;
  s ← str (own row "symbol") code;
  m ← str (own row "mint") code;
  x ← str (own row "xstockIsin") code;
  u ← str (own row "underlyingSymbol") code;
  n ← str (own row "underlyingIsin") code;
  check (bool_decide (i = text "xstocks")) "unsupported_supplement_identity" ;;
  market ← object (own row "registryReferenceMarket") code;
  foldM (fun _ name => str (own market name) code ;; Ok tt) tt ["mic"; "abbreviation"; "name"; "timezone"]%string ;;
  Ok (MkSupplementIdentity i s m x u n).
(** The two pairs of a source: its URLs, with its digest. *)
Definition source_pairs (v : json) : res (list js_string) :=
  let code := "malformed_supplement_source"%string in
  source ← object (Some v) code;
  str (own source "name") code ;;
  url ← httpsUrl (own source "url");
  finalUrl ← httpsUrl (own source "finalUrl");
  status ← integer (own source "status") code;
  check (negb ((status <? 100) || (599 <? status))) code ;;
  timestamp Date_parse (own source "retrievedAt") code ;;
  digest ← sha256 (own source "sha256");
  Ok [finalUrl ++ [0] ++ digest; url ++ [0] ++ digest].
Definition company_announcement (pairs : list js_string) (announcements : list (js_string * Announcement)) (v : json)
    : res (list (js_string * Announcement)) :=
  let code := "malformed_company_announcement"%string in
  row ← object (Some v) code;
  id ← str (own row "id") code;
  u ← str (own row "underlyingSymbol") code;
  ex ← civilDate (own row "officialCivilExDate");
  payable ← civilDate (own row "payableDate");
  gross ← positive_exact (own row "grossCashflowUsd");
  currency ← str (own row "currency") code;
  url ← httpsUrl (own row "sourceUrl");
  digest ← sha256 (own row "sourceSha256");
  bool_of (own row "futureAsOfObservation") code ;;
  check (negb (empty_text id || om_has announcements id || negb (bool_decide (url ++ [0] ++ digest ∈ pairs)))) "company_announcement_source_mismatch" ;;
  Ok (om_set announcements id (MkAnnouncement id u ex payable gross currency url digest)).
Definition candidate_join (v : json) : res Join :=
  let code := "malformed_candidate_join"%string in
  row ← object (Some v) code;
  check (is_text (own row "joinStatus") "candidate" && is_false (own row "issuerConfirmed") && is_false (own row "sourceFinal")
         && is_false (own row "settlementReady")) "readiness_assertion_refused" ;;
  str (own row "basis") code ;;
  e ← str (own row "eventId") code;
  version ← integer (own row "sourceVersion") code;
  a ← str (own row "companyAnnouncementId") code;
  Ok (MkJoin e version a).
Definition supplement_event (v : json) : res SupplementEvent :=
  let code := "malformed_supplement_event"%string in
  row ← object (Some v) code;
  e ← str (own row "eventId") code;
  version ← integer (own row "version") code;
  s ← str (own row "xstockSymbol") code;
  u ← str (own row "spvSymbol") code;
  x ← str (own row "xstockIsin") code;
  n ← str (own row "spvIsin") code;
  action ← str (own row "caType") code;
  status ← str (own row "status") code;
  old ← positive_exact (own row "multiplierOld");
  new ← positive_exact (own row "multiplierNew");
  created ← timestamp Date_parse (own row "createdTimeUtc") code;
  effective ← timestamp Date_parse (own row "effectiveTimeUtc") code;
  gross ← nullable exact (own row "grossCashflowUsd");
  Ok (MkSupplementEvent e version s u x n action status old new created effective gross).
(** The rows of an array within a limit. *)
Definition limited_array (v : option json) (code : string) (limit : Z) (limit_code : string) : res (list json) :=
  l ← array v code; check (Z.of_nat (length l) <=? limit) limit_code ;; Ok l.
Definition mint_observation (v : option json) : res (option (list (js_string * json))) :=
  match v with
  | None | Some JNull => Ok None
  | _ =>
      row ← object v "malformed_current_mint_observation";
      check (is_false (own row "settlementReady") && is_false (own row "historicalBeforeAfterBitsVerified")
             && is_false (own row "liveCustodyAdmission")) "readiness_assertion_refused" ;;
      Ok (Some row)
  end.
Definition validateSupplement (value : json) : res ValidatedSupplement :=
  root ← object (Some value) "malformed_supplement";
  check (is_text (own root "schema") "dividendx-public-qualification-research-v1") "unsupported_supplement_schema" ;;
  check (is_false (own root "settlementReady") && is_false (own root "historyPaginationIsAnnualCoverage")) "readiness_assertion_refused" ;;
  asOf ← civilDate (own root "asOf");
  str (own root "purpose") "malformed_supplement" ;;
  identity ← supplement_identity (own root "identity");
  sources ← limited_array (own root "sources") "malformed_supplement_sources" QUALIFICATION_MAX_SUPPLEMENT_ITEMS "supplement_source_limit_exceeded";
  pairs ← mapM source_pairs sources;
  rows ← limited_array (own root "companyAnnouncements") "malformed_company_announcements" QUALIFICATION_MAX_SUPPLEMENT_ITEMS
           "supplement_announcement_limit_exceeded";
  announcements ← foldM (company_announcement (concat pairs)) [] rows;
  joinRows ← limited_array (own root "candidateJoins") "malformed_candidate_joins" QUALIFICATION_MAX_SUPPLEMENT_ITEMS "supplement_join_limit_exceeded";
  joins ← mapM candidate_join joinRows;
  eventRows ← limited_array (own root "issuerEvents") "malformed_supplement_events" QUALIFICATION_MAX_SOURCE_RECORDS "source_record_limit_exceeded";
  issuerEvents ← mapM supplement_event eventRows;
  each_string (own root "openGates") "malformed_open_gates" ;;
  current ← mint_observation (own root "currentMintObservation");
  Ok (MkSupplement asOf identity announcements joins issuerEvents current).
End schema.
