(* ===== verification/Qualification.v ===== *)
(** * Issuer readers: the qualification dossier

    [packages/issuer-readers/src/qualification.ts]: the review of an issuer's
    report and of a researcher's supplement.  Nothing it says makes a year
    settle; it collects what blocks settlement, event by event and asset by
    asset.  Parsers of JSON and of URLs, [Date.parse], comparison by locale,
    the text form of public keys and the Solana libraries are parameters. *)
From S2P Require Import Prelude Js Calendar IsoTime TxBytes TxArith TxQuotes TxAccounts Utf8 Json RpcPolicy.
From S2P Require Import IssuerSchema IssuerXstocks QualificationSchema.
Open Scope Z_scope.

Definition SOLANA_MAINNET_GENESIS : string := "5eykt4UsFv8P8NJdTREpY1vzqKqZKvdpKuc147dw2N9d".
Definition CLOCK_ADDRESS : js_string := text "SysvarC1ock11111111111111111111111111111111".
Definition CLOCK_OWNER : js_string := text "Sysvar1111111111111111111111111111111111111".
Definition DEFAULT_MAX_OBSERVATION_AGE_MS : Z := 24 * 60 * 60 * 1000.

(** An error that is not a [ReaderError]. *)
Definition sdk {A} (r : TxBytes.res A) : res A := match r with Ok a => Ok a | Err _ => Err "reader_failed"%string end.
Definition some_or_throw {A} (o : option A) : res A := match o with Some a => Ok a | None => Err "reader_failed"%string end.

(** [[...new Set(values)].sort()] *)
Fixpoint insert_sorted (x : string) (l : list string) : list string :=
  match l with [] => [x] | y :: l' => if String.leb x y then x :: y :: l' else y :: insert_sorted x l' end.
Definition unique (values : list string) : list string := foldr insert_sorted [] (remove_dups values).

(** ** Revisions *)

Definition versions_map := list (js_string * XstocksEventRevision).
Record Reduced := MkReduced { rd_revisions : list XstocksEventRevision; rd_heads : versions_map; rd_conflicts : list js_string }.
Section reduce.
Context (locale_leb : js_string -> js_string -> bool).
Definition add_conflict (acc : versions_map * list js_string) (r : XstocksEventRevision) : versions_map * list js_string :=
  (add_version acc.1 r, if contradicts locale_leb acc.1 r then acc.2 ++ [eventId r] else acc.2).
Definition reduceRevisions (records : list XstocksEventRevision) : Reduced :=
  let '(versions, conflicts) := fold_left add_conflict records ([], []) in
  MkReduced versions.*2 (fold_left add_head versions.*2 []) conflicts.
End reduce.
(** [reduced.heads.get(record.eventId) === record], of a revision: versions are
    distinct, so the version tells which object it is. *)
Definition is_head (heads : versions_map) (r : XstocksEventRevision) : bool :=
  match om_get heads (eventId r) with Some head => sourceVersion head =? sourceVersion r | None => false end.

Record CandidateEncoding := MkEncoding { ce_decimal : js_string; ce_bits : Z }.
Definition candidateEncoding (decimal : js_string) : res CandidateEncoding :=
  let bits := Number_bits decimal in
  check ((bits <? INFINITY_BITS) && (0 <? bits)) "invalid_candidate_factor" ;;
  sdk (decodeCanonicalMultiplier bits) ;;
  Ok (MkEncoding decimal bits).

Record CandidateCompanyDates := MkDates {
  cd_announcementId : js_string; cd_exDate : js_string; cd_paymentDate : js_string; cd_inYear : bool; cd_futureAsOfReview : bool;
}.
Definition candidateDates (supplement : ValidatedSupplement) (record : XstocksEventRevision) (requestedYear : Z) (reviewDate : js_string)
    : option CandidateCompanyDates * list string :=
  match List.filter (fun join => bool_decide (jn_eventId join = eventId record) && (jn_sourceVersion join =? sourceVersion record)) (vs_joins supplement) with
  | [] => (None, ["candidate_join_missing"%string])
  | join :: more =>
      let ambiguous := if bool_decide (more = []) then [] else ["candidate_join_ambiguous"%string] in
      match om_get (vs_announcements supplement) (jn_companyAnnouncementId join) with
      | None => (None, ambiguous ++ ["candidate_announcement_missing"%string])
      | Some a =>
          (Some (MkDates (an_id a) (an_officialCivilExDate a) (an_payableDate a)
                   (number_of (take 4 (an_officialCivilExDate a)) =? requestedYear) (negb (js_leb (an_officialCivilExDate a) reviewDate))),
           ambiguous
           ++ (if bool_decide (an_underlyingSymbol a = spvSymbol record) && bool_decide (grossCashflowUsd record = Some (an_grossCashflowUsd a))
               then [] else ["candidate_announcement_conflict"%string])
           ++ (if bool_decide (an_currency a = text "USD") then [] else ["candidate_currency_mismatch"%string]))
      end
  end.

Record EventRevisionReview := MkReview {
  rv_record : XstocksEventRevision; rv_isCurrentHead : bool; rv_candidateEncodings : option (CandidateEncoding * CandidateEncoding);
  rv_candidateCompanyDates : option CandidateCompanyDates; rv_blockers : list string;
}.
Definition MISSING_EVIDENCE : list string :=
  ["authoritative_classification_and_event_join"; "historical_before_bits"; "historical_after_bits"; "source_finality"; "observed_slot";
   "normalized_revision_mapping"]%string.
Definition lower (u : Z) : Z := if between 65 90 u then u + 32 else u.
(** [/cancel/i] *)
Definition mentions_cancel (s : js_string) : bool := contains (text "cancel") (lower <$> s).
Definition encodings (record : XstocksEventRevision) : res (CandidateEncoding * CandidateEncoding) :=
  m0 ← candidateEncoding (multiplierOld record);
  m1 ← candidateEncoding (multiplierNew record);
  sdk (eventRetentionRatio (ce_bits m0) (ce_bits m1)) ;;
  Ok (m0, m1).
Definition reviewRevision (record : XstocksEventRevision) (isHead : bool) (asset : SelectedAsset) (supplement : option ValidatedSupplement)
    (requestedYear : Z) (reviewDate : js_string) (conflict sourceDigestObserved : bool) : EventRevisionReview :=
  let encoded := encodings record in
  let matched := match supplement with
    | Some s => if bool_decide (si_symbol (vs_identity s) = symbol asset) then candidateDates s record requestedYear reviewDate
                else (None, if isHead then ["candidate_join_missing"%string] else [])
    | None => (None, if isHead then ["candidate_join_missing"%string] else [])
    end in
  let blockers := concat [
    match encoded with
    | Ok _ => []
    | Err _ => [if (Number_bits (multiplierNew record) <? Number_bits (multiplierOld record))%Z
                then "falling_factor_not_ordinary_dividend" else "invalid_candidate_factor"]
    end;
    if conflict then ["conflicting_same_version_revision"] else [];
    if sourceDigestObserved then [] else ["source_digest_not_observed"];
    [if bool_decide (action record = text "CashDividend") then "ordinary_dividend_taxonomy_unresolved" else "unsupported_source_action"];
    if mentions_cancel (action record) || mentions_cancel (status record) then ["cancellation_semantics_unresolved"] else [];
    [if bool_decide (status record = text "Initial") then "initial_status_finality_unresolved" else "source_status_semantics_unresolved"];
    if isHead then matched.2 else []]%string in
  MkReview record isHead (match encoded with Ok e => Some e | Err _ => None end) matched.1 (unique (blockers ++ MISSING_EVIDENCE)).

(** ** The current mint *)

Definition strictBase64 (v : option json) : res bytes :=
  encoded ← str v "malformed_account_data";
  check (negb (empty_text encoded)) "malformed_account_data" ;;
  match base64_decode encoded with
  | Some decoded => check (bool_decide (base64_encode decoded = encoded)) "malformed_account_data" ;; Ok decoded
  | None => Err "malformed_account_data"
  end.
Definition claimedBigInt (v : option json) : res Z :=
  raw ← str v "malformed_numeric_claim"; check (digits raw) "malformed_numeric_claim" ;; Ok (number_of raw).
Definition claimedSignedBigInt (v : option json) : res Z :=
  raw ← str v "malformed_numeric_claim";
  match raw with
  | 45 :: ds => check (digits ds) "malformed_numeric_claim" ;; Ok (- number_of ds)
  | _ => check (digits raw) "malformed_numeric_claim" ;; Ok (number_of raw)
  end.
Record ParsedAccount := MkParsed { pa_address : js_string; pa_owner : js_string; pa_data : bytes; pa_claimedDigest : js_string; pa_actualDigest : js_string }.
Record ProfileClaim := MkProfileClaim {
  pc_decimals : Z; pc_extensionsMask : Z; pc_scale : ScaleTuple; pc_controlsFingerprint : js_string; pc_accountingFactorsSupported : bool;
}.
Record PairMatch := MkPair { pm_eventId : js_string; pm_sourceVersion : Z }.
Record CurrentMintReview := MkMintReview {
  cm_retrievedAt : js_string; cm_contextSlot : Z; cm_mintDataDigest : option js_string; cm_clockDataDigest : option js_string;
  cm_independentlyDecoded : bool; cm_profileMatchesClaim : bool; cm_latestFactorMatchesActiveBits : bool;
  cm_configuredPairMatches : list PairMatch; cm_blockers : list string;
}.
Definition clock_claim (v : option json) : res ChainClock :=
  clock ← object v "malformed_clock_claim";
  slot ← claimedBigInt (own clock "slot");
  start ← claimedSignedBigInt (own clock "epochStartTimestamp");
  epoch ← claimedBigInt (own clock "epoch");
  leader ← claimedBigInt (own clock "leaderScheduleEpoch");
  unix ← claimedSignedBigInt (own clock "unixTimestamp");
  context ← integer (own clock "contextSlot") "malformed_clock_claim";
  Ok (Clock slot start epoch leader unix context).
Definition profile_claim (v : option json) : res ProfileClaim :=
  let code := "malformed_profile_claim"%string in
  profile ← object v code;
  scale ← object (own profile "scale") code;
  controls ← str (own profile "controlsFingerprint") code;
  check (SHA256 controls) code ;;
  decimals ← integer (own profile "decimals") code;
  mask ← claimedBigInt (own profile "extensionsMask");
  current ← claimedBigInt (own scale "currentBits");
  pending ← claimedBigInt (own scale "pendingBits");
  effective ← claimedSignedBigInt (own scale "pendingEffectiveTimestamp");
  active ← claimedBigInt (own scale "activeBits");
  supported ← bool_of (own profile "accountingFactorsSupported") code;
  Ok (MkProfileClaim decimals mask (Scale current pending effective active) controls supported).
#[global] Instance ChainClock_eq_dec : EqDecision ChainClock. Proof. solve_decision. Defined.
#[global] Instance ScaleTuple_eq_dec : EqDecision ScaleTuple. Proof. solve_decision. Defined.
#[global] Instance ParsedAccount_eq_dec : EqDecision ParsedAccount. Proof. solve_decision. Defined.
Definition hex_text (l : bytes) : js_string := text (hex l).
Definition profile_matches (p : InspectedMintProfile) (c : ProfileClaim) : bool :=
  (f_decimals p =? pc_decimals c) && (f_extensionsMask p =? pc_extensionsMask c) && bool_decide (f_scale p = pc_scale c)
  && bool_decide (hex_text (f_controlsFingerprint p) = pc_controlsFingerprint c)
  && Bool.eqb (accountingFactorsSupported p) (pc_accountingFactorsSupported c).

(** What the code relies on of its platform and its libraries. *)
Record reader_env := MkEnv {
  Date_parse : js_string -> option Z; locale_leb : js_string -> js_string -> bool; URL : js_string -> option url_parts;
  (** [JSON.parse] of the text the bytes decode to, where they do and it parses. *)
  JSON_parse : bytes -> option json;
  PublicKey_of : js_string -> option PublicKey; solana : platform;
}.

Section review.
Context (env : reader_env).
Definition digest (l : bytes) : js_string := hex_text (TxAccounts.sha256 (solana env) l).

Definition parse_account (v : json) : res ParsedAccount :=
  row ← object (Some v) "malformed_current_mint_account";
  claimed ← str (own row "sha256") "malformed_digest";
  check (SHA256 claimed) "malformed_digest" ;;
  data ← strictBase64 (own row "dataBase64");
  address ← str (own row "address") "malformed_schema";
  owner ← str (own row "owner") "malformed_schema";
  Ok (MkParsed address owner data claimed (digest data)).
(** A time against the present: from the future, too old, or neither. *)
Definition time_blockers (time now maxAge : Z) (future stale : string) : list string :=
  if now <? time then [future] else if maxAge <? now - time then [stale] else [].
Definition when (b : bool) (code : string) : list string := if b then [code] else [].

Record mint_state := MkMintState {
  ms_decoded : bool; ms_matches : bool; ms_latest : bool; ms_pairs : list PairMatch; ms_blockers : list string;
}.
Definition pair_match (profile : InspectedMintProfile) (r : XstocksEventRevision) : bool :=
  match Date_parse env (effectiveTime r) with
  | Some ms => (Number_bits (multiplierOld r) =? currentBits (f_scale profile)) && (Number_bits (multiplierNew r) =? pendingBits (f_scale profile))
               && (ms / 1000 =? pendingEffectiveTimestamp (f_scale profile))
  | None => false
  end.
(** The [try] over both accounts; what it pushed before a [throw] stays. *)
Definition decode_current (mintAccount clockAccount : ParsedAccount) (context : Z) (asset : SelectedAsset) (claimedClock : ChainClock)
    (claimed : ProfileClaim) (latestDecimal : js_string) (claimedLatestMatch : bool) (records : list XstocksEventRevision) : mint_state :=
  match (owner ← some_or_throw (PublicKey_of env (pa_owner clockAccount)); sdk (decodeClockAccount (Info owner (pa_data clockAccount)) context)) with
  | Err _ => MkMintState false false false [] ["current_mint_decode_failed"%string]
  | Ok clock =>
      let b1 := when (negb (bool_decide (clock = claimedClock)) || negb (ck_slot clock =? context)) "clock_claim_mismatch" in
      match (mintAddress ← some_or_throw (PublicKey_of env (pa_address mintAccount));
             owner ← some_or_throw (PublicKey_of env (pa_owner mintAccount));
             mint ← some_or_throw (unpackMint (solana env) mintAddress (Info owner (pa_data mintAccount)) (TOKEN_2022_PROGRAM_ID (solana env)));
             sdk (inspect (solana env) mint clock)) with
      | Err _ => MkMintState false false false [] (b1 ++ ["current_mint_decode_failed"%string])
      | Ok profile =>
          let matches := profile_matches profile claimed in
          let latest := Number_bits latestDecimal =? activeBits (f_scale profile) in
          MkMintState true matches latest ((fun r => MkPair (eventId r) (sourceVersion r)) <$> List.filter (pair_match profile) records)
            (b1 ++ when (negb (accountingFactorsSupported profile)) "current_mint_factors_unsupported"
             ++ when (negb matches || negb (f_decimals profile =? decimals asset)) "current_mint_profile_mismatch"
             ++ when (negb latest || negb (Bool.eqb claimedLatestMatch latest)) "latest_factor_claim_mismatch")
      end
  end.
Definition digest_blockers (parsed : list ParsedAccount) (clock_index : option nat) : list string :=
  concat (imap (fun i entry =>
    if bool_decide (pa_actualDigest entry = pa_claimedDigest entry) then []
    else [if bool_decide (clock_index = Some i) then "clock_data_digest_mismatch"%string else "mint_data_digest_mismatch"%string]) parsed).
Definition owner_differs (account : option ParsedAccount) (owner : js_string) : bool := negb (bool_decide (pa_owner <$> account = Some owner)).

Definition reviewCurrentMint (root : list (js_string * json)) (asset : SelectedAsset) (now maxAge : Z) (records : list XstocksEventRevision)
    : res CurrentMintReview :=
  let code := "malformed_current_mint_observation"%string in
  check (is_text (own root "schema") "dividendx-current-mint-observation-v1" && is_false (own root "settlementReady")
         && is_false (own root "historicalBeforeAfterBitsVerified") && is_false (own root "liveCustodyAdmission")) "readiness_assertion_refused" ;;
  retrievedAt ← timestamp (Date_parse env) (own root "retrievedAt") code;
  contextSlot ← integer (own root "contextSlot") code;
  endpoint ← str (own root "endpoint") code;
  check (https_url (URL env) endpoint) code ;;
  accounts ← array (own root "accounts") "malformed_current_mint_accounts";
  check (Nat.eqb (length accounts) 2) "malformed_current_mint_accounts" ;;
  parsed ← mapM parse_account accounts;
  claimedClock ← clock_claim (own root "clock");
  claimedProfile ← profile_claim (own root "profile");
  latestDecimal ← positive_exact (own root "latestSourceMultiplier");
  claimedLatestMatch ← bool_of (own root "latestSourceMultiplierMatchesActiveBits") code;
  let mintAccount := snd <$> list_find (fun e => pa_address e = mint asset) parsed in
  let clockFound := list_find (fun e => pa_address e = CLOCK_ADDRESS) parsed in
  let clockAccount := snd <$> clockFound in
  let state := match mintAccount, clockAccount with
    | Some m, Some c => decode_current m c contextSlot asset claimedClock claimedProfile latestDecimal claimedLatestMatch records
    | _, _ => MkMintState false false false [] []
    end in
  let blockers := concat [
    when (negb (is_text (own root "genesisHash") SOLANA_MAINNET_GENESIS)) "mainnet_genesis_mismatch";
    when (negb (is_text (own root "commitment") "finalized")) "commitment_not_finalized";
    when (match own root "mint" with Some (JStr m) => negb (bool_decide (m = mint asset)) | _ => true end) "current_mint_identity_mismatch";
    time_blockers (default 0 (Date_parse env retrievedAt))%Z now maxAge "current_mint_observation_from_future" "current_mint_observation_stale";
    when (bool_decide (mintAccount = None)) "current_mint_account_missing";
    when (bool_decide (clockAccount = None)) "clock_account_missing";
    digest_blockers parsed (fst <$> clockFound);
    when (owner_differs mintAccount (tokenProgram asset)) "current_mint_owner_mismatch";
    when (owner_differs clockAccount CLOCK_OWNER) "clock_owner_mismatch";
    ms_blockers state]%string in
  Ok (MkMintReview retrievedAt contextSlot (pa_actualDigest <$> mintAccount) (pa_actualDigest <$> clockAccount) (ms_decoded state)
        (ms_matches state) (ms_latest state) (ms_pairs state) (unique blockers)).

(** ** Assets *)

Record AssetQualificationReview := MkAssetReview {
  ar_asset : SelectedAsset; ar_observationState : js_string; ar_revisions : list EventRevisionReview; ar_currentHeads : list (js_string * Z);
  ar_currentMint : option CurrentMintReview; ar_blockers : list string;
}.
(** [currentAnnouncementUse]: of every announcement, the current events it is
    a candidate for. *)
Definition uses := list (js_string * list js_string).
Definition add_use (u : uses) (announcement event : js_string) : uses :=
  let ids := default [] (om_get u announcement) in
  om_set u announcement (if bool_decide (event ∈ ids) then ids else ids ++ [event]).
Definition add_review_use (u : uses) (review : EventRevisionReview) : uses :=
  match rv_isCurrentHead review, rv_candidateCompanyDates review with
  | true, Some d => add_use u (cd_announcementId d) (eventId (rv_record review))
  | _, _ => u
  end.
Definition review_records (observed : ValidatedXstocksAsset) (reduced : Reduced) (asset : SelectedAsset) (supplement : option ValidatedSupplement)
    (requestedYear : Z) (reviewDate : js_string) : list EventRevisionReview :=
  (fun record => reviewRevision record (is_head (rd_heads reduced) record) asset supplement requestedYear reviewDate
     (bool_decide (eventId record ∈ rd_conflicts reduced)) (bool_decide (IssuerXstocks.sourceDigest record ∈ va_successfulRequestDigests observed)))
  <$> rd_revisions reduced.
Definition same_event (supplied : SupplementEvent) (identity : SupplementIdentity) (head : option XstocksEventRevision) : bool :=
  bool_decide (se_symbol supplied = si_symbol identity) && bool_decide (se_underlyingSymbol supplied = si_underlyingSymbol identity)
  && bool_decide (se_xstockIsin supplied = si_xstockIsin identity) && bool_decide (se_underlyingIsin supplied = si_underlyingIsin identity)
  && match head with
     | None => true
     | Some h =>
         bool_decide (se_action supplied = action h) && bool_decide (se_status supplied = status h)
         && bool_decide (se_multiplierOld supplied = multiplierOld h) && bool_decide (se_multiplierNew supplied = multiplierNew h)
         && bool_decide (se_createdTime supplied = createdTime h) && bool_decide (se_effectiveTime supplied = effectiveTime h)
         && bool_decide (se_grossCashflowUsd supplied = grossCashflowUsd h)
     end.
Definition join_blockers (supplement : ValidatedSupplement) (heads : versions_map) (join : Join) : list string :=
  let head := om_get heads (jn_eventId join) in
  concat [
    match head with
    | None => ["candidate_join_event_missing"]
    | Some h => when (negb (sourceVersion h =? jn_sourceVersion join)%Z) "candidate_join_stale_revision"
    end;
    match List.filter (fun e => bool_decide (se_eventId e = jn_eventId join) && (se_sourceVersion e =? jn_sourceVersion join)%Z) (vs_issuerEvents supplement) with
    | [] => ["candidate_supplement_event_missing"]
    | [supplied] => when (negb (same_event supplied (vs_identity supplement) head)) "candidate_supplement_event_conflict"
    | _ => ["candidate_supplement_event_ambiguous"]
    end;
    when (negb (om_has (vs_announcements supplement) (jn_companyAnnouncementId join))) "candidate_announcement_missing"]%string.
Definition unavailable_blocker (i : IssuerId) : string :=
  match i with
  | xstocks => "issuer_event_history_unavailable"
  | backpack => "issuer_corporate_action_ledger_unavailable"
  | ondo => "authenticated_notices_are_not_an_event_ledger"
  end.
Definition ASSET_BLOCKERS : list string :=
  ["complete_annual_coverage_unproven"; "source_finality_policy_unresolved"; "live_custody_admission_missing"]%string.
Definition observationState (v : ValidatedObservation) (s : js_string) : js_string :=
  match List.find (fun e : js_string * js_string => bool_decide (e.1 = s)) (vo_identityStates v) with Some e => e.2 | None => text "missing" end.

Definition asset_review (validated : ValidatedObservation) (supplement : option ValidatedSupplement) (supplementBlockers : list string)
    (requestedYear now maxAge : Z) (reviewDate : js_string) (acc : list AssetQualificationReview * uses) (asset : SelectedAsset)
    : res (list AssetQualificationReview * uses) :=
  let observed := om_get (vo_xstocks validated) (symbol asset) in
  let assetSupplement :=
    match supplement with
    | Some s => if bool_decide (si_symbol (vs_identity s) = symbol asset) && bool_decide (supplementBlockers = []) then Some s else None
    | None => None
    end in
  let reduced := match observed with Some o => reduceRevisions (locale_leb env) (va_records o) | None => MkReduced [] [] [] end in
  let revisions := match observed with Some o => review_records o reduced asset assetSupplement requestedYear reviewDate | None => [] end in
  let current := List.filter rv_isCurrentHead revisions in
  let joins := match assetSupplement with Some s => vs_joins s ≫= join_blockers s (rd_heads reduced) | None => [] end in
  let found := match observed with
    | Some o => concat [
        when (negb (is_observed (va_componentState o))) "issuer_event_history_incomplete"; current ≫= rv_blockers;
        when (bool_decide (va_records o = [])) "empty_history_not_annual_coverage"; joins]%string
    | None => [unavailable_blocker (issuerId asset)]
    end in
  currentMint ← match assetSupplement ≫= vs_currentMintObservation with
    | Some root => m ← reviewCurrentMint root asset now maxAge (match observed with Some o => va_records o | None => [] end); Ok (Some m)
    | None => Ok None
    end;
  let mint_blockers := match currentMint with
    | Some m => cm_blockers m ++ ["current_mint_cannot_fill_historical_factor_evidence"%string; "current_mint_cannot_admit_custody"%string]
    | None => []
    end in
  Ok (acc.1 ++ [MkAssetReview asset (observationState validated (symbol asset)) revisions
                  ((fun rv => (eventId (rv_record rv), sourceVersion (rv_record rv))) <$> current) currentMint
                  (unique (ASSET_BLOCKERS ++ found ++ mint_blockers))],
      fold_left add_review_use revisions acc.2).

(** ** The dossier *)

Record AnnouncementReview := MkAnnouncementReview {
  aw_id : js_string; aw_officialCivilExDate : js_string; aw_payableDate : js_string; aw_linkedCurrentEventIds : list js_string;
  aw_futureAsOfReview : bool;
}.
Record SupplementReview := MkSupplementReview { sp_identity : SupplementIdentity; sp_announcements : list AnnouncementReview; sp_blockers : list string }.
Record QualificationDossier := MkDossier {
  qd_requestedYear : Z; qd_maturityAt : js_string; qd_generatedAt : string; qd_maximumObservationAgeMs : Z;
  qd_observation : js_string * js_string * js_string * list SourceRequest; qd_supplement : option (js_string * js_string);
  qd_supplementReview : option SupplementReview; qd_selected : list SelectedAsset; qd_assets : list AssetQualificationReview;
  qd_blockers : list string;
}.

Definition boundJson (l : bytes) (supplied : json) (mismatchCode : string) : res json :=
  check (byte_length l <=? QUALIFICATION_MAX_FILE_BYTES) "input_file_too_large" ;;
  match JSON_parse env l with
  | None => Err "malformed_json"%string
  | Some parsed =>
      check (bool_decide (stableJson (locale_leb env) parsed = stableJson (locale_leb env) supplied)) mismatchCode ;;
      Ok parsed
  end.
(** The supplement and its bytes, which come together or not at all. *)
Definition read_supplement (supplement : option json) (supplementBytes : option bytes) : res (option ValidatedSupplement) :=
  match supplement, supplementBytes with
  | None, None => Ok None
  | Some v, Some l =>
      parsed ← boundJson l v "supplement_bytes_mismatch";
      match parsed with
      | JNull => Ok None
      | _ => s ← validateSupplement (Date_parse env) (URL env) parsed; Ok (Some s)
      end
  | _, _ => Err "supplement_bytes_mismatch"%string
  end.
(** [Date.parse] of a text that passed [timestamp]. *)
Definition time_of (s : js_string) : Z := default 0 (Date_parse env s).
Definition observation_blockers (v : ValidatedObservation) (now maxAge : Z) : list string :=
  let started := time_of (vo_startedAt v) in
  let completed := time_of (vo_completedAt v) in
  when (completed <? started) "observation_report_time_inverted"
  ++ (if (now <? started) || (now <? completed) then ["observation_report_from_future"%string]
      else when (maxAge <? now - completed) "observation_report_stale")
  ++ (vo_requestObservations v ≫= fun request =>
        let at' := time_of (sr_retrievedAt request) in
        time_blockers at' now maxAge "source_observation_from_future" "source_observation_stale"
        ++ when ((at' <? started) || (completed <? at')) "source_observation_outside_report_window").
Definition supplement_asset (v : ValidatedObservation) (s : ValidatedSupplement) : option SelectedAsset :=
  List.find (fun asset => bool_decide (symbol asset = si_symbol (vs_identity s))) (vo_selected v).
Definition supplement_blockers (v : ValidatedObservation) (s : ValidatedSupplement) : list string :=
  let identity := vs_identity s in
  match supplement_asset v s with
  | None => ["supplement_identity_not_selected"%string]
  | Some asset =>
      when (negb (bool_decide (issuer_text (issuerId asset) = si_issuerId identity) && bool_decide (mint asset = si_mint identity)
                  && bool_decide (underlying asset = si_underlyingSymbol identity)
                  && match om_get (vo_xstocks v) (si_symbol identity) with
                     | None => false
                     | Some o => bool_decide (rc_isin (va_registry o) = si_xstockIsin identity)
                                 && bool_decide (rc_underlyingIsin (va_registry o) = si_underlyingIsin identity)
                     end)) "supplement_identity_mismatch"
  end.

Definition DUPLICATE : string := "duplicate_entitlement_candidate".
Definition duplicated (u : uses) (announcement : js_string) : bool := Nat.ltb 1 (length (default [] (om_get u announcement))).
Definition flag_review (u : uses) (rv : EventRevisionReview) : EventRevisionReview :=
  match rv_isCurrentHead rv, rv_candidateCompanyDates rv with
  | true, Some d =>
      if duplicated u (cd_announcementId d)
      then MkReview (rv_record rv) (rv_isCurrentHead rv) (rv_candidateEncodings rv) (rv_candidateCompanyDates rv) (unique (rv_blockers rv ++ [DUPLICATE]))
      else rv
  | _, _ => rv
  end.
Definition with_revisions (revisions : list EventRevisionReview) (a : AssetQualificationReview) : AssetQualificationReview :=
  MkAssetReview (ar_asset a) (ar_observationState a) revisions (ar_currentHeads a) (ar_currentMint a) (ar_blockers a).
Definition with_blockers (blockers : list string) (a : AssetQualificationReview) : AssetQualificationReview :=
  MkAssetReview (ar_asset a) (ar_observationState a) (ar_revisions a) (ar_currentHeads a) (ar_currentMint a) (unique (ar_blockers a ++ blockers)).
(** [assets.find(...)], changed. *)
Fixpoint change_first (s : js_string) (f : AssetQualificationReview -> AssetQualificationReview) (l : list AssetQualificationReview) :=
  match l with
  | [] => []
  | a :: l' => if bool_decide (symbol (ar_asset a) = s) then f a :: l' else a :: change_first s f l'
  end.
Definition flag_duplicates (u : uses) (assets : list AssetQualificationReview) : list AssetQualificationReview :=
  (fun a => with_revisions (flag_review u <$> ar_revisions a) a) <$> assets.
Definition block_supplement (asset : option SelectedAsset) (blockers : list string) (assets : list AssetQualificationReview) :=
  match asset with
  | Some asset => if bool_decide (blockers = []) then assets else change_first (symbol asset) (with_blockers blockers) assets
  | None => assets
  end.

Definition maturity (requestedYear : Z) : js_string :=
  (ascii_Z <$> padStart0 4 (toString (requestedYear + 1))) ++ text "-01-01T00:00:00.000Z".
Definition DOSSIER_BLOCKERS : list string := ASSET_BLOCKERS ++ ["qualification_policy_unresolved"%string].
Definition review_announcements (s : ValidatedSupplement) (u : uses) (reviewDate : js_string) : list AnnouncementReview :=
  (fun e : js_string * Announcement =>
     MkAnnouncementReview (an_id e.2) (an_officialCivilExDate e.2) (an_payableDate e.2) (js_sort (default [] (om_get u (an_id e.2))))
       (negb (js_leb (an_officialCivilExDate e.2) reviewDate))) <$> vs_announcements s.
(** [now] is [None] when the given date is invalid; a valid one is between
    1970 and 9999. *)
Definition buildQualificationDossier (reportBytes : bytes) (report : json) (supplement : option json) (supplementBytes : option bytes)
    (requestedYear : Z) (now : option Z) (maximumObservationAgeMs : option Z) : res QualificationDossier :=
  check (isSafeInteger requestedYear && (1000 <=? requestedYear) && (requestedYear <=? 9999)) "invalid_year" ;;
  now ← match now with Some t => Ok t | None => Err "invalid_now"%string end;
  let maxAge := default DEFAULT_MAX_OBSERVATION_AGE_MS maximumObservationAgeMs in
  check (isSafeInteger maxAge && (0 <=? maxAge)) "invalid_maximum_observation_age" ;;
  value ← boundJson reportBytes report "observation_bytes_mismatch";
  validated ← validateObservationReport (Date_parse env) value requestedYear;
  supplied ← read_supplement supplement supplementBytes;
  let reviewDate := take 10 (text (toISOString now)) in
  let identityBlockers := match supplied with Some s => supplement_blockers validated s | None => [] end in
  '(reviews, u) ← foldM (asset_review validated supplied identityBlockers requestedYear now maxAge reviewDate) ([], []) (vo_selected validated);
  let duplicates := concat ((fun e : js_string * list js_string => when (Nat.ltb 1 (length e.2)) DUPLICATE) <$> u) in
  let supplementBlockers := identityBlockers ++ duplicates in
  let assets := block_supplement (supplied ≫= supplement_asset validated) supplementBlockers (flag_duplicates u reviews) in
  let blockers := concat [
    DOSSIER_BLOCKERS;
    when (match Date_parse env (maturity requestedYear) with Some m => (now <? m)%Z | None => false end) "term_not_matured";
    when ((requestedYear <? 2020) || (2100 <? requestedYear))%Z "program_year_range_unsupported";
    observation_blockers validated now maxAge; supplementBlockers; assets ≫= ar_blockers]%string in
  Ok (MkDossier requestedYear (maturity requestedYear) (toISOString now) maxAge
        (digest reportBytes, vo_startedAt validated, vo_completedAt validated, vo_requestObservations validated)
        (match supplied, supplementBytes with Some s, Some l => Some (digest l, vs_asOf s) | _, _ => None end)
        ((fun s => MkSupplementReview (vs_identity s) (review_announcements s u reviewDate) (unique supplementBlockers)) <$> supplied)
        (vo_selected validated) assets (unique blockers)).

(** ** Its summary *)

Record AssetSummary := MkAssetSummary {
  as_asset : SelectedAsset; as_observationState : js_string; as_revisionCount : nat; as_currentHeadCount : nat; as_candidateJoinCount : nat;
  as_currentMintChecked : bool; as_blockers : list string;
}.
Record QualificationSummary := MkSummary {
  qs_requestedYear : Z; qs_maturityAt : js_string; qs_generatedAt : string; qs_blockers : list string; qs_assets : list AssetSummary;
  qs_announcementCount : nat; qs_unlinkedAnnouncementCount : nat;
}.
Definition safeQualificationSummary (dossier : QualificationDossier) : QualificationSummary :=
  let announcements := match qd_supplementReview dossier with Some r => sp_announcements r | None => [] end in
  MkSummary (qd_requestedYear dossier) (qd_maturityAt dossier) (qd_generatedAt dossier) (qd_blockers dossier)
    ((fun a => MkAssetSummary (ar_asset a) (ar_observationState a) (length (ar_revisions a)) (length (ar_currentHeads a))
                 (length (List.filter (fun rv => rv_isCurrentHead rv && bool_decide (is_Some (rv_candidateCompanyDates rv))) (ar_revisions a)))
                 (match ar_currentMint a with Some m => cm_independentlyDecoded m | None => false end) (ar_blockers a)) <$> qd_assets dossier)
    (length announcements) (length (List.filter (fun a => bool_decide (aw_linkedCurrentEventIds a = [])) announcements)).
End review.
