(* ===== verification/QualificationProps.v ===== *)
(** * Issuer readers: what a dossier says

    Both reductions of an issuer's records agree; a dossier carries every
    blocker of every current event and asset; an announcement that is a
    candidate for two current events is flagged at both; and a review of the
    current mint without blockers has checked it against the chain's data. *)
From S2P Require Import Prelude Js Calendar IsoTime TxBytes TxArith TxQuotes TxAccounts Utf8 Json RpcPolicy.
From S2P Require Import IssuerSchema IssuerXstocks QualificationSchema Qualification.
Open Scope Z_scope.

(** ** Sorted sets of codes *)

Lemma insert_sorted_perm x l : insert_sorted x l ≡ₚ x :: l.
Proof. induction l as [|y l IH]; simpl; [done|]. destruct (String.leb x y); [done|]. rewrite IH. apply Permutation_swap. Qed.
Lemma unique_perm l : unique l ≡ₚ remove_dups l.
Proof. unfold unique. induction (remove_dups l) as [|x k IH]; simpl; [done|]. by rewrite insert_sorted_perm, IH. Qed.
Lemma elem_of_unique x l : x ∈ unique l <-> x ∈ l.
Proof. rewrite unique_perm. apply elem_of_remove_dups. Qed.
Lemma unique_subseteq l k : unique l ⊆ k <-> l ⊆ k.
Proof. split; intros H x Hx; apply H; by apply elem_of_unique. Qed.
Lemma elem_of_when (b : bool) code x : x ∈ when b code <-> b = true /\ x = code.
Proof.
  destruct b; cbn; [rewrite list_elem_of_singleton|rewrite elem_of_nil]; (split; [done|]); [by intros [_ ?]|by intros [? _]].
Qed.
Lemma elem_of_concat {A} (x : A) ls : x ∈ concat ls <-> exists l, l ∈ ls /\ x ∈ l.
Proof. rewrite list_elem_of_In, in_concat. setoid_rewrite list_elem_of_In. naive_solver. Qed.
Lemma concat_nil {A} (ls : list (list A)) l : concat ls = [] -> l ∈ ls -> l = [].
Proof.
  intros E Hl. destruct l as [|x l]; [done|]. assert (x ∈ concat ls) as H by (apply elem_of_concat; exists (x :: l); split; [done|left]).
  rewrite E in H. by apply not_elem_of_nil in H.
Qed.
Lemma unique_nil l : unique l = [] -> l = [].
Proof.
  intros E. destruct l as [|x l]; [done|]. assert (x ∈ unique (x :: l)) as H by (apply elem_of_unique; left).
  rewrite E in H. by apply not_elem_of_nil in H.
Qed.
Lemma when_nil (b : bool) code : when b code = [] -> b = false.
Proof. by destruct b. Qed.
Lemma time_blockers_nil time now maxAge future stale : time_blockers time now maxAge future stale = [] -> now - maxAge <= time <= now.
Proof. unfold time_blockers. repeat case_match; try done. breflect. lia. Qed.

(** ** The reductions agree *)

Lemma conflicts_grow locale_leb l acc : exists more, (fold_left (add_conflict locale_leb) l acc).2 = acc.2 ++ more.
Proof.
  revert acc. induction l as [|r l IH]; intros acc; cbn; [exists []; by rewrite app_nil_r|].
  destruct (IH (add_conflict locale_leb acc r)) as [more ->]. unfold add_conflict. cbn. case_match; [|by eauto].
  rewrite <- app_assoc. by eexists.
Qed.
Lemma reduce_step_eq locale_leb m r :
  reduce_step locale_leb m r = if contradicts locale_leb m r then Err "xstocks_conflicting_event_revision"%string else Ok (add_version m r).
Proof. unfold reduce_step. by destruct (contradicts locale_leb m r). Qed.
Lemma reductions_step locale_leb l versions :
  match foldM (reduce_step locale_leb) versions l with
  | Ok m => fold_left (add_conflict locale_leb) l (versions, []) = (m, [])
  | Err _ => (fold_left (add_conflict locale_leb) l (versions, [])).2 <> []
  end.
Proof.
  revert versions. induction l as [|r l IH]; intros versions; [done|]. cbn [foldM fold_left].
  rewrite reduce_step_eq. unfold add_conflict at 2 4. cbn [fst snd]. destruct (contradicts locale_leb versions r); [|apply IH].
  cbn. destruct (conflicts_grow locale_leb l (add_version versions r, [eventId r])) as [more ->]. done.
Qed.

(** C33: The two reductions of an issuer's records agree: where the
    qualification finds no conflict, its revisions and heads are those the
    reader observed; where it finds one, the reader refuses the records. *)
Theorem reductions_agree (locale_leb : js_string -> js_string -> bool) (records : list XstocksEventRevision) :
  match reduceXstocksRevisions locale_leb records with
  | Ok h => reduceRevisions locale_leb records = MkReduced (hs_records h) (rd_heads (reduceRevisions locale_leb records)) [] /\
            (rd_heads (reduceRevisions locale_leb records)).*2 = hs_latestObservedHeads h
  | Err _ => rd_conflicts (reduceRevisions locale_leb records) <> []
  end.
Proof.
  unfold reduceXstocksRevisions, reduceRevisions. pose proof (reductions_step locale_leb records []) as H.
  destruct (foldM (reduce_step locale_leb) [] records) as [m|code]; cbn; [by rewrite H|].
  by destruct (fold_left _ _ _) as [versions conflicts].
Qed.

(** ** The current mint *)

Section mint.
Context (env : reader_env).

(** What the review of a mint has checked where it has no blockers: a recent
    observation of mainnet at a finalized slot, of the asset's mint and the
    clock, whose data have the claimed digests and decode, the mint under its
    owner's program, to a profile that is supported, has the asset's decimals
    and is the claimed one; and the claimed factor is the active one. *)
Definition mint_checked (root : list (js_string * json)) (asset : SelectedAsset) (now maxAge : Z) (m : CurrentMintReview) : Prop :=
  is_text (own root "genesisHash") SOLANA_MAINNET_GENESIS = true /\ is_text (own root "commitment") "finalized" = true /\
  now - maxAge <= default 0 (Date_parse env (cm_retrievedAt m)) <= now /\
  cm_independentlyDecoded m = true /\ cm_profileMatchesClaim m = true /\ cm_latestFactorMatchesActiveBits m = true /\
  exists (mintAccount clockAccount : ParsedAccount) (clock : ChainClock) (claimed : ProfileClaim) (owner address : PublicKey) (mint' : Mint)
    (profile : InspectedMintProfile),
    pa_address mintAccount = mint asset /\ pa_owner mintAccount = tokenProgram asset /\
    pa_claimedDigest mintAccount = digest env (pa_data mintAccount) /\ cm_mintDataDigest m = Some (pa_claimedDigest mintAccount) /\
    pa_address clockAccount = CLOCK_ADDRESS /\ pa_owner clockAccount = CLOCK_OWNER /\
    pa_claimedDigest clockAccount = digest env (pa_data clockAccount) /\ cm_clockDataDigest m = Some (pa_claimedDigest clockAccount) /\
    clock_claim (own root "clock") = Ok clock /\ ck_slot clock = cm_contextSlot m /\ profile_claim (own root "profile") = Ok claimed /\
    PublicKey_of env (pa_address mintAccount) = Some address /\ PublicKey_of env (pa_owner mintAccount) = Some owner /\
    unpackMint (solana env) address (Info owner (pa_data mintAccount)) (TOKEN_2022_PROGRAM_ID (solana env)) = Some mint' /\
    inspect (solana env) mint' clock = Ok profile /\
    accountingFactorsSupported profile = true /\ f_decimals profile = decimals asset /\ profile_matches profile claimed = true.

Lemma parse_account_digest v a : parse_account env v = Ok a -> pa_actualDigest a = digest env (pa_data a).
Proof. unfold parse_account. intros H. by minv H. Qed.
Lemma mapM_Ok {A B} (f : A -> res B) l l' b : mapM f l = Ok l' -> b ∈ l' -> exists a, a ∈ l /\ f a = Ok b.
Proof.
  revert l'. induction l as [|a l IH]; cbn; intros l' H Hb; minv H; [by apply not_elem_of_nil in Hb|].
  apply elem_of_cons in Hb as [->|Hb]; [exists a; split; [left|done]|]. destruct (IH _ R1 Hb) as (a' & Ha & E). exists a'. split; [by right|done].
Qed.
Lemma digests_equal parsed clock_index a : digest_blockers parsed clock_index = [] -> a ∈ parsed -> pa_actualDigest a = pa_claimedDigest a.
Proof.
  intros E [i Hi]%list_elem_of_lookup. unfold digest_blockers in E.
  eassert (_ = []) as H. { eapply (concat_nil _ _ E). apply list_elem_of_lookup. exists i. rewrite list_lookup_imap, Hi. reflexivity. }
  cbn in H. case_bool_decide; done.
Qed.
Lemma some_or_throw_Ok {A} (o : option A) a : some_or_throw o = Ok a -> o = Some a.
Proof. by destruct o; intros [= ->]. Qed.
Lemma sdk_Ok {A} (r : TxBytes.res A) a : sdk r = Ok a -> r = Ok a.
Proof. by destruct r; intros [= ->]. Qed.

Lemma decode_current_ok mintAccount clockAccount context asset claimedClock claimed latest claimedLatest records :
  let state := decode_current env mintAccount clockAccount context asset claimedClock claimed latest claimedLatest records in
  ms_blockers state = [] ->
  ms_decoded state = true /\ ms_matches state = true /\ ms_latest state = true /\ ck_slot claimedClock = context /\
  exists owner address mint' profile,
    PublicKey_of env (pa_address mintAccount) = Some address /\ PublicKey_of env (pa_owner mintAccount) = Some owner /\
    unpackMint (solana env) address (Info owner (pa_data mintAccount)) (TOKEN_2022_PROGRAM_ID (solana env)) = Some mint' /\
    inspect (solana env) mint' claimedClock = Ok profile /\
    accountingFactorsSupported profile = true /\ f_decimals profile = decimals asset /\ profile_matches profile claimed = true.
Proof.
  unfold decode_current. cbv zeta. destruct (_ ≫= _) as [clock|]; [|done].
  destruct (some_or_throw (PublicKey_of env (pa_address mintAccount)) ≫= _) as [profile|] eqn:Hp; cbn; [|by intros [_ [=]]%app_eq_nil].
  minv Hp. apply some_or_throw_Ok in R, R0, R1. apply sdk_Ok in R3 as Hi.
  intros [Hc [Hs [Hm Hl]%app_eq_nil]%app_eq_nil]%app_eq_nil. apply when_nil in Hc, Hs, Hm, Hl. breflect. subst.
  split; [done|]. split; [done|]. split; [by apply Z.eqb_eq|]. split; [done|]. by exists a0, a, a1, profile.
Qed.

Lemma found_account parsed (a : js_string) (o : option ParsedAccount) owner :
  o = snd <$> list_find (fun e => pa_address e = a) parsed -> owner_differs o owner = false ->
  exists account, o = Some account /\ account ∈ parsed /\ pa_address account = a /\ pa_owner account = owner.
Proof.
  intros -> Ho. unfold owner_differs in Ho. destruct (list_find _ _) as [[i account]|] eqn:Hf; breflect; [|done].
  apply list_find_Some in Hf as (Hi & Ha & _). injection Ho as Ho. exists account. split; [done|]. split; [by eapply list_elem_of_lookup_2|done].
Qed.

(** C34: A review of the current mint without blockers is sound: the
    observation is recent, of mainnet and finalized; the accounts are the
    asset's mint, under its token program, and the clock, with data of the
    claimed digests; the data decode, to the claimed clock at the claimed slot
    and to a supported profile, the claimed one, with the asset's decimals; and
    the claimed factor is the active one. *)
Theorem mint_review_sound (root : list (js_string * json)) (asset : SelectedAsset) (now maxAge : Z) (records : list XstocksEventRevision)
    (m : CurrentMintReview) :
  reviewCurrentMint env root asset now maxAge records = Ok m -> cm_blockers m = [] -> mint_checked root asset now maxAge m.
Proof.
  unfold reviewCurrentMint. intros H. minv H. breflect. intros Hb%unique_nil.
  match goal with R : mapM _ _ = Ok ?l |- _ => rename l into parsed, R into Hparsed end.
  match goal with R : clock_claim _ = Ok ?c |- _ => rename c into clock, R into Hclock end.
  match goal with R : profile_claim _ = Ok ?c |- _ => rename c into claimed, R into Hclaimed end.
  cbn [concat] in Hb. repeat lazymatch type of Hb with _ ++ _ = [] => let E := fresh "E" in apply app_eq_nil in Hb as [E Hb] end.
  apply when_nil in E, E0, E1, E3, E4, E6, E7. apply negb_false_iff in E, E0. apply time_blockers_nil in E2.
  destruct (found_account parsed (mint asset) _ _ eq_refl E6) as (mintAccount & Hm & Hmi & Hma & Hmo).
  destruct (found_account parsed CLOCK_ADDRESS _ _ eq_refl E7) as (clockAccount & Hc & Hci & Hca & Hco).
  destruct (mapM_Ok _ _ _ _ Hparsed Hmi) as (v1 & _ & Hd1%parse_account_digest), (mapM_Ok _ _ _ _ Hparsed Hci) as (v2 & _ & Hd2%parse_account_digest).
  pose proof (digests_equal _ _ _ E5 Hmi) as Hq1. pose proof (digests_equal _ _ _ E5 Hci) as Hq2.
  rewrite Hm, Hc in *. apply decode_current_ok in E8 as (Hs1 & Hs2 & Hs3 & Hs4 & owner & address & mint' & profile & Hrest).
  do 2 (split; [done|]). split; [done|]. cbn. do 3 (split; [done|]).
  exists mintAccount, clockAccount, clock, claimed, owner, address, mint', profile.
  rewrite <- Hq1, <- Hq2, <- Hd1, <- Hd2. do 11 (split; [done|]). done.
Qed.
End mint.

(** ** Announcements and their uses *)

(** A current event for which an announcement is a candidate. *)
Definition linked (rv : EventRevisionReview) (announcement event : js_string) : Prop :=
  rv_isCurrentHead rv = true /\ eventId (rv_record rv) = event /\
  exists d, rv_candidateCompanyDates rv = Some d /\ cd_announcementId d = announcement.
Definition used (u : uses) (announcement : js_string) : list js_string := default [] (om_get u announcement).
Definition uses_distinct (u : uses) : Prop := forall announcement, NoDup (used u announcement).

Lemma add_use_used u announcement event a :
  used (add_use u announcement event) a =
  if bool_decide (a = announcement) then (if bool_decide (event ∈ used u a) then used u a else used u a ++ [event]) else used u a.
Proof.
  unfold add_use, used. destruct (decide (a = announcement)) as [->|Hne].
  - by rewrite om_get_set_eq, (bool_decide_true (announcement = announcement)).
  - by rewrite om_get_set_ne, (bool_decide_false (a = announcement)).
Qed.
Lemma add_review_use_spec u rv a e :
  e ∈ used (add_review_use u rv) a <-> e ∈ used u a \/ linked rv a e.
Proof.
  unfold add_review_use, linked. destruct (rv_isCurrentHead rv); [|by split; [left|intros [?|[? _]]]].
  destruct (rv_candidateCompanyDates rv) as [d|]; [|by split; [left|intros [?|(_ & _ & ? & ? & _)]]]. rewrite add_use_used.
  case_bool_decide as Ha; [subst|split; [by left|intros [?|(_ & _ & d' & [= <-] & ?)]; [done|by destruct Ha]]].
  case_bool_decide as He; [split; [by left|by intros [?|(_ & <- & _)]]|].
  rewrite elem_of_app, list_elem_of_singleton. split; (intros [H|H]; [by left|right]); [by subst; eauto|by destruct H as (_ & <- & _)].
Qed.
Lemma add_review_use_distinct u rv : uses_distinct u -> uses_distinct (add_review_use u rv).
Proof.
  intros Hu a. unfold add_review_use. repeat case_match; try apply Hu. rewrite add_use_used.
  case_bool_decide; [|apply Hu]. case_bool_decide; [apply Hu|]. apply NoDup_app. split; [apply Hu|]. split; [|apply NoDup_singleton].
  by intros x Hx ->%list_elem_of_singleton.
Qed.
Lemma add_reviews_spec rvs u a e :
  e ∈ used (fold_left add_review_use rvs u) a <-> e ∈ used u a \/ exists rv, rv ∈ rvs /\ linked rv a e.
Proof.
  revert u. induction rvs as [|rv rvs IH]; intros u; cbn [fold_left].
  { split; [by left|by intros [?|(rv & []%not_elem_of_nil & _)]]. }
  rewrite IH, add_review_use_spec. split.
  - intros [[H|H]|(rv' & Hin & H)]; [by left|right; exists rv; split; [left|done]|right; exists rv'; split; [by right|done]].
  - intros [H|(rv' & [->|Hin]%elem_of_cons & H)]; [by do 2 left|by left; right|by right; exists rv'].
Qed.
Lemma add_reviews_distinct rvs u : uses_distinct u -> uses_distinct (fold_left add_review_use rvs u).
Proof. revert u. induction rvs; intros u Hu; cbn; [done|]. by apply IHrvs, add_review_use_distinct. Qed.

(** More than one of the events used: another than the given one. *)
Lemma duplicated_spec u a e : uses_distinct u -> e ∈ used u a -> duplicated u a = true <-> exists e', e' ∈ used u a /\ e' <> e.
Proof.
  intros Hu He. unfold duplicated. fold (used u a). specialize (Hu a). destruct (used u a) as [|x [|y l]] eqn:Hl.
  - by apply not_elem_of_nil in He.
  - apply list_elem_of_singleton in He as ->. cbn. split; [done|]. by intros (e' & ->%list_elem_of_singleton & []).
  - cbn. split; [intros _|done]. apply NoDup_cons in Hu as [Hx _]. rewrite elem_of_cons in Hx.
    destruct (decide (x = e)) as [->|]; [exists y|exists x]; (split; [|naive_solver]); [right; left|left].
Qed.

(** ** What is reviewed *)

Section dossier.
Context (env : reader_env).

Lemma candidate_blockers s r year date : Forall (fun x => x <> DUPLICATE) (candidateDates s r year date).2.
Proof. unfold candidateDates. repeat (case_match; cbn); repeat constructor; done. Qed.
Lemma review_not_duplicate r h asset s year date conflict observed :
  DUPLICATE ∉ rv_blockers (reviewRevision r h asset s year date conflict observed).
Proof.
  unfold reviewRevision. cbn [rv_blockers]. rewrite elem_of_unique. intros Hin.
  enough (Forall (fun x => x <> DUPLICATE) (concat _ ++ MISSING_EVIDENCE)) as H by exact (proj1 (Forall_forall _ _) H _ Hin eq_refl).
  apply Forall_app. split; [apply Forall_concat|by repeat constructor].
  repeat (apply Forall_cons; split); [by repeat case_match; repeat constructor..| |done].
  destruct h; [|done]. destruct s as [s|]; [|by repeat constructor].
  destruct (bool_decide (si_symbol _ = _)); [apply candidate_blockers|by repeat constructor].
Qed.
Lemma review_dates r h asset s year date conflict observed :
  is_Some (rv_candidateCompanyDates (reviewRevision r h asset s year date conflict observed)) ->
  exists s', s = Some s' /\ si_symbol (vs_identity s') = symbol asset.
Proof. unfold reviewRevision. cbn. destruct s as [s|]; cbn; [|by intros []]. case_bool_decide; [eauto|by intros []]. Qed.

(** What the reviews of the assets say before duplicates are looked for. *)
Record review_ok (supplied : option ValidatedSupplement) (identityBlockers : list string) (a : AssetQualificationReview) : Prop := {
  ok_asset_blockers : ASSET_BLOCKERS ⊆ ar_blockers a;
  ok_head_blockers rv : rv ∈ ar_revisions a -> rv_isCurrentHead rv = true -> rv_blockers rv ⊆ ar_blockers a;
  ok_mint_blockers m : ar_currentMint a = Some m -> cm_blockers m ⊆ ar_blockers a;
  ok_dates rv : rv ∈ ar_revisions a -> is_Some (rv_candidateCompanyDates rv) ->
    identityBlockers = [] /\ exists s, supplied = Some s /\ si_symbol (vs_identity s) = symbol (ar_asset a);
  ok_not_flagged rv : rv ∈ ar_revisions a -> DUPLICATE ∉ rv_blockers rv;
}.
Definition reviews_ok (supplied : option ValidatedSupplement) (identityBlockers : list string) (assets : list SelectedAsset)
    (acc : list AssetQualificationReview * uses) : Prop :=
  ar_asset <$> acc.1 = assets /\ Forall (review_ok supplied identityBlockers) acc.1 /\ uses_distinct acc.2 /\
  forall announcement event, event ∈ used acc.2 announcement <->
    exists a rv, a ∈ acc.1 /\ rv ∈ ar_revisions a /\ linked rv announcement event.

Lemma review_records_spec o reduced asset s year date rv :
  rv ∈ review_records o reduced asset s year date ->
  (DUPLICATE ∉ rv_blockers rv) /\ (is_Some (rv_candidateCompanyDates rv) -> exists s', s = Some s' /\ si_symbol (vs_identity s') = symbol asset).
Proof.
  intros (r & -> & _)%list_elem_of_fmap. split; [apply review_not_duplicate|apply review_dates].
Qed.

Lemma asset_review_ok v supplied ib year now maxAge date assets acc asset acc' :
  reviews_ok supplied ib assets acc -> asset_review env v supplied ib year now maxAge date acc asset = Ok acc' ->
  reviews_ok supplied ib (assets ++ [asset]) acc'.
Proof.
  intros (Ha & Hok & Hd & Hu). unfold asset_review. intros H. minv H.
  set (observed := om_get (vo_xstocks v) (symbol asset)) in *. set (supp := match supplied with Some _ => _ | None => None end) in *.
  set (revisions := match observed with Some _ => _ | None => [] end).
  match goal with |- reviews_ok _ _ _ (_ ++ [?x], _) => set (review := x) end.
  assert (Hnew : review_ok supplied ib review).
  { split; cbn [ar_asset ar_blockers ar_revisions ar_currentMint review].
    - intros x Hx. apply elem_of_unique, elem_of_app. by left.
    - intros rv Hrv Hh x Hx. apply elem_of_unique, elem_of_app. right. apply elem_of_app. left.
      unfold revisions in *. destruct observed as [o|]; [|by apply not_elem_of_nil in Hrv].
      apply elem_of_concat. eexists. split; [right; left|]. apply list_elem_of_bind. exists rv. split; [done|].
      apply list_elem_of_In, filter_In. by rewrite <- list_elem_of_In.
    - intros m -> x Hx. apply elem_of_unique, elem_of_app. right. apply elem_of_app. right. apply elem_of_app. by left.
    - intros rv Hrv Hs. unfold revisions in Hrv. destruct observed as [o|]; [|by apply not_elem_of_nil in Hrv].
      destruct (review_records_spec _ _ _ _ _ _ _ Hrv) as [_ Hs']. destruct (Hs' Hs) as (s & Hs1 & Hs2).
      unfold supp in Hs1. destruct supplied as [s0|]; [|done]. case_match eqn:Hb; [|done]. injection Hs1 as ->.
      apply andb_prop in Hb as [_ Hb]. apply bool_decide_eq_true in Hb. split; [done|]. by exists s.
    - intros rv Hrv. unfold revisions in Hrv. destruct observed as [o|]; [|by apply not_elem_of_nil in Hrv].
      by destruct (review_records_spec _ _ _ _ _ _ _ Hrv). }
  split; [cbn [fst]; by rewrite fmap_app, Ha|]. split; [by apply Forall_app; split; [|apply Forall_singleton]|].
  split; [by apply add_reviews_distinct|]. intros announcement event. cbn [fst snd]. rewrite add_reviews_spec, Hu. split.
  - intros [(a' & rv & Hin & Hrv & Hl)|(rv & Hrv & Hl)].
    + exists a', rv. split; [apply elem_of_app; by left|done].
    + exists review, rv. split; [apply elem_of_app; right; left|done].
  - intros (a' & rv & [Hin| ->%list_elem_of_singleton]%elem_of_app & Hrv & Hl); [left; by exists a', rv|right; by exists rv].
Qed.
Lemma reviews_start supplied ib : reviews_ok supplied ib [] ([], []).
Proof.
  split; [done|]. split; [constructor|]. split; [intros a; constructor|].
  intros a e. split; [by intros []%not_elem_of_nil|by intros (? & ? & []%not_elem_of_nil & _)].
Qed.
Lemma reviews_all v supplied ib year now maxAge date assets acc :
  foldM (asset_review env v supplied ib year now maxAge date) ([], []) assets = Ok acc -> reviews_ok supplied ib assets acc.
Proof. apply foldM_inv; [apply reviews_start|]. intros ???? H1 H2. by eapply asset_review_ok. Qed.

(** ** From the reviews to the dossier *)

Lemma change_first_map s f l :
  NoDup ((fun a => symbol (ar_asset a)) <$> l) ->
  change_first s f l = (fun a => if bool_decide (symbol (ar_asset a) = s) then f a else a) <$> l.
Proof.
  induction l as [|a l IH]; csimpl; [done|]. intros [Ha Hl]%NoDup_cons. case_bool_decide as Hs; [|by rewrite IH].
  f_equal. transitivity (id <$> l); [by rewrite list_fmap_id|]. apply list_fmap_ext. intros i b Hb%list_elem_of_lookup_2.
  rewrite bool_decide_false; [done|]. intros E. apply Ha, list_elem_of_fmap. exists b. split; [congruence|done].
Qed.

(** The selected asset a supplement is about. *)
Definition chosen (selected : list SelectedAsset) (s : ValidatedSupplement) : option SelectedAsset :=
  List.find (fun asset => bool_decide (symbol asset = si_symbol (vs_identity s))) selected.
(** How a dossier is made of the reviews. *)
Record made_of (d : QualificationDossier) (supplied : option ValidatedSupplement) (ib : list string)
    (reviews : list AssetQualificationReview) (u : uses) : Prop := {
  mo_reviews : reviews_ok supplied ib (qd_selected d) (reviews, u);
  mo_distinct : NoDup (symbol <$> qd_selected d);
  mo_assets : exists sb, qd_assets d = block_supplement (supplied ≫= chosen (qd_selected d)) sb (flag_duplicates u reviews) /\ sb ⊆ qd_blockers d /\
    (forall announcement, duplicated u announcement = true -> DUPLICATE ∈ sb);
  mo_blockers : DOSSIER_BLOCKERS ⊆ qd_blockers d /\ forall a, a ∈ qd_assets d -> ar_blockers a ⊆ qd_blockers d;
}.

Lemma duplicates_pushed (u : uses) announcement :
  duplicated u announcement = true -> DUPLICATE ∈ concat ((fun e : js_string * list js_string => when (Nat.ltb 1 (length e.2)) DUPLICATE) <$> u).
Proof.
  unfold duplicated. destruct (om_get u announcement) as [ids|] eqn:Hg; [|done]. intros Hd. apply elem_of_concat.
  exists (when true DUPLICATE). split; [|left]. apply list_elem_of_fmap. exists (announcement, ids). split; [by cbn in *; rewrite Hd|].
  by apply list_elem_of_In, om_get_In.
Qed.

Lemma validated_distinct value year v : validateObservationReport (Date_parse env) value year = Ok v -> NoDup (symbol <$> vo_selected v).
Proof. unfold validateObservationReport. intros H. minv H. by breflect. Qed.

Lemma find_symbol s l (asset : SelectedAsset) : asset ∈ l -> symbol asset = s ->
  exists asset', List.find (fun a => bool_decide (symbol a = s)) l = Some asset' /\ symbol asset' = symbol asset.
Proof.
  intros Hin <-. destruct (List.find _ l) as [asset'|] eqn:Hf.
  - apply find_some in Hf as [_ Hb]. breflect. by exists asset'.
  - apply list_elem_of_In in Hin. pose proof (find_none _ _ Hf asset Hin) as Hb. cbn in Hb. by rewrite bool_decide_true in Hb.
Qed.

Lemma build_made reportBytes report supplement supplementBytes year now maxAge d :
  buildQualificationDossier env reportBytes report supplement supplementBytes year now maxAge = Ok d ->
  exists supplied ib reviews u, made_of d supplied ib reviews u.
Proof.
  unfold buildQualificationDossier. intros H. minv H.
  match goal with R : validateObservationReport _ _ _ = Ok ?v |- _ => rename v into validated; apply validated_distinct in R as Hnd end.
  match goal with R : read_supplement _ _ _ = Ok ?s |- _ => rename s into supplied end.
  match goal with R : foldM _ _ _ = Ok (?r, ?x) |- _ => rename r into reviews, x into u; apply reviews_all in R as Hr end.
  eexists supplied, _, reviews, u. split; cbn [qd_selected qd_assets qd_blockers]; [exact Hr|exact Hnd| |].
  - eexists. split; [reflexivity|]. split.
    + intros x Hx. apply elem_of_unique, elem_of_concat. eexists. split; [do 4 right; left|exact Hx].
    + intros announcement Hd. apply elem_of_app. right. by eapply duplicates_pushed.
  - split.
    + intros x Hx. apply elem_of_unique, elem_of_concat. eexists. split; [left|exact Hx].
    + intros a' Ha x Hx. apply elem_of_unique, elem_of_concat. eexists. split; [do 5 right; left|]. apply list_elem_of_bind. by exists a'.
Qed.

(** What becomes of one review. *)
Definition finish (asset : option SelectedAsset) (sb : list string) (u : uses) (a : AssetQualificationReview) : AssetQualificationReview :=
  let a' := with_revisions (flag_review u <$> ar_revisions a) a in
  match asset with
  | Some asset => if bool_decide (sb <> []) && bool_decide (symbol (ar_asset a) = symbol asset) then with_blockers sb a' else a'
  | None => a'
  end.
Lemma finish_map asset sb u reviews :
  NoDup (symbol <$> (ar_asset <$> reviews)) ->
  block_supplement asset sb (flag_duplicates u reviews) = finish asset sb u <$> reviews.
Proof.
  intros Hnd. unfold block_supplement, flag_duplicates. destruct asset as [asset|]; [|done]. case_bool_decide as Hsb.
  - apply list_fmap_ext. intros i a _. unfold finish. by rewrite (bool_decide_false (sb <> [])) by (by intros []).
  - rewrite change_first_map.
    + rewrite <- list_fmap_compose. apply list_fmap_ext. intros i a _. unfold finish. cbn. by rewrite (bool_decide_true (sb <> [])).
    + rewrite <- list_fmap_compose. rewrite <- list_fmap_compose in Hnd. exact Hnd.
Qed.
Lemma finish_asset asset sb u a : ar_asset (finish asset sb u a) = ar_asset a.
Proof. unfold finish. by repeat case_match. Qed.
Lemma finish_mint asset sb u a : ar_currentMint (finish asset sb u a) = ar_currentMint a.
Proof. unfold finish. by repeat case_match. Qed.
Lemma finish_revisions asset sb u a : ar_revisions (finish asset sb u a) = flag_review u <$> ar_revisions a.
Proof. unfold finish. by repeat case_match. Qed.
Lemma finish_blockers asset sb u a : ar_blockers a ⊆ ar_blockers (finish asset sb u a).
Proof.
  intros x Hx. unfold finish. repeat case_match; try done. cbn [with_blockers ar_blockers]. apply elem_of_unique, elem_of_app. by left.
Qed.
Lemma finish_pushed asset asset' sb u a x :
  asset = Some asset' -> symbol (ar_asset a) = symbol asset' -> x ∈ sb -> x ∈ ar_blockers (finish asset sb u a).
Proof.
  intros -> E Hx. unfold finish. rewrite !bool_decide_true; [|done|by intros ->; apply not_elem_of_nil in Hx].
  cbn [andb with_blockers ar_blockers]. apply elem_of_unique, elem_of_app. by right.
Qed.

Lemma flag_linked u rv announcement event : linked (flag_review u rv) announcement event <-> linked rv announcement event.
Proof. destruct rv as [r [] e [dates|] b]; try done. unfold flag_review, linked. cbn [rv_isCurrentHead rv_candidateCompanyDates rv_record]. by destruct (duplicated u (cd_announcementId dates)). Qed.
Lemma flag_head u rv : rv_isCurrentHead (flag_review u rv) = rv_isCurrentHead rv.
Proof. destruct rv as [r [] e [dates|] b]; try done. unfold flag_review. cbn [rv_isCurrentHead rv_candidateCompanyDates rv_record]. by destruct (duplicated u (cd_announcementId dates)). Qed.
Lemma flag_record u rv : rv_record (flag_review u rv) = rv_record rv.
Proof. destruct rv as [r [] e [dates|] b]; try done. unfold flag_review. cbn [rv_isCurrentHead rv_candidateCompanyDates rv_record]. by destruct (duplicated u (cd_announcementId dates)). Qed.
Lemma flag_blockers u rv x :
  x ∈ rv_blockers (flag_review u rv) <->
  x ∈ rv_blockers rv \/ (x = DUPLICATE /\ exists announcement, linked rv announcement (eventId (rv_record rv)) /\ duplicated u announcement = true).
Proof.
  unfold flag_review, linked. destruct (rv_isCurrentHead rv); [|split; [by left|by intros [?|(_ & ? & [? _] & _)]]].
  destruct (rv_candidateCompanyDates rv) as [dates|]; [|split; [by left|by intros [?|(_ & ? & (_ & _ & ? & ? & _) & _)]]].
  destruct (duplicated u (cd_announcementId dates)) eqn:Hd; cbn [rv_blockers].
  - rewrite elem_of_unique, elem_of_app, list_elem_of_singleton. split; (intros [?|H]; [by left|right]); [by eauto 10|by destruct H].
  - split; [by left|]. intros [?|(_ & ? & (_ & _ & dates' & [= <-] & <-) & E)]; [done|congruence].
Qed.

Lemma made_assets d supplied ib reviews u :
  made_of d supplied ib reviews u ->
  exists sb, qd_assets d = finish (supplied ≫= chosen (qd_selected d)) sb u <$> reviews /\ sb ⊆ qd_blockers d /\
    (forall announcement, duplicated u announcement = true -> DUPLICATE ∈ sb).
Proof.
  intros [(Ha & _) Hnd (sb & E & Hrest) _]. exists sb. split; [|done]. rewrite E. apply finish_map. cbn in Ha. by rewrite Ha.
Qed.

(** A flagged review belongs to the asset the supplement is about. *)
Lemma flagged_asset d supplied ib reviews u a rv announcement event :
  made_of d supplied ib reviews u -> a ∈ reviews -> rv ∈ ar_revisions a -> linked rv announcement event ->
  exists asset, supplied ≫= chosen (qd_selected d) = Some asset /\ symbol (ar_asset a) = symbol asset.
Proof.
  intros [(Has & Hok & _) _ _ _] Ha Hrv (_ & _ & dates & Hdates & _). cbn in Has, Hok.
  pose proof (proj1 (Forall_forall _ _) Hok _ Ha) as Ha'. destruct (ok_dates _ _ _ Ha' rv Hrv) as (_ & s & -> & Hs); [by eexists|].
  destruct (find_symbol (si_symbol (vs_identity s)) (qd_selected d) (ar_asset a)) as (asset & Hf & E).
  - rewrite <- Has. by apply list_elem_of_fmap_2.
  - by rewrite Hs.
  - exists asset. split; [exact Hf|done].
Qed.
End dossier.

(** ** What a dossier promises *)

(** Every blocker of a current event is one of its asset, and every blocker of
    an asset one of the dossier, with those no input can lift. *)
Definition carries_blockers (d : QualificationDossier) : Prop :=
  ar_asset <$> qd_assets d = qd_selected d /\ DOSSIER_BLOCKERS ⊆ qd_blockers d /\
  forall a, a ∈ qd_assets d ->
    ASSET_BLOCKERS ⊆ ar_blockers a /\ ar_blockers a ⊆ qd_blockers d /\
    (forall m, ar_currentMint a = Some m -> cm_blockers m ⊆ ar_blockers a) /\
    forall rv, rv ∈ ar_revisions a -> rv_isCurrentHead rv = true -> rv_blockers rv ⊆ ar_blockers a.
(** A current event is flagged exactly when the announcement that is its
    candidate is one for another current event as well. *)
Definition duplicates_flagged (d : QualificationDossier) : Prop :=
  forall a rv announcement, a ∈ qd_assets d -> rv ∈ ar_revisions a -> linked rv announcement (eventId (rv_record rv)) ->
    DUPLICATE ∈ rv_blockers rv <->
    exists a' rv' event, a' ∈ qd_assets d /\ rv' ∈ ar_revisions a' /\ linked rv' announcement event /\ event <> eventId (rv_record rv).

(** C35: A dossier carries every blocker: those of a current event, with the
    flag for an announcement used twice, are its asset's, and those of an asset
    and of its mint's review the dossier's; what no input can lift is always
    there, and the assets are those selected. *)
Theorem dossier_carries_blockers (env : reader_env) (reportBytes : bytes) (report : json) (supplement : option json) (supplementBytes : option bytes)
    (requestedYear : Z) (now maxAge : option Z) (d : QualificationDossier) :
  buildQualificationDossier env reportBytes report supplement supplementBytes requestedYear now maxAge = Ok d -> carries_blockers d.
Proof.
  intros (supplied & ib & reviews & u & Hm)%build_made. destruct (made_assets _ _ _ _ _ Hm) as (sb & Ea & Hsb & Hdup).
  pose proof (mo_reviews _ _ _ _ _ Hm) as (Has & Hok & _). destruct (mo_blockers _ _ _ _ _ Hm) as [Hb Hba]. cbn in Has, Hok.
  split; [|split; [done|]].
  { rewrite Ea, <- list_fmap_compose, <- Has. apply list_fmap_ext. intros i a _. apply finish_asset. }
  intros a Hin. split; [|split; [by apply Hba|]]; rewrite Ea in Hin; apply list_elem_of_fmap in Hin as (a0 & -> & Ha0);
    pose proof (proj1 (Forall_forall _ _) Hok _ Ha0) as H0; pose proof (finish_blockers (supplied ≫= chosen (qd_selected d)) sb u a0) as Hf.
  { etrans; [apply (ok_asset_blockers _ _ _ H0)|done]. }
  split; [intros m; rewrite finish_mint; intros Em; etrans; [by apply (ok_mint_blockers _ _ _ H0)|done]|].
  intros rv. rewrite finish_revisions. intros (rv0 & -> & Hrv0)%list_elem_of_fmap Hh x [Hx|(-> & announcement & Hl & Hd)]%flag_blockers.
  - apply Hf. apply (ok_head_blockers _ _ _ H0 rv0 Hrv0); [|done]. by rewrite flag_head in Hh.
  - destruct (flagged_asset _ _ _ _ _ _ _ _ _ Hm Ha0 Hrv0 Hl) as (asset & Ec & Es). eapply finish_pushed; [done..|]. by apply (Hdup announcement).
Qed.

Lemma linked_determines rv a b e e' : linked rv a e -> linked rv b e' -> a = b.
Proof. intros (_ & _ & d & Hd & <-) (_ & _ & d' & Hd' & <-). congruence. Qed.

(** C36: No dividend is counted twice unnoticed: among the current events of all
    assets, one carries the duplicate flag exactly when the announcement that
    is its candidate is also the candidate of a different current event. *)
Theorem dossier_flags_duplicates (env : reader_env) (reportBytes : bytes) (report : json) (supplement : option json) (supplementBytes : option bytes)
    (requestedYear : Z) (now maxAge : option Z) (d : QualificationDossier) :
  buildQualificationDossier env reportBytes report supplement supplementBytes requestedYear now maxAge = Ok d -> duplicates_flagged d.
Proof.
  intros (supplied & ib & reviews & u & Hm)%build_made. destruct (made_assets _ _ _ _ _ Hm) as (sb & Ea & _).
  pose proof (mo_reviews _ _ _ _ _ Hm) as (_ & Hok & Hdist & Hu). cbn in Hok, Hdist, Hu.
  intros a rv announcement Hin Hrv Hl. rewrite Ea in *. apply list_elem_of_fmap in Hin as (a0 & -> & Ha0).
  rewrite finish_revisions in Hrv. apply list_elem_of_fmap in Hrv as (rv0 & -> & Hrv0). rewrite flag_record in *. rewrite flag_linked in Hl.
  assert (Hused : eventId (rv_record rv0) ∈ used u announcement) by (apply Hu; by exists a0, rv0).
  assert (Hflag : DUPLICATE ∈ rv_blockers (flag_review u rv0) <-> duplicated u announcement = true).
  { rewrite flag_blockers. split; [|by eauto]. intros [Hx|(_ & a' & Hl' & Hd)]; [|by rewrite (linked_determines _ _ _ _ _ Hl Hl')].
    destruct (ok_not_flagged _ _ _ (proj1 (Forall_forall _ _) Hok _ Ha0) rv0 Hrv0 Hx). }
  rewrite Hflag, (duplicated_spec _ _ _ Hdist Hused). split.
  - intros (event & (a' & rv' & Ha' & Hrv' & Hl')%Hu & Hne). exists (finish (supplied ≫= chosen (qd_selected d)) sb u a'), (flag_review u rv'), event.
    rewrite finish_revisions, flag_linked. split; [by apply list_elem_of_fmap_2|]. split; [by apply list_elem_of_fmap_2|done].
  - intros (a' & rv' & event & (a1 & -> & Ha1)%list_elem_of_fmap & Hrv' & Hl' & Hne). rewrite finish_revisions in Hrv'.
    apply list_elem_of_fmap in Hrv' as (rv1 & -> & Hrv1). rewrite flag_linked in Hl'. exists event. split; [|done]. apply Hu. by exists a1, rv1.
Qed.

(** ** Accepted reports *)

(** What an accepted report names: assets of the catalog, each once, and the
    records of events of selected xStocks, each of its asset and of the
    registry observed with it, within the limit. *)
Definition accepted (v : ValidatedObservation) : Prop :=
  vo_selected v ⊆ SELECTED_ASSETS /\ NoDup (symbol <$> vo_selected v) /\ 1 <= Z.of_nat (length (vo_selected v)) <= QUALIFICATION_MAX_ASSETS /\
  (forall s o, om_get (vo_xstocks v) s = Some o ->
     exists asset, asset ∈ vo_selected v /\ symbol asset = s /\ issuerId asset = xstocks /\
       Forall (fun r => event_matches (va_registry o) asset r = true) (va_records o)) /\
  om_sum (fun o => Z.of_nat (length (va_records o))) (vo_xstocks v) + Z.of_nat (length (vo_requestObservations v)) <= QUALIFICATION_MAX_SOURCE_RECORDS.

Lemma exactAsset_catalog v asset : exactAsset v = Ok asset -> asset ∈ SELECTED_ASSETS /\ catalog_asset (symbol asset) = Some asset.
Proof.
  unfold exactAsset. intros H. minv H. 
  match goal with R : match catalog_asset ?s with _ => _ end = _ |- _ => destruct (catalog_asset s) as [frozen|] eqn:Hf; [|done]; minv R end.
  unfold catalog_asset in Hf.
  pose proof Hf as [Hin Hb]%find_some. breflect. split; [by apply list_elem_of_In|]. unfold catalog_asset. by rewrite Hb.
Qed.

Lemma mapM_Forall {A B} (f : A -> res B) (P : B -> Prop) l l' : mapM f l = Ok l' -> (forall a b, f a = Ok b -> P b) -> Forall P l'.
Proof. intros H Hf. apply Forall_forall. intros b Hb. destruct (mapM_Ok _ _ _ _ H Hb) as (a & _ & Ha). by eapply Hf. Qed.
Lemma mapM_length {A B} (f : A -> res B) l l' : mapM f l = Ok l' -> length l' = length l.
Proof. revert l'. induction l as [|a l IH]; cbn; intros l' H; minv H; cbn; [done|]. by rewrite (IH _ R1). Qed.

(** What the loop over the issuers keeps of what it has gathered. *)
Record gathered_ok (selected : list SelectedAsset) (g : gathered) : Prop := {
  go_xstocks s o : om_get (g_xstocks g) s = Some o ->
    exists asset, asset ∈ selected /\ symbol asset = s /\ issuerId asset = xstocks /\
      Forall (fun r => event_matches (va_registry o) asset r = true) (va_records o);
  go_seen s : s ∈ (g_xstocks g).*1 -> s ∈ seenAssets g;
  go_count : om_sum (fun o => Z.of_nat (length (va_records o))) (g_xstocks g) + Z.of_nat (length (requestObservations g)) <= sourceRecords g;
}.

Lemma count_ok selected g n : 0 <= n -> gathered_ok selected g -> gathered_ok selected (count_records n g).
Proof. intros Hn [Hx Hs Hc]. split; [done|done|]. cbn in *. lia. Qed.
Lemma requests_ok Date_parse selected l g g' digests :
  gathered_ok selected g -> source_requests Date_parse g l = Ok (g', digests) -> gathered_ok selected g'.
Proof.
  intros [Hx Hs Hc] Hf.
  assert (g_xstocks g' = g_xstocks g /\ seenAssets g' = seenAssets g /\ sourceRecords g' = sourceRecords g + Z.of_nat (length l) /\
          length (requestObservations g') = (length (requestObservations g) + length l)%nat) as (E1 & E2 & E3 & E4).
  { apply (foldM_inv _ (fun done acc => g_xstocks acc.1 = g_xstocks g /\ seenAssets acc.1 = seenAssets g /\
      sourceRecords acc.1 = sourceRecords g + Z.of_nat (length l) /\
      length (requestObservations acc.1) = (length (requestObservations g) + length done)%nat)) in Hf; [done|by rewrite Nat.add_0_r|].
    intros done acc v acc' (E1 & E2 & E3 & E4) H. apply bind_Ok_inv in H as ([r ds] & _ & H). injection H as <-. cbn.
    rewrite !length_app, E4. cbn. split; [done|]. split; [done|]. split; [done|lia]. }
  split; rewrite ?E1, ?E2; [done|done|lia].
Qed.

Lemma set_xstocks_ok selected g asset o n :
  gathered_ok selected g -> om_get (g_xstocks g) (symbol asset) = None -> asset ∈ selected -> issuerId asset = xstocks ->
  Forall (fun r => event_matches (va_registry o) asset r = true) (va_records o) -> symbol asset ∈ seenAssets g -> n = Z.of_nat (length (va_records o)) ->
  gathered_ok selected (set_xstocks (symbol asset) o (count_records n g)).
Proof.
  intros [Hx Hs Hc] Hnone Hin Hi Hr Hseen ->. split; cbn.
  - intros s o'. destruct (decide (s = symbol asset)) as [->|Hne].
    + rewrite om_get_set_eq. intros [= <-]. by exists asset.
    + rewrite om_get_set_ne by done. apply Hx.
  - intros s. rewrite om_set_keys. case_match; [by apply Hs|]. intros [Hk|Hk%list_elem_of_singleton]%elem_of_app; [by apply Hs|by subst].
  - rewrite om_sum_set_None by done. lia.
Qed.
Lemma xstocks_asset_ok Date_parse selected detail asset digests g g' :
  gathered_ok selected g -> om_get (g_xstocks g) (symbol asset) = None -> asset ∈ selected -> issuerId asset = xstocks -> symbol asset ∈ seenAssets g ->
  xstocks_asset Date_parse detail asset digests g = Ok g' -> gathered_ok selected g'.
Proof.
  intros Hg Hnone Hin Hi Hseen H. unfold xstocks_asset in H. minv H. case_match.
  - match goal with R : _ = Ok g' |- _ => minv R end. apply set_xstocks_ok; try done. cbn. apply Forall_forall. intros r Hr.
    match goal with R : forallb _ _ = true |- _ => rewrite forallb_forall in R; apply R; by apply list_elem_of_In end.
  - match goal with R : _ = Ok g' |- _ => minv R end.
    replace g with (count_records 0 g) by (unfold count_records; rewrite Z.add_0_r; by destruct g). by apply set_xstocks_ok.
Qed.

Definition catalogued (selected : list SelectedAsset) : Prop := Forall (fun a => catalog_asset (symbol a) = Some a) selected.
Lemma issuer_asset_ok Date_parse selected issuer digests g v g' :
  catalogued selected -> gathered_ok selected g -> issuer_asset Date_parse selected issuer digests g v = Ok g' -> gathered_ok selected g'.
Proof.
  intros Hcat Hg H. unfold issuer_asset in H. minv H. breflect.
  match goal with R : exactAsset _ = Ok ?a |- _ => rename a into asset; apply exactAsset_catalog in R as [_ Hasset] end.
  match goal with R : existsb _ _ = true |- _ => apply existsb_exists in R as (item & Hitem & Hsym) end. breflect.
  apply list_elem_of_In in Hitem. assert (catalog_asset (symbol item) = Some item) as Hitem' by exact (proj1 (Forall_forall _ _) Hcat _ Hitem).
  rewrite Hsym, Hasset in Hitem'.
  injection Hitem' as <-.
  match goal with R : match issuer with _ => _ end = Ok g' |- _ => rename R into Hcase end.
  assert (gathered_ok selected (see_asset (symbol asset) a3 g)) as Hg'.
  { destruct Hg as [Hx Hs Hc]. split; cbn; [done| |done]. intros s Hin. apply elem_of_app. left. by apply Hs. }
  destruct issuer.
  - eapply xstocks_asset_ok; [exact Hg'| |done|done| |exact Hcase]; cbn.
    + apply om_get_None_keys. intros Hin. by apply (go_seen _ _ Hg) in Hin.
    + apply elem_of_app. right. left.
  - unfold backpack_asset in Hcase. by minv Hcase.
  - unfold ondo_asset in Hcase. minv Hcase. apply count_ok; [|done].
    repeat match goal with R : (if _ then _ else _) = Ok _ |- _ => destruct (has_value _) in R; minv R end; lia.
Qed.
Lemma issuer_group_ok Date_parse selected g v g' :
  catalogued selected -> gathered_ok selected g -> issuer_group Date_parse selected g v = Ok g' -> gathered_ok selected g'.
Proof.
  intros Hcat Hg H. unfold issuer_group in H. minv H. case_match; [|done].
  match goal with R : _ = Ok g' |- _ => minv R end.
  match goal with R : source_requests _ _ _ = Ok _ |- _ => apply (requests_ok _ selected) in R as Hr end.
  - match goal with R : foldM _ _ _ = Ok g' |- _ =>
      apply (foldM_inv _ (fun _ g => gathered_ok selected g)) in R; [done|done|] end.
    intros. by eapply issuer_asset_ok.
  - destruct Hg as [Hx Hs Hc]. by split.
Qed.

(** An accepted report names only assets of the frozen catalog, each once
    and at most fifteen; the records it gives of an event are those of a
    selected xStock, of its symbol and of the identifiers of the registry
    observed with it; and it stays within the limit of source records. *)
Theorem accepted_report (Date_parse : js_string -> option Z) (value : json) (requestedYear : Z) (v : ValidatedObservation) :
  validateObservationReport Date_parse value requestedYear = Ok v -> accepted v.
Proof.
  unfold validateObservationReport. intros H. minv H. breflect.
  match goal with R : mapM _ _ = Ok ?l |- _ => rename l into selected, R into Hsel end.
  assert (Hcat : catalogued selected). { eapply mapM_Forall; [exact Hsel|]. intros ? ? Ha. by apply exactAsset_catalog in Ha as [_ ?]. }
  match goal with R : foldM _ _ _ = Ok ?x |- _ => rename x into g, R into Hf end.
  apply (foldM_inv _ (fun _ g => gathered_ok selected g)) in Hf as [Hx Hs Hc].
  - assert (Hall : Forall (fun a => a ∈ SELECTED_ASSETS) selected).
    { eapply mapM_Forall; [exact Hsel|]. intros ? ? Hb. by apply exactAsset_catalog in Hb as [? _]. }
    apply mapM_length in Hsel. split; [exact (proj1 (Forall_forall _ _) Hall)|]. cbn [vo_selected vo_xstocks vo_requestObservations].
    split; [done|]. split; [lia|]. split; [done|lia].
  - split; cbn; [done|by intros s []%not_elem_of_nil|done].
  - intros. by eapply issuer_group_ok.
Qed.
