(* ===== verification/QualificationExamples.v ===== *)
(** * Issuer readers: a concrete dossier

    A report with two current events of one stock, a supplement that makes one
    announcement the candidate of both, and an observation of the mint, under
    simple parsers and the concrete chain of TxAccountProps. *)
From S2P Require Import Prelude Js TxBytes TxQuotes TxProps TxAccounts TxAccountProps Utf8 Json RpcPolicy.
From S2P Require Import IssuerSchema IssuerXstocks IssuerExamples QualificationSchema Qualification QualificationProps.
Open Scope Z_scope.

Definition qx_now : Z := 1767312000000.
Definition qx_time : json := ix_str "2026-01-01T12:00:00.000Z".
Definition qx_parse (s : js_string) : option Z := Some (qx_now - 1000).
Definition qx_false : json := JBool false.
Definition qx_bits (z : Z) : json := JStr (int_text z).
Definition qx_digest : string := "0000000000000000000000000000000000000000000000000000000000000001".
Definition qx_source_digest : json := ix_str (String.append "sha256:" qx_digest).
Definition qx_record (id : string) : json := ix_obj [
  ("eventId", ix_str id); ("sourceVersion", JNum (Int 1)); ("symbol", ix_str "KOx"); ("xstockIsin", ix_str "CH1"); ("spvSymbol", ix_str "KO");
  ("spvIsin", ix_str "US1"); ("action", ix_str "CashDividend"); ("status", ix_str "Initial"); ("multiplierOld", ix_str "1"); ("multiplierNew", ix_str "1.01");
  ("createdTime", qx_time); ("effectiveTime", qx_time); ("grossCashflowUsd", ix_str "0.5"); ("netCashflowUsd", JNull); ("withholdingTaxRate", JNull);
  ("fromUnits", JNull); ("toUnits", JNull); ("redemptionPriceUsd", JNull); ("notes", JNull); ("sourceDigest", qx_source_digest);
  ("officialExDate", JNull); ("settlementClassification", JNull); ("sourceFinalityAttested", qx_false)]%string.
Definition qx_asset_row : json := ix_obj [
  ("issuerId", ix_str "xstocks"); ("symbol", JStr (symbol ix_asset)); ("underlying", JStr (underlying ix_asset)); ("mint", JStr (mint ix_asset));
  ("decimals", JNum (Int 8)); ("tokenProgram", JStr (tokenProgram ix_asset)); ("chain", JStr (chain ix_asset))]%string.
Definition qx_identity : json := ix_obj [
  ("state", ix_str "observed"); ("value", ix_obj [
    ("issuerId", ix_str "xstocks"); ("chain", JStr (chain ix_asset)); ("symbol", JStr (symbol ix_asset)); ("expectedMint", JStr (mint ix_asset));
    ("observedMint", JStr (mint ix_asset)); ("mintMatches", JBool true); ("expectedDecimals", JNum (Int 8)); ("observedDecimals", JNull);
    ("decimalsReobserved", qx_false); ("decimalsMatch", JNull); ("expectedTokenProgram", JStr (tokenProgram ix_asset));
    ("observedTokenProgram", JNull); ("tokenProgramReobserved", qx_false)])]%string.
Definition qx_detail (records : list json) : json := ix_obj [
  ("registry", ix_obj [("state", ix_str "observed"); ("value", ix_obj [("isin", ix_str "CH1"); ("underlying", ix_obj [("symbol", ix_str "KO"); ("isin", ix_str "US1")])])]);
  ("corporateActions", ix_obj [("state", ix_str "observed"); ("value", ix_obj [("records", JArr records); ("fullyFetched", JBool true);
     ("annualCoverageAttested", qx_false); ("zeroDividendYearEstablished", qx_false)])])]%string.
Definition qx_report : json := ix_obj [
  ("schema", ix_str "dividendx-issuer-observations-v1"); ("requestedYear", JNum (Int 2025)); ("startedAt", qx_time); ("completedAt", qx_time);
  ("settlementReady", qx_false); ("selected", JArr [qx_asset_row]);
  ("issuers", JArr [ix_obj [("issuerId", ix_str "xstocks"); ("state", ix_str "observed"); ("stopped", JNull);
     ("requests", JArr [ix_obj [("endpoint", ix_str "/"); ("retrievedAt", qx_time); ("status", JNum (Int 200)); ("dataDigest", qx_source_digest); ("error", JNull)]]);
     ("assets", JArr [ix_obj [("asset", qx_asset_row); ("settlementReady", qx_false); ("identity", qx_identity); ("blockers", JArr []);
        ("detail", qx_detail [qx_record "a"; qx_record "b"])]])]]);
  ("blockers", JArr [])]%string.

(** ** The observation of the mint *)

Definition qx_hex : json := JStr (hex_text ex_digest).
Definition qx_profile : InspectedMintProfile :=
  match inspect ex_env ex_mint (Clock 20 0 0 0 1767225599 20) with Ok p => p | Err _ => Profile 0 0 (Scale 0 0 0 0) [] false end.
Definition qx_account (address owner : js_string) (data : bytes) : json :=
  ix_obj [("address", JStr address); ("owner", JStr owner); ("sha256", qx_hex); ("dataBase64", JStr (base64_encode data))]%string.
Definition qx_mint_fields : list (js_string * json) := prod_map text id <$> [
  ("schema", ix_str "dividendx-current-mint-observation-v1"); ("settlementReady", qx_false); ("historicalBeforeAfterBitsVerified", qx_false);
  ("liveCustodyAdmission", qx_false); ("retrievedAt", qx_time); ("contextSlot", JNum (Int 20)); ("genesisHash", ix_str SOLANA_MAINNET_GENESIS);
  ("commitment", ix_str "finalized"); ("mint", JStr (mint ix_asset)); ("endpoint", ix_str "https://rpc");
  ("accounts", JArr [qx_account (mint ix_asset) (tokenProgram ix_asset) [1; 2; 3]; qx_account CLOCK_ADDRESS CLOCK_OWNER ex_clock_data]);
  ("clock", ix_obj [("slot", ix_str "20"); ("epochStartTimestamp", ix_str "0"); ("epoch", ix_str "0"); ("leaderScheduleEpoch", ix_str "0");
     ("unixTimestamp", ix_str "1767225599"); ("contextSlot", JNum (Int 20))]);
  ("profile", ix_obj [("scale", ix_obj [("currentBits", qx_bits (currentBits (f_scale qx_profile))); ("pendingBits", qx_bits (pendingBits (f_scale qx_profile)));
       ("pendingEffectiveTimestamp", qx_bits (pendingEffectiveTimestamp (f_scale qx_profile))); ("activeBits", qx_bits (activeBits (f_scale qx_profile)))]);
     ("controlsFingerprint", JStr (hex_text (f_controlsFingerprint qx_profile))); ("decimals", JNum (Int (f_decimals qx_profile)));
     ("extensionsMask", qx_bits (f_extensionsMask qx_profile)); ("accountingFactorsSupported", JBool true)]);
  ("latestSourceMultiplier", ix_str "1"); ("latestSourceMultiplierMatchesActiveBits", JBool true)]%string.

(** ** The supplement *)

Definition qx_join (id : string) : json := ix_obj [
  ("joinStatus", ix_str "candidate"); ("issuerConfirmed", qx_false); ("sourceFinal", qx_false); ("settlementReady", qx_false); ("basis", ix_str "");
  ("eventId", ix_str id); ("sourceVersion", JNum (Int 1)); ("companyAnnouncementId", ix_str "q4")]%string.
Definition qx_supplement : json := ix_obj [
  ("schema", ix_str "dividendx-public-qualification-research-v1"); ("settlementReady", qx_false); ("historyPaginationIsAnnualCoverage", qx_false);
  ("asOf", ix_str "2025-12-31"); ("purpose", ix_str "");
  ("identity", ix_obj [("issuerId", ix_str "xstocks"); ("symbol", ix_str "KOx"); ("mint", JStr (mint ix_asset)); ("xstockIsin", ix_str "CH1");
     ("underlyingSymbol", ix_str "KO"); ("underlyingIsin", ix_str "US1");
     ("registryReferenceMarket", ix_obj [("mic", ix_str ""); ("abbreviation", ix_str ""); ("name", ix_str ""); ("timezone", ix_str "")])]);
  ("sources", JArr [ix_obj [("name", ix_str ""); ("url", ix_str "https://ko"); ("finalUrl", ix_str "https://ko"); ("status", JNum (Int 200));
     ("retrievedAt", qx_time); ("sha256", ix_str qx_digest)]]);
  ("companyAnnouncements", JArr [ix_obj [("id", ix_str "q4"); ("underlyingSymbol", ix_str "KO"); ("officialCivilExDate", ix_str "2025-11-28");
     ("payableDate", ix_str "2025-12-15"); ("grossCashflowUsd", ix_str "0.5"); ("currency", ix_str "USD"); ("sourceUrl", ix_str "https://ko");
     ("sourceSha256", ix_str qx_digest); ("futureAsOfObservation", qx_false)]]);
  ("candidateJoins", JArr [qx_join "a"; qx_join "b"]); ("issuerEvents", JArr []); ("openGates", JArr []);
  ("currentMintObservation", JObj qx_mint_fields)]%string.

Definition qx_url (s : js_string) : option url_parts := if bool_decide (take 6 s = text "https:") then Some (MkUrl (text "https:") [] []) else None.
Definition qx_env : reader_env :=
  MkEnv qx_parse js_leb qx_url (fun l => match l with [1] => Some qx_report | [2] => Some qx_supplement | _ => None end) (fun _ => Some [7]) ex_env.
Definition qx_build := buildQualificationDossier qx_env [1] qx_report (Some qx_supplement) (Some [2]) 2025 (Some qx_now) None.
Definition qx_dossier : QualificationDossier :=
  match qx_build with Ok d => d | Err _ => MkDossier 0 [] "" 0 ([], [], [], []) None None [] [] [] end.
Definition qx_flags (d : QualificationDossier) : list (list bool) :=
  (fun a => (fun rv => bool_decide (DUPLICATE ∈ rv_blockers rv)) <$> ar_revisions a) <$> qd_assets d.

Example qx_builds : is_ok qx_build = true. Proof. by vm_compute. Qed.
(** A registry without an underlying, which the reader accepts, makes the
    qualification refuse the whole report. *)
Definition qx_report_without_underlying : json := ix_obj [
  ("schema", ix_str "dividendx-issuer-observations-v1"); ("requestedYear", JNum (Int 2025)); ("startedAt", qx_time); ("completedAt", qx_time);
  ("settlementReady", qx_false); ("selected", JArr [qx_asset_row]);
  ("issuers", JArr [ix_obj [("issuerId", ix_str "xstocks"); ("state", ix_str "observed"); ("stopped", JNull); ("requests", JArr []);
     ("assets", JArr [ix_obj [("asset", qx_asset_row); ("settlementReady", qx_false); ("identity", qx_identity); ("blockers", JArr []);
        ("detail", ix_obj [
           ("registry", ix_obj [("state", ix_str "observed"); ("value", ix_obj [("isin", ix_str "CH1"); ("underlying", JNull)])]);
           ("corporateActions", ix_obj [("state", ix_str "skipped"); ("code", ix_str "")])])]])]]);
  ("blockers", JArr [])]%string.
Example qx_no_underlying :
  parseXstocksRegistry ix_registry ix_asset = Ok (MkIdentity (mint ix_asset) (mint ix_asset) 8 None, MkRegistry (text "1") (text "CH1") false None) /\
  validateObservationReport qx_parse qx_report_without_underlying 2025 = Err "malformed_registry_component"%string.
Proof. split; by vm_compute. Qed.

(** ** The theorems at this dossier *)

Example dossier_blockers_witness :
  carries_blockers qx_dossier /\ "duplicate_entitlement_candidate"%string ∈ qd_blockers qx_dossier /\ "term_not_matured"%string ∉ qd_blockers qx_dossier.
Proof.
  split; [|split; apply (bool_decide_unpack _); by vm_compute].
  apply (dossier_carries_blockers qx_env [1] qx_report (Some qx_supplement) (Some [2]) 2025 (Some qx_now) None qx_dossier). by vm_compute.
Defined.
Example dossier_duplicates_witness : duplicates_flagged qx_dossier /\ qx_flags qx_dossier = [[true; true]].
Proof.
  split; [|by vm_compute].
  apply (dossier_flags_duplicates qx_env [1] qx_report (Some qx_supplement) (Some [2]) 2025 (Some qx_now) None qx_dossier). by vm_compute.
Defined.
Definition qx_review := reviewCurrentMint qx_env qx_mint_fields ix_asset qx_now DEFAULT_MAX_OBSERVATION_AGE_MS [].
Definition qx_mint_review : CurrentMintReview := match qx_review with Ok m => m | Err _ => MkMintReview [] 0 None None false false false [] [] end.
Example mint_review_witness :
  mint_checked qx_env qx_mint_fields ix_asset qx_now DEFAULT_MAX_OBSERVATION_AGE_MS qx_mint_review /\ cm_contextSlot qx_mint_review = 20.
Proof.
  split; [|by vm_compute].
  apply (mint_review_sound qx_env qx_mint_fields ix_asset qx_now DEFAULT_MAX_OBSERVATION_AGE_MS [] qx_mint_review); by vm_compute.
Defined.
Definition qx_validated : ValidatedObservation :=
  match validateObservationReport qx_parse qx_report 2025 with Ok v => v | Err _ => MkValidated [] [] [] [] [] [] end.
Example accepted_report_witness : accepted qx_validated /\ length (vo_xstocks qx_validated) = 1%nat.
Proof. split; [apply (accepted_report qx_parse qx_report 2025 qx_validated); by vm_compute|by vm_compute]. Defined.
